(* ===== verification/_CoqProject ===== *)
-Q . S2P
Prelude.v
Sha256.v
Merkle.v
MerkleTree.v
MerkleInclusion.v
MerkleConsistency.v
Rlp.v
RlpProofs.v
Commitment.v
CommitmentProofs.v
Signature.v
SignatureProofs.v
GoTime.v
Canonical.v
CanonicalProofs.v
CanonicalInjective.v
Authority.v
AuthorityProofs.v
Delegation.v
DelegationProofs.v
ClaimEvidence.v
Attestation.v
AttestationProofs.v
CommitmentObject.v
Did.v
DidProofs.v
Binder.v
BinderProofs.v
Verification.v
VerificationProofs.v
GoBig.v
Keccak.v
Secp256k1.v
Ethereum.v
Wallet.v
WalletProofs.v
WalletRoundtrip.v
RpcQuantity.v
Abi.v
AbiProofs.v
Eip712.v
GoIO.v
Broadcast.v
BroadcastProofs.v
ChainCommitment.v
ChainCommitmentProofs.v
Asn1.v
Kms.v
KmsProofs.v
Base64.v
Resume.v
OAuth.v
OAuthProofs.v
Aes.v
Envelope.v
DidPkh.v
CryptoKeys.v
CryptoKeysProofs.v
Jwk.v
JwkProofs.v
Json.v
JsonProofs.v
JwkText.v
GoFloat.v
GoJson.v
GoJsonProofs.v
Wire.v
Jws.v
JwsProofs.v
JwtClaims.v
JwtClaimsProofs.v
RpcHttp.v
RpcHttpProofs.v
X509.v
X509Proofs.v
Aead.v
Cose.v
Eat.v
EatProofs.v
Hpke.v
