(* ===== verification/Prelude.v ===== *)
(** * Verification of the trust library

    The repository (Go module github.com/bperin/trust) is a library for
    cryptographic authorization: an [Authority] grants capabilities within a
    scope and a validity window, [delegation] narrows it to a child, an
    [Attestation] signs a claim under an authority, [verification] checks an
    attestation offline against a chain of authorities up to a root, and
    [commitment] binds many objects under one RFC 6962 Merkle root.  Below them lie
    canonical JSON (the identity of every object is a hash of its canonical bytes),
    signature dispatch, DID syntax, key binding and RLP.  Beside them stand the
    Ethereum packages (transactions, ABI, typed data, broadcasting, on-chain
    commitments that plug into the verification engine), JWK, JWS, COSE and EAT
    formats, X.509 paths, remote signers, OAuth grants with their access tokens, and
    the wrappers of the cryptographic primitives.

    ** Correspondence

    - Prelude.v: Go's results as the monad [outcome] (value, error, panic, or fuel
      exhausted), [int] and [uint64] as [Z] with wrap-around written out, bytes,
      [[32]byte], hexadecimal, the byte order, tactics and hint databases.
    - Sha256.v: src/crypto/hash/sha256.go as the class [Hasher], with SHA-256
      written out as its instance.
    - Merkle.v (src/merkle/tree.go); MerkleTree.v, MerkleInclusion.v and
      MerkleConsistency.v prove it.
    - Rlp.v (src/chain/rlp/rlp.go); RlpProofs.v.
    - Commitment.v (src/commitment: build, order, proof, consistency, serialize);
      CommitmentProofs.v; CommitmentObject.v (object.go, canonical form).
    - Signature.v (src/signature); SignatureProofs.v.  The key objects of
      src/crypto are tagged values; their [Sign] and [Verify] methods are the class
      [KeyOps], and [LawfulSigner] is what a signer promises to its clients.
    - GoTime.v: instants.  Canonical.v (src/canonical); CanonicalProofs.v and
      CanonicalInjective.v.
    - Authority.v, Delegation.v, ClaimEvidence.v (modules [Claim] and [Evidence])
      and Attestation.v (src/authority, src/delegation, src/claim, src/evidence,
      src/attestation), each with its proofs.
    - Did.v (src/identity/did); DidProofs.v.
    - Binder.v (src/verification/binder.go, binder_algorithm.go); BinderProofs.v.
    - Verification.v (the rest of src/verification); VerificationProofs.v.
    - GoBig.v: [math/big], byte slices with their bounds, [[20]byte].  Keccak.v
      (src/crypto/hash/keccak256.go).  GoIO.v: calls that act on a world, which may
      fail, panic or be cancelled.  Base64.v, Asn1.v, Aes.v: the parts of
      encoding/base64, encoding/asn1 and crypto/aes the code uses.
    - Secp256k1.v (src/crypto/secp256k1) over the class [Dcrd], and Ethereum.v
      (src/chain/ethereum), with their proofs.
    - Wallet.v (src/chain/wallet: transaction, wallet, sign, decode, validate);
      WalletProofs.v characterises the decoder, WalletRoundtrip.v signing.
    - RpcQuantity.v, module [Quantity] (src/chain/rpc/quantity.go), with its proofs.
    - Abi.v (src/chain/abi); AbiProofs.v.  Eip712.v (src/chain/eip712), with proofs.
    - Broadcast.v (src/chain/broadcast; the class [Client] is the interface of
      src/chain/rpc/client.go); BroadcastProofs.v.
    - ChainCommitment.v (src/chain/commitment); ChainCommitmentProofs.v.
    - Kms.v (src/kms and src/kms/der); KmsProofs.v.
    - Resume.v: handlers as sequences of atomic actions, and schedules of several of
      them.  OAuth.v (src/auth/oauth, src/auth/token, src/auth/password; the grant
      flows in module [Grants]); OAuthProofs.v.
    - Envelope.v (src/crypto/envelope/aes_kw.go) and Hpke.v (hpke.go), with proofs.
    - DidPkh.v (src/identity/didpkh), with its proofs.
    - CryptoKeys.v (src/crypto/rsa, ecdsa, ed25519, x25519, rand and the SHA-3 and
      BLAKE3 digests, one module each); CryptoKeysProofs.v.  Aead.v (src/crypto/aead
      and, in module [Hkdf], src/crypto/hkdf), with proofs.
    - Jwk.v (the members of src/identity/jwk/jwk.go; its instance [jwk_material]
      implements [KeyMaterial] for Binder.v); JwkProofs.v.  JwkText.v: its
      documents.  Jws.v (jws.go); JwsProofs.v.  Cose.v (cose.go), with proofs.
    - Json.v: encoding/json between text and [any], the parser, the scanner's
      limits and the printer; JsonProofs.v.  GoFloat.v: numbers as integers.  GoJson.v:
      encoding/json into Go types; GoJsonProofs.v.
    - Wire.v: reading canonical documents back (commitment.Unmarshal, proofs,
      verification.UnmarshalProvenance), with proofs.
    - JwtClaims.v (src/auth/claims; its instance [claim_signer] implements
      [ClaimSigner] for OAuth.v); JwtClaimsProofs.v.
    - RpcHttp.v (src/chain/rpc/http.go and client.go; [http_rpc] and [http_chain]
      implement [Client] and [RPCClient]); RpcHttpProofs.v.
    - X509.v (src/identity/x509); X509Proofs.v.
    - Eat.v (src/attestation/eat.go, eat_cbor.go); EatProofs.v.

    A file [X.v] holds data and operations under the source's names, executable
    throughout; the file [XProofs.v] holds the theorems, and ends with concrete
    inputs on which each theorem with hypotheses is applied.  A Go pointer or nil
    interface is an [option]; a function that mutates its argument returns it.
    Error values are constructors; texts and indices inside errors are left out.

    ** What the theorems show

    - Merkle: the level-wise root is the recursive RFC 6962 hash; inclusion and
      consistency proofs are complete, and sound unless two of the strings hashed
      collide; verification is total up to 2^62 leaves.
    - Commitment: [Build] and [VerifyCommitment] are characterised, roots bind leaf
      lists, proofs are complete and sound, the four adapters inherit this.
    - RLP: decoding is total, inverse to encoding and canonical; the only panic is
      a wrapping length header.
    - Canonical JSON: bytes determine the document, do not depend on member order,
      and keys are ordered by UTF-16 code units.  The bytes are JSON text of the
      same document, an integer below 2^53 keeps its digits, and commitments, proofs
      and provenance traces come back from theirs.
    - JSON: parsing returns on every input, and inverts printing.
    - Authority, attestation, signature: verification accepts exactly under the
      stated conditions (the scope of a claim is compared with its authority's literally,
      value by value), signing produces what verification accepts, no key is used
      under an algorithm that is not its own.
    - Delegation: no chain permits what its root does not; [Derive] is correct.
    - Verification: a valid result establishes the chain of trust and, end to end,
      that the root permits what is claimed; the report is complete and its
      failures stay within the taxonomy; traces verify exactly against the inputs.
    - Key binding and DID: base58 is exact, a bound key is the one that the material of
      its verification method stands for, under an algorithm the method permits, DIDs are spelled by their components, and the did:pkh documents
      are those of well-formed eip155 accounts.
    - Wallet: the decoder accepts exactly the canonical signed encodings, decoding
      inverts signing, the reported sender signed the reported fields, and
      validation is characterised.
    - ABI: decoding inverts encoding, is total and returns values of the requested
      types.  EIP-712: a digest binds its domain and its struct, and its pre-image
      is never that of a transaction or a personal message.
    - Broadcast: the polling loop refines an abstract polling relation, returns as
      soon as a turn of that relation is final, and otherwise never; over HTTP it
      makes one request per poll and returns the receipt the node describes.
    - HTTP: a call succeeds exactly on a reply with its own id and no error; replies
      to other requests and oversized bodies are refused.
    - On-chain commitments: verification is characterised, proofs made by
      [Proof] verify, [Publish] sends the transaction it should, and an engine that
      uses the checker establishes, commitment after commitment, inclusion under a root
      that is on chain.
    - KMS: accepted signatures are the canonical DER ones, recovery ids are exact,
      accepted public keys are keys.
    - JWK: an accepted key is of the declared type and algorithm, secp256k1 keys
      survive their JWK, private members are refused in public keys.  JWS, COSE and
      tokens: verification accepts exactly the messages that are signed under the
      algorithm of the key and meet the policy, and accepts what is signed.
    - EAT: an accepted token names its attestation by hash; signed attestations whose
      claim is legible JSON come back as they were, unsigned ones never do.  X.509: path verification is characterised, and a
      revoked leaf is refused.
    - OAuth: under every interleaving of requests a code and a refresh token are
      redeemed at most once; rotation and reuse detection do what they say.
    - Primitives: constructors accept exactly the valid keys and their methods never
      panic on those; AES decryption inverts encryption and GCM is lawful; key unwrap
      and authenticated decryption accept exactly what wrapping and encryption
      return; HKDF outputs are prefixes of one stream; an HPKE receiver opens, in
      order, what its sender sealed.

    Where the code departs from its comments, a theorem says so:
    [VerifyInclusion_max_size_unbound], [VerifyConsistency_diverges],
    [Decode_panics], [scopeSubset_inverted], [depth_zero_unbounded],
    [canonical_not_idempotent], [CanonicalHash_collision], [secp256k1_y_ignored],
    [Verify_depends_on_wall_clock], [gating_not_transitive], [linkEqual_hex_case],
    [keyVersionAt_latest], [Verify_unreduced_s], [SignTx_leading_zero],
    [ParseBlockNumber_sign], [FetchFees_gas_price_fails],
    [ParsePublicKeyDER_surplus], [RefreshTokenGrant_expired_first], [reuse_race],
    [Unmarshal_off_curve_panics], [Bind_off_curve_panics],
    [malformed_exp_never_expires], [max_limit_fails], [SendTx_null],
    [PSSEqual_ignores_hash], [off_curve_panics], [UnmarshalEAT_refused],
    [UnmarshalEAT_unsigned].

    ** Fuel

    [largestPow2LessThan] gets 64 rounds: an [int] doubles at most 63 times before
    it wraps to zero, where the loop is stuck.  [build_levels] gets the number of
    leaves, since levels halve.  [Decode] gets two calls per input byte, and so does
    the JSON parser.  The DID loop and UTF-8 decoding consume a byte per step.  Base58
    carries are below 58, so two rounds do.  Seventeen digits tell any two doubles
    apart.  Each bound is the subject of a theorem or lemma
    ([VerifyConsistency_total], [New_ok], [Decode_terminates],
    [parse_document_total], [raw_document_total], [parse_reassembles],
    [runes_from_fuel], [decodeBase58BTC_correct]), except the last, which is proved
    for integers below 2^53 ([jint_canonical]): another double that needed more
    digits would show as [OutOfFuel], never as wrong bytes.  The polling loop of
    [WaitForReceipt] has one unit per poll and may run for ever, as in the source:
    [wait_loop_refines] says when some fuel is enough.  [GenerateKey] consumes the
    list of draws of the random source.  Digits of a number get its bit length.

    ** Parameters

    Code outside the repository enters as a class of functions; what the code relies on
    of it is a second class of laws, each with a small instance that has them: the CBOR
    encoder ([CborLib]) and codec ([EatCbor], [EatCborLaws]), the arithmetic of keys
    ([KeyOps]), the decred curve library ([Dcrd], [DcrdLaws]), the curves of the standard
    library ([Curves], [KoblitzLaws]), the key types of crypto ([RsaLib], [EcdsaLib],
    [Ed25519Lib], [X25519Lib] with their laws), XChaCha20-Poly1305 ([ChaCha],
    [ChaChaLaws]), HKDF ([HkdfLib], [HkdfLaws]), HPKE ([HpkeLib], [HpkeLaws]), SHA-3 and
    BLAKE3 ([ExtraHashes]), the JOSE and COSE libraries ([Jwx], [JwxLaws], [JwsLib],
    [CoseLib], [CoseLaws]), crypto/x509 ([X509Lib], [X509Laws]), bcrypt ([Bcrypt]), the
    HTTP transport ([Http]), the random source ([Random]) and the stores a deployment
    provides for OAuth ([Env], with the atomicity their interface demands in
    [StoreLaws]).  [Arch] is what the processor makes of a float that fits no integer.
    A commitment checker comes with the world its calls run in ([CommitmentChecker]).
    The interfaces between packages have implementations here: [KeyMaterial],
    [ClaimSigner], [Client] and [RPCClient].  Clocks and contexts are part of the world
    or arguments.

    ** Not modelled

    Texts of errors, and the String methods that only serve them.  auth/session declares
    a record and a storage interface; cmd/attestation is a command line that prints one
    signature; nothing in either computes.  validateECPoint and ecCurveParams of
    identity/jwk are never called.  Decoding JSON into a slice that is already filled
    sees the elements of the slice, but not older ones in its backing array, which a
    document can reach only by repeating a member with a longer list.

    ** Plan

    What would come next: the shortest-digits bound for every double, and with it the
    EAT round trip for every finite monetary limit; that every point of a curve is found
    from its compressed form, which needs the primality of the field; and the decoding of
    a bound proof, which is an argument of the on-chain checker. *)
From Stdlib.Strings Require Export Byte.
From Stdlib Require Export ZifyNat.
From stdpp Require Export base numbers list strings option decidable sets.



(** ** Outcomes of Go calls *)

(** What a Go call can do: return a value, return a non-nil [error], raise a
    run-time panic (index or slice bounds out of range, nil dereference), or,
    for the loops and recursions whose termination is a theorem and not a
    matter of syntax, exhaust the fuel the model gave it. *)
Inductive outcome (E A : Type) : Type :=
| Ok (a : A)
| Err (e : E)
| Panic
| OutOfFuel.
Arguments Ok {E A} a.
Arguments Err {E A} e.
Arguments Panic {E A}.
Arguments OutOfFuel {E A}.

#[global] Instance outcome_ret E : MRet (outcome E) := @Ok E.
#[global] Instance outcome_bind E : MBind (outcome E) := fun A B f m =>
  match m with
  | Ok a => f a
  | Err e => Err e
  | Panic => Panic
  | OutOfFuel => OutOfFuel
  end.

(** The guard [if !b { return e }]. *)
Definition check {E} (b : bool) (e : E) : outcome E unit :=
  if b then Ok tt else Err e.

(** [fmt.Errorf("%w", err)]: an error crossing a package boundary. *)
Definition wrap_err {E F A} (f : E → F) (m : outcome E A) : outcome F A :=
  match m with
  | Ok a => Ok a
  | Err e => Err (f e)
  | Panic => Panic
  | OutOfFuel => OutOfFuel
  end.

(** [s[i]]: a read out of range panics. *)
Definition index {E A} (l : list A) (i : nat) : outcome E A :=
  match l !! i with
  | Some x => Ok x
  | None => Panic
  end.

(** A [range] loop whose body may return early with an error. *)
Fixpoint each {E A B} (f : nat → A → outcome E B) (i : nat) (l : list A) : outcome E (list B) :=
  match l with
  | [] => Ok []
  | x :: l' => y ← f i x; ys ← each f (S i) l'; Ok (y :: ys)
  end.

(** Each element is processed in the world the one before left. *)
Fixpoint in_turn {A W} (R : A → W → W → Prop) (l : list A) (w : W) : Prop :=
  match l with
  | [] => True
  | x :: l' => ∃ w', R x w w' ∧ in_turn R l' w'
  end.

Definition is_ok {E A} (m : outcome E A) : bool :=
  match m with Ok _ => true | _ => false end.

(** ** Machine integers *)

(** Go's [uint64] and, on the 64-bit platforms the module targets, [int]. *)
Definition u64 (z : Z) : Z := z `mod` 2 ^ 64.
Definition i64 (z : Z) : Z := (z + 2 ^ 63) `mod` 2 ^ 64 - 2 ^ 63.
Definition max_int : Z := 2 ^ 63 - 1.

Definition is_u64 (z : Z) : Prop := (0 ≤ z < 2 ^ 64)%Z.
Definition is_int (z : Z) : Prop := (- 2 ^ 63 ≤ z < 2 ^ 63)%Z.

(** [len(s)], an [int]. *)
Notation zlen l := (Z.of_nat (length l)).

(** ** Bytes *)

#[global] Instance byte_eq_decision : EqDecision byte := Byte.byte_eq_dec.
#[global] Instance byte_inhabited : Inhabited byte := populate x00.

Notation bytes := (list byte).

Definition b2z (b : byte) : Z := Z.of_N (Byte.to_N b).
(** The conversion [byte(n)] keeps the low eight bits. *)
Definition z2b (z : Z) : byte := default x00 (Byte.of_N (Z.to_N (z `mod` 256))).

(** [bytes.Compare]: bytewise lexicographic order, a proper prefix first. *)
Fixpoint bytes_compare (a b : bytes) : comparison :=
  match a, b with
  | [], [] => Eq
  | [], _ :: _ => Lt
  | _ :: _, [] => Gt
  | x :: a', y :: b' =>
      match (b2z x ?= b2z y)%Z with
      | Eq => bytes_compare a' b'
      | c => c
      end
  end.

Definition bytes_ltb (a b : bytes) : bool :=
  match bytes_compare a b with Lt => true | _ => false end.
Definition bytes_leb (a b : bytes) : bool :=
  match bytes_compare a b with Gt => false | _ => true end.

Definition bytes_eqb (a b : bytes) : bool :=
  match bytes_compare a b with Eq => true | _ => false end.

(** [subtle.ConstantTimeCompare(a, b) == 1]: equal lengths and equal contents. *)
Definition ct_equal (a b : bytes) : bool := bool_decide (a = b).

(** Big-endian value of a byte string ([big.Int.SetBytes]). *)
Definition be_value (bs : bytes) : Z := foldl (λ acc b, acc * 256 + b2z b)%Z 0%Z bs.

(** The [n] low-order bytes of [z], most significant first. *)
Fixpoint be_bytes (n : nat) (z : Z) : bytes :=
  match n with
  | O => []
  | S m => be_bytes m (z `div` 256)%Z ++ [z2b z]
  end.

(** ** Go strings are byte strings *)

Definition str_bytes (s : string) : bytes := String.list_byte_of_string s.
(** The operator [<] and [<=] on strings. *)
Definition str_ltb (a b : string) : bool := bytes_ltb (str_bytes a) (str_bytes b).
Definition str_leb (a b : string) : bool := bytes_leb (str_bytes a) (str_bytes b).

(** ** Fixed-size arrays: the type [[32]byte] *)

Record array32 : Type := Arr32 {
  arr : bytes;
  arr_ok : bool_decide (length arr = 32%nat)
}.

(** [var h [32]byte; copy(h[:], b)]: the first 32 bytes, zero-padded. *)
Definition fill32 (b : bytes) : bytes := take 32 (b ++ replicate 32 x00).

Lemma fill32_length b : bool_decide (length (fill32 b) = 32%nat).
Proof. apply bool_decide_pack. unfold fill32. rewrite length_take, length_app, length_replicate. lia. Qed.

(** A proof of a true test, in a form that computes to [I]. *)
Definition norm_true (b : bool) : b → b :=
  match b with true => λ _, I | false => λ f, f end.

Definition copy32 (b : bytes) : array32 := Arr32 (fill32 b) (norm_true _ (fill32_length b)).
Definition zero32 : array32 := copy32 [].

#[global] Instance array32_eq_decision : EqDecision array32.
Proof.
  refine (λ a b, cast_if (decide (arr a = arr b))); [|congruence].
  destruct a, b. simpl in *. subst. f_equal. apply proof_irrel.
Defined.

(** ** Hexadecimal *)

Definition hex_digit (n : Z) : byte :=
  if (n <? 10)%Z then z2b (48 + n) else z2b (87 + n).

(** [hex.EncodeToString]: two lowercase digits per byte. *)
Definition hex_bytes (bs : bytes) : bytes :=
  b ← bs; [hex_digit (b2z b `div` 16); hex_digit (b2z b `mod` 16)].
Definition hex_encode (bs : bytes) : string := String.string_of_list_byte (hex_bytes bs).

Definition hex_value (c : byte) : option Z :=
  let z := b2z c in
  if (48 <=? z)%Z && (z <=? 57)%Z then Some (z - 48)%Z
  else if (97 <=? z)%Z && (z <=? 102)%Z then Some (z - 87)%Z
  else if (65 <=? z)%Z && (z <=? 70)%Z then Some (z - 55)%Z
  else None.

(** [hex.DecodeString]: both cases of the digits are accepted, an odd length
    or a non-digit is an error. *)
Fixpoint unhex_bytes (cs : bytes) : option bytes :=
  match cs with
  | [] => Some []
  | [_] => None
  | hi :: lo :: cs' =>
      h ← hex_value hi; l ← hex_value lo; rest ← unhex_bytes cs';
      Some (z2b (16 * h + l) :: rest)
  end.
Definition hex_decode (s : string) : option bytes := unhex_bytes (str_bytes s).

(** ** Tactics and hint databases *)

(** Facts about the byte and integer conversions, for [lia] goals. *)
Create HintDb go_bytes.
(** Length equations of the byte-string operations. *)
Create HintDb go_len.

(** Case on every boolean test, option or outcome scrutinised in a hypothesis
    [H], dropping the branches that contradict it. *)
Ltac go_inv H :=
  repeat (first
    [ discriminate H
    | progress cbn in H
    | match type of H with
      | context [if ?b then _ else _] => destruct b eqn:?
      | context [match ?x with _ => _ end] => destruct x eqn:?
      end ]).

Ltac arith := try unfold is_u64, is_int, max_int in *; lia.

(** [lia] with the Euclidean equations of divisions and remainders. *)
Ltac div_lia := zify; Z.to_euclidean_division_equations; lia.

(** ** Lemmas on integers and bytes *)

Lemma u64_small z : is_u64 z → u64 z = z.
Proof. intros H. unfold u64. apply Z.mod_small. exact H. Qed.

Lemma u64_range z : is_u64 (u64 z).
Proof. unfold is_u64, u64. apply Z.mod_pos_bound. lia. Qed.

Lemma i64_small z : is_int z → i64 z = z.
Proof. intros H. unfold i64, is_int in *. rewrite Z.mod_small; lia. Qed.

Lemma i64_range z : is_int (i64 z).
Proof.
  unfold is_int, i64. pose proof (Z.mod_pos_bound (z + 2 ^ 63) (2 ^ 64) ltac:(lia)). lia.
Qed.

(** Comparisons of [int]s that hold natural numbers. *)
Lemma zeqb_nat a b : (Z.of_nat a =? Z.of_nat b)%Z = (a =? b)%nat.
Proof. destruct (Nat.eqb_spec a b); [apply Z.eqb_eq|apply Z.eqb_neq]; lia. Qed.

Lemma zltb_nat a b : (Z.of_nat a <? Z.of_nat b)%Z = (a <? b)%nat.
Proof. destruct (Nat.ltb_spec a b); [apply Z.ltb_lt|apply Z.ltb_ge]; lia. Qed.

Lemma zleb_nat a b : (Z.of_nat a <=? Z.of_nat b)%Z = (a <=? b)%nat.
Proof. destruct (Nat.leb_spec a b); [apply Z.leb_le|apply Z.leb_gt]; lia. Qed.

Lemma b2z_range b : (0 ≤ b2z b < 256)%Z.
Proof. unfold b2z. pose proof (Byte.to_N_bounded b). lia. Qed.

Lemma z2b_b2z b : z2b (b2z b) = b.
Proof.
  unfold z2b. rewrite Z.mod_small by apply b2z_range.
  unfold b2z. rewrite N2Z.id, Byte.of_to_N. reflexivity.
Qed.

Lemma b2z_z2b z : b2z (z2b z) = (z `mod` 256)%Z.
Proof.
  unfold z2b. pose proof (Z.mod_pos_bound z 256 ltac:(lia)) as Hr.
  destruct (Byte.of_N (Z.to_N (z `mod` 256))) as [b|] eqn:E; simpl.
  - unfold b2z. rewrite (Byte.to_of_N _ E). lia.
  - apply Byte.of_N_None_iff in E. lia.
Qed.

Lemma b2z_z2b_small z : (0 ≤ z < 256)%Z → b2z (z2b z) = z.
Proof. intros H. rewrite b2z_z2b. by apply Z.mod_small. Qed.

Lemma b2z_inj a b : b2z a = b2z b → a = b.
Proof. intros H. rewrite <- (z2b_b2z a), <- (z2b_b2z b). by f_equal. Qed.

#[export] Hint Resolve u64_range i64_range b2z_range b2z_inj : go_bytes.
#[export] Hint Rewrite z2b_b2z : go_bytes.

(** ** Lemmas on loops *)

Lemma wrap_err_Ok {E E' A} (f : E → E') (m : outcome E A) x : wrap_err f m = Ok x ↔ m = Ok x.
Proof. destruct m; cbn; naive_solver. Qed.

Lemma in_turn_impl {A W} (R R' : A → W → W → Prop) l w : (∀ x w w', R x w w' → R' x w w') → in_turn R l w → in_turn R' l w.
Proof. intros Himp. revert w. induction l as [|x l IH]; intros w; [done|]. intros (w' & H & Hl). exists w'. auto. Qed.

#[export] Instance Ok_inj E A : Inj (=) (=) (@Ok E A).
Proof. by intros a b [= ->]. Qed.

Lemma bind_Ok {E A B} (m : outcome E A) (f : A → outcome E B) y :
  mbind f m = Ok y ↔ ∃ x, m = Ok x ∧ f x = Ok y.
Proof. destruct m; cbn; naive_solver. Qed.

Lemma each_Forall2 {E A B} (f : A → outcome E B) i l ys :
  each (λ _, f) i l = Ok ys ↔ Forall2 (λ x y, f x = Ok y) l ys.
Proof.
  revert i ys. induction l as [|x l IH]; intros i ys.
  - split; [by intros [= <-]|by inversion 1].
  - simpl. split.
    + destruct (f x) as [y| | |] eqn:Ex; simpl; try done.
      destruct (each _ _ l) as [zs| | |] eqn:Es; simpl; try done. intros [= <-].
      constructor; [done|]. by eapply IH.
    + inversion 1 as [|? y ? zs Hy Hz]; subst. rewrite Hy. simpl. by rewrite (proj2 (IH (S i) zs) Hz).
Qed.

(** ** Lemmas on the lexicographic order *)

Lemma bytes_compare_refl a : bytes_compare a a = Eq.
Proof. induction a as [|x a IH]; simpl; [done|]. by rewrite Z.compare_refl. Qed.

Lemma bytes_compare_eq a b : bytes_compare a b = Eq ↔ a = b.
Proof.
  split; [|intros ->; apply bytes_compare_refl].
  revert b. induction a as [|x a IH]; intros [|y b]; simpl; try done.
  destruct (b2z x ?= b2z y)%Z eqn:E; try done.
  apply Z.compare_eq, b2z_inj in E as ->. intros H. f_equal. auto.
Qed.

Lemma bytes_eqb_eq a b : bytes_eqb a b = true ↔ a = b.
Proof. rewrite <- bytes_compare_eq. unfold bytes_eqb. destruct (bytes_compare a b); split; congruence. Qed.

Lemma bytes_compare_antisym a b : bytes_compare b a = CompOpp (bytes_compare a b).
Proof.
  revert b. induction a as [|x a IH]; intros [|y b]; simpl; try done.
  rewrite Z.compare_antisym. destruct (b2z x ?= b2z y)%Z; simpl; auto.
Qed.

Lemma bytes_compare_lt_trans a b c :
  bytes_compare a b = Lt → bytes_compare b c = Lt → bytes_compare a c = Lt.
Proof.
  revert b c. induction a as [|x a IH]; intros [|y b] [|z c]; simpl; try done.
  destruct (Z.compare_spec (b2z x) (b2z y)) as [E1|E1|E1];
    destruct (Z.compare_spec (b2z y) (b2z z)) as [E2|E2|E2]; try done;
    intros H1 H2;
    destruct (Z.compare_spec (b2z x) (b2z z)); try lia; eauto; done.
Qed.

Lemma bytes_ltb_lt a b : bytes_ltb a b = true ↔ bytes_compare a b = Lt.
Proof. unfold bytes_ltb. destruct (bytes_compare a b); split; congruence. Qed.

Lemma bytes_ltb_irrefl a : bytes_ltb a a = false.
Proof. unfold bytes_ltb. by rewrite bytes_compare_refl. Qed.

Lemma bytes_ltb_trans a b c : bytes_ltb a b → bytes_ltb b c → bytes_ltb a c.
Proof.
  intros H1%Is_true_true%bytes_ltb_lt H2%Is_true_true%bytes_ltb_lt.
  apply Is_true_true, bytes_ltb_lt. eauto using bytes_compare_lt_trans.
Qed.

Lemma bytes_leb_ltb a b : bytes_leb a b = negb (bytes_ltb b a).
Proof.
  unfold bytes_leb, bytes_ltb. rewrite (bytes_compare_antisym a b).
  by destruct (bytes_compare a b).
Qed.

Lemma bytes_leb_refl a : bytes_leb a a = true.
Proof. by rewrite bytes_leb_ltb, bytes_ltb_irrefl. Qed.

Lemma bytes_leb_cases a b : bytes_leb a b = true → a = b ∨ bytes_ltb a b = true.
Proof.
  unfold bytes_leb, bytes_ltb. destruct (bytes_compare a b) eqn:E; try done; auto.
  apply bytes_compare_eq in E. auto.
Qed.

Lemma bytes_leb_total a b : bytes_leb a b = true ∨ bytes_leb b a = true.
Proof.
  rewrite !bytes_leb_ltb. unfold bytes_ltb. rewrite (bytes_compare_antisym a b).
  destruct (bytes_compare a b); auto.
Qed.

Lemma bytes_leb_antisym a b : bytes_leb a b = true → bytes_leb b a = true → a = b.
Proof.
  intros H1 H2. destruct (bytes_leb_cases a b H1) as [|H]; [done|].
  rewrite bytes_leb_ltb, H in H2. done.
Qed.

Lemma bytes_leb_trans a b c : bytes_leb a b = true → bytes_leb b c = true → bytes_leb a c = true.
Proof.
  intros H1 H2. destruct (bytes_leb_cases _ _ H1) as [->|H1']; [done|].
  destruct (bytes_leb_cases _ _ H2) as [->|H2']; [done|].
  rewrite bytes_leb_ltb. apply Is_true_true in H1'. apply Is_true_true in H2'.
  pose proof (bytes_ltb_trans _ _ _ H1' H2') as H%Is_true_true%bytes_ltb_lt.
  unfold bytes_ltb. by rewrite (bytes_compare_antisym a c), H.
Qed.

(** ** Lemmas on arrays *)

Lemma arr_length (a : array32) : length (arr a) = 32%nat.
Proof. exact (bool_decide_unpack _ (arr_ok a)). Qed.

Lemma arr_inj (a b : array32) : arr a = arr b → a = b.
Proof. destruct a, b; simpl. intros ->. f_equal. apply proof_irrel. Qed.

Lemma fill32_id b : length b = 32%nat → fill32 b = b.
Proof.
  intros H. unfold fill32. rewrite take_app_le by lia. apply take_ge. lia.
Qed.

Lemma copy32_arr (a : array32) : copy32 (arr a) = a.
Proof. apply arr_inj. apply fill32_id, arr_length. Qed.

Lemma arr_copy32 b : length b = 32%nat → arr (copy32 b) = b.
Proof. apply fill32_id. Qed.

Lemma ct_equal_true a b : ct_equal a b = true ↔ a = b.
Proof. unfold ct_equal. apply bool_decide_eq_true. Qed.

Lemma ct_equal_refl a : ct_equal a a = true.
Proof. by apply ct_equal_true. Qed.

#[export] Hint Rewrite copy32_arr arr_length : go_len.
#[export] Hint Resolve arr_length arr_inj ct_equal_refl : go_bytes.

(** ** Lemmas on big-endian integers *)

Lemma be_value_snoc bs b : be_value (bs ++ [b]) = (be_value bs * 256 + b2z b)%Z.
Proof. unfold be_value. by rewrite foldl_app. Qed.

Lemma be_value_range bs : (0 ≤ be_value bs < 256 ^ zlen bs)%Z.
Proof.
  induction bs as [|b bs IH] using rev_ind; [done|].
  rewrite be_value_snoc, length_app, Nat2Z.inj_add, Z.pow_add_r by (simpl; lia).
  pose proof (b2z_range b). simpl. nia.
Qed.

Lemma be_value_zeros k bs : be_value (replicate k x00 ++ bs) = be_value bs.
Proof.
  induction bs as [|b bs IH] using rev_ind.
  - rewrite app_nil_r. induction k as [|k IH]; [done|].
    replace (S k) with (k + 1)%nat by lia. rewrite replicate_add. simpl.
    rewrite be_value_snoc, IH. done.
  - by rewrite app_assoc, !be_value_snoc, IH.
Qed.

Lemma be_bytes_length n z : length (be_bytes n z) = n.
Proof. revert z. induction n as [|n IH]; intros z; simpl; [done|]. rewrite length_app, IH. simpl. lia. Qed.

Lemma be_value_bytes n z : be_value (be_bytes n z) = (z `mod` 256 ^ Z.of_nat n)%Z.
Proof.
  revert z. induction n as [|n IH]; intros z.
  { simpl. by rewrite Z.mod_1_r. }
  cbn [be_bytes]. rewrite be_value_snoc, IH, b2z_z2b, Nat2Z.inj_succ, Z.pow_succ_r by lia.
  rewrite Z.rem_mul_r by lia. lia.
Qed.

Lemma be_bytes_value bs : be_bytes (length bs) (be_value bs) = bs.
Proof.
  induction bs as [|b bs IH] using rev_ind; [done|].
  rewrite length_app, Nat.add_comm. simpl. rewrite be_value_snoc.
  pose proof (b2z_range b).
  rewrite Z.div_add_l by lia. rewrite (Z.div_small (b2z b)), Z.add_0_r, IH by lia.
  f_equal. rewrite <- (z2b_b2z b) at 2. unfold z2b. f_equal. f_equal. f_equal.
  rewrite Z.add_comm, Z_mod_plus_full. done.
Qed.

(** ** Lemmas on hexadecimal *)

Lemma hex_value_digit n : (0 ≤ n < 16)%Z → hex_value (hex_digit n) = Some n.
Proof.
  intros H. assert (n = 0 ∨ n = 1 ∨ n = 2 ∨ n = 3 ∨ n = 4 ∨ n = 5 ∨ n = 6 ∨ n = 7 ∨
    n = 8 ∨ n = 9 ∨ n = 10 ∨ n = 11 ∨ n = 12 ∨ n = 13 ∨ n = 14 ∨ n = 15)%Z as Hn by lia.
  repeat destruct Hn as [->|Hn]; try reflexivity. by subst.
Qed.

Lemma unhex_hex bs : unhex_bytes (hex_bytes bs) = Some bs.
Proof.
  induction bs as [|b bs IH]; [done|].
  change (hex_bytes (b :: bs)) with
    (hex_digit (b2z b `div` 16) :: hex_digit (b2z b `mod` 16) :: hex_bytes bs).
  pose proof (b2z_range b).
  pose proof (Z.mod_pos_bound (b2z b) 16 ltac:(lia)).
  cbn [unhex_bytes]. rewrite !hex_value_digit by (try apply Z.mod_pos_bound; try split;
    try apply Z.div_pos; try apply Z.div_lt_upper_bound; lia).
  simpl. rewrite IH. simpl. rewrite <- Z.div_mod by lia. by rewrite z2b_b2z.
Qed.

Lemma str_bytes_of_list bs : str_bytes (String.string_of_list_byte bs) = bs.
Proof. apply String.list_byte_of_string_of_list_byte. Qed.

Lemma string_of_str_bytes s : String.string_of_list_byte (str_bytes s) = s.
Proof. apply String.string_of_list_byte_of_string. Qed.

Lemma hex_decode_encode bs : hex_decode (hex_encode bs) = Some bs.
Proof. unfold hex_decode, hex_encode. rewrite str_bytes_of_list. apply unhex_hex. Qed.

Lemma hex_encode_inj a b : hex_encode a = hex_encode b → a = b.
Proof. intros H. apply (f_equal hex_decode) in H. rewrite !hex_decode_encode in H. congruence. Qed.

Lemma str_bytes_inj a b : str_bytes a = str_bytes b → a = b.
Proof. intros H. rewrite <- (string_of_str_bytes a), <- (string_of_str_bytes b). by f_equal. Qed.

#[export] Hint Resolve hex_encode_inj str_bytes_inj : go_bytes.

(** ** Facts about all bytes, by evaluation *)

Definition all_bytes : list byte := z2b <$> seqZ 0 256.

Lemma all_bytes_in b : b ∈ all_bytes.
Proof. rewrite <- (z2b_b2z b). apply list_elem_of_fmap_2, elem_of_seqZ. pose proof (b2z_range b). lia. Qed.

(** A decidable fact of one byte, and of two, by evaluation. *)
Lemma by_bytes (P : byte → bool) : forallb P all_bytes = true → ∀ b, P b = true.
Proof. intros HP b. rewrite forallb_forall in HP. apply HP, list_elem_of_In, all_bytes_in. Qed.

Lemma by_bytes_eq (f g : byte → byte) : forallb (λ b, Byte.eqb (f b) (g b)) all_bytes = true → ∀ b, f b = g b.
Proof. intros HP b. by apply Byte.byte_dec_bl, (by_bytes (λ b, Byte.eqb (f b) (g b))). Qed.
