(* ===== verification/Sha256.v ===== *)
(** * SHA-256

    The hash the program calls everywhere, src/crypto/hash/sha256.go, as the class
    [Hasher]; the function itself is the standard library's and is written out
    (FIPS 180-4) so that concrete inputs evaluate.  Theorems hold for every
    [Hasher]; collisions are hypotheses about the strings actually hashed. *)
From S2P Require Import Prelude.
#[local] Open Scope Z_scope.

(** What the Merkle tree and the canonical hash use of a hash function: a total
    map from byte strings to 32-byte digests. *)
Class Hasher : Type := Sum : bytes → array32.

Module Sha256.

Definition w32 (z : Z) : Z := Z.land z 0xffffffff.
Definition rotr (n x : Z) : Z := w32 (Z.lor (Z.shiftr x n) (Z.shiftl x (32 - n))).

Definition Ch (x y z : Z) : Z := Z.lxor (Z.land x y) (Z.ldiff z x).
Definition Maj (x y z : Z) : Z := Z.lxor (Z.lxor (Z.land x y) (Z.land x z)) (Z.land y z).
Definition Sigma0 (x : Z) : Z := Z.lxor (Z.lxor (rotr 2 x) (rotr 13 x)) (rotr 22 x).
Definition Sigma1 (x : Z) : Z := Z.lxor (Z.lxor (rotr 6 x) (rotr 11 x)) (rotr 25 x).
Definition sigma0 (x : Z) : Z := Z.lxor (Z.lxor (rotr 7 x) (rotr 18 x)) (Z.shiftr x 3).
Definition sigma1 (x : Z) : Z := Z.lxor (Z.lxor (rotr 17 x) (rotr 19 x)) (Z.shiftr x 10).

(** FIPS 180-4 section 4.2.2 and 5.3.3 define the constants: the first 32 bits
    of the fractional parts of the cube roots of the first 64 primes, and of
    the square roots of the first 8. *)
Definition is_prime (n : nat) : bool :=
  (2 <=? n)%nat && forallb (λ d, negb (n `mod` d =? 0)%nat) (seq 2 (n - 2)).
Definition primes : list Z := Z.of_nat <$> List.filter is_prime (seq 2 310).

(** The largest [r < 2^n] with [r^e <= x], bit by bit. *)
Fixpoint iroot (e : Z) (n : nat) (x acc : Z) : Z :=
  match n with
  | O => acc
  | S m =>
      let r := acc + 2 ^ Z.of_nat m in
      iroot e m x (if r ^ e <=? x then r else acc)
  end.
Definition frac_root (e p : Z) : Z := iroot e 40 (p * 2 ^ (32 * e)) 0 `mod` 2 ^ 32.

Definition K : list Z := Eval vm_compute in frac_root 3 <$> primes.
Definition H0 : list Z := Eval vm_compute in frac_root 2 <$> firstn 8 primes.

(** Padding to a multiple of 64 bytes: 0x80, zeros, the bit length. *)
Definition pad (m : bytes) : bytes :=
  m ++ [z2b 0x80] ++ replicate (Z.to_nat ((55 - zlen m) `mod` 64)) x00 ++ be_bytes 8 (8 * zlen m).

Fixpoint words (fuel : nat) (bs : bytes) : list Z :=
  match fuel with
  | O => []
  | S f => be_value (take 4 bs) :: words f (drop 4 bs)
  end.

(** The message schedule, most recent word first. *)
Fixpoint schedule (n : nat) (rw : list Z) : list Z :=
  match n with
  | O => rev rw
  | S m =>
      let w := w32 (sigma1 (nth 1 rw 0) + nth 6 rw 0 + sigma0 (nth 14 rw 0) + nth 15 rw 0) in
      schedule m (w :: rw)
  end.

Definition round (st : list Z) (kw : Z * Z) : list Z :=
  match st with
  | [a; b; c; d; e; f; g; h] =>
      let t1 := h + Sigma1 e + Ch e f g + kw.1 + kw.2 in
      let t2 := Sigma0 a + Maj a b c in
      [w32 (t1 + t2); a; b; c; w32 (d + t1); e; f; g]
  | _ => st
  end.

Definition block (st : list Z) (bs : bytes) : list Z :=
  let ws := schedule 48 (rev (words 16 bs)) in
  zip_with (λ x y, w32 (x + y)) st (foldl round st (zip K ws)).

Fixpoint blocks (n : nat) (st : list Z) (bs : bytes) : list Z :=
  match n with
  | O => st
  | S m => blocks m (block st (take 64 bs)) (drop 64 bs)
  end.

(** [sha256.Sum256]. *)
Definition Sum256 (m : bytes) : array32 :=
  let p := pad m in
  copy32 (mjoin (be_bytes 4 <$> blocks (length p / 64) H0 p)).

Example sum256_abc : hex_encode (arr (Sum256 (str_bytes "abc"))) =
  "ba7816bf8f01cfea414140de5dae2223b00361a396177a9cb410ff61f20015ad".
Proof. vm_compute. reflexivity. Qed.
End Sha256.

(** The program's hasher: [hash.NewSHA256().Sum]. *)
#[global] Instance sha256_hasher : Hasher := Sha256.Sum256.
