(* ===== verification/Merkle.v ===== *)
(** * The [merkle] package: RFC 6962 hash trees

    A translation of src/merkle/tree.go, function by function, over an
    arbitrary hash function (class [Hasher] of Sha256.v; the program's
    instance is SHA-256).  The theorems about it are in MerkleTree.v,
    MerkleInclusion.v and MerkleConsistency.v. *)
From S2P Require Import Prelude Sha256.
#[local] Open Scope Z_scope.

Module Merkle.

(** The package's sentinel errors. *)
Inductive error : Type :=
| ErrEmptyTree
| ErrIndexOutOfRange
| ErrInvalidRange
| ErrTreeCorrupt
| ErrTamperedLeaf
| errMalformedProof.

Definition proofElemLen : nat := 33.
Definition sideLeft : byte := x00.
Definition sideRight : byte := x01.
Definition leafPrefix : byte := x00.
Definition nodePrefix : byte := x01.

(** One sibling hash of an audit path, and the path, leaf level first. *)
Record ProofStep : Type := Step { Hash : array32; IsRight : bool }.
Record AuditPath : Type := Path { Steps : list ProofStep }.

(** [levels[0]] holds the leaf hashes, the last level the root. *)
Record Tree : Type := MkTree { levels : list (list array32); tsize : Z }.

(** A consumer of consistency-proof nodes, in emission order. *)
Record proofCursor : Type := Cursor { csteps : list ProofStep; cnext : nat }.

Section Ops.
Context `{!Hasher}.

Definition leafHash (data : bytes) : array32 := Sum (leafPrefix :: data).

Definition nodeHash (left right : array32) : array32 :=
  Sum (nodePrefix :: arr left ++ arr right).

(** [for k*2 < n { k *= 2 }] on [int]s: the product wraps.  The loop runs at
    most 63 times before it stops or reaches the fixed point [k = 0]; fuel
    [pow2_fuel] therefore separates termination from divergence. *)
Fixpoint pow2_loop (fuel : nat) (k n : Z) : outcome error Z :=
  if i64 (k * 2) <? n then
    match fuel with
    | O => OutOfFuel
    | S f => pow2_loop f (i64 (k * 2)) n
    end
  else Ok k.

Definition pow2_fuel : nat := 64.
Definition largestPow2LessThan (n : Z) : outcome error Z := pow2_loop pow2_fuel 1 n.

(** One pass of the inner loop of [New]: pair consecutive nodes, promote a
    final odd node unchanged. *)
Fixpoint pair_level (level : list array32) : list array32 :=
  match level with
  | a :: b :: rest => nodeHash a b :: pair_level rest
  | [a] => [a]
  | [] => []
  end.

(** The outer loop of [New]: the levels from [level] up to the root. *)
Fixpoint build_levels (fuel : nat) (level : list array32) : outcome error (list (list array32)) :=
  if (1 <? length level)%nat then
    match fuel with
    | O => OutOfFuel
    | S f => rest ← build_levels f (pair_level level); Ok (level :: rest)
    end
  else Ok [level].

Definition New (leaves : list bytes) : outcome error Tree :=
  if (length leaves =? 0)%nat then Err ErrEmptyTree
  else
    ls ← build_levels (length leaves) (leafHash <$> leaves);
    Ok {| levels := ls; tsize := zlen leaves |}.

(** [t.levels[len(t.levels)-1][0]], copied. *)
Definition Root (t : Tree) : outcome error bytes :=
  lvl ← index (levels t) (length (levels t) - 1);
  top ← index lvl 0;
  Ok (arr top).

Definition Size (t : Tree) : Z := tsize t.

(** The loop of [Tree.Proof]: the levels below the root, node index [idx]. *)
Fixpoint proof_steps (ls : list (list array32)) (idx : nat) : outcome error (list ProofStep) :=
  match ls with
  | level :: ((_ :: _) as above) =>
      here ← (if (idx `mod` 2 =? 1)%nat || (idx + 1 <? length level)%nat then
                h ← index level (Nat.lxor idx 1);
                Ok [Step h (idx `mod` 2 =? 0)%nat]
              else Ok []);
      rest ← proof_steps above (idx `div` 2)%nat;
      Ok (here ++ rest)
  | _ => Ok []
  end.

Definition Tree_Proof (t : Tree) (idx : Z) : outcome error AuditPath :=
  if (idx <? 0) || (tsize t <=? idx) then Err ErrIndexOutOfRange
  else steps ← proof_steps (levels t) (Z.to_nat idx); Ok (Path steps).

(** The loop of [Tree.subtree]: descend from node [p] of level [j] to the node
    that covers exactly [lo, hi).  [Ok None] is the source's [false]. *)
Fixpoint subtree_loop (t : Tree) (j p : nat) (lo hi : Z) : outcome error (option array32) :=
  let coverLo := Z.shiftl (Z.of_nat p) (Z.of_nat j) in
  let coverHi := Z.min (coverLo + Z.shiftl 1 (Z.of_nat j)) (tsize t) in
  if (coverLo =? lo) && (coverHi =? hi) then
    lvl ← index (levels t) j; h ← index lvl p; Ok (Some h)
  else
    match j with
    | O => Ok None
    | S j' =>
        below ← index (levels t) j';
        let left := (2 * p)%nat in
        let right := (2 * p + 1)%nat in
        if (length below <=? right)%nat then subtree_loop t j' left lo hi
        else
          let leftHi := coverLo + Z.shiftl 1 (Z.of_nat j') in
          if hi <=? leftHi then subtree_loop t j' left lo hi
          else if lo <? leftHi then Ok None
          else subtree_loop t j' right lo hi
    end.

Definition subtree (t : Tree) (lo hi : Z) : outcome error (option array32) :=
  if (lo <? 0) || (tsize t <? hi) || (hi <=? lo) then Ok None
  else subtree_loop t (length (levels t) - 1) 0 lo hi.

(** [consistencySubproof] threads the path it appends to; [Ok None] is the
    source's [false].  A recursive call at least halves the power of two above
    the range, so [subproof_fuel] recursive calls cover every [int] range. *)
Fixpoint consistencySubproof (fuel : nat) (t : Tree) (m lo hi : Z) (b : bool)
    (path : list ProofStep) : outcome error (option (list ProofStep)) :=
  if m =? hi - lo then
    if negb b then
      h ← subtree t lo hi;
      match h with
      | None => Ok None
      | Some h => Ok (Some (path ++ [Step h false]))
      end
    else Ok (Some path)
  else
    match fuel with
    | O => OutOfFuel
    | S f =>
        k ← largestPow2LessThan (hi - lo);
        if m <=? k then
          p ← consistencySubproof f t m lo (lo + k) b path;
          match p with
          | None => Ok None
          | Some path' =>
              h ← subtree t (lo + k) hi;
              match h with
              | None => Ok None
              | Some h => Ok (Some (path' ++ [Step h true]))
              end
          end
        else
          p ← consistencySubproof f t (m - k) (lo + k) hi false path;
          match p with
          | None => Ok None
          | Some path' =>
              h ← subtree t lo (lo + k);
              match h with
              | None => Ok None
              | Some h => Ok (Some (path' ++ [Step h false]))
              end
          end
    end.

Definition subproof_fuel : nat := 64.

Definition ConsistencyProof (t : Tree) (m n : Z) : outcome error AuditPath :=
  if (m <=? 0) || (n <=? m) then Err ErrInvalidRange
  else if negb (n =? tsize t) then Err ErrInvalidRange
  else
    p ← consistencySubproof subproof_fuel t m 0 n true [];
    match p with
    | None => Err ErrTreeCorrupt
    | Some steps => Ok (Path steps)
    end.

(** The hash chain [Verify] recomputes from a leaf hash. *)
Definition verify_step (h : array32) (s : ProofStep) : array32 :=
  if IsRight s then nodeHash h (Hash s) else nodeHash (Hash s) h.

Definition Verify (root leaf : bytes) (path : AuditPath) : bool :=
  if negb (length root =? 32)%nat then false
  else ct_equal (arr (foldl verify_step (leafHash leaf) (Steps path))) root.

Definition cursor_take (c : proofCursor) : option (array32 * proofCursor) :=
  match csteps c !! cnext c with
  | None => None
  | Some s => Some (Hash s, Cursor (csteps c) (S (cnext c)))
  end.

(** [verifySubproof]: the result pairs the recomputed n-leaf and m-leaf hashes
    with the advanced cursor; [Ok None] is [ok == false].  [old] is the nilable
    pointer of the source, dereferenced only when [b]. *)
Fixpoint verifySubproof (fuel : nat) (m n : Z) (b : bool) (old : option array32)
    (cur : proofCursor) : outcome error (option (array32 * array32 * proofCursor)) :=
  if m =? n then
    if b then
      match old with
      | None => Panic
      | Some o => Ok (Some (o, o, cur))
      end
    else
      match cursor_take cur with
      | None => Ok None
      | Some (h, cur') => Ok (Some (h, h, cur'))
      end
  else
    match fuel with
    | O => OutOfFuel
    | S f =>
        k ← largestPow2LessThan n;
        if m <=? k then
          r ← verifySubproof f m k b old cur;
          match r with
          | None => Ok None
          | Some (leftNew, leftOld, cur1) =>
              match cursor_take cur1 with
              | None => Ok None
              | Some (rightRoot, cur2) => Ok (Some (nodeHash leftNew rightRoot, leftOld, cur2))
              end
          end
        else
          r ← verifySubproof f (m - k) (n - k) false None cur;
          match r with
          | None => Ok None
          | Some (rightNew, rightOld, cur1) =>
              match cursor_take cur1 with
              | None => Ok None
              | Some (leftRoot, cur2) =>
                  Ok (Some (nodeHash leftRoot rightNew, nodeHash leftRoot rightOld, cur2))
              end
          end
    end.

Definition VerifyConsistency (oldRoot newRoot : bytes) (m n : Z) (path : AuditPath) : outcome error bool :=
  if negb (length oldRoot =? 32)%nat || negb (length newRoot =? 32)%nat then Ok false
  else if m =? n then
    Ok ((length (Steps path) =? 0)%nat && ct_equal oldRoot newRoot)
  else if (m <=? 0) || (n <? m) then Ok false
  else
    r ← verifySubproof subproof_fuel m n true (Some (copy32 oldRoot)) (Cursor (Steps path) 0);
    match r with
    | None => Ok false
    | Some (newHash, oldHash, cur) =>
        if negb (cnext cur =? length (csteps cur))%nat then Ok false
        else Ok (ct_equal (arr oldHash) oldRoot && ct_equal (arr newHash) newRoot)
    end.

(** The serialized form of one step, as [VerifyInclusion] callers build it. *)
Definition proof_element (s : ProofStep) : bytes :=
  (if IsRight s then x01 else x00) :: arr (Hash s).

(** One element of a serialized proof: a side byte and a 32-byte hash. *)
Definition decodeElem (elem : bytes) : outcome error ProofStep :=
  if negb (length elem =? proofElemLen)%nat then Err errMalformedProof
  else
    side ← index elem 0;
    if bool_decide (side = sideLeft) then Ok (Step (copy32 (drop 1 elem)) false)
    else if bool_decide (side = sideRight) then Ok (Step (copy32 (drop 1 elem)) true)
    else Err errMalformedProof.

Definition decodeProof (proof : list bytes) : outcome error AuditPath :=
  steps ← each (λ _, decodeElem) 0 proof; Ok (Path steps).

(** [for count > 1] over [uint64]s: [idx+1] and [count+1] wrap. *)
Fixpoint side_loop (fuel : nat) (idx count : Z) : outcome error (list bool) :=
  if 1 <? count then
    match fuel with
    | O => OutOfFuel
    | S f =>
        let here := if (idx `mod` 2 =? 1) || (u64 (idx + 1) <? count)
                    then [idx `mod` 2 =? 0] else [] in
        rest ← side_loop f (idx `div` 2) (u64 (count + 1) `div` 2);
        Ok (here ++ rest)
    end
  else Ok [].

Definition side_fuel : nat := 64.
Definition proofSideSequence (idx treeSize : Z) : outcome error (list bool) :=
  side_loop side_fuel idx treeSize.

Definition VerifyInclusion (root : array32) (idx treeSize : Z) (leaf : array32)
    (proof : list bytes) : outcome error unit :=
  if treeSize <=? idx then Err ErrIndexOutOfRange
  else
    match decodeProof proof with
    | Ok path =>
        sides ← proofSideSequence idx treeSize;
        if negb (length (Steps path) =? length sides)%nat then Err ErrTamperedLeaf
        else if negb (bool_decide ((IsRight <$> Steps path) = sides)) then Err ErrTamperedLeaf
        else if negb (Verify (arr root) (arr leaf) path) then Err ErrTamperedLeaf
        else Ok tt
    | Err _ => Err ErrTamperedLeaf
    | Panic => Panic
    | OutOfFuel => OutOfFuel
    end.

End Ops.
End Merkle.
