(* ===== verification/MerkleTree.v ===== *)
(** * Merkle trees: the level-wise construction is the RFC 6962 tree hash

    [mth] is the recursive Merkle Tree Hash of RFC 6962 section 2.1, split at
    the largest power of two; [New] of src/merkle/tree.go builds the tree
    bottom-up instead, pairing neighbours and promoting an odd last node.  This
    file relates the two: every entry of every level is the [mth] of the leaf
    range it covers. *)
From Equations Require Import Equations.
From Stdlib Require Import Wf_nat.
From S2P Require Import Prelude Sha256 Merkle.
Import Merkle.

(** The largest power of two below [n], for [n > 1]. *)
Definition split_pt (n : nat) : nat := 2 ^ Nat.log2 (n - 1).

Lemma split_pt_lt n : 2 ≤ n → 0 < split_pt n < n.
Proof.
  intros H. unfold split_pt. destruct (Nat.log2_spec (n - 1)); [lia|].
  split; [|lia]. apply Nat.neq_0_lt_0, Nat.pow_nonzero. lia.
Qed.

Lemma split_pt_le n : 2 ≤ n → n ≤ 2 * split_pt n.
Proof.
  intros H. unfold split_pt. destruct (Nat.log2_spec (n - 1)) as [_ Hu]; [lia|].
  rewrite Nat.pow_succ_r' in Hu. lia.
Qed.

Section Spec.
Context `{!Hasher}.

(** RFC 6962 section 2.1, over the leaf hashes. *)
Equations? mth (hs : list array32) : array32 by wf (length hs) lt :=
  mth [] := Sum [];
  mth [h] := h;
  mth (a :: b :: l) :=
    nodeHash (mth (firstn (split_pt (S (S (length l)))) (a :: b :: l)))
             (mth (skipn (split_pt (S (S (length l)))) (a :: b :: l))).
Proof.
  all: pose proof (split_pt_lt (S (S (length l))) ltac:(lia)).
  - rewrite length_firstn. simpl length. lia.
  - rewrite length_skipn. simpl length. lia.
Qed.


Lemma mth_split hs : 2 ≤ length hs →
  mth hs = nodeHash (mth (take (split_pt (length hs)) hs)) (mth (drop (split_pt (length hs)) hs)).
Proof.
  destruct hs as [|a [|b l]]; simpl; try lia. intros _.
  rewrite mth_equation_3. reflexivity.
Qed.

Lemma mth_singleton h : mth [h] = h.
Proof. apply mth_equation_2. Qed.

End Spec.

(** The split point is determined by its defining inequalities. *)
Lemma split_pt_unique n q : 2 ^ q < n → n ≤ 2 ^ S q → split_pt n = 2 ^ q.
Proof.
  intros H1 H2. unfold split_pt. f_equal. apply Nat.log2_unique; [lia|].
  pose proof (Nat.neq_0_lt_0 (2 ^ q)). pose proof (Nat.pow_nonzero 2 q). lia.
Qed.

Lemma split_pt_pow2 n : ∃ q, split_pt n = 2 ^ q.
Proof. by eexists. Qed.

(** Above two leaves the split point is even and halves with the level. *)
Lemma split_pt_half n : 3 ≤ n → ∃ k, split_pt n = 2 * k ∧ split_pt ((n + 1) / 2) = k.
Proof.
  intros H. pose proof (split_pt_lt n ltac:(lia)). pose proof (split_pt_le n ltac:(lia)).
  destruct (split_pt_pow2 n) as [[|q] Hq]; rewrite Hq in *; [change (2 ^ 0) with 1 in *; lia|].
  rewrite !Nat.pow_succ_r' in *.
  exists (2 ^ q). split; [lia|]. apply split_pt_unique; rewrite ?Nat.pow_succ_r';
    div_lia.
Qed.

(** Induction two elements at a time, the shape of [pair_level]. *)
Lemma pair_ind {A} (P : list A → Prop) :
  P [] → (∀ a, P [a]) → (∀ a b l, P l → P (a :: b :: l)) → ∀ l, P l.
Proof.
  intros H0 H1 H2 l. enough (P l ∧ ∀ a, P (a :: l)) by tauto.
  induction l as [|x l [IH1 IH2]]; split; auto.
Qed.

Section Levels.
Context `{!Hasher}.
#[local] Arguments Nat.mul : simpl never.

Lemma pair_level_length l : length (pair_level l) = (length l + 1) / 2.
Proof.
  induction l as [| a | a b l IH] using pair_ind; try done.
  cbn [pair_level length]. rewrite IH. div_lia.
Qed.

Lemma pair_level_app l1 l2 :
  Nat.Even (length l1) → pair_level (l1 ++ l2) = pair_level l1 ++ pair_level l2.
Proof.
  induction l1 as [| a | a b l IH] using pair_ind; simpl; [done| |]; intros [k Hk].
  - lia.
  - f_equal. apply IH. exists (k - 1). lia.
Qed.

Lemma pair_level_lookup l i :
  pair_level l !! i =
    match l !! (2 * i), l !! (2 * i + 1) with
    | Some a, Some b => Some (nodeHash a b)
    | Some a, None => Some a
    | None, _ => None
    end.
Proof.
  revert i. induction l as [| a | a b l IH] using pair_ind; intros i; [done| |].
  - destruct i as [|i]; [done|]. simpl. by replace (i + S (i + 0)) with (S (2 * i)) by lia.
  - destruct i as [|i]; [done|].
    replace (2 * S i) with (S (S (2 * i))) by lia.
    replace (S (S (2 * i)) + 1) with (S (S (2 * i + 1))) by lia. apply IH.
Qed.

Lemma pair_level_shrinks l : 1 < length l → 0 < length (pair_level l) < length l.
Proof.
  intros Hl. rewrite pair_level_length. split.
  - div_lia.
  - div_lia.
Qed.

(** Pairing one level preserves the tree hash: the heart of the equivalence
    between the bottom-up construction and the RFC's recursion. *)
Lemma mth_pair_level l : l ≠ [] → mth (pair_level l) = mth l.
Proof.
  induction l as [l IH] using (induction_ltof1 _ length). unfold ltof in IH. intros Hl.
  destruct (decide (length l ≤ 2)) as [Hs|Hs].
  { destruct l as [|a [|b [|c l]]]; simpl in *; try done; lia. }
  destruct (split_pt_half (length l)) as (k & Hk & Hk'); [lia|].
  pose proof (split_pt_lt (length l) ltac:(lia)) as Hlt.
  rewrite (mth_split l) by lia. rewrite Hk in *.
  rewrite mth_split, pair_level_length, Hk'.
  2:{ rewrite pair_level_length. div_lia. }
  rewrite <- (take_drop (2 * k) l) at 1 2.
  rewrite pair_level_app by (rewrite length_take_le by lia; by exists k).
  rewrite take_app_length', drop_app_length'.
  2-3: rewrite pair_level_length, length_take_le by lia;
    div_lia.
  rewrite !IH; [done| | | |].
  - rewrite length_drop. lia.
  - intros ?%(f_equal length). rewrite length_drop in *. simpl in *. lia.
  - rewrite length_take_le; lia.
  - intros ?%(f_equal length). rewrite length_take_le in * by lia. simpl in *. lia.
Qed.

(** The level lists [New] builds over a non-empty list of leaf hashes. *)
Inductive is_levels : list array32 → list (list array32) → Prop :=
| levels_root h : is_levels [h] [[h]]
| levels_up l ls : 1 < length l → is_levels (pair_level l) ls → is_levels l (l :: ls).

Lemma build_levels_ok fuel l :
  l ≠ [] → length l ≤ S fuel → ∃ ls, build_levels fuel l = Ok ls ∧ is_levels l ls.
Proof.
  revert l. induction fuel as [|f IH]; intros l Hne Hf;
    unfold build_levels; fold build_levels; destruct (Nat.ltb_spec 1 (length l)) as [Hl|Hl].
  - lia.
  - destruct l as [|h [|]]; simpl in *; try done; try lia. eauto using is_levels.
  - pose proof (pair_level_shrinks l Hl) as Hs.
    destruct (IH (pair_level l)) as (ls & -> & Hls); [intros E; rewrite E in Hs; simpl in Hs; lia | lia |].
    eexists. split; [done|]. by constructor.
  - destruct l as [|h [|]]; simpl in *; try done; try lia. eauto using is_levels.
Qed.

Lemma is_levels_nonempty l ls : is_levels l ls → l ≠ [] ∧ ls ≠ [].
Proof. intros Hl. destruct Hl as [h|l ls H1 H2]; [done|]. split; [|done]. intros ->. simpl in *. lia. Qed.

Lemma is_levels_head l ls : is_levels l ls → ls !! 0 = Some l.
Proof. by destruct 1. Qed.

Lemma is_levels_root l ls : is_levels l ls → list.last ls = Some [mth l].
Proof.
  induction 1 as [h|l ls Hl Hls IH].
  - simpl. by rewrite mth_singleton.
  - destruct (is_levels_nonempty _ _ Hls) as [_ Hne].
    rewrite mth_pair_level in IH by (intros ->; simpl in *; lia).
    destruct ls as [|l' ls]; [done|]. exact IH.
Qed.

Lemma New_ok leaves : leaves ≠ [] →
  ∃ ls, New leaves = Ok (MkTree ls (zlen leaves)) ∧ is_levels (leafHash <$> leaves) ls.
Proof.
  intros Hne. unfold New.
  destruct (Nat.eqb_spec (length leaves) 0) as [Hz|_]; [destruct leaves; done|].
  destruct (build_levels_ok (length leaves) (leafHash <$> leaves)) as (ls & -> & Hls).
  - by destruct leaves.
  - rewrite length_fmap. lia.
  - eexists. split; [done|]. exact Hls.
Qed.

Lemma New_inv leaves t : New leaves = Ok t →
  leaves ≠ [] ∧ tsize t = zlen leaves ∧ is_levels (leafHash <$> leaves) (levels t).
Proof.
  intros Ht. destruct (decide (leaves = [])) as [->|Hne]; [done|].
  destruct (New_ok leaves Hne) as (ls & HN & Hls). rewrite HN in Ht. by simplify_eq.
Qed.

Lemma Root_levels t hs : is_levels hs (levels t) → Root t = Ok (arr (mth hs)).
Proof.
  intros Hl. unfold Root, index. apply is_levels_root in Hl.
  rewrite last_lookup in Hl. replace (length (levels t) - 1) with (Nat.pred (length (levels t))) by lia.
  by rewrite Hl.
Qed.

(** The leaf range [a * w, (a + 1) * w) of a list, cut at its end. *)
Definition chunk {A} (w a : nat) (l : list A) : list A := firstn w (skipn (a * w) l).

Lemma pair_level_take a l : pair_level (firstn (2 * a) l) = firstn a (pair_level l).
Proof.
  revert l. induction a as [|a IH]; intros l; [done|].
  replace (2 * S a) with (S (S (2 * a))) by lia.
  destruct l as [|x [|y l]]; [done|by destruct a|]. cbn [firstn pair_level]. f_equal. apply IH.
Qed.

Lemma pair_level_drop a l : pair_level (skipn (2 * a) l) = skipn a (pair_level l).
Proof.
  revert l. induction a as [|a IH]; intros l; [done|].
  replace (2 * S a) with (S (S (2 * a))) by lia.
  destruct l as [|x [|y l]]; cbn [skipn pair_level]; [done| |apply IH].
  by rewrite !skipn_nil.
Qed.

Lemma chunk_pair_level w p l : chunk w p (pair_level l) = pair_level (chunk (2 * w) p l).
Proof.
  unfold chunk. rewrite <- pair_level_drop, <- pair_level_take.
  by replace (2 * (p * w)) with (p * (2 * w)) by lia.
Qed.

Lemma is_levels_width l ls j lvl p :
  is_levels l ls → ls !! j = Some lvl → p < length lvl ↔ p * 2 ^ j < length l.
Proof.
  intros Hl. revert j. induction Hl as [r|l ls Hlen Hls IH]; intros j Hj.
  - destruct j; simplify_eq/=. lia.
  - destruct j as [|j]; simplify_eq/=; [lia|].
    rewrite (IH _ Hj), pair_level_length. clear IH.
    replace (p * (2 * 2 ^ j)) with (2 * (p * 2 ^ j)) by lia. generalize (p * 2 ^ j). intros. div_lia.
Qed.

(** Node [p] of level [j] covers leaves [p * 2^j, (p+1) * 2^j): the layout the
    comment on the [Tree] type promises. *)
Lemma is_levels_node l ls j lvl p h :
  is_levels l ls → ls !! j = Some lvl → lvl !! p = Some h → h = mth (chunk (2 ^ j) p l).
Proof.
  intros Hl. revert j. induction Hl as [r|l ls Hlen Hls IH]; intros j Hj Hp.
  - destruct j; simplify_eq/=. destruct p; simplify_eq/=. symmetry. apply mth_singleton.
  - destruct j as [|j]; simplify_eq/=.
    + unfold chunk. change (2 ^ 0) with 1. rewrite Nat.mul_1_r, (drop_S _ _ _ Hp).
      symmetry. apply mth_singleton.
    + pose proof (IH _ Hj Hp) as ->. rewrite chunk_pair_level.
      apply mth_pair_level. apply lookup_lt_Some in Hp.
      apply (is_levels_width _ _ _ _ _ Hls Hj) in Hp.
      rewrite pair_level_length in Hp. intros Hc%(f_equal length).
      unfold chunk in Hc. rewrite length_firstn, length_skipn in Hc. cbn [length] in Hc.
      pose proof (Nat.pow_nonzero 2 j). revert Hp Hc.
      assert (p * (2 * 2 ^ j) = 2 * (p * 2 ^ j)) as -> by lia. generalize (p * 2 ^ j).
      intros x Hx Hmin. enough (2 * x < length l) by lia. div_lia.
Qed.

(** The top level covers every leaf. *)
Lemma is_levels_depth l ls : is_levels l ls → length l ≤ 2 ^ (length ls - 1).
Proof.
  induction 1 as [r|l ls Hlen Hls IH]; [simpl; lia|].
  destruct (is_levels_nonempty _ _ Hls) as [_ Hne].
  destruct ls as [|l0 ls]; [done|]. simpl length in *.
  replace (S (S (length ls)) - 1) with (S (length ls)) by lia.
  replace (S (length ls) - 1) with (length ls) in * by lia.
  rewrite pair_level_length in *. rewrite Nat.pow_succ_r'. div_lia.
Qed.

(** C4.  [New] terminates on every non-empty leaf list, and the root it
    computes bottom-up is the RFC 6962 Merkle Tree Hash of the leaves. *)
Theorem New_root_is_rfc6962 leaves :
  leaves ≠ [] →
  ∃ t, New leaves = Ok t ∧ Root t = Ok (arr (mth (leafHash <$> leaves))) ∧ Size t = zlen leaves.
Proof.
  intros Hne. destruct (New_ok leaves Hne) as (ls & HN & Hls).
  eexists. split; [exact HN|]. split; [|done]. by apply Root_levels.
Qed.

End Levels.

Lemma New_root_is_rfc6962_witness :
  ∃ t, New [[x00]; [x01]; [x02]] = Ok t ∧
    Root t = Ok (arr (mth (leafHash <$> [[x00]; [x01]; [x02]]))) ∧ Size t = 3%Z.
Proof. apply (New_root_is_rfc6962 [[x00]; [x01]; [x02]]). discriminate. Defined.
