(* ===== verification/MerkleInclusion.v ===== *)
(** * Inclusion proofs of the [merkle] package

    Completeness: the audit path [Tree.Proof] emits always verifies, under
    [Verify] and, serialized, under [VerifyInclusion].  Soundness: a path that
    verifies against a tree's root opens a leaf of that tree, provided the hash
    function has no collision among the strings the two runs hash.  The last
    part settles how [VerifyInclusion] behaves at the end of the [uint64]
    range. *)
From S2P Require Import Prelude Sha256 Merkle MerkleTree.
Import Merkle.
#[local] Arguments Nat.mul : simpl never.
#[local] Arguments Nat.div : simpl never.
#[local] Arguments Nat.modulo : simpl never.
#[local] Arguments Nat.lxor : simpl never.

(** ** The sibling index [idx^1] *)

Lemma lxor_1_even i : Nat.lxor (2 * i) 1 = 2 * i + 1.
Proof.
  apply Nat.bits_inj. intros [|n]; rewrite Nat.lxor_spec.
  - rewrite Nat.testbit_even_0, Nat.testbit_odd_0. done.
  - rewrite Nat.testbit_even_succ', Nat.testbit_odd_succ'.
    change 1 with (2 * 0 + 1) at 1. rewrite Nat.testbit_odd_succ', Nat.bits_0. by destruct (Nat.testbit i n).
Qed.

Lemma lxor_1_odd i : Nat.lxor (2 * i + 1) 1 = 2 * i.
Proof. rewrite <- lxor_1_even, Nat.lxor_assoc, Nat.lxor_nilpotent. apply Nat.lxor_0_r. Qed.

(** Every index is [2 i] or [2 i + 1]. *)
Lemma parity_cases n : ∃ i, n = 2 * i ∨ n = 2 * i + 1.
Proof. exists (n / 2). div_lia. Qed.

Lemma mod2_even i : (2 * i) `mod` 2 = 0.
Proof. div_lia. Qed.
Lemma mod2_odd i : (2 * i + 1) `mod` 2 = 1.
Proof. div_lia. Qed.
Lemma div2_even i : (2 * i) `div` 2 = i.
Proof. div_lia. Qed.
Lemma div2_odd i : (2 * i + 1) `div` 2 = i.
Proof. div_lia. Qed.

Create HintDb parity.
#[export] Hint Rewrite lxor_1_even lxor_1_odd mod2_even mod2_odd div2_even div2_odd : parity.

Section Inclusion.
Context `{!Hasher}.

(** ** Completeness *)

(** One level of an audit path: the sibling step from node [idx] of [l] leads
    to its parent in [pair_level l]. *)
Definition level_step (l : list array32) (idx : nat) : outcome error (list ProofStep) :=
  if (idx `mod` 2 =? 1) || (idx + 1 <? length l) then
    h ← index l (Nat.lxor idx 1); Ok [Step h (idx `mod` 2 =? 0)]
  else Ok [].

Lemma level_step_ok l idx h :
  l !! idx = Some h →
  ∃ steps h', level_step l idx = Ok steps ∧
    pair_level l !! (idx `div` 2) = Some h' ∧ foldl verify_step h steps = h' ∧
    (IsRight <$> steps) =
      (if (idx `mod` 2 =? 1) || (idx + 1 <? length l) then [idx `mod` 2 =? 0] else []).
Proof.
  intros Hh. unfold level_step, index.
  destruct (parity_cases idx) as [i [-> | ->]]; autorewrite with parity; simpl.
  - rewrite pair_level_lookup, Hh.
    destruct (Nat.ltb_spec (2 * i + 1) (length l)) as [Hlt|Hge].
    + destruct (lookup_lt_is_Some_2 l (2 * i + 1)) as [r Hr]; [lia|]. rewrite Hr. simpl. eauto 10.
    + rewrite (lookup_ge_None_2 l) by lia. simpl. eauto 10.
  - rewrite pair_level_lookup, Hh.
    destruct (lookup_lt_is_Some_2 l (2 * i)) as [r Hr].
    { apply lookup_lt_Some in Hh. lia. }
    rewrite Hr. simpl. eauto 10.
Qed.

Lemma proof_steps_cons l l1 ls idx :
  proof_steps (l :: l1 :: ls) idx =
    (here ← level_step l idx; rest ← proof_steps (l1 :: ls) (idx `div` 2); Ok (here ++ rest)).
Proof. reflexivity. Qed.

Lemma side_loop_step f idx n : idx < n → 1 < n → (Z.of_nat n < 2 ^ 64 - 1)%Z →
  side_loop (S f) (Z.of_nat idx) (Z.of_nat n) =
    (rest ← side_loop f (Z.of_nat (idx `div` 2)) (Z.of_nat ((n + 1) `div` 2));
     Ok ((if (idx `mod` 2 =? 1) || (idx + 1 <? n) then [idx `mod` 2 =? 0] else []) ++ rest)).
Proof.
  intros Hi Hn Hmax. cbn [side_loop]. rewrite (proj2 (Z.ltb_lt 1 (Z.of_nat n))) by lia.
  rewrite !u64_small by arith.
  replace (Z.of_nat idx `div` 2)%Z with (Z.of_nat (idx `div` 2)) by (rewrite Nat2Z.inj_div; lia).
  replace ((Z.of_nat n + 1) `div` 2)%Z with (Z.of_nat ((n + 1) `div` 2))
    by (rewrite Nat2Z.inj_div; f_equal; lia).
  replace (Z.of_nat idx `mod` 2)%Z with (Z.of_nat (idx `mod` 2)) by (rewrite Nat2Z.inj_mod; lia).
  replace (Z.of_nat idx + 1)%Z with (Z.of_nat (idx + 1)) by lia.
  change 1%Z with (Z.of_nat 1). change 0%Z with (Z.of_nat 0).
  by rewrite !zeqb_nat, zltb_nat.
Qed.

(** Both loops walk the same shape: [proof_steps] over the levels and
    [side_loop] over the level widths. *)
Lemma proof_steps_ok l ls idx h :
  is_levels l ls → l !! idx = Some h →
  ∃ steps, proof_steps ls idx = Ok steps ∧ foldl verify_step h steps = mth l ∧
    ∀ f, length l ≤ 2 ^ f → (zlen l < 2 ^ 64 - 1)%Z →
      side_loop f (Z.of_nat idx) (zlen l) = Ok (IsRight <$> steps).
Proof.
  intros Hl. revert idx h. induction Hl as [r|l ls Hlen Hls IH]; intros idx h Hh.
  { destruct idx; simplify_eq/=. exists []. split_and!; [done|by rewrite mth_singleton|].
    intros [|f] _ _; done. }
  destruct (level_step_ok l idx h Hh) as (here & h' & Hhere & Hh' & Hfold & Hsides).
  destruct (IH _ _ Hh') as (rest & Hrest & Hroot & Hseq).
  destruct (is_levels_nonempty _ _ Hls) as [Hpne Hne].
  destruct ls as [|l1 ls]; [done|].
  exists (here ++ rest). split_and!.
  - by rewrite proof_steps_cons, Hhere, Hrest.
  - rewrite foldl_app, Hfold, Hroot. apply mth_pair_level. intros ->; simpl in *; lia.
  - intros [|f] Hf Hmax; [simpl in Hf; lia|].
    pose proof (lookup_lt_Some _ _ _ Hh) as Hi.
    rewrite side_loop_step by lia. rewrite <- pair_level_length, Hseq.
    + by rewrite fmap_app, Hsides.
    + rewrite pair_level_length. rewrite Nat.pow_succ_r' in Hf. div_lia.
    + rewrite pair_level_length. div_lia.
Qed.

Lemma Tree_Proof_ok leaves t i leaf :
  New leaves = Ok t → leaves !! i = Some leaf →
  ∃ steps, Tree_Proof t (Z.of_nat i) = Ok (Path steps) ∧
    proof_steps (levels t) i = Ok steps ∧
    foldl verify_step (leafHash leaf) steps = mth (leafHash <$> leaves) ∧
    ((zlen leaves < 2 ^ 64 - 1)%Z → proofSideSequence (Z.of_nat i) (zlen leaves) = Ok (IsRight <$> steps)).
Proof.
  intros (Hne & Hsz & Hls)%New_inv Hi.
  destruct (proof_steps_ok _ _ i (leafHash leaf) Hls) as (steps & Hsteps & Hroot & Hside).
  { by rewrite list_lookup_fmap, Hi. }
  pose proof (lookup_lt_Some _ _ _ Hi) as Hlt.
  exists steps. split_and!; [|done|done|].
  - unfold Tree_Proof. rewrite Hsz, (proj2 (Z.ltb_ge _ _)), (proj2 (Z.leb_gt _ _)) by lia.
    rewrite Nat2Z.id. cbn [orb]. by rewrite Hsteps.
  - intros Hmax. unfold proofSideSequence. rewrite length_fmap in Hside. apply Hside; [|done].
    apply Nat2Z.inj_le. rewrite Nat2Z.inj_pow. change (Z.of_nat 2) with 2%Z. unfold side_fuel. lia.
Qed.

(** For every leaf of a tree [Tree.Proof] succeeds, and [Verify] accepts
    the path it returns against the tree's root. *)
Theorem Proof_verifies leaves t i leaf :
  New leaves = Ok t → leaves !! i = Some leaf →
  ∃ path root, Tree_Proof t (Z.of_nat i) = Ok path ∧ Root t = Ok root ∧ Verify root leaf path = true.
Proof.
  intros Ht Hi. destruct (Tree_Proof_ok _ _ _ _ Ht Hi) as (steps & HP & _ & Hroot & _).
  apply New_inv in Ht as (_ & _ & Hls). do 2 eexists. split_and!; [done|by apply Root_levels|].
  unfold Verify. rewrite arr_length. simpl. rewrite Hroot. apply ct_equal_refl.
Qed.

Lemma decodeElem_element s : decodeElem (proof_element s) = Ok s.
Proof.
  unfold decodeElem, proof_element. cbn [length]. rewrite arr_length.
  destruct s as [h []]; cbn -[copy32]; rewrite drop_0, copy32_arr; done.
Qed.

Lemma decodeProof_elements steps : decodeProof (proof_element <$> steps) = Ok (Path steps).
Proof.
  unfold decodeProof. enough (∀ k, each (λ _, decodeElem) k (proof_element <$> steps) = Ok steps) as ->; [done|].
  induction steps as [|s steps IH]; intros k; [done|].
  cbn [each fmap list_fmap]. rewrite decodeElem_element. cbn. by rewrite IH.
Qed.

Lemma VerifyInclusion_intro root idx n leaf steps :
  (idx < n)%Z → proofSideSequence idx n = Ok (IsRight <$> steps) →
  foldl verify_step (leafHash (arr leaf)) steps = root →
  VerifyInclusion root idx n leaf (proof_element <$> steps) = Ok tt.
Proof.
  intros Hlt Hside Hroot. unfold VerifyInclusion.
  rewrite (proj2 (Z.leb_gt _ _)), decodeProof_elements, Hside by lia. cbn.
  rewrite length_fmap, Nat.eqb_refl, bool_decide_eq_true_2 by done. cbn.
  unfold Verify. rewrite arr_length. cbn [Steps negb Nat.eqb]. by rewrite Hroot, ct_equal_refl.
Qed.

Lemma VerifyInclusion_accepts (leaves : list array32) t i leaf :
  New (arr <$> leaves) = Ok t → leaves !! i = Some leaf → (zlen leaves < 2 ^ 64 - 1)%Z →
  ∃ path root, Tree_Proof t (Z.of_nat i) = Ok path ∧ Root t = Ok (arr root) ∧
    VerifyInclusion root (Z.of_nat i) (zlen leaves) leaf (proof_element <$> Steps path) = Ok tt.
Proof.
  intros Ht Hi Hmax.
  destruct (Tree_Proof_ok _ _ i (arr leaf) Ht) as (steps & HP & _ & Hroot & Hside).
  { by rewrite list_lookup_fmap, Hi. }
  apply New_inv in Ht as (_ & _ & Hls). do 2 eexists. split_and!; [done|by apply Root_levels|].
  rewrite length_fmap in Hside. apply lookup_lt_Some in Hi.
  apply VerifyInclusion_intro; [lia|by apply Hside|done].
Qed.

(** C6.  A tree over 32-byte leaves: the serialized audit path of leaf [i]
    passes [VerifyInclusion] at index [i] and the tree's size. *)
Theorem VerifyInclusion_complete (leaves : list array32) t i leaf :
  New (arr <$> leaves) = Ok t → leaves !! i = Some leaf → (zlen leaves < 2 ^ 64 - 1)%Z →
  ∃ path root, Tree_Proof t (Z.of_nat i) = Ok path ∧ Root t = Ok (arr root) ∧
    VerifyInclusion root (Z.of_nat i) (zlen leaves) leaf (proof_element <$> Steps path) = Ok tt.
Proof. apply VerifyInclusion_accepts. Qed.

(** ** Soundness *)

(** No two of the listed strings collide.  SHA-256 certainly has collisions
    somewhere, so the theorems only ask for this of the strings that building
    the tree and checking the proof really hash. *)
Definition coll_free (S : list bytes) : Prop :=
  ∀ x y, x ∈ S → y ∈ S → Sum x = Sum y → x = y.

(** Two of the listed strings collide. *)
Definition collision (S : list bytes) : Prop :=
  ∃ x y, x ∈ S ∧ y ∈ S ∧ x ≠ y ∧ Sum x = Sum y.

Lemma coll_free_or S : coll_free S ∨ collision S.
Proof.
  destruct (decide (Exists (λ x, Exists (λ y, x ≠ y ∧ arr (Sum x) = arr (Sum y)) S) S)) as [HE|HE].
  - right. apply Exists_exists in HE as (x & Hx & (y & Hy & Hne & E%arr_inj)%Exists_exists). by exists x, y.
  - left. intros x y Hx Hy E. destruct (decide (x = y)) as [|Hne]; [done|]. destruct HE.
    apply Exists_exists. exists x. split; [done|]. apply Exists_exists. exists y. split; [done|]. by rewrite E.
Qed.

Lemma coll_free_not S : coll_free S → ¬ collision S.
Proof. intros HS (x & y & Hx & Hy & Hne & E). by apply Hne, HS. Qed.

Definition leaf_pre (data : bytes) : bytes := leafPrefix :: data.
Definition node_pre (a b : array32) : bytes := nodePrefix :: arr a ++ arr b.

(** The strings [New] hashes to pair one level. *)
Fixpoint level_hashed (l : list array32) : list bytes :=
  match l with
  | a :: b :: l' => node_pre a b :: level_hashed l'
  | _ => []
  end.

(** All the strings hashed to build the tree of [leaves]. *)
Definition tree_hashed (leaves : list bytes) (t : Tree) : list bytes :=
  (leaf_pre <$> leaves) ++ mjoin (level_hashed <$> levels t).

(** The strings [Verify] hashes. *)
Fixpoint chain_hashed (h : array32) (steps : list ProofStep) : list bytes :=
  match steps with
  | [] => []
  | s :: steps' =>
      (if IsRight s then node_pre h (Hash s) else node_pre (Hash s) h)
        :: chain_hashed (verify_step h s) steps'
  end.
Definition path_hashed (leaf : bytes) (steps : list ProofStep) : list bytes :=
  leaf_pre leaf :: chain_hashed (leafHash leaf) steps.

(** An executable test: each string is hashed once. *)
Definition coll_free_b (S : list bytes) : bool :=
  let hs := (λ x, (x, arr (Sum x))) <$> S in
  forallb (λ p, forallb (λ q, implb (bytes_eqb p.2 q.2) (bytes_eqb p.1 q.1)) hs) hs.

Lemma coll_free_b_ok S : coll_free_b S = true → coll_free S.
Proof.
  unfold coll_free_b. rewrite forallb_forall. intros HS x y Hx Hy E.
  assert (∀ z, z ∈ S → In (z, arr (Sum z)) ((λ x, (x, arr (Sum x))) <$> S)) as Hin.
  { intros z Hz. apply list_elem_of_In, list_elem_of_fmap. eauto. }
  specialize (HS _ (Hin x Hx)). rewrite forallb_forall in HS. specialize (HS _ (Hin y Hy)).
  cbn in HS. rewrite E, (proj2 (bytes_eqb_eq _ _) eq_refl) in HS. by apply bytes_eqb_eq.
Qed.

Lemma coll_free_subseteq S S' : S' ⊆ S → coll_free S → coll_free S'.
Proof. intros Hs HS x y Hx Hy. apply HS; by apply Hs. Qed.

Lemma node_pre_inj a b c d : node_pre a b = node_pre c d → a = c ∧ b = d.
Proof.
  unfold node_pre. intros [= E]. apply app_inj_1 in E as [H1 H2].
  - split; by apply arr_inj.
  - by rewrite !arr_length.
Qed.

Lemma nodeHash_inj S a b c d :
  coll_free S → node_pre a b ∈ S → node_pre c d ∈ S →
  nodeHash a b = nodeHash c d → a = c ∧ b = d.
Proof. intros HS H1 H2 E. by apply node_pre_inj, HS. Qed.

(** Domain separation: a leaf hash is not a node hash. *)
Lemma leaf_node_distinct S data a b :
  coll_free S → leaf_pre data ∈ S → node_pre a b ∈ S → leafHash data ≠ nodeHash a b.
Proof. intros HS H1 H2 E. by specialize (HS _ _ H1 H2 E). Qed.

Lemma level_hashed_lookup l i a b :
  l !! (2 * i) = Some a → l !! (2 * i + 1) = Some b → node_pre a b ∈ level_hashed l.
Proof.
  revert i. induction l as [| x | x y l IH] using pair_ind; intros i Ha Hb; [done| |].
  - apply lookup_lt_Some in Hb. simpl in Hb. lia.
  - destruct i as [|i].
    + change (2 * 0) with 0 in *. simplify_eq/=. by left.
    + right. apply (IH i).
      * by replace (2 * S i) with (S (S (2 * i))) in Ha by lia.
      * by replace (2 * S i + 1) with (S (S (2 * i + 1))) in Hb by lia.
Qed.

Lemma verify_step_inj S h s h0 s0 :
  coll_free S → chain_hashed h [s] ⊆ S → chain_hashed h0 [s0] ⊆ S →
  IsRight s = IsRight s0 → verify_step h s = verify_step h0 s0 → h = h0 ∧ s = s0.
Proof.
  intros HS H1 H2 Hside. specialize (H1 _ (list_elem_of_here _ _)).
  specialize (H2 _ (list_elem_of_here _ _)). revert H1 H2.
  destruct s as [s b], s0 as [s0 b0]; simpl in *; subst b0. unfold verify_step; simpl.
  intros H1 H2 E. destruct b; by destruct (nodeHash_inj _ _ _ _ _ HS H1 H2 E); subst.
Qed.

Lemma level_step_hashed l idx h steps :
  l !! idx = Some h → level_step l idx = Ok steps → chain_hashed h steps ⊆ level_hashed l.
Proof.
  intros Hh. unfold level_step, index.
  destruct (parity_cases idx) as [i [-> | ->]]; autorewrite with parity; simpl.
  - destruct (2 * i + 1 <? length l); [|intros; simplify_eq/=; apply list_subseteq_nil].
    destruct (l !! (2 * i + 1)) as [r|] eqn:Hr; intros; simplify_eq/=.
    apply list_subseteq_cons_iff; split; [by eapply level_hashed_lookup | apply list_subseteq_nil].
  - destruct (l !! (2 * i)) as [r|] eqn:Hr; intros; simplify_eq/=.
    apply list_subseteq_cons_iff; split; [by eapply level_hashed_lookup | apply list_subseteq_nil].
Qed.

(** An accepted chain of the right shape opens the claimed node, and is the
    very path [Tree.Proof] emits. *)
Lemma chain_sound S l ls f idx h0 h steps :
  is_levels l ls → coll_free S →
  chain_hashed h steps ⊆ S → mjoin (level_hashed <$> ls) ⊆ S →
  l !! idx = Some h0 → (zlen l < 2 ^ 64 - 1)%Z →
  side_loop f (Z.of_nat idx) (zlen l) = Ok (IsRight <$> steps) →
  foldl verify_step h steps = mth l →
  h = h0 ∧ proof_steps ls idx = Ok steps.
Proof.
  intros Hl HS. revert f idx h0 h steps.
  induction Hl as [r|l ls Hlen Hls IH]; intros f idx h0 h steps Hch Hlh Hidx Hmax Hside Hroot.
  { destruct idx; simplify_eq/=. rewrite mth_singleton in Hroot.
    assert (steps = []) as ->; [|done]. destruct f, steps; simplify_eq/=; done. }
  pose proof (lookup_lt_Some _ _ _ Hidx) as Hlt.
  destruct f as [|f].
  { cbn in Hside. rewrite (proj2 (Z.ltb_lt _ _)) in Hside by lia. done. }
  rewrite side_loop_step, <- pair_level_length in Hside by lia.
  unfold mbind, outcome_bind in Hside.
  destruct (side_loop f _ _) as [rest| | |] eqn:Hrest; try done.
  injection Hside as Hside.
  destruct (level_step_ok l idx h0 Hidx) as (here & h' & Hhere & Hh' & Hfold & Hsides).
  pose proof (level_step_hashed _ _ _ _ Hidx Hhere) as Hhh.
  destruct ls as [|l1 ls1]; [by destruct (is_levels_nonempty _ _ Hls)|].
  rewrite <- mth_pair_level in Hroot by (intros ->; simpl in *; lia).
  rewrite proof_steps_cons, Hhere.
  apply list_subseteq_app_iff_l in Hlh as [Hlh1 Hlh2].
  assert (zlen (pair_level l) < 2 ^ 64 - 1)%Z by (rewrite pair_level_length; div_lia).
  rewrite <- Hsides in Hside. destruct here as [|s0 [|]]; cbn in Hside, Hsides;
    [| |by destruct (_ || _)].
  - destruct (IH f (idx `div` 2) h' h steps) as [-> ->]; try done. by rewrite Hrest, Hside.
  - destruct steps as [|s steps]; [done|]. injection Hside as Hs Hside. cbn in Hroot, Hfold.
    apply list_subseteq_cons_iff in Hch as [Hch1 Hch2].
    destruct (IH f (idx `div` 2) (verify_step h0 s0) (verify_step h s) steps) as [E ->]; try done; [by rewrite Hfold|by rewrite Hrest, Hside|].
    destruct (verify_step_inj S h s h0 s0) as [-> ->]; try done.
    + apply list_subseteq_cons_iff; split; [done|apply list_subseteq_nil].
    + by trans (level_hashed l).
Qed.

(** Every entry of a tree is a base entry or the hash of two entries. *)
Lemma is_levels_entry l ls h :
  is_levels l ls → h ∈ mjoin ls →
  h ∈ l ∨ ∃ a b, h = nodeHash a b ∧ a ∈ mjoin ls ∧ b ∈ mjoin ls ∧
                  node_pre a b ∈ mjoin (level_hashed <$> ls).
Proof.
  intros Hl. revert h. induction Hl as [r|l ls Hlen Hls IH]; intros h; cbn.
  { by left. }
  intros [Hh|Hh]%elem_of_app; [by left|].
  destruct (IH h Hh) as [Hp|(a & b & -> & Ha & Hb & Hab)].
  - apply list_elem_of_lookup in Hp as [i Hi]. rewrite pair_level_lookup in Hi.
    destruct (l !! (2 * i)) as [x|] eqn:Hx; [|done].
    pose proof (list_elem_of_lookup_2 _ _ _ Hx).
    destruct (l !! (2 * i + 1)) as [y|] eqn:Hy; simplify_eq; [|by left].
    pose proof (list_elem_of_lookup_2 _ _ _ Hy). right. exists x, y.
    split_and!; try done; apply elem_of_app; left; try done. by eapply level_hashed_lookup.
  - right. exists a, b. rewrite !elem_of_app. auto.
Qed.

Lemma chain_hashed_snoc h steps s :
  chain_hashed h (steps ++ [s]) = chain_hashed h steps ++ chain_hashed (foldl verify_step h steps) [s].
Proof. revert h. induction steps as [|x steps IH]; intros h; simpl; [done|]. by rewrite IH. Qed.

Lemma chain_opens_leaf S leaves ls leaf steps :
  is_levels (leafHash <$> leaves) ls → coll_free S →
  leaf_pre <$> leaves ⊆ S → mjoin (level_hashed <$> ls) ⊆ S → path_hashed leaf steps ⊆ S →
  foldl verify_step (leafHash leaf) steps ∈ mjoin ls → leaf ∈ leaves.
Proof.
  intros Hl HS Hlv Hlh. unfold path_hashed. induction steps as [|s steps IH] using rev_ind;
    rewrite list_subseteq_cons_iff; intros [Hleaf Hch] Hin.
  - apply (is_levels_entry _ _ _ Hl) in Hin as [Hin|(a & b & E & _ & _ & Hab)].
    + apply list_elem_of_fmap in Hin as (leaf' & E & Hin).
      assert (leaf_pre leaf = leaf_pre leaf') as [= ->]; [|done].
      apply HS; [done| |done]. apply Hlv, list_elem_of_fmap. eauto.
    + exfalso. eapply leaf_node_distinct; [exact HS|exact Hleaf|by apply Hlh|exact E].
  - rewrite chain_hashed_snoc in Hch. apply list_subseteq_app_iff_l in Hch as [Hch Hlast].
    apply list_subseteq_cons_iff in Hlast as [Hlast _].
    rewrite foldl_app in Hin. cbn in Hin.
    assert (∃ a b, verify_step (foldl verify_step (leafHash leaf) steps) s = nodeHash a b ∧
              node_pre a b ∈ S ∧ (foldl verify_step (leafHash leaf) steps = a ∨
              foldl verify_step (leafHash leaf) steps = b)) as (a & b & E & Hab & Hor).
    { unfold verify_step at 1. destruct (IsRight s); eauto 10. }
    rewrite E in Hin. apply (is_levels_entry _ _ _ Hl) in Hin as [Hin|(c & d & E' & Hc & Hd & Hcd)].
    + apply list_elem_of_fmap in Hin as (leaf' & E' & Hin). exfalso.
      eapply (leaf_node_distinct S leaf'); [exact HS| |exact Hab|by symmetry].
      apply Hlv, list_elem_of_fmap. eauto.
    + apply Hlh in Hcd. destruct (nodeHash_inj _ _ _ _ _ HS Hab Hcd E') as [-> ->].
      apply IH; [by apply list_subseteq_cons_iff|]. destruct Hor as [-> | ->]; done.
Qed.

Lemma root_entry l ls : is_levels l ls → mth l ∈ mjoin ls.
Proof.
  intros Hl. apply is_levels_root in Hl. rewrite last_lookup in Hl.
  apply list_elem_of_join. exists [mth l]. split; [by left|]. by eapply list_elem_of_lookup_2.
Qed.

(** [Verify] is sound: whatever the path, the leaf it accepts against a
    tree's root is one of the tree's leaves, unless the strings hashed on both
    sides contain a collision.  The leaf and node prefixes are what makes this
    hold for paths of the wrong length. *)
Theorem Verify_sound leaves t root leaf path :
  New leaves = Ok t → Root t = Ok root → Verify root leaf path = true →
  coll_free (tree_hashed leaves t ++ path_hashed leaf (Steps path)) →
  leaf ∈ leaves.
Proof.
  intros (_ & _ & Hls)%New_inv Hroot HV HS.
  rewrite (Root_levels _ _ Hls) in Hroot. simplify_eq.
  unfold Verify in HV. rewrite arr_length in HV. apply ct_equal_true, arr_inj in HV.
  eapply chain_opens_leaf; [exact Hls|exact HS|..].
  - do 2 apply list_subseteq_app_l. done.
  - apply list_subseteq_app_l, list_subseteq_app_r. done.
  - apply list_subseteq_app_r. done.
  - rewrite HV. by apply root_entry.
Qed.

Lemma VerifyInclusion_inv root idx n leaf proof :
  VerifyInclusion root idx n leaf proof = Ok tt →
  ∃ path, decodeProof proof = Ok path ∧ (idx < n)%Z ∧
    proofSideSequence idx n = Ok (IsRight <$> Steps path) ∧
    foldl verify_step (leafHash (arr leaf)) (Steps path) = root.
Proof.
  unfold VerifyInclusion. destruct (Z.leb_spec n idx) as [|Hlt]; [done|].
  destruct (decodeProof proof) as [path| | |]; try done. intros Hv.
  unfold mbind, outcome_bind in Hv.
  destruct (proofSideSequence idx n) as [sides| | |] eqn:Hs; try done.
  destruct (negb (_ =? _)); [done|].
  destruct (bool_decide_reflect ((IsRight <$> Steps path) = sides)) as [<-|]; [|done].
  unfold Verify in Hv. rewrite arr_length in Hv. simpl in Hv.
  destruct (ct_equal _ _) eqn:E; [|done]. apply ct_equal_true, arr_inj in E. eauto.
Qed.

Lemma VerifyInclusion_binds leaves t root i leaf proof path :
  New leaves = Ok t → Root t = Ok (arr root) → (zlen leaves < 2 ^ 64 - 1)%Z →
  VerifyInclusion root (Z.of_nat i) (zlen leaves) leaf proof = Ok tt →
  decodeProof proof = Ok path →
  coll_free (tree_hashed leaves t ++ path_hashed (arr leaf) (Steps path)) →
  leaves !! i = Some (arr leaf) ∧ Tree_Proof t (Z.of_nat i) = Ok path.
Proof.
  intros Ht Hroot Hmax (path' & Hd & Hi & Hside & Hv)%VerifyInclusion_inv Hd' HS.
  rewrite Hd in Hd'. simplify_eq. pose proof (New_inv _ _ Ht) as (_ & Hsz & Hls).
  rewrite (Root_levels _ _ Hls) in Hroot. injection Hroot as Hroot%arr_inj.
  destruct (lookup_lt_is_Some_2 leaves i) as [leaf0 Hleaf0]; [lia|].
  destruct (Tree_Proof_ok _ _ _ _ Ht Hleaf0) as (steps0 & HP & Hsteps0 & _).
  destruct (chain_sound (tree_hashed leaves t ++ path_hashed (arr leaf) (Steps path))
    (leafHash <$> leaves) (levels t) side_fuel i (leafHash leaf0) (leafHash (arr leaf)) (Steps path))
    as [Hh Hp]; try done.
  - apply list_subseteq_app_r, list_subseteq_cons. done.
  - apply list_subseteq_app_l, list_subseteq_app_r. done.
  - by rewrite list_lookup_fmap, Hleaf0.
  - by rewrite length_fmap.
  - by rewrite length_fmap.
  - split.
    + assert (leaf_pre (arr leaf) = leaf_pre leaf0) as [= E]; [|by rewrite E].
      apply HS; [| |exact Hh].
      * apply elem_of_app. right. by left.
      * apply elem_of_app. left. apply elem_of_app. left. apply list_elem_of_fmap.
        eauto using list_elem_of_lookup_2.
    + rewrite HP. rewrite Hsteps0 in Hp. simplify_eq. by destruct path.
Qed.

(** C5.  [VerifyInclusion] binds the index: what it accepts at index [i] of a
    tree is leaf [i] of that tree, and the decoded proof is exactly the path
    [Tree.Proof] emits, again up to a collision among the strings hashed. *)
Theorem VerifyInclusion_sound leaves t root i leaf proof path :
  New leaves = Ok t → Root t = Ok (arr root) → (zlen leaves < 2 ^ 64 - 1)%Z →
  VerifyInclusion root (Z.of_nat i) (zlen leaves) leaf proof = Ok tt →
  decodeProof proof = Ok path →
  coll_free (tree_hashed leaves t ++ path_hashed (arr leaf) (Steps path)) →
  leaves !! i = Some (arr leaf) ∧ Tree_Proof t (Z.of_nat i) = Ok path.
Proof. apply VerifyInclusion_binds. Qed.

(** ** The end of the [uint64] range *)

Lemma VerifyInclusion_at_max_size idx leaf sib :
  (0 ≤ idx < 2 ^ 64 - 2)%Z → (idx `mod` 2 = 0)%Z →
  VerifyInclusion (nodeHash (leafHash (arr leaf)) sib) idx (2 ^ 64 - 1) leaf
    [x01 :: arr sib] = Ok tt.
Proof.
  intros Hr He. change [x01 :: arr sib] with (proof_element <$> [Step sib true]).
  apply VerifyInclusion_intro; [lia| |done].
  unfold proofSideSequence, side_fuel. cbn [side_loop]. rewrite He, u64_small by arith.
  change (u64 (2 ^ 64 - 1 + 1) `div` 2)%Z with 0%Z.
  replace (idx + 1 <? 2 ^ 64 - 1)%Z with true by (symmetry; apply Z.ltb_lt; lia). done.
Qed.

(** At [treeSize = 2^64 - 1] the addition [count + 1] of
    [proofSideSequence] wraps to zero and the side sequence has at most one
    entry, so the index is no longer bound: the root of a two-leaf tree
    verifies its left leaf at every even index below [2^64 - 2]. *)
Theorem VerifyInclusion_max_size_unbound idx leaf sib :
  (0 ≤ idx < 2 ^ 64 - 2)%Z → (idx `mod` 2 = 0)%Z →
  VerifyInclusion (nodeHash (leafHash (arr leaf)) sib) idx (2 ^ 64 - 1) leaf
    [x01 :: arr sib] = Ok tt.
Proof. apply VerifyInclusion_at_max_size. Qed.

End Inclusion.

(** ** Witnesses: a three-leaf tree under SHA-256 *)

Definition ex_leaves : list array32 := copy32 <$> [[x0a]; [x0b]; [x0c]].
Definition ex_tree : Tree :=
  match New (arr <$> ex_leaves) with Ok t => t | _ => MkTree [] 0 end.
Definition ex_root : array32 :=
  match Root ex_tree with Ok r => copy32 r | _ => zero32 end.
Definition ex_path : AuditPath :=
  match Tree_Proof ex_tree 1 with Ok p => p | _ => Path [] end.
Definition ex_proof : list bytes := proof_element <$> Steps ex_path.

Lemma Proof_verifies_witness :
  ∃ path root, Tree_Proof ex_tree 1 = Ok path ∧ Root ex_tree = Ok root ∧
    Verify root (arr (copy32 [x0b])) path = true.
Proof. apply (Proof_verifies (arr <$> ex_leaves) ex_tree 1); vm_compute; reflexivity. Defined.

Lemma VerifyInclusion_complete_witness :
  ∃ path root, Tree_Proof ex_tree 1 = Ok path ∧ Root ex_tree = Ok (arr root) ∧
    VerifyInclusion root 1 3 (copy32 [x0b]) (proof_element <$> Steps path) = Ok tt.
Proof. apply (VerifyInclusion_complete ex_leaves ex_tree 1); vm_compute; reflexivity. Defined.

Lemma Verify_sound_witness : arr (copy32 [x0b]) ∈ arr <$> ex_leaves.
Proof.
  apply (Verify_sound (arr <$> ex_leaves) ex_tree (arr ex_root) (arr (copy32 [x0b])) ex_path);
    [vm_compute; reflexivity..|].
  apply coll_free_b_ok. vm_compute. reflexivity.
Defined.

Lemma VerifyInclusion_sound_witness :
  (arr <$> ex_leaves) !! 1 = Some (arr (copy32 [x0b])) ∧ Tree_Proof ex_tree 1 = Ok ex_path.
Proof.
  apply (VerifyInclusion_sound (arr <$> ex_leaves) ex_tree ex_root 1 (copy32 [x0b]) ex_proof ex_path);
    [vm_compute; reflexivity..|].
  apply coll_free_b_ok. vm_compute. reflexivity.
Defined.

Lemma VerifyInclusion_max_size_unbound_witness :
  VerifyInclusion (nodeHash (leafHash (arr zero32)) zero32) 1000 (2 ^ 64 - 1) zero32
    [x01 :: arr zero32] = Ok tt.
Proof. apply (VerifyInclusion_max_size_unbound 1000 zero32 zero32); [lia|reflexivity]. Defined.
