(* ===== verification/MerkleConsistency.v ===== *)
(** * Consistency proofs of the [merkle] package

    [ConsistencyProof] never meets its internal error and emits the SUBPROOF
    of RFC 6962 section 2.1.2; [VerifyConsistency] accepts it; what
    [VerifyConsistency] accepts against the root of [n] leaves fixes the root
    of the first [m], up to a collision among the strings hashed.  The loop of
    [largestPow2LessThan] terminates exactly up to [2^62]. *)
From Equations Require Import Equations.
From Stdlib Require Import Wf_nat.
From S2P Require Import Prelude Sha256 Merkle MerkleTree MerkleInclusion.
Import Merkle.
#[local] Arguments Nat.mul : simpl never.
#[local] Arguments Nat.pow : simpl never.

(** ** The loop of [largestPow2LessThan] *)

Lemma pow2_loop_ok fuel q n :
  (2 ^ Z.of_nat q < n ≤ 2 ^ 62)%Z → 62 ≤ q + fuel →
  pow2_loop fuel (2 ^ Z.of_nat q) n = Ok (Z.of_nat (split_pt (Z.to_nat n))).
Proof.
  revert q. induction fuel as [|f IH]; intros q Hn Hf; cbn [pow2_loop].
  all: assert (q < 62) by (apply Nat2Z.inj_lt, (Z.pow_lt_mono_r_iff 2); lia).
  { lia. }
  assert (2 ^ Z.of_nat q * 2 = 2 ^ Z.of_nat (S q))%Z as -> by (rewrite Nat2Z.inj_succ, Z.pow_succ_r; lia).
  assert (2 ^ Z.of_nat (S q) ≤ 2 ^ 62)%Z by (apply Z.pow_le_mono_r; lia).
  rewrite i64_small by (unfold is_int; lia).
  destruct (Z.ltb_spec (2 ^ Z.of_nat (S q)) n) as [Hlt|Hge].
  - apply IH; lia.
  - rewrite (split_pt_unique _ q).
    + by rewrite Nat2Z.inj_pow.
    + apply Nat2Z.inj_lt. rewrite Nat2Z.inj_pow, Z2Nat.id by lia. change (Z.of_nat 2) with 2%Z. lia.
    + apply Nat2Z.inj_le. rewrite Nat2Z.inj_pow, Z2Nat.id by lia. change (Z.of_nat 2) with 2%Z. lia.
Qed.

Lemma largestPow2LessThan_ok n : 2 ≤ n → (Z.of_nat n ≤ 2 ^ 62)%Z →
  largestPow2LessThan (Z.of_nat n) = Ok (Z.of_nat (split_pt n)).
Proof.
  intros H2 Hn. unfold largestPow2LessThan. rewrite <- (Nat2Z.id n) at 2.
  apply (pow2_loop_ok _ 0); [lia|]. unfold pow2_fuel. lia.
Qed.

(** Past [2^62] the loop variable runs through [2^62], [-2^63] and then stays
    at zero. *)
Lemma pow2_loop_stuck fuel k n : (2 ^ 62 < n < 2 ^ 63)%Z →
  (k = 0 ∨ k = - 2 ^ 63 ∨ ∃ q : nat, (q ≤ 62)%nat ∧ k = 2 ^ Z.of_nat q)%Z →
  pow2_loop fuel k n = OutOfFuel.
Proof.
  intros Hn. revert k. induction fuel as [|f IH]; intros k Hk; cbn [pow2_loop].
  all: assert (i64 (k * 2) < n ∧ (i64 (k * 2) = 0 ∨ i64 (k * 2) = - 2 ^ 63 ∨
    ∃ q : nat, (q ≤ 62)%nat ∧ i64 (k * 2) = 2 ^ Z.of_nat q))%Z as [Hlt Hk'].
  1,3: destruct Hk as [->|[->|(q & Hq & ->)]];
    [split; [change (0 < n)%Z; lia|by left] | split; [change (0 < n)%Z; lia|by left] |].
  1,2: destruct (decide (q = 62)) as [->|Hne];
    [split; [change (- 2 ^ 63 < n)%Z; lia|by right; left]|].
  1,2: assert (2 ^ Z.of_nat q * 2 = 2 ^ Z.of_nat (S q))%Z as -> by (rewrite Nat2Z.inj_succ, Z.pow_succ_r; lia);
    assert (0 < 2 ^ Z.of_nat (S q) ≤ 2 ^ 62)%Z
      by (split; [apply Z.pow_pos_nonneg; lia|apply Z.pow_le_mono_r; lia]);
    rewrite i64_small by (unfold is_int; lia); split; [lia|]; right; right; exists (S q); split; [lia|done].
  - by rewrite (proj2 (Z.ltb_lt _ _) Hlt).
  - rewrite (proj2 (Z.ltb_lt _ _) Hlt). by apply IH.
Qed.

Section Consistency.
Context `{!Hasher}.

(** ** The subtree lookup *)

(** The leaf range [lo, hi) of a list. *)
Definition slice {A} (lo hi : nat) (l : list A) : list A := firstn (hi - lo) (skipn lo l).

(** A range some node covers: [2^j] leaves from a multiple of [2^j], cut at
    the end of the tree. *)
Definition aligned (n j p lo hi : nat) : Prop :=
  lo = p * 2 ^ j ∧ hi = Nat.min (lo + 2 ^ j) n ∧ lo < n.

Lemma chunk_slice {A} (l : list A) j p lo hi :
  aligned (length l) j p lo hi → chunk (2 ^ j) p l = slice lo hi l.
Proof.
  intros (-> & -> & Hlt). unfold chunk, slice.
  destruct (decide (p * 2 ^ j + 2 ^ j ≤ length l)).
  - f_equal. lia.
  - rewrite !firstn_all2; [done| |]; rewrite length_skipn; lia.
Qed.

Lemma slice_length {A} (l : list A) lo hi : lo ≤ hi ≤ length l → length (slice lo hi l) = hi - lo.
Proof. intros. unfold slice. rewrite length_firstn, length_skipn. lia. Qed.

Lemma shiftl_nat a b : Z.shiftl (Z.of_nat a) (Z.of_nat b) = Z.of_nat (a * 2 ^ b).
Proof. rewrite Z.shiftl_mul_pow2 by lia. by rewrite Nat2Z.inj_mul, Nat2Z.inj_pow. Qed.

Lemma levels_lookup l ls j p : is_levels l ls → j < length ls → p * 2 ^ j < length l →
  ∃ lvl, ls !! j = Some lvl ∧ lvl !! p = Some (mth (chunk (2 ^ j) p l)).
Proof.
  intros Hl Hj Hp. destruct (lookup_lt_is_Some_2 ls j Hj) as [lvl Hlvl].
  apply (is_levels_width _ _ _ _ _ Hl Hlvl) in Hp.
  destruct (lookup_lt_is_Some_2 lvl p Hp) as [h Hh]. exists lvl. split; [done|].
  by rewrite Hh, (is_levels_node _ _ _ _ _ _ Hl Hlvl Hh).
Qed.

Lemma subtree_loop_ok hs t j0 p0 j p lo hi :
  is_levels hs (levels t) → tsize t = zlen hs →
  aligned (length hs) j p lo hi → j ≤ j0 → j0 < length (levels t) →
  p0 * 2 ^ j0 ≤ lo < (p0 + 1) * 2 ^ j0 →
  subtree_loop t j0 p0 (Z.of_nat lo) (Z.of_nat hi) = Ok (Some (mth (slice lo hi hs))).
Proof.
  intros Hls Hsz Hal Hj Hj0 Hp0. pose proof Hal as (Hlo & Hhi & Hlt).
  revert p0 Hj Hj0 Hp0. induction j0 as [|j0 IH]; intros p0 Hj Hj0 Hp0; cbn [subtree_loop];
    change 1%Z with (Z.of_nat 1); rewrite !shiftl_nat, Hsz, Nat.mul_1_l, <- Nat2Z.inj_add,
      <- Nat2Z.inj_min, !zeqb_nat.
  all: destruct ((p0 * 2 ^ _ =? lo) && (Nat.min (p0 * 2 ^ _ + 2 ^ _) (length hs) =? hi)) eqn:Hcov.
  1,3: apply andb_true_iff in Hcov as [H1%Nat.eqb_eq H2%Nat.eqb_eq];
    edestruct (levels_lookup hs (levels t)) as (lvl & Hlvl & Hh); [done|exact Hj0|rewrite H1; exact Hlt|];
    unfold index; rewrite Hlvl; cbn; rewrite Hh; cbn; do 3 f_equal; apply chunk_slice;
    unfold aligned; lia.
  - exfalso. assert (j = 0) as -> by lia. change (2 ^ 0) with 1 in *.
    apply andb_false_iff in Hcov as [?%Nat.eqb_neq|?%Nat.eqb_neq]; lia.
  - assert (j ≠ S j0).
    { intros ->. assert (p0 = p).
      { subst lo. pose proof (Nat.pow_nonzero 2 (S j0)). nia. }
      subst p0. apply andb_false_iff in Hcov as [?%Nat.eqb_neq|?%Nat.eqb_neq]; lia. }
    assert (∃ c, 2 ^ j0 = c * 2 ^ j) as [c Hc].
    { exists (2 ^ (j0 - j)). rewrite <- Nat.pow_add_r. f_equal. lia. }
    rewrite Nat.pow_succ_r' in Hp0 |- *.
    destruct (levels_lookup hs (levels t) j0 (2 * p0)) as (below & Hb & _); [done|lia|nia|].
    unfold index. rewrite Hb. cbn [mbind outcome_bind].
    pose proof (is_levels_width _ _ _ _ (2 * p0 + 1) Hls Hb) as Hw.
    destruct (Nat.leb_spec (length below) (2 * p0 + 1)) as [Hr|Hr].
    { apply IH; [lia|lia|]. nia. }
    apply Hw in Hr. rewrite <- Nat2Z.inj_add, zleb_nat, zltb_nat, ?Nat.mul_1_l.
    destruct (Nat.leb_spec hi (p0 * (2 * 2 ^ j0) + 2 ^ j0)) as [Hleft|Hleft].
    { apply IH; [lia|lia|]. nia. }
    destruct (Nat.ltb_spec lo (p0 * (2 * 2 ^ j0) + 2 ^ j0)) as [Hcross|Hright].
    + exfalso. assert (lo + 2 ^ j ≤ p0 * (2 * 2 ^ j0) + 2 ^ j0) as Hle.
      { rewrite Hc in *. subst lo. pose proof (Nat.pow_nonzero 2 j).
        assert (p < p0 * (2 * c) + c) by nia. nia. }
      rewrite Hhi in Hleft. clear - Hle Hleft. lia.
    + apply IH; [lia|lia|]. nia.
Qed.

Lemma subtree_ok hs t j p lo hi :
  is_levels hs (levels t) → tsize t = zlen hs → aligned (length hs) j p lo hi →
  j < length (levels t) →
  subtree t (Z.of_nat lo) (Z.of_nat hi) = Ok (Some (mth (slice lo hi hs))).
Proof.
  intros Hls Hsz Hal Hj. pose proof Hal as (Hlo & Hhi & Hlt). unfold subtree. rewrite Hsz.
  pose proof (Nat.pow_nonzero 2 j).
  rewrite (proj2 (Z.ltb_ge _ _)), (proj2 (Z.ltb_ge _ _)), (proj2 (Z.leb_gt _ _)) by lia. cbn [orb].
  pose proof (is_levels_depth _ _ Hls).
  eapply subtree_loop_ok; [done|done|exact Hal|lia|lia|lia].
Qed.

(** ** RFC 6962 section 2.1.2 *)

(** SUBPROOF(m, D[n], b) over the leaf hashes, with the side flag the program
    attaches to each node. *)
Inductive subproof : nat → list array32 → bool → list ProofStep → Prop :=
| sp_known hs : subproof (length hs) hs true []
| sp_node hs : subproof (length hs) hs false [Step (mth hs) false]
| sp_left m hs b p k :
    k = split_pt (length hs) → 0 < m ≤ k → m < length hs →
    subproof m (firstn k hs) b p →
    subproof m hs b (p ++ [Step (mth (skipn k hs)) true])
| sp_right m hs b p k :
    k = split_pt (length hs) → k < m < length hs →
    subproof (m - k) (skipn k hs) false p →
    subproof m hs b (p ++ [Step (mth (firstn k hs)) false]).

Lemma split_pt_fuel n f : 2 ≤ n → n ≤ 2 ^ S f → split_pt n ≤ 2 ^ f.
Proof.
  intros H2 Hn. destruct (split_pt_pow2 n) as [q Hq]. pose proof (split_pt_lt n H2).
  rewrite Hq in *. apply Nat.pow_le_mono_r; [lia|].
  apply Nat.lt_succ_r, (Nat.pow_lt_mono_r_iff 2); lia.
Qed.

(** The two halves of an aligned range are aligned. *)
Lemma aligned_split n j p lo hi k :
  aligned n j p lo hi → k = split_pt (hi - lo) → 2 ≤ hi - lo →
  ∃ j' p', j' < j ∧ aligned n j' p' lo (lo + k) ∧ aligned n j' (p' + 1) (lo + k) hi.
Proof.
  intros (Hlo & Hhi & Hlt) Hk H2. destruct (split_pt_pow2 (hi - lo)) as [q Hq].
  pose proof (split_pt_lt _ H2) as Hl. pose proof (split_pt_le _ H2) as Hu.
  rewrite <- Hk in *.
  assert (q < j) as Hqj.
  { apply (Nat.pow_lt_mono_r_iff 2); lia. }
  exists q, (p * 2 ^ (j - q)).
  assert (2 ^ j = 2 ^ (j - q) * 2 ^ q) as Hjq by (rewrite <- Nat.pow_add_r; f_equal; lia).
  assert (2 * 2 ^ q ≤ 2 ^ j).
  { rewrite <- Nat.pow_succ_r'. apply Nat.pow_le_mono_r; lia. }
  split; [done|]. unfold aligned. rewrite <- !Hq.
  assert (lo = p * 2 ^ (j - q) * k) as Hlo'. { subst lo. rewrite Hjq, Hq. lia. }
  split_and!; [done|lia|lia|rewrite Hlo'; lia|lia|lia].
Qed.

Lemma slice_take {A} (l : list A) lo hi k : lo + k ≤ hi → slice lo (lo + k) l = firstn k (slice lo hi l).
Proof. intros. unfold slice. rewrite firstn_firstn. f_equal. lia. Qed.

Lemma slice_drop {A} (l : list A) lo hi k : slice (lo + k) hi l = skipn k (slice lo hi l).
Proof. unfold slice. rewrite skipn_firstn_comm, skipn_skipn. f_equal; [lia|f_equal; lia]. Qed.

Lemma aligned_bounds n j p lo hi : aligned n j p lo hi → lo < hi ≤ n.
Proof. intros (-> & -> & ?). pose proof (Nat.pow_nonzero 2 j). lia. Qed.

Lemma consistencySubproof_ok f hs t m j p lo hi b path :
  is_levels hs (levels t) → tsize t = zlen hs → (zlen hs ≤ 2 ^ 62)%Z →
  aligned (length hs) j p lo hi → j < length (levels t) → 0 < m ≤ hi - lo → hi - lo ≤ 2 ^ f →
  ∃ sp, consistencySubproof f t (Z.of_nat m) (Z.of_nat lo) (Z.of_nat hi) b path = Ok (Some (path ++ sp)) ∧
    subproof m (slice lo hi hs) b sp.
Proof.
  intros Hls Hsz Hmax. revert m j p lo hi b path.
  induction f as [|f IH]; intros m j p lo hi b path Hal Hj Hm Hf;
    pose proof (aligned_bounds _ _ _ _ _ Hal) as Hb;
    pose proof (slice_length hs lo hi ltac:(lia)) as Hlen; cbn [consistencySubproof];
    rewrite <- Nat2Z.inj_sub, zeqb_nat by lia;
    (destruct (Nat.eqb_spec m (hi - lo)) as [->|Hne];
      [destruct b; cbn [negb];
       [exists []; rewrite app_nil_r; split; [done|]; rewrite <- Hlen; constructor
       |rewrite (subtree_ok hs t _ _ _ _ Hls Hsz Hal Hj); eexists; split; [done|];
        rewrite <- Hlen; constructor]|]).
  { change (2 ^ 0) with 1 in Hf. lia. }
  rewrite largestPow2LessThan_ok by lia. cbn [mbind outcome_bind].
  destruct (aligned_split _ _ _ _ _ _ Hal eq_refl ltac:(lia)) as (j' & p' & Hj' & Hl & Hr).
  pose proof (split_pt_lt (hi - lo) ltac:(lia)). pose proof (split_pt_le (hi - lo) ltac:(lia)).
  pose proof (split_pt_fuel (hi - lo) f ltac:(lia) Hf).
  remember (split_pt (hi - lo)) as k eqn:Hk. rewrite zleb_nat, <- !Nat2Z.inj_add.
  destruct (Nat.leb_spec m k) as [Hmk|Hmk].
  - destruct (IH m j' p' lo (lo + k) b path) as (sp & -> & Hsp); [done|lia|lia|lia|].
    cbn [mbind outcome_bind]. rewrite (subtree_ok hs t _ _ _ _ Hls Hsz Hr) by lia. cbn.
    eexists. split; [by rewrite <- app_assoc|].
    rewrite slice_drop. apply sp_left; [by rewrite Hlen|lia|lia|].
    by rewrite <- slice_take by lia.
  - rewrite <- Nat2Z.inj_sub by lia.
    destruct (IH (m - k) j' (p' + 1) (lo + k) hi false path) as (sp & -> & Hsp); [done|lia|lia|lia|].
    cbn [mbind outcome_bind]. rewrite (subtree_ok hs t _ _ _ _ Hls Hsz Hl) by lia. cbn.
    eexists. split; [by rewrite <- app_assoc|].
    rewrite (slice_take _ _ hi) by lia. apply sp_right; [by rewrite Hlen|lia|].
    by rewrite <- slice_drop.
Qed.

(** ** Verification consumes the emitted nodes *)

Lemma cursor_take_drop c s rest :
  skipn (cnext c) (csteps c) = s :: rest →
  cursor_take c = Some (Hash s, Cursor (csteps c) (S (cnext c))).
Proof.
  intros E. unfold cursor_take.
  assert (csteps c !! cnext c = Some s) as ->; [|done].
  rewrite <- (Nat.add_0_r (cnext c)), <- lookup_drop, E. done.
Qed.

Lemma drop_plus {A} (l : list A) a p rest :
  skipn a l = p ++ rest → skipn (a + length p) l = rest.
Proof. intros E. rewrite <- drop_drop, E. by rewrite drop_app_length. Qed.

Lemma split_pt_prefix m n : split_pt n < m ≤ n → 2 ≤ n → split_pt m = split_pt n.
Proof.
  intros H1 H2. pose proof (split_pt_le n H2). destruct (split_pt_pow2 n) as [q Hq].
  rewrite Hq in *. apply split_pt_unique; rewrite ?Nat.pow_succ_r'; lia.
Qed.

Lemma mth_take_right m (hs : list array32) k :
  k = split_pt (length hs) → k < m ≤ length hs → 2 ≤ length hs →
  mth (firstn m hs) = nodeHash (mth (firstn k hs)) (mth (firstn (m - k) (skipn k hs))).
Proof.
  intros -> Hm H2. pose proof (split_pt_lt _ H2).
  rewrite mth_split; rewrite length_firstn, Nat.min_l by lia; [|lia].
  rewrite (split_pt_prefix m (length hs)), firstn_firstn, skipn_firstn_comm by lia.
  by rewrite Nat.min_l by lia.
Qed.

Lemma verifySubproof_ok m hs b p f old cur rest :
  subproof m hs b p → (zlen hs ≤ 2 ^ 62)%Z → length hs ≤ 2 ^ f →
  (b = true → old = Some (mth (firstn m hs))) →
  skipn (cnext cur) (csteps cur) = p ++ rest →
  verifySubproof f (Z.of_nat m) (zlen hs) b old cur =
    Ok (Some (mth hs, mth (firstn m hs), Cursor (csteps cur) (cnext cur + length p))).
Proof.
  intros Hp. revert f old cur rest.
  induction Hp as [hs|hs|m hs b p k Hk Hm Hlt Hp IH|m hs b p k Hk Hm Hp IH];
    intros f old cur rest Hmax Hf Hold Hcur.
  - destruct f; cbn [verifySubproof]; rewrite Z.eqb_refl, Hold by done;
      rewrite firstn_all, Nat.add_0_r; by destruct cur.
  - destruct f; cbn [verifySubproof]; rewrite Z.eqb_refl, (cursor_take_drop _ _ _ Hcur);
      rewrite firstn_all; cbn [length]; by rewrite Nat.add_1_r.
  - rewrite length_firstn in *. pose proof (split_pt_lt (length hs) ltac:(lia)).
    destruct f as [|f]; [change (2 ^ 0) with 1 in Hf; lia|].
    pose proof (split_pt_fuel (length hs) f ltac:(lia) Hf). rewrite <- Hk in *.
    cbn [verifySubproof]. rewrite (proj2 (Z.eqb_neq _ _)) by lia.
    rewrite largestPow2LessThan_ok by lia. cbn [mbind outcome_bind]. rewrite <- Hk, zleb_nat.
    rewrite (proj2 (Nat.leb_le m k)) by lia. rewrite <- app_assoc in Hcur.
    rewrite Nat.min_l in IH by lia. rewrite firstn_firstn, Nat.min_l in IH by lia.
    rewrite (IH f old cur _ ltac:(lia) ltac:(lia) Hold Hcur). cbn [mbind outcome_bind].
    apply drop_plus in Hcur. rewrite (cursor_take_drop (Cursor _ _) _ _ Hcur).
    rewrite (mth_split hs), <- Hk by lia. do 4 f_equal. rewrite length_app. simpl. lia.
  - rewrite length_skipn in *. pose proof (split_pt_lt (length hs) ltac:(lia)).
    pose proof (split_pt_le (length hs) ltac:(lia)).
    destruct f as [|f]; [change (2 ^ 0) with 1 in Hf; lia|].
    pose proof (split_pt_fuel (length hs) f ltac:(lia) Hf). rewrite <- Hk in *.
    cbn [verifySubproof]. rewrite (proj2 (Z.eqb_neq _ _)) by lia.
    rewrite largestPow2LessThan_ok by lia. cbn [mbind outcome_bind]. rewrite <- Hk, zleb_nat.
    rewrite (proj2 (Nat.leb_gt m k)) by lia. rewrite <- app_assoc in Hcur.
    rewrite <- !Nat2Z.inj_sub by lia.
    rewrite (IH f None cur _ ltac:(lia) ltac:(lia) ltac:(done) Hcur). cbn [mbind outcome_bind].
    apply drop_plus in Hcur. rewrite (cursor_take_drop (Cursor _ _) _ _ Hcur).
    rewrite (mth_split hs), <- Hk, (mth_take_right m hs k) by (done || lia).
    do 4 f_equal. rewrite length_app. simpl. lia.
Qed.

(** ** Soundness *)

(** The strings the RFC recursion hashes above the leaves. *)
Equations? mth_hashed (hs : list array32) : list bytes by wf (length hs) lt :=
  mth_hashed [] := [];
  mth_hashed [h] := [];
  mth_hashed (a :: b :: l) :=
    node_pre (mth (firstn (split_pt (S (S (length l)))) (a :: b :: l)))
             (mth (skipn (split_pt (S (S (length l)))) (a :: b :: l))) ::
    mth_hashed (firstn (split_pt (S (S (length l)))) (a :: b :: l)) ++
    mth_hashed (skipn (split_pt (S (S (length l)))) (a :: b :: l)).
Proof.
  all: pose proof (split_pt_lt (S (S (length l))) ltac:(lia)).
  - rewrite length_firstn. simpl length. lia.
  - rewrite length_skipn. simpl length. lia.
Qed.

Lemma mth_hashed_split hs k : k = split_pt (length hs) → 2 ≤ length hs →
  mth_hashed hs = node_pre (mth (firstn k hs)) (mth (skipn k hs)) ::
                  mth_hashed (firstn k hs) ++ mth_hashed (skipn k hs).
Proof.
  intros -> H2. destruct hs as [|a [|b l]]; simpl in H2; try lia.
  rewrite mth_hashed_equation_3. done.
Qed.

(** The strings [verifySubproof] hashes. *)
Fixpoint subproof_hashed (fuel : nat) (m n : Z) (b : bool) (old : option array32)
    (cur : proofCursor) : list bytes :=
  if (m =? n)%Z then []
  else
    match fuel, largestPow2LessThan n with
    | S f, Ok k =>
        if (m <=? k)%Z then
          subproof_hashed f m k b old cur ++
          match verifySubproof f m k b old cur with
          | Ok (Some (leftNew, _, cur1)) =>
              match cursor_take cur1 with
              | Some (rightRoot, _) => [node_pre leftNew rightRoot]
              | None => []
              end
          | _ => []
          end
        else
          subproof_hashed f (m - k) (n - k) false None cur ++
          match verifySubproof f (m - k) (n - k) false None cur with
          | Ok (Some (rightNew, rightOld, cur1)) =>
              match cursor_take cur1 with
              | Some (leftRoot, _) => [node_pre leftRoot rightNew; node_pre leftRoot rightOld]
              | None => []
              end
          | _ => []
          end
    | _, _ => []
    end.

Lemma verifySubproof_sound S hs m f b old cur nh oh cur' :
  coll_free S → mth_hashed hs ⊆ S →
  subproof_hashed f (Z.of_nat m) (zlen hs) b old cur ⊆ S →
  (zlen hs ≤ 2 ^ 62)%Z → 0 < m ≤ length hs →
  verifySubproof f (Z.of_nat m) (zlen hs) b old cur = Ok (Some (nh, oh, cur')) →
  nh = mth hs → oh = mth (firstn m hs).
Proof.
  intros HS. revert hs m b old cur nh oh cur'.
  induction f as [|f IH]; intros hs m b old cur nh oh cur' Hhs Hv Hmax Hm Hrun Hnh;
    cbn [verifySubproof subproof_hashed] in Hrun, Hv; rewrite zeqb_nat in Hrun, Hv;
    (destruct (Nat.eqb_spec m (length hs)) as [->|Hne];
      [rewrite firstn_all; destruct b;
        [destruct old; simplify_eq; done|destruct (cursor_take cur) as [[]|]; simplify_eq; done]|]);
    [done|].
  rewrite largestPow2LessThan_ok in Hrun, Hv by lia. cbn [mbind outcome_bind] in Hrun.
  pose proof (split_pt_lt (length hs) ltac:(lia)). pose proof (split_pt_le (length hs) ltac:(lia)).
  rewrite (mth_split hs) in Hnh by lia.
  rewrite (mth_hashed_split hs _ eq_refl) in Hhs by lia.
  remember (split_pt (length hs)) as k eqn:Hk.
  apply list_subseteq_cons_iff in Hhs as [Hnode Hhs].
  apply list_subseteq_app_iff_l in Hhs as [HhsL HhsR].
  rewrite zleb_nat in Hrun, Hv. destruct (Nat.leb_spec m k) as [Hmk|Hmk].
  - apply list_subseteq_app_iff_l in Hv as [Hv1 Hv2].
    assert (length (firstn k hs) = k) as HL by (rewrite length_firstn; lia).
    rewrite <- HL in Hv1, Hv2, Hrun at 1.
    destruct (verifySubproof f _ _ b old cur) as [[[[ln lo] c1]|]| | |] eqn:E; cbn in Hrun; try done.
    destruct (cursor_take c1) as [[rr c2]|]; [|done]. injection Hrun as Hn <- _.
    rewrite Hnh in Hn.
    apply list_subseteq_cons_iff in Hv2 as [Hv2 _].
    destruct (nodeHash_inj S _ _ _ _ HS Hv2 Hnode Hn) as [-> ->].
    rewrite (IH (firstn k hs) m b old cur (mth (firstn k hs)) lo c1); try done; try lia.
    rewrite firstn_firstn, Nat.min_l by lia. done.
  - apply list_subseteq_app_iff_l in Hv as [Hv1 Hv2].
    assert (length (skipn k hs) = length hs - k) as HR by (rewrite length_skipn; lia).
    rewrite <- !Nat2Z.inj_sub in Hv1, Hv2, Hrun by lia. rewrite <- HR in Hv1, Hv2, Hrun.
    destruct (verifySubproof f _ _ false None cur) as [[[[rn ro] c1]|]| | |] eqn:E; cbn in Hrun; try done.
    destruct (cursor_take c1) as [[lr c2]|]; [|done]. injection Hrun as Hn <- _.
    rewrite Hnh in Hn.
    apply list_subseteq_cons_iff in Hv2 as [Hv2 _].
    destruct (nodeHash_inj S _ _ _ _ HS Hv2 Hnode Hn) as [-> ->].
    rewrite (mth_take_right m hs k) by (done || lia). f_equal.
    eapply (IH (skipn k hs)); try done; lia.
Qed.

Lemma level_hashed_app l1 l2 :
  Nat.Even (length l1) → level_hashed (l1 ++ l2) = level_hashed l1 ++ level_hashed l2.
Proof.
  induction l1 as [| a | a b l IH] using pair_ind; simpl; [done| |]; intros [k Hk].
  - lia.
  - f_equal. apply IH. exists (k - 1). lia.
Qed.

(** The RFC recursion and the level-wise construction hash the same strings. *)
Lemma mth_hashed_pair_level l : mth_hashed l ⊆ level_hashed l ++ mth_hashed (pair_level l).
Proof.
  induction l as [l IH] using (induction_ltof1 _ length). unfold ltof in IH.
  destruct (decide (length l ≤ 2)) as [Hs|Hs].
  { destruct l as [|a [|b [|c l]]]; simpl in Hs; try lia.
    - rewrite mth_hashed_equation_1. apply list_subseteq_nil.
    - rewrite mth_hashed_equation_2. apply list_subseteq_nil.
    - rewrite (mth_hashed_split [a; b] 1) by (done || simpl; lia). cbn [firstn skipn].
      rewrite !mth_singleton, !mth_hashed_equation_2. apply list_subseteq_skip, list_subseteq_nil. }
  destruct (split_pt_half (length l)) as (k & Hk & Hk'); [lia|].
  pose proof (split_pt_lt (length l) ltac:(lia)) as Hlt. rewrite Hk in Hlt.
  assert (length (firstn (2 * k) l) = 2 * k) as HL by (rewrite length_firstn; lia).
  assert (length (skipn (2 * k) l) = length l - 2 * k) as HR by (rewrite length_skipn; lia).
  rewrite (mth_hashed_split l (2 * k)) by (done || lia).
  rewrite (mth_hashed_split (pair_level l) k); [| |rewrite pair_level_length; div_lia].
  2: { by rewrite pair_level_length. }
  rewrite <- pair_level_take, <- pair_level_drop.
  rewrite !mth_pair_level by (intros ?%(f_equal length); simpl in *; lia).
  assert (level_hashed (firstn (2 * k) l) ++ level_hashed (skipn (2 * k) l) ⊆ level_hashed l) as Hlev.
  { rewrite <- (take_drop (2 * k) l) at 3. rewrite level_hashed_app; [done|]. rewrite HL. by exists k. }
  pose proof (IH (firstn (2 * k) l) ltac:(lia)) as IHL.
  pose proof (IH (skipn (2 * k) l) ltac:(lia)) as IHR.
  clear - Hlev IHL IHR. set_solver.
Qed.

Lemma mth_hashed_levels l ls : is_levels l ls → mth_hashed l ⊆ mjoin (level_hashed <$> ls).
Proof.
  induction 1 as [h|l ls Hl Hls IH].
  - rewrite mth_hashed_equation_2. apply list_subseteq_nil.
  - trans (level_hashed l ++ mth_hashed (pair_level l)); [apply mth_hashed_pair_level|].
    cbn. set_solver.
Qed.

Lemma New_take leaves m : 0 < m ≤ length leaves →
  ∃ t, New (firstn m leaves) = Ok t ∧ Root t = Ok (arr (mth (firstn m (leafHash <$> leaves)))).
Proof.
  intros Hm. destruct (New_ok (firstn m leaves)) as (ls & HN & Hls).
  { intros E%(f_equal length). rewrite length_firstn in E. simpl in E. lia. }
  eexists. split; [exact HN|]. apply Root_levels. by rewrite fmap_take in Hls.
Qed.

Lemma subproof_fuel_enough n : (Z.of_nat n ≤ 2 ^ 62)%Z → n ≤ 2 ^ subproof_fuel.
Proof.
  intros Hn. apply Nat2Z.inj_le. rewrite Nat2Z.inj_pow. change (Z.of_nat 2) with 2%Z.
  unfold subproof_fuel. lia.
Qed.

Lemma ConsistencyProof_accepts leaves t m :
  New leaves = Ok t → (zlen leaves ≤ 2 ^ 62)%Z → 0 < m < length leaves →
  ∃ path told oldRoot newRoot,
    ConsistencyProof t (Z.of_nat m) (zlen leaves) = Ok path ∧
    subproof m (leafHash <$> leaves) true (Steps path) ∧
    New (firstn m leaves) = Ok told ∧ Root told = Ok oldRoot ∧ Root t = Ok newRoot ∧
    VerifyConsistency oldRoot newRoot (Z.of_nat m) (zlen leaves) path = Ok true.
Proof.
  intros (Hne & Hsz & Hls)%New_inv Hmax Hm. set (hs := leafHash <$> leaves) in *.
  assert (length hs = length leaves) as Hlen by apply length_fmap.
  pose proof (is_levels_depth _ _ Hls) as Hd.
  destruct (is_levels_nonempty _ _ Hls) as [_ Hlne].
  assert (0 < length (levels t)) by (destruct (levels t); simpl; [done|lia]).
  destruct (consistencySubproof_ok subproof_fuel hs t m (length (levels t) - 1) 0 0 (length hs) true [])
    as (sp & HP & Hsp); try done; try lia.
  { unfold aligned. lia. }
  { rewrite Nat.sub_0_r. apply subproof_fuel_enough. lia. }
  assert (slice 0 (length hs) hs = hs) as Hsl by (unfold slice; rewrite Nat.sub_0_r; apply firstn_all).
  rewrite Hsl in Hsp. rewrite Hlen in HP.
  destruct (New_take leaves m ltac:(lia)) as (told & Ht & Hr). fold hs in Hr.
  exists (Path sp), told, (arr (mth (firstn m hs))), (arr (mth hs)).
  split_and!; [|exact Hsp|exact Ht|exact Hr|by apply Root_levels|].
  - unfold ConsistencyProof. rewrite Hsz, Z.eqb_refl.
    rewrite (proj2 (Z.leb_gt _ _)), (proj2 (Z.leb_gt _ _)) by lia. cbn [orb negb].
    change 0%Z with (Z.of_nat 0). by rewrite HP.
  - unfold VerifyConsistency. rewrite !arr_length. cbn [negb Nat.eqb orb].
    rewrite (proj2 (Z.eqb_neq _ _)), (proj2 (Z.leb_gt _ _)), (proj2 (Z.ltb_ge _ _)) by lia.
    cbn [orb Steps]. rewrite copy32_arr, <- Hlen.
    rewrite (verifySubproof_ok m hs true sp subproof_fuel _ (Cursor sp 0) []); cbn.
    + by rewrite Nat.eqb_refl, !ct_equal_refl.
    + done.
    + lia.
    + apply subproof_fuel_enough. lia.
    + done.
    + by rewrite app_nil_r.
Qed.

(** C8.  For every prefix length [0 < m < n] of a tree of [n <= 2^62] leaves,
    [ConsistencyProof] returns a proof (never [ErrTreeCorrupt], never a panic),
    the proof is the SUBPROOF of RFC 6962, and [VerifyConsistency] accepts it
    between the root of the first [m] leaves and the root of all [n]. *)
Theorem ConsistencyProof_complete leaves t m :
  New leaves = Ok t → (zlen leaves ≤ 2 ^ 62)%Z → 0 < m < length leaves →
  ∃ path told oldRoot newRoot,
    ConsistencyProof t (Z.of_nat m) (zlen leaves) = Ok path ∧
    subproof m (leafHash <$> leaves) true (Steps path) ∧
    New (firstn m leaves) = Ok told ∧ Root told = Ok oldRoot ∧ Root t = Ok newRoot ∧
    VerifyConsistency oldRoot newRoot (Z.of_nat m) (zlen leaves) path = Ok true.
Proof. apply ConsistencyProof_accepts. Qed.

Lemma VerifyConsistency_inv oldRoot newRoot m n path :
  VerifyConsistency oldRoot newRoot m n path = Ok true → (0 < m < n)%Z →
  ∃ nh oh cur, verifySubproof subproof_fuel m n true (Some (copy32 oldRoot)) (Cursor (Steps path) 0)
      = Ok (Some (nh, oh, cur)) ∧ arr oh = oldRoot ∧ arr nh = newRoot.
Proof.
  unfold VerifyConsistency. generalize subproof_fuel. intros f HV Hm.
  destruct (negb _ || negb _); [done|].
  rewrite (proj2 (Z.eqb_neq _ _)), (proj2 (Z.leb_gt _ _)), (proj2 (Z.ltb_ge _ _)) in HV by lia.
  cbn [orb] in HV. unfold mbind, outcome_bind in HV.
  destruct (verifySubproof _ _ _ _ _ _) as [[[[nh oh] cur]|]| | |] eqn:E; try done.
  destruct (negb _); [done|]. injection HV as [H1%ct_equal_true H2%ct_equal_true]%andb_true_iff.
  exists nh, oh, cur. done.
Qed.

Lemma VerifyConsistency_binds leaves t m oldRoot newRoot path :
  New leaves = Ok t → Root t = Ok newRoot → (zlen leaves ≤ 2 ^ 62)%Z → 0 < m ≤ length leaves →
  VerifyConsistency oldRoot newRoot (Z.of_nat m) (zlen leaves) path = Ok true →
  coll_free (tree_hashed leaves t ++
    subproof_hashed subproof_fuel (Z.of_nat m) (zlen leaves) true (Some (copy32 oldRoot))
      (Cursor (Steps path) 0)) →
  ∃ told, New (firstn m leaves) = Ok told ∧ Root told = Ok oldRoot.
Proof.
  intros (_ & Hsz & Hls)%New_inv Hroot Hmax Hm HV HS.
  rewrite (Root_levels _ _ Hls) in Hroot. injection Hroot as Hroot.
  destruct (New_take leaves m Hm) as (told & Ht & Hr). exists told. split; [done|].
  rewrite Hr. f_equal. destruct (decide (m = length leaves)) as [->|Hne].
  - rewrite firstn_all2 by by rewrite length_fmap. rewrite Hroot.
    unfold VerifyConsistency in HV. destruct (negb _ || negb _); [done|].
    rewrite Z.eqb_refl in HV. injection HV as [_ H2%ct_equal_true]%andb_true_iff. done.
  - destruct (VerifyConsistency_inv _ _ _ _ _ HV ltac:(lia)) as (nh & oh & cur & Hrun & <- & Hnh).
    f_equal. symmetry.
    rewrite <- (length_fmap leafHash leaves) in Hrun, Hmax, Hm, HS.
    eapply (verifySubproof_sound _ (leafHash <$> leaves) m subproof_fuel); [exact HS|..].
    + apply list_subseteq_app_l, list_subseteq_app_r. by apply mth_hashed_levels.
    + apply list_subseteq_app_r. done.
    + done.
    + done.
    + exact Hrun.
    + apply arr_inj. by rewrite Hnh.
Qed.

(** C7.  [VerifyConsistency] is sound: an old root it accepts as [m]-leaf
    prefix of the root of [n] leaves is the root of the first [m] of them,
    unless the strings hashed contain a collision. *)
Theorem VerifyConsistency_sound leaves t m oldRoot newRoot path :
  New leaves = Ok t → Root t = Ok newRoot → (zlen leaves ≤ 2 ^ 62)%Z → 0 < m ≤ length leaves →
  VerifyConsistency oldRoot newRoot (Z.of_nat m) (zlen leaves) path = Ok true →
  coll_free (tree_hashed leaves t ++
    subproof_hashed subproof_fuel (Z.of_nat m) (zlen leaves) true (Some (copy32 oldRoot))
      (Cursor (Steps path) 0)) →
  ∃ told, New (firstn m leaves) = Ok told ∧ Root told = Ok oldRoot.
Proof. apply VerifyConsistency_binds. Qed.

(** ** Termination *)

Lemma verifySubproof_total f m n b old cur :
  0 < m ≤ n → (Z.of_nat n ≤ 2 ^ 62)%Z → n ≤ 2 ^ f → (b = true → is_Some old) →
  ∃ r, verifySubproof f (Z.of_nat m) (Z.of_nat n) b old cur = Ok r.
Proof.
  revert m n b old cur. induction f as [|f IH]; intros m n b old cur Hm Hmax Hf Hold;
    cbn [verifySubproof]; rewrite zeqb_nat; (destruct (Nat.eqb_spec m n) as [->|Hne];
      [destruct b; [destruct (Hold eq_refl) as [o ->]; eauto|destruct (cursor_take cur) as [[]|]; eauto]|]).
  { change (2 ^ 0) with 1 in Hf. lia. }
  rewrite largestPow2LessThan_ok by lia. cbn [mbind outcome_bind]. rewrite zleb_nat.
  pose proof (split_pt_lt n ltac:(lia)). pose proof (split_pt_le n ltac:(lia)).
  pose proof (split_pt_fuel n f ltac:(lia) Hf).
  destruct (Nat.leb_spec m (split_pt n)).
  - destruct (IH m (split_pt n) b old cur) as [[[[ln lo] c1]|] ->]; [lia|lia|lia|done|cbn..]; [|eauto].
    destruct (cursor_take c1) as [[]|]; eauto.
  - rewrite <- !Nat2Z.inj_sub by lia.
    destruct (IH (m - split_pt n) (n - split_pt n) false None cur) as [[[[ln lo] c1]|] ->];
      [lia|lia|lia|done|cbn..]; [|eauto].
    destruct (cursor_take c1) as [[]|]; eauto.
Qed.

(** [VerifyConsistency] returns on every input with [n <= 2^62]: whatever
    the roots, sizes and proof, it neither panics nor loops. *)
Theorem VerifyConsistency_total oldRoot newRoot m n path :
  (n ≤ 2 ^ 62)%Z → ∃ b, VerifyConsistency oldRoot newRoot m n path = Ok b.
Proof.
  intros Hn. unfold VerifyConsistency.
  destruct (negb _ || negb _); [by eexists|].
  destruct (Z.eqb_spec m n); [by eexists|].
  destruct (Z.leb_spec m 0); [by eexists|]. destruct (Z.ltb_spec n m); [by eexists|]. cbn [orb].
  destruct (verifySubproof_total subproof_fuel (Z.to_nat m) (Z.to_nat n) true
    (Some (copy32 oldRoot)) (Cursor (Steps path) 0)) as [r Hr].
  - lia.
  - lia.
  - apply subproof_fuel_enough. lia.
  - done.
  - rewrite !Z2Nat.id in Hr by lia. rewrite Hr. cbn.
    destruct r as [[[nh oh] cur]|]; [|by eexists]. destruct (negb _); by eexists.
Qed.

Lemma verifySubproof_stuck f m n b old cur :
  m ≠ n → largestPow2LessThan n = OutOfFuel → verifySubproof (S f) m n b old cur = OutOfFuel.
Proof. intros Hne Hk. cbn [verifySubproof]. by rewrite (proj2 (Z.eqb_neq _ _) Hne), Hk. Qed.

(** For [2^62 < n < 2^63] the loop of [largestPow2LessThan] never ends
    (no amount of fuel suffices), and [VerifyConsistency] enters it for every
    pair of 32-byte roots, every [0 < m < n] and every proof. *)
Theorem VerifyConsistency_diverges oldRoot newRoot m n path :
  (2 ^ 62 < n < 2 ^ 63)%Z → (0 < m < n)%Z → length oldRoot = 32 → length newRoot = 32 →
  (∀ fuel, pow2_loop fuel 1 n = OutOfFuel) ∧
  VerifyConsistency oldRoot newRoot m n path = OutOfFuel.
Proof.
  intros Hn Hm Ho Hw.
  assert (∀ fuel, pow2_loop fuel 1 n = OutOfFuel) as Hloop.
  { intros fuel. apply pow2_loop_stuck; [done|]. right; right. exists 0. split; [lia|done]. }
  split; [exact Hloop|]. unfold VerifyConsistency. rewrite Ho, Hw. cbn [negb Nat.eqb orb].
  rewrite (proj2 (Z.eqb_neq _ _)), (proj2 (Z.leb_gt _ _)), (proj2 (Z.ltb_ge _ _)) by lia. cbn [orb].
  change subproof_fuel with (S 63). rewrite verifySubproof_stuck; [done|lia|apply Hloop].
Qed.

End Consistency.

(** ** Witnesses *)

Definition ex_old_root : bytes :=
  match New (firstn 2 (arr <$> ex_leaves)) with
  | Ok t => match Root t with Ok r => r | _ => [] end
  | _ => []
  end.
Definition ex_cpath : AuditPath :=
  match ConsistencyProof ex_tree 2 3 with Ok p => p | _ => Path [] end.

Lemma ConsistencyProof_complete_witness :
  ∃ path told oldRoot newRoot,
    ConsistencyProof ex_tree (Z.of_nat 2) (zlen (arr <$> ex_leaves)) = Ok path ∧
    subproof 2 (leafHash <$> (arr <$> ex_leaves)) true (Steps path) ∧
    New (firstn 2 (arr <$> ex_leaves)) = Ok told ∧ Root told = Ok oldRoot ∧ Root ex_tree = Ok newRoot ∧
    VerifyConsistency oldRoot newRoot (Z.of_nat 2) (zlen (arr <$> ex_leaves)) path = Ok true.
Proof.
  apply (ConsistencyProof_complete (arr <$> ex_leaves) ex_tree 2).
  - vm_compute. reflexivity.
  - vm_compute. discriminate.
  - vm_compute. lia.
Defined.

Lemma VerifyConsistency_sound_witness :
  ∃ told, New (firstn 2 (arr <$> ex_leaves)) = Ok told ∧ Root told = Ok ex_old_root.
Proof.
  apply (VerifyConsistency_sound (arr <$> ex_leaves) ex_tree 2 ex_old_root (arr ex_root) ex_cpath).
  - vm_compute. reflexivity.
  - vm_compute. reflexivity.
  - vm_compute. discriminate.
  - vm_compute. lia.
  - vm_compute. reflexivity.
  - apply coll_free_b_ok. vm_compute. reflexivity.
Defined.

Lemma VerifyConsistency_total_witness :
  ∃ b, VerifyConsistency [x00] [] (-5) 3 (Path []) = Ok b.
Proof. apply (VerifyConsistency_total [x00] [] (-5) 3 (Path [])). lia. Defined.

Lemma VerifyConsistency_diverges_witness :
  (∀ fuel, pow2_loop fuel 1 (2 ^ 62 + 1) = OutOfFuel) ∧
  VerifyConsistency (arr zero32) (arr zero32) 1 (2 ^ 62 + 1) (Path []) = OutOfFuel.
Proof.
  apply (VerifyConsistency_diverges (arr zero32) (arr zero32) 1 (2 ^ 62 + 1) (Path [])); [lia|lia|done|done].
Defined.
