(* ===== verification/Rlp.v ===== *)
(** * The [chain/rlp] package: Recursive Length Prefix serialization

    A translation of src/chain/rlp/rlp.go.  Byte strings ([[]byte]) and lists
    ([[]interface{}]) are the two constructors of [item].  Length arithmetic is
    kept at the width the source uses, since [decodeItem] adds a length read
    from the input to a [uint64] without checking for wrap-around. *)
From S2P Require Import Prelude.
#[local] Open Scope Z_scope.

Module Rlp.

Inductive error : Type :=
| ErrTruncated
| ErrInvalidEncoding
| ErrTrailingBytes
| ErrInputTooLarge
| ErrNestingLimit.

Definition MaxInputLen : Z := Z.shiftl 10 20.
Definition MaxNestingDepth : Z := 64.

(** What [Decode] returns in its [interface{}]. *)
Inductive item : Type :=
| Str (b : bytes)
| Lst (l : list item).

(** [for i < 7 && buf[i] == 0 { i++ }; buf[i:]]. *)
Fixpoint strip_zeros (i : nat) (buf : bytes) : bytes :=
  match i, buf with
  | S i', c :: buf' => if b2z c =? 0 then strip_zeros i' buf' else buf
  | _, _ => buf
  end.

Definition uintToBytes (n : Z) : bytes :=
  if n =? 0 then [] else strip_zeros 7 (be_bytes 8 n).

Definition EncodeBytes (b : bytes) : bytes :=
  match b with
  | [] => [z2b 0x80]
  | [c] => if b2z c <? 0x80 then [c] else [z2b (0x80 + zlen b); c]
  | _ =>
      if zlen b <=? 55 then z2b (0x80 + zlen b) :: b
      else
        let lenBytes := uintToBytes (u64 (zlen b)) in
        z2b (0xb7 + zlen lenBytes) :: lenBytes ++ b
  end.

Definition EncodeList (items : list bytes) : bytes :=
  let total := zlen (mjoin items) in
  if total <=? 55 then z2b (0xc0 + total) :: mjoin items
  else
    let lenBytes := uintToBytes (u64 total) in
    z2b (0xf7 + zlen lenBytes) :: lenBytes ++ mjoin items.

Definition EncodeUint64 (n : Z) : bytes :=
  if n =? 0 then EncodeBytes [] else EncodeBytes (strip_zeros 7 (be_bytes 8 n)).

(** Nested structures are composed by the caller, innermost first. *)
Fixpoint encode (it : item) : bytes :=
  match it with
  | Str b => EncodeBytes b
  | Lst l => EncodeList (encode <$> l)
  end.

(** [n = (n << 8) | uint64(c)] over the length bytes. *)
Definition decodeLength (b : bytes) : outcome error Z :=
  match b with
  | [] => Err ErrTruncated
  | c :: _ =>
      if (1 <? zlen b) && (b2z c =? 0) then Err ErrInvalidEncoding
      else Ok (foldl (λ n c, Z.lor (u64 (Z.shiftl n 8)) (b2z c)) 0 b)
  end.

(** The slice expression [b[lo:hi]].  The guards before each use bound [hi] by
    [len(b)], so the capacity of [b] plays no part. *)
Definition slice (b : bytes) (lo hi : Z) : outcome error bytes :=
  if (0 <=? lo) && (lo <=? hi) && (hi <=? zlen b)
  then Ok (take (Z.to_nat (hi - lo)) (drop (Z.to_nat lo) b))
  else Panic.

(** [b[1 : 1+length]] and [b[1+length:]] after the truncation guard, the
    short forms of strings and lists. *)
Definition short_form (b : bytes) (length : Z) : outcome error (bytes * bytes) :=
  if zlen b <? 1 + length then Err ErrTruncated
  else
    payload ← slice b 1 (1 + length);
    rest ← slice b (1 + length) (zlen b);
    Ok (payload, rest).

(** The long forms of strings and lists: [lenOfLen] length bytes, a minimal
    length above 55, the payload.  The sum on the left of the truncation guard
    is a [uint64] sum, [end] is an [int]. *)
Definition long_form (b : bytes) (lenOfLen : Z) : outcome error (bytes * bytes) :=
  if zlen b <? 1 + lenOfLen then Err ErrTruncated
  else
    lb ← slice b 1 (1 + lenOfLen);
    length ← decodeLength lb;
    if length <=? 55 then Err ErrInvalidEncoding
    else if zlen b <? u64 (1 + lenOfLen + length) then Err ErrTruncated
    else
      let end_ := i64 (1 + lenOfLen + i64 length) in
      payload ← slice b (1 + lenOfLen) end_;
      rest ← slice b end_ (zlen b);
      Ok (payload, rest).

Fixpoint decodeItem (fuel : nat) (b : bytes) (depth : Z) : outcome error (item * bytes) :=
  match fuel with
  | O => OutOfFuel
  | S f =>
      match b with
      | [] => Err ErrTruncated
      | p :: b1 =>
          let prefix := b2z p in
          if (0xc0 <=? prefix) && (MaxNestingDepth <=? depth) then Err ErrNestingLimit
          else if prefix <=? 0x7f then Ok (Str [p], b1)
          else if prefix <=? 0xb7 then
            r ← short_form b (prefix - 0x80);
            let '(str, rest) := r in
            match str with
            | [c] => if b2z c <? 0x80 then Err ErrInvalidEncoding else Ok (Str str, rest)
            | _ => Ok (Str str, rest)
            end
          else if prefix <=? 0xbf then
            r ← long_form b (prefix - 0xb7);
            let '(str, rest) := r in Ok (Str str, rest)
          else
            r ← (if prefix <=? 0xf7 then short_form b (prefix - 0xc0)
                 else long_form b (prefix - 0xf7));
            let '(payload, rest) := r in
            items ← decodeListItems f payload (depth + 1);
            Ok (Lst items, rest)
      end
  end
with decodeListItems (fuel : nat) (b : bytes) (depth : Z) : outcome error (list item) :=
  match b with
  | [] => Ok []
  | _ :: _ =>
      match fuel with
      | O => OutOfFuel
      | S f =>
          r ← decodeItem f b depth;
          let '(val, rest) := r in
          items ← decodeListItems f rest depth;
          Ok (val :: items)
      end
  end.

(** Every nested call works on a strictly shorter input, and one byte of input
    pays for one [decodeItem] and one [decodeListItems] call. *)
Definition decode_fuel (b : bytes) : nat := 2 * length b.

Definition Decode (b : bytes) : outcome error item :=
  match b with
  | [] => Err ErrTruncated
  | _ :: _ =>
      if MaxInputLen <? zlen b then Err ErrInputTooLarge
      else
        r ← decodeItem (decode_fuel b) b 0;
        let '(val, rest) := r in
        if 0 <? zlen rest then Err ErrTrailingBytes else Ok val
  end.

End Rlp.
