(* ===== verification/RlpProofs.v ===== *)
(** * RLP: round trip, canonicity, termination and the panic

    [Decode] inverts the encoders on every item within its limits, accepts only
    canonical encodings, terminates on every input, and panics exactly where a
    length field close to [2^64] makes the truncation guard wrap. *)
From S2P Require Import Prelude Rlp.
Import Rlp.
#[local] Open Scope Z_scope.

(** ** Minimal big-endian integers *)

Lemma strip_zeros_spec i buf : ∃ k,
  buf = replicate k x00 ++ strip_zeros i buf ∧ (k ≤ i)%nat ∧
  (k = i ∨ strip_zeros i buf = [] ∨ ∃ c r, strip_zeros i buf = c :: r ∧ b2z c ≠ 0).
Proof.
  revert buf. induction i as [|i IH]; intros buf; [exists 0%nat; auto|].
  destruct buf as [|c buf]; [exists 0%nat; simpl; eauto with lia|]. cbn [strip_zeros].
  destruct (Z.eqb_spec (b2z c) 0) as [Hc|Hc].
  - destruct (IH buf) as (k & Hk & Hle & Hor). exists (S k). split_and!; [|lia|].
    + assert (c = x00) as -> by (by apply b2z_inj). simpl. by rewrite <- Hk.
    + destruct Hor as [->|Hor]; auto.
  - exists 0%nat. split_and!; [done|lia|]. right; right. eauto.
Qed.

(** The shape of a minimal length field. *)
Definition minimal (bs : bytes) : Prop :=
  ∃ c r, bs = c :: r ∧ b2z c ≠ 0 ∧ (length bs ≤ 8)%nat.

Lemma uintToBytes_spec n : 0 < n < 2 ^ 64 → minimal (uintToBytes n) ∧ be_value (uintToBytes n) = n.
Proof.
  intros Hn. unfold uintToBytes. rewrite (proj2 (Z.eqb_neq _ _)) by lia.
  destruct (strip_zeros_spec 7 (be_bytes 8 n)) as (k & Hk & Hle & Hor).
  pose proof (be_value_bytes 8 n) as Hv. rewrite Z.mod_small in Hv by lia.
  rewrite Hk, be_value_zeros in Hv. split; [|done].
  pose proof (be_bytes_length 8 n) as Hl. rewrite Hk, length_app, length_replicate in Hl.
  destruct Hor as [->|[E|(c & r & E & Hc)]].
  - destruct (strip_zeros 7 _) as [|c [|]]; simpl in Hl; try lia.
    exists c, []. split_and!; [done| |simpl; lia]. unfold be_value in Hv. simpl in Hv. lia.
  - rewrite E in Hv. unfold be_value in Hv. simpl in Hv. lia.
  - exists c, r. split_and!; [done|done|]. lia.
Qed.

Lemma uintToBytes_unique bs : minimal bs → uintToBytes (be_value bs) = bs.
Proof.
  intros (c & r & -> & Hc & Hl).
  assert (be_bytes 8 (be_value (c :: r)) = replicate (8 - length (c :: r)) x00 ++ c :: r) as Hb.
  { rewrite <- (be_bytes_value (replicate (8 - length (c :: r)) x00 ++ c :: r)), be_value_zeros.
    f_equal. rewrite length_app, length_replicate. lia. }
  assert (be_value (c :: r) ≠ 0).
  { intros E. rewrite E in Hb. apply (f_equal be_value) in Hb.
    assert (be_bytes (length (c :: r)) 0 = c :: r) as H0 by (by rewrite <- E, be_bytes_value).
    assert (∀ n, be_bytes n 0 = replicate n x00) as Hz.
    { clear. induction n as [|n IH]; [done|]. cbn [be_bytes]. change (0 `div` 256) with 0.
      rewrite IH. replace (S n) with (n + 1)%nat by lia. by rewrite replicate_add. }
    rewrite Hz in H0. by simplify_eq/=. }
  unfold uintToBytes. rewrite (proj2 (Z.eqb_neq _ _)) by done. rewrite Hb.
  assert (∀ i k, (k ≤ i)%nat → strip_zeros i (replicate k x00 ++ c :: r) = c :: r) as Hs.
  { clear - Hc. intros i. induction i as [|i IH]; intros k Hk.
    - by replace k with 0%nat by lia.
    - destruct k as [|k]; simpl; [by rewrite (proj2 (Z.eqb_neq _ _) Hc)|]. apply IH. lia. }
  apply Hs. simpl in *. lia.
Qed.

Lemma lor_shift8 n c : 0 ≤ c < 256 → Z.lor (Z.shiftl n 8) c = n * 256 + c.
Proof.
  intros Hc. replace (n * 256) with (Z.shiftl n 8) by (rewrite Z.shiftl_mul_pow2; lia).
  rewrite <- Z.lxor_lor, Z.add_nocarry_lxor; [done|..].
  all: apply Z.bits_inj'; intros i Hi; rewrite Z.land_spec, Z.bits_0;
    destruct (decide (i < 8)); [rewrite Z.shiftl_spec_low by lia; done|];
    rewrite <- (Z.mod_small c (2 ^ 8)) by lia;
    rewrite Z.mod_pow2_bits_high by lia; apply andb_false_r.
Qed.

(** The shift-and-or loop over at most eight bytes computes the big-endian value. *)
Lemma fold_shift_be bs : (length bs ≤ 8)%nat →
  foldl (λ n c, Z.lor (u64 (Z.shiftl n 8)) (b2z c)) 0 bs = be_value bs.
Proof.
  induction bs as [|b bs IH] using rev_ind; [done|]. intros Hl.
  rewrite length_app in Hl. simpl in Hl. rewrite foldl_app, be_value_snoc, IH by lia. simpl.
  pose proof (be_value_range bs) as Hr. pose proof (b2z_range b).
  assert (256 ^ zlen bs ≤ 256 ^ 7) by (apply Z.pow_le_mono_r; lia).
  rewrite u64_small by (rewrite Z.shiftl_mul_pow2 by lia; unfold is_u64; lia).
  by apply lor_shift8.
Qed.

Lemma decodeLength_ok bs : (1 ≤ length bs ≤ 8)%nat →
  decodeLength bs = (if (1 <? zlen bs) && (b2z (default x00 (head bs)) =? 0)
                     then Err ErrInvalidEncoding else Ok (be_value bs)).
Proof.
  intros Hl. destruct bs as [|c r]; [simpl in Hl; lia|]. unfold decodeLength. simpl head.
  destruct (_ && _); [done|]. f_equal. apply fold_shift_be. lia.
Qed.

Lemma decodeLength_minimal bs : minimal bs → decodeLength bs = Ok (be_value bs).
Proof.
  intros (c & r & -> & Hc & Hl). rewrite decodeLength_ok by (simpl in *; lia).
  change (head (c :: r)) with (Some c).
  change (default x00 (Some c)) with c. by rewrite (proj2 (Z.eqb_neq _ _) Hc), andb_false_r.
Qed.

(** ** Slices and the two payload forms *)

Lemma slice_ok pre mid post lo hi : lo = zlen pre → hi = zlen pre + zlen mid →
  slice (pre ++ mid ++ post) lo hi = Ok mid.
Proof.
  intros -> ->. unfold slice. rewrite !length_app.
  rewrite !(proj2 (Z.leb_le _ _)) by lia. cbn [andb].
  replace (Z.to_nat (zlen pre + zlen mid - zlen pre)) with (length mid) by lia.
  rewrite Nat2Z.id, drop_app_length, take_app_length. done.
Qed.

Lemma slice_tail pre post lo hi : lo = zlen pre → hi = zlen pre + zlen post →
  slice (pre ++ post) lo hi = Ok post.
Proof. intros. rewrite <- (app_nil_r post) at 1. by apply slice_ok. Qed.

Lemma short_form_ok p payload rest :
  short_form (p :: payload ++ rest) (zlen payload) = Ok (payload, rest).
Proof.
  unfold short_form. cbn [length]. rewrite length_app.
  rewrite (proj2 (Z.ltb_ge _ _)) by lia.
  rewrite (slice_ok [p] payload rest 1) by (cbn [length]; lia). cbn [mbind outcome_bind].
  change (p :: payload ++ rest) with ((p :: payload) ++ rest).
  by rewrite slice_tail by (cbn [length]; lia).
Qed.

Lemma long_form_ok p lb payload rest :
  lb = uintToBytes (zlen payload) → 55 < zlen payload → zlen (p :: lb ++ payload ++ rest) < 2 ^ 63 →
  long_form (p :: lb ++ payload ++ rest) (zlen lb) = Ok (payload, rest).
Proof.
  intros Hlb Hlen Hmax. cbn [length] in Hmax. rewrite !length_app in Hmax.
  destruct (uintToBytes_spec (zlen payload) ltac:(lia)) as [Hmin Hval]. rewrite <- Hlb in *.
  unfold long_form. cbn [length]. rewrite !length_app. rewrite (proj2 (Z.ltb_ge _ _)) by lia.
  rewrite (slice_ok [p] lb (payload ++ rest) 1) by (cbn [length]; lia). cbn [mbind outcome_bind].
  rewrite (decodeLength_minimal lb Hmin), Hval. cbn [mbind outcome_bind].
  rewrite (proj2 (Z.leb_gt _ _)) by lia.
  rewrite u64_small by (unfold is_u64; lia). rewrite (proj2 (Z.ltb_ge _ _)) by lia.
  rewrite !i64_small by (unfold is_int; rewrite ?i64_small; unfold is_int; lia).
  change (p :: lb ++ payload ++ rest) with ((p :: lb) ++ payload ++ rest).
  rewrite (slice_ok (p :: lb) payload rest (1 + zlen lb)) by (cbn [length]; lia). cbn [mbind outcome_bind].
  rewrite app_assoc. rewrite slice_tail; [done|rewrite ?length_app; cbn [length]; lia..].
Qed.

Lemma slice_inv b lo hi s : slice b lo hi = Ok s →
  0 ≤ lo ≤ hi ∧ hi ≤ zlen b ∧ s = take (Z.to_nat (hi - lo)) (drop (Z.to_nat lo) b).
Proof.
  unfold slice. destruct (Z.leb_spec 0 lo); [|done]. destruct (Z.leb_spec lo hi); [|done].
  destruct (Z.leb_spec hi (zlen b)); [|done]. intros. simplify_eq/=. done.
Qed.

(** A slice and the rest after it. *)
Lemma slice_split b lo hi s rest : slice b lo hi = Ok s → slice b hi (zlen b) = Ok rest →
  b = take (Z.to_nat lo) b ++ s ++ rest ∧ zlen s = hi - lo ∧ 0 ≤ lo ≤ hi.
Proof.
  intros (H1 & H2 & ->)%slice_inv (H3 & H4 & ->)%slice_inv. split_and!; try lia.
  - rewrite (take_ge (drop (Z.to_nat hi) b)) by (rewrite length_drop; lia).
    replace (drop (Z.to_nat hi) b) with (drop (Z.to_nat (hi - lo)) (drop (Z.to_nat lo) b)).
    + by rewrite !take_drop.
    + rewrite drop_drop. f_equal. lia.
  - rewrite length_take, length_drop. lia.
Qed.

Lemma short_form_inv b len payload rest : 0 ≤ len →
  short_form b len = Ok (payload, rest) → ∃ p, b = p :: payload ++ rest ∧ zlen payload = len.
Proof.
  intros Hlen. unfold short_form, mbind, outcome_bind.
  destruct (Z.ltb_spec (zlen b) (1 + len)); [done|].
  destruct (slice b 1 (1 + len)) as [s| | |] eqn:E1; try done.
  destruct (slice b (1 + len) (zlen b)) as [r| | |] eqn:E2; try done. intros. simplify_eq.
  destruct (slice_split _ _ _ _ _ E1 E2) as (Hb & Hs & _).
  destruct b as [|p b']; [simpl in *; lia|]. exists p. split; [|lia].
  rewrite Hb at 1. done.
Qed.

Lemma decodeLength_inv bs n : (1 ≤ length bs ≤ 8)%nat → decodeLength bs = Ok n → 55 < n →
  minimal bs ∧ be_value bs = n.
Proof.
  intros Hl. rewrite decodeLength_ok by done. intros Hd Hn.
  destruct bs as [|c r]; [simpl in Hl; lia|]. change (head (c :: r)) with (Some c) in Hd.
  change (default x00 (Some c)) with c in Hd.
  destruct ((1 <? zlen (c :: r)) && (b2z c =? 0)) eqn:E; simplify_eq.
  split; [|done]. exists c, r. split_and!; [done| |lia]. intros Hc.
  rewrite Hc, Z.eqb_refl, andb_true_r in E. apply Z.ltb_ge in E.
  destruct r; [|simpl in E; lia]. unfold be_value in Hn. simpl in Hn. lia.
Qed.

Lemma long_form_inv b lol payload rest : 1 ≤ lol ≤ 8 → zlen b < 2 ^ 63 →
  long_form b lol = Ok (payload, rest) →
  ∃ p lb, b = p :: lb ++ payload ++ rest ∧ zlen lb = lol ∧ 55 < zlen payload ∧
          lb = uintToBytes (zlen payload).
Proof.
  intros Hlol Hb. unfold long_form, mbind, outcome_bind.
  destruct (Z.ltb_spec (zlen b) (1 + lol)); [done|].
  destruct (slice b 1 (1 + lol)) as [lb| | |] eqn:E1; try done.
  pose proof (slice_inv _ _ _ _ E1) as (_ & _ & Hlb).
  assert (length lb = Z.to_nat lol) as Hll by (rewrite Hlb, length_take, length_drop; lia).
  destruct (decodeLength lb) as [n| | |] eqn:E2; try done.
  destruct (Z.leb_spec n 55); [done|].
  destruct (Z.ltb_spec (zlen b) (u64 (1 + lol + n))) as [|Hn]; [done|].
  destruct (decodeLength_inv lb n ltac:(lia) E2 ltac:(lia)) as [Hmin Hval].
  pose proof (be_value_range lb) as Hr. rewrite Hval, Hll in Hr.
  assert (256 ^ Z.of_nat (Z.to_nat lol) ≤ 2 ^ 64)
    by (change (2 ^ 64) with (256 ^ 8); apply Z.pow_le_mono_r; lia).
  set (e := i64 (1 + lol + i64 n)).
  destruct (slice b (1 + lol) e) as [s| | |] eqn:E3; try done.
  destruct (slice b e (zlen b)) as [r| | |] eqn:E4; try done. intros [= -> ->].
  pose proof (slice_inv _ _ _ _ E3) as (He & _ & _).
  destruct (slice_split _ _ _ _ _ E3 E4) as (Hsplit & Hs & _).
  assert (e = 1 + lol + be_value lb) as Hee.
  { revert He Hn. subst e. unfold u64, i64. intros. div_lia. }
  destruct b as [|p b']; [simpl in *; lia|]. exists p, lb.
  split_and!; [|lia|lia|].
  - rewrite Hsplit at 1. rewrite Hlb.
    replace (Z.to_nat (1 + lol)) with (S (Z.to_nat lol)) by lia.
    replace (1 + lol - 1) with lol by lia. done.
  - rewrite Hs, Hee. replace (1 + lol + be_value lb - (1 + lol)) with (be_value lb) by lia.
    symmetry. by apply uintToBytes_unique.
Qed.

(** ** Items *)

Section ItemInd.
Variable P : item → Prop.
Hypothesis HStr : ∀ b, P (Str b).
Hypothesis HLst : ∀ l, Forall P l → P (Lst l).

Fixpoint item_ind' (it : item) : P it :=
  match it with
  | Str b => HStr b
  | Lst l => HLst l (list_ind (Forall P) (Forall_nil_2 P)
                       (λ x l' IH, Forall_cons_2 P x l' (item_ind' x) IH) l)
  end.
End ItemInd.

(** List nesting: what [MaxNestingDepth] bounds. *)
Fixpoint depth (it : item) : Z :=
  match it with
  | Str _ => 0
  | Lst l => 1 + foldr Z.max 0 (depth <$> l)
  end.

Lemma depth_Lst_le l x : x ∈ l → depth x + 1 ≤ depth (Lst l).
Proof.
  intros Hx. cbn [depth]. enough (depth x ≤ foldr Z.max 0 (depth <$> l)) by lia.
  induction Hx as [x l|x y l Hx IH]; rewrite fmap_cons; simpl foldr; lia.
Qed.

Lemma depth_Lst_pos l : 1 ≤ depth (Lst l).
Proof.
  cbn [depth]. enough (0 ≤ foldr Z.max 0 (depth <$> l)) by lia.
  induction l as [|x l IH]; [done|]. rewrite fmap_cons. simpl foldr. lia.
Qed.

Lemma EncodeBytes_cases b :
  (∃ c, b = [c] ∧ b2z c < 0x80 ∧ EncodeBytes b = [c]) ∨
  (zlen b ≤ 55 ∧ (∀ c, b = [c] → 0x80 ≤ b2z c) ∧ EncodeBytes b = z2b (0x80 + zlen b) :: b) ∨
  (55 < zlen b ∧ EncodeBytes b = z2b (0xb7 + zlen (uintToBytes (u64 (zlen b)))) ::
                                  uintToBytes (u64 (zlen b)) ++ b).
Proof.
  destruct b as [|c [|d r]]; [by right; left| |].
  - simpl. destruct (Z.ltb_spec (b2z c) 0x80); [left; eauto|].
    right; left. split_and!; [lia|by intros ? [= ->]|done].
  - unfold EncodeBytes. destruct (Z.leb_spec (zlen (c :: d :: r)) 55).
    + right; left. done.
    + right; right. done.
Qed.

Lemma encode_Lst l : encode (Lst l) = EncodeList (encode <$> l).
Proof. reflexivity. Qed.

Lemma encode_nonempty it : ∃ p r, encode it = p :: r.
Proof.
  destruct it as [b|l]; simpl.
  - destruct (EncodeBytes_cases b) as [(c & _ & _ & ->)|[(_ & _ & ->)|(_ & ->)]]; eauto.
  - unfold EncodeList. destruct (_ <=? _); eauto.
Qed.

Lemma zlen_nonneg {A} (l : list A) : 0 ≤ zlen l.
Proof. lia. Qed.

(** The prefix byte [byte(base + n)] reads back as [base + n]. *)
Lemma b2z_prefix n : 0 ≤ n < 256 → b2z (z2b n) = n.
Proof. apply b2z_z2b_small. Qed.

Lemma lenBytes_length n : 0 < n < 2 ^ 64 → 1 ≤ zlen (uintToBytes n) ≤ 8.
Proof. intros Hn. destruct (uintToBytes_spec n Hn) as [(c & r & -> & _ & Hl) _]. simpl in *. lia. Qed.

(** ** Round trip *)

Lemma decodeItem_list f p b depth payload rest :
  0xc0 ≤ b2z p → depth < MaxNestingDepth →
  (if b2z p <=? 0xf7 then short_form (p :: b) (b2z p - 0xc0)
   else long_form (p :: b) (b2z p - 0xf7)) = Ok (payload, rest) →
  decodeItem (S f) (p :: b) depth =
    (items ← decodeListItems f payload (depth + 1); Ok (Lst items, rest)).
Proof.
  intros Hp Hd Hform. cbn [decodeItem].
  rewrite (proj2 (Z.leb_gt MaxNestingDepth depth)), andb_false_r by lia.
  rewrite !(proj2 (Z.leb_gt _ _)) by lia. by rewrite Hform.
Qed.

Lemma decodeItem_Str f b rest d : zlen (EncodeBytes b ++ rest) < 2 ^ 63 →
  decodeItem (S f) (EncodeBytes b ++ rest) d = Ok (Str b, rest).
Proof.
  intros Hmax.
  destruct (EncodeBytes_cases b) as [(c & -> & Hc & ->)|[(Hl & Hone & E)|(Hl & E)]].
  - cbn [app decodeItem]. rewrite (proj2 (Z.leb_gt 0xc0 _)), (proj2 (Z.leb_le _ 0x7f)) by lia. done.
  - rewrite E in *. cbn [app decodeItem]. rewrite b2z_prefix by lia.
    rewrite (proj2 (Z.leb_gt 0xc0 _)), (proj2 (Z.leb_gt _ 0x7f)), (proj2 (Z.leb_le _ 0xb7)) by lia.
    cbn [andb]. replace (0x80 + zlen b - 0x80) with (zlen b) by lia. rewrite short_form_ok. cbn.
    destruct b as [|c [|]]; [done| |done].
    by rewrite (proj2 (Z.ltb_ge _ _)) by (by apply Hone).
  - assert (zlen b < 2 ^ 63).
    { rewrite E in Hmax. cbn [length app] in Hmax. rewrite !length_app in Hmax. lia. }
    rewrite u64_small in E by (unfold is_u64; lia). rewrite E in *.
    pose proof (lenBytes_length (zlen b) ltac:(lia)) as Hlb.
    cbn [app decodeItem]. rewrite b2z_prefix by lia.
    rewrite (proj2 (Z.leb_gt 0xc0 _)), (proj2 (Z.leb_gt _ 0x7f)), (proj2 (Z.leb_gt _ 0xb7)),
      (proj2 (Z.leb_le _ 0xbf)) by lia.
    cbn [andb]. replace (0xb7 + zlen (uintToBytes (zlen b)) - 0xb7) with (zlen (uintToBytes (zlen b))) by lia.
    rewrite <- app_assoc. rewrite long_form_ok; [done|done|lia|].
    cbn [length app] in Hmax |- *. by rewrite <- app_assoc in Hmax.
Qed.

Lemma EncodeList_form items rest : zlen (EncodeList items ++ rest) < 2 ^ 63 →
  ∃ p b, EncodeList items ++ rest = p :: b ∧ 0xc0 ≤ b2z p ∧
    (length (mjoin items) < length (p :: b))%nat ∧
    (if b2z p <=? 0xf7 then short_form (p :: b) (b2z p - 0xc0)
     else long_form (p :: b) (b2z p - 0xf7)) = Ok (mjoin items, rest).
Proof.
  unfold EncodeList. destruct (Z.leb_spec (zlen (mjoin items)) 55) as [Hl|Hl]; intros Hmax.
  - do 2 eexists. split; [done|]. rewrite b2z_prefix by lia. split_and!; [lia| |].
    + cbn [length]. rewrite length_app. lia.
    + rewrite (proj2 (Z.leb_le _ _)) by lia.
      replace (0xc0 + zlen (mjoin items) - 0xc0) with (zlen (mjoin items)) by lia. apply short_form_ok.
  - assert (zlen (mjoin items) < 2 ^ 63)
      by (cbn [app length] in Hmax; rewrite !length_app in Hmax; lia).
    rewrite u64_small in * by (unfold is_u64; lia). cbn [app length] in Hmax.
    rewrite !length_app in Hmax. cbn [app].
    assert (1 ≤ zlen (uintToBytes (zlen (mjoin items))) ≤ 8) as Hlb by (apply lenBytes_length; lia).
    do 2 eexists. split; [done|]. rewrite b2z_prefix by lia. split_and!; [lia| |].
    + cbn [length]. rewrite !length_app. lia.
    + rewrite (proj2 (Z.leb_gt _ _)) by lia.
      replace (0xf7 + zlen (uintToBytes (zlen (mjoin items))) - 0xf7)
        with (zlen (uintToBytes (zlen (mjoin items)))) by lia.
      rewrite <- app_assoc. apply long_form_ok; [done|lia|].
      cbn [length]. rewrite !length_app. lia.
Qed.

Lemma mjoin_encode_cons x l :
  mjoin (encode <$> (x :: l)) = encode x ++ mjoin (encode <$> l).
Proof. reflexivity. Qed.

(** What the round trip says of one item, at every fuel and depth. *)
Definition decodes (it : item) : Prop := ∀ fuel d rest,
  0 ≤ d → depth it + d ≤ MaxNestingDepth → zlen (encode it ++ rest) < 2 ^ 63 →
  (2 * length (encode it ++ rest) ≤ fuel + 1)%nat →
  decodeItem fuel (encode it ++ rest) d = Ok (it, rest).

Lemma decodeListItems_encode l f d :
  Forall decodes l → 0 ≤ d → (∀ x, x ∈ l → depth x + d ≤ MaxNestingDepth) →
  zlen (mjoin (encode <$> l)) < 2 ^ 63 → (2 * length (mjoin (encode <$> l)) ≤ f)%nat →
  decodeListItems f (mjoin (encode <$> l)) d = Ok l.
Proof.
  intros Hall Hd. revert f. induction Hall as [|x l Hx Hl IH]; intros f Hdl Hml Hfl; [by destruct f|].
  rewrite mjoin_encode_cons in *.
  destruct (encode_nonempty x) as (q & r & Eq).
  assert (length (encode x) = S (length r)) as Hq by (by rewrite Eq).
  assert (encode x ++ mjoin (encode <$> l) = q :: r ++ mjoin (encode <$> l)) as E' by (by rewrite Eq).
  pose proof (length_app (encode x) (mjoin (encode <$> l))) as Ha.
  destruct f as [|f]; [lia|]. cbn [decodeListItems]. rewrite E' at 1. cbn beta iota.
  rewrite Hx; [|lia|apply Hdl; by left|lia|lia].
  cbn [mbind outcome_bind]. rewrite IH; [done|intros; apply Hdl; by right|lia|lia].
Qed.

Lemma decodeItem_encode it : decodes it.
Proof.
  induction it as [b|l IH] using item_ind'; intros fuel d rest Hd Hdep Hmax Hf.
  - destruct fuel as [|f]; [|by apply decodeItem_Str].
    destruct (encode_nonempty (Str b)) as (p & r & E). rewrite E in Hf. simpl in Hf. lia.
  - rewrite encode_Lst in *. destruct (EncodeList_form _ _ Hmax) as (p & b & E & Hp & Hlt & Hform).
    rewrite E in *. destruct fuel as [|f]; [simpl in Hf; lia|].
    assert (∀ x, x ∈ l → depth x + (d + 1) ≤ MaxNestingDepth) as Hdl.
    { intros x Hx. pose proof (depth_Lst_le l x Hx). lia. }
    assert (d < MaxNestingDepth) by (pose proof (depth_Lst_pos l); lia).
    rewrite (decodeItem_list f p b d _ _ Hp) by done.
    by rewrite decodeListItems_encode by (done || lia).
Qed.

Lemma Decode_encode_ok it :
  depth it ≤ MaxNestingDepth → zlen (encode it) ≤ MaxInputLen → Decode (encode it) = Ok it.
Proof.
  intros Hd Hl. destruct (encode_nonempty it) as (p & r & E). unfold Decode. rewrite E. rewrite <- E.
  rewrite (proj2 (Z.ltb_ge _ _)) by done.
  pose proof (decodeItem_encode it (decode_fuel (encode it)) 0 []) as H. rewrite app_nil_r in H.
  rewrite H; [done|lia|lia| |unfold decode_fuel; lia]. change MaxInputLen with 10485760 in Hl. lia.
Qed.

(** C10.  Every item within the decoder's limits (64 nested lists, 10 MiB
    encoded) is recovered by [Decode] from its encoding. *)
Theorem Decode_encode it :
  depth it ≤ MaxNestingDepth → zlen (encode it) ≤ MaxInputLen → Decode (encode it) = Ok it.
Proof. apply Decode_encode_ok. Qed.

(** ** Canonicity *)

Lemma EncodeBytes_short b p : b2z p - 0x80 = zlen b → zlen b ≤ 55 → (∀ c, b = [c] → 0x80 ≤ b2z c) →
  p :: b = EncodeBytes b.
Proof.
  intros Hp Hl Hone. assert (p = z2b (0x80 + zlen b)) as Ep.
  { apply b2z_inj. rewrite b2z_prefix; lia. }
  destruct (EncodeBytes_cases b) as [(c & -> & Hc & _)|[(_ & _ & ->)|(? & _)]].
  - pose proof (Hone c eq_refl). lia.
  - by rewrite Ep.
  - lia.
Qed.

Lemma EncodeBytes_long b p lb : b2z p - 0xb7 = zlen lb → 55 < zlen b < 2 ^ 63 →
  lb = uintToBytes (zlen b) → p :: lb ++ b = EncodeBytes b.
Proof.
  intros Hp Hl Hlb. pose proof (b2z_range p).
  destruct (EncodeBytes_cases b) as [(c & -> & _)|[(? & _)|(_ & E)]]; [simpl in Hl; lia|lia|].
  rewrite E. rewrite u64_small, <- Hlb by (unfold is_u64; lia). f_equal.
  apply b2z_inj. rewrite b2z_prefix; lia.
Qed.

Lemma EncodeList_short items p : b2z p - 0xc0 = zlen (mjoin items) → b2z p ≤ 0xf7 →
  p :: mjoin items = EncodeList items.
Proof.
  intros Hp Hle. unfold EncodeList. rewrite (proj2 (Z.leb_le _ _)) by lia. f_equal.
  apply b2z_inj. rewrite b2z_prefix; lia.
Qed.

Lemma EncodeList_long items p lb : b2z p - 0xf7 = zlen lb → 55 < zlen (mjoin items) < 2 ^ 63 →
  lb = uintToBytes (zlen (mjoin items)) → p :: lb ++ mjoin items = EncodeList items.
Proof.
  intros Hp Hl Hlb. pose proof (b2z_range p). unfold EncodeList.
  rewrite (proj2 (Z.leb_gt _ _)) by lia.
  rewrite u64_small, <- Hlb by (unfold is_u64; lia). f_equal.
  apply b2z_inj. rewrite b2z_prefix; lia.
Qed.

Lemma decode_canonical fuel :
  (∀ b d it rest, zlen b < 2 ^ 63 → decodeItem fuel b d = Ok (it, rest) → b = encode it ++ rest) ∧
  (∀ b d l, zlen b < 2 ^ 63 → decodeListItems fuel b d = Ok l → b = mjoin (encode <$> l)).
Proof.
  induction fuel as [|f [IHi IHl]]; (split; [intros b d it rest Hb H|intros b d l Hb H]);
    [done|by destruct b; simplify_eq/=| |].
  - destruct b as [|p b]; [done|]. cbn [decodeItem] in H.
    destruct (_ && _); [done|]. destruct (Z.leb_spec (b2z p) 0x7f) as [H7|H7].
    { simplify_eq/=. by rewrite (proj2 (Z.ltb_lt _ _)) by lia. }
    unfold mbind, outcome_bind in H.
    destruct (Z.leb_spec (b2z p) 0xb7) as [Hb7|Hb7].
    { destruct (short_form _ _) as [[str r]| | |] eqn:E; try done.
      apply short_form_inv in E as (p' & [= <- ->] & Hl); [|lia].
      assert (it = Str str ∧ r = rest ∧ ∀ c, str = [c] → 0x80 ≤ b2z c) as (-> & -> & Hone).
      { destruct str as [|c [|]]; try (by simplify_eq).
        destruct (Z.ltb_spec (b2z c) 0x80); [done|]. simplify_eq. split_and!; [done..|].
        by intros ? [= <-]. }
      cbn [encode]. rewrite <- (EncodeBytes_short str p) by (done || lia). done. }
    destruct (Z.leb_spec (b2z p) 0xbf) as [Hbf|Hbf].
    { destruct (long_form _ _) as [[str r]| | |] eqn:E; simplify_eq.
      apply long_form_inv in E as (p' & lb & [= <- ->] & Hlb & Hl & Elb); [|lia|done].
      cbn [length] in Hb. rewrite !length_app in Hb.
      cbn [encode]. rewrite <- (EncodeBytes_long str p lb) by (done || lia).
      cbn [app]. by rewrite <- app_assoc. }
    pose proof (b2z_range p).
    destruct (Z.leb_spec (b2z p) 0xf7) as [Hf7|Hf7].
    + destruct (short_form _ _) as [[pl r]| | |] eqn:E; try done.
      destruct (decodeListItems _ _ _) as [items| | |] eqn:Ei; try done. injection H as <- <-.
      apply short_form_inv in E as (p' & [= <- ->] & Hl); [|lia].
      cbn [length] in Hb. rewrite length_app in Hb. apply IHl in Ei as ->; [|lia].
      rewrite encode_Lst, <- (EncodeList_short _ p) by lia. done.
    + destruct (long_form _ _) as [[pl r]| | |] eqn:E; try done.
      destruct (decodeListItems _ _ _) as [items| | |] eqn:Ei; try done. injection H as <- <-.
      apply long_form_inv in E as (p' & lb & [= <- ->] & Hlb & Hl & Elb); [|lia|done].
      cbn [length] in Hb. rewrite !length_app in Hb. apply IHl in Ei as ->; [|lia].
      rewrite encode_Lst, <- (EncodeList_long _ p lb) by (done || lia).
      cbn [app]. by rewrite <- app_assoc.
  - destruct b as [|p b]; [by simplify_eq/=|]. cbn [decodeListItems] in H. unfold mbind, outcome_bind in H.
    destruct (decodeItem _ _ _) as [[it r]| | |] eqn:E; try done.
    destruct (decodeListItems _ _ _) as [items| | |] eqn:Ei; try done. injection H as <-.
    apply IHi in E; [|done]. rewrite E in *. rewrite length_app in Hb.
    apply IHl in Ei; [|lia]. by rewrite mjoin_encode_cons, <- Ei.
Qed.

Lemma Decode_canonical_ok b it : Decode b = Ok it → encode it = b.
Proof.
  unfold Decode. destruct b as [|p b0]; [done|]. generalize (p :: b0). clear p b0. intros b.
  destruct (Z.ltb_spec MaxInputLen (zlen b)) as [|Hl]; [done|]. unfold mbind, outcome_bind.
  destruct (decodeItem _ _ _) as [[v r]| | |] eqn:E; try done.
  destruct (Z.ltb_spec 0 (zlen r)) as [|Hr]; [done|]. intros [= ->].
  change MaxInputLen with 10485760 in Hl.
  apply (proj1 (decode_canonical _)) in E; [|lia].
  destruct r; [|simpl in Hr; lia]. by rewrite app_nil_r in E.
Qed.

(** C9.  [Decode] accepts canonical encodings only: whatever it returns
    re-encodes to exactly the input bytes, so no two inputs decode to the same
    value and no trailing or non-minimal length byte is tolerated. *)
Theorem Decode_canonical b it : Decode b = Ok it → encode it = b.
Proof. apply Decode_canonical_ok. Qed.

(** ** Termination and the panic *)

(** A long-form header whose eight length bytes spell a number within nine of
    [2^64]: [1 + uint64(lenOfLen) + length] wraps to at most 8. *)
Definition wrapping_header (b : bytes) : Prop := ∃ p lb tail,
  b = p :: lb ++ tail ∧ (p = xbf ∨ p = xff) ∧ length lb = 8%nat ∧ 2 ^ 64 - 9 ≤ be_value lb.

Lemma slice_in_range b lo hi : 0 ≤ lo ≤ hi → hi ≤ zlen b →
  slice b lo hi = Ok (take (Z.to_nat (hi - lo)) (drop (Z.to_nat lo) b)).
Proof. intros. unfold slice. by rewrite !(proj2 (Z.leb_le _ _)) by lia. Qed.

Lemma short_form_total b len : 0 ≤ len →
  (∃ e, short_form b len = Err e) ∨ (∃ pl r, short_form b len = Ok (pl, r)).
Proof.
  intros Hl. unfold short_form. destruct (Z.ltb_spec (zlen b) (1 + len)); [eauto|].
  rewrite !slice_in_range by lia. cbn. eauto.
Qed.

Lemma long_form_total p b lol : 1 ≤ lol ≤ 8 → zlen (p :: b) < 2 ^ 63 →
  (∃ e, long_form (p :: b) lol = Err e) ∨ (∃ pl r, long_form (p :: b) lol = Ok (pl, r)) ∨
  (long_form (p :: b) lol = Panic ∧ lol = 8 ∧
   ∃ lb tail, b = lb ++ tail ∧ length lb = 8%nat ∧ 2 ^ 64 - 9 ≤ be_value lb).
Proof.
  intros Hlol Hb. unfold long_form. destruct (Z.ltb_spec (zlen (p :: b)) (1 + lol)) as [|Hlen]; [eauto|].
  rewrite (slice_in_range _ 1 (1 + lol)) by lia. cbn [mbind outcome_bind].
  replace (Z.to_nat (1 + lol - 1)) with (Z.to_nat lol) by lia. change (Z.to_nat 1) with 1%nat.
  cbn [drop]. rewrite drop_0. cbn [length] in Hlen, Hb.
  assert (length (take (Z.to_nat lol) b) = Z.to_nat lol) as Hl by (rewrite length_take; lia).
  pose proof (take_drop (Z.to_nat lol) b) as Htd.
  revert Hl Htd. generalize (take (Z.to_nat lol) b) as lb. intros lb Hl Htd.
  rewrite decodeLength_ok by lia. destruct (_ && _); [left; eauto|]. cbn [mbind outcome_bind].
  destruct (Z.leb_spec (be_value lb) 55); [left; eauto|].
  pose proof (be_value_range lb) as Hr. rewrite Hl in Hr.
  assert (lol < 8 → be_value lb < 256 ^ 7) as H7.
  { intros. assert (256 ^ Z.of_nat (Z.to_nat lol) ≤ 256 ^ 7) by (apply Z.pow_le_mono_r; lia). lia. }
  assert (be_value lb < 2 ^ 64) as H64.
  { assert (256 ^ Z.of_nat (Z.to_nat lol) ≤ 256 ^ 8) by (apply Z.pow_le_mono_r; lia). lia. }
  destruct (Z.ltb_spec (zlen (p :: b)) (u64 (1 + lol + be_value lb))) as [|Hg]; [left; eauto|].
  cbn [length] in Hg.
  destruct (decide (1 + lol + be_value lb < 2 ^ 64)) as [Hs|Hs].
  - rewrite u64_small in Hg by (unfold is_u64; lia).
    rewrite !i64_small by (unfold is_int; rewrite ?i64_small; unfold is_int; lia).
    rewrite !slice_in_range by (cbn [length]; lia). cbn. eauto.
  - right; right. assert (lol = 8) as -> by lia. split_and!; [|done|].
    + assert (i64 (1 + 8 + i64 (be_value lb)) < 1 + 8) as He by (unfold i64; div_lia).
      assert (∀ b e, e < 1 + 8 → slice b (1 + 8) e = Panic) as Hp.
      { intros b' e He'. unfold slice. by rewrite (proj2 (Z.leb_gt (1 + 8) e)), andb_false_r by lia. }
      by rewrite Hp.
    + exists lb. eexists. split; [by symmetry|]. split; [done|]. lia.
Qed.

Lemma minimal_large lb : length lb = 8%nat → 2 ^ 64 - 9 ≤ be_value lb → minimal lb.
Proof.
  intros H8 Hv. destruct lb as [|c r]; [done|]. exists c, r. split_and!; [done| |lia].
  intros Hc. assert (c = x00) as -> by (by apply b2z_inj).
  pose proof (be_value_zeros 1 r) as Hz. cbn [replicate app] in Hz. rewrite Hz in Hv.
  pose proof (be_value_range r) as Hr. simpl in H8. replace (zlen r) with 7 in Hr by lia. lia.
Qed.

Lemma long_form_wraps p lb tail : length lb = 8%nat → 2 ^ 64 - 9 ≤ be_value lb →
  long_form (p :: lb ++ tail) 8 = Panic.
Proof.
  intros H8 Hv. unfold long_form. cbn [length]. rewrite length_app, H8.
  rewrite (proj2 (Z.ltb_ge _ _)) by lia.
  rewrite (slice_ok [p] lb tail 1) by (cbn [length]; lia). cbn [mbind outcome_bind].
  rewrite decodeLength_minimal by (by apply minimal_large). cbn [mbind outcome_bind].
  pose proof (be_value_range lb) as Hr. rewrite H8 in Hr. change (256 ^ Z.of_nat 8) with (2 ^ 64) in Hr.
  rewrite (proj2 (Z.leb_gt _ _)) by lia.
  rewrite (proj2 (Z.ltb_ge _ _)) by (unfold u64; div_lia).
  unfold slice. by rewrite (proj2 (Z.leb_gt (1 + 8) _)), andb_false_r by (unfold i64; div_lia).
Qed.

(** A call never runs out of fuel, and panics only at a wrapping header. *)
Definition settled {A} (m : outcome error A) (b : bytes) : Prop :=
  m ≠ OutOfFuel ∧ (m = Panic → ∃ pre suf, b = pre ++ suf ∧ wrapping_header suf).

Lemma settled_Ok {A} (a : A) b : settled (Ok a) b.
Proof. done. Qed.
Lemma settled_Err {A} e b : settled (A := A) (Err e) b.
Proof. done. Qed.

Lemma settled_bind {A B} (m : outcome error A) (k : A → outcome error B) b :
  settled m b → (∀ a, m = Ok a → settled (k a) b) → settled (m ≫= k) b.
Proof. intros [H1 H2] Hk. destruct m; simpl; [by apply Hk|done|split; [done|tauto]|done]. Qed.

Lemma settled_sub {A} (m : outcome error A) pre b post : settled m b → settled m (pre ++ b ++ post).
Proof.
  intros [H1 H2]. split; [done|]. intros (pr & suf & -> & p & lb & tail & -> & H)%H2.
  exists (pre ++ pr), ((p :: lb ++ tail) ++ post). split; [by rewrite <- !app_assoc|].
  exists p, lb, (tail ++ post). split; [|done]. cbn [app]. by rewrite <- app_assoc.
Qed.

Lemma settled_short b len : 0 ≤ len → settled (short_form b len) b.
Proof. intros H. destruct (short_form_total b len H) as [(e & ->)|(pl & r & ->)]; done. Qed.

Lemma settled_long_form p b base : (base = 0xb7 ∧ b2z p ≤ 0xbf ∨ base = 0xf7) → base < b2z p →
  zlen (p :: b) < 2 ^ 63 → settled (long_form (p :: b) (b2z p - base)) (p :: b).
Proof.
  intros Hbase Hlt Hb. pose proof (b2z_range p).
  destruct (long_form_total p b (b2z p - base)) as [(e & ->)|[(pl & r & ->)|(-> & H8 & lb & tail & -> & Hl)]];
    [lia|done|done|done|]. split; [done|]. intros _. exists [], (p :: lb ++ tail).
  split; [done|]. exists p, lb, tail. split_and!; [done| |by destruct Hl..].
  destruct Hbase as [[-> _]| ->]; [left|right]; apply b2z_inj;
    [change (b2z xbf) with 191|change (b2z xff) with 255]; lia.
Qed.

(** The shape of a payload a list header announces. *)
Lemma list_form_inv p b payload rest : 0xc0 ≤ b2z p → zlen (p :: b) < 2 ^ 63 →
  (if b2z p <=? 0xf7 then short_form (p :: b) (b2z p - 0xc0)
   else long_form (p :: b) (b2z p - 0xf7)) = Ok (payload, rest) →
  ∃ hdr, p :: b = (p :: hdr) ++ payload ++ rest.
Proof.
  intros Hp Hb. pose proof (b2z_range p). destruct (Z.leb_spec (b2z p) 0xf7); intros E.
  - apply short_form_inv in E as (p' & [= <- ->] & Hl); [|lia]. by exists [].
  - apply long_form_inv in E as (p' & lb & [= <- ->] & Hlb & Hl & Elb); [|lia|done]. by exists lb.
Qed.

Lemma decode_settled fuel :
  (∀ b d, zlen b < 2 ^ 63 → (1 ≤ fuel)%nat → (2 * length b ≤ fuel + 1)%nat →
          settled (decodeItem fuel b d) b) ∧
  (∀ b d, zlen b < 2 ^ 63 → (2 * length b ≤ fuel)%nat → settled (decodeListItems fuel b d) b).
Proof.
  induction fuel as [|f [IHi IHl]]; (split; [intros b d Hb Hf1 Hf|intros b d Hb Hf]);
    [lia|by destruct b; [|simpl in Hf; lia]| |].
  - destruct b as [|p b]; [done|]. cbn [decodeItem].
    destruct (_ && _); [done|]. destruct (Z.leb_spec (b2z p) 0x7f) as [H7|H7]; [done|].
    destruct (Z.leb_spec (b2z p) 0xb7) as [Hb7|Hb7].
    { apply settled_bind; [apply settled_short; lia|]. intros [str r] _.
      destruct str as [|c [|]]; [done| |done]. by destruct (_ <? _). }
    destruct (Z.leb_spec (b2z p) 0xbf) as [Hbf|Hbf].
    { apply settled_bind; [apply settled_long_form; [by left|lia|done]|]. by intros [str r] _. }
    apply settled_bind.
    { destruct (Z.leb_spec (b2z p) 0xf7); [apply settled_short|apply settled_long_form]; by (lia || auto). }
    intros [pl r] E. apply list_form_inv in E as (hdr & E); [|lia|done]. rewrite E in *.
    rewrite !length_app in *. cbn [length] in *.
    apply settled_bind; [|done]. apply settled_sub, IHl; lia.
  - destruct b as [|p b]; [done|]. cbn [decodeListItems].
    apply settled_bind; [apply IHi; cbn [length] in *; lia|]. intros [it r] E.
    apply (proj1 (decode_canonical _)) in E; [|done]. rewrite E in *.
    destruct (encode_nonempty it) as (q & r' & Eq). rewrite length_app, Eq in Hb, Hf. cbn [length] in *.
    apply settled_bind; [|done]. rewrite <- (app_nil_r r) at 2. apply settled_sub, IHl; lia.
Qed.

Lemma Decode_settled b : settled (Decode b) b.
Proof.
  unfold Decode. destruct b as [|p b]; [done|].
  destruct (Z.ltb_spec MaxInputLen (zlen (p :: b))) as [|Hl]; [done|].
  change MaxInputLen with 10485760 in Hl.
  apply settled_bind; [|by intros [v r] _; destruct (_ <? _)].
  apply decode_settled; [lia|unfold decode_fuel; cbn [length]; lia..].
Qed.

(** C40.  [Decode] returns on every input: the recursion on nested lists and the
    loop over a list's items always finish within two calls per input byte. *)
Theorem Decode_terminates b : Decode b ≠ OutOfFuel.
Proof. apply Decode_settled. Qed.

(** Input that opens with a [0xbf] or [0xff] header whose eight length
    bytes spell at least [2^64 - 9] makes [Decode] panic: the unsigned sum in the
    truncation guard wraps below the input length and the slice expression that
    follows has its upper bound under its lower bound. *)
Theorem Decode_panics b : zlen b ≤ MaxInputLen → wrapping_header b → Decode b = Panic.
Proof.
  intros Hl (p & lb & tail & -> & Hp & H8 & Hv). unfold Decode.
  rewrite (proj2 (Z.ltb_ge _ _)) by done. change MaxInputLen with 10485760 in Hl.
  pose proof (long_form_wraps p lb tail H8 Hv) as E.
  unfold decode_fuel. cbn [length]. replace (2 * S (length (lb ++ tail)))%nat with (S (S (2 * length (lb ++ tail)))) by lia.
  cbn [decodeItem]. change (MaxNestingDepth <=? 0) with false. rewrite andb_false_r.
  destruct Hp as [-> | ->]; cbn -[long_form];
    [change (191 - 183) with 8|change (255 - 247) with 8]; by rewrite E.
Qed.

(** C39.  The wrapping header is the only cause of a panic: whenever [Decode]
    panics, such a header occurs in the input. *)
Theorem Decode_panic_only b : Decode b = Panic → ∃ pre suf, b = pre ++ suf ∧ wrapping_header suf.
Proof. apply Decode_settled. Qed.

(** An integer encoded with [EncodeUint64] decodes to its minimal
    big-endian bytes: the value is recovered and there is no leading zero. *)
Theorem EncodeUint64_roundtrip n : is_u64 n →
  ∃ bs, Decode (EncodeUint64 n) = Ok (Str bs) ∧ be_value bs = n ∧ head bs ≠ Some x00.
Proof.
  intros Hn. exists (uintToBytes n).
  assert (EncodeUint64 n = encode (Str (uintToBytes n))) as ->.
  { unfold EncodeUint64, uintToBytes. simpl. by destruct (n =? 0). }
  destruct (decide (n = 0)) as [->|Hnz]; [done|].
  destruct (uintToBytes_spec n) as [(c & r & E & Hc & Hl) Hv]; [unfold is_u64 in Hn; lia|].
  split_and!; [|done|rewrite E; by intros [= ->]].
  rewrite Decode_encode_ok; [done|by vm_compute|]. cbn [encode].
  destruct (EncodeBytes_cases (uintToBytes n)) as [(? & _ & _ & ->)|[(_ & _ & ->)|(? & _)]];
    [done| |lia]. change MaxInputLen with 10485760. cbn [length]. lia.
Qed.

(** ** Concrete inputs *)

Definition ex_item : item := Lst [Str (str_bytes "cat"); Lst []; Str [x05]; Str []].
Definition ex_panic : bytes := xbf :: replicate 8 xff.

Lemma Decode_encode_witness :
  depth ex_item = 2 ∧ zlen (encode ex_item) = 8 ∧ Decode (encode ex_item) = Ok ex_item.
Proof. split_and!; [done|done|]. apply Decode_encode; vm_compute; congruence. Defined.

Lemma Decode_canonical_witness :
  encode (Lst [Str [x01]; Str [x80]]) = [xc3; x01; x81; x80].
Proof. apply Decode_canonical. vm_compute. reflexivity. Defined.

Lemma Decode_panics_witness : Decode ex_panic = Panic.
Proof.
  apply Decode_panics; [vm_compute; congruence|].
  exists xbf, (replicate 8 xff), []. split_and!; [reflexivity|by left|reflexivity|vm_compute; congruence].
Defined.

Lemma Decode_panic_only_witness : ∃ pre suf, xc9 :: ex_panic = pre ++ suf ∧ wrapping_header suf.
Proof. apply Decode_panic_only. vm_compute. reflexivity. Defined.

Lemma EncodeUint64_roundtrip_witness :
  ∃ bs, Decode (EncodeUint64 1024) = Ok (Str bs) ∧ be_value bs = 1024 ∧ head bs ≠ Some x00.
Proof. apply EncodeUint64_roundtrip. unfold is_u64. lia. Defined.
