(* ===== verification/Commitment.v ===== *)
(** * The [commitment] package: Merkle commitments over trust objects

    A translation of src/commitment: [Build] and [VerifyCommitment] (build.go),
    the leaf order (order.go), inclusion proofs (proof.go), consistency proofs
    (consistency.go) and the hex DTOs of serialize.go and proof.go.

    A [TrustObject] is an interface with one method, so its model is the record
    of that method; [None] is the nil interface.  The error type of the method
    is a parameter [E]: each adapted package has its own.  [MarshalJSON] and
    [UnmarshalJSON] go up to the DTO they hand to [encoding/json] here, and to the
    text in Wire.v; a nil slice and an empty one are not told apart. *)
From stdpp Require Import sorting.
From S2P Require Import Prelude Sha256 Merkle.
#[local] Open Scope Z_scope.

Module Commitment.

Inductive error (E : Type) : Type :=
| ErrEmptyObjects
| ErrNilObject
| ErrDuplicateObject
| ErrObjectNotCommitted
| ErrNilCommitment
| ErrAlgorithmMismatch
| ErrEmptyCommitment
| ErrSizeMismatch
| ErrUnsortedLeaves
| ErrDuplicateLeaf
| ErrRootMismatch
| ErrInclusionFailed (cause : option Merkle.error)
| ErrNotPrefix
| ErrInvalidRange
| ErrMerkle (e : Merkle.error)
| ErrObject (e : E)
| ErrHex.
Arguments ErrEmptyObjects {E}.
Arguments ErrNilObject {E}.
Arguments ErrDuplicateObject {E}.
Arguments ErrObjectNotCommitted {E}.
Arguments ErrNilCommitment {E}.
Arguments ErrAlgorithmMismatch {E}.
Arguments ErrEmptyCommitment {E}.
Arguments ErrSizeMismatch {E}.
Arguments ErrUnsortedLeaves {E}.
Arguments ErrDuplicateLeaf {E}.
Arguments ErrRootMismatch {E}.
Arguments ErrInclusionFailed {E} cause.
Arguments ErrNotPrefix {E}.
Arguments ErrInvalidRange {E}.
Arguments ErrMerkle {E} e.
Arguments ErrObject {E} e.
Arguments ErrHex {E}.

Definition AlgorithmRFC6962SHA256 : string := "rfc6962-sha256".

Record Commitment : Type := MkCommitment {
  Root : array32;
  Size : Z;
  LeafHashes : list array32;
  Algorithm : string
}.

Record Proof_ : Type := MkProof { Index : Z; TreeSize : Z; Steps : list Merkle.ProofStep }.

Record ConsistencyProof : Type := MkConsistencyProof {
  OldSize : Z;
  NewSize : Z;
  CSteps : list Merkle.ProofStep
}.

(** The interface [TrustObject]: its method table. *)
Record TrustObject (E : Type) : Type := MkObject { obj_LeafHash : outcome E array32 }.
Arguments MkObject {E} obj_LeafHash.
Arguments obj_LeafHash {E} t.

(** ** order.go *)

(** The [less] of [sort.Slice], as the non-strict order a sort respects. *)
Definition leaf_le (a b : array32) : Prop := bytes_leb (arr a) (arr b) = true.
#[global] Instance leaf_le_dec : RelDecision leaf_le.
Proof. intros a b. unfold leaf_le. apply _. Defined.

(** Equal leaves are identical, so the unstable [sort.Slice] has one possible
    result, and any sorting algorithm computes it. *)
Definition sortLeaves (leaves : list array32) : list array32 := merge_sort leaf_le leaves.

(** [for i := 1; i < len(l); i++ { if f(l[i-1], l[i]) { return ... } }]. *)
Fixpoint adjacent {A} (f : A → A → bool) (l : list A) : bool :=
  match l with
  | a :: ((b :: _) as l') => f a b || adjacent f l'
  | _ => false
  end.

(** ** sort.Search *)

(** The loop of [sort.Search] on [i, j): the smallest index at which [f] holds,
    if [f] is monotone.  [f] may panic by indexing out of range. *)
Fixpoint search_loop {E} (fuel : nat) (f : nat → outcome E bool) (i j : nat) : outcome E nat :=
  if (i <? j)%nat then
    match fuel with
    | O => OutOfFuel
    | S n =>
        let h := ((i + j) / 2)%nat in
        b ← f h;
        if negb b then search_loop n f (h + 1) j else search_loop n f i h
    end
  else Ok i.

Definition sort_Search {E} (n : nat) (f : nat → outcome E bool) : outcome E nat :=
  search_loop n f 0 n.

Section Ops.
Context `{!Hasher} {E : Type}.
Notation err := (error E).

(** ** object.go *)

Definition LeafHash (obj : option (TrustObject E)) : outcome err array32 :=
  match obj with
  | None => Err ErrNilObject
  | Some o => wrap_err ErrObject (obj_LeafHash o)
  end.

Definition rejectDuplicates (leaves : list array32) : outcome err unit :=
  if adjacent (λ a b, bytes_eqb (arr a) (arr b)) leaves then Err ErrDuplicateObject else Ok tt.

(** ** build.go *)

Definition leafBytes (leaves : list array32) : list bytes := arr <$> leaves.

Definition Build (objects : list (option (TrustObject E))) : outcome err Commitment :=
  if (length objects =? 0)%nat then Err ErrEmptyObjects
  else
    leaves0 ← each (λ _, LeafHash) 0 objects;
    let leaves := sortLeaves leaves0 in
    _ ← rejectDuplicates leaves;
    tree ← wrap_err ErrMerkle (Merkle.New (leafBytes leaves));
    root ← wrap_err ErrMerkle (Merkle.Root tree);
    Ok {| Root := copy32 root; Size := zlen objects; LeafHashes := leaves;
          Algorithm := AlgorithmRFC6962SHA256 |}.

Definition VerifyCommitment (c : option Commitment) : outcome err unit :=
  match c with
  | None => Err ErrNilCommitment
  | Some c =>
      if negb (bool_decide (Algorithm c = AlgorithmRFC6962SHA256)) then Err ErrAlgorithmMismatch
      else if (Size c =? 0) || (zlen (LeafHashes c) =? 0) then Err ErrEmptyCommitment
      else if negb (Size c =? zlen (LeafHashes c)) then Err ErrSizeMismatch
      else if adjacent (λ a b, bytes_ltb (arr b) (arr a)) (LeafHashes c) then Err ErrUnsortedLeaves
      else if adjacent (λ a b, bool_decide (a = b)) (LeafHashes c) then Err ErrDuplicateLeaf
      else
        tree ← wrap_err ErrMerkle (Merkle.New (leafBytes (LeafHashes c)));
        root ← wrap_err ErrMerkle (Merkle.Root tree);
        if negb (ct_equal root (arr (Root c))) then Err ErrRootMismatch else Ok tt
  end.

(** ** proof.go *)

Definition InclusionProof (c : option Commitment) (obj : option (TrustObject E)) : outcome err Proof_ :=
  match c, obj with
  | None, _ => Err ErrNilCommitment
  | Some _, None => Err ErrNilObject
  | Some c, Some _ =>
      leaf ← LeafHash obj;
      idx ← sort_Search (length (LeafHashes c))
              (λ i, h ← index (LeafHashes c) i; Ok (negb (bytes_ltb (arr h) (arr leaf))));
      found ← (if (length (LeafHashes c) <=? idx)%nat then Ok false
               else h ← index (LeafHashes c) idx; Ok (ct_equal (arr h) (arr leaf)));
      if negb found then Err ErrObjectNotCommitted
      else
        tree ← wrap_err ErrMerkle (Merkle.New (leafBytes (LeafHashes c)));
        path ← wrap_err ErrMerkle (Merkle.Tree_Proof tree (Z.of_nat idx));
        Ok {| Index := Z.of_nat idx; TreeSize := Size c; Steps := Merkle.Steps path |}
  end.

(** The conversions [uint64(p.Index)] and [uint64(p.TreeSize)] reinterpret a
    negative [int]. *)
Definition VerifyInclusion (root : array32) (p : Proof_) (obj : option (TrustObject E)) : outcome err unit :=
  leaf ← LeafHash obj;
  let elements := Merkle.proof_element <$> Steps p in
  wrap_err (λ e, ErrInclusionFailed (Some e))
    (Merkle.VerifyInclusion root (u64 (Index p)) (u64 (TreeSize p)) leaf elements).

(** ** consistency.go *)

(** [for i := 0; i < old.Size; i++]: the two slices are indexed, in that order. *)
Fixpoint same_prefix (n i : nat) (old next : list array32) : outcome err unit :=
  match n with
  | O => Ok tt
  | S n' =>
      a ← index old i;
      b ← index next i;
      if negb (ct_equal (arr a) (arr b)) then Err ErrNotPrefix else same_prefix n' (S i) old next
  end.

Definition ConsistencyProofBetween (old next : option Commitment) : outcome err ConsistencyProof :=
  match old, next with
  | Some old, Some next =>
      if (Size old <=? 0) || (Size next <=? Size old) then Err ErrInvalidRange
      else if (zlen (LeafHashes old) <? Size old) || (zlen (LeafHashes next) <? Size old) then Err ErrNotPrefix
      else
        _ ← same_prefix (Z.to_nat (Size old)) 0 (LeafHashes old) (LeafHashes next);
        tree ← wrap_err ErrMerkle (Merkle.New (leafBytes (LeafHashes next)));
        path ← wrap_err ErrMerkle (Merkle.ConsistencyProof tree (Size old) (Size next));
        Ok {| OldSize := Size old; NewSize := Size next; CSteps := Merkle.Steps path |}
  | _, _ => Err ErrNilCommitment
  end.

Definition VerifyConsistency (oldRoot newRoot : array32) (p : ConsistencyProof) : outcome err unit :=
  ok ← wrap_err ErrMerkle
         (Merkle.VerifyConsistency (arr oldRoot) (arr newRoot) (OldSize p) (NewSize p)
            (Merkle.Path (CSteps p)));
  if negb ok then Err (ErrInclusionFailed None) else Ok tt.

(** ** serialize.go, and the DTO of proof.go *)

Record commitmentJSON : Type := MkCommitmentJSON {
  json_root : string;
  json_size : Z;
  json_leafHashes : list string;
  json_algorithm : string
}.

Record proofStepJSON : Type := MkProofStepJSON { json_hash : string; json_isRight : bool }.
Record proofJSON : Type := MkProofJSON {
  json_index : Z;
  json_treeSize : Z;
  json_steps : list proofStepJSON
}.

Definition decodeHash (s : string) : outcome err array32 :=
  match hex_decode s with
  | None => Err ErrHex
  | Some b => if negb (length b =? 32)%nat then Err ErrHex else Ok (copy32 b)
  end.

Definition Commitment_to_dto (c : Commitment) : commitmentJSON :=
  {| json_root := hex_encode (arr (Root c)); json_size := Size c;
     json_leafHashes := (λ h, hex_encode (arr h)) <$> LeafHashes c;
     json_algorithm := Algorithm c |}.

Definition Commitment_of_dto (dto : commitmentJSON) : outcome err Commitment :=
  root ← decodeHash (json_root dto);
  leaves ← each (λ _, decodeHash) 0 (json_leafHashes dto);
  Ok {| Root := root; Size := json_size dto; LeafHashes := leaves; Algorithm := json_algorithm dto |}.

Definition Proof_to_dto (p : Proof_) : proofJSON :=
  {| json_index := Index p; json_treeSize := TreeSize p;
     json_steps := (λ s, {| json_hash := hex_encode (arr (Merkle.Hash s));
                            json_isRight := Merkle.IsRight s |}) <$> Steps p |}.

Definition Proof_of_dto (dto : proofJSON) : outcome err Proof_ :=
  steps ← each (λ _ s, h ← decodeHash (json_hash s); Ok (Merkle.Step h (json_isRight s))) 0 (json_steps dto);
  Ok {| Index := json_index dto; TreeSize := json_treeSize dto; Steps := steps |}.

End Ops.
End Commitment.
