(* ===== verification/CommitmentProofs.v ===== *)
(** * Merkle commitments: what they promise

    [valid] is the abstract specification of a commitment.  [Build] establishes
    it and does not depend on the order of its input, [VerifyCommitment] decides
    it, a root binds its leaves, inclusion and consistency proofs between valid
    commitments are complete and sound. *)
From stdpp Require Import sorting.
From S2P Require Import Prelude Sha256 Merkle MerkleTree MerkleInclusion MerkleConsistency Commitment.
Import Commitment.
#[local] Open Scope Z_scope.

Lemma list_differ `{EqDecision A} (l k : list A) : length l = length k → l ≠ k →
  ∃ i, (i < length k)%nat ∧ l !! i ≠ k !! i.
Proof.
  revert k. induction l as [|x l IH]; intros [|y k] Hl Hne; simplify_eq/=.
  destruct (decide (x = y)) as [->|Hxy]; [|exists 0%nat; split; [lia|simpl; congruence]].
  destruct (IH k) as (i & Hi & Hd); [done|congruence|]. exists (S i). split; [lia|done].
Qed.

(** ** The leaf order *)

Definition leaf_lt (a b : array32) : Prop := bytes_ltb (arr a) (arr b) = true.

#[global] Instance leaf_lt_trans : Transitive leaf_lt.
Proof.
  intros a b c H1 H2. unfold leaf_lt in *. apply Is_true_true.
  eapply bytes_ltb_trans; by apply Is_true_true.
Qed.

#[global] Instance leaf_le_trans : Transitive leaf_le.
Proof. intros a b c. unfold leaf_le. apply bytes_leb_trans. Qed.
#[global] Instance leaf_le_total : Total leaf_le.
Proof. intros a b. apply bytes_leb_total. Qed.
#[global] Instance leaf_le_antisymm : AntiSymm (=) leaf_le.
Proof. intros a b H1 H2. by apply arr_inj, bytes_leb_antisym. Qed.

#[global] Instance arr_Inj : Inj (=) (=) arr.
Proof. intros a b. apply arr_inj. Qed.

Lemma leaf_lt_irrefl a : ¬ leaf_lt a a.
Proof. unfold leaf_lt. by rewrite bytes_ltb_irrefl. Qed.

Lemma leaf_lt_le a b : leaf_lt a b ↔ leaf_le a b ∧ a ≠ b.
Proof.
  split.
  - intros H. split; [|intros ->; by apply leaf_lt_irrefl in H].
    unfold leaf_le. rewrite bytes_leb_ltb. destruct (bytes_ltb (arr b) (arr a)) eqn:E; [|done].
    exfalso. apply (leaf_lt_irrefl a). by transitivity b.
  - intros [[E|E]%bytes_leb_cases Hne]; [by apply arr_inj in E|done].
Qed.

Lemma adjacent_cons2 {A} (f : A → A → bool) a b l :
  adjacent f (a :: b :: l) = f a b || adjacent f (b :: l).
Proof. reflexivity. Qed.

Lemma Sorted_adjacent {A} (f : A → A → bool) (R : A → A → Prop) l :
  (∀ a b, f a b = false ↔ R a b) → adjacent f l = false ↔ Sorted R l.
Proof.
  intros HR. induction l as [|a [|b l] IH].
  - split; [constructor|done].
  - split; [repeat constructor|done].
  - rewrite adjacent_cons2, orb_false_iff, IH, HR. split.
    + intros [H1 H2]. constructor; [done|]. by constructor.
    + intros H. inversion H as [|? ? H1 H2]; subst. by inversion H2.
Qed.

(** The two loops of [VerifyCommitment], and the one of [rejectDuplicates] after
    a sort, together say that the leaves are strictly increasing. *)
Lemma strictly_sorted_iff l :
  adjacent (λ a b, bytes_ltb (arr b) (arr a)) l = false ∧
  adjacent (λ a b, bool_decide (a = b)) l = false ↔ StronglySorted leaf_lt l.
Proof.
  rewrite (Sorted_adjacent _ leaf_le), (Sorted_adjacent _ (≠)).
  - split.
    + intros [H1 H2]. apply Sorted_StronglySorted; [exact _|].
      induction H1 as [|a l H1 IH Hd]; [constructor|]. inversion H2 as [|? ? H3 H4]; subst.
      constructor; [auto|]. destruct Hd; constructor. inversion H4; subst. by apply leaf_lt_le.
    + intros H%StronglySorted_Sorted. split;
        (induction H as [|a l H1 IH Hd]; [constructor|]; constructor; [done|]; destruct Hd;
         constructor; by apply leaf_lt_le).
  - intros a b. apply bool_decide_eq_false.
  - intros a b. unfold leaf_le. rewrite bytes_leb_ltb. by destruct (bytes_ltb _ _).
Qed.

Lemma sortLeaves_perm l : sortLeaves l ≡ₚ l.
Proof. apply merge_sort_Permutation. Qed.

Lemma sortLeaves_sorted l : StronglySorted leaf_le (sortLeaves l).
Proof. apply StronglySorted_merge_sort; apply _. Qed.

(** The only property of the sort the package relies on. *)
Lemma sortLeaves_unique l1 l2 : l1 ≡ₚ l2 → sortLeaves l1 = sortLeaves l2.
Proof.
  intros Hp. apply (StronglySorted_unique leaf_le); try apply sortLeaves_sorted.
  by rewrite !sortLeaves_perm.
Qed.

Lemma sorted_NoDup l : StronglySorted leaf_lt l → NoDup l.
Proof.
  induction 1 as [|a l Hl IH Ha]; constructor; [|done].
  intros Hin. rewrite list.Forall_forall in Ha. by apply (leaf_lt_irrefl a), Ha.
Qed.

Lemma adjacent_ext {A} (f g : A → A → bool) l : (∀ a b, f a b = g a b) → adjacent f l = adjacent g l.
Proof.
  intros H. induction l as [|a [|b l] IH]; [done..|].
  by rewrite !adjacent_cons2, IH, H.
Qed.

Lemma rejectDuplicates_sorted {E} l :
  rejectDuplicates (E := E) (sortLeaves l) = Ok tt ∧ StronglySorted leaf_lt (sortLeaves l) ∨
  rejectDuplicates (E := E) (sortLeaves l) = Err ErrDuplicateObject ∧ ¬ NoDup l.
Proof.
  unfold rejectDuplicates.
  assert (∀ a b, bytes_eqb (arr a) (arr b) = bool_decide (a = b)) as Heq.
  { intros a b. apply eq_bool_prop_intro. rewrite !Is_true_true, bytes_eqb_eq, bool_decide_eq_true.
    split; [apply arr_inj|by intros ->]. }
  rewrite (adjacent_ext _ _ _ Heq). destruct (adjacent _ _) eqn:Ed.
  - right. split; [done|]. rewrite <- sortLeaves_perm. intros Hnd.
    enough (adjacent (λ a b : array32, bool_decide (a = b)) (sortLeaves l) = false) by congruence.
    clear Ed Heq. induction (sortLeaves l) as [|a [|b l'] IH]; [done..|]. rewrite adjacent_cons2.
    inversion Hnd as [|? ? H1 H2]; subst. rewrite IH, orb_false_r by done.
    apply bool_decide_eq_false. intros ->. apply H1. by left.
  - left. split; [done|]. apply strictly_sorted_iff. split; [|done].
    rewrite (Sorted_adjacent _ leaf_le); [apply StronglySorted_Sorted, sortLeaves_sorted|].
    intros a b. unfold leaf_le. rewrite bytes_leb_ltb. by destruct (bytes_ltb _ _).
Qed.

Section Commitments.
Context `{!Hasher} {E : Type}.
Notation Obj := (option (TrustObject E)).
#[local] Notation LeafHash := (LeafHash (E := E)).

(** ** The specification *)

Definition merkle_root (leaves : list array32) : array32 :=
  mth (Merkle.leafHash <$> leafBytes leaves).

Definition valid (c : Commitment) : Prop :=
  Algorithm c = AlgorithmRFC6962SHA256 ∧ LeafHashes c ≠ [] ∧ Size c = zlen (LeafHashes c) ∧
  StronglySorted leaf_lt (LeafHashes c) ∧ Root c = merkle_root (LeafHashes c).

Lemma New_leaves l : l ≠ [] → ∃ t, Merkle.New (leafBytes l) = Ok t ∧
  Merkle.tsize t = zlen l ∧ Merkle.Root t = Ok (arr (merkle_root l)).
Proof.
  intros Hne. destruct (New_ok (leafBytes l)) as (ls & HN & Hls); [by destruct l|].
  eexists. split_and!; [exact HN| |by apply Root_levels].
  simpl. unfold leafBytes. by rewrite length_fmap.
Qed.

Lemma Build_run (objects : list Obj) leaves :
  objects ≠ [] → Forall2 (λ o h, LeafHash o = Ok h) objects leaves →
  Build objects =
    (_ ← rejectDuplicates (sortLeaves leaves);
     Ok {| Root := merkle_root (sortLeaves leaves); Size := zlen leaves;
           LeafHashes := sortLeaves leaves; Algorithm := AlgorithmRFC6962SHA256 |}).
Proof.
  intros Hne Hf. pose proof (Forall2_length _ _ _ Hf) as Hlen. unfold Build.
  destruct objects as [|o objects]; [done|]. cbn [length Nat.eqb].
  rewrite (proj2 (each_Forall2 LeafHash 0 _ _) Hf). cbn [mbind outcome_bind].
  destruct (rejectDuplicates _) as [[]| | |]; try done. cbn [mbind outcome_bind].
  destruct (New_leaves (sortLeaves leaves)) as (t & -> & _ & Hr).
  { intros E0. pose proof (sortLeaves_perm leaves) as Hp. rewrite E0 in Hp.
    apply Permutation_nil_l in Hp. by subst. }
  cbn [wrap_err mbind outcome_bind]. rewrite Hr. cbn [wrap_err mbind outcome_bind].
  by rewrite copy32_arr, <- Hlen.
Qed.

Lemma Build_spec (objects : list Obj) leaves :
  objects ≠ [] → Forall2 (λ o h, LeafHash o = Ok h) objects leaves →
  (NoDup leaves → ∃ c, Build objects = Ok c ∧ valid c ∧ LeafHashes c ≡ₚ leaves) ∧
  (¬ NoDup leaves → Build objects = Err ErrDuplicateObject).
Proof.
  intros Hne Hf. rewrite (Build_run _ _ Hne Hf).
  destruct (rejectDuplicates_sorted (E := E) leaves) as [[-> Hs]|[-> Hd]]; cbn [mbind outcome_bind].
  - split; intros Hnd.
    + eexists. split_and!; [done| |apply sortLeaves_perm]. split_and!; try done; simpl.
      * pose proof (Forall2_length _ _ _ Hf). intros E0. pose proof (sortLeaves_perm leaves) as Hp.
        rewrite E0 in Hp. apply Permutation_nil_l in Hp. subst. by destruct objects.
      * by rewrite sortLeaves_perm.
    + destruct Hnd. rewrite <- sortLeaves_perm. by apply sorted_NoDup.
  - split; [done|by intros _].
Qed.

(** [Build] on objects whose canonical hashes are available: if the hashes
    are pairwise distinct it returns a valid commitment to exactly those hashes,
    whatever their order; if two coincide it fails with [ErrDuplicateObject]. *)
Theorem Build_correct (objects : list Obj) leaves :
  objects ≠ [] → Forall2 (λ o h, LeafHash o = Ok h) objects leaves →
  (NoDup leaves → ∃ c, Build objects = Ok c ∧ valid c ∧ LeafHashes c ≡ₚ leaves) ∧
  (¬ NoDup leaves → Build objects = Err ErrDuplicateObject).
Proof. apply Build_spec. Qed.

(** The commitment does not depend on the order in which the objects are
    given: permuting them changes neither the result nor the error. *)
Theorem Build_order_independent (objects objects' : list Obj) :
  objects ≡ₚ objects' → Forall (λ o, ∃ h, LeafHash o = Ok h) objects →
  Build objects = Build objects'.
Proof.
  intros Hp Hok. destruct objects as [|o objects]; [by apply Permutation_nil_l in Hp as ->|].
  assert (∃ leaves, Forall2 (λ o h, LeafHash o = Ok h) (o :: objects) leaves) as [leaves Hf]
    by (by apply Forall_exists_Forall2_l).
  destruct (Permutation_Forall2 Hp Hf) as (leaves' & Hp' & Hf').
  rewrite (Build_run (o :: objects) leaves), (Build_run objects' leaves'); try done.
  - by rewrite (sortLeaves_unique leaves leaves'), (Permutation_length Hp').
  - intros ->. by apply Permutation_nil_r in Hp.
Qed.

Lemma VerifyCommitment_valid c :
  VerifyCommitment (E := E) (Some c) = Ok tt ↔ valid c.
Proof.
  unfold VerifyCommitment, valid.
  destruct (decide (Algorithm c = AlgorithmRFC6962SHA256)) as [Ha|Ha];
    [rewrite bool_decide_true by done|rewrite bool_decide_false by done; naive_solver]. cbn [negb].
  destruct (LeafHashes c) as [|h l] eqn:El; [rewrite orb_true_r; naive_solver|].
  rewrite <- El. destruct (Z.eqb_spec (Size c) (zlen (LeafHashes c))) as [Hs|Hs].
  2: { split; [|tauto]. intros Hv. go_inv Hv. }
  rewrite Hs, El, orb_diag. cbn [length]. rewrite (proj2 (Z.eqb_neq _ 0)) by lia. cbn [negb].
  pose proof (strictly_sorted_iff (LeafHashes c)) as Hsort. rewrite El in Hsort.
  destruct (adjacent _ (h :: l)); [naive_solver|]. destruct (adjacent _ (h :: l)); [naive_solver|].
  destruct (New_leaves (h :: l)) as (t & -> & _ & Hr); [done|].
  cbn [wrap_err mbind outcome_bind]. rewrite Hr. cbn [wrap_err mbind outcome_bind].
  destruct (ct_equal _ _) eqn:Ec; cbn [negb].
  - apply ct_equal_true, arr_inj in Ec. naive_solver.
  - split; [done|]. intros (_ & _ & _ & _ & Hroot). by rewrite Hroot, ct_equal_refl in Ec.
Qed.

(** [VerifyCommitment] accepts exactly the valid commitments: the declared
    algorithm, a non-empty leaf list of the declared size, strictly increasing,
    whose RFC 6962 root is the recorded root. *)
Theorem VerifyCommitment_iff c :
  VerifyCommitment (E := E) (Some c) = Ok tt ↔ valid c.
Proof. apply VerifyCommitment_valid. Qed.

(** ** A root binds its leaves *)

(** The strings hashed to recompute a commitment's root. *)
Definition commit_hashed (c : Commitment) : list bytes :=
  (leaf_pre <$> leafBytes (LeafHashes c)) ++ mth_hashed (Merkle.leafHash <$> leafBytes (LeafHashes c)).

Lemma mth_open S (d : list bytes) k :
  k = split_pt (length d) → (2 ≤ length d)%nat → mth_hashed (Merkle.leafHash <$> d) ⊆ S →
  mth (Merkle.leafHash <$> d) =
    Merkle.nodeHash (mth (Merkle.leafHash <$> take k d)) (mth (Merkle.leafHash <$> drop k d)) ∧
  node_pre (mth (Merkle.leafHash <$> take k d)) (mth (Merkle.leafHash <$> drop k d)) ∈ S ∧
  mth_hashed (Merkle.leafHash <$> take k d) ⊆ S ∧ mth_hashed (Merkle.leafHash <$> drop k d) ⊆ S.
Proof.
  intros Hk Hd Hsub. rewrite mth_split, length_fmap, <- Hk by by rewrite length_fmap.
  rewrite (mth_hashed_split _ k) in Hsub by (by rewrite length_fmap). rewrite !fmap_take, !fmap_drop.
  split_and!; [done|apply Hsub; by left|..];
    intros x Hx; apply Hsub; right; apply elem_of_app; auto.
Qed.

(** A list of leaf data cut in two: both halves stay inside what was hashed. *)
Lemma halves S (d : list bytes) k : (0 < k < length d)%nat → leaf_pre <$> d ⊆ S →
  take k d ≠ [] ∧ drop k d ≠ [] ∧ leaf_pre <$> take k d ⊆ S ∧ leaf_pre <$> drop k d ⊆ S.
Proof.
  intros Hk Hd. rewrite <- (take_drop k d), fmap_app in Hd.
  split_and!; try (intros x Hx; apply Hd, elem_of_app; auto); intros E0;
    apply (f_equal length) in E0; rewrite ?length_take, ?length_drop in E0; simpl in E0; lia.
Qed.

Lemma mth_inj S (d1 d2 : list bytes) n :
  coll_free S → d1 ≠ [] → d2 ≠ [] → (length d1 ≤ n)%nat →
  leaf_pre <$> d1 ⊆ S → leaf_pre <$> d2 ⊆ S →
  mth_hashed (Merkle.leafHash <$> d1) ⊆ S → mth_hashed (Merkle.leafHash <$> d2) ⊆ S →
  mth (Merkle.leafHash <$> d1) = mth (Merkle.leafHash <$> d2) → d1 = d2.
Proof.
  intros HS. revert d1 d2. induction n as [|n IH]; intros d1 d2 Hn1 Hn2 Hl Hp1 Hp2 Hh1 Hh2 Heq.
  { by destruct d1; simpl in Hl; [|lia]. }
  assert (∀ d, d ≠ [] → leaf_pre <$> d ⊆ S →
    (∃ x, d = [x] ∧ leaf_pre x ∈ S ∧ mth (Merkle.leafHash <$> d) = Merkle.leafHash x) ∨
    (2 ≤ length d)%nat) as Hcase.
  { intros [|x [|y d]] Hne Hp; [done| |right; simpl; lia]. left. exists x.
    split_and!; [done|apply Hp; by left|apply mth_singleton]. }
  destruct (Hcase d1) as [(x & -> & Hx & Ex)|H1]; [done..| |];
    destruct (Hcase d2) as [(y & -> & Hy & Ey)|H2]; try done.
  - rewrite Ex, Ey in Heq. apply (HS (leaf_pre x) (leaf_pre y)) in Heq; [|done..]. by injection Heq as ->.
  - destruct (mth_open S d2 _ eq_refl H2 Hh2) as (E2 & Hn & _). rewrite Ex, E2 in Heq.
    by apply (leaf_node_distinct S) in Heq.
  - destruct (mth_open S d1 _ eq_refl H1 Hh1) as (E1 & Hn & _). rewrite Ey, E1 in Heq. symmetry in Heq.
    by apply (leaf_node_distinct S) in Heq.
  - destruct (mth_open S d1 _ eq_refl H1 Hh1) as (E1 & Hm1 & Ht1 & Hd1).
    destruct (mth_open S d2 _ eq_refl H2 Hh2) as (E2 & Hm2 & Ht2 & Hd2).
    rewrite E1, E2 in Heq. apply (nodeHash_inj S) in Heq as [HT HD]; [|done..].
    pose proof (split_pt_lt _ H1). pose proof (split_pt_lt _ H2).
    destruct (halves S d1 (split_pt (length d1))) as (? & ? & ? & ?); [done..|].
    destruct (halves S d2 (split_pt (length d2))) as (? & ? & ? & ?); [done..|].
    rewrite <- (take_drop (split_pt (length d1)) d1), <- (take_drop (split_pt (length d2)) d2).
    f_equal; apply IH; try done; rewrite ?length_take, ?length_drop; lia.
Qed.

(** C22.  Two commitments that [VerifyCommitment] accepts and that have the same
    root are the same commitment, leaf for leaf, unless two of the strings hashed
    to recompute the roots collide. *)
Theorem VerifyCommitment_binding c1 c2 :
  VerifyCommitment (E := E) (Some c1) = Ok tt → VerifyCommitment (E := E) (Some c2) = Ok tt →
  Root c1 = Root c2 → coll_free (commit_hashed c1 ++ commit_hashed c2) → c1 = c2.
Proof.
  rewrite !VerifyCommitment_valid. intros (A1 & N1 & S1 & O1 & R1) (A2 & N2 & S2 & O2 & R2) Hr HS.
  assert (LeafHashes c1 = LeafHashes c2) as Hl.
  { apply (inj (fmap (M := list) arr)).
    apply (mth_inj (commit_hashed c1 ++ commit_hashed c2) _ _ (length (leafBytes (LeafHashes c1)))); try done.
    - by destruct (LeafHashes c1).
    - by destruct (LeafHashes c2).
    - apply list_subseteq_app_l, list_subseteq_app_l. done.
    - apply list_subseteq_app_r, list_subseteq_app_l. done.
    - apply list_subseteq_app_l, list_subseteq_app_r. done.
    - apply list_subseteq_app_r, list_subseteq_app_r. done.
    - unfold merkle_root, leafBytes in R1, R2. congruence. }
  destruct c1, c2; simpl in *. congruence.
Qed.

(** ** Inclusion proofs *)

Lemma search_loop_spec {F} fuel (f : nat → outcome F bool) (g : nat → bool) n i j :
  (j - i ≤ fuel)%nat → (i ≤ j ≤ n)%nat → (∀ k, (k < n)%nat → f k = Ok (g k)) →
  (∀ a b, (a ≤ b < n)%nat → g a = true → g b = true) →
  (∀ k, (k < i)%nat → g k = false) → (∀ k, (j ≤ k < n)%nat → g k = true) →
  ∃ r, search_loop fuel f i j = Ok r ∧ (r ≤ n)%nat ∧
    (∀ k, (k < r)%nat → g k = false) ∧ (∀ k, (r ≤ k < n)%nat → g k = true).
Proof.
  intros Hfuel Hij Hf Hmono. revert i j Hfuel Hij.
  induction fuel as [|fuel IH]; intros i j Hfuel Hij Hlo Hhi; cbn [search_loop];
    destruct (Nat.ltb_spec i j) as [Hlt|Hge]; try lia;
    try (exists i; split_and!; [done|lia|done|intros; apply Hhi; lia]).
  assert (i ≤ (i + j) / 2 < j)%nat as Hh by (split; [apply Nat.div_le_lower_bound|apply Nat.div_lt_upper_bound]; lia).
  rewrite Hf by lia. cbn [mbind outcome_bind]. destruct (g ((i + j) / 2)%nat) eqn:Eg; cbn [negb]; apply IH; try lia; try done.
  - intros k Hk. apply (Hmono ((i + j) / 2)%nat); [lia|done].
  - intros k Hk. destruct (g k) eqn:Ek; [|done].
    rewrite (Hmono k ((i + j) / 2)%nat) in Eg; [done|lia|done].
Qed.

Lemma sorted_lookup_lt l i j a b : StronglySorted leaf_lt l →
  l !! i = Some a → l !! j = Some b → (i < j)%nat → leaf_lt a b.
Proof.
  intros Hs. revert i j. induction Hs as [|x l Hl IH Hx]; intros i j Ha Hb Hij; [done|].
  destruct j as [|j]; [lia|]. destruct i as [|i]; simpl in *.
  - simplify_eq. rewrite list.Forall_forall in Hx. eauto using list_elem_of_lookup_2.
  - apply (IH i j); [done|done|lia].
Qed.

(** The binary search on a strictly increasing leaf list finds a leaf exactly
    when it is there, and then at its own position. *)
Lemma search_leaf l leaf : StronglySorted leaf_lt l →
  ∃ r, sort_Search (E := error E) (length l)
         (λ i, h ← index l i; Ok (negb (bytes_ltb (arr h) (arr leaf)))) = Ok r ∧
       (∀ i, l !! i = Some leaf → r = i) ∧ (leaf ∉ l → l !! r ≠ Some leaf).
Proof.
  intros Hs. set (g := λ i, match l !! i with Some h => negb (bytes_ltb (arr h) (arr leaf)) | None => false end).
  destruct (search_loop_spec (length l)
    (λ i, h ← index (E := error E) l i; Ok (negb (bytes_ltb (arr h) (arr leaf)))) g (length l) 0 (length l))
    as (r & Hr & Hle & Hlo & Hhi); try lia.
  - intros k Hk. unfold index, g. by destruct (lookup_lt_is_Some_2 l k Hk) as [h ->].
  - intros a b Hab. unfold g. destruct (lookup_lt_is_Some_2 l b) as [hb Hb]; [lia|].
    destruct (lookup_lt_is_Some_2 l a) as [ha Ha]; [lia|]. rewrite Ha, Hb.
    destruct (decide (a = b)) as [->|Hne]; [by simplify_eq|].
    assert (leaf_lt ha hb) as Hlt by (eapply sorted_lookup_lt; [done..|lia]).
    destruct (bytes_ltb (arr hb) (arr leaf)) eqn:Eb; [|done].
    assert (leaf_lt ha leaf) as Hx by (transitivity hb; done). unfold leaf_lt in Hx. by rewrite Hx.
  - exists r. split_and!; [exact Hr| |].
    + intros i Hi. destruct (decide (r = i)) as [|Hne]; [done|exfalso].
      destruct (decide (i < r)%nat).
      * specialize (Hlo i ltac:(done)). unfold g in Hlo. by rewrite Hi, bytes_ltb_irrefl in Hlo.
      * pose proof (lookup_lt_Some _ _ _ Hi). destruct (lookup_lt_is_Some_2 l r) as [h Hh]; [lia|].
        specialize (Hhi r ltac:(lia)). unfold g in Hhi. rewrite Hh in Hhi.
        assert (leaf_lt h leaf) as Hx by (eapply sorted_lookup_lt; [done..|lia]).
        unfold leaf_lt in Hx. by rewrite Hx in Hhi.
    + intros Hn Hh. apply Hn. eauto using list_elem_of_lookup_2.
Qed.

Lemma InclusionProof_spec c (o : TrustObject E) leaf :
  valid c → Size c ≤ max_int → LeafHash (Some o) = Ok leaf →
  (∀ i, LeafHashes c !! i = Some leaf →
     ∃ p, InclusionProof (Some c) (Some o) = Ok p ∧ Index p = Z.of_nat i ∧
          VerifyInclusion (Root c) p (Some o) = Ok tt) ∧
  (leaf ∉ LeafHashes c → InclusionProof (Some c) (Some o) = Err ErrObjectNotCommitted).
Proof.
  intros (_ & Hne & Hsz & Hs & Hr) Hmax Hleaf.
  unfold InclusionProof. rewrite Hleaf. cbn [mbind outcome_bind].
  destruct (search_leaf (LeafHashes c) leaf Hs) as (r & -> & Hfound & Hmiss). cbn [mbind outcome_bind]. split.
  - intros i Hi. rewrite (Hfound i Hi). pose proof (lookup_lt_Some _ _ _ Hi).
    rewrite (proj2 (Nat.leb_gt _ _)) by done. unfold index. rewrite Hi. cbn [mbind outcome_bind].
    rewrite ct_equal_refl. cbn [negb].
    destruct (New_leaves _ Hne) as (t & Ht & _ & Hroot). rewrite Ht. cbn [wrap_err mbind outcome_bind].
    destruct (VerifyInclusion_accepts _ _ _ _ Ht Hi) as (path & root & HP & HR & HV); [unfold max_int in Hmax; lia|].
    rewrite HP. cbn [wrap_err mbind outcome_bind]. eexists. split_and!; [done|done|].
    unfold VerifyInclusion. rewrite Hleaf. cbn [mbind outcome_bind Index TreeSize Steps].
    rewrite !u64_small by (unfold is_u64, max_int in *; lia).
    rewrite Hroot in HR. injection HR as HR%arr_inj. rewrite Hr, HR, Hsz, HV. done.
  - intros Hn. destruct (Nat.leb_spec (length (LeafHashes c)) r) as [Hge|Hlt]; cbn [mbind outcome_bind]; [done|].
    unfold index. destruct (lookup_lt_is_Some_2 _ _ Hlt) as [h Hh]. rewrite Hh. cbn [mbind outcome_bind].
    destruct (ct_equal (arr h) (arr leaf)) eqn:Ec; [|done].
    apply ct_equal_true, arr_inj in Ec as ->. by destruct (Hmiss Hn).
Qed.

(** Completeness: for a valid commitment and an object whose hash is among
    its leaves, [InclusionProof] returns a proof carrying the leaf's own position,
    and [VerifyInclusion] accepts it; for an object whose hash is not among them
    it returns [ErrObjectNotCommitted]. *)
Theorem InclusionProof_correct c (o : TrustObject E) leaf :
  VerifyCommitment (E := E) (Some c) = Ok tt → Size c ≤ max_int → LeafHash (Some o) = Ok leaf →
  (∀ i, LeafHashes c !! i = Some leaf →
     ∃ p, InclusionProof (Some c) (Some o) = Ok p ∧ Index p = Z.of_nat i ∧
          VerifyInclusion (Root c) p (Some o) = Ok tt) ∧
  (leaf ∉ LeafHashes c → InclusionProof (Some c) (Some o) = Err ErrObjectNotCommitted).
Proof. rewrite VerifyCommitment_valid. apply InclusionProof_spec. Qed.

Lemma VerifyInclusion_at c (o : TrustObject E) leaf p t :
  VerifyCommitment (E := E) (Some c) = Ok tt → Size c ≤ max_int → LeafHash (Some o) = Ok leaf →
  is_int (Index p) → TreeSize p = Size c → VerifyInclusion (Root c) p (Some o) = Ok tt →
  Merkle.New (leafBytes (LeafHashes c)) = Ok t →
  coll_free (tree_hashed (leafBytes (LeafHashes c)) t ++ path_hashed (arr leaf) (Steps p)) →
  0 ≤ Index p ∧ LeafHashes c !! Z.to_nat (Index p) = Some leaf.
Proof.
  rewrite VerifyCommitment_valid. intros (_ & Hne & Hsz & Hs & Hr) Hmax Hleaf Hint HT HV Ht HS.
  unfold VerifyInclusion in HV. rewrite Hleaf in HV. cbn [mbind outcome_bind] in HV.
  destruct (Merkle.VerifyInclusion _ _ _ _ _) as [[]| | |] eqn:EV; try done. clear HV.
  assert (zlen (leafBytes (LeafHashes c)) = Size c) as Hlen by (unfold leafBytes; by rewrite length_fmap).
  assert (u64 (TreeSize p) = zlen (leafBytes (LeafHashes c))) as Hts.
  { rewrite HT, Hlen. apply u64_small. unfold is_u64, max_int in *. lia. }
  pose proof (VerifyInclusion_inv _ _ _ _ _ EV) as (_ & _ & Hlt & _).
  assert (u64 (Index p) < 2 ^ 63) by (unfold max_int in *; lia).
  assert (0 ≤ Index p) as Hpos.
  { unfold is_int in Hint. destruct (decide (0 ≤ Index p)); [done|]. unfold u64 in *. div_lia. }
  split; [done|]. rewrite Hts, (u64_small (Index p)) in EV by (unfold is_u64, is_int in *; lia).
  rewrite <- (Z2Nat.id (Index p)) in EV by done.
  destruct (New_leaves _ Hne) as (t' & Ht' & _ & Hroot). rewrite Ht in Ht'. injection Ht' as <-. rewrite <- Hr in Hroot.
  destruct (VerifyInclusion_binds _ _ _ _ _ _ _ Ht Hroot ltac:(unfold max_int in *; lia) EV (decodeProof_elements _) HS) as [Hl _].
  unfold leafBytes in Hl. rewrite list_lookup_fmap in Hl.
  by destruct (LeafHashes c !! Z.to_nat (Index p)); simplify_eq/=.
Qed.

(** The leaf is committed, or two of the strings collide that were hashed to build
    the commitment's tree and to check the proof. *)
Definition committed (c : Commitment) (p : Proof_) (leaf : array32) : Prop :=
  ∃ t, Merkle.New (leafBytes (LeafHashes c)) = Ok t ∧
    (leaf ∈ LeafHashes c ∨ collision (tree_hashed (leafBytes (LeafHashes c)) t ++ path_hashed (arr leaf) (Steps p))).

(** Membership needs nothing of the index and the size a proof claims. *)
Lemma VerifyInclusion_member c (o : TrustObject E) p :
  VerifyCommitment (E := E) (Some c) = Ok tt → VerifyInclusion (Root c) p (Some o) = Ok tt →
  ∃ leaf, LeafHash (Some o) = Ok leaf ∧ committed c p leaf.
Proof.
  rewrite VerifyCommitment_valid. intros (_ & Hne & _ & _ & Hr) HV. unfold VerifyInclusion in HV.
  destruct (LeafHash (Some o)) as [leaf| | |]; try done. cbn [mbind outcome_bind] in HV.
  exists leaf. split; [done|]. destruct (Merkle.VerifyInclusion _ _ _ _ _) as [[]| | |] eqn:EV; try done. clear HV.
  apply VerifyInclusion_inv in EV as (path & Hd & _ & _ & Hv). rewrite decodeProof_elements in Hd. injection Hd as <-.
  destruct (New_leaves _ Hne) as (t & Ht & _ & Hroot). rewrite <- Hr in Hroot. exists t. split; [done|].
  destruct (coll_free_or (tree_hashed (leafBytes (LeafHashes c)) t ++ path_hashed (arr leaf) (Steps p))) as [HS|HS]; [left|by right].
  assert (arr leaf ∈ leafBytes (LeafHashes c)) as (x & ->%arr_inj & Hx)%list_elem_of_fmap; [|done].
  apply New_inv in Ht as (_ & _ & Hls). rewrite (Root_levels _ _ Hls) in Hroot. injection Hroot as Hroot%arr_inj.
  eapply chain_opens_leaf; [exact Hls|exact HS|..].
  - do 2 apply list_subseteq_app_l. done.
  - apply list_subseteq_app_l, list_subseteq_app_r. done.
  - apply list_subseteq_app_r. done.
  - cbn [Merkle.Steps] in Hv. rewrite Hv, <- Hroot. by apply root_entry.
Qed.

(** Soundness: a proof with the commitment's size that [VerifyInclusion]
    accepts against a valid commitment's root names a position at which the
    object's hash is committed, unless two hashed strings collide. *)
Theorem VerifyInclusion_committed c (o : TrustObject E) leaf p t :
  VerifyCommitment (E := E) (Some c) = Ok tt → Size c ≤ max_int → LeafHash (Some o) = Ok leaf →
  is_int (Index p) → TreeSize p = Size c → VerifyInclusion (Root c) p (Some o) = Ok tt →
  Merkle.New (leafBytes (LeafHashes c)) = Ok t →
  coll_free (tree_hashed (leafBytes (LeafHashes c)) t ++ path_hashed (arr leaf) (Steps p)) →
  0 ≤ Index p ∧ LeafHashes c !! Z.to_nat (Index p) = Some leaf.
Proof. apply VerifyInclusion_at. Qed.

(** The same check with [TreeSize = -1], which [uint64] turns into
    [2^64 - 1]: any even [Index] is accepted for the left leaf of a two-leaf
    commitment, so the position a verified proof names is not bound. *)
Theorem VerifyInclusion_negative_size (o : TrustObject E) leaf sib idx :
  LeafHash (Some o) = Ok leaf → 0 ≤ idx < 2 ^ 63 → idx `mod` 2 = 0 →
  VerifyInclusion (Merkle.nodeHash (Merkle.leafHash (arr leaf)) sib)
    {| Index := idx; TreeSize := -1; Steps := [Merkle.Step sib true] |} (Some o) = Ok tt.
Proof.
  intros Hleaf Hidx He. unfold VerifyInclusion. rewrite Hleaf. cbn [mbind outcome_bind Index TreeSize Steps].
  change (u64 (-1)) with (2 ^ 64 - 1). rewrite u64_small by (unfold is_u64; lia).
  change (Merkle.proof_element <$> [Merkle.Step sib true]) with [x01 :: arr sib].
  by rewrite VerifyInclusion_at_max_size by lia.
Qed.

(** ** Consistency proofs *)

Lemma same_prefix_ok n i (old next : list array32) :
  (∀ k, (i ≤ k < i + n)%nat → ∃ a, old !! k = Some a ∧ next !! k = Some a) →
  same_prefix (E := E) n i old next = Ok tt.
Proof.
  revert i. induction n as [|n IH]; intros i Hp; [done|]. cbn [same_prefix]. unfold index.
  destruct (Hp i ltac:(lia)) as (a & -> & ->). cbn [mbind outcome_bind]. rewrite ct_equal_refl.
  apply IH. intros k Hk. apply Hp. lia.
Qed.

Lemma same_prefix_differs n i (old next : list array32) :
  (i + n ≤ length old)%nat → (i + n ≤ length next)%nat →
  (∃ k, (i ≤ k < i + n)%nat ∧ old !! k ≠ next !! k) →
  same_prefix (E := E) n i old next = Err ErrNotPrefix.
Proof.
  revert i. induction n as [|n IH]; intros i Ho Hn (k & Hk & Hd); [lia|]. cbn [same_prefix]. unfold index.
  destruct (lookup_lt_is_Some_2 old i) as [a Ha]; [lia|]. destruct (lookup_lt_is_Some_2 next i) as [b Hb]; [lia|].
  rewrite Ha, Hb. cbn [mbind outcome_bind]. destruct (ct_equal (arr a) (arr b)) eqn:Ec; [|done]. cbn [negb].
  apply ct_equal_true, arr_inj in Ec as ->. apply IH; [lia..|]. exists k. split; [|done].
  destruct (decide (k = i)) as [->|]; [congruence|lia].
Qed.

(** Between two valid commitments of at most [2^62] leaves, the older
    smaller: if the older leaf list is a prefix of the newer one,
    [ConsistencyProofBetween] returns a proof that [VerifyConsistency] accepts for
    the two roots; otherwise it returns [ErrNotPrefix]. *)
Theorem ConsistencyProofBetween_correct old next :
  VerifyCommitment (E := E) (Some old) = Ok tt → VerifyCommitment (E := E) (Some next) = Ok tt →
  Size old < Size next ≤ 2 ^ 62 →
  (LeafHashes old `prefix_of` LeafHashes next →
     ∃ p, ConsistencyProofBetween (E := E) (Some old) (Some next) = Ok p ∧
          VerifyConsistency (E := E) (Root old) (Root next) p = Ok tt) ∧
  (¬ LeafHashes old `prefix_of` LeafHashes next →
     ConsistencyProofBetween (E := E) (Some old) (Some next) = Err ErrNotPrefix).
Proof.
  rewrite !VerifyCommitment_valid. intros (_ & No & So & _ & Ro) (_ & Nn & Sn & _ & Rn) Hsize.
  assert (0 < length (LeafHashes old))%nat by (destruct (LeafHashes old); simpl; [done|lia]).
  unfold ConsistencyProofBetween. rewrite (proj2 (Z.leb_gt _ _)), (proj2 (Z.leb_gt _ _)) by lia. cbn [orb].
  rewrite !(proj2 (Z.ltb_ge _ _)) by lia. cbn [orb]. rewrite So, Nat2Z.id. split.
  - intros [tl Htl]. rewrite same_prefix_ok.
    2: { intros k Hk. destruct (lookup_lt_is_Some_2 (LeafHashes old) k) as [a Ha]; [lia|]. exists a.
         split; [done|]. by rewrite Htl, lookup_app_l by lia. }
    cbn [mbind outcome_bind]. destruct (New_leaves _ Nn) as (t & Ht & _ & Hroot). rewrite Ht. cbn [wrap_err mbind outcome_bind].
    assert (length (leafBytes (LeafHashes next)) = length (LeafHashes next)) as Hln by apply length_fmap.
    destruct (ConsistencyProof_accepts _ _ (length (LeafHashes old)) Ht) as (path & told & ro & rn & HP & _ & Hto & Hro & Hrn & HV); [lia..|].
    rewrite Sn, <- Hln, HP. cbn [wrap_err mbind outcome_bind]. eexists. split; [done|].
    assert (take (length (LeafHashes old)) (leafBytes (LeafHashes next)) = leafBytes (LeafHashes old)) as Htake.
    { unfold leafBytes. by rewrite <- fmap_take, Htl, take_app_length. }
    rewrite Htake in Hto. destruct (New_leaves _ No) as (t' & Ht' & _ & Hro').
    rewrite Ht' in Hto. injection Hto as <-. unfold VerifyConsistency. simpl OldSize. simpl NewSize. simpl CSteps.
    rewrite Hroot in Hrn. rewrite Hro' in Hro. injection Hrn as <-. injection Hro as <-.
    destruct path. simpl. by rewrite Ro, Rn, HV.
  - intros Hnp. rewrite same_prefix_differs; [done|lia|lia|].
    destruct (decide (take (length (LeafHashes old)) (LeafHashes next) = LeafHashes old)) as [Heq|Hne].
    { destruct Hnp. exists (drop (length (LeafHashes old)) (LeafHashes next)).
      pose proof (take_drop (length (LeafHashes old)) (LeafHashes next)) as Htd. by rewrite Heq in Htd. }
    apply list_differ in Hne as (k & Hk & Hd); [|rewrite length_take; lia].
    exists k. split; [lia|]. rewrite lookup_take_lt in Hd by lia. congruence.
Qed.

(** ** DTO round trips *)

Lemma decodeHash_encode (h : array32) : decodeHash (E := E) (hex_encode (arr h)) = Ok h.
Proof. unfold decodeHash. by rewrite hex_decode_encode, arr_length, copy32_arr. Qed.

Lemma Forall2_fmap_id {A B} (R : B → A → Prop) (f : A → B) l :
  (∀ x, R (f x) x) → Forall2 R (f <$> l) l.
Proof. intros HR. induction l; constructor; auto. Qed.

(** The hex DTOs lose nothing: decoding the DTO of a commitment, or of an
    inclusion proof, gives it back. *)
Theorem dto_roundtrip c p :
  Commitment_of_dto (E := E) (Commitment_to_dto c) = Ok c ∧ Proof_of_dto (E := E) (Proof_to_dto p) = Ok p.
Proof.
  split.
  - unfold Commitment_of_dto, Commitment_to_dto. simpl. rewrite decodeHash_encode. cbn [mbind outcome_bind].
    rewrite (proj2 (each_Forall2 (decodeHash (E := E)) 0 _ (LeafHashes c))); [by destruct c|].
    apply Forall2_fmap_id. intros h. apply decodeHash_encode.
  - unfold Proof_of_dto, Proof_to_dto. simpl.
    rewrite (proj2 (each_Forall2 (λ s, h ← decodeHash (E := E) (json_hash s); Ok (Merkle.Step h (json_isRight s)))
      0 _ (Steps p))); [by destruct p|].
    apply Forall2_fmap_id. intros [h b]. simpl. by rewrite decodeHash_encode.
Qed.

End Commitments.

(** ** Concrete inputs *)

Definition ex_object (h : array32) : option (TrustObject unit) := Some (MkObject (Ok h)).
Definition ex_objects : list (option (TrustObject unit)) :=
  [ex_object (copy32 [x0c]); ex_object (copy32 [x0a]); ex_object (copy32 [x0b])].
Definition ex_commit (objs : list (option (TrustObject unit))) : Commitment :=
  match Build objs with Ok c => c | _ => MkCommitment zero32 0 [] EmptyString end.
Definition ex_c : Commitment := ex_commit ex_objects.
Definition ex_c_old : Commitment := ex_commit (drop 1 ex_objects).
Definition ex_o : TrustObject unit := MkObject (Ok (copy32 [x0b])).
Definition ex_p : Proof_ :=
  match InclusionProof (Some ex_c) (Some ex_o) with Ok p => p | _ => MkProof 0 0 [] end.

Lemma Build_correct_witness : ∃ c, Build ex_objects = Ok c ∧ valid c ∧
  LeafHashes c ≡ₚ copy32 <$> [[x0c]; [x0a]; [x0b]].
Proof.
  apply (proj1 (Build_correct ex_objects (copy32 <$> [[x0c]; [x0a]; [x0b]]) ltac:(done)
    ltac:(repeat constructor))).
  apply (bool_decide_unpack _). vm_compute. exact I.
Defined.

Lemma Build_order_independent_witness : Build ex_objects = Build (reverse ex_objects).
Proof. apply Build_order_independent; [by rewrite reverse_Permutation|repeat constructor; by eexists]. Defined.

Lemma VerifyCommitment_binding_witness : ex_c = ex_commit (reverse ex_objects).
Proof.
  apply (VerifyCommitment_binding (E := unit)); [vm_compute; reflexivity..|].
  apply coll_free_b_ok. vm_compute. reflexivity.
Defined.

Lemma InclusionProof_correct_witness :
  ∃ p, InclusionProof (Some ex_c) (Some ex_o) = Ok p ∧ Index p = Z.of_nat 1 ∧
       VerifyInclusion (Root ex_c) p (Some ex_o) = Ok tt.
Proof.
  destruct (InclusionProof_correct ex_c ex_o (copy32 [x0b])) as [Hin _];
    [vm_compute; reflexivity|vm_compute; congruence|reflexivity|].
  apply Hin. vm_compute. reflexivity.
Defined.

Lemma VerifyInclusion_committed_witness :
  0 ≤ Index ex_p ∧ LeafHashes ex_c !! Z.to_nat (Index ex_p) = Some (copy32 [x0b]).
Proof.
  eapply (VerifyInclusion_committed ex_c ex_o (copy32 [x0b]) ex_p).
  - vm_compute. reflexivity.
  - vm_compute. congruence.
  - reflexivity.
  - vm_compute. split; congruence.
  - vm_compute. reflexivity.
  - vm_compute. reflexivity.
  - vm_compute. reflexivity.
  - apply coll_free_b_ok. vm_compute. reflexivity.
Defined.

Lemma VerifyInclusion_negative_size_witness :
  VerifyInclusion (Merkle.nodeHash (Merkle.leafHash (arr (copy32 [x0b]))) zero32)
    {| Index := 42; TreeSize := -1; Steps := [Merkle.Step zero32 true] |} (Some ex_o) = Ok tt.
Proof. apply VerifyInclusion_negative_size; [reflexivity|lia|reflexivity]. Defined.

Lemma ConsistencyProofBetween_correct_witness :
  ∃ p, ConsistencyProofBetween (E := unit) (Some ex_c_old) (Some ex_c) = Ok p ∧
       VerifyConsistency (E := unit) (Root ex_c_old) (Root ex_c) p = Ok tt.
Proof.
  destruct (ConsistencyProofBetween_correct (E := unit) ex_c_old ex_c) as [Hin _];
    [vm_compute; reflexivity|vm_compute; reflexivity|vm_compute; split; congruence|].
  apply Hin. exists [copy32 [x0c]]. vm_compute. reflexivity.
Defined.
