(* ===== verification/Signature.v ===== *)
(** * The [signature] package: algorithm identifiers and dispatch

    A translation of src/signature: the algorithm table (algorithm.go), the
    registry and its dispatch (registry.go and the [init] functions of
    ed25519.go, secp256k1.go, ecdsa.go, rsa_pss.go, rsa_pkcs1.go) and
    [LocalSigner] (signer.go).  The key types of src/crypto are constructors of
    [PublicKey] and [PrivateKey]; what a key's [Public], [Sign] and [Verify]
    methods compute is the interface [KeyOps]. *)
From S2P Require Import Prelude Sha256.
#[local] Open Scope Z_scope.

Module Signature.

(** ** algorithm.go *)

(** [type Algorithm int]: any integer is a value of the type. *)
Definition Algorithm : Type := Z.
#[global] Instance Algorithm_eq_dec : EqDecision Algorithm := Z.eq_dec.

Definition AlgorithmEdDSA : Algorithm := 1.
Definition AlgorithmES256K : Algorithm := 2.
Definition AlgorithmES256 : Algorithm := 3.
Definition AlgorithmES384 : Algorithm := 4.
Definition AlgorithmPS256 : Algorithm := 5.
Definition AlgorithmPS384 : Algorithm := 6.
Definition AlgorithmPS512 : Algorithm := 7.
Definition AlgorithmRS256 : Algorithm := 8.
Definition AlgorithmRS384 : Algorithm := 9.
Definition AlgorithmRS512 : Algorithm := 10.

Record algorithmInfo : Type := Info { jose : string; cose : Z }.

(** Index 0 holds the zero value. *)
Definition algorithmTable : list algorithmInfo :=
  [ Info "" 0; Info "EdDSA" (-8); Info "ES256K" (-47); Info "ES256" (-7); Info "ES384" (-35);
    Info "PS256" (-37); Info "PS384" (-38); Info "PS512" (-39);
    Info "RS256" (-257); Info "RS384" (-258); Info "RS512" (-259) ].

Definition JOSE (a : Algorithm) : string :=
  if (a <? 0) || (zlen algorithmTable <=? a) then ""
  else match algorithmTable !! Z.to_nat a with Some i => jose i | None => "" end.

Definition COSE (a : Algorithm) : Z :=
  if (a <? 0) || (zlen algorithmTable <=? a) then 0
  else match algorithmTable !! Z.to_nat a with Some i => cose i | None => 0 end.

(** [for i := Algorithm(1); int(i) < len(algorithmTable); i++]: the index of
    the first entry satisfying [f], counting from [i]. *)
Fixpoint find_entry (f : algorithmInfo → bool) (i : Z) (entries : list algorithmInfo) : option Algorithm :=
  match entries with
  | [] => None
  | e :: es => if f e then Some i else find_entry f (i + 1) es
  end.

Definition AlgorithmForJOSE (name : string) : option Algorithm :=
  find_entry (λ e, String.eqb (jose e) name) 1 (tail algorithmTable).

Definition AlgorithmForCOSE (label : Z) : option Algorithm :=
  find_entry (λ e, cose e =? label) 1 (tail algorithmTable).

(** ** Keys *)

Inductive Curve : Type := P256 | P384 | OtherCurve (name : string).
Inductive Hash : Type := SHA256 | SHA384 | SHA512 | OtherHash (id : Z).

(** [crypto.PublicKey] is an empty interface; the type switches of the package
    distinguish these cases. *)
Inductive PublicKey : Type :=
| Ed25519Pub (b : bytes)
| Secp256k1Pub (b : bytes)
| EcdsaPub (curve : Curve) (x y : Z)
| PSSPub (hash : Hash) (n e : Z)
| PKCS1Pub (hash : Hash) (n e : Z)
| X25519Pub (b : bytes)
| OtherPub (type : string) (b : bytes).

Inductive PrivateKey : Type :=
| Ed25519Priv (d : bytes)
| Secp256k1Priv (d : bytes)
| EcdsaPriv (curve : Curve) (d : bytes)
| PSSPriv (hash : Hash) (d : bytes)
| PKCS1Priv (hash : Hash) (d : bytes)
| X25519Priv (d : bytes)
| OtherPriv (type : string) (d : bytes).

#[global] Instance Curve_eq_dec : EqDecision Curve.
Proof. solve_decision. Defined.
#[global] Instance Hash_eq_dec : EqDecision Hash.
Proof. solve_decision. Defined.
#[global] Instance PublicKey_eq_dec : EqDecision PublicKey.
Proof. solve_decision. Defined.

Inductive error : Type :=
| ErrUnsupportedAlgorithm
| ErrAlgorithmNotRegistered
| ErrAlgMismatch (Expected Got : Algorithm)
| ErrNilKey
| ErrContext
| ErrKeyOp.

(** What the key types of src/crypto provide.  [key_verify] is the boolean the
    [Verify] method returns, [key_sign] may fail, [key_public] derives the public
    half. *)
Class KeyOps : Type := {
  ed25519_public : bytes → bytes;
  secp256k1_public : bytes → bytes;
  ecdsa_public : Curve → bytes → Z * Z;
  rsa_public : bytes → Z * Z;
  key_sign : PrivateKey → bytes → option bytes;
  key_verify : PublicKey → bytes → bytes → bool
}.

(** ** registry.go *)

Definition ecdsaAlgForCurve (curve : Curve) : outcome error Algorithm :=
  match curve with
  | P256 => Ok AlgorithmES256
  | P384 => Ok AlgorithmES384
  | OtherCurve _ => Err ErrUnsupportedAlgorithm
  end.

Definition rsaPSSAlgForHash (hash : Hash) : outcome error Algorithm :=
  match hash with
  | SHA256 => Ok AlgorithmPS256
  | SHA384 => Ok AlgorithmPS384
  | SHA512 => Ok AlgorithmPS512
  | OtherHash _ => Err ErrUnsupportedAlgorithm
  end.

Definition rsaPKCS1AlgForHash (hash : Hash) : outcome error Algorithm :=
  match hash with
  | SHA256 => Ok AlgorithmRS256
  | SHA384 => Ok AlgorithmRS384
  | SHA512 => Ok AlgorithmRS512
  | OtherHash _ => Err ErrUnsupportedAlgorithm
  end.

Definition AlgorithmForPrivateKey (key : PrivateKey) : outcome error Algorithm :=
  match key with
  | Ed25519Priv _ => Ok AlgorithmEdDSA
  | Secp256k1Priv _ => Ok AlgorithmES256K
  | EcdsaPriv curve _ => ecdsaAlgForCurve curve
  | PSSPriv hash _ => rsaPSSAlgForHash hash
  | PKCS1Priv hash _ => rsaPKCS1AlgForHash hash
  | X25519Priv _ => Err ErrUnsupportedAlgorithm
  | OtherPriv _ _ => Err ErrUnsupportedAlgorithm
  end.

Definition AlgorithmForPublicKey (key : PublicKey) : outcome error Algorithm :=
  match key with
  | Ed25519Pub _ => Ok AlgorithmEdDSA
  | Secp256k1Pub _ => Ok AlgorithmES256K
  | EcdsaPub curve _ _ => ecdsaAlgForCurve curve
  | PSSPub hash _ _ => rsaPSSAlgForHash hash
  | PKCS1Pub hash _ _ => rsaPKCS1AlgForHash hash
  | X25519Pub _ => Err ErrUnsupportedAlgorithm
  | OtherPub _ _ => Err ErrUnsupportedAlgorithm
  end.

(** The value of a [(T, error)] pair: the zero value beside a non-nil error. *)
Definition or_zero (m : outcome error Algorithm) : Algorithm :=
  match m with Ok a => a | _ => 0 end.

Definition algForPrivateKey (key : PrivateKey) : Algorithm := or_zero (AlgorithmForPrivateKey key).
Definition algForPublicKey (key : PublicKey) : Algorithm := or_zero (AlgorithmForPublicKey key).

Section Ops.
Context `{!Hasher} `{!KeyOps}.

Definition run_sign (k : PrivateKey) (msg : bytes) : outcome error bytes :=
  match key_sign k msg with Some s => Ok s | None => Err ErrKeyOp end.

(** The closures each file's [init] registers: type assertion on the key, for
    the parameterised families a check of the key's own algorithm, the key's
    method; ES256K hashes the message first. *)
Definition sign_eddsa (key : PrivateKey) (msg : bytes) : outcome error bytes :=
  match key with
  | Ed25519Priv _ => run_sign key msg
  | _ => Err (ErrAlgMismatch AlgorithmEdDSA (algForPrivateKey key))
  end.
Definition verify_eddsa (key : PublicKey) (sig msg : bytes) : outcome error bool :=
  match key with
  | Ed25519Pub _ => Ok (key_verify key sig msg)
  | _ => Err (ErrAlgMismatch AlgorithmEdDSA (algForPublicKey key))
  end.

Definition sign_es256k (key : PrivateKey) (msg : bytes) : outcome error bytes :=
  match key with
  | Secp256k1Priv _ => run_sign key (arr (Sum msg))
  | _ => Err (ErrAlgMismatch AlgorithmES256K (algForPrivateKey key))
  end.
Definition verify_es256k (key : PublicKey) (sig msg : bytes) : outcome error bool :=
  match key with
  | Secp256k1Pub _ => Ok (key_verify key sig (arr (Sum msg)))
  | _ => Err (ErrAlgMismatch AlgorithmES256K (algForPublicKey key))
  end.

(** [if err != nil || alg != want { return &ErrAlgMismatch{want, alg} }]. *)
Definition require_alg (want : Algorithm) (got : outcome error Algorithm) : outcome error unit :=
  match got with
  | Ok alg => check (alg =? want) (ErrAlgMismatch want alg)
  | _ => Err (ErrAlgMismatch want 0)
  end.

Definition sign_ecdsa (want : Algorithm) (key : PrivateKey) (msg : bytes) : outcome error bytes :=
  match key with
  | EcdsaPriv curve _ => _ ← require_alg want (ecdsaAlgForCurve curve); run_sign key msg
  | _ => Err (ErrAlgMismatch want (algForPrivateKey key))
  end.
Definition verify_ecdsa (want : Algorithm) (key : PublicKey) (sig msg : bytes) : outcome error bool :=
  match key with
  | EcdsaPub curve _ _ => _ ← require_alg want (ecdsaAlgForCurve curve); Ok (key_verify key sig msg)
  | _ => Err (ErrAlgMismatch want (algForPublicKey key))
  end.

Definition sign_pss (want : Algorithm) (key : PrivateKey) (msg : bytes) : outcome error bytes :=
  match key with
  | PSSPriv hash _ => _ ← require_alg want (rsaPSSAlgForHash hash); run_sign key msg
  | _ => Err (ErrAlgMismatch want (algForPrivateKey key))
  end.
Definition verify_pss (want : Algorithm) (key : PublicKey) (sig msg : bytes) : outcome error bool :=
  match key with
  | PSSPub hash _ _ => _ ← require_alg want (rsaPSSAlgForHash hash); Ok (key_verify key sig msg)
  | _ => Err (ErrAlgMismatch want (algForPublicKey key))
  end.

Definition sign_pkcs1 (want : Algorithm) (key : PrivateKey) (msg : bytes) : outcome error bytes :=
  match key with
  | PKCS1Priv hash _ => _ ← require_alg want (rsaPKCS1AlgForHash hash); run_sign key msg
  | _ => Err (ErrAlgMismatch want (algForPrivateKey key))
  end.
Definition verify_pkcs1 (want : Algorithm) (key : PublicKey) (sig msg : bytes) : outcome error bool :=
  match key with
  | PKCS1Pub hash _ _ => _ ← require_alg want (rsaPKCS1AlgForHash hash); Ok (key_verify key sig msg)
  | _ => Err (ErrAlgMismatch want (algForPublicKey key))
  end.

Record registryEntry : Type := Entry {
  e_sign : PrivateKey → bytes → outcome error bytes;
  e_verify : PublicKey → bytes → bytes → outcome error bool
}.

(** The contents of the map [registry] once every [init] has run. *)
Definition registry (alg : Algorithm) : option registryEntry :=
  if alg =? AlgorithmEdDSA then Some (Entry sign_eddsa verify_eddsa)
  else if alg =? AlgorithmES256K then Some (Entry sign_es256k verify_es256k)
  else if (alg =? AlgorithmES256) || (alg =? AlgorithmES384)
  then Some (Entry (sign_ecdsa alg) (verify_ecdsa alg))
  else if (alg =? AlgorithmPS256) || (alg =? AlgorithmPS384) || (alg =? AlgorithmPS512)
  then Some (Entry (sign_pss alg) (verify_pss alg))
  else if (alg =? AlgorithmRS256) || (alg =? AlgorithmRS384) || (alg =? AlgorithmRS512)
  then Some (Entry (sign_pkcs1 alg) (verify_pkcs1 alg))
  else None.

Definition Sign (alg : Algorithm) (key : PrivateKey) (msg : bytes) : outcome error bytes :=
  match registry alg with
  | None => Err ErrAlgorithmNotRegistered
  | Some e => e_sign e key msg
  end.

Definition Verify (alg : Algorithm) (key : PublicKey) (sig msg : bytes) : outcome error bool :=
  match registry alg with
  | None => Err ErrAlgorithmNotRegistered
  | Some e => e_verify e key sig msg
  end.

(** ** signer.go *)

Definition publicKeyForPrivateKey (key : PrivateKey) : outcome error PublicKey :=
  match key with
  | Ed25519Priv d => Ok (Ed25519Pub (ed25519_public d))
  | Secp256k1Priv d => Ok (Secp256k1Pub (secp256k1_public d))
  | EcdsaPriv c d => let '(x, y) := ecdsa_public c d in Ok (EcdsaPub c x y)
  | PSSPriv h d => let '(n, e) := rsa_public d in Ok (PSSPub h n e)
  | PKCS1Priv h d => let '(n, e) := rsa_public d in Ok (PKCS1Pub h n e)
  | X25519Priv _ => Err ErrUnsupportedAlgorithm
  | OtherPriv _ _ => Err ErrUnsupportedAlgorithm
  end.

(** The interface [Signer] as its method table; the context argument of both
    methods is fixed and [ctx.Err() != nil] is the boolean [canceled]. *)
Record Signer : Type := MkSigner {
  signer_PublicKey : outcome error PublicKey;
  signer_Sign : bytes → outcome error bytes
}.

Record LocalSigner : Type := MkLocalSigner { ls_key : PrivateKey; ls_pub : PublicKey; ls_alg : Algorithm }.

Definition NewLocalSigner (key : option PrivateKey) : outcome error LocalSigner :=
  match key with
  | None => Err ErrNilKey
  | Some k =>
      alg ← AlgorithmForPrivateKey k;
      pub ← publicKeyForPrivateKey k;
      Ok {| ls_key := k; ls_pub := pub; ls_alg := alg |}
  end.

Definition LocalSigner_PublicKey (canceled : bool) (s : LocalSigner) : outcome error PublicKey :=
  if canceled then Err ErrContext else Ok (ls_pub s).

Definition LocalSigner_Sign (canceled : bool) (s : LocalSigner) (digest : bytes) : outcome error bytes :=
  if canceled then Err ErrContext else Sign (ls_alg s) (ls_key s) digest.

Definition local_signer (canceled : bool) (s : LocalSigner) : Signer :=
  {| signer_PublicKey := LocalSigner_PublicKey canceled s;
     signer_Sign := LocalSigner_Sign canceled s |}.

End Ops.
End Signature.
