(* ===== verification/SignatureProofs.v ===== *)
(** * Signature dispatch: identifiers and algorithm confusion

    The wire identifiers are bijective with the registered algorithms, a key is
    only ever used under its own algorithm, and what a [LocalSigner] signs
    verifies under its public key. *)
From S2P Require Import Prelude Sha256 Signature.
Import Signature.
#[local] Open Scope Z_scope.

(** ** Identifiers *)

Definition registered (a : Algorithm) : Prop := 1 ≤ a ≤ 10.

Lemma registered_cases a : registered a →
  a = 1 ∨ a = 2 ∨ a = 3 ∨ a = 4 ∨ a = 5 ∨ a = 6 ∨ a = 7 ∨ a = 8 ∨ a = 9 ∨ a = 10.
Proof. unfold registered. lia. Qed.

Lemma find_entry_some f i es a : find_entry f i es = Some a →
  i ≤ a < i + zlen es ∧ ∃ e, es !! Z.to_nat (a - i) = Some e ∧ f e = true.
Proof.
  revert i. induction es as [|e es IH]; intros i; [done|]. cbn [find_entry].
  destruct (f e) eqn:Ef.
  - intros [= <-]. cbn [length]. split; [lia|]. exists e. by rewrite Z.sub_diag.
  - intros (Ha & e' & He & Hf)%IH. cbn [length]. split; [lia|]. exists e'. split; [|done].
    replace (Z.to_nat (a - i)) with (S (Z.to_nat (a - (i + 1)))) by lia. done.
Qed.

Lemma table_entry a e : 1 ≤ a < 1 + zlen (tail algorithmTable) →
  tail algorithmTable !! Z.to_nat (a - 1) = Some e → JOSE a = jose e ∧ COSE a = cose e.
Proof.
  intros Ha He. change (zlen (tail algorithmTable)) with 10 in Ha.
  destruct (registered_cases a) as [->|[->|[->|[->|[->|[->|[->|[->|[->| ->]]]]]]]]];
    [unfold registered; lia|..]; vm_compute in He; by simplify_eq.
Qed.

(** Resolving a JOSE name, or a COSE label, is the exact inverse of
    rendering one: a name or label resolves to an algorithm if and only if that
    algorithm is registered and renders as it.  In particular no two algorithms
    share an identifier. *)
Theorem identifiers_roundtrip a :
  (∀ name, AlgorithmForJOSE name = Some a ↔ registered a ∧ JOSE a = name) ∧
  (∀ label, AlgorithmForCOSE label = Some a ↔ registered a ∧ COSE a = label).
Proof.
  split; [intros name|intros label]; split.
  - intros (Ha & e & He & Hf)%find_entry_some. apply String.eqb_eq in Hf.
    split; [unfold registered; change (zlen (tail algorithmTable)) with 10 in Ha; lia|].
    by rewrite (proj1 (table_entry a e Ha He)).
  - intros [Hr <-]. destruct (registered_cases a Hr) as [->|[->|[->|[->|[->|[->|[->|[->|[->| ->]]]]]]]]]; reflexivity.
  - intros (Ha & e & He & Hf)%find_entry_some. apply Z.eqb_eq in Hf.
    split; [unfold registered; change (zlen (tail algorithmTable)) with 10 in Ha; lia|].
    by rewrite (proj2 (table_entry a e Ha He)).
  - intros [Hr <-]. destruct (registered_cases a Hr) as [->|[->|[->|[->|[->|[->|[->|[->|[->| ->]]]]]]]]]; reflexivity.
Qed.

Section Dispatch.
Context `{!Hasher} `{!KeyOps}.

(** Decide the equality tests on algorithm constants. *)
Ltac alg_cases alg :=
  unfold Verify, Sign, registry in *;
  destruct (Z.eqb_spec alg AlgorithmEdDSA); [subst alg|
  destruct (Z.eqb_spec alg AlgorithmES256K); [subst alg|
  destruct ((alg =? AlgorithmES256) || (alg =? AlgorithmES384));
  [|destruct ((alg =? AlgorithmPS256) || (alg =? AlgorithmPS384) || (alg =? AlgorithmPS512));
  [|destruct ((alg =? AlgorithmRS256) || (alg =? AlgorithmRS384) || (alg =? AlgorithmRS512))]]]]; simpl.

Lemma require_alg_ok want got : require_alg want got = Ok tt ↔ got = Ok want.
Proof.
  unfold require_alg, check. destruct got as [a| | |]; try done.
  destruct (Z.eqb_spec a want); split; congruence.
Qed.

Lemma Verify_own_alg alg key sig msg b :
  Verify alg key sig msg = Ok b → AlgorithmForPublicKey key = Ok alg.
Proof.
  alg_cases alg; destruct key; simpl; try done;
    destruct (require_alg alg _) as [[]| | |] eqn:Er; try done; by apply require_alg_ok in Er.
Qed.

Lemma AlgorithmForPublicKey_registered key alg : AlgorithmForPublicKey key = Ok alg → registered alg.
Proof.
  unfold registered. destruct key as [| |[]|[]|[]| |]; simpl; intros; simplify_eq; vm_compute; split; congruence.
Qed.

Lemma Verify_defined alg key sig msg :
  AlgorithmForPublicKey key = Ok alg → ∃ b, Verify alg key sig msg = Ok b.
Proof. destruct key as [| |[]|[]|[]| |]; simpl; intros; simplify_eq; vm_compute; eauto. Qed.

(** C28.  No algorithm confusion: [Verify] returns a verdict on a signature only
    under the algorithm the key itself resolves to, and does so for every signing
    key; under any other algorithm it returns an error. *)
Theorem Verify_no_confusion alg key sig msg :
  (∃ b, Verify alg key sig msg = Ok b) ↔ AlgorithmForPublicKey key = Ok alg.
Proof. split; [intros [b Hb]; by eapply Verify_own_alg|apply Verify_defined]. Qed.

(** What [crypto/*] promises: a signature made with a private key verifies under
    its public half. *)
Definition keys_correct : Prop := ∀ k pub msg sig,
  publicKeyForPrivateKey k = Ok pub → key_sign k msg = Some sig → key_verify pub sig msg = true.

Lemma Sign_verifies (HK : keys_correct) alg k pub msg sig :
  publicKeyForPrivateKey k = Ok pub → Sign alg k msg = Ok sig →
  AlgorithmForPublicKey pub = Ok alg ∧ Verify alg pub sig msg = Ok true.
Proof.
  intros Hp Hs.
  assert (∀ m, run_sign k m = Ok sig → key_verify pub sig m = true) as Hrun.
  { intros m. unfold run_sign. destruct (key_sign k m) eqn:E; [intros [= <-]; by eapply HK|done]. }
  alg_cases alg; destruct k; simpl in Hs, Hp; try done; unfold mbind, outcome_bind in Hs;
    try (destruct (ecdsa_public _ _)); try (destruct (rsa_public _)); simplify_eq; simpl;
    try (split; [done|f_equal; by apply Hrun]);
    destruct (require_alg alg _) as [[]| | |] eqn:Er; try done;
    (split; [by apply require_alg_ok|]); cbn [mbind outcome_bind]; f_equal; by apply Hrun.
Qed.

(** What a [Signer] promises its clients (authority, attestation): a signature it
    returns verifies under the public key it reports. *)
Class LawfulSigner (s : Signer) : Prop := signer_verifies pub alg digest sig :
  signer_PublicKey s = Ok pub → AlgorithmForPublicKey pub = Ok alg →
  signer_Sign s digest = Ok sig → Verify alg pub sig digest = Ok true.

Lemma NewLocalSigner_inv key s : NewLocalSigner (Some key) = Ok s →
  ls_key s = key ∧ publicKeyForPrivateKey key = Ok (ls_pub s) ∧ AlgorithmForPrivateKey key = Ok (ls_alg s).
Proof.
  unfold NewLocalSigner, mbind, outcome_bind.
  destruct (AlgorithmForPrivateKey key) as [alg| | |] eqn:Ea; try done.
  destruct (publicKeyForPrivateKey key) as [pub| | |] eqn:Ep; try done. by intros [= <-].
Qed.

Lemma local_signer_lawful (HK : keys_correct) key s :
  NewLocalSigner (Some key) = Ok s → LawfulSigner (local_signer false s).
Proof.
  intros (Hk & Hp & Ha)%NewLocalSigner_inv pub alg d sig H1 H2 H3. simpl in *.
  unfold LocalSigner_PublicKey, LocalSigner_Sign in *. simplify_eq.
  destruct (Sign_verifies HK (ls_alg s) (ls_key s) (ls_pub s) d sig) as [Ha' Hv]; [done|done|]. congruence.
Qed.

(** A digest signed by a [LocalSigner] verifies under the public key the
    signer reports, with the algorithm resolved from that key. *)
Theorem LocalSigner_verifies (HK : keys_correct) key s digest sig :
  NewLocalSigner (Some key) = Ok s → LocalSigner_Sign false s digest = Ok sig →
  ∃ pub alg, LocalSigner_PublicKey false s = Ok pub ∧ AlgorithmForPublicKey pub = Ok alg ∧
             Verify alg pub sig digest = Ok true.
Proof.
  intros (Hk & Hp & _)%NewLocalSigner_inv Hs. exists (ls_pub s), (ls_alg s). split; [done|].
  unfold LocalSigner_Sign in Hs. rewrite Hk in Hs. by eapply Sign_verifies.
Qed.

End Dispatch.

(** ** A concrete key interface *)

(** A stand-in for real keys: the public half spells the private one, a
    signature is the hash of the public half and the message. *)
Definition toy_pub_bytes (k : PublicKey) : bytes :=
  match k with
  | Ed25519Pub b | Secp256k1Pub b | X25519Pub b | OtherPub _ b => b
  | EcdsaPub _ x _ => be_bytes 32 x
  | PSSPub _ n _ | PKCS1Pub _ n _ => be_bytes 32 n
  end.
Definition toy_priv_bytes (k : PrivateKey) : bytes :=
  match k with
  | Ed25519Priv d | Secp256k1Priv d | X25519Priv d | OtherPriv _ d => d
  | EcdsaPriv _ d | PSSPriv _ d | PKCS1Priv _ d => be_bytes 32 (be_value d)
  end.
#[export] Instance toy_keys : KeyOps := {
  ed25519_public d := d;
  secp256k1_public d := d;
  ecdsa_public _ d := (be_value d, 0);
  rsa_public d := (be_value d, 65537);
  key_sign k m := Some (arr (Sum (toy_priv_bytes k ++ m)));
  key_verify k sig m := ct_equal sig (arr (Sum (toy_pub_bytes k ++ m)))
}.

Lemma toy_keys_correct : keys_correct.
Proof.
  intros k pub msg sig Hp Hs. injection Hs as <-.
  destruct k; cbn [publicKeyForPrivateKey] in Hp; try discriminate; injection Hp as <-; apply ct_equal_refl.
Qed.

Definition ex_key : PrivateKey := EcdsaPriv P256 [x07].
Definition ex_signer : LocalSigner :=
  match NewLocalSigner (Some ex_key) with Ok s => s | _ => MkLocalSigner ex_key (X25519Pub []) 0 end.

Lemma LocalSigner_verifies_witness : ∃ pub alg,
  LocalSigner_PublicKey false ex_signer = Ok pub ∧ AlgorithmForPublicKey pub = Ok alg ∧
  Verify alg pub (arr (Sum (toy_priv_bytes ex_key ++ [x01; x02]))) [x01; x02] = Ok true.
Proof.
  eapply (LocalSigner_verifies toy_keys_correct ex_key); [reflexivity|vm_compute; reflexivity].
Defined.
