(* ===== verification/GoTime.v ===== *)
(** * Instants: what the program uses of Go's [time.Time]

    A [time.Time] is an instant, counted in seconds and nanoseconds from the
    zero time (1 January of year 1, UTC), with the offset of its location.
    Comparisons look at the instant only; the JSON form (RFC 3339 with trimmed
    nanoseconds) is rendered in the location. *)
From S2P Require Import Prelude.
#[local] Open Scope Z_scope.

Module GoTime.

Record Time : Type := MkTime { sec : Z; nsec : Z; off : Z }.

Definition zero_time : Time := MkTime 0 0 0.
Definition instant (t : Time) : Z := sec t * 10 ^ 9 + nsec t.

Definition Before (t u : Time) : bool := instant t <? instant u.
Definition After (t u : Time) : bool := instant u <? instant t.
Definition Equal (t u : Time) : bool := instant t =? instant u.
Definition IsZero (t : Time) : bool := (sec t =? 0) && (nsec t =? 0).

(** [time.Unix(n, 0).UTC()] and [t.Unix()]. *)
Definition unix_epoch : Z := 62135596800.
Definition of_unix (n : Z) : Time := MkTime (n + unix_epoch) 0 0.
Definition Unix (t : Time) : Z := sec t - unix_epoch.

#[global] Instance Time_eq_dec : EqDecision Time.
Proof. solve_decision. Defined.

(** ** Calendar *)

(** Year, month and day of the [n]-th day after 1 January of year 1, counting
    years from March so that a leap day ends its year. *)
Definition civil (n : Z) : Z * Z * Z :=
  let z := n + 306 in
  let era := z `div` 146097 in
  let doe := z `mod` 146097 in
  let yoe := (doe - doe `div` 1460 + doe `div` 36524 - doe `div` 146096) `div` 365 in
  let doy := doe - (365 * yoe + yoe `div` 4 - yoe `div` 100) in
  let mp := (5 * doy + 2) `div` 153 in
  let d := doy - (153 * mp + 2) `div` 5 + 1 in
  let m := if mp <? 10 then mp + 3 else mp - 9 in
  (yoe + era * 400 + (if m <=? 2 then 1 else 0), m, d).

(** Decimal digits of a natural number, [w] of them. *)
Fixpoint pad (w : nat) (n : Z) : bytes :=
  match w with
  | O => []
  | S w' => pad w' (n `div` 10) ++ [z2b (48 + n `mod` 10)]
  end.

(** [.999999999]: no trailing zeros, nothing at all for zero. *)
Fixpoint trim_zeros (fuel : nat) (w : nat) (n : Z) : bytes :=
  match fuel, w with
  | S f, S w' => if n `mod` 10 =? 0 then trim_zeros f w' (n `div` 10) else x2e :: pad w n
  | _, _ => []
  end.

(** [t.MarshalJSON()] without the quotes: years outside [0, 9999] and zone
    hours above 23 are errors. *)
Definition rfc3339 (t : Time) : option bytes :=
  let local := sec t + off t in
  let '(y, m, d) := civil (local `div` 86400) in
  let s := local `mod` 86400 in
  let zone := Z.quot (off t) 60 in
  let za := Z.abs zone in
  if (y <? 0) || (9999 <? y) || (24 <=? za `div` 60) then None
  else Some
    (pad 4 y ++ [x2d] ++ pad 2 m ++ [x2d] ++ pad 2 d ++ [x54] ++
     pad 2 (s `div` 3600) ++ [x3a] ++ pad 2 ((s `div` 60) `mod` 60) ++ [x3a] ++ pad 2 (s `mod` 60) ++
     trim_zeros 10 9 (nsec t) ++
     (if off t =? 0 then [x5a]
      else (if zone <? 0 then [x2d] else [x2b]) ++ pad 2 (za `div` 60) ++ [x3a] ++ pad 2 (za `mod` 60))).

Example rfc3339_ex :
  rfc3339 (MkTime (1709210096 + unix_epoch) 120000000 (-19800)) =
    Some (str_bytes "2024-02-29T07:04:56.12-05:30").
Proof. reflexivity. Qed.

Example rfc3339_zero : rfc3339 zero_time = Some (str_bytes "0001-01-01T00:00:00Z").
Proof. reflexivity. Qed.

(** ** Comparisons *)

Lemma Before_spec t u : Before t u = true ↔ instant t < instant u.
Proof. unfold Before. apply Z.ltb_lt. Qed.
Lemma After_spec t u : After t u = true ↔ instant u < instant t.
Proof. unfold After. apply Z.ltb_lt. Qed.
Lemma not_Before t u : negb (Before t u) = true ↔ instant u ≤ instant t.
Proof. unfold Before. rewrite negb_true_iff. apply Z.ltb_ge. Qed.
Lemma not_After t u : negb (After t u) = true ↔ instant t ≤ instant u.
Proof. unfold After. rewrite negb_true_iff. apply Z.ltb_ge. Qed.

End GoTime.
