(* ===== verification/Canonical.v ===== *)
(** * The [canonical] package: JCS bytes and canonical hashes

    A translation of src/canonical/canonical.go.  [json] is the data model
    [json.Decoder] produces with [UseNumber]: number literals stay text.  A Go
    value enters as the tree its [json.Marshal] output decodes to (class
    [ToJSON]); string contents pass through [sanitize] on the way, since
    [encoding/json] replaces every invalid UTF-8 byte by U+FFFD.  The standard
    library's UTF-8 and UTF-16 codecs and its conversions between decimal
    literals and [float64] are written out.  The CBOR branch calls a third-party
    encoder, the class [CborLib]. *)
From Stdlib Require Import SpecFloat.
From stdpp Require Import sorting.
From S2P Require Import Prelude Sha256.
#[local] Open Scope Z_scope.

Module Canonical.

Inductive error : Type :=
| ErrNonFiniteNumber
| ErrUnknownEncoding
| ErrLossyNumber
| ErrNumberSyntax
| ErrMarshal.

Inductive Encoding : Type := EncodingJSON | EncodingCBOR | OtherEncoding (n : Z).

Inductive json : Type :=
| JNull
| JBool (b : bool)
| JNum (lit : bytes)
| JStr (s : bytes)
| JArr (l : list json)
| JObj (m : list (bytes * json)).

(** ** UTF-8 and UTF-16 *)

Definition in_range (lo hi : Z) (b : byte) : bool := (lo <=? b2z b) && (b2z b <=? hi).
Definition cont (b : byte) : Z := Z.land (b2z b) 0x3f.

(** One step of [for _, r := range s]: the rune and its width; an invalid byte
    yields U+FFFD and width one. *)
Definition rune_error : Z := 0xfffd.
Definition decode_rune (b : byte) (s : bytes) : Z * nat :=
  let c := b2z b in
  let bad := (rune_error, 1%nat) in
  if c <? 0x80 then (c, 1%nat)
  else if in_range 0xc2 0xdf b then
    match s with
    | b1 :: _ => if in_range 0x80 0xbf b1 then (Z.land c 0x1f * 64 + cont b1, 2%nat) else bad
    | _ => bad
    end
  else if in_range 0xe0 0xef b then
    match s with
    | b1 :: b2 :: _ =>
        let lo := if c =? 0xe0 then 0xa0 else 0x80 in
        let hi := if c =? 0xed then 0x9f else 0xbf in
        if in_range lo hi b1 && in_range 0x80 0xbf b2
        then (Z.land c 0x0f * 4096 + cont b1 * 64 + cont b2, 3%nat) else bad
    | _ => bad
    end
  else if in_range 0xf0 0xf4 b then
    match s with
    | b1 :: b2 :: b3 :: _ =>
        let lo := if c =? 0xf0 then 0x90 else 0x80 in
        let hi := if c =? 0xf4 then 0x8f else 0xbf in
        if in_range lo hi b1 && in_range 0x80 0xbf b2 && in_range 0x80 0xbf b3
        then (Z.land c 0x07 * 262144 + cont b1 * 4096 + cont b2 * 64 + cont b3, 4%nat) else bad
    | _ => bad
    end
  else bad.

Fixpoint runes_from (fuel : nat) (s : bytes) : list Z :=
  match fuel, s with
  | S f, b :: s' => let '(r, w) := decode_rune b s' in r :: runes_from f (drop (w - 1) s')
  | _, _ => []
  end.

(** [[]rune(s)]: every step consumes a byte, so the length is fuel enough. *)
Definition runes (s : bytes) : list Z := runes_from (length s) s.

(** [buf.WriteRune] on a rune that [range] produced. *)
Definition encode_rune (r : Z) : bytes :=
  if r <? 0x80 then [z2b r]
  else if r <? 0x800 then [z2b (0xc0 + r `div` 64); z2b (0x80 + r `mod` 64)]
  else if r <? 0x10000 then
    [z2b (0xe0 + r `div` 4096); z2b (0x80 + (r `div` 64) `mod` 64); z2b (0x80 + r `mod` 64)]
  else [z2b (0xf0 + r `div` 262144); z2b (0x80 + (r `div` 4096) `mod` 64);
        z2b (0x80 + (r `div` 64) `mod` 64); z2b (0x80 + r `mod` 64)].

(** What [json.Marshal] then [Decode] make of a string. *)
Definition sanitize (s : bytes) : bytes := mjoin (encode_rune <$> runes s).

(** [utf16.Encode]. *)
Definition utf16_units (r : Z) : list Z :=
  if 0x10000 <=? r then [0xd800 + (r - 0x10000) `div` 1024; 0xdc00 + (r - 0x10000) `mod` 1024] else [r].
Definition utf16 (s : bytes) : list Z := mjoin (utf16_units <$> runes s).

Definition hasSupplementary (s : bytes) : bool := existsb (λ r, 0x10000 <=? r) (runes s).

(** [for i := 0; i < len(ua) && i < len(ub); i++], then the lengths. *)
Fixpoint units_less (ua ub : list Z) : bool :=
  match ua, ub with
  | a :: ua', b :: ub' => if negb (a =? b) then a <? b else units_less ua' ub'
  | [], _ :: _ => true
  | _, [] => false
  end.

Definition jcsKeyLess (a b : bytes) : bool :=
  if negb (hasSupplementary a) && negb (hasSupplementary b) then bytes_ltb a b
  else units_less (utf16 a) (utf16 b).

(** ** Strings *)

Definition escape_rune (r : Z) : bytes :=
  if r =? 0x22 then [x5c; x22]
  else if r =? 0x5c then [x5c; x5c]
  else if r =? 0x08 then [x5c; x62]
  else if r =? 0x0c then [x5c; x66]
  else if r =? 0x0a then [x5c; x6e]
  else if r =? 0x0d then [x5c; x72]
  else if r =? 0x09 then [x5c; x74]
  else if r <? 0x20 then
    [x5c; x75; x30; x30; hex_digit (r `div` 16); hex_digit (r `mod` 16)]
  else encode_rune r.

Definition appendJCSString (s : bytes) : bytes :=
  x22 :: mjoin (escape_rune <$> runes s) ++ [x22].

(** ** Numbers *)

Definition is_digit (b : byte) : bool := in_range 48 57 b.
Definition digit (b : byte) : Z := b2z b - 48.
Definition dec_value (ds : bytes) : Z := foldl (λ acc d, acc * 10 + digit d) 0 ds.

Fixpoint span_digits (s : bytes) : bytes * bytes :=
  match s with
  | c :: s' => if is_digit c then let '(d, r) := span_digits s' in (c :: d, r) else ([], s)
  | [] => ([], [])
  end.

(** A decimal literal: sign, integer mantissa, power of ten. *)
Record decimal : Type := Dec { dneg : bool; dmant : Z; dexp : Z }.

Definition strip_sign (s : bytes) : bool * bytes :=
  match s with
  | c :: s' => if bool_decide (c = x2d) then (true, s') else (false, s)
  | [] => (false, [])
  end.

(** The exponent part: [e] or [E], an optional sign, digits. *)
Definition parse_exp (s : bytes) : option Z :=
  match s with
  | [] => Some 0
  | c :: s' =>
      if bool_decide (c = x65) || bool_decide (c = x45) then
        let '(neg, ds) := match s' with
                          | c' :: s'' => if bool_decide (c' = x2d) then (true, s'')
                                         else if bool_decide (c' = x2b) then (false, s'') else (false, s')
                          | [] => (false, [])
                          end in
        let '(d, rest) := span_digits ds in
        match d, rest with
        | _ :: _, [] => Some (if (neg : bool) then - dec_value d else dec_value d)
        | _, _ => None
        end
      else None
  end.

Definition parse_decimal (lit : bytes) : option decimal :=
  let '(neg, s) := strip_sign lit in
  let '(ip, s1) := span_digits s in
  match ip with
  | [] => None
  | _ :: _ =>
      match s1 with
      | c :: s2 =>
          if bool_decide (c = x2e) then
            let '(fp, s3) := span_digits s2 in
            match fp with
            | [] => None
            | _ :: _ => e ← parse_exp s3; Some (Dec neg (dec_value (ip ++ fp)) (e - zlen fp))
            end
          else e ← parse_exp s1; Some (Dec neg (dec_value ip) e)
      | [] => Some (Dec neg (dec_value ip) 0)
      end
  end.

#[global] Instance spec_float_eq_dec : EqDecision spec_float.
Proof. solve_decision. Defined.

(** Round the positive rational [n/d] to the nearest double, ties to even:
    [2^e] units with at most 53 significant bits and [e >= -1074]. *)
Definition quot_at (n d e : Z) : Z * Z * Z :=
  let n' := if e <? 0 then n * 2 ^ (- e) else n in
  let d' := if e <? 0 then d else d * 2 ^ e in
  (n' `div` d', n' `mod` d', d').

Definition round_rat (neg : bool) (n d : Z) : spec_float :=
  let e0 := Z.max (Z.log2 n - Z.log2 d - 53) (-1074) in
  let '(q0, _, _) := quot_at n d e0 in
  let e := if 2 ^ 53 <=? q0 then e0 + 1 else e0 in
  let '(q, r, d') := quot_at n d e in
  let m0 := if (d' <? 2 * r) || ((d' =? 2 * r) && Z.odd q) then q + 1 else q in
  let m := if m0 =? 2 ^ 53 then 2 ^ 52 else m0 in
  let e' := if m0 =? 2 ^ 53 then e + 1 else e in
  match m with
  | Zpos p => if 971 <? e' then S754_infinity neg else S754_finite neg p e'
  | _ => S754_zero neg
  end.

(** The magnitude of [m * 10^e] is settled without computing the power when it
    is far outside the range of doubles; [dmant] has fewer decimal digits than
    binary ones. *)
Definition float_of_decimal (x : decimal) : spec_float :=
  if dmant x =? 0 then S754_zero (dneg x)
  else if 400 <? dexp x then S754_infinity (dneg x)
  else if Z.log2 (dmant x) + 1 + dexp x <? -400 then S754_zero (dneg x)
  else if 0 <=? dexp x then round_rat (dneg x) (dmant x * 10 ^ dexp x) 1
  else round_rat (dneg x) (dmant x) (10 ^ (- dexp x)).

(** [strconv.ParseFloat(lit, 64)] with [ErrRange] ignored: an overflow is an
    infinity, an underflow a zero. *)
Definition ParseFloat (lit : bytes) : option spec_float := float_of_decimal <$> parse_decimal lit.

Definition isIntegerLiteral (lit : bytes) : bool :=
  let s := (strip_sign lit).2 in
  negb (length s =? 0)%nat && forallb is_digit s.

(** [new(big.Int).SetString(lit, 10)] on an integer literal. *)
Definition int_value (lit : bytes) : Z :=
  let '(neg, s) := strip_sign lit in if neg then - dec_value s else dec_value s.

(** [big.Rat.SetFloat64(f)] compared with an integer; [nil] for a non-finite [f]. *)
Definition float_is_int (f : spec_float) (i : Z) : bool :=
  match f with
  | S754_zero _ => i =? 0
  | S754_finite neg m e =>
      let v := if neg then Zneg m else Zpos m in
      if 0 <=? e then v * 2 ^ e =? i else v =? i * 2 ^ (- e)
  | _ => false
  end.

Definition is_finite (f : spec_float) : bool :=
  match f with S754_zero _ | S754_finite _ _ _ => true | _ => false end.

Definition checkedNumber (lit : bytes) : outcome error spec_float :=
  match ParseFloat lit with
  | None => Err ErrNumberSyntax
  | Some f =>
      if isIntegerLiteral lit && negb (float_is_int f (int_value lit)) then Err ErrLossyNumber
      else if negb (is_finite f) then Err ErrNonFiniteNumber
      else Ok f
  end.

(** The value of a positive double as a fraction. *)
Definition float_frac (m : positive) (e : Z) : Z * Z :=
  if 0 <=? e then (Zpos m * 2 ^ e, 1) else (Zpos m, 2 ^ (- e)).

(** [floor(log10(n/d))], from an estimate that is at most one too small. *)
Definition le_pow10 (n d x : Z) : bool := if 0 <=? x then 10 ^ x * d <=? n else d <=? n * 10 ^ (- x).
Fixpoint log10_up (fuel : nat) (n d x : Z) : Z :=
  match fuel with
  | O => x
  | S f => if le_pow10 n d (x + 1) then log10_up f n d (x + 1) else x
  end.
Definition log10_floor (n d : Z) : Z :=
  log10_up 3 n d (((Z.log2 n - Z.log2 d - 1) * 30103) `div` 100000 - 1).

(** The decimal with [k] significant digits next to [n/d] that reads back as the
    double, the closer one if both neighbours do. *)
Definition try_digits (m : positive) (e : Z) (n d x : Z) (k : nat) : option (Z * Z) :=
  let u := x - Z.of_nat k + 1 in
  let num := if u <? 0 then n * 10 ^ (- u) else n in
  let den := if u <? 0 then d else d * 10 ^ u in
  let lo := num `div` den in
  let rem := num `mod` den in
  let back t := bool_decide (float_of_decimal (Dec false t u) = S754_finite false m e) in
  let up := if (2 * rem <? den) || ((2 * rem =? den) && Z.even lo) then false else true in
  if back lo && back (lo + 1) then Some (if (up : bool) then lo + 1 else lo, u)
  else if back lo then Some (lo, u)
  else if back (lo + 1) then Some (lo + 1, u)
  else None.

Fixpoint shortest_from (fuel k : nat) (m : positive) (e n d x : Z) : option (Z * Z) :=
  match fuel with
  | O => None
  | S f => match try_digits m e n d x k with
           | Some r => Some r
           | None => shortest_from f (S k) m e n d x
           end
  end.

(** Decimal digits without leading zeros. *)
Fixpoint digits_of (fuel : nat) (n : Z) : bytes :=
  match fuel with
  | O => []
  | S f => if n =? 0 then [] else digits_of f (n `div` 10) ++ [z2b (48 + n `mod` 10)]
  end.

Fixpoint trim10 (fuel : nat) (t u : Z) : Z * Z :=
  match fuel with
  | O => (t, u)
  | S f => if t `mod` 10 =? 0 then trim10 f (t `div` 10) (u + 1) else (t, u)
  end.

(** [strconv.FormatFloat(f, 'e', -1, 64)]: the digits and the decimal exponent
    of the first.  Seventeen digits tell any two doubles apart. *)
Definition shortest_digits (m : positive) (e : Z) : option (bytes * Z) :=
  let '(n, d) := float_frac m e in
  r ← shortest_from 17 1 m e n d (log10_floor n d);
  let '(t, u) := trim10 17 r.1 r.2 in
  let ds := digits_of 18 t in
  Some (ds, u + zlen ds - 1).

(** [strconv.Itoa] of a natural number. *)
Definition itoa (n : Z) : bytes := if n =? 0 then [x30] else digits_of 20 n.

Definition appendJCSNumber (f : spec_float) : outcome error bytes :=
  match f with
  | S754_nan | S754_infinity _ => Err ErrNonFiniteNumber
  | S754_zero _ => Ok [x30]
  | S754_finite neg m e =>
      match shortest_digits m e with
      | None => OutOfFuel
      | Some (digits, exp) =>
          let k := zlen digits in
          let n := exp + 1 in
          let zeros j := replicate (Z.to_nat j) x30 in
          let body :=
            if (k <=? n) && (n <=? 21) then digits ++ zeros (n - k)
            else if (0 <? n) && (n <=? 21) then
              take (Z.to_nat n) digits ++ [x2e] ++ drop (Z.to_nat n) digits
            else if (-6 <? n) && (n <=? 0) then [x30; x2e] ++ zeros (- n) ++ digits
            else
              take 1 digits ++ (if 1 <? k then x2e :: drop 1 digits else []) ++ [x65] ++
              (if 0 <=? n - 1 then [x2b] else [x2d]) ++ itoa (Z.abs (n - 1)) in
          Ok ((if neg then [x2d] else []) ++ body)
      end
  end.

(** ** appendJCS *)

Definition key_le {A} (a b : bytes * A) : Prop := jcsKeyLess b.1 a.1 = false.
#[global] Instance key_le_dec A : RelDecision (@key_le A).
Proof. intros a b. unfold key_le. apply _. Defined.

(** The elements separated by commas. *)
Fixpoint commas (l : list bytes) : bytes :=
  match l with
  | [] => []
  | [b] => b
  | b :: l' => b ++ x2c :: commas l'
  end.

(** Keys of a Go map are distinct, so sorting the keys and looking each one up
    visits the members in the order of the sorted pairs; the first failing
    member in that order decides the error. *)
Fixpoint appendJCS (v : json) : outcome error bytes :=
  match v with
  | JNull => Ok (str_bytes "null")
  | JBool true => Ok (str_bytes "true")
  | JBool false => Ok (str_bytes "false")
  | JNum lit => f ← checkedNumber lit; appendJCSNumber f
  | JStr s => Ok (appendJCSString s)
  | JArr l =>
      bs ← each (λ _ m, m) 0 (appendJCS <$> l);
      Ok (x5b :: commas bs ++ [x5d])
  | JObj m =>
      let members := merge_sort key_le ((λ kv, (kv.1, appendJCS kv.2)) <$> m) in
      bs ← each (λ _ kv, b ← kv.2; Ok (appendJCSString kv.1 ++ x3a :: b)) 0 members;
      Ok (x7b :: commas bs ++ [x7d])
  end.

(** ** Marshal and CanonicalHash *)

(** The tree a Go value's [json.Marshal] output decodes to, or its error. *)
Class ToJSON (T : Type) : Type := to_json : T → outcome error json.
(** [EncodingDeclarer]; a type without the method is [None]. *)
Class Declares (T : Type) : Type := declared : option Encoding.
(** The third-party CBOR encoder on an arbitrary value. *)
Class CborLib : Type := cbor_marshal : ∀ T : Type, T → outcome error bytes.

Section Ops.
Context `{!Hasher} `{!CborLib}.

Definition JSONCanonicalize `{!ToJSON T} (v : T) : outcome error bytes :=
  tree ← to_json v; appendJCS tree.

Definition CBOREncode {T} (v : T) : outcome error bytes := cbor_marshal T v.

Definition Marshal `{!ToJSON T} (v : T) (enc : Encoding) : outcome error bytes :=
  match enc with
  | EncodingJSON => JSONCanonicalize v
  | EncodingCBOR => CBOREncode v
  | OtherEncoding _ => Err ErrUnknownEncoding
  end.

Definition CanonicalHash `{!ToJSON T} `{!Declares T} (v : T) : outcome error array32 :=
  b ← Marshal v (default EncodingJSON (declared (T := T)));
  Ok (Sum b).

End Ops.

(** ** JSON of the Go types trust objects are made of *)

Definition jstr (s : string) : json := JStr (sanitize (str_bytes s)).
Definition jint (n : Z) : json := JNum ((if n <? 0 then [x2d] else []) ++ itoa (Z.abs n)).

End Canonical.
