(* ===== verification/CanonicalProofs.v ===== *)
(** * Canonical JSON: order and determinism

    Decoding and encoding of UTF-8 are inverse on valid text, the fast path of
    the key order is the UTF-16 order, canonical bytes do not depend on the order
    in which an object's members are visited, and canonicalization is not
    idempotent on large integers. *)
From Stdlib Require Import SpecFloat.
From stdpp Require Import sorting.
From S2P Require Import Prelude Sha256 Canonical.
Import Canonical.
#[local] Open Scope Z_scope.

(** ** UTF-8 *)

(** A Unicode scalar value. *)
Definition rune_ok (r : Z) : Prop := 0 ≤ r ≤ 0x10ffff ∧ ¬ (0xd800 ≤ r ≤ 0xdfff).

Lemma in_range_spec lo hi b : in_range lo hi b = true ↔ lo ≤ b2z b ≤ hi.
Proof. unfold in_range. rewrite andb_true_iff, !Z.leb_le. done. Qed.

Lemma land_ones_mod z n : 0 ≤ n → Z.land z (2 ^ n - 1) = z `mod` 2 ^ n.
Proof. intros Hn. rewrite <- Z.land_ones by done. by rewrite Z.ones_equiv, Z.sub_1_r. Qed.

Lemma cont_mod b : cont b = b2z b `mod` 64.
Proof. apply (land_ones_mod (b2z b) 6). lia. Qed.

(** Rewrite the masks to remainders and split on the tests. *)
#[local] Ltac masks :=
  rewrite ?cont_mod;
  repeat match goal with
  | |- context [Z.land ?z 0x1f] => change (Z.land z 0x1f) with (Z.land z (2 ^ 5 - 1)); rewrite (land_ones_mod z 5) by lia
  | |- context [Z.land ?z 0x0f] => change (Z.land z 0x0f) with (Z.land z (2 ^ 4 - 1)); rewrite (land_ones_mod z 4) by lia
  | |- context [Z.land ?z 0x07] => change (Z.land z 0x07) with (Z.land z (2 ^ 3 - 1)); rewrite (land_ones_mod z 3) by lia
  end.

Lemma rune_error_ok : rune_ok rune_error.
Proof. unfold rune_ok, rune_error. lia. Qed.

Lemma decode_rune_ok b s : rune_ok (decode_rune b s).1.
Proof.
  unfold decode_rune. pose proof (b2z_range b). destruct (Z.ltb_spec (b2z b) 0x80); [cbn; unfold rune_ok; lia|].
  destruct (in_range 0xc2 0xdf b) eqn:E2.
  { apply in_range_spec in E2. destruct s as [|b1 s]; [apply rune_error_ok|].
    destruct (in_range _ _ b1); [|apply rune_error_ok]. cbn [fst]. masks. unfold rune_ok. div_lia. }
  destruct (in_range 0xe0 0xef b) eqn:E3.
  { apply in_range_spec in E3. destruct s as [|b1 [|b2 s]]; try apply rune_error_ok.
    destruct (in_range _ _ b1 && in_range _ _ b2) eqn:Ec; [|apply rune_error_ok]. cbn [fst].
    rewrite andb_true_iff, !in_range_spec in Ec. masks. unfold rune_ok.
    destruct (Z.eqb_spec (b2z b) 0xe0), (Z.eqb_spec (b2z b) 0xed); div_lia. }
  destruct (in_range 0xf0 0xf4 b) eqn:E4; [|apply rune_error_ok].
  apply in_range_spec in E4. destruct s as [|b1 [|b2 [|b3 s]]]; try apply rune_error_ok.
  destruct (in_range _ _ b1 && in_range _ _ b2 && in_range _ _ b3) eqn:Ec; [|apply rune_error_ok]. cbn [fst].
  rewrite !andb_true_iff, !in_range_spec in Ec. masks. unfold rune_ok.
  destruct (Z.eqb_spec (b2z b) 0xf0), (Z.eqb_spec (b2z b) 0xf4); div_lia.
Qed.

Lemma runes_from_ok fuel s : Forall rune_ok (runes_from fuel s).
Proof.
  revert s. induction fuel as [|fuel IH]; intros [|b s]; cbn [runes_from]; try constructor.
  pose proof (decode_rune_ok b s). destruct (decode_rune b s) as [r w]. by constructor.
Qed.
Lemma runes_ok s : Forall rune_ok (runes s).
Proof. apply runes_from_ok. Qed.

Lemma runes_from_fuel fuel fuel' s : (length s ≤ fuel)%nat → (length s ≤ fuel')%nat →
  runes_from fuel s = runes_from fuel' s.
Proof.
  revert fuel' s. induction fuel as [|fuel IH]; intros fuel' [|b s] H1 H2; cbn [length] in *; try lia.
  - by destruct fuel'.
  - done || (by destruct fuel').
  - destruct fuel' as [|fuel']; [lia|]. cbn [runes_from]. destruct (decode_rune b s) as [r w]. f_equal.
    apply IH; rewrite length_drop; lia.
Qed.

(** The remainders the masks leave. *)
Lemma low_bits n k m c : n = k * m → 0 ≤ c < m → (n + c) `mod` m = c.
Proof. intros -> Hc. rewrite Z.add_comm, Z_mod_plus_full. by apply Z.mod_small. Qed.

#[local] Ltac tests :=
  repeat match goal with |- context [?a =? ?b] => destruct (Z.eqb_spec a b); try lia end;
  repeat match goal with
  | |- context [?a <=? ?b] => destruct (Z.leb_spec a b); try lia
  | |- context [?a <? ?b] => destruct (Z.ltb_spec a b); try lia
  end; cbn [andb].

Lemma decode_two a c s : 2 ≤ a < 32 → 0 ≤ c < 64 →
  decode_rune (z2b (0xc0 + a)) (z2b (0x80 + c) :: s) = (a * 64 + c, 2%nat).
Proof.
  intros Ha Hc. unfold decode_rune, in_range. masks. rewrite !b2z_z2b_small by lia.
  rewrite (low_bits 0x80 2 64 c), (low_bits 0xc0 6 (2 ^ 5) a) by lia.
  by tests.
Qed.

Lemma decode_three a b c s : 0 ≤ a < 16 → 0 ≤ b < 64 → 0 ≤ c < 64 → 0x800 ≤ a * 4096 + b * 64 + c →
  ¬ (0xd800 ≤ a * 4096 + b * 64 + c ≤ 0xdfff) →
  decode_rune (z2b (0xe0 + a)) (z2b (0x80 + b) :: z2b (0x80 + c) :: s) = (a * 4096 + b * 64 + c, 3%nat).
Proof.
  intros Ha Hb Hc Hr Hs. unfold decode_rune, in_range. masks. rewrite !b2z_z2b_small by lia.
  rewrite (low_bits 0x80 2 64 b), (low_bits 0x80 2 64 c),
    (low_bits 0xe0 14 (2 ^ 4) a) by lia.
  by tests.
Qed.

Lemma decode_four a b c d s : 0 ≤ a < 8 → 0 ≤ b < 64 → 0 ≤ c < 64 → 0 ≤ d < 64 →
  0x10000 ≤ a * 262144 + b * 4096 + c * 64 + d ≤ 0x10ffff →
  decode_rune (z2b (0xf0 + a)) (z2b (0x80 + b) :: z2b (0x80 + c) :: z2b (0x80 + d) :: s) =
    (a * 262144 + b * 4096 + c * 64 + d, 4%nat).
Proof.
  intros Ha Hb Hc Hd Hr. unfold decode_rune, in_range. masks. rewrite !b2z_z2b_small by lia.
  rewrite (low_bits 0x80 2 64 b), (low_bits 0x80 2 64 c),
    (low_bits 0x80 2 64 d), (low_bits 0xf0 30 (2 ^ 3) a) by lia.
  by tests.
Qed.

(** Decoding what [WriteRune] wrote. *)
Lemma decode_encode r : rune_ok r →
  ∃ b rest, encode_rune r = b :: rest ∧ ∀ s, decode_rune b (rest ++ s) = (r, S (length rest)).
Proof.
  intros [Hr Hs]. unfold encode_rune.
  destruct (Z.ltb_spec r 0x80); [|destruct (Z.ltb_spec r 0x800); [|destruct (Z.ltb_spec r 0x10000)]];
    eexists _, _; (split; [reflexivity|]); intros s; cbn [app length].
  - unfold decode_rune. rewrite !b2z_z2b_small by lia. by destruct (Z.ltb_spec r 0x80); [|lia].
  - rewrite decode_two by div_lia. f_equal. div_lia.
  - rewrite decode_three by div_lia. f_equal. div_lia.
  - rewrite decode_four by div_lia. f_equal. div_lia.
Qed.

(** The UTF-8 encoding of a sequence of runes. *)
Definition enc (l : list Z) : bytes := mjoin (encode_rune <$> l).

Lemma runes_encode l : Forall rune_ok l → runes (enc l) = l.
Proof.
  induction 1 as [|r l Hr _ IH]; [done|]. unfold runes, enc in *. cbn [fmap list_fmap mjoin list_join].
  destruct (decode_encode r Hr) as (b & rest & -> & Hd). cbn [app length runes_from]. rewrite Hd. f_equal.
  cbn [Nat.sub]. rewrite Nat.sub_0_r, drop_app_length, length_app.
  etransitivity; [|exact IH]. apply runes_from_fuel; [apply Nat.le_add_l|reflexivity].

Qed.

Lemma runes_sanitize s : runes (sanitize s) = runes s.
Proof. apply runes_encode, runes_ok. Qed.

(** Valid UTF-8. *)
Definition valid_text (s : bytes) : Prop := sanitize s = s.

Lemma sanitize_valid s : valid_text (sanitize s).
Proof. unfold valid_text. unfold sanitize at 1. by rewrite runes_sanitize. Qed.

(** ** The order of keys *)

Definition bmp (r : Z) : Prop := rune_ok r ∧ r < 0x10000.

Lemma bytes_compare_app p a b : bytes_compare (p ++ a) (p ++ b) = bytes_compare a b.
Proof. induction p as [|x p IH]; [done|]. cbn. by rewrite Z.compare_refl. Qed.

Lemma bytes_compare_head x y a b : b2z x < b2z y → bytes_compare (x :: a) (y :: b) = Lt.
Proof. intros Hl. cbn. by rewrite (proj2 (Z.compare_lt_iff _ _) Hl). Qed.

(** The encoding preserves the order of runes, whatever follows. *)
Lemma encode_order r s x y : bmp r → bmp s → r < s →
  bytes_compare (encode_rune r ++ x) (encode_rune s ++ y) = Lt.
Proof.
  intros [[Hr _] Hr'] [[Hs _] Hs'] Hlt. unfold encode_rune.
  destruct (Z.ltb_spec r 0x80), (Z.ltb_spec s 0x80); try lia;
  destruct (Z.ltb_spec r 0x800), (Z.ltb_spec s 0x800); try lia;
  destruct (Z.ltb_spec r 0x10000), (Z.ltb_spec s 0x10000); try lia; cbn [app];
    try (apply bytes_compare_head; rewrite !b2z_z2b_small by div_lia; div_lia).
  - cbn [bytes_compare]. rewrite !b2z_z2b_small by div_lia.
    destruct (Z.compare_spec (0xc0 + r `div` 64) (0xc0 + s `div` 64)); [|done|div_lia].
    destruct (Z.compare_spec (0x80 + r `mod` 64) (0x80 + s `mod` 64)); [div_lia|done|div_lia].
  - cbn [bytes_compare]. rewrite !b2z_z2b_small by div_lia.
    destruct (Z.compare_spec (0xe0 + r `div` 4096) (0xe0 + s `div` 4096)); [|done|div_lia].
    destruct (Z.compare_spec (0x80 + (r `div` 64) `mod` 64) (0x80 + (s `div` 64) `mod` 64)); [|done|div_lia].
    destruct (Z.compare_spec (0x80 + r `mod` 64) (0x80 + s `mod` 64)); [div_lia|done|div_lia].
Qed.

Lemma enc_order l k : Forall bmp l → Forall bmp k → bytes_ltb (enc l) (enc k) = units_less l k.
Proof.
  intros Hl. revert k. induction Hl as [|r l Hr Hl IH]; intros k Hk.
  - destruct Hk as [|s k [Hs _] Hk]; [done|]. unfold enc. cbn.
    by destruct (decode_encode s Hs) as (b & rest & -> & _).
  - destruct Hk as [|s k Hs Hk].
    { unfold enc. cbn. by destruct (decode_encode r (proj1 Hr)) as (b & rest & -> & _). }
    cbn [units_less]. destruct (Z.eqb_spec r s) as [->|Hne]; cbn [negb].
    { rewrite <- IH by done. unfold bytes_ltb, enc. cbn [fmap list_fmap mjoin list_join].
      by rewrite bytes_compare_app. }
    unfold bytes_ltb, enc. cbn [fmap list_fmap mjoin list_join]. destruct (Z.ltb_spec r s) as [Hlt|Hge].
    + by rewrite encode_order.
    + by rewrite bytes_compare_antisym, encode_order by (done || lia).
Qed.

Lemma no_supplementary s : hasSupplementary s = false → Forall bmp (runes s) ∧ utf16 s = runes s.
Proof.
  unfold hasSupplementary, utf16. pose proof (runes_ok s) as Hok. induction Hok as [|r l Hr _ IH]; [done|].
  cbn. rewrite orb_false_iff. intros [H1 H2]. destruct (IH H2) as [I1 I2]. unfold utf16_units at 1. rewrite H1.
  apply Z.leb_gt in H1. split; [by constructor|]. cbn. by f_equal.
Qed.

Lemma jcsKeyLess_units a b : valid_text a → valid_text b → jcsKeyLess a b = units_less (utf16 a) (utf16 b).
Proof.
  intros Ha Hb. unfold jcsKeyLess.
  destruct (hasSupplementary a) eqn:Ea, (hasSupplementary b) eqn:Eb; try done. cbn [negb andb].
  apply no_supplementary in Ea as [Ha' ->]. apply no_supplementary in Eb as [Hb' ->].
  rewrite <- enc_order by done. change (enc (runes a)) with (sanitize a). change (enc (runes b)) with (sanitize b).
  by rewrite Ha, Hb.
Qed.

(** The two-path comparison of object keys is the order of UTF-16 code units
    that RFC 8785 requires: the fast path, byte order when neither key has a
    character beyond the basic plane, agrees with it on valid UTF-8. *)
Theorem jcsKeyLess_is_utf16 a b : valid_text a → valid_text b →
  jcsKeyLess a b = units_less (utf16 a) (utf16 b).
Proof. apply jcsKeyLess_units. Qed.

Lemma jcsKeyLess_is_utf16_witness :
  jcsKeyLess [xc3; xa9] [xf0; x9f; x98; x80] = units_less (utf16 [xc3; xa9]) (utf16 [xf0; x9f; x98; x80]).
Proof. apply jcsKeyLess_is_utf16; reflexivity. Defined.

(** ** Members in any order *)

Lemma units_less_trichotomy l k : units_less l k = false → units_less k l = false → l = k.
Proof.
  revert k. induction l as [|a l IH]; intros [|b k]; cbn; try done.
  destruct (Z.eqb_spec a b) as [->|Hne]; [rewrite Z.eqb_refl|rewrite (proj2 (Z.eqb_neq b a)) by done]; cbn [negb].
  - intros. f_equal. by apply IH.
  - rewrite !Z.ltb_ge. lia.
Qed.

Lemma units_less_asym l k : units_less l k = true → units_less k l = false.
Proof.
  revert k. induction l as [|a l IH]; intros [|b k]; cbn; try done.
  destruct (Z.eqb_spec a b) as [->|Hne]; [rewrite Z.eqb_refl|rewrite (proj2 (Z.eqb_neq b a)) by done]; cbn [negb].
  - apply IH.
  - rewrite Z.ltb_lt, Z.ltb_ge. lia.
Qed.

Lemma units_less_trans l k m : units_less k l = false → units_less m k = false → units_less m l = false.
Proof.
  revert k m. induction l as [|a l IH]; intros [|b k] [|c m]; cbn; try done.
  destruct (Z.eqb_spec b a), (Z.eqb_spec c b), (Z.eqb_spec c a); cbn [negb]; rewrite ?Z.ltb_ge; try lia. apply IH.
Qed.

Lemma utf16_inj a b : valid_text a → valid_text b → utf16 a = utf16 b → a = b.
Proof.
  intros Ha Hb Hu. rewrite <- Ha, <- Hb. unfold sanitize. f_equal. f_equal.
  unfold utf16 in Hu. pose proof (runes_ok b) as Hb'. pose proof (runes_ok a) as Ha'.
  revert Ha' Hb' Hu. generalize (runes b) as k, (runes a) as l. clear. intros k l Ha'. revert k.
  induction Ha' as [|r l [Hr Hs] _ IH]; intros k Hk; destruct Hk as [|s k [Hr' Hs'] Hk];
    [done| | |]; cbn; unfold utf16_units.
  - by destruct (0x10000 <=? s).
  - by destruct (0x10000 <=? r).
  - destruct (Z.leb_spec 0x10000 r), (Z.leb_spec 0x10000 s); cbn [app]; intros Hu; simplify_eq; try div_lia;
      rewrite (IH k Hk) by done; f_equal; div_lia.
Qed.

Definition units_le {A} (a b : bytes * A) : Prop := units_less (utf16 b.1) (utf16 a.1) = false.
#[local] Instance units_le_trans A : Transitive (@units_le A).
Proof. intros x y z. unfold units_le. apply units_less_trans. Qed.

#[local] Instance key_le_total A : Total (@key_le A).
Proof.
  intros [a x] [b y]. unfold key_le, jcsKeyLess. cbn [fst].
  rewrite (andb_comm (negb (hasSupplementary b))).
  destruct (negb (hasSupplementary a) && negb (hasSupplementary b)).
  - rewrite <- !negb_true_iff, <- !bytes_leb_ltb. apply bytes_leb_total.
  - destruct (units_less (utf16 b) (utf16 a)) eqn:E; [right; by apply units_less_asym|by left].
Qed.

Lemma Sorted_impl {A} (P : A → Prop) (R R' : relation A) l :
  (∀ x y, P x → P y → R x y → R' x y) → Forall P l → Sorted R l → Sorted R' l.
Proof.
  intros Himp HP Hs. induction Hs as [|x l Hs IH Hd]; [constructor|]. apply Forall_cons in HP as [Hx HP].
  constructor; [auto|]. destruct Hd as [|y l Hy]; constructor. apply Forall_cons in HP as [Hy' _]. auto.
Qed.

(** Sorting by key gives one list, whatever the order of the members. *)
Lemma sort_members_unique {A} (m m' : list (bytes * A)) :
  NoDup m.*1 → Forall valid_text m.*1 → m ≡ₚ m' → merge_sort key_le m = merge_sort key_le m'.
Proof.
  intros Hnd Hv Hp. rewrite list.Forall_fmap in Hv.
  assert (∀ l, l ≡ₚ m → StronglySorted units_le (merge_sort key_le l)) as Hs.
  { intros l Hl. apply Sorted_StronglySorted; [apply _|].
    eapply (Sorted_impl (valid_text ∘ fst)); [|by rewrite merge_sort_Permutation, Hl|apply Sorted_merge_sort, _].
    intros x y Hx Hy. unfold key_le, units_le. by rewrite jcsKeyLess_units. }
  apply (StronglySorted_unique_strong units_le); [|by apply Hs|by apply Hs|by rewrite !merge_sort_Permutation].
  intros [k1 v1] [k2 v2]. rewrite !merge_sort_Permutation, <- Hp. intros H1 H2 L1 L2.
  unfold units_le in L1, L2. cbn [fst] in L1, L2.
  rewrite list.Forall_forall in Hv. pose proof (Hv _ H1) as V1. pose proof (Hv _ H2) as V2. cbn in V1, V2.
  assert (k1 = k2) as -> by (apply utf16_inj; [done..|]; by apply units_less_trichotomy).
  apply list_elem_of_lookup in H1 as [i Hi]. apply list_elem_of_lookup in H2 as [j Hj].
  assert (i = j) as ->.
  { eapply (NoDup_lookup m.*1); [done|rewrite list_lookup_fmap, Hi; done|rewrite list_lookup_fmap, Hj; done]. }
  congruence.
Qed.

(** Canonical bytes do not depend on the order in which the members of an
    object are visited (Go's map iteration order, or the order of fields in the
    source text): any permutation of distinct, valid keys yields the same bytes or
    the same error. *)
Theorem appendJCS_member_order m m' : NoDup m.*1 → Forall valid_text m.*1 → m ≡ₚ m' →
  appendJCS (JObj m) = appendJCS (JObj m').
Proof.
  intros Hnd Hv Hp. cbn [appendJCS].
  rewrite (sort_members_unique ((λ kv, (kv.1, appendJCS kv.2)) <$> m) ((λ kv, (kv.1, appendJCS kv.2)) <$> m'));
    [done|by rewrite <- list_fmap_compose..|by rewrite Hp].
Qed.

Definition ex_members : list (bytes * json) :=
  [(str_bytes "b", JNull); (str_bytes "a", JNum [x31]); ([xf0; x9f; x98; x80], JBool true)].
Lemma appendJCS_member_order_witness :
  appendJCS (JObj ex_members) = appendJCS (JObj (reverse ex_members)).
Proof.
  apply appendJCS_member_order.
  - apply (bool_decide_unpack _). reflexivity.
  - repeat constructor; reflexivity.
  - symmetry. apply reverse_Permutation.
Defined.

(** ** Canonical output that is not canonicalizable *)

(** Canonicalization is not idempotent: the integer 2^60, which the comments
    give as an accepted number, canonicalizes to a literal that is itself rejected
    as lossy. *)
Theorem canonical_not_idempotent :
  ∃ b, appendJCS (jint (2 ^ 60)) = Ok b ∧ appendJCS (JNum b) = Err ErrLossyNumber.
Proof. exists (str_bytes "1152921504606847000"). split; vm_compute; reflexivity. Qed.
