(* ===== verification/CanonicalInjective.v ===== *)
(** * Canonical JSON is unambiguous

    Two documents with the same canonical bytes are the same document: same shape,
    same strings, same members, and numbers that canonicalize alike.  The proof
    reads the bytes back: a value's bytes followed by a delimiter determine the
    value. *)
From Stdlib Require Import SpecFloat.
From stdpp Require Import sorting.
From S2P Require Import Prelude Sha256 Canonical CanonicalProofs.
Import Canonical.
#[local] Open Scope Z_scope.

(** ** Documents up to the freedom JSON leaves *)

Definition number (lit : bytes) : outcome error bytes := f ← checkedNumber lit; appendJCSNumber f.

Inductive same : json → json → Prop :=
| same_null : same JNull JNull
| same_bool b : same (JBool b) (JBool b)
| same_num a b : number a = number b → same (JNum a) (JNum b)
| same_str s t : runes s = runes t → same (JStr s) (JStr t)
| same_arr l k : Forall2 same l k → same (JArr l) (JArr k)
| same_obj m m' k k' : m ≡ₚ m' → k ≡ₚ k' →
    Forall2 (λ x y, runes x.1 = runes y.1 ∧ same x.2 y.2) m' k' → same (JObj m) (JObj k).

Section json_ind.
Variable P : json → Prop.
Hypothesis PNull : P JNull.
Hypothesis PBool : ∀ b, P (JBool b).
Hypothesis PNum : ∀ l, P (JNum l).
Hypothesis PStr : ∀ s, P (JStr s).
Hypothesis PArr : ∀ l, Forall P l → P (JArr l).
Hypothesis PObj : ∀ m, Forall (λ kv : bytes * json, P kv.2) m → P (JObj m).

Fixpoint json_nested_ind (v : json) : P v :=
  match v with
  | JNull => PNull
  | JBool b => PBool b
  | JNum l => PNum l
  | JStr s => PStr s
  | JArr l => PArr l ((fix go (l : list json) : Forall P l := match l with
                                   | [] => @Forall_nil_2 _ P
                                   | x :: l' => @Forall_cons_2 _ P x l' (json_nested_ind x) (go l')
                                   end) l)
  | JObj m => PObj m ((fix go (m : list (bytes * json)) : Forall (λ kv : bytes * json, P kv.2) m :=
                         match m with
                         | [] => @Forall_nil_2 _ (λ kv : bytes * json, P kv.2)
                         | x :: m' => @Forall_cons_2 _ (λ kv : bytes * json, P kv.2) x m' (json_nested_ind x.2) (go m')
                         end) m)
  end.
End json_ind.

(** ** Strings *)

(** Read one rune of a JSON string body back; [None] at the closing quote. *)
Definition unescape (s : bytes) : option (Z * bytes) :=
  match s with
  | [] => None
  | c :: s' =>
      if bool_decide (c = x22) then None
      else if bool_decide (c = x5c) then
        match s' with
        | x22 :: t => Some (0x22, t)
        | x5c :: t => Some (0x5c, t)
        | x62 :: t => Some (0x08, t)
        | x66 :: t => Some (0x0c, t)
        | x6e :: t => Some (0x0a, t)
        | x72 :: t => Some (0x0d, t)
        | x74 :: t => Some (0x09, t)
        | x75 :: _ :: _ :: a :: b :: t => h ← hex_value a; l ← hex_value b; Some (16 * h + l, t)
        | _ => None
        end
      else let '(r, w) := decode_rune c s' in Some (r, drop (w - 1) s')
  end.

(** The first byte of a rune that is written as it is. *)
Lemma encode_rune_head r b rest : rune_ok r → encode_rune r = b :: rest →
  (r < 0x80 ∧ b2z b = r) ∨ (0x80 ≤ r ∧ 0x80 ≤ b2z b).
Proof.
  intros [Hr _]. unfold encode_rune.
  destruct (Z.ltb_spec r 0x80); [|destruct (Z.ltb_spec r 0x800); [|destruct (Z.ltb_spec r 0x10000)]];
    intros [= <- _]; rewrite b2z_z2b_small by div_lia; [left; lia|right; div_lia..].
Qed.

Lemma unescape_raw r s : rune_ok r → r ≠ 0x22 → r ≠ 0x5c → unescape (encode_rune r ++ s) = Some (r, s).
Proof.
  intros Hr H1 H2. destruct (decode_encode r Hr) as (b & rest & He & Hd).
  pose proof (encode_rune_head r b rest Hr He) as Hh. rewrite He. cbn [app unescape].
  rewrite !bool_decide_false.
  - rewrite Hd. cbn [Nat.sub]. by rewrite Nat.sub_0_r, drop_app_length.
  - intros ->. change (b2z x5c) with 0x5c in Hh. lia.
  - intros ->. change (b2z x22) with 0x22 in Hh. lia.
Qed.

Lemma unescape_escape r s : rune_ok r → unescape (escape_rune r ++ s) = Some (r, s).
Proof.
  intros Hr. unfold escape_rune.
  repeat match goal with |- context [r =? ?k] => destruct (Z.eqb_spec r k) as [->|]; [reflexivity|] end.
  destruct (Z.ltb_spec r 0x20); [|by apply unescape_raw]. destruct Hr as [Hr _].
  cbn [app unescape]. rewrite bool_decide_false, bool_decide_true by done.
  rewrite !hex_value_digit by div_lia. cbn [mbind option_bind]. do 2 f_equal. div_lia.
Qed.

Definition escaped (l : list Z) : bytes := mjoin (escape_rune <$> l).

Lemma escaped_inj l k x y : Forall rune_ok l → Forall rune_ok k →
  escaped l ++ x22 :: x = escaped k ++ x22 :: y → l = k ∧ x = y.
Proof.
  intros Hl. revert k. induction Hl as [|r l Hr Hl IH]; intros k Hk; destruct Hk as [|s k Hs Hk];
    unfold escaped; cbn [fmap list_fmap mjoin list_join]; rewrite <- ?app_assoc; intros He.
  - by injection He as <-.
  - apply (f_equal unescape) in He. by rewrite unescape_escape in He.
  - apply (f_equal unescape) in He. by rewrite unescape_escape in He.
  - apply (f_equal unescape) in He. rewrite !unescape_escape in He by done. injection He as -> He.
    destruct (IH k Hk He) as [-> ->]. done.
Qed.

Lemma appendJCSString_inj s t x y : appendJCSString s ++ x = appendJCSString t ++ y → runes s = runes t ∧ x = y.
Proof.
  unfold appendJCSString. cbn [app]. rewrite <- !app_assoc. intros He. injection He as He.
  by apply escaped_inj; [apply runes_ok..|].
Qed.

(** ** Numbers *)

(** The characters of a number. *)
Definition numchar (c : byte) : Prop :=
  48 ≤ b2z c ≤ 57 ∨ c = x2d ∨ c = x2b ∨ c = x2e ∨ c = x65.

Lemma numchar_zero : numchar x30.
Proof. left. vm_compute. split; discriminate. Qed.

Lemma digits_of_chars fuel n : Forall numchar (digits_of fuel n).
Proof.
  revert n. induction fuel as [|fuel IH]; intros n; cbn [digits_of]; [constructor|].
  destruct (n =? 0); [constructor|]. apply Forall_app. split; [done|]. constructor; [|constructor]. left.
  pose proof (Z.mod_pos_bound n 10 ltac:(lia)). rewrite b2z_z2b_small by lia. lia.
Qed.

Lemma digits_of_nonempty fuel n : 0 < n → digits_of (S fuel) n ≠ [].
Proof.
  intros Hn. cbn [digits_of]. destruct (Z.eqb_spec n 0); [lia|]. by destruct (digits_of fuel (n `div` 10)).
Qed.

Lemma try_digits_pos m e n d x k t u : 0 < n → 0 < d → try_digits m e n d x k = Some (t, u) → 0 < t.
Proof.
  intros Hn Hd. unfold try_digits.
  set (u0 := x - Z.of_nat k + 1). set (num := if u0 <? 0 then _ else _). set (den := if u0 <? 0 then _ else _).
  assert (0 ≤ num `div` den) as Hlo.
  { unfold num, den. destruct (Z.ltb_spec u0 0).
    - apply Z.div_pos; [|lia]. pose proof (Z.pow_nonneg 10 (- u0)). nia.
    - apply Z.div_pos; [lia|]. pose proof (Z.pow_pos_nonneg 10 u0). nia. }
  assert (∀ t, bool_decide (float_of_decimal (Dec false t u0) = S754_finite false m e) = true → 0 ≤ t → 0 < t) as Hback.
  { intros t' Hb Ht'. apply bool_decide_eq_true in Hb. destruct (Z.eq_dec t' 0) as [->|]; [discriminate|lia]. }
  cbv zeta. destruct (bool_decide (float_of_decimal (Dec false (num `div` den) u0) = _)) eqn:E1,
    (bool_decide (float_of_decimal (Dec false (num `div` den + 1) u0) = _)) eqn:E2; cbn [andb];
    intros Hr; try discriminate; injection Hr as <- <-; try (apply (Hback _ E1); lia); try lia.
  destruct (_ || _); [apply (Hback _ E1); lia|lia].
Qed.

Lemma shortest_from_pos fuel k m e n d x t u : 0 < n → 0 < d →
  shortest_from fuel k m e n d x = Some (t, u) → 0 < t.
Proof.
  intros Hn Hd. revert k. induction fuel as [|fuel IH]; intros k; cbn [shortest_from]; [discriminate|].
  destruct (try_digits m e n d x k) as [[t' u']|] eqn:Et; [|apply IH].
  intros Hr. injection Hr as -> ->. exact (try_digits_pos _ _ _ _ _ _ _ _ Hn Hd Et).
Qed.

Lemma trim10_pos fuel t u : 0 < t → 0 < (trim10 fuel t u).1.
Proof.
  revert t u. induction fuel as [|fuel IH]; intros t u Ht; cbn [trim10]; [done|].
  destruct (Z.eqb_spec (t `mod` 10) 0); [|done]. apply IH.
  pose proof (Z.div_mod t 10 ltac:(lia)). lia.
Qed.

Lemma shortest_digits_spec m e ds x : shortest_digits m e = Some (ds, x) → Forall numchar ds ∧ ds ≠ [].
Proof.
  unfold shortest_digits. destruct (float_frac m e) as [n d] eqn:Ef.
  assert (0 < n ∧ 0 < d) as [Hn Hd].
  { unfold float_frac in Ef. destruct (Z.leb_spec 0 e); injection Ef as <- <-.
    - pose proof (Z.pow_pos_nonneg 2 e). lia.
    - pose proof (Z.pow_pos_nonneg 2 (- e)). lia. }
  destruct (shortest_from _ _ _ _ _ _ _) as [[t u]|] eqn:Es; [|discriminate].
  apply shortest_from_pos in Es; [|done..]. cbn [mbind option_bind fst snd].
  pose proof (trim10_pos 17 t u Es). destruct (trim10 17 t u) as [t' u'].
  intros [<- _]%(inj Some)%pair_eq. split; [apply digits_of_chars|by apply digits_of_nonempty].
Qed.

Lemma itoa_chars n : Forall numchar (itoa n).
Proof. unfold itoa. destruct (n =? 0); [|apply digits_of_chars]. constructor; [apply numchar_zero|constructor]. Qed.

Lemma zero_chars n : Forall numchar (replicate n x30).
Proof. apply Forall_replicate, numchar_zero. Qed.

Lemma appendJCSNumber_chars f b : appendJCSNumber f = Ok b → Forall numchar b ∧ b ≠ [].
Proof.
  assert (numchar x2d ∧ numchar x2b ∧ numchar x2e ∧ numchar x65 ∧ numchar x30) as (N1 & N2 & N3 & N4 & N5).
  { unfold numchar. split_and!; auto 6. apply numchar_zero. }
  unfold appendJCSNumber. destruct f as [s| | |s m e]; try discriminate.
  { intros Hr. injection Hr as <-. split; [by repeat constructor|done]. }
  destruct (shortest_digits m e) as [[ds x]|] eqn:Ed; [|discriminate].
  apply shortest_digits_spec in Ed as [Hds Hne]. intros Hr. injection Hr as <-.
  assert (∀ body, Forall numchar body → body ≠ [] →
    Forall numchar ((if s then [x2d] else []) ++ body) ∧ (if s then [x2d] else []) ++ body ≠ []) as Hs.
  { intros body Hb Hne'. split; [apply Forall_app; split; [destruct s; by repeat constructor|done]|].
    by destruct s. }
  apply Hs; clear Hs; repeat case_match; rewrite ?Forall_app, ?Forall_cons, ?Forall_nil;
    split_and?; auto using Forall_take, Forall_drop, itoa_chars, zero_chars; try done;
    try (by destruct ds); try (by destruct (take _ ds));
    auto 8 using Forall_app_2, Forall_cons_2, Forall_nil_2, itoa_chars, zero_chars.
Qed.

(** ** Reading a value back *)

(** What can follow a value: nothing, a comma, or a closing bracket. *)
Definition closes (x : bytes) : Prop := head x = None ∨ head x = Some x2c ∨ head x = Some x5d ∨ head x = Some x7d.

Lemma closes_not_numchar c x : closes (c :: x) → ¬ numchar c.
Proof.
  intros [[=]|[[= ->]|[[= ->]|[= ->]]]]; (intros [Hd|[[=]|[[=]|[[=]|[=]]]]]; vm_compute in Hd; by destruct Hd).
Qed.

Lemma number_inj b b' x y : Forall numchar b → Forall numchar b' → closes x → closes y → b ++ x = b' ++ y → b = b'.
Proof.
  intros Hb. revert b'. induction Hb as [|c b Hc Hb IH]; intros b' Hb' Hx Hy He; destruct Hb' as [|c' b' Hc' Hb'].
  - done.
  - cbn [app] in He. subst x. by apply closes_not_numchar in Hx.
  - cbn [app] in He. subst y. by apply closes_not_numchar in Hy.
  - injection He as -> He. f_equal. by apply (IH b').
Qed.

(** The first byte tells the shape. *)
Definition shape_of (v : json) : Z :=
  match v with
  | JNull => 0 | JBool true => 1 | JBool false => 2 | JNum _ => 3 | JStr _ => 4 | JArr _ => 5 | JObj _ => 6
  end.
Definition shape (c : byte) : Z :=
  match c with x6e => 0 | x74 => 1 | x66 => 2 | x22 => 4 | x5b => 5 | x7b => 6 | x5d | x7d | x2c => 7 | _ => 3 end.

Lemma numchar_shape c : numchar c → shape c = 3.
Proof. destruct c; try reflexivity; intros [Hd|[[=]|[[=]|[[=]|[=]]]]]; vm_compute in Hd; by destruct Hd. Qed.

Lemma appendJCS_head v b : appendJCS v = Ok b → ∃ c r, b = c :: r ∧ shape c = shape_of v.
Proof.
  destruct v as [|[]|lit|s|l|m]; cbn [appendJCS].
  - intros Hr. injection Hr as <-. by eexists _, _.
  - intros Hr. injection Hr as <-. by eexists _, _.
  - intros Hr. injection Hr as <-. by eexists _, _.
  - destruct (checkedNumber lit) as [f| | |]; try discriminate. cbn [mbind outcome_bind].
    intros [Hc Hne]%appendJCSNumber_chars. destruct Hc as [|c r Hc _]; [done|]. exists c, r.
    split; [done|by apply numchar_shape].
  - intros Hr. injection Hr as <-. by eexists _, _.
  - destruct (each _ _ _); try discriminate. cbn [mbind outcome_bind]. intros Hr. injection Hr as <-. by eexists _, _.
  - destruct (each _ _ _); try discriminate. cbn [mbind outcome_bind]. intros Hr. injection Hr as <-. by eexists _, _.
Qed.

(** Comma-separated elements, each readable back, are readable back. *)
Lemma commas_inj {A} (Q : A → bytes → Prop) (R : A → A → Prop) close l bs k bs' x y :
  close = x5d ∨ close = x7d →
  (∀ a b, Q a b → ∃ c r, b = c :: r ∧ c ≠ close) →
  Forall (λ a, ∀ b a' b' x y, Q a b → Q a' b' → closes x → closes y → b ++ x = b' ++ y → R a a' ∧ b = b') l →
  Forall2 Q l bs → Forall2 Q k bs' → commas bs ++ close :: x = commas bs' ++ close :: y →
  Forall2 R l k ∧ x = y.
Proof.
  intros Hclose Hne Hl Hq. revert k bs'. induction Hq as [|a b l bs Ha Hq IH]; intros k bs' Hk He.
  - destruct Hk as [|a' b' k bs' Ha' Hk]; [by injection He as <-|].
    destruct (Hne a' b' Ha') as (c & r & -> & Hc). cbn in He. destruct bs'; cbn in He; congruence.
  - apply Forall_cons in Hl as [Hl1 Hl2]. destruct Hk as [|a' b' k bs' Ha' Hk].
    { destruct (Hne a b Ha) as (c & r & -> & Hc). destruct bs; cbn in He; congruence. }
    assert (∀ (b0 : bytes) bs0 z, commas (b0 :: bs0) ++ close :: z =
      b0 ++ match bs0 with [] => close :: z | _ => x2c :: commas bs0 ++ close :: z end) as Htail.
    { intros b0 [|b1 bs1] z; [done|]. change (commas (b0 :: b1 :: bs1)) with (b0 ++ x2c :: commas (b1 :: bs1)).
      by rewrite <- app_assoc. }
    rewrite !Htail in He.
    assert (∀ bs0 z, closes match bs0 with [] => close :: z | _ => x2c :: commas bs0 ++ close :: z end) as Hcl.
    { intros [|? ?] z; unfold closes; cbn [head]; destruct Hclose as [->| ->]; auto. }
    destruct (Hl1 b a' b' _ _ Ha Ha' (Hcl bs x) (Hcl bs' y) He) as [HR ->]. apply app_inv_head in He.
    destruct Hq as [|a2 b2 l bs Ha2 Hq], Hk as [|a3 b3 k bs' Ha3 Hk];
      try (injection He as ?; destruct Hclose; congruence).
    + injection He as ->. split; [|done]. by repeat constructor.
    + injection He as He. destruct (IH Hl2 (a3 :: k) (b3 :: bs')) as [HRs ->]; [by constructor|done|].
      split; [by constructor|done].
Qed.

(** The bytes of one member. *)
Definition member_bytes (kv : bytes * json) (b : bytes) : Prop :=
  ∃ c, appendJCS kv.2 = Ok c ∧ b = appendJCSString kv.1 ++ x3a :: c.

Lemma appendJCS_arr l b : appendJCS (JArr l) = Ok b →
  ∃ bs, Forall2 (λ v c, appendJCS v = Ok c) l bs ∧ b = x5b :: commas bs ++ [x5d].
Proof.
  cbn [appendJCS]. destruct (each _ _ _) as [bs| | |] eqn:Eb; try discriminate. cbn [mbind outcome_bind].
  intros Hr. injection Hr as <-. exists bs. split; [|done].
  apply (each_Forall2 (λ m, m)) in Eb. by apply Forall2_fmap_l in Eb.
Qed.

Lemma appendJCS_obj m b : appendJCS (JObj m) = Ok b →
  ∃ m' bs, m ≡ₚ m' ∧ Forall2 member_bytes m' bs ∧ b = x7b :: commas bs ++ [x7d].
Proof.
  cbn [appendJCS]. set (f := λ kv : bytes * json, (kv.1, appendJCS kv.2)).
  pose proof (merge_sort_Permutation key_le (f <$> m)) as Hp.
  apply Permutation_map_inv in Hp as (m' & Hs & Hp).
  cbv zeta. rewrite Hs. destruct (each _ _ _) as [bs| | |] eqn:Eb; try discriminate. cbn [mbind outcome_bind].
  intros Hr. injection Hr as <-. exists m', bs. split_and!; [done|clear Hs|done].
  apply (each_Forall2 (λ kv, b ← kv.2; Ok (appendJCSString kv.1 ++ x3a :: b))) in Eb. apply Forall2_fmap_l in Eb.
  eapply Forall2_impl; [exact Eb|]. intros [k v] c. unfold f. cbn [compose fst snd].
  destruct (appendJCS v) as [d| | |] eqn:Ev; try discriminate. cbn [mbind outcome_bind]. intros Hr.
  injection Hr as <-. by exists d.
Qed.

(** A value's bytes, followed by a delimiter, determine the value. *)
Lemma appendJCS_prefix v w b b' x y : appendJCS v = Ok b → appendJCS w = Ok b' → closes x → closes y →
  b ++ x = b' ++ y → same v w ∧ b = b'.
Proof.
  revert w b b' x y. induction v as [|bo|lit|s|l IH|m IH] using json_nested_ind; intros w b b' x y Hv Hw Hx Hy He;
    pose proof (appendJCS_head _ _ Hv) as (c & r & Eb & Hc); pose proof (appendJCS_head _ _ Hw) as (c' & r' & Eb' & Hc');
    (assert (c' = c) as -> by (rewrite Eb, Eb' in He; by injection He)); rewrite Hc in Hc';
    clear Eb Eb' r r'.
  - destruct w as [|[]| | | |]; try discriminate Hc'. rewrite Hv in Hw. injection Hw as ->. by split; [constructor|].
  - destruct w as [|bo'| | | |]; try (destruct bo; discriminate Hc').
    assert (bo' = bo) as -> by (destruct bo, bo'; [reflexivity|discriminate Hc'|discriminate Hc'|reflexivity]). rewrite Hv in Hw. injection Hw as ->. by split; [constructor|].
  - destruct w as [|[]|lit'| | |]; try discriminate Hc'. change (number lit = Ok b) in Hv. change (number lit' = Ok b') in Hw.
    assert (∀ l c, number l = Ok c → Forall numchar c) as Hn.
    { intros l0 c0. unfold number. destruct (checkedNumber l0); try discriminate. cbn [mbind outcome_bind].
      by intros [? _]%appendJCSNumber_chars. }
    assert (b = b') as -> by (apply (number_inj b b' x y); [exact (Hn _ _ Hv)|exact (Hn _ _ Hw)|done..]). split; [|done]. constructor. congruence.
  - destruct w as [|[]| |t| |]; try discriminate Hc'. cbn [appendJCS] in Hv, Hw. injection Hv as <-. injection Hw as <-.
    destruct (appendJCSString_inj _ _ _ _ He) as [Hr _]. split; [by constructor|].
    unfold appendJCSString. by rewrite Hr.
  - destruct w as [|[]| | |k|]; try discriminate Hc'.
    apply appendJCS_arr in Hv as (bs & Hbs & ->). apply appendJCS_arr in Hw as (bs' & Hbs' & ->).
    cbn [app] in He. injection He as He. rewrite <- !app_assoc in He. cbn [app] in He.
    destruct (commas_inj (λ v c, appendJCS v = Ok c) same x5d l bs k bs' x y) as [Hs ->]; try done; [by left| | |].
    { intros a0 b0 (c0 & r0 & -> & Hc0)%appendJCS_head. exists c0, r0. split; [done|]. intros ->.
      by destruct a0 as [|[]| | | |]. }
    { eapply Forall_impl; [exact IH|]. intros a0 Ha0 b0 a1 b1 x0 y0 Q0 Q1 C0 C1 E0. by apply (Ha0 a1 b0 b1 x0 y0). }
    split; [by constructor|]. do 2 f_equal. by apply app_inv_tail in He.
  - destruct w as [|[]| | | |k]; try discriminate Hc'.
    apply appendJCS_obj in Hv as (m' & bs & Hm & Hbs & ->). apply appendJCS_obj in Hw as (k' & bs' & Hk & Hbs' & ->).
    cbn [app] in He. injection He as He. rewrite <- !app_assoc in He. cbn [app] in He.
    destruct (commas_inj member_bytes (λ p q, runes p.1 = runes q.1 ∧ same p.2 q.2) x7d m' bs k' bs' x y) as [Hs ->];
      try done; [by right| |rewrite <- Hm; eapply Forall_impl; [exact IH|]|].
    { intros a0 b0 (c0 & _ & ->). unfold appendJCSString. eexists _, _. split; [reflexivity|discriminate]. }
    { intros [k0 v0] IHv b0 [k1 v1] b1 x0 y0 (c0 & Hc0 & ->) (c1 & Hc1 & ->) C0 C1 E0. cbn [fst snd] in *.
      rewrite <- !app_assoc in E0. apply appendJCSString_inj in E0 as [Hr E0]. cbn [app] in E0. injection E0 as E0.
      destruct (IHv v1 c0 c1 x0 y0) as [Hsv ->]; try done. split; [done|]. f_equal. unfold appendJCSString. by rewrite Hr. }
    split; [by econstructor|]. do 2 f_equal. by apply app_inv_tail in He.
Qed.

(** C21.  Canonical bytes determine the document: if two values canonicalize to the
    same bytes, they have the same shape, the same strings rune for rune, the same
    members up to order, and numbers with the same canonical form.  So two
    different documents never share an identity unless the hash collides. *)
Theorem appendJCS_injective v w b : appendJCS v = Ok b → appendJCS w = Ok b → same v w.
Proof. intros Hv Hw. by eapply (appendJCS_prefix v w b b [] []); [..|left|left|]. Qed.

Lemma appendJCS_injective_witness : same (JObj ex_members) (JObj (reverse ex_members)).
Proof. eapply appendJCS_injective; vm_compute; reflexivity. Defined.
