(* ===== verification/Authority.v ===== *)
(** * The [authority] package: typed grants of power

    A translation of src/authority: the data model with its JSON form
    (authority.go), structural validation (validate.go), the canonical hash
    (canonical.go) and proofs (proof.go).  A pointer is an [option], and so is
    the one slice whose JSON tells nil from empty ([Capabilities]); the other
    slices are [omitempty] and need no such distinction. *)
From Stdlib Require Import SpecFloat.
From S2P Require Import Prelude Sha256 GoTime Canonical Signature.
#[local] Open Scope Z_scope.

Module Authority.
Import GoTime.

(** ** authority.go *)

Record Capability : Type := MkCapability { Namespace : string; Name : string }.

Definition CapabilityAttest : Capability := MkCapability "trust" "attest".
Definition CapabilityDelegate : Capability := MkCapability "trust" "delegate".
Definition CapabilityRevoke : Capability := MkCapability "trust" "revoke".
Definition CapabilitySign : Capability := MkCapability "trust" "sign".

Record TimeWindow : Type := MkTimeWindow { Start : Time; End_ : Time }.
Record Quantity : Type := MkQuantity { Unit : string; QLimit : Z }.
Record Monetary : Type := MkMonetary { Currency : string; MLimit : spec_float }.

Record Scope : Type := MkScope {
  Resources : list string;
  Subjects : list string;
  Actions : list string;
  Organizations : list string;
  Geography : list string;
  Channels : list string;
  Window : option TimeWindow;
  Quantity_ : option Quantity;
  Monetary_ : option Monetary
}.

Record Validity : Type := MkValidity { NotBefore : Time; NotAfter : Time }.
Record DelegationConstraints : Type := MkConstraints { MaxDepth : option Z }.

(** [type Status int]. *)
Definition Status : Type := Z.
Definition StatusActive : Status := 1.
Definition StatusRevoked : Status := 2.
Definition StatusSuperseded : Status := 3.
Definition StatusExpired : Status := 4.

Record Proof_ : Type := MkProof {
  Algorithm : Signature.Algorithm;
  KeyID : string;
  Signature_ : bytes
}.

Record Authority : Type := MkAuthority {
  Subject : string;
  Parent : option string;
  Capabilities : option (list Capability);
  Scope_ : Scope;
  Validity_ : Validity;
  Constraints : DelegationConstraints;
  Status_ : Status;
  Proof : Proof_
}.

#[global] Instance Capability_eq_dec : EqDecision Capability.
Proof. solve_decision. Defined.

(** The elements of a possibly nil slice. *)
Definition elems {A} (l : option (list A)) : list A := default [] l.
Definition caps (a : Authority) : list Capability := elems (Capabilities a).

(** ** The JSON form *)

Import Canonical.
#[local] Notation cerror := Canonical.error.

Definition field (k : string) (v : json) : list (bytes * json) := [(str_bytes k, v)].
Definition jtime (t : Time) : outcome cerror json :=
  match rfc3339 t with Some b => Ok (JStr b) | None => Err ErrMarshal end.
Definition jstrings (l : list string) : json := JArr (jstr <$> l).
(** A string slice with [omitempty]. *)
Definition field_strings (k : string) (l : list string) : list (bytes * json) :=
  match l with [] => [] | _ => field k (jstrings l) end.

(** [encoding/json] renders a finite [float64] with the digits and the notation
    JCS uses, except that it keeps the sign of a negative zero. *)
Definition jfloat (f : spec_float) : outcome cerror json :=
  match f with
  | S754_zero neg => Ok (JNum ((if neg then [x2d] else []) ++ [x30]))
  | S754_finite _ _ _ => b ← appendJCSNumber f; Ok (JNum b)
  | _ => Err ErrMarshal
  end.

(** [base64.StdEncoding], the JSON form of a [[]byte]. *)
Definition b64_alphabet : bytes :=
  str_bytes "ABCDEFGHIJKLMNOPQRSTUVWXYZabcdefghijklmnopqrstuvwxyz0123456789+/".
Definition b64_char (n : Z) : byte := default x3d (b64_alphabet !! Z.to_nat n).
Fixpoint base64 (b : bytes) : bytes :=
  match b with
  | [] => []
  | [x] => let n := b2z x * 16 in [b64_char (n `div` 64); b64_char (n `mod` 64); x3d; x3d]
  | [x; y] =>
      let n := (b2z x * 256 + b2z y) * 4 in
      [b64_char (n `div` 4096); b64_char ((n `div` 64) `mod` 64); b64_char (n `mod` 64); x3d]
  | x :: y :: z :: b' =>
      let n := b2z x * 65536 + b2z y * 256 + b2z z in
      [b64_char (n `div` 262144); b64_char ((n `div` 4096) `mod` 64);
       b64_char ((n `div` 64) `mod` 64); b64_char (n `mod` 64)] ++ base64 b'
  end.
Definition field_bytes (k : string) (b : bytes) : list (bytes * json) :=
  match b with [] => [] | _ => field k (JStr (base64 b)) end.

Definition Capability_json (c : Capability) : json :=
  JObj (field "namespace" (jstr (Namespace c)) ++ field "name" (jstr (Name c))).

Definition TimeWindow_json (w : TimeWindow) : outcome cerror json :=
  s ← jtime (Start w); e ← jtime (End_ w); Ok (JObj (field "start" s ++ field "end" e)).
Definition Quantity_json (q : Quantity) : outcome cerror json :=
  Ok (JObj (field "unit" (jstr (Unit q)) ++ field "limit" (jint (QLimit q)))).
Definition Monetary_json (m : Monetary) : outcome cerror json :=
  l ← jfloat (MLimit m); Ok (JObj (field "currency" (jstr (Currency m)) ++ field "limit" l)).

(** A pointer with [omitempty]. *)
Definition field_opt {A} (k : string) (f : A → outcome cerror json) (v : option A)
    : outcome cerror (list (bytes * json)) :=
  match v with
  | None => Ok []
  | Some x => j ← f x; Ok (field k j)
  end.

Definition Scope_json (s : Scope) : outcome cerror json :=
  w ← field_opt "timeWindow" TimeWindow_json (Window s);
  q ← field_opt "quantity" Quantity_json (Quantity_ s);
  m ← field_opt "monetary" Monetary_json (Monetary_ s);
  Ok (JObj (field_strings "resources" (Resources s) ++ field_strings "subjects" (Subjects s) ++
            field_strings "actions" (Actions s) ++ field_strings "organizations" (Organizations s) ++
            field_strings "geography" (Geography s) ++ field_strings "channels" (Channels s) ++
            w ++ q ++ m)).

Definition Validity_json (v : Validity) : outcome cerror json :=
  b ← jtime (NotBefore v); a ← jtime (NotAfter v);
  Ok (JObj (field "notBefore" b ++ field "notAfter" a)).

Definition Constraints_json (c : DelegationConstraints) : outcome cerror json :=
  d ← field_opt "maxDepth" (λ n, Ok (jint n)) (MaxDepth c); Ok (JObj d).

Definition Proof_json (p : Proof_) : json :=
  JObj (field "algorithm" (jint (Algorithm p)) ++ field "keyId" (jstr (KeyID p)) ++
        field_bytes "signature" (Signature_ p)).

#[global] Instance Authority_json : ToJSON Authority := λ a,
  p ← field_opt "parent" (λ s, Ok (jstr s)) (Parent a);
  s ← Scope_json (Scope_ a);
  v ← Validity_json (Validity_ a);
  c ← Constraints_json (Constraints a);
  Ok (JObj (field "subject" (jstr (Subject a)) ++ p ++
            field "capabilities" (match Capabilities a with
                                  | None => JNull
                                  | Some l => JArr (Capability_json <$> l)
                                  end) ++
            field "scope" s ++ field "validity" v ++ field "delegationConstraints" c ++
            field "status" (jint (Status_ a)) ++ field "proof" (Proof_json (Proof a)))).

(** The method [CanonicalEncoding]. *)
#[global] Instance Authority_declares : Declares Authority := Some EncodingJSON.

(** ** validate.go *)

Inductive error : Type :=
| ErrNilAuthority
| ErrEmptySubject
| ErrEmptyCapabilityNamespace
| ErrEmptyCapabilityName
| ErrUnsortedCapabilities
| ErrUnsortedScope
| ErrUnknownStatus
| ErrTamperedAuthority
| ErrWrongKey
| ErrNilSigner
| ErrSignature (e : Signature.error)
| ErrCanonical (e : cerror).

Definition is_empty (s : string) : bool := String.eqb s "".

(** One iteration of the loop of [ValidateCapabilities]; [prev] is [caps[i-1]]. *)
Definition check_capability (prev : option Capability) (c : Capability) : outcome error unit :=
  if is_empty (Namespace c) then Err ErrEmptyCapabilityNamespace
  else if is_empty (Name c) then Err ErrEmptyCapabilityName
  else match prev with
       | None => Ok tt
       | Some p =>
           if str_ltb (Namespace c) (Namespace p) ||
              (String.eqb (Namespace p) (Namespace c) && str_leb (Name c) (Name p))
           then Err ErrUnsortedCapabilities
           else Ok tt
       end.

Fixpoint validate_caps (prev : option Capability) (l : list Capability) : outcome error unit :=
  match l with
  | [] => Ok tt
  | c :: l' => _ ← check_capability prev c; validate_caps (Some c) l'
  end.
Definition ValidateCapabilities (l : list Capability) : outcome error unit := validate_caps None l.

Fixpoint validateSortedStrings (vals : list string) : outcome error unit :=
  match vals with
  | a :: ((b :: _) as vals') => if str_leb b a then Err ErrUnsortedScope else validateSortedStrings vals'
  | _ => Ok tt
  end.

Definition ValidateScope (s : Scope) : outcome error unit :=
  _ ← each (λ _, validateSortedStrings) 0
        [Resources s; Subjects s; Actions s; Organizations s; Geography s; Channels s];
  Ok tt.

Definition known_status (s : Status) : bool :=
  (s =? StatusActive) || (s =? StatusRevoked) || (s =? StatusSuperseded) || (s =? StatusExpired).

Definition Validate (auth : option Authority) : outcome error unit :=
  match auth with
  | None => Err ErrNilAuthority
  | Some a =>
      if is_empty (Subject a) then Err ErrEmptySubject
      else
        _ ← ValidateCapabilities (caps a);
        _ ← ValidateScope (Scope_ a);
        check (known_status (Status_ a)) ErrUnknownStatus
  end.

(** ** canonical.go, proof.go *)

(** [a.Proof.Signature = sig]. *)
Definition with_signature (a : Authority) (sig : bytes) : Authority :=
  {| Subject := Subject a; Parent := Parent a; Capabilities := Capabilities a; Scope_ := Scope_ a;
     Validity_ := Validity_ a; Constraints := Constraints a; Status_ := Status_ a;
     Proof := {| Algorithm := Algorithm (Proof a); KeyID := KeyID (Proof a); Signature_ := sig |} |}.

(** [a.Proof = Proof{alg, keyID, nil}]. *)
Definition with_metadata (a : Authority) (alg : Signature.Algorithm) (keyID : string) : Authority :=
  {| Subject := Subject a; Parent := Parent a; Capabilities := Capabilities a; Scope_ := Scope_ a;
     Validity_ := Validity_ a; Constraints := Constraints a; Status_ := Status_ a;
     Proof := {| Algorithm := alg; KeyID := keyID; Signature_ := [] |} |}.

Section Ops.
Context `{!Hasher} `{!CborLib} `{!Signature.KeyOps}.

Definition CanonicalHash (auth : option Authority) : outcome error array32 :=
  match auth with
  | None => Err ErrNilAuthority
  | Some a => wrap_err ErrCanonical (Canonical.CanonicalHash (with_signature a []))
  end.

(** [SignAuthority] mutates its argument: the result pairs the authority as the
    call leaves it with the error it returns. *)
Definition SignAuthority (auth : option Authority) (signer : option Signature.Signer) (keyID : string)
    : option Authority * outcome error unit :=
  match auth, signer with
  | None, _ => (None, Err ErrNilAuthority)
  | Some a, None => (Some a, Err ErrNilSigner)
  | Some a, Some s =>
      match pub ← Signature.signer_PublicKey s; Signature.AlgorithmForPublicKey pub with
      | Ok alg =>
          let a1 := with_metadata a alg keyID in
          match h ← CanonicalHash (Some a1);
                wrap_err ErrSignature (Signature.signer_Sign s (arr h)) with
          | Ok sig => (Some (with_signature a1 sig), Ok tt)
          | Err e => (Some a1, Err e)
          | Panic => (Some a1, Panic)
          | OutOfFuel => (Some a1, OutOfFuel)
          end
      | Err e => (Some a, Err (ErrSignature e))
      | Panic => (Some a, Panic)
      | OutOfFuel => (Some a, OutOfFuel)
      end
  end.

Definition VerifyAuthorityProof (auth : option Authority) (pubKey : Signature.PublicKey) : outcome error unit :=
  match auth with
  | None => Err ErrNilAuthority
  | Some a =>
      match Signature.AlgorithmForPublicKey pubKey with
      | Ok alg =>
          if negb (alg =? Algorithm (Proof a)) then Err ErrWrongKey
          else
            h ← CanonicalHash auth;
            match Signature.Verify (Algorithm (Proof a)) pubKey (Signature_ (Proof a)) (arr h) with
            | Ok true => Ok tt
            | Ok false => Err ErrTamperedAuthority
            | Err _ => Err ErrTamperedAuthority
            | Panic => Panic
            | OutOfFuel => OutOfFuel
            end
      | Err _ => Err ErrWrongKey
      | Panic => Panic
      | OutOfFuel => OutOfFuel
      end
  end.

End Ops.
End Authority.
