(* ===== verification/AuthorityProofs.v ===== *)
(** * Authorities: validation, identity and proofs

    [Validate] accepts exactly the authorities in canonical form; the identity of
    an authority does not depend on its signature; [SignAuthority] and
    [VerifyAuthorityProof] are inverse to one another over any lawful signer. *)
From stdpp Require Import sorting.
From S2P Require Import Prelude Sha256 GoTime Canonical Signature SignatureProofs Authority.
Import GoTime Authority.
#[local] Open Scope Z_scope.

(** ** String order *)

Definition str_lt (a b : string) : Prop := str_ltb a b = true.

#[global] Instance str_lt_trans : Transitive str_lt.
Proof.
  intros a b c H1 H2. unfold str_lt, str_ltb in *. apply Is_true_true.
  eapply bytes_ltb_trans; by apply Is_true_true.
Qed.

Lemma str_lt_irrefl a : ¬ str_lt a a.
Proof. unfold str_lt, str_ltb. by rewrite bytes_ltb_irrefl. Qed.

Lemma str_leb_false a b : str_leb b a = false ↔ str_lt a b.
Proof. unfold str_leb, str_lt, str_ltb. rewrite bytes_leb_ltb, negb_false_iff. done. Qed.

Lemma str_ltb_false a b : str_ltb b a = false ↔ str_lt a b ∨ a = b.
Proof.
  unfold str_lt, str_ltb. split.
  - intros H. destruct (bytes_leb_cases (str_bytes a) (str_bytes b)) as [E|E]; [by rewrite bytes_leb_ltb, H| |auto].
    right. by apply str_bytes_inj.
  - intros [H| ->]; [|apply bytes_ltb_irrefl].
    destruct (bytes_ltb (str_bytes b) (str_bytes a)) eqn:E; [|done].
    exfalso. apply (str_lt_irrefl a). by transitivity b.
Qed.

Lemma is_empty_false s : is_empty s = false ↔ s ≠ "".
Proof. unfold is_empty. apply String.eqb_neq. Qed.

(** ** Canonical form *)

(** Lexicographic order on (namespace, name). *)
Definition cap_lt (a b : Capability) : Prop :=
  str_lt (Namespace a) (Namespace b) ∨ (Namespace a = Namespace b ∧ str_lt (Name a) (Name b)).

#[global] Instance cap_lt_trans : Transitive cap_lt.
Proof.
  intros a b c [H1|[E1 H1]] [H2|[E2 H2]].
  - left. by transitivity (Namespace b).
  - left. congruence.
  - left. congruence.
  - right. split; [congruence|]. by transitivity (Name b).
Qed.

Definition cap_named (c : Capability) : Prop := Namespace c ≠ "" ∧ Name c ≠ "".

Lemma check_capability_ok prev c : check_capability prev c = Ok tt ↔
  cap_named c ∧ match prev with None => True | Some p => cap_lt p c end.
Proof.
  unfold check_capability, cap_named, cap_lt.
  destruct (is_empty (Namespace c)) eqn:E1; [apply String.eqb_eq in E1; naive_solver|].
  destruct (is_empty (Name c)) eqn:E2; [apply String.eqb_eq in E2; naive_solver|].
  apply is_empty_false in E1, E2. destruct prev as [p|]; [|naive_solver].
  destruct (str_ltb (Namespace c) (Namespace p)) eqn:E3; cbn [orb].
  - split; [done|]. intros [_ [H|[H _]]]; exfalso; apply (str_lt_irrefl (Namespace p)).
    + by transitivity (Namespace c).
    + by rewrite H in E3 |- *.
  - apply str_ltb_false in E3. destruct (String.eqb_spec (Namespace p) (Namespace c)) as [Hn|Hn]; cbn [andb].
    + destruct (str_leb (Name c) (Name p)) eqn:E4.
      * split; [done|]. intros [_ [H|[_ H]]]; [rewrite Hn in H; by apply str_lt_irrefl in H|].
        apply str_leb_false in H. congruence.
      * apply str_leb_false in E4. naive_solver.
    + naive_solver.
Qed.

Lemma validate_caps_ok prev l : validate_caps prev l = Ok tt ↔
  Forall cap_named l ∧ Sorted cap_lt (option_list prev ++ l).
Proof.
  revert prev. induction l as [|c l IH]; intros prev; cbn [validate_caps].
  - destruct prev; simpl; split; auto using Sorted.
  - destruct (check_capability prev c) as [[]| | |] eqn:E; cbn [mbind outcome_bind].
    + rewrite IH. apply check_capability_ok in E as [Hn Hp]. cbn [option_list app].
      destruct prev as [p|]; cbn [option_list app] in *; split.
      * intros [H1 H2]. split; [by constructor|]. constructor; [done|]. by constructor.
      * intros [H1 H2]. inversion H1; inversion H2; subst. done.
      * intros [H1 H2]. split; [by constructor|done].
      * intros [H1 H2]. inversion H1; subst. done.
    + split; [done|]. intros [H1 H2].
      assert (check_capability prev c = Ok tt) as H; [|congruence]. apply check_capability_ok.
      split; [by inversion H1|]. destruct prev; [|done]. inversion H2 as [|? ? ? Hd]; subst. by inversion Hd.
    + unfold check_capability in E. go_inv E.
    + unfold check_capability in E. go_inv E.
Qed.

Lemma validateSortedStrings_ok l : validateSortedStrings l = Ok tt ↔ StronglySorted str_lt l.
Proof.
  split.
  - intros H. apply Sorted_StronglySorted; [exact _|]. induction l as [|a [|b l] IH]; [repeat constructor..|].
    cbn [validateSortedStrings] in H. destruct (str_leb b a) eqn:E; [done|].
    constructor; [by apply IH|]. constructor. by apply str_leb_false.
  - intros H%StronglySorted_Sorted. induction l as [|a [|b l] IH]; [done..|].
    inversion H as [|? ? H1 H2]; subst. inversion H2; subst. cbn [validateSortedStrings].
    rewrite (proj2 (str_leb_false a b)) by done. by apply IH.
Qed.

Definition dimensions (s : Scope) : list (list string) :=
  [Resources s; Subjects s; Actions s; Organizations s; Geography s; Channels s].

Lemma ValidateScope_ok s : ValidateScope s = Ok tt ↔ Forall (StronglySorted str_lt) (dimensions s).
Proof.
  transitivity (∃ us, each (λ _, validateSortedStrings) 0 (dimensions s) = Ok us).
  - unfold ValidateScope. fold (dimensions s).
    destruct (each _ _ _) as [us| | |]; cbn [mbind outcome_bind]; naive_solver.
  - setoid_rewrite each_Forall2. rewrite <- Forall_exists_Forall2_l. apply Forall_iff. intros l.
    rewrite <- validateSortedStrings_ok. split; [by intros [[] H]|by exists tt].
Qed.

(** The canonical form of an authority. *)
Definition well_formed (a : Authority) : Prop :=
  Subject a ≠ "" ∧ Forall cap_named (caps a) ∧ StronglySorted cap_lt (caps a) ∧
  Forall (StronglySorted str_lt) (dimensions (Scope_ a)) ∧ 1 ≤ Status_ a ≤ 4.

Lemma known_status_spec s : known_status s = true ↔ 1 ≤ s ≤ 4.
Proof.
  unfold known_status, StatusActive, StatusRevoked, StatusSuperseded, StatusExpired.
  rewrite !orb_true_iff, !Z.eqb_eq. lia.
Qed.

(** [Validate] accepts exactly the well-formed authorities: a subject, named
    capabilities strictly increasing by (namespace, name), six scope dimensions
    strictly increasing, one of the four lifecycle states. *)
Theorem Validate_iff a : Validate (Some a) = Ok tt ↔ well_formed a.
Proof.
  unfold Validate, well_formed. destruct (is_empty (Subject a)) eqn:E.
  { apply String.eqb_eq in E. naive_solver. }
  apply is_empty_false in E. unfold ValidateCapabilities, check.
  pose proof (validate_caps_ok None (caps a)) as Hc. cbn [option_list app] in Hc.
  pose proof (ValidateScope_ok (Scope_ a)) as Hs. pose proof (known_status_spec (Status_ a)) as Hk.
  assert (Sorted cap_lt (caps a) ↔ StronglySorted cap_lt (caps a)) as Hsort
    by (split; [apply Sorted_StronglySorted; exact _|apply StronglySorted_Sorted]).
  destruct (validate_caps None (caps a)) as [[]| | |]; cbn [mbind outcome_bind]; [|naive_solver..].
  destruct (ValidateScope (Scope_ a)) as [[]| | |]; cbn [mbind outcome_bind]; [|naive_solver..].
  destruct (known_status (Status_ a)); naive_solver.
Qed.

(** ** Identity and proofs *)

Section Proofs.
Context `{!Hasher} `{!Canonical.CborLib} `{!Signature.KeyOps}.

Lemma CanonicalHash_with_signature a sig :
  CanonicalHash (Some (with_signature a sig)) = CanonicalHash (Some a).
Proof. done. Qed.

Lemma VerifyAuthorityProof_spec a pub :
  VerifyAuthorityProof (Some a) pub = Ok tt ↔
  Signature.AlgorithmForPublicKey pub = Ok (Algorithm (Proof a)) ∧
  ∃ h, CanonicalHash (Some a) = Ok h ∧
       Signature.Verify (Algorithm (Proof a)) pub (Signature_ (Proof a)) (arr h) = Ok true.
Proof.
  unfold VerifyAuthorityProof.
  destruct (Signature.AlgorithmForPublicKey pub) as [alg| | |] eqn:Ea; [|naive_solver..].
  destruct (Z.eqb_spec alg (Algorithm (Proof a))) as [->|Hne]; cbn [negb]; [|naive_solver].
  destruct (CanonicalHash (Some a)) as [h| | |]; cbn [mbind outcome_bind]; [|naive_solver..].
  destruct (Signature.Verify _ _ _ _) as [[]| | |] eqn:Ev; split; try done;
    try (by eauto); by intros (_ & h' & [= <-] & Ev'); rewrite Ev in Ev'.
Qed.

(** [VerifyAuthorityProof] accepts exactly when the supplied key's own
    algorithm is the one the proof declares and the signature verifies over the
    canonical hash recomputed with the signature left out. *)
Theorem VerifyAuthorityProof_iff a pub :
  VerifyAuthorityProof (Some a) pub = Ok tt ↔
  Signature.AlgorithmForPublicKey pub = Ok (Algorithm (Proof a)) ∧
  ∃ h, CanonicalHash (Some a) = Ok h ∧
       Signature.Verify (Algorithm (Proof a)) pub (Signature_ (Proof a)) (arr h) = Ok true.
Proof. apply VerifyAuthorityProof_spec. Qed.

Lemma SignAuthority_inv a s keyID :
  (SignAuthority (Some a) (Some s) keyID).2 = Ok tt →
  ∃ pub alg h sig, Signature.signer_PublicKey s = Ok pub ∧ Signature.AlgorithmForPublicKey pub = Ok alg ∧
    CanonicalHash (Some (with_metadata a alg keyID)) = Ok h ∧ Signature.signer_Sign s (arr h) = Ok sig ∧
    (SignAuthority (Some a) (Some s) keyID).1 = Some (with_signature (with_metadata a alg keyID) sig).
Proof.
  unfold SignAuthority, mbind, outcome_bind.
  destruct (Signature.signer_PublicKey s) as [pub| | |]; try done.
  destruct (Signature.AlgorithmForPublicKey pub) as [alg| | |] eqn:Ea; try done.
  destruct (CanonicalHash (Some (with_metadata a alg keyID))) as [h| | |] eqn:Eh; try done.
  destruct (Signature.signer_Sign s (arr h)) as [sig| | |] eqn:Es; try done. intros _.
  exists pub, alg, h, sig. done.
Qed.

(** An authority that [SignAuthority] signed with a lawful signer verifies
    under the signer's public key; the metadata it committed to is the key's
    algorithm and the key id, nothing else of the authority changed, and its
    identity is the one the unsigned authority had. *)
Theorem SignAuthority_verifies a s keyID pub `{!SignatureProofs.LawfulSigner s} :
  Signature.signer_PublicKey s = Ok pub → (SignAuthority (Some a) (Some s) keyID).2 = Ok tt →
  ∃ alg sig, let a' := with_signature (with_metadata a alg keyID) sig in
    (SignAuthority (Some a) (Some s) keyID).1 = Some a' ∧ Signature.AlgorithmForPublicKey pub = Ok alg ∧
    VerifyAuthorityProof (Some a') pub = Ok tt ∧
    CanonicalHash (Some a') = CanonicalHash (Some (with_metadata a alg keyID)).
Proof.
  intros Hpub (pub' & alg & h & sig & Hp & Ha & Hh & Hs & Hr)%SignAuthority_inv.
  rewrite Hpub in Hp. injection Hp as <-. exists alg, sig. split_and!; [done|done| |done].
  apply VerifyAuthorityProof_spec. split; [done|]. exists h. split; [done|].
  by eapply SignatureProofs.signer_verifies.
Qed.

(** A failed [SignAuthority] leaves no signature behind that does not belong
    to the authority: either the authority is untouched, or its signature is
    empty. *)
Theorem SignAuthority_failure a s keyID a' r :
  SignAuthority (Some a) s keyID = (Some a', r) → r ≠ Ok tt → a' = a ∨ Signature_ (Proof a') = [].
Proof.
  destruct s as [s|]; [|by intros [= <- <-]; auto]. unfold SignAuthority.
  destruct (_ ≫= _) as [alg| | |]; [|intros [= <- <-]; auto..].
  destruct (_ ≫= _) as [sig| | |]; intros [= <- <-] Hr; auto. by destruct Hr.
Qed.

(** An authority with nothing in it but its subject. *)
Definition named (s : string) : Authority :=
  {| Subject := s; Parent := None; Capabilities := None;
     Scope_ := {| Resources := []; Subjects := []; Actions := []; Organizations := []; Geography := [];
                  Channels := []; Window := None; Quantity_ := None; Monetary_ := None |};
     Validity_ := {| NotBefore := of_unix 0; NotAfter := of_unix 1 |}; Constraints := {| MaxDepth := None |};
     Status_ := StatusActive; Proof := {| Algorithm := 0; KeyID := ""; Signature_ := [] |} |}.

(** The identity of an authority does not separate all subjects: two subjects
    that differ in an invalid UTF-8 byte have the same canonical hash, because
    [encoding/json] replaces both bytes by U+FFFD. *)
Theorem CanonicalHash_collision :
  ∃ a a', Subject a ≠ Subject a' ∧ CanonicalHash (Some a) = CanonicalHash (Some a') ∧
          is_ok (CanonicalHash (Some a)) = true.
Proof.
  exists (named (String.string_of_list_byte [xff])), (named (String.string_of_list_byte [xfe])).
  split; [discriminate|]. unfold CanonicalHash, Canonical.CanonicalHash, Canonical.Marshal, Canonical.JSONCanonicalize.
  cbn [default Canonical.declared Authority_declares].
  change (Canonical.to_json (with_signature (named (String.string_of_list_byte [xfe])) []))
    with (Canonical.to_json (with_signature (named (String.string_of_list_byte [xff])) [])).
  split; [reflexivity|].
  assert (is_ok (tree ← Canonical.to_json (with_signature (named (String.string_of_list_byte [xff])) []);
                 Canonical.appendJCS tree) = true) as Hok by (vm_compute; reflexivity).
  by destruct (_ ≫= _).
Qed.

End Proofs.

(** ** Concrete inputs *)

#[export] Instance no_cbor : Canonical.CborLib := λ _ _, Err Canonical.ErrMarshal.

Definition ex_scope : Scope :=
  {| Resources := ["doc"]; Subjects := []; Actions := ["read"; "write"]; Organizations := [];
     Geography := []; Channels := []; Window := None; Quantity_ := Some (MkQuantity "documents" 10);
     Monetary_ := None |}.

Definition ex_root : Authority :=
  {| Subject := "did:example:root"; Parent := None;
     Capabilities := Some [CapabilityAttest; CapabilityDelegate]; Scope_ := ex_scope;
     Validity_ := {| NotBefore := of_unix 1700000000; NotAfter := of_unix 1800000000 |};
     Constraints := {| MaxDepth := Some 2 |}; Status_ := StatusActive;
     Proof := {| Algorithm := 0; KeyID := ""; Signature_ := [] |} |}.

Definition ex_root_signer : Signature.Signer := Signature.local_signer false SignatureProofs.ex_signer.
Definition ex_root_pub : Signature.PublicKey := Signature.ls_pub SignatureProofs.ex_signer.

#[export] Instance ex_root_signer_lawful : SignatureProofs.LawfulSigner ex_root_signer.
Proof. by eapply (SignatureProofs.local_signer_lawful SignatureProofs.toy_keys_correct SignatureProofs.ex_key). Qed.

Lemma SignAuthority_verifies_witness :
  ∃ alg sig, let a' := with_signature (with_metadata ex_root alg "k1") sig in
    (SignAuthority (Some ex_root) (Some ex_root_signer) "k1").1 = Some a' ∧
    Signature.AlgorithmForPublicKey ex_root_pub = Ok alg ∧
    VerifyAuthorityProof (Some a') ex_root_pub = Ok tt ∧
    CanonicalHash (Some a') = CanonicalHash (Some (with_metadata ex_root alg "k1")).
Proof. apply SignAuthority_verifies; [exact _|reflexivity|vm_compute; reflexivity]. Defined.

Lemma SignAuthority_failure_witness : ex_root = ex_root ∨ Signature_ (Proof ex_root) = [].
Proof. apply (SignAuthority_failure ex_root None "k1" ex_root (Err ErrNilSigner)); [reflexivity|discriminate]. Defined.
