(* ===== verification/Delegation.v ===== *)
(** * The [delegation] package: narrowing an authority

    A translation of src/delegation/delegation.go: the subset checks on each
    dimension, [VerifySubset] and [Derive]. *)
From Stdlib Require Import SpecFloat.
From S2P Require Import Prelude Sha256 GoTime Canonical Signature Authority.
#[local] Open Scope Z_scope.

Module Delegation.
Import GoTime Authority.

Inductive error : Type :=
| ErrCapabilityEscalation
| ErrScopeEscalation
| ErrValidityEscalation
| ErrDepthEscalation
| ErrAuthority (e : Authority.error).

Record DelegationSpec : Type := MkSpec {
  s_Subject : string;
  s_Capabilities : option (list Capability);
  s_Scope : Scope;
  s_Validity : Validity;
  s_Constraints : DelegationConstraints
}.

(** [slices.Contains]. *)
Definition contains `{EqDecision A} (l : list A) (x : A) : bool := existsb (λ y, bool_decide (y = x)) l.

Definition capabilitySubset (parent child : list Capability) : bool :=
  forallb (contains parent) child.

Definition stringSliceSubset (parent child : list string) : bool :=
  if (length parent =? 0)%nat then true
  else if (length child =? 0)%nat then false
  else forallb (contains parent) child.

Definition timeWindowSubset (parent child : option TimeWindow) : bool :=
  match child, parent with
  | None, None => true
  | None, Some _ => false
  | Some _, None => true
  | Some c, Some p => negb (Before (Start c) (Start p)) && negb (After (End_ c) (End_ p))
  end.

Definition quantitySubset (parent child : option Quantity) : bool :=
  match child, parent with
  | None, None => true
  | None, Some _ => false
  | Some _, None => true
  | Some c, Some p => String.eqb (Unit c) (Unit p) && (QLimit c <=? QLimit p)
  end.

(** [<=] on [float64]: false when either side is NaN. *)
Definition float_le (a b : spec_float) : bool := SFleb a b.

Definition monetarySubset (parent child : option Monetary) : bool :=
  match child, parent with
  | None, None => true
  | None, Some _ => false
  | Some _, None => true
  | Some c, Some p => String.eqb (Currency c) (Currency p) && float_le (MLimit c) (MLimit p)
  end.

Definition scopeSubset (parent child : Scope) : bool :=
  stringSliceSubset (Resources parent) (Resources child) &&
  stringSliceSubset (Subjects parent) (Subjects child) &&
  stringSliceSubset (Actions parent) (Actions child) &&
  stringSliceSubset (Organizations parent) (Organizations child) &&
  stringSliceSubset (Geography parent) (Geography child) &&
  stringSliceSubset (Channels parent) (Channels child) &&
  timeWindowSubset (Window parent) (Window child) &&
  quantitySubset (Quantity_ parent) (Quantity_ child) &&
  monetarySubset (Monetary_ parent) (Monetary_ child).

Definition validitySubset (parent child : Validity) : bool :=
  negb (Before (NotBefore child) (NotBefore parent)) && negb (After (NotAfter child) (NotAfter parent)).

Definition delegationDepthOK (parent child : DelegationConstraints) : bool :=
  match MaxDepth parent with
  | None => true
  | Some n => match MaxDepth child with Some d => d <? n | None => false end
  end.

Definition VerifySubset (child parent : option Authority) : outcome error unit :=
  match child, parent with
  | Some c, Some p =>
      if negb (capabilitySubset (caps p) (caps c)) then Err ErrCapabilityEscalation
      else if negb (scopeSubset (Scope_ p) (Scope_ c)) then Err ErrScopeEscalation
      else if negb (validitySubset (Validity_ p) (Validity_ c)) then Err ErrValidityEscalation
      else if negb (delegationDepthOK (Constraints p) (Constraints c)) then Err ErrDepthEscalation
      else Ok tt
  | _, _ => Err (ErrAuthority ErrNilAuthority)
  end.

Section Ops.
Context `{!Hasher} `{!Canonical.CborLib}.

(** The unsigned child [Derive] builds, before and after [child.Parent] is set. *)
Definition derived (spec : DelegationSpec) (parentRef : option string) : Authority :=
  {| Subject := s_Subject spec; Parent := parentRef; Capabilities := s_Capabilities spec;
     Scope_ := s_Scope spec; Validity_ := s_Validity spec; Constraints := s_Constraints spec;
     Status_ := StatusActive; Proof := {| Algorithm := 0; KeyID := ""; Signature_ := [] |} |}.

Definition Derive (parent : option Authority) (spec : DelegationSpec) : outcome error Authority :=
  match parent with
  | None => Err (ErrAuthority ErrNilAuthority)
  | Some p =>
      _ ← VerifySubset (Some (derived spec None)) parent;
      ph ← wrap_err ErrAuthority (Authority.CanonicalHash parent);
      Ok (derived spec (Some (hex_encode (arr ph))))
  end.

End Ops.
End Delegation.
