(* ===== verification/DelegationProofs.v ===== *)
(** * Delegation: a child never gains power

    [grants] says what an authority permits: one concrete use of it, a request.
    [VerifySubset] implements inclusion of these permissions, so along a chain of
    delegations nothing is permitted that the root does not permit.  The depth
    bound is the exception: it orders chains but does not bound them. *)
From Stdlib Require Import SpecFloat.
From stdpp Require Import infinite.
From S2P Require Import Prelude Sha256 GoTime Canonical Signature Authority Delegation.
Import GoTime Authority Delegation.
#[local] Open Scope Z_scope.

(** ** What an authority permits *)

Record request : Type := Request {
  r_capability : Capability;
  r_resource : string;
  r_subject : string;
  r_action : string;
  r_organization : string;
  r_geography : string;
  r_channel : string;
  r_time : Time;
  r_unit : string;
  r_amount : Z;
  r_currency : string;
  r_money : spec_float
}.

(** An empty or nil dimension is unconstrained. *)
Definition in_dimension (l : list string) (x : string) : Prop := l = [] ∨ x ∈ l.
Definition in_window (w : option TimeWindow) (t : Time) : Prop :=
  match w with None => True | Some w => instant (Start w) ≤ instant t ≤ instant (End_ w) end.
Definition in_quantity (q : option Quantity) (u : string) (n : Z) : Prop :=
  match q with None => True | Some q => u = Unit q ∧ n ≤ QLimit q end.
Definition in_monetary (m : option Monetary) (c : string) (x : spec_float) : Prop :=
  match m with None => True | Some m => c = Currency m ∧ float_le x (MLimit m) = true end.

Definition scope_permits (s : Scope) (r : request) : Prop :=
  in_dimension (Resources s) (r_resource r) ∧ in_dimension (Subjects s) (r_subject r) ∧
  in_dimension (Actions s) (r_action r) ∧ in_dimension (Organizations s) (r_organization r) ∧
  in_dimension (Geography s) (r_geography r) ∧ in_dimension (Channels s) (r_channel r) ∧
  in_window (Window s) (r_time r) ∧ in_quantity (Quantity_ s) (r_unit r) (r_amount r) ∧
  in_monetary (Monetary_ s) (r_currency r) (r_money r).

Definition grants (a : Authority) (r : request) : Prop :=
  r_capability r ∈ caps a ∧ scope_permits (Scope_ a) r ∧
  instant (NotBefore (Validity_ a)) ≤ instant (r_time r) ≤ instant (NotAfter (Validity_ a)).

(** ** The dimensions *)

Lemma contains_spec `{EqDecision A} (l : list A) x : contains l x = true ↔ x ∈ l.
Proof.
  unfold contains. rewrite existsb_exists. setoid_rewrite bool_decide_eq_true.
  setoid_rewrite <- list_elem_of_In. naive_solver.
Qed.

Lemma forallb_contains `{EqDecision A} (p c : list A) :
  forallb (contains p) c = true ↔ ∀ x, x ∈ c → x ∈ p.
Proof.
  rewrite forallb_forall. setoid_rewrite <- list_elem_of_In. setoid_rewrite contains_spec. done.
Qed.

Lemma stringSliceSubset_spec p c :
  stringSliceSubset p c = true ↔ ∀ x, in_dimension c x → in_dimension p x.
Proof.
  unfold stringSliceSubset, in_dimension. destruct p as [|a p]; [naive_solver|].
  destruct c as [|b c]; cbn [length Nat.eqb].
  - split; [done|]. intros H. exfalso.
    (* the unconstrained child admits a string longer than every element of the parent *)
    assert (∃ x, x ∉ a :: p) as [x Hx] by (exists (fresh (a :: p)); apply infinite_is_fresh).
    destruct (H x); [by left|done|done].
  - rewrite forallb_contains. split; intros H x Hx.
    + right. destruct Hx; [done|auto].
    + destruct (H x); [by right|done|done].
Qed.

Lemma timeWindowSubset_sound p c t :
  timeWindowSubset p c = true → in_window c t → in_window p t.
Proof.
  destruct p as [p|], c as [c|]; simpl; try done. rewrite andb_true_iff, not_Before, not_After. lia.
Qed.

Lemma quantitySubset_sound p c u n :
  quantitySubset p c = true → in_quantity c u n → in_quantity p u n.
Proof.
  destruct p as [p|], c as [c|]; simpl; try done. rewrite andb_true_iff, String.eqb_eq, Z.leb_le.
  intros [-> H] [-> Hn]. split; [done|lia].
Qed.

Lemma SFcompare_trans x y z :
  SFleb x y = true → SFleb y z = true → SFleb x z = true.
Proof.
  unfold SFleb, SFcompare.
  destruct x as [sx|sx| |sx mx ex], y as [sy|sy| |sy my ey], z as [sz|sz| |sz mz ez];
    try destruct sx; try destruct sy; try destruct sz; try done;
    repeat match goal with
    | |- context [(?a ?= ?b)%Z] => destruct (Z.compare_spec a b)
    | |- context [Pos.compare_cont Eq ?a ?b] => change (Pos.compare_cont Eq a b) with (a ?= b)%positive
    | |- context [(?a ?= ?b)%positive] => destruct (Pos.compare_spec a b)
    end; subst; simpl; try done; lia.
Qed.

Lemma monetarySubset_sound p c cur x :
  monetarySubset p c = true → in_monetary c cur x → in_monetary p cur x.
Proof.
  destruct p as [p|], c as [c|]; simpl; try done. rewrite andb_true_iff, String.eqb_eq.
  intros [-> H] [-> Hx]. split; [done|]. by eapply SFcompare_trans.
Qed.

Lemma scopeSubset_sound p c r : scopeSubset p c = true → scope_permits c r → scope_permits p r.
Proof.
  unfold scopeSubset. rewrite !andb_true_iff.
  intros [[[[[[[[H1 H2] H3] H4] H5] H6] H7] H8] H9].
  intros (P1 & P2 & P3 & P4 & P5 & P6 & P7 & P8 & P9).
  split_and!; try (eapply stringSliceSubset_spec; by eassumption);
    eauto using timeWindowSubset_sound, quantitySubset_sound, monetarySubset_sound.
Qed.

Lemma VerifySubset_inv c p : VerifySubset (Some c) (Some p) = Ok tt →
  capabilitySubset (caps p) (caps c) = true ∧ scopeSubset (Scope_ p) (Scope_ c) = true ∧
  validitySubset (Validity_ p) (Validity_ c) = true ∧
  delegationDepthOK (Constraints p) (Constraints c) = true.
Proof.
  unfold VerifySubset. destruct (capabilitySubset _ _); [|done]. destruct (scopeSubset _ _); [|done].
  destruct (validitySubset _ _); [|done]. by destruct (delegationDepthOK _ _).
Qed.

Lemma VerifySubset_grants c p r :
  VerifySubset (Some c) (Some p) = Ok tt → grants c r → grants p r.
Proof.
  intros (Hc & Hs & Hv & _)%VerifySubset_inv (Gc & Gs & Gv).
  unfold capabilitySubset in Hc. rewrite forallb_contains in Hc.
  unfold validitySubset in Hv. rewrite andb_true_iff, not_Before, not_After in Hv.
  split_and!; [auto|by eapply scopeSubset_sound|lia..].
Qed.

(** ** Chains *)

(** Leaf first: each element is a subset of the next. *)
Definition chain_ok (l : list Authority) : Prop := ∀ i c p,
  l !! i = Some c → l !! S i = Some p → VerifySubset (Some c) (Some p) = Ok tt.

Lemma chain_ok_cons a l : chain_ok (a :: l) →
  chain_ok l ∧ (∀ b l', l = b :: l' → VerifySubset (Some a) (Some b) = Ok tt).
Proof.
  intros H. split.
  - intros i c p Hc Hp. by apply (H (S i)).
  - intros b l' ->. by apply (H 0%nat).
Qed.

Lemma chain_grants l leaf r a : chain_ok (leaf :: l) → a ∈ leaf :: l → grants leaf r → grants a r.
Proof.
  revert leaf. induction l as [|b l IH]; intros leaf Hc Ha Hg.
  - apply list_elem_of_singleton in Ha. by subst.
  - apply chain_ok_cons in Hc as [Hc Hb]. apply elem_of_cons in Ha as [->|Ha]; [done|].
    apply (IH b); [done|done|]. by eapply VerifySubset_grants; [apply (Hb b l)|].
Qed.

(** C3.  Along a chain in which each authority passes [VerifySubset] against the
    next, whatever the leaf permits is permitted by every authority of the chain,
    the root included: capabilities, the nine scope dimensions and the validity
    window only ever narrow. *)
Theorem delegation_no_escalation leaf chain r a :
  chain_ok (leaf :: chain) → a ∈ leaf :: chain → grants leaf r → grants a r.
Proof. apply chain_grants. Qed.

(** The check of a string dimension is exact: it holds if and only if every
    value the child's list admits is admitted by the parent's, an empty list
    admitting everything. *)
Theorem stringSliceSubset_exact p c :
  stringSliceSubset p c = true ↔ ∀ x, in_dimension c x → in_dimension p x.
Proof. apply stringSliceSubset_spec. Qed.

Lemma depth_chain l n : chain_ok l → (∀ root, list.last l = Some root → MaxDepth (Constraints root) = Some n) →
  ∀ i a, l !! i = Some a →
  ∃ d, MaxDepth (Constraints a) = Some d ∧ d + (zlen l - 1 - Z.of_nat i) ≤ n.
Proof.
  induction l as [|a l IH]; intros Hc Hr i b Hb; [done|].
  apply chain_ok_cons in Hc as [Hc Hn]. destruct l as [|p l].
  - destruct i; [|done]. simplify_eq/=. exists n. split; [by apply Hr|lia].
  - assert (∀ i a0, (p :: l) !! i = Some a0 →
      ∃ d, MaxDepth (Constraints a0) = Some d ∧ d + (zlen (p :: l) - 1 - Z.of_nat i) ≤ n) as IH'.
    { apply IH; [done|]. intros root Hroot. apply Hr. by rewrite last_cons_cons. }
    destruct i as [|i]; simpl in Hb.
    + simplify_eq. destruct (IH' 0%nat p eq_refl) as (d & Hd & Hle).
      pose proof (Hn p l eq_refl) as (_ & _ & _ & Hdep)%VerifySubset_inv.
      unfold delegationDepthOK in Hdep. rewrite Hd in Hdep.
      destruct (MaxDepth (Constraints b)) as [d'|]; [|done]. apply Z.ltb_lt in Hdep.
      exists d'. split; [done|]. cbn [length] in *. lia.
    + destruct (IH' i b Hb) as (d & Hd & Hle). exists d. split; [done|]. cbn [length] in *. lia.
Qed.

(** Below a root with [MaxDepth] [n], every authority of a chain declares a
    bound of its own, smaller by at least one per step; so if the bounds declared
    are not negative the chain has at most [n] delegations. *)
Theorem delegation_depth_bound l root n :
  chain_ok l → list.last l = Some root → MaxDepth (Constraints root) = Some n →
  (∀ a, a ∈ l → ∀ d, MaxDepth (Constraints a) = Some d → 0 ≤ d) → zlen l ≤ n + 1.
Proof.
  intros Hc Hlast Hn Hpos. destruct l as [|a l]; [done|].
  destruct (depth_chain (a :: l) n Hc) with (i := 0%nat) (a := a) as (d & Hd & Hle); [|done|].
  - intros root' Hr. rewrite Hr in Hlast. by simplify_eq.
  - specialize (Hpos a ltac:(by left) d Hd). lia.
Qed.

(** ** The depth bound does not stop at zero *)

Definition plain (depth : Z) : Authority :=
  {| Subject := "did:example:a"; Parent := None; Capabilities := Some [CapabilityAttest];
     Scope_ := {| Resources := []; Subjects := []; Actions := []; Organizations := []; Geography := [];
                  Channels := []; Window := None; Quantity_ := None; Monetary_ := None |};
     Validity_ := {| NotBefore := zero_time; NotAfter := zero_time |};
     Constraints := {| MaxDepth := Some depth |}; Status_ := StatusActive;
     Proof := {| Algorithm := 0; KeyID := ""; Signature_ := [] |} |}.

Fixpoint countdown (n : nat) (d : Z) : list Authority :=
  match n with O => [plain d] | S n' => countdown n' (d - 1) ++ [plain d] end.

Lemma countdown_length n d : length (countdown n d) = S n.
Proof. revert d. induction n as [|n IH]; intros d; [done|]. simpl. rewrite length_app, IH. simpl. lia. Qed.

Lemma countdown_lookup n d i : (i ≤ n)%nat → countdown n d !! i = Some (plain (d - Z.of_nat (n - i))).
Proof.
  revert d. induction n as [|n IH]; intros d Hi.
  - destruct i; [|lia]. simpl. f_equal. f_equal. lia.
  - cbn [countdown]. destruct (decide (i = S n)) as [->|].
    + rewrite lookup_app_r by (rewrite countdown_length; lia). rewrite countdown_length, Nat.sub_diag.
      simpl. f_equal. f_equal. lia.
    + rewrite lookup_app_l by (rewrite countdown_length; lia). rewrite IH by lia. f_equal. f_equal. lia.
Qed.

(** [MaxDepth] does not limit delegation: under a root whose bound is zero,
    which is meant to admit no delegation, chains of every length pass the checks,
    because a child may declare a negative bound. *)
Theorem depth_zero_unbounded n :
  ∃ l root, chain_ok l ∧ length l = S n ∧ list.last l = Some root ∧
            MaxDepth (Constraints root) = Some 0.
Proof.
  exists (countdown n 0), (plain 0). split_and!.
  - intros i c p Hc Hp.
    assert (S i ≤ n)%nat by (apply lookup_lt_Some in Hp; rewrite countdown_length in Hp; lia).
    rewrite countdown_lookup in Hc, Hp by lia. simplify_eq.
    unfold VerifySubset. cbn -[delegationDepthOK]. unfold delegationDepthOK. cbn -[Z.sub].
    rewrite (proj2 (Z.ltb_lt _ _)) by lia. done.
  - apply countdown_length.
  - rewrite last_lookup, countdown_length. simpl. rewrite countdown_lookup by lia.
    by rewrite Nat.sub_diag.
  - done.
Qed.

(** ** Derive *)

Section Derive.
Context `{!Hasher} `{!Canonical.CborLib}.

(** [Derive] fails exactly when [VerifySubset] refuses the requested child
    or the parent cannot be hashed; on success the child carries the request
    unchanged, is active and unsigned, refers to its parent by the hex of the
    parent's canonical hash, and permits nothing the parent does not. *)
Theorem Derive_correct p spec :
  match Derive (Some p) spec with
  | Ok c =>
      VerifySubset (Some c) (Some p) = Ok tt ∧
      (∃ h, CanonicalHash (Some p) = Ok h ∧ Parent c = Some (hex_encode (arr h))) ∧
      Subject c = s_Subject spec ∧ Capabilities c = s_Capabilities spec ∧ Scope_ c = s_Scope spec ∧
      Validity_ c = s_Validity spec ∧ Constraints c = s_Constraints spec ∧
      Status_ c = StatusActive ∧ Signature_ (Proof c) = [] ∧ (∀ r, grants c r → grants p r)
  | Err e => VerifySubset (Some (derived spec None)) (Some p) = Err e ∨
             ∃ e', CanonicalHash (Some p) = Err e' ∧ e = ErrAuthority e'
  | Panic => CanonicalHash (Some p) = Panic
  | OutOfFuel => CanonicalHash (Some p) = OutOfFuel
  end.
Proof.
  unfold Derive. destruct (VerifySubset _ (Some p)) as [[]| | |] eqn:Ev; cbn [mbind outcome_bind].
  - destruct (CanonicalHash (Some p)) as [h|e| |] eqn:Eh; cbn [wrap_err mbind outcome_bind]; [|eauto..].
    split; [done|]. split; [by exists h|]. do 7 (split; [done|]). intros r Hr.
    by eapply VerifySubset_grants; [exact Ev|].
  - by left.
  - unfold VerifySubset in Ev. go_inv Ev.
  - unfold VerifySubset in Ev. go_inv Ev.
Qed.

End Derive.

(** ** Concrete inputs *)

Definition ex_request : request :=
  Request CapabilityAttest "r" "s" "a" "o" "g" "c" zero_time "u" 1 "USD" (S754_zero false).

Lemma chain_ok_example : chain_ok [plain 1; plain 2; plain 3].
Proof. intros [|[|[|i]]] c p Hc Hp; simplify_eq/=; reflexivity. Qed.

Lemma delegation_no_escalation_witness : grants (plain 3) ex_request.
Proof.
  apply (delegation_no_escalation (plain 1) [plain 2; plain 3]);
    [apply chain_ok_example|right; right; by left|].
  split_and!; [by left| |vm_compute; congruence..]. repeat split; by left.
Defined.

Lemma delegation_depth_bound_witness : zlen [plain 1; plain 2; plain 3] ≤ 3 + 1.
Proof.
  apply (delegation_depth_bound [plain 1; plain 2; plain 3] (plain 3) 3);
    [apply chain_ok_example|reflexivity|reflexivity|].
  intros a Ha d Hd. rewrite !elem_of_cons in Ha.
  destruct Ha as [->|[->|[->|Ha]]]; simplify_eq/=; [lia..|]. by apply not_elem_of_nil in Ha.
Defined.
