(* ===== verification/ClaimEvidence.v ===== *)
(** * The [claim] and [evidence] packages

    A translation of src/claim and src/evidence: the data model with its JSON
    form, structural validation and the canonical hash.  A claim's [Value] and
    an evidence's [Metadata] hold arbitrary Go values; they are represented by
    the JSON trees those values marshal to. *)
From S2P Require Import Prelude Sha256 GoTime Canonical Signature Authority.
#[local] Open Scope Z_scope.

Module Claim.
Import GoTime Authority Canonical.
#[local] Notation cerror := Canonical.error.

Record ClaimType : Type := MkClaimType { TNamespace : string; TName : string }.
Record Provenance : Type := MkProvenance { Source : string; Method : string; Timestamp : Time }.

Record Claim : Type := MkClaim {
  Issuer : string;
  CSubject : string;
  Type_ : ClaimType;
  Value : option json;
  CScope : Scope;
  CValidity : Validity;
  CProvenance : Provenance
}.

Inductive error : Type :=
| ErrNilClaim
| ErrEmptyIssuer
| ErrEmptySubject
| ErrEmptyClaimTypeNamespace
| ErrEmptyClaimTypeName
| ErrNilValue
| ErrScope (e : Authority.error)
| ErrCanonical (e : cerror).

Definition Provenance_json (p : Provenance) : outcome cerror json :=
  t ← jtime (Timestamp p);
  Ok (JObj (field "source" (jstr (Source p)) ++ field "method" (jstr (Method p)) ++ field "timestamp" t)).

#[global] Instance Claim_json : ToJSON Claim := λ c,
  s ← Scope_json (CScope c);
  v ← Validity_json (CValidity c);
  p ← Provenance_json (CProvenance c);
  Ok (JObj (field "issuer" (jstr (Issuer c)) ++ field "subject" (jstr (CSubject c)) ++
            field "type" (JObj (field "namespace" (jstr (TNamespace (Type_ c))) ++
                                field "name" (jstr (TName (Type_ c))))) ++
            field "value" (default JNull (Value c)) ++
            field "scope" s ++ field "validity" v ++ field "provenance" p)).
#[global] Instance Claim_declares : Declares Claim := Some EncodingJSON.

Definition Validate (c : option Claim) : outcome error unit :=
  match c with
  | None => Err ErrNilClaim
  | Some c =>
      if is_empty (Issuer c) then Err ErrEmptyIssuer
      else if is_empty (CSubject c) then Err ErrEmptySubject
      else if is_empty (TNamespace (Type_ c)) then Err ErrEmptyClaimTypeNamespace
      else if is_empty (TName (Type_ c)) then Err ErrEmptyClaimTypeName
      else match Value c with
           | None => Err ErrNilValue
           | Some _ => wrap_err ErrScope (ValidateScope (CScope c))
           end
  end.

Definition CanonicalHash `{!Hasher} `{!CborLib} (c : option Claim) : outcome error array32 :=
  match c with
  | None => Err ErrNilClaim
  | Some c => wrap_err ErrCanonical (Canonical.CanonicalHash c)
  end.

End Claim.

Module Evidence.
Import GoTime Authority Canonical.
#[local] Notation cerror := Canonical.error.

Definition ContentHashLen : Z := 32.

(** [ContentHash] tells nil from empty. *)
Record Evidence : Type := MkEvidence {
  Identifier : string;
  ContentHash : option bytes;
  MediaType : string;
  Locator : string;
  EProvenance : Claim.Provenance;
  Metadata : list (bytes * json)
}.

Inductive error : Type :=
| ErrNilEvidence
| ErrEmptyIdentifier
| ErrNilContentHash
| ErrEmptyContentHash
| ErrContentHashLength
| ErrEmptyMediaType
| ErrEmptyLocator
| ErrCanonical (e : cerror).

#[global] Instance Evidence_json : ToJSON Evidence := λ e,
  p ← Claim.Provenance_json (EProvenance e);
  Ok (JObj (field "identifier" (jstr (Identifier e)) ++
            field "contentHash" (match ContentHash e with None => JNull | Some b => JStr (base64 b) end) ++
            field "mediaType" (jstr (MediaType e)) ++ field "locator" (jstr (Locator e)) ++
            field "provenance" p ++
            match Metadata e with [] => [] | m => field "metadata" (JObj m) end)).
#[global] Instance Evidence_declares : Declares Evidence := Some EncodingJSON.

Definition ValidateEvidence (ev : option Evidence) : outcome error unit :=
  match ev with
  | None => Err ErrNilEvidence
  | Some e =>
      if is_empty (Identifier e) then Err ErrEmptyIdentifier
      else match ContentHash e with
           | None => Err ErrNilContentHash
           | Some b =>
               if zlen b =? 0 then Err ErrEmptyContentHash
               else if negb (zlen b =? ContentHashLen) then Err ErrContentHashLength
               else if is_empty (MediaType e) then Err ErrEmptyMediaType
               else if is_empty (Locator e) then Err ErrEmptyLocator
               else Ok tt
           end
  end.

Definition CanonicalHash `{!Hasher} `{!CborLib} (ev : option Evidence) : outcome error array32 :=
  match ev with
  | None => Err ErrNilEvidence
  | Some e => wrap_err ErrCanonical (Canonical.CanonicalHash e)
  end.

End Evidence.
