(* ===== verification/Attestation.v ===== *)
(** * The [attestation] package: signed claims

    A translation of src/attestation: the data model (attestation.go),
    structural validation (validate.go), the canonical hash (canonical.go),
    signatures (signature.go) and authorization (authorize.go).
    [VerifyAuthorization] reads the wall clock; the instant it reads is the
    argument [wall]. *)
From Stdlib Require Import SpecFloat.
From S2P Require Import Prelude Sha256 GoTime Canonical Signature Authority ClaimEvidence.
#[local] Open Scope Z_scope.

Module Attestation.
Import GoTime Authority Canonical.
#[local] Notation cerror := Canonical.error.

Record Attestation : Type := MkAttestation {
  AIssuer : string;
  SigningKeyID : string;
  SigningKeyVersion : Z;
  AuthorityRef : string;
  ACapability : Capability;
  AClaim : Claim.Claim;
  AEvidence : option (list Evidence.Evidence);
  IssuedAt : Time;
  AValidity : Validity;
  AStatus : Status;
  AAlgorithm : Signature.Algorithm;
  ASignature : bytes
}.

Inductive error : Type :=
| ErrNilAttestation
| ErrEmptyIssuer
| ErrEmptySigningKeyID
| ErrEmptyAuthorityRef
| ErrEmptyCapabilityNamespace
| ErrEmptyCapabilityName
| ErrInvalidClaim (e : Claim.error)
| ErrInvalidEvidence (e : Evidence.error)
| ErrUnknownStatus
| ErrZeroIssuedAt
| ErrEmptyValidity
| ErrUnsortedEvidence
| ErrTamperedAttestation
| ErrWrongKey
| ErrNilSigner
| ErrMissingAuthorityRef
| ErrAuthorityMismatch
| ErrSubjectMismatch
| ErrCapabilityNotGranted
| ErrAuthorityNotActive
| ErrAttestationNotActive
| ErrAttestationNotCurrent
| ErrAuthorizationScope
| ErrAuthorizationValidity
| ErrAuthority (e : Authority.error)
| ErrSignature (e : Signature.error)
| ErrCanonical (e : cerror).

#[global] Instance Attestation_json : ToJSON Attestation := λ a,
  c ← to_json (AClaim a);
  ev ← (match AEvidence a with
        | None => Ok JNull
        | Some l => js ← each (λ _ e, to_json e) 0 l; Ok (JArr js)
        end);
  t ← jtime (IssuedAt a);
  v ← Validity_json (AValidity a);
  Ok (JObj (field "issuer" (jstr (AIssuer a)) ++ field "signingKeyId" (jstr (SigningKeyID a)) ++
            field "signingKeyVersion" (jint (SigningKeyVersion a)) ++
            field "authorityRef" (jstr (AuthorityRef a)) ++
            field "capability" (Capability_json (ACapability a)) ++
            field "claim" c ++ field "evidence" ev ++ field "issuedAt" t ++ field "validity" v ++
            field "status" (jint (AStatus a)) ++ field "algorithm" (jint (AAlgorithm a)) ++
            field_bytes "signature" (ASignature a))).
#[global] Instance Attestation_declares : Declares Attestation := Some EncodingJSON.

Definition with_signature (a : Attestation) (sig : bytes) : Attestation :=
  {| AIssuer := AIssuer a; SigningKeyID := SigningKeyID a; SigningKeyVersion := SigningKeyVersion a;
     AuthorityRef := AuthorityRef a; ACapability := ACapability a; AClaim := AClaim a;
     AEvidence := AEvidence a; IssuedAt := IssuedAt a; AValidity := AValidity a; AStatus := AStatus a;
     AAlgorithm := AAlgorithm a; ASignature := sig |}.

(** [if keyID != "" { SigningKeyID = keyID }; Algorithm = alg; Signature = nil]. *)
Definition with_metadata (a : Attestation) (alg : Signature.Algorithm) (keyID : string) : Attestation :=
  {| AIssuer := AIssuer a; SigningKeyID := if is_empty keyID then SigningKeyID a else keyID;
     SigningKeyVersion := SigningKeyVersion a; AuthorityRef := AuthorityRef a;
     ACapability := ACapability a; AClaim := AClaim a; AEvidence := AEvidence a;
     IssuedAt := IssuedAt a; AValidity := AValidity a; AStatus := AStatus a; AAlgorithm := alg;
     ASignature := [] |}.

(** ** authorize.go, the pure checks *)

Definition capabilityGranted (l : list Capability) (c : Capability) : bool :=
  existsb (λ g, bool_decide (g = c)) l.

Definition stringSliceSubset (sub super : list string) : bool :=
  if zlen super <? zlen sub then false
  else forallb (λ s, existsb (λ v, String.eqb v s) super) sub.

(** [a > b] on [float64]: false when either side is NaN. *)
Definition float_gt (a b : spec_float) : bool := SFltb b a.

Definition windowWithin (sub super : option TimeWindow) : bool :=
  match super with
  | None => true
  | Some p => match sub with
              | None => false
              | Some c => negb (Before (Start c) (Start p) || After (End_ c) (End_ p))
              end
  end.
Definition quantityWithin (sub super : option Quantity) : bool :=
  match super with
  | None => true
  | Some p => match sub with
              | None => false
              | Some c => negb (negb (String.eqb (Unit c) (Unit p)) || (QLimit p <? QLimit c))
              end
  end.
Definition monetaryWithin (sub super : option Monetary) : bool :=
  match super with
  | None => true
  | Some p => match sub with
              | None => false
              | Some c => negb (negb (String.eqb (Currency c) (Currency p)) || float_gt (MLimit c) (MLimit p))
              end
  end.

Definition scopeSubset (sub super : Scope) : bool :=
  stringSliceSubset (Resources sub) (Resources super) &&
  stringSliceSubset (Subjects sub) (Subjects super) &&
  stringSliceSubset (Actions sub) (Actions super) &&
  stringSliceSubset (Organizations sub) (Organizations super) &&
  stringSliceSubset (Geography sub) (Geography super) &&
  stringSliceSubset (Channels sub) (Channels super) &&
  windowWithin (Window sub) (Window super) &&
  quantityWithin (Quantity_ sub) (Quantity_ super) &&
  monetaryWithin (Monetary_ sub) (Monetary_ super).

Definition validitySubset (sub super : Validity) : bool :=
  negb (Before (NotBefore sub) (NotBefore super)) && negb (After (NotAfter sub) (NotAfter super)).

Definition validityContains (v : Validity) (now : Time) : bool :=
  negb (Before now (NotBefore v)) && negb (After now (NotAfter v)).

(** [for i := 1; ...; bytes.Compare(hashes[i-1][:], hashes[i][:]) >= 0]. *)
Fixpoint unsorted_hashes (l : list array32) : bool :=
  match l with
  | a :: ((b :: _) as l') => bytes_leb (arr b) (arr a) || unsorted_hashes l'
  | _ => false
  end.

Section Ops.
Context `{!Hasher} `{!CborLib} `{!Signature.KeyOps}.

(** ** canonical.go *)

Definition CanonicalHash (att : option Attestation) : outcome error array32 :=
  match att with
  | None => Err ErrNilAttestation
  | Some a => wrap_err ErrCanonical (Canonical.CanonicalHash (with_signature a []))
  end.

(** ** validate.go *)

Definition validate_evidence (e : Evidence.Evidence) : outcome error array32 :=
  _ ← wrap_err ErrInvalidEvidence (Evidence.ValidateEvidence (Some e));
  wrap_err ErrInvalidEvidence (Evidence.CanonicalHash (Some e)).

Definition Validate (att : option Attestation) : outcome error unit :=
  match att with
  | None => Err ErrNilAttestation
  | Some a =>
      if is_empty (AIssuer a) then Err ErrEmptyIssuer
      else if is_empty (SigningKeyID a) then Err ErrEmptySigningKeyID
      else if is_empty (AuthorityRef a) then Err ErrEmptyAuthorityRef
      else if is_empty (Namespace (ACapability a)) then Err ErrEmptyCapabilityNamespace
      else if is_empty (Name (ACapability a)) then Err ErrEmptyCapabilityName
      else
        _ ← wrap_err ErrInvalidClaim (Claim.Validate (Some (AClaim a)));
        hashes ← each (λ _, validate_evidence) 0 (elems (AEvidence a));
        if negb (known_status (AStatus a)) then Err ErrUnknownStatus
        else if IsZero (IssuedAt a) then Err ErrZeroIssuedAt
        else if IsZero (NotBefore (AValidity a)) && IsZero (NotAfter (AValidity a)) then Err ErrEmptyValidity
        else if unsorted_hashes hashes then Err ErrUnsortedEvidence
        else Ok tt
  end.

(** ** signature.go *)

(** Like [SignAuthority], the attestation as the call leaves it and its error. *)
Definition SignAttestation (att : option Attestation) (signer : option Signature.Signer) (keyID : string)
    : option Attestation * outcome error unit :=
  match att, signer with
  | None, _ => (None, Err ErrNilAttestation)
  | Some a, None => (Some a, Err ErrNilSigner)
  | Some a, Some s =>
      match pub ← Signature.signer_PublicKey s; Signature.AlgorithmForPublicKey pub with
      | Ok alg =>
          let a1 := with_metadata a alg keyID in
          match h ← CanonicalHash (Some a1);
                wrap_err ErrSignature (Signature.signer_Sign s (arr h)) with
          | Ok sig => (Some (with_signature a1 sig), Ok tt)
          | Err e => (Some a1, Err e)
          | Panic => (Some a1, Panic)
          | OutOfFuel => (Some a1, OutOfFuel)
          end
      | Err e => (Some a, Err (ErrSignature e))
      | Panic => (Some a, Panic)
      | OutOfFuel => (Some a, OutOfFuel)
      end
  end.

Definition VerifySignature (att : option Attestation) (leafPub : Signature.PublicKey) : outcome error unit :=
  match att with
  | None => Err ErrNilAttestation
  | Some a =>
      match Signature.AlgorithmForPublicKey leafPub with
      | Ok alg =>
          if negb (alg =? AAlgorithm a) then Err ErrWrongKey
          else
            h ← CanonicalHash att;
            match Signature.Verify (AAlgorithm a) leafPub (ASignature a) (arr h) with
            | Ok true => Ok tt
            | Ok false => Err ErrTamperedAttestation
            | Err _ => Err ErrTamperedAttestation
            | Panic => Panic
            | OutOfFuel => OutOfFuel
            end
      | Err _ => Err ErrWrongKey
      | Panic => Panic
      | OutOfFuel => OutOfFuel
      end
  end.

(** ** authorize.go *)

Definition VerifyAuthorization (wall : Time) (att : option Attestation) (auth : option Authority)
    : outcome error unit :=
  match att, auth with
  | None, _ => Err ErrNilAttestation
  | Some _, None => Err (ErrAuthority ErrNilAuthority)
  | Some a, Some au =>
      if is_empty (AuthorityRef a) then Err ErrMissingAuthorityRef
      else
        h ← wrap_err ErrAuthority (Authority.CanonicalHash auth);
        if negb (String.eqb (hex_encode (arr h)) (AuthorityRef a)) then Err ErrAuthorityMismatch
        else if negb (String.eqb (AIssuer a) (Subject au)) then Err ErrSubjectMismatch
        else if negb (capabilityGranted (caps au) (ACapability a)) then Err ErrCapabilityNotGranted
        else if negb (Status_ au =? StatusActive) then Err ErrAuthorityNotActive
        else if negb (AStatus a =? StatusActive) then Err ErrAttestationNotActive
        else if negb (validityContains (AValidity a) wall) then Err ErrAttestationNotCurrent
        else if negb (scopeSubset (Claim.CScope (AClaim a)) (Scope_ au)) then Err ErrAuthorizationScope
        else if negb (validitySubset (Claim.CValidity (AClaim a)) (Validity_ au)) ||
                negb (validitySubset (AValidity a) (Validity_ au)) then Err ErrAuthorizationValidity
        else Ok tt
  end.

Definition VerifyAttestation (wall : Time) (att : option Attestation) (leafPub : Signature.PublicKey)
    (auth : option Authority) : outcome error unit :=
  _ ← VerifySignature att leafPub;
  VerifyAuthorization wall att auth.

End Ops.
End Attestation.
