(* ===== verification/AttestationProofs.v ===== *)
(** * Attestations: validation, signature and authorization

    What each verification step establishes, stated as an equivalence with a
    declarative condition, and where the scope check departs from the one the
    delegation package performs. *)
From Stdlib Require Import SpecFloat.
From stdpp Require Import sorting.
From S2P Require Import Prelude Sha256 GoTime Canonical Signature SignatureProofs Authority.
From S2P Require Import AuthorityProofs Delegation DelegationProofs ClaimEvidence Attestation.
Import GoTime Authority Attestation.
#[local] Open Scope Z_scope.

Section Proofs.
Context `{!Hasher} `{!Canonical.CborLib} `{!Signature.KeyOps}.

(** ** Signatures *)

Lemma VerifySignature_spec a pub :
  VerifySignature (Some a) pub = Ok tt ↔
  Signature.AlgorithmForPublicKey pub = Ok (AAlgorithm a) ∧
  ∃ h, CanonicalHash (Some a) = Ok h ∧
       Signature.Verify (AAlgorithm a) pub (ASignature a) (arr h) = Ok true.
Proof.
  unfold VerifySignature.
  destruct (Signature.AlgorithmForPublicKey pub) as [alg| | |] eqn:Ea; [|naive_solver..].
  destruct (Z.eqb_spec alg (AAlgorithm a)) as [->|Hne]; cbn [negb]; [|naive_solver].
  destruct (CanonicalHash (Some a)) as [h| | |]; cbn [mbind outcome_bind]; [|naive_solver..].
  destruct (Signature.Verify _ _ _ _) as [[]| | |] eqn:Ev; split; try done;
    try (by eauto); by intros (_ & h' & [= <-] & Ev'); rewrite Ev in Ev'.
Qed.

(** An attestation that [SignAttestation] signed with a lawful signer passes
    [VerifySignature] under the signer's public key, and only the key metadata and
    the signature have changed. *)
Theorem SignAttestation_verifies a s keyID pub `{!SignatureProofs.LawfulSigner s} :
  Signature.signer_PublicKey s = Ok pub → (SignAttestation (Some a) (Some s) keyID).2 = Ok tt →
  ∃ alg sig, let a' := with_signature (with_metadata a alg keyID) sig in
    (SignAttestation (Some a) (Some s) keyID).1 = Some a' ∧ VerifySignature (Some a') pub = Ok tt.
Proof.
  intros Hpub. unfold SignAttestation. rewrite Hpub. cbn [mbind outcome_bind].
  destruct (Signature.AlgorithmForPublicKey pub) as [alg| | |] eqn:Ea; try done.
  destruct (CanonicalHash (Some (with_metadata a alg keyID))) as [h| | |] eqn:Eh; try done.
  cbn [mbind outcome_bind]. destruct (Signature.signer_Sign s (arr h)) as [sig| | |] eqn:Es; try done.
  intros _. exists alg, sig. split; [done|]. apply VerifySignature_spec. split; [done|].
  exists h. split; [done|]. by eapply SignatureProofs.signer_verifies.
Qed.

(** ** Authorization *)

(** A claim's list of values under an authority's: not longer, and every value one of the
    authority's.  The empty list is not special: under it only the empty list passes. *)
Definition dimension_within (sub super : list string) : Prop := (length sub ≤ length super)%nat ∧ sub ⊆ super.

(** A claim's scope under an authority's.  Each list is within the authority's, and each
    of the window, the quantity and the amount that the authority sets is set by the
    claim too and does not exceed it; an amount is compared as a [float64]. *)
Record scope_within (sub super : Scope) : Prop := {
  sw_dimensions : Forall2 dimension_within (dimensions sub) (dimensions super);
  sw_window : ∀ p, Window super = Some p → ∃ c, Window sub = Some c ∧
    instant (Start p) ≤ instant (Start c) ∧ instant (End_ c) ≤ instant (End_ p);
  sw_quantity : ∀ p, Quantity_ super = Some p → ∃ c, Quantity_ sub = Some c ∧ Unit c = Unit p ∧ QLimit c ≤ QLimit p;
  sw_monetary : ∀ p, Monetary_ super = Some p → ∃ c, Monetary_ sub = Some c ∧
    Currency c = Currency p ∧ SFltb (MLimit p) (MLimit c) = false
}.

(** The conditions under which an authority covers an attestation at [wall]. *)
Record authorized (wall : Time) (a : Attestation) (au : Authority) : Prop := {
  auth_ref : AuthorityRef a ≠ "";
  auth_hash : ∃ h, Authority.CanonicalHash (Some au) = Ok h ∧ AuthorityRef a = hex_encode (arr h);
  auth_issuer : AIssuer a = Subject au;
  auth_capability : ACapability a ∈ caps au;
  auth_active : Status_ au = StatusActive ∧ AStatus a = StatusActive;
  auth_current : instant (NotBefore (AValidity a)) ≤ instant wall ≤ instant (NotAfter (AValidity a));
  auth_scope : scope_within (Claim.CScope (AClaim a)) (Scope_ au);
  auth_claim_validity :
    instant (NotBefore (Validity_ au)) ≤ instant (NotBefore (Claim.CValidity (AClaim a))) ∧
    instant (NotAfter (Claim.CValidity (AClaim a))) ≤ instant (NotAfter (Validity_ au));
  auth_validity :
    instant (NotBefore (Validity_ au)) ≤ instant (NotBefore (AValidity a)) ∧
    instant (NotAfter (AValidity a)) ≤ instant (NotAfter (Validity_ au))
}.

Lemma negb_false_true b : negb b = false ↔ b = true.
Proof. destruct b; done. Qed.

(** A guard [if !b { return err }] followed by [rest]. *)
Lemma guard_ok {E} (b : bool) (e : E) rest :
  (if negb b then Err e else rest) = Ok tt ↔ b = true ∧ rest = Ok tt.
Proof. destruct b; naive_solver. Qed.

Lemma capabilityGranted_spec l c : capabilityGranted l c = true ↔ c ∈ l.
Proof. apply (contains_spec l c). Qed.

Lemma validitySubset_spec s p : validitySubset s p = true ↔
  instant (NotBefore p) ≤ instant (NotBefore s) ∧ instant (NotAfter s) ≤ instant (NotAfter p).
Proof. unfold validitySubset. by rewrite andb_true_iff, not_Before, not_After. Qed.

Lemma validityContains_spec v t : validityContains v t = true ↔
  instant (NotBefore v) ≤ instant t ≤ instant (NotAfter v).
Proof. unfold validityContains. by rewrite andb_true_iff, not_Before, not_After. Qed.

Lemma dimension_within_spec sub super : stringSliceSubset sub super = true ↔ dimension_within sub super.
Proof.
  unfold stringSliceSubset, dimension_within. destruct (Z.ltb_spec (zlen super) (zlen sub)); [split; [done|lia]|].
  rewrite forallb_forall. split.
  - intros Hall. split; [lia|]. intros x Hx%list_elem_of_In. apply Hall, existsb_exists in Hx as (y & Hy & ->%String.eqb_eq).
    by apply list_elem_of_In.
  - intros [_ Hs] x Hx. apply existsb_exists. exists x. rewrite String.eqb_refl. split; [|done].
    by apply list_elem_of_In, Hs, list_elem_of_In.
Qed.

(** A constraint that may be absent. *)
Lemma optional_spec {A} (super sub : option A) (f : A → A → bool) (R : A → A → Prop) :
  (∀ p c, f p c = true ↔ R p c) →
  match super with None => true | Some p => match sub with None => false | Some c => f p c end end = true ↔
  ∀ p, super = Some p → ∃ c, sub = Some c ∧ R p c.
Proof.
  intros Hf. destruct super as [p|]; [|by split]. destruct sub as [c|].
  - rewrite Hf. split; [|naive_solver]. intros HR ? [= <-]. by exists c.
  - split; [done|]. intros Hs. by destruct (Hs p eq_refl) as (? & ? & _).
Qed.

Lemma scopeSubset_spec sub super : scopeSubset sub super = true ↔ scope_within sub super.
Proof.
  assert (windowWithin (Window sub) (Window super) = true ↔ ∀ p, Window super = Some p → ∃ c, Window sub = Some c ∧
    instant (Start p) ≤ instant (Start c) ∧ instant (End_ c) ≤ instant (End_ p)) as Hw.
  { unfold windowWithin. apply (optional_spec _ _ (λ p c, negb (Before (Start c) (Start p) || After (End_ c) (End_ p)))).
    intros p c. by rewrite negb_orb, andb_true_iff, not_Before, not_After. }
  assert (quantityWithin (Quantity_ sub) (Quantity_ super) = true ↔ ∀ p, Quantity_ super = Some p → ∃ c,
    Quantity_ sub = Some c ∧ Unit c = Unit p ∧ QLimit c ≤ QLimit p) as Hq.
  { unfold quantityWithin. apply (optional_spec _ _ (λ p c, negb (negb (String.eqb (Unit c) (Unit p)) || (QLimit p <? QLimit c)))).
    intros p c. by rewrite negb_orb, negb_involutive, andb_true_iff, String.eqb_eq, negb_true_iff, Z.ltb_ge. }
  assert (monetaryWithin (Monetary_ sub) (Monetary_ super) = true ↔ ∀ p, Monetary_ super = Some p → ∃ c,
    Monetary_ sub = Some c ∧ Currency c = Currency p ∧ SFltb (MLimit p) (MLimit c) = false) as Hm.
  { unfold monetaryWithin. apply (optional_spec _ _ (λ p c, negb (negb (String.eqb (Currency c) (Currency p)) || float_gt (MLimit c) (MLimit p)))).
    intros p c. by rewrite negb_orb, negb_involutive, andb_true_iff, String.eqb_eq, negb_true_iff. }
  unfold scopeSubset. rewrite !andb_true_iff, Hw, Hq, Hm, !dimension_within_spec. split.
  - intros [[[[[[[[S1 S2] S3] S4] S5] S6] S7] S8] S9]. split; [|done..]. repeat (apply Forall2_cons; split; [done|]). by apply Forall2_nil.
  - intros [Hd H7 H8 H9]. unfold dimensions in Hd. rewrite !Forall2_cons in Hd. tauto.
Qed.

Lemma VerifyAuthorization_spec wall a au :
  VerifyAuthorization wall (Some a) (Some au) = Ok tt ↔ authorized wall a au.
Proof.
  unfold VerifyAuthorization. destruct (is_empty (AuthorityRef a)) eqn:Er.
  { apply String.eqb_eq in Er. split; [done|]. intros []. done. }
  apply is_empty_false in Er.
  destruct (Authority.CanonicalHash (Some au)) as [h| | |] eqn:Eh; cbn [wrap_err mbind outcome_bind];
    try (split; [done|]; intros [? (h' & Hh & _) ?]; congruence).
  rewrite !guard_ok, <- negb_andb, guard_ok, andb_true_iff, !String.eqb_eq, !Z.eqb_eq,
    capabilityGranted_spec, validityContains_spec, scopeSubset_spec, !validitySubset_spec.
  split.
  - intros (K1 & K2 & K3 & K4 & K5 & K6 & K7 & K8 & _). split; try done; [|naive_solver..]. by exists h.
  - intros [K1 (h' & Hh & Href) K3 K4 [K5 K5'] K6 K7 K8 K9]. rewrite Eh in Hh. injection Hh as ->.
    rewrite Href. tauto.
Qed.

(** C24.  [VerifyAuthorization] accepts exactly when the attestation refers to the
    authority by its canonical hash, was issued by its subject under a capability
    it grants, both are active, the attestation is current, both validity windows lie
    inside the authority's, and the claim's scope is within the authority's: each list
    of values is no longer than the authority's and has only values of it, and the
    window, quantity and amount the authority sets are set and not exceeded.  So an
    empty list of the authority admits only an empty list, and an empty list of the
    claim passes under any, contrary to the comment on [scopeSubset]. *)
Theorem VerifyAuthorization_iff wall a au :
  VerifyAuthorization wall (Some a) (Some au) = Ok tt ↔ authorized wall a au.
Proof. apply VerifyAuthorization_spec. Qed.

(** ** The scope check *)

(** A claim's scope restates every string dimension its authority constrains. *)
Definition restates (sub super : Scope) : Prop :=
  ∀ i s p, dimensions sub !! i = Some s → dimensions super !! i = Some p → p ≠ [] → s ≠ [].

Lemma float_gt_le a b x : a ≠ S754_nan → float_gt a b = false → b ≠ S754_nan → SFleb x a = true → SFleb x b = true.
Proof.
  intros Ha Hgt Hb Hx. eapply SFcompare_trans; [exact Hx|]. revert Hgt. unfold float_gt, SFltb, SFleb, SFcompare.
  destruct a as [sa|sa| |sa ma ea], b as [sb|sb| |sb mb eb]; try done;
    try destruct sa; try destruct sb; try done; rewrite ?(Z.compare_antisym ea eb);
    destruct (ea ?= eb)%Z eqn:Ee; simpl; try done;
    change (Pos.compare_cont Eq mb ma) with (mb ?= ma)%positive;
    change (Pos.compare_cont Eq ma mb) with (ma ?= mb)%positive;
    rewrite (Pos.compare_antisym ma mb); by destruct (ma ?= mb)%positive.
Qed.

Lemma dimension_sound sub super i s p x :
  scope_within sub super → restates sub super → dimensions sub !! i = Some s → dimensions super !! i = Some p →
  in_dimension s x → in_dimension p x.
Proof.
  intros [Hd _ _ _] Hr Hs Hp Hx. destruct p as [|y p]; [by left|]. right.
  destruct Hx as [->|Hx]; [by destruct (Hr i [] (y :: p))|].
  destruct (Forall2_lookup_lr _ _ _ _ _ _ Hd Hs Hp) as [_ Hsub]. by apply Hsub.
Qed.

(** A monetary limit that an authority can carry: JSON has no NaN. *)
Definition limit_ok (s : Scope) : Prop := ∀ m, Monetary_ s = Some m → MLimit m ≠ S754_nan.

Lemma hash_limit_ok au h : Authority.CanonicalHash (Some au) = Ok h → limit_ok (Scope_ au).
Proof.
  intros Hh m Hm Hn. revert Hh. unfold Authority.CanonicalHash, Canonical.CanonicalHash. cbn.
  unfold Canonical.JSONCanonicalize, Canonical.to_json, Authority_json. cbn [Scope_ Authority.with_signature].
  unfold Scope_json. rewrite Hm. cbn [field_opt]. unfold Monetary_json. rewrite Hn. cbn [jfloat].
  unfold mbind, outcome_bind.
  destruct (field_opt "parent" _ _); [|done..]. destruct (field_opt "timeWindow" _ _); [|done..].
  by destruct (field_opt "quantity" _ _).
Qed.

Lemma scope_within_restated sub super r :
  scope_within sub super → restates sub super → limit_ok super →
  scope_permits sub r → scope_permits super r.
Proof.
  intros Hs Hr Hl (P1 & P2 & P3 & P4 & P5 & P6 & P7 & P8 & P9). pose proof Hs as [_ S7 S8 S9].
  split_and!.
  - by eapply (dimension_sound sub super 0).
  - by eapply (dimension_sound sub super 1).
  - by eapply (dimension_sound sub super 2).
  - by eapply (dimension_sound sub super 3).
  - by eapply (dimension_sound sub super 4).
  - by eapply (dimension_sound sub super 5).
  - destruct (Window super) as [p|]; [|done]. destruct (S7 p eq_refl) as (c & Ec & ?). rewrite Ec in P7. simpl in *. lia.
  - destruct (Quantity_ super) as [p|]; [|done]. destruct (S8 p eq_refl) as (c & Ec & ? & ?). rewrite Ec in P8.
    destruct P8. simpl. split; [congruence|lia].
  - destruct (Monetary_ super) as [p|] eqn:Ep; [|done]. destruct (S9 p eq_refl) as (c & Ec & E9 & Hgt). rewrite Ec in P9.
    destruct P9 as [E9' Hx]. split; [congruence|].
    eapply (float_gt_le (MLimit c)); [|done|by apply Hl|done].
    intros E0. rewrite E0 in Hx. by destruct (r_money r).
Qed.

(** If, in every string dimension its authority constrains, the claim of an
    authorized attestation names at least one value, then the authority permits
    whatever the claim's scope admits within the attestation's validity under the
    attested capability. *)
Theorem authorization_within_grant wall a au r :
  VerifyAuthorization wall (Some a) (Some au) = Ok tt →
  restates (Claim.CScope (AClaim a)) (Scope_ au) →
  r_capability r = ACapability a → scope_permits (Claim.CScope (AClaim a)) r →
  instant (NotBefore (AValidity a)) ≤ instant (r_time r) ≤ instant (NotAfter (AValidity a)) →
  grants au r.
Proof.
  rewrite VerifyAuthorization_spec. intros [_ (h & Hh & _) _ Hcap _ _ Hs _ Hv] Hr Ec Hp Ht.
  split_and!; [by rewrite Ec| |lia..].
  eapply scope_within_restated; [exact Hs|done|by eapply hash_limit_ok|done].
Qed.

End Proofs.

(** A scope that constrains its resources to [l] and nothing else. *)
Definition resources_only (l : list string) : Scope :=
  {| Resources := l; Subjects := []; Actions := []; Organizations := []; Geography := [];
     Channels := []; Window := None; Quantity_ := None; Monetary_ := None |}.

(** The attestation package's [scopeSubset] reverses the meaning its comment
    and the delegation package give to an empty dimension: a claim without any
    resource constraint passes under an authority limited to [x], and a claim
    limited to [x] is refused under an authority without resource constraint. *)
Theorem scopeSubset_inverted x :
  scopeSubset (resources_only []) (resources_only [x]) = true ∧
  scopeSubset (resources_only [x]) (resources_only []) = false ∧
  Delegation.scopeSubset (resources_only [x]) (resources_only []) = false ∧
  Delegation.scopeSubset (resources_only []) (resources_only [x]) = true.
Proof. repeat split. Qed.

(** ** Concrete inputs *)

Definition ex_signed (a : Authority) : Authority :=
  default a (SignAuthority (Some a) (Some ex_root_signer) "k1").1.

Definition ex_authority : Authority := ex_signed ex_root.
Definition ex_ref (a : Authority) : string :=
  match Authority.CanonicalHash (Some a) with Ok h => hex_encode (arr h) | _ => "" end.

Definition ex_claim : Claim.Claim :=
  {| Claim.Issuer := "did:example:root"; Claim.CSubject := "did:example:s";
     Claim.Type_ := Claim.MkClaimType "ex" "t"; Claim.Value := Some (Canonical.JBool true);
     Claim.CScope := {| Resources := ["doc"]; Subjects := []; Actions := ["read"]; Organizations := [];
                        Geography := []; Channels := []; Window := None;
                        Quantity_ := Some (MkQuantity "documents" 3); Monetary_ := None |};
     Claim.CValidity := MkValidity (of_unix 1710000000) (of_unix 1720000000);
     Claim.CProvenance := Claim.MkProvenance "s" "m" (of_unix 1710000000) |}.

Definition ex_evidence : Evidence.Evidence :=
  {| Evidence.Identifier := "e1"; Evidence.ContentHash := Some (arr (Sum [x01; x02; x03]));
     Evidence.MediaType := "text/plain"; Evidence.Locator := "file:e1";
     Evidence.EProvenance := Claim.MkProvenance "s" "m" (of_unix 1710000000); Evidence.Metadata := [] |}.

Definition ex_unsigned : Attestation :=
  {| AIssuer := "did:example:root"; SigningKeyID := "k1"; SigningKeyVersion := 1;
     AuthorityRef := ex_ref ex_authority; ACapability := CapabilityAttest; AClaim := ex_claim;
     AEvidence := Some [ex_evidence]; IssuedAt := of_unix 1710000000;
     AValidity := MkValidity (of_unix 1710000000) (of_unix 1720000000); AStatus := StatusActive;
     AAlgorithm := 0; ASignature := [] |}.

Definition ex_attestation : Attestation :=
  default ex_unsigned (SignAttestation (Some ex_unsigned) (Some ex_root_signer) "k1").1.
Definition ex_wall : Time := of_unix 1715000000.

Lemma SignAttestation_verifies_witness :
  ∃ alg sig, let a' := with_signature (with_metadata ex_unsigned alg "k1") sig in
    (SignAttestation (Some ex_unsigned) (Some ex_root_signer) "k1").1 = Some a' ∧
    VerifySignature (Some a') ex_root_pub = Ok tt.
Proof. apply SignAttestation_verifies; [exact _|reflexivity|vm_compute; reflexivity]. Defined.

Lemma authorization_within_grant_witness :
  grants ex_authority (Request CapabilityAttest "doc" "s" "read" "o" "g" "c" ex_wall "documents" 2 "USD" (S754_zero false)).
Proof.
  apply (authorization_within_grant ex_wall ex_attestation ex_authority).
  - vm_compute. reflexivity.
  - intros [|[|[|[|[|[|i]]]]]] s p Hs Hp Hne; vm_compute in Hs, Hp; simplify_eq; done.
  - vm_compute. reflexivity.
  - vm_compute. repeat split; try (by left); try (right; by left); congruence.
  - vm_compute. split; congruence.
Defined.
