(* ===== verification/CommitmentObject.v ===== *)
(** * Commitments to trust objects

    The adapters of src/commitment/object.go, which give the four trust objects
    the interface [TrustObject], and the canonical form of a commitment
    (src/commitment/serialize.go and commitment.go).  [Unmarshal] is in Wire.v. *)
From stdpp Require Import sorting.
From S2P Require Import Prelude Sha256 GoTime Canonical Signature SignatureProofs Authority.
From S2P Require Import AuthorityProofs ClaimEvidence Attestation AttestationProofs Merkle Commitment.
From S2P Require Import CommitmentProofs.
#[local] Open Scope Z_scope.

Module CommitmentObject.

(** The error of the package an adapter delegates to. *)
Inductive error : Type :=
| FromAuthority (e : Authority.error)
| FromClaim (e : Claim.error)
| FromAttestation (e : Attestation.error)
| FromEvidence (e : Evidence.error).

(** The adapter structs; a nil embedded pointer is [None]. *)
Inductive Object : Type :=
| AuthorityObject (a : option Authority.Authority)
| ClaimObject (c : option Claim.Claim)
| AttestationObject (a : option Attestation.Attestation)
| EvidenceObject (e : option Evidence.Evidence).

Definition NewAuthorityObject (a : option Authority.Authority) : Object := AuthorityObject a.
Definition NewClaimObject (c : option Claim.Claim) : Object := ClaimObject c.
Definition NewAttestationObject (a : option Attestation.Attestation) : Object := AttestationObject a.
Definition NewEvidenceObject (e : option Evidence.Evidence) : Object := EvidenceObject e.

(** MarshalJSON of a commitment, as the tree its text decodes to. *)
#[global] Instance Commitment_json : Canonical.ToJSON Commitment.Commitment := λ c,
  let dto := Commitment.Commitment_to_dto c in
  Ok (Canonical.JObj
    (Authority.field "root" (Canonical.jstr (Commitment.json_root dto)) ++
     Authority.field "size" (Canonical.jint (Commitment.json_size dto)) ++
     Authority.field "leafHashes" (Canonical.JArr (Canonical.jstr <$> Commitment.json_leafHashes dto)) ++
     Authority.field "algorithm" (Canonical.jstr (Commitment.json_algorithm dto)))).
#[global] Instance Commitment_declares : Canonical.Declares Commitment.Commitment := Some Canonical.EncodingJSON.

Section Ops.
Context `{!Hasher} `{!Canonical.CborLib}.

(** The four [LeafHash] methods. *)
Definition Object_LeafHash (o : Object) : outcome error array32 :=
  match o with
  | AuthorityObject a => wrap_err FromAuthority (Authority.CanonicalHash a)
  | ClaimObject c => wrap_err FromClaim (Claim.CanonicalHash c)
  | AttestationObject a => wrap_err FromAttestation (Attestation.CanonicalHash a)
  | EvidenceObject e => wrap_err FromEvidence (Evidence.CanonicalHash e)
  end.

(** An adapter as a [TrustObject]. *)
Definition as_object (o : Object) : Commitment.TrustObject error := Commitment.MkObject (Object_LeafHash o).

(** [json.Marshal] renders a nil pointer as [null]. *)
Definition Marshal (c : option Commitment.Commitment) : outcome Canonical.error bytes :=
  match c with
  | None => Ok (str_bytes "null")
  | Some c => Canonical.Marshal c Canonical.EncodingJSON
  end.

Definition CanonicalHash (c : option Commitment.Commitment) : outcome (Commitment.error Canonical.error) array32 :=
  match c with
  | None => Err Commitment.ErrNilCommitment
  | Some c => wrap_err Commitment.ErrObject (Canonical.CanonicalHash c)
  end.

End Ops.
End CommitmentObject.

Import CommitmentObject.

Section Proofs.
Context `{!Hasher} `{!Canonical.CborLib}.
#[local] Notation object o := (Some (as_object o)).

Lemma Build_leaves (os : list Object) c : Commitment.Build (Some ∘ as_object <$> os) = Ok c →
  ∃ leaves, os ≠ [] ∧
    Forall2 (λ o h, Commitment.LeafHash o = Ok h) (Some ∘ as_object <$> os) leaves.
Proof.
  unfold Commitment.Build. destruct os as [|o os]; [discriminate|]. cbn [length fmap list_fmap Nat.eqb].
  destruct (each _ _ _) as [leaves| | |] eqn:El; try discriminate. intros _. exists leaves. split; [done|].
  by apply (each_Forall2 Commitment.LeafHash 0).
Qed.

(** Every object a commitment was built from can be proved included: after a
    successful [Build] over adapted trust objects, [InclusionProof] returns a proof
    for each of them and [VerifyInclusion] accepts it against the recorded root. *)
Theorem Build_objects_included (os : list Object) c o :
  Commitment.Build (Some ∘ as_object <$> os) = Ok c → zlen os ≤ max_int → o ∈ os →
  ∃ p, Commitment.InclusionProof (Some c) (object o) = Ok p ∧
       Commitment.VerifyInclusion (Commitment.Root c) p (object o) = Ok tt.
Proof.
  intros Hb Hmax Ho. destruct (Build_leaves os c Hb) as (leaves & Hne & Hf).
  destruct (Build_spec (Some ∘ as_object <$> os) leaves) as [Hok Hdup]; [by destruct os|done|].
  destruct (decide (NoDup leaves)) as [Hnd|Hnd]; [|rewrite (Hdup Hnd) in Hb; discriminate].
  destruct (Hok Hnd) as (c' & Hc' & Hv & Hp). rewrite Hb in Hc'. injection Hc' as <-.
  apply list_elem_of_lookup in Ho as [i Hi].
  destruct (Forall2_lookup_l _ _ _ i (object o) Hf) as (leaf & Hl & Hleaf); [by rewrite list_lookup_fmap, Hi|].
  assert (leaf ∈ Commitment.LeafHashes c) as Hin by (rewrite Hp; by eapply list_elem_of_lookup_2).
  apply list_elem_of_lookup in Hin as [j Hj].
  destruct (InclusionProof_spec c (as_object o) leaf Hv) as [Hinc _]; [|done|].
  - destruct Hv as (_ & _ & -> & _). rewrite (Permutation_length Hp), <- (Forall2_length _ _ _ Hf), length_fmap. done.
  - destruct (Hinc j Hj) as (p & H1' & _ & H2'). eauto.
Qed.

(** Two objects with the same leaf are refused. *)
Lemma Build_duplicate (o o' : Object) h : Object_LeafHash o = Ok h → Object_LeafHash o' = Ok h →
  Commitment.Build [object o; object o'] = Err Commitment.ErrDuplicateObject.
Proof.
  intros Ho Ho'. apply (Build_spec _ [h; h]); [done| |by intros [Hn _]%NoDup_cons; apply Hn; left].
  apply Forall2_cons; split; [|apply Forall2_cons; split; [|constructor]];
    unfold Commitment.LeafHash, as_object; cbn [Commitment.obj_LeafHash]; by rewrite ?Ho, ?Ho'.
Qed.

(** What a commitment commits to is the object without its signature: an
    authority, or an attestation, and a differently signed copy have the same leaf,
    so [Build] refuses the pair as duplicates. *)
Theorem Build_ignores_signatures a sig b sig' h h' :
  Authority.CanonicalHash (Some a) = Ok h → Attestation.CanonicalHash (Some b) = Ok h' →
  Commitment.Build [object (NewAuthorityObject (Some a));
                    object (NewAuthorityObject (Some (Authority.with_signature a sig)))]
    = Err Commitment.ErrDuplicateObject ∧
  Commitment.Build [object (NewAttestationObject (Some b));
                    object (NewAttestationObject (Some (Attestation.with_signature b sig')))]
    = Err Commitment.ErrDuplicateObject.
Proof.
  intros Ha Hb. split.
  - apply (Build_duplicate _ _ h); unfold Object_LeafHash, NewAuthorityObject; [by rewrite Ha|].
    change (Authority.CanonicalHash _) with (Authority.CanonicalHash (Some a)). by rewrite Ha.
  - apply (Build_duplicate _ _ h'); unfold Object_LeafHash, NewAttestationObject; [by rewrite Hb|].
    change (Attestation.CanonicalHash _) with (Attestation.CanonicalHash (Some b)). by rewrite Hb.
Qed.

End Proofs.

(** ** Concrete inputs *)

Definition ex_objects : list Object :=
  [NewAuthorityObject (Some ex_authority); NewEvidenceObject (Some ex_evidence); NewClaimObject (Some ex_claim)].
Definition ex_commitment : Commitment.Commitment :=
  Eval vm_compute in
    match Commitment.Build (Some ∘ as_object <$> ex_objects) with
    | Ok c => c
    | _ => Commitment.MkCommitment zero32 0 [] ""
    end.

Lemma Build_objects_included_witness :
  ∃ p, Commitment.InclusionProof (Some ex_commitment) (Some (as_object (NewClaimObject (Some ex_claim)))) = Ok p ∧
       Commitment.VerifyInclusion (Commitment.Root ex_commitment) p (Some (as_object (NewClaimObject (Some ex_claim)))) = Ok tt.
Proof.
  apply (Build_objects_included ex_objects ex_commitment).
  - vm_compute. reflexivity.
  - vm_compute. discriminate.
  - do 2 right. by left.
Defined.

Definition hash_of {E} (m : outcome E array32) : array32 := match m with Ok h => h | _ => zero32 end.

Lemma Build_ignores_signatures_witness :
  Commitment.Build [Some (as_object (NewAuthorityObject (Some ex_authority)));
                    Some (as_object (NewAuthorityObject (Some (Authority.with_signature ex_authority []))))]
    = Err Commitment.ErrDuplicateObject.
Proof.
  destruct (Build_ignores_signatures ex_authority [] ex_attestation []
    (hash_of (Authority.CanonicalHash (Some ex_authority)))
    (hash_of (Attestation.CanonicalHash (Some ex_attestation)))) as [K _]; [vm_compute; reflexivity..|exact K].
Defined.
