(* ===== verification/Did.v ===== *)
(** * The [identity/did] package: DID syntax

    A translation of src/identity/did/did.go: the character table, the
    single-pass state machine [parse], and the DID document types.  Strings are
    byte strings, as in Go; positions are [int]s with -1 for "not seen". *)
From S2P Require Import Prelude Canonical.
#[local] Open Scope Z_scope.

Module Did.

Inductive error : Type :=
| ErrMissingPrefix
| ErrInvalidMethodName
| ErrEmptyMethodSpecificID
| ErrInvalidIDChar
| ErrAuthorityNotPermitted.

(** ** The character table *)

Definition charMethod : Z := 1.
Definition charID : Z := 2.
Definition charUnreserved : Z := 4.
Definition charSubDelim : Z := 8.
Definition charHex : Z := 16.

Definition between (lo hi : byte) (c : byte) : bool := (b2z lo <=? b2z c) && (b2z c <=? b2z hi).
Definition one_of (cs : string) (c : byte) : bool := existsb (λ d, bool_decide (d = c)) (str_bytes cs).
Definition bits (b : bool) (mask : Z) : Z := if b then mask else 0.

(** The entry of [didCharset] for [c], the union of what each loop of its
    initializer adds. *)
Definition didCharset (c : byte) : Z :=
  Z.lor (bits (between x61 x7a c) (Z.lor charMethod (Z.lor charID charUnreserved)))
  (Z.lor (bits (between x41 x5a c) (Z.lor charID charUnreserved))
  (Z.lor (bits (between x30 x39 c) (Z.lor charMethod (Z.lor charID (Z.lor charUnreserved charHex))))
  (Z.lor (bits (between x61 x66 c) charHex)
  (Z.lor (bits (between x41 x46 c) charHex)
  (Z.lor (bits (one_of "-._" c) (Z.lor charID charUnreserved))
  (Z.lor (bits (bool_decide (c = x7e)) charUnreserved)
         (bits (one_of "!$&'()*+,;=" c) charSubDelim))))))).

Definition has_class (c : byte) (mask : Z) : bool := negb (Z.land (didCharset c) mask =? 0).

(** ** Data *)

Record DID : Type := MkDID {
  original : bytes;
  method : bytes;
  methodSpecificID : bytes;
  path : bytes;
  query : bytes;
  fragment : bytes;
  isURL : bool
}.

Record Method : Type := MkMethod {
  MID : string;
  MType : string;
  Controller : string;
  BlockchainAccountId : string;
  PublicKeyJWK : list (bytes * Canonical.json);
  PublicKeyMultibase : string
}.

Record Service : Type := MkService { SID : string; SType : string; ServiceEndpoint : Canonical.json }.

Record Document : Type := MkDocument {
  DocID : string;
  VerificationMethod : list Method;
  Services : list Service
}.

(** [Resolver], an interface with one method. *)
Record Resolver (E : Type) : Type := MkResolver { Resolve : DID → outcome E (option Document) }.
Arguments MkResolver {E} Resolve.
Arguments Resolve {E} r d.

(** ** parse *)

Inductive pstate : Type := stateMethod | stateID | statePath | stateQuery | stateFragment.

(** The local variables of [parse]; [methodStart] is the constant 4. *)
Record vars : Type := Vars {
  state : pstate;
  methodEnd : Z;
  idStart : Z;
  idEnd : Z;
  pathStart : Z;
  queryStart : Z;
  fragmentStart : Z;
  url : bool
}.

Definition init_vars : vars := Vars stateMethod (-1) (-1) (-1) (-1) (-1) (-1) false.

(** [s[i]], which the loop only evaluates in range. *)
Definition at_ (s : bytes) (i : Z) : byte := default x00 (s !! Z.to_nat i).
(** [s[lo:hi]]. *)
Definition sub (s : bytes) (lo hi : Z) : bytes := take (Z.to_nat (hi - lo)) (drop (Z.to_nat lo) s).

(** The index of the last byte consumed, [None] for a character that is not
    acceptable. *)
Definition validEscapedOr (c : byte) (s : bytes) (i : Z) (mask : Z) : option Z :=
  if negb (bool_decide (c = x25)) then (if has_class c mask then Some i else None)
  else if (zlen s <=? i + 2) || negb (has_class (at_ s (i + 1)) charHex) ||
          negb (has_class (at_ s (i + 2)) charHex)
  then None
  else Some (i + 2).

Definition advance (v : vars) (c : byte) (s : bytes) (i : Z) (mask : Z) : outcome error (vars * Z) :=
  match validEscapedOr c s i mask with
  | None => Err ErrInvalidIDChar
  | Some next => Ok (v, next + 1)
  end.

Definition to_query (v : vars) (i : Z) : vars :=
  Vars stateQuery (methodEnd v) (idStart v) (idEnd v) (pathStart v) (i + 1) (fragmentStart v) (url v).
Definition to_fragment (v : vars) (i : Z) : vars :=
  Vars stateFragment (methodEnd v) (idStart v) (idEnd v) (pathStart v) (queryStart v) (i + 1) (url v).

(** One iteration of the loop at [s[i]]: the variables after it and the next
    value of [i]. *)
Definition step (s : bytes) (i : Z) (v : vars) : outcome error (vars * Z) :=
  let c := at_ s i in
  match state v with
  | stateMethod =>
      if bool_decide (c = x3a) then
        if i =? 4 then Err ErrInvalidMethodName
        else Ok (Vars stateID i (i + 1) (idEnd v) (pathStart v) (queryStart v) (fragmentStart v) (url v), i + 1)
      else if negb (has_class c charMethod) then Err ErrInvalidMethodName
      else Ok (v, i + 1)
  | stateID =>
      if one_of "/?#" c then
        if (i =? idStart v) || bool_decide (at_ s (i - 1) = x3a) then Err ErrEmptyMethodSpecificID
        else
          let v' := Vars stateID (methodEnd v) (idStart v) i (pathStart v) (queryStart v) (fragmentStart v) true in
          if bool_decide (c = x2f) then
            if (i + 1 <? zlen s) && bool_decide (at_ s (i + 1) = x2f) then Err ErrAuthorityNotPermitted
            else Ok (Vars statePath (methodEnd v') (idStart v') (idEnd v') i (queryStart v') (fragmentStart v') true, i + 1)
          else if bool_decide (c = x3f) then Ok (to_query v' i, i + 1)
          else Ok (to_fragment v' i, i + 1)
      else if bool_decide (c = x3a) then Ok (v, i + 1)
      else advance v c s i charID
  | statePath =>
      if bool_decide (c = x3f) then Ok (to_query v i, i + 1)
      else if bool_decide (c = x23) then Ok (to_fragment v i, i + 1)
      else if one_of "/:@" c then Ok (v, i + 1)
      else advance v c s i (Z.lor charUnreserved charSubDelim)
  | stateQuery =>
      if bool_decide (c = x23) then Ok (to_fragment v i, i + 1)
      else if one_of "/?:@" c then Ok (v, i + 1)
      else advance v c s i (Z.lor charUnreserved charSubDelim)
  | stateFragment =>
      if one_of "/?:@" c then Ok (v, i + 1)
      else advance v c s i (Z.lor charUnreserved charSubDelim)
  end.

(** [for i := 4; i < len(s); i++]: [i] grows at every step. *)
Fixpoint parse_loop (fuel : nat) (s : bytes) (i : Z) (v : vars) : outcome error vars :=
  if i <? zlen s then
    match fuel with
    | O => OutOfFuel
    | S f => r ← step s i v; parse_loop f s r.2 r.1
    end
  else Ok v.

Definition is_state_method (v : vars) : bool := match state v with stateMethod => true | _ => false end.

Definition parse (s : bytes) : outcome error DID :=
  if (zlen s <? 4) || negb (bool_decide (take 4 s = str_bytes "did:")) then Err ErrMissingPrefix
  else
    v ← parse_loop (length s) s 4 init_vars;
    if is_state_method v then Err ErrInvalidMethodName
    else if (idStart v =? zlen s) || ((idEnd v <? 0) && bool_decide (at_ s (zlen s - 1) = x3a))
    then Err ErrEmptyMethodSpecificID
    else
      let idE := if idEnd v <? 0 then zlen s else idEnd v in
      Ok {| original := s;
            method := sub s 4 (methodEnd v);
            methodSpecificID := sub s (idStart v) idE;
            isURL := url v;
            path := if 0 <=? pathStart v then
                      sub s (pathStart v)
                        (if 0 <=? queryStart v then queryStart v - 1
                         else if 0 <=? fragmentStart v then fragmentStart v - 1 else zlen s)
                    else [];
            query := if 0 <=? queryStart v then
                       sub s (queryStart v) (if 0 <=? fragmentStart v then fragmentStart v - 1 else zlen s)
                     else [];
            fragment := if 0 <=? fragmentStart v then sub s (fragmentStart v) (zlen s) else [] |}.

Definition Parse (s : string) : outcome error DID := parse (str_bytes s).

Definition IsDID (s : bytes) : bool :=
  match parse s with Ok d => negb (isURL d) | _ => false end.
Definition IsDIDURL (s : bytes) : bool := is_ok (parse s).

End Did.
