(* ===== verification/DidProofs.v ===== *)
(** * DID parsing: the components spell the input

    The one-pass state machine terminates on every input, and an accepted DID is
    the concatenation of its components with their delimiters. *)
From S2P Require Import Prelude Did.
Import Did.
#[local] Open Scope Z_scope.

(** ** Substrings *)

Lemma sub_length s lo hi : 0 ≤ lo ≤ hi → hi ≤ zlen s → zlen (sub s lo hi) = hi - lo.
Proof. intros. unfold sub. rewrite length_take, length_drop. lia. Qed.

Lemma sub_app s a b c : 0 ≤ a ≤ b → b ≤ c ≤ zlen s → sub s a b ++ sub s b c = sub s a c.
Proof.
  intros Hab Hbc. unfold sub.
  replace (Z.to_nat (c - a)) with (Z.to_nat (b - a) + Z.to_nat (c - b))%nat by lia.
  rewrite <- (take_drop (Z.to_nat (b - a)) (drop (Z.to_nat a) s)) at 2.
  rewrite take_app_add', drop_drop by (rewrite length_take, length_drop; lia).
  f_equal. f_equal. f_equal. lia.
Qed.

Lemma sub_one s i : 0 ≤ i < zlen s → sub s i (i + 1) = [at_ s i].
Proof.
  intros Hi. unfold sub, at_. replace (Z.to_nat (i + 1 - i)) with 1%nat by lia.
  destruct (lookup_lt_is_Some_2 s (Z.to_nat i)) as [c Hc]; [lia|]. rewrite Hc.
  rewrite (drop_S _ _ _ Hc). done.
Qed.

Lemma sub_all s : sub s 0 (zlen s) = s.
Proof. unfold sub. rewrite Z.sub_0_r, Nat2Z.id. simpl. by rewrite drop_0, take_ge. Qed.

(** ** The loop *)

(** The delimiters seen so far and where they stand. *)
Definition tail_ok (s : bytes) (v : vars) (i : Z) : Prop :=
  match state v with
  | stateMethod | stateID =>
      idEnd v = -1 ∧ pathStart v = -1 ∧ queryStart v = -1 ∧ fragmentStart v = -1 ∧ url v = false
  | statePath =>
      idEnd v = pathStart v ∧ idStart v < pathStart v < i ∧
      queryStart v = -1 ∧ fragmentStart v = -1 ∧ url v = true
  | stateQuery =>
      idStart v < idEnd v ∧ idEnd v < queryStart v ≤ i ∧ at_ s (queryStart v - 1) = x3f ∧
      (pathStart v = -1 ∧ idEnd v = queryStart v - 1 ∨ pathStart v = idEnd v ∧ idEnd v < queryStart v - 1) ∧
      fragmentStart v = -1 ∧ url v = true
  | stateFragment =>
      idStart v < idEnd v ∧ idEnd v < fragmentStart v ≤ i ∧ at_ s (fragmentStart v - 1) = x23 ∧ url v = true ∧
      (queryStart v = -1 ∧
         (pathStart v = -1 ∧ idEnd v = fragmentStart v - 1 ∨
          pathStart v = idEnd v ∧ idEnd v < fragmentStart v - 1) ∨
       idEnd v < queryStart v < fragmentStart v ∧ at_ s (queryStart v - 1) = x3f ∧
         (pathStart v = -1 ∧ idEnd v = queryStart v - 1 ∨ pathStart v = idEnd v ∧ idEnd v < queryStart v - 1))
  end.

Definition head_ok (s : bytes) (v : vars) (i : Z) : Prop :=
  match state v with
  | stateMethod => ∀ j, 4 ≤ j < i → has_class (at_ s j) charMethod = true
  | _ => 5 ≤ methodEnd v ∧ idStart v = methodEnd v + 1 ∧ idStart v ≤ i ∧ at_ s (methodEnd v) = x3a ∧
         ∀ j, 4 ≤ j < methodEnd v → has_class (at_ s j) charMethod = true
  end.

Definition inv (s : bytes) (i : Z) (v : vars) : Prop :=
  4 ≤ i ≤ zlen s ∧ head_ok s v i ∧ tail_ok s v i.

Lemma validEscapedOr_range c s i mask n : 0 ≤ i < zlen s → validEscapedOr c s i mask = Some n → i ≤ n < zlen s.
Proof.
  intros Hi. unfold validEscapedOr. destruct (negb _).
  - destruct (has_class c mask); intros; simplify_eq; lia.
  - destruct (Z.leb_spec (zlen s) (i + 2)); [done|]. destruct (negb _); [done|].
    destruct (negb _); [done|]. cbn [orb]. intros. simplify_eq. lia.
Qed.

Lemma advance_inv v c s i mask v' i' : inv s i v → state v ≠ stateMethod → i < zlen s →
  advance v c s i mask = Ok (v', i') → inv s i' v' ∧ i < i'.
Proof.
  intros (Hi & Hh & Ht) Hm Hlt. unfold advance.
  destruct (validEscapedOr c s i mask) as [n|] eqn:E; [|done]. intros [= <- <-].
  apply validEscapedOr_range in E; [|lia]. split; [|lia]. split; [lia|].
  unfold head_ok, tail_ok in *. destruct (state v); try done; split; try done; intuition lia.
Qed.

Lemma one_of_delims c : one_of "/?#" c = true → c = x2f ∨ c = x3f ∨ c = x23.
Proof.
  unfold one_of. rewrite existsb_exists. intros (d & Hd & <-%bool_decide_eq_true).
  vm_compute in Hd. intuition congruence.
Qed.

(** A step that only moves [i] and records a delimiter. *)
Ltac move_step Es :=
  intros [= <- <-]; unfold inv, head_ok, tail_ok in *; rewrite Es in *; simpl;
  rewrite ?Z.add_simpl_r; intuition lia.

Lemma step_inv s i v v' i' : inv s i v → i < zlen s → step s i v = Ok (v', i') → inv s i' v' ∧ i < i'.
Proof.
  intros Hinv Hlt. pose proof Hinv as (Hi & Hh & Ht). unfold step. destruct (state v) eqn:Es.
  - destruct (bool_decide_reflect (at_ s i = x3a)) as [Hc|Hc].
    + destruct (Z.eqb_spec i 4); [done|]. move_step Es.
    + destruct (has_class (at_ s i) charMethod) eqn:Ecl; [|done]. intros [= <- <-]. split; [|lia].
      unfold inv, head_ok, tail_ok in *. rewrite Es in *. split; [lia|]. split; [|done].
      intros j Hj. destruct (decide (j = i)) as [->|]; [done|]. apply Hh. lia.
  - destruct (one_of "/?#" (at_ s i)) eqn:Ed.
    + apply one_of_delims in Ed. destruct (Z.eqb_spec i (idStart v)) as [|Hne]; [done|]. cbn [orb].
      destruct (bool_decide (at_ s (i - 1) = x3a)); [done|].
      destruct Ed as [Ed|[Ed|Ed]]; rewrite Ed; cbv beta iota zeta delta [bool_decide decide decide_rel byte_eq_decision Byte.byte_eq_dec];
        [destruct (_ && _); [done|]|..]; move_step Es.
    + destruct (bool_decide (at_ s i = x3a)); [move_step Es|].
      apply advance_inv; [done|by rewrite Es|done].
  - destruct (bool_decide_reflect (at_ s i = x3f)); [move_step Es|].
    destruct (bool_decide_reflect (at_ s i = x23)); [move_step Es|].
    destruct (one_of _ _); [move_step Es|]. apply advance_inv; [done|by rewrite Es|done].
  - destruct (bool_decide_reflect (at_ s i = x23)); [move_step Es|].
    destruct (one_of _ _); [move_step Es|]. apply advance_inv; [done|by rewrite Es|done].
  - destruct (one_of _ _); [move_step Es|]. apply advance_inv; [done|by rewrite Es|done].
Qed.

Lemma step_settles s i v : (∃ e, step s i v = Err e) ∨ ∃ r, step s i v = Ok r.
Proof.
  unfold step, advance. destruct (state v);
    repeat first [by eauto | match goal with
      | |- context [if ?b then _ else _] => destruct b
      | |- context [match ?x with Some _ => _ | None => _ end] => destruct x
      end].
Qed.

Lemma parse_loop_total fuel s i v : inv s i v → zlen s - i ≤ Z.of_nat fuel →
  (∃ e, parse_loop fuel s i v = Err e) ∨ ∃ v', parse_loop fuel s i v = Ok v' ∧ inv s (zlen s) v'.
Proof.
  revert i v. induction fuel as [|f IH]; intros i v Hinv Hf; cbn [parse_loop];
    destruct (Z.ltb_spec i (zlen s)) as [Hlt|Hge]; try lia.
  - right. exists v. split; [done|]. destruct Hinv as (Hi & Hinv). by replace (zlen s) with i by lia.
  - destruct (step_settles s i v) as [(e & ->)|([v' i'] & E)]; [left; by exists e|].
    rewrite E. cbn [mbind outcome_bind]. destruct (step_inv _ _ _ _ _ Hinv Hlt E) as [Hinv' Hi'].
    apply IH; [done|]. simpl. lia.
  - right. exists v. split; [done|]. destruct Hinv as (Hi & Hinv). by replace (zlen s) with i by lia.
Qed.

Lemma init_inv s : 4 ≤ zlen s → inv s 4 init_vars.
Proof. intros. split; [lia|]. split; [|done]. intros j Hj. simpl in *. lia. Qed.

(** The tail of the input after the method-specific id. *)
Lemma tail_spells s v : inv s (zlen s) v → is_state_method v = false →
  let e := if idEnd v <? 0 then zlen s else idEnd v in
  idStart v ≤ e ≤ zlen s ∧
  ∃ q f,
    sub s e (zlen s) =
      (if 0 <=? pathStart v then
         sub s (pathStart v) (if 0 <=? queryStart v then queryStart v - 1
                              else if 0 <=? fragmentStart v then fragmentStart v - 1 else zlen s)
       else []) ++ q ++ f ∧
    (if 0 <=? queryStart v
     then q = x3f :: sub s (queryStart v) (if 0 <=? fragmentStart v then fragmentStart v - 1 else zlen s)
     else q = []) ∧
    (if 0 <=? fragmentStart v then f = x23 :: sub s (fragmentStart v) (zlen s) else f = []).
Proof.
  intros (Hi & Hh & Ht) Hm. unfold is_state_method, head_ok, tail_ok in *.
  destruct (state v) eqn:Es; try done; destruct Hh as (Hme & Hid & Hidle & _).
  - destruct Ht as (-> & -> & -> & -> & _). simpl. split; [lia|]. exists [], [].
    split; [|done]. unfold sub. by rewrite Z.sub_diag.
  - destruct Ht as (-> & Hp & -> & -> & _). rewrite (proj2 (Z.ltb_ge _ _)), (proj2 (Z.leb_le _ _)) by lia.
    simpl. split; [lia|]. exists [], []. by rewrite app_nil_r.
  - destruct Ht as (H1 & H2 & Hc & Hp & -> & _). rewrite (proj2 (Z.ltb_ge (idEnd v) _)) by lia.
    rewrite (proj2 (Z.leb_le _ (queryStart v))) by lia. simpl. split; [lia|].
    exists (x3f :: sub s (queryStart v) (zlen s)), []. split; [|done]. rewrite app_nil_r.
    assert (x3f :: sub s (queryStart v) (zlen s) = sub s (queryStart v - 1) (zlen s)) as ->.
    { rewrite <- (sub_app s (queryStart v - 1) (queryStart v - 1 + 1)), sub_one, Hc by lia.
      by rewrite Z.sub_simpl_r. }
    destruct Hp as [[-> ->]|[-> Hp]]; [done|]. rewrite (proj2 (Z.leb_le _ _)) by lia.
    by rewrite sub_app by lia.
  - destruct Ht as (H1 & H2 & Hc & _ & Hq). rewrite (proj2 (Z.ltb_ge (idEnd v) _)) by lia.
    rewrite (proj2 (Z.leb_le _ (fragmentStart v))) by lia. split; [lia|].
    assert (x23 :: sub s (fragmentStart v) (zlen s) = sub s (fragmentStart v - 1) (zlen s)) as Hfrag.
    { rewrite <- (sub_app s (fragmentStart v - 1) (fragmentStart v - 1 + 1)), sub_one, Hc by lia.
      by rewrite Z.sub_simpl_r. }
    destruct Hq as [[-> Hp]|(Hq & Hcq & Hp)].
    + exists [], (x23 :: sub s (fragmentStart v) (zlen s)). simpl. split; [|done]. rewrite Hfrag.
      destruct Hp as [[-> ->]|[-> Hp]]; [done|]. rewrite (proj2 (Z.leb_le _ _)) by lia. by rewrite sub_app by lia.
    + rewrite (proj2 (Z.leb_le _ (queryStart v))) by lia.
      exists (x3f :: sub s (queryStart v) (fragmentStart v - 1)), (x23 :: sub s (fragmentStart v) (zlen s)).
      split; [|done]. rewrite Hfrag.
      assert (x3f :: sub s (queryStart v) (fragmentStart v - 1) = sub s (queryStart v - 1) (fragmentStart v - 1)) as ->.
      { rewrite <- (sub_app s (queryStart v - 1) (queryStart v - 1 + 1)), sub_one, Hcq by lia.
        by rewrite Z.sub_simpl_r. }
      rewrite sub_app by lia. destruct Hp as [[-> ->]|[-> Hp]]; [done|].
      rewrite (proj2 (Z.leb_le _ _)) by lia. by rewrite sub_app by lia.
Qed.

(** A bare DID ends with its method-specific id. *)
Lemma bare_iff s v : inv s (zlen s) v → is_state_method v = false →
  url v = false ↔ sub s (if idEnd v <? 0 then zlen s else idEnd v) (zlen s) = [].
Proof.
  intros (Hi & Hh & Ht) Hm.
  assert (Hcase : url v = false ∧ idEnd v = -1 ∨ url v = true ∧ 0 ≤ idEnd v < zlen s).
  { unfold is_state_method, head_ok, tail_ok in *. destruct (state v); [done|left; naive_solver|right; split; [naive_solver|lia]..]. }
  destruct Hcase as [[-> ->]|[-> Hr]].
  - split; [|done]. intros _. unfold sub. cbn. by rewrite Z.sub_diag.
  - split; [done|]. rewrite (proj2 (Z.ltb_ge _ _)) by lia. intros E.
    pose proof (sub_length s (idEnd v) (zlen s) ltac:(lia) ltac:(lia)) as Hl. rewrite E in Hl. cbn in Hl. lia.
Qed.

(** The string [s] is spelled by the components of [d]. *)
Definition spelled (s : bytes) (d : DID) : Prop :=
  ∃ q f, original d = s ∧
    s = str_bytes "did:" ++ method d ++ [x3a] ++ methodSpecificID d ++ path d ++ q ++ f ∧
    (q = [] ∧ query d = [] ∨ q = x3f :: query d) ∧ (f = [] ∧ fragment d = [] ∨ f = x23 :: fragment d) ∧
    (isURL d = false ↔ path d ++ q ++ f = []) ∧ method d ≠ [] ∧ Forall (λ c, has_class c charMethod = true) (method d) ∧ methodSpecificID d ≠ [].

Lemma parse_spells s : (∃ e, parse s = Err e) ∨ ∃ d, parse s = Ok d ∧ spelled s d.
Proof.
  unfold parse. destruct (Z.ltb_spec (zlen s) 4) as [|H4]; [left; by eexists|]. cbn [orb].
  destruct (bool_decide_reflect (take 4 s = str_bytes "did:")) as [Hpre|]; [|left; by eexists]. cbn [negb].
  destruct (parse_loop_total (length s) s 4 init_vars (init_inv s H4) ltac:(lia)) as [(e & ->)|(v & -> & Hinv)];
    [left; by eexists|]. cbn [mbind outcome_bind].
  destruct (is_state_method v) eqn:Em; [left; by eexists|].
  destruct (Z.eqb_spec (idStart v) (zlen s)) as [|Hids]; [left; by eexists|]. cbn [orb].
  destruct (_ && _); [left; by eexists|]. right.
  destruct (tail_spells s v Hinv Em) as (He & q & f & Htail & Hq & Hf).
  pose proof (bare_iff s v Hinv Em) as Hbare.
  destruct Hinv as (_ & Hh & Ht). unfold head_ok, is_state_method in *.
  assert (5 ≤ methodEnd v ∧ idStart v = methodEnd v + 1 ∧ at_ s (methodEnd v) = x3a ∧
    ∀ j, 4 ≤ j < methodEnd v → has_class (at_ s j) charMethod = true) as (Hme & Hid & Hc & Hcl)
    by (destruct (state v); naive_solver).
  assert (methodEnd v < zlen s) by lia.
  eexists. split; [done|]. exists q, f. cbn [original method methodSpecificID path query fragment isURL].
  split; [done|]. split_and!.
  - transitivity (sub s 0 4 ++ sub s 4 (methodEnd v) ++ sub s (methodEnd v) (methodEnd v + 1) ++
      sub s (idStart v) (if idEnd v <? 0 then zlen s else idEnd v) ++
      sub s (if idEnd v <? 0 then zlen s else idEnd v) (zlen s)).
    + rewrite Hid in *. rewrite !sub_app by lia. by rewrite sub_all.
    + rewrite Htail, sub_one, Hc by lia. f_equal. by rewrite <- Hpre.
  - destruct (0 <=? queryStart v); naive_solver.
  - destruct (0 <=? fragmentStart v); naive_solver.
  - by rewrite <- Htail.
  - intros E0. pose proof (sub_length s 4 (methodEnd v) ltac:(lia) ltac:(lia)) as Hl. rewrite E0 in Hl. simpl in Hl. lia.
  - apply Forall_lookup. intros j c Hj. pose proof (lookup_lt_Some _ _ _ Hj) as Hlt.
    pose proof (sub_length s 4 (methodEnd v) ltac:(lia) ltac:(lia)) as Hl.
    unfold sub in Hj. rewrite lookup_take_lt, lookup_drop in Hj by lia.
    specialize (Hcl (4 + Z.of_nat j) ltac:(lia)). unfold at_ in Hcl.
    replace (Z.to_nat (4 + Z.of_nat j)) with (Z.to_nat 4 + j)%nat in Hcl by lia. by rewrite Hj in Hcl.
  - intros E0. pose proof (sub_length s (idStart v) (if idEnd v <? 0 then zlen s else idEnd v) ltac:(lia) (proj2 He)) as Hl.
    rewrite E0 in Hl. simpl in Hl. unfold tail_ok in Ht.
    destruct (Z.ltb_spec (idEnd v) 0); [lia|]. destruct (state v); intuition lia.
Qed.

(** [parse] returns on every input, and an accepted input is spelled by its
    components: "did:", a non-empty method of lowercase letters and digits, ":", a
    non-empty method-specific id, the path, "?" and the query if there is one, "#"
    and the fragment if there is one. *)
Theorem parse_reassembles s :
  (∃ e, parse s = Err e) ∨
  ∃ d q f, parse s = Ok d ∧ original d = s ∧
    s = str_bytes "did:" ++ method d ++ [x3a] ++ methodSpecificID d ++ path d ++ q ++ f ∧
    (q = [] ∧ query d = [] ∨ q = x3f :: query d) ∧ (f = [] ∧ fragment d = [] ∨ f = x23 :: fragment d) ∧
    (isURL d = false ↔ path d ++ q ++ f = []) ∧ method d ≠ [] ∧ Forall (λ c, has_class c charMethod = true) (method d) ∧ methodSpecificID d ≠ [].
Proof. destruct (parse_spells s) as [?|(d & Hp & q & f & Hs)]; [by left|]. right. by exists d, q, f. Qed.
