(* ===== verification/Binder.v ===== *)
(** * Key binding: from a DID document to a public key

    A translation of src/verification/binder.go and binder_algorithm.go.  The
    NIST curve arithmetic of [crypto/elliptic] is written out over the integers;
    parsing a secp256k1 point (third-party) and a JWK (package [identity/jwk])
    are the interface [KeyMaterial]. *)
From Stdlib Require Import Zpow_facts.
From S2P Require Import Prelude Canonical Signature Did.
#[local] Open Scope Z_scope.

Module Binder.
Import Signature.

(** [ErrKeyBinding] and [ErrStructural] of errors.go; [ErrBind] stands for the
    errors of this file that wrap neither. *)
Inductive error : Type := ErrKeyBinding | ErrStructural | ErrBind.

(** ** Multibase *)

Definition base58Alphabet : bytes :=
  str_bytes "123456789ABCDEFGHJKLMNPQRSTUVWXYZabcdefghijkmnopqrstuvwxyz".

(** [strings.IndexByte], [None] for -1. *)
Fixpoint index_byte (i : Z) (c : byte) (l : bytes) : option Z :=
  match l with
  | [] => None
  | d :: l' => if bool_decide (d = c) then Some i else index_byte (i + 1) c l'
  end.

(** [for j := len(out)-1; j >= 0; j--]: multiply by 58 and add [carry], last byte
    first; the bytes and the final carry. *)
Fixpoint mul58 (out : bytes) (carry : Z) : bytes * Z :=
  match out with
  | [] => ([], carry)
  | b :: rest =>
      let '(rest', c) := mul58 rest carry in
      let t := c + 58 * b2z b in
      (z2b (t `mod` 256) :: rest', t `div` 256)
  end.

(** [for carry > 0 { out = append([]byte{byte(carry % 256)}, out...) }]: the carry
    is below 58, so two rounds are more than enough. *)
Fixpoint push_carry (fuel : nat) (carry : Z) (out : bytes) : outcome error bytes :=
  if 0 <? carry then
    match fuel with
    | O => OutOfFuel
    | S f => push_carry f (carry `div` 256) (z2b (carry `mod` 256) :: out)
    end
  else Ok out.

Fixpoint base58_loop (s : bytes) (out : bytes) : outcome error bytes :=
  match s with
  | [] => Ok out
  | c :: s' =>
      match index_byte 0 c base58Alphabet with
      | None => Err ErrBind
      | Some idx =>
          let '(out', carry) := mul58 out idx in
          out'' ← push_carry 2 carry out';
          base58_loop s' out''
      end
  end.

Fixpoint leading_ones (s : bytes) : nat :=
  match s with
  | c :: s' => if bool_decide (c = x31) then S (leading_ones s') else 0%nat
  | [] => 0%nat
  end.

Definition decodeBase58BTC (s : bytes) : outcome error bytes :=
  match s with
  | [] => Err ErrBind
  | _ :: _ => out ← base58_loop s []; Ok (replicate (leading_ones s) x00 ++ out)
  end.

(** [base64.RawURLEncoding]: line breaks are skipped, a lone final digit is an
    error, the spare bits of the last digit are ignored. *)
Definition b64url_value (c : byte) : option Z :=
  index_byte 0 c (str_bytes "ABCDEFGHIJKLMNOPQRSTUVWXYZabcdefghijklmnopqrstuvwxyz0123456789-_").
Fixpoint b64_groups (ds : list Z) : option bytes :=
  match ds with
  | [] => Some []
  | [_] => None
  | [a; b] => Some [z2b ((a * 64 + b) `div` 16)]
  | [a; b; c] => let n := (a * 4096 + b * 64 + c) `div` 4 in Some [z2b (n `div` 256); z2b n]
  | a :: b :: c :: d :: ds' =>
      rest ← b64_groups ds';
      let n := a * 262144 + b * 4096 + c * 64 + d in
      Some (z2b (n `div` 65536) :: z2b (n `div` 256) :: z2b n :: rest)
  end.
Definition decode_rawurl (s : bytes) : option bytes :=
  ds ← mapM b64url_value (filter (λ c, c ≠ x0a ∧ c ≠ x0d) s); b64_groups ds.

Definition decodeMultibase (s : bytes) : outcome error bytes :=
  match s with
  | p :: ((_ :: _) as rest) =>
      if bool_decide (p = x7a) then decodeBase58BTC rest
      else if bool_decide (p = x75) then
        match decode_rawurl rest with Some b => Ok b | None => Err ErrBind end
      else if bool_decide (p = x66) || bool_decide (p = x46) then
        match unhex_bytes rest with Some b => Ok b | None => Err ErrBind end
      else Err ErrBind
  | _ => Err ErrBind
  end.

(** ** Curve points *)

Definition field_prime (c : Curve) : Z :=
  match c with
  | P256 => 2 ^ 256 - 2 ^ 224 + 2 ^ 192 + 2 ^ 96 - 1
  | P384 => 2 ^ 384 - 2 ^ 128 - 2 ^ 96 + 2 ^ 32 - 1
  | OtherCurve _ => 0
  end.
Definition curve_b (c : Curve) : Z :=
  match c with
  | P256 => 0x5ac635d8aa3a93e7b3ebbd55769886bc651d06b0cc53b0f63bce3c3e27d2604b
  | P384 => 0xb3312fa7e23ee7e4988e056be3f82d19181d9c6efe8141120314088f5013875ac656398d8a2ed19d2a85c8edd3ec2aef
  | OtherCurve _ => 0
  end.
(** [curve.Params().BitSize / 8]. *)
Definition field_bytes (c : Curve) : Z :=
  match c with P256 => 32 | P384 => 48 | OtherCurve _ => 0 end.

Definition pointInRange (c : Curve) (x y : Z) : bool :=
  (0 <=? x) && (0 <=? y) && (x <? field_prime c) && (y <? field_prime c).

Definition curve_rhs (c : Curve) (x : Z) : Z := (x * x * x - 3 * x + curve_b c) `mod` field_prime c.
(** [curve.IsOnCurve]. *)
Definition on_curve (c : Curve) (x y : Z) : bool :=
  pointInRange c x y && ((y * y) `mod` field_prime c =? curve_rhs c x).

(** [elliptic.Unmarshal] of a [0x04]-prefixed point and
    [elliptic.UnmarshalCompressed]; both primes are 3 modulo 4. *)
Definition unmarshal_point (c : Curve) (raw : bytes) : option (Z * Z) :=
  let n := Z.to_nat (field_bytes c) in
  let x := be_value (take n (drop 1 raw)) in
  let y := be_value (drop n (drop 1 raw)) in
  if on_curve c x y then Some (x, y) else None.
Definition unmarshal_compressed (c : Curve) (raw : bytes) : option (Z * Z) :=
  let p := field_prime c in
  let x := be_value (drop 1 raw) in
  let y0 := Zpow_mod (curve_rhs c x) ((p + 1) `div` 4) p in
  let odd := bool_decide (head raw = Some x03) in
  let y := if Bool.eqb (Z.odd y0) odd then y0 else (p - y0) `mod` p in
  if (x <? p) && on_curve c x y && Bool.eqb (Z.odd y) odd then Some (x, y) else None.

Definition curvePointBytes (c : Curve) (raw : bytes) (field : Z) : option (Z * Z) :=
  let r :=
    if (zlen raw =? 1 + 2 * field) && bool_decide (head raw = Some x04) then unmarshal_point c raw
    else if (zlen raw =? 1 + field) &&
            (bool_decide (head raw = Some x02) || bool_decide (head raw = Some x03))
    then unmarshal_compressed c raw
    else if zlen raw =? 2 * field then
      let x := be_value (take (Z.to_nat field) raw) in
      let y := be_value (drop (Z.to_nat field) raw) in
      if negb (pointInRange c x y) || negb (on_curve c x y) then None else Some (x, y)
    else None in
  match r with
  | None => None
  | Some (x, y) => if pointInRange c x y then Some (x, y) else None
  end.

(** [ecdsa.NewPublicKey] accepts the two (curve, hash) pairs this file uses. *)
Definition ecdsaKeyForPoint (c : Curve) (raw : bytes) : option PublicKey :=
  match curvePointBytes c raw (field_bytes c) with
  | None => None
  | Some (x, y) => Some (EcdsaPub c x y)
  end.

(** What the key parsers outside this file provide: whether 33 bytes are a
    compressed secp256k1 point, and what [jwkutil.Unmarshal] makes of a JWK. *)
Class KeyMaterial : Type := {
  secp256k1_point : bytes → bool;
  jwk_unmarshal : list (bytes * Canonical.json) → outcome unit PublicKey
}.

Record keyCandidate : Type := Candidate { cand_alg : Algorithm; cand_key : PublicKey }.

(** ** Declared algorithms *)

Definition suiteTypeSuffix : bytes := str_bytes "VerificationKey2020".

Definition rsaKeyAlgorithms : list Algorithm :=
  [AlgorithmPS256; AlgorithmPS384; AlgorithmPS512; AlgorithmRS256; AlgorithmRS384; AlgorithmRS512].

Definition suiteKeyAlgorithms (t : string) : option (list Algorithm) :=
  if String.eqb t "Ed25519VerificationKey2018" then Some [AlgorithmEdDSA]
  else if String.eqb t "Ed25519VerificationKey2020" then Some [AlgorithmEdDSA]
  else if String.eqb t "EcdsaSecp256k1VerificationKey2019" then Some [AlgorithmES256K]
  else if String.eqb t "EcdsaSecp256k1RecoveryMethod2020" then Some [AlgorithmES256K]
  else if String.eqb t "EcdsaSecp256r1VerificationKey2019" then Some [AlgorithmES256; AlgorithmES384]
  else if String.eqb t "RsaVerificationKey2018" then Some rsaKeyAlgorithms
  else if String.eqb t "JsonWebKey2020" then Some []
  else None.

Definition containsAlgorithm (list : list Algorithm) (want : Algorithm) : bool :=
  existsb (λ a, a =? want) list.

(** [strconv.ParseInt(s, 10, 64)]. *)
Definition ParseInt (s : bytes) : option Z :=
  let '(neg, ds) := match s with
                    | c :: s' => if bool_decide (c = x2d) then (true, s')
                                 else if bool_decide (c = x2b) then (false, s') else (false, s)
                    | [] => (false, [])
                    end in
  match ds with
  | [] => None
  | _ :: _ =>
      if forallb Canonical.is_digit ds then
        let n := if (neg : bool) then - Canonical.dec_value ds else Canonical.dec_value ds in
        if (- 2 ^ 63 <=? n) && (n <? 2 ^ 63) then Some n else None
      else None
  end.

(** [strings.CutSuffix]. *)
Definition CutSuffix (s suffix : bytes) : option bytes :=
  let n := (length s - length suffix)%nat in
  if (length suffix <=? length s)%nat && bool_decide (drop n s = suffix) then Some (take n s) else None.

Definition algorithmsForSuiteType (typeName : string) : outcome error (list Algorithm) :=
  if String.eqb typeName "" then Ok []
  else match suiteKeyAlgorithms typeName with
  | Some cands => Ok cands
  | None =>
  match AlgorithmForJOSE typeName with
  | Some alg => Ok [alg]
  | None =>
  match label ← ParseInt (str_bytes typeName); AlgorithmForCOSE label with
  | Some alg => Ok [alg]
  | None =>
  match base ← CutSuffix (str_bytes typeName) suiteTypeSuffix;
        AlgorithmForJOSE (String.string_of_list_byte base) with
  | Some alg => Ok [alg]
  | None => Err ErrKeyBinding
  end end end end.

Definition declaredAlgorithms (m : Did.Method) : outcome error (list Algorithm) :=
  cands ← algorithmsForSuiteType (Did.MType m);
  if String.eqb (Did.BlockchainAccountId m) "" then Ok cands
  else
    let secp := [AlgorithmES256K] in
    if (length cands =? 0)%nat then Ok secp
    else if negb (containsAlgorithm cands AlgorithmES256K) then Err ErrKeyBinding
    else Ok secp.

(** ** JWK *)

Definition member_string (m : list (bytes * Canonical.json)) (k : string) : option string :=
  match find (λ kv, bytes_eqb kv.1 (str_bytes k)) m with
  | Some (_, Canonical.JStr s) => Some (String.string_of_list_byte s)
  | _ => None
  end.

Definition algorithmsForJWK (m : list (bytes * Canonical.json)) : outcome error (list Algorithm) :=
  let kty := default "" (member_string m "kty") in
  let crv := default "" (member_string m "crv") in
  let alg := member_string m "alg" in
  let one a := match alg with
               | Some name => if negb (String.eqb name (JOSE a)) then Err ErrKeyBinding else Ok [a]
               | None => Ok [a]
               end in
  if String.eqb kty "OKP" then
    if negb (String.eqb crv "Ed25519") then Err ErrKeyBinding else one AlgorithmEdDSA
  else if String.eqb kty "EC" then
    if String.eqb crv "P-256" then one AlgorithmES256
    else if String.eqb crv "P-384" then one AlgorithmES384
    else if String.eqb crv "secp256k1" then one AlgorithmES256K
    else Err ErrKeyBinding
  else if String.eqb kty "RSA" then
    match alg with
    | None => Ok rsaKeyAlgorithms
    | Some name =>
        match AlgorithmForJOSE name with
        | None => Err ErrKeyBinding
        | Some a => if negb (containsAlgorithm rsaKeyAlgorithms a) then Err ErrKeyBinding else Ok [a]
        end
    end
  else Err ErrKeyBinding.

(** A fresh map with [alg] set; a present non-empty [alg] string is kept. *)
Definition jwkWithAlg (m : list (bytes * Canonical.json)) (a : Algorithm) : list (bytes * Canonical.json) :=
  match member_string m "alg" with
  | Some name =>
      if negb (String.eqb name "") then m
      else (str_bytes "alg", Canonical.JStr (str_bytes (JOSE a))) :: filter (λ kv, kv.1 ≠ str_bytes "alg") m
  | None => (str_bytes "alg", Canonical.JStr (str_bytes (JOSE a))) :: filter (λ kv, kv.1 ≠ str_bytes "alg") m
  end.

(** The candidates also permitted by [declared]; an empty list permits all. *)
Definition permitted (declared : list Algorithm) (a : Algorithm) : bool :=
  (length declared =? 0)%nat || containsAlgorithm declared a.
Definition intersectAlgorithms (cands declared : list Algorithm) : list Algorithm :=
  filter (λ a, permitted declared a = true) cands.

Section Ops.
Context `{!KeyMaterial}.

(** ** Candidates of raw key material *)

Definition secp256k1_new (raw : bytes) : option PublicKey :=
  if (length raw =? 33)%nat && secp256k1_point raw then Some (Secp256k1Pub raw) else None.

(** The parity of [y] picks the prefix; the rest of [y] is not looked at. *)
Definition secp256k1KeyForXY (xy : bytes) : option PublicKey :=
  if negb (length xy =? 64)%nat then None
  else
    let prefix := if Z.land (b2z (default x00 (list.last xy))) 1 =? 0 then x02 else x03 in
    secp256k1_new (prefix :: take 32 xy).

Definition secp256k1KeyForUncompressed (point : bytes) : option PublicKey :=
  if negb (length point =? 65)%nat || negb (bool_decide (head point = Some x04)) then None
  else secp256k1KeyForXY (drop 1 point).

Definition add (a : Algorithm) (key : option PublicKey) : list keyCandidate :=
  match key with Some k => [Candidate a k] | None => [] end.

Definition trustEd25519Pub (raw : bytes) : option PublicKey :=
  if (length raw =? 32)%nat then Some (Ed25519Pub raw) else None.

Definition candidatesForRawKey (raw : bytes) : outcome error (list keyCandidate) :=
  let cands :=
    match length raw with
    | 32%nat => add AlgorithmEdDSA (trustEd25519Pub raw)
    | 33%nat => add AlgorithmES256K (secp256k1_new raw) ++ add AlgorithmES256 (ecdsaKeyForPoint P256 raw)
    | 64%nat => add AlgorithmES256K (secp256k1KeyForXY raw) ++ add AlgorithmES256 (ecdsaKeyForPoint P256 raw)
    | 65%nat => add AlgorithmES256K (secp256k1KeyForUncompressed raw) ++
                add AlgorithmES256 (ecdsaKeyForPoint P256 raw)
    | 49%nat | 96%nat | 97%nat => add AlgorithmES384 (ecdsaKeyForPoint P384 raw)
    | _ => []
    end in
  if (length cands =? 0)%nat then Err ErrBind else Ok cands.

Definition selectCandidate (cands : list keyCandidate) (declared : list Algorithm) : outcome error PublicKey :=
  match filter (λ c, permitted declared (cand_alg c) = true) cands with
  | [c] => Ok (cand_key c)
  | _ => Err ErrKeyBinding
  end.

Definition bindJWK (m : list (bytes * Canonical.json)) (declared : list Algorithm) : outcome error PublicKey :=
  cands ← algorithmsForJWK m;
  match intersectAlgorithms cands declared with
  | [a] =>
      key ← wrap_err (λ _, ErrStructural) (jwk_unmarshal (jwkWithAlg m a));
      match AlgorithmForPublicKey key with
      | Ok got => if negb (got =? a) then Err ErrKeyBinding else Ok key
      | _ => Err ErrKeyBinding
      end
  | _ => Err ErrKeyBinding
  end.

Definition bindMethod (m : Did.Method) : outcome error PublicKey :=
  declared ← declaredAlgorithms m;
  if negb (String.eqb (Did.PublicKeyMultibase m) "") then
    raw ← wrap_err (λ _, ErrStructural) (decodeMultibase (str_bytes (Did.PublicKeyMultibase m)));
    cands ← wrap_err (λ _, ErrStructural) (candidatesForRawKey raw);
    selectCandidate cands declared
  else bindJWK (Did.PublicKeyJWK m) declared.

(** ** DocumentKeyBinder *)

Definition methodMatches (m : Did.Method) (docID keyID : string) : bool :=
  String.eqb (Did.MID m) keyID || String.eqb (Did.MID m) (docID +:+ "#" +:+ keyID).

Definition hasKeyMaterial (m : Did.Method) : bool :=
  negb (String.eqb (Did.PublicKeyMultibase m) "") || (0 <? zlen (Did.PublicKeyJWK m)).

Fixpoint bind_methods (keyID docID : string) (l : list Did.Method) : outcome error PublicKey :=
  match l with
  | [] => Err ErrBind
  | m :: l' =>
      if negb (methodMatches m docID keyID) || negb (hasKeyMaterial m) then bind_methods keyID docID l'
      else bindMethod m
  end.

Definition Bind (keyID : string) (doc : option Did.Document) : outcome error PublicKey :=
  match doc with
  | None => Err ErrBind
  | Some d => bind_methods keyID (Did.DocID d) (Did.VerificationMethod d)
  end.

End Ops.
End Binder.
