(* ===== verification/BinderProofs.v ===== *)
(** * Key binding: decoding, and no algorithm confusion

    Base58 decoding computes the number its digits denote, a key bound from a DID
    document is the one that the material of the first method used for the key id stands
    for, under an algorithm the method permits, and the secp256k1 coordinates form ignores all of [y] but its parity. *)
From S2P Require Import Prelude Canonical Signature SignatureProofs Did Binder.
Import Signature Binder.
#[local] Open Scope Z_scope.

(** ** Base58 *)

(** The value of a digit, and of a string of digits. *)
Definition b58_digit (c : byte) : option Z := index_byte 0 c base58Alphabet.
Definition b58_value (s : bytes) : Z := foldl (λ acc c, acc * 58 + default 0 (b58_digit c)) 0 s.

Lemma index_byte_range i c l k : index_byte i c l = Some k → i ≤ k < i + zlen l.
Proof.
  revert i. induction l as [|d l IH]; intros i; cbn [index_byte]; [done|].
  case_bool_decide; [intros [= <-]|intros Hk%IH]; cbn [length]; lia.
Qed.

Lemma b58_digit_range c k : b58_digit c = Some k → 0 ≤ k < 58.
Proof. intros Hk%index_byte_range. change (zlen base58Alphabet) with 58 in Hk. lia. Qed.

Lemma be_value_cons b bs : be_value (b :: bs) = b2z b * 256 ^ zlen bs + be_value bs.
Proof.
  induction bs as [|c bs IH] using rev_ind; [cbn; lia|].
  rewrite app_comm_cons, !be_value_snoc, IH, length_app, Nat2Z.inj_add. cbn [length].
  rewrite Z.pow_add_r by lia. lia.
Qed.

(** One pass of the inner loop multiplies by 58 and adds the digit. *)
Lemma mul58_spec out carry : 0 ≤ carry < 58 →
  let r := mul58 out carry in
  length r.1 = length out ∧ 0 ≤ r.2 < 58 ∧
  be_value r.1 + r.2 * 256 ^ zlen out = be_value out * 58 + carry.
Proof.
  intros Hc. induction out as [|b out IH]; cbn [mul58]; [cbn; lia|].
  destruct (mul58 out carry) as [rest c]. cbn [fst snd] in IH. destruct IH as (Hl & Hr & Hv).
  cbn [fst snd length]. pose proof (b2z_range b). rewrite !be_value_cons, Hl, b2z_z2b_small by (apply Z.mod_pos_bound; lia).
  split_and!; [lia|apply Z.div_pos; lia|apply Z.div_lt_upper_bound; lia|].
  rewrite Nat2Z.inj_succ, Z.pow_succ_r by lia.
  pose proof (Z.div_mod (c + 58 * b2z b) 256 ltac:(lia)). nia.
Qed.

Lemma push_carry_small carry out : 0 ≤ carry < 58 →
  push_carry 2 carry out = Ok (if carry =? 0 then out else z2b carry :: out).
Proof.
  intros Hc. cbn [push_carry]. destruct (Z.ltb_spec 0 carry), (Z.eqb_spec carry 0); try lia; [|done].
  by rewrite (Z.div_small carry), (Z.mod_small carry) by lia.
Qed.

(** No superfluous leading byte. *)
Definition minimal (out : bytes) : Prop := head out ≠ Some x00.

Lemma base58_step out d : 0 ≤ d < 58 → minimal out →
  ∃ out', (let '(o, carry) := mul58 out d in push_carry 2 carry o) = Ok out' ∧
    be_value out' = be_value out * 58 + d ∧ minimal out'.
Proof.
  intros Hd Hm. pose proof (mul58_spec out d Hd) as Hs. cbn in Hs. destruct (mul58 out d) as [o carry] eqn:Em.
  cbn [fst snd] in Hs. destruct Hs as (Hl & Hr & Hv). rewrite push_carry_small by done.
  eexists. split; [reflexivity|]. destruct (Z.eqb_spec carry 0) as [->|Hne].
  - split; [lia|]. destruct out as [|b out]; [by destruct o|]. cbn [mul58] in Em.
    destruct (mul58 out d) as [rest c] eqn:Er.
    injection Em as <- Hz. unfold minimal in *. cbn [head] in *. intros [= Hx]. apply (f_equal b2z) in Hx.
    pose proof (mul58_spec out d Hd) as Hs. rewrite Er in Hs. cbn in Hs. destruct Hs as (_ & Hc & _).
    pose proof (b2z_range b). assert (b2z b ≠ 0) as Hb by (intros Hb; apply Hm; f_equal; by apply b2z_inj).
    rewrite b2z_z2b_small in Hx by (apply Z.mod_pos_bound; lia). change (b2z x00) with 0 in Hx.
    pose proof (Z.div_mod (c + 58 * b2z b) 256 ltac:(lia)). lia.
  - rewrite be_value_cons, Hl, b2z_z2b_small by lia. split; [lia|].
    unfold minimal. cbn [head]. intros [= Hx]. apply (f_equal b2z) in Hx.
    rewrite b2z_z2b_small in Hx by lia. by change (b2z x00) with 0 in Hx.
Qed.

Lemma base58_loop_spec s out : minimal out →
  match base58_loop s out with
  | Ok r => Forall (λ c, is_Some (b58_digit c)) s ∧ minimal r ∧
            be_value r = foldl (λ acc c, acc * 58 + default 0 (b58_digit c)) (be_value out) s
  | Err _ => Exists (λ c, b58_digit c = None) s
  | _ => False
  end.
Proof.
  revert out. induction s as [|c s IH]; intros out Hm; cbn [base58_loop foldl]; [by repeat constructor|].
  fold (b58_digit c). destruct (b58_digit c) as [d|] eqn:Ed; [|by left].
  destruct (base58_step out d (b58_digit_range c d Ed) Hm) as (out' & Hs & Hv & Hm').
  destruct (mul58 out d) as [o carry]. rewrite Hs. cbn [mbind outcome_bind default].
  specialize (IH out' Hm'). rewrite Hv in IH. destruct (base58_loop s out'); [|by right|done..].
  destruct IH as (H1 & H2 & H3). split_and!; [constructor; [by rewrite Ed|done]|done|done].
Qed.

(** C38.  Base58 decoding terminates on every input, fails exactly on the empty
    string and on a foreign character, and otherwise returns one zero byte per
    leading [1] followed by the minimal big-endian form of the number that the
    digits denote. *)
Theorem decodeBase58BTC_correct s :
  match decodeBase58BTC s with
  | Ok out => s ≠ [] ∧ Forall (λ c, is_Some (b58_digit c)) s ∧
              ∃ body, out = replicate (leading_ones s) x00 ++ body ∧ minimal body ∧ be_value body = b58_value s
  | Err _ => s = [] ∨ Exists (λ c, b58_digit c = None) s
  | _ => False
  end.
Proof.
  unfold decodeBase58BTC. destruct s as [|c s]; [by left|].
  pose proof (base58_loop_spec (c :: s) [] ltac:(done)) as Hl.
  destruct (base58_loop (c :: s) []) as [r|e| |]; cbn [mbind outcome_bind]; [|by right|done..].
  destruct Hl as (H1 & H2 & H3). split_and!; [done|done|]. by exists r.
Qed.

(** ** The keys that raw bytes stand for *)

(** The forms of a point of a NIST curve: SEC 1 uncompressed and compressed, and the bare
    coordinates. *)
Inductive point_form (c : Curve) : bytes → Z → Z → Prop :=
| form_uncompressed x y : on_curve c x y = true →
    let n := Z.to_nat (field_bytes c) in point_form c (x04 :: be_bytes n x ++ be_bytes n y) x y
| form_compressed x y : on_curve c x y = true →
    point_form c ((if Z.odd y then x03 else x02) :: be_bytes (Z.to_nat (field_bytes c)) x) x y
| form_coordinates x y : on_curve c x y = true →
    let n := Z.to_nat (field_bytes c) in point_form c (be_bytes n x ++ be_bytes n y) x y.

Lemma be_bytes_at n bs : length bs = n → be_bytes n (be_value bs) = bs.
Proof. intros <-. apply be_bytes_value. Qed.

Lemma curvePointBytes_form c raw x y : c = P256 ∨ c = P384 → curvePointBytes c raw (field_bytes c) = Some (x, y) →
  point_form c raw x y.
Proof.
  intros Hc. assert (0 < field_bytes c) as Hn by (by destruct Hc as [-> | ->]). unfold curvePointBytes.
  set (n := Z.to_nat (field_bytes c)). assert (field_bytes c = Z.of_nat n) as En by lia.
  match goal with |- match ?r with _ => _ end = _ → _ => destruct r as [[x' y']|] eqn:Er end; [|done].
  destruct (pointInRange c x' y'); [|done]. intros [= -> ->]. revert Er.
  destruct (Z.eqb_spec (zlen raw) (1 + 2 * field_bytes c)) as [Hl|Hl]; cbn [andb].
  { destruct raw as [|b raw]; cbn [length] in Hl; [lia|]. cbn [head]. case_bool_decide as Hb.
    - injection Hb as ->. unfold unmarshal_point. fold n. cbn [drop]. rewrite drop_0.
      destruct (on_curve _ _ _) eqn:Ho; [|done]. intros [= <- <-].
      pose proof (form_uncompressed c _ _ Ho) as Hf. cbv zeta in Hf. fold n in Hf.
      by rewrite !be_bytes_at, take_drop in Hf by (rewrite ?length_take, ?length_drop; lia).
    - destruct (Z.eqb_spec (zlen (b :: raw)) (1 + field_bytes c)); [cbn [length] in *; lia|]. cbn [andb].
      destruct (Z.eqb_spec (zlen (b :: raw)) (2 * field_bytes c)); [cbn [length] in *; lia|done]. }
  destruct (Z.eqb_spec (zlen raw) (1 + field_bytes c)) as [Hl'|Hl']; cbn [andb].
  - destruct raw as [|b raw]; cbn [length] in Hl'; [lia|]. cbn [head].
    destruct (bool_decide (Some b = Some x02) || bool_decide (Some b = Some x03)) eqn:Hb.
    + unfold unmarshal_compressed. cbn [head drop]. rewrite drop_0.
      match goal with |- (if (_ && on_curve _ _ ?v) && _ then _ else _) = _ → _ => generalize v end.
      intros v. destruct (_ <? _); [|done]. destruct (on_curve _ _ _) eqn:Ho; [|done]. cbn [andb].
      destruct (Bool.eqb _ _) eqn:Eb; [|done]. apply Bool.eqb_prop in Eb. intros [= <- ->].
      pose proof (form_compressed c _ _ Ho) as Hf. fold n in Hf. rewrite be_bytes_at, Eb in Hf by lia.
      apply orb_true_iff in Hb. by case_bool_decide as Hb3; [injection Hb3 as ->|destruct Hb as [[= ->]%bool_decide_eq_true|]].
    + destruct (Z.eqb_spec (zlen (b :: raw)) (2 * field_bytes c)) as [Hl2|]; [|done]. cbn [length] in Hl2.
      exfalso. destruct Hc as [-> | ->]; cbn in *; lia.
  - destruct (Z.eqb_spec (zlen raw) (2 * field_bytes c)) as [Hl2|]; [|done]. fold n. cbv zeta.
    destruct (_ || _) eqn:Ho; [done|]. apply orb_false_iff in Ho as [_ Ho%negb_false_iff]. intros [= <- <-].
    pose proof (form_coordinates c _ _ Ho) as Hf. cbv zeta in Hf. fold n in Hf.
    by rewrite !be_bytes_at, take_drop in Hf by (rewrite ?length_take, ?length_drop; lia).
Qed.

Section Bind.
Context `{!KeyMaterial}.

(** The SEC 1 compressed form that stands for secp256k1 coordinates: the prefix is
    the parity of [y]. *)
Definition secp256k1_sec1 (x y : bytes) : bytes :=
  (if Z.odd (b2z (default x00 (list.last y))) then x03 else x02) :: x.

(** The public keys that bytes stand for, and the algorithm of each: an Ed25519 key, a
    secp256k1 point in compressed, uncompressed or coordinates form, or a point of P-256
    or P-384 in any form. *)
Inductive raw_key : bytes → Algorithm → PublicKey → Prop :=
| raw_ed25519 raw : length raw = 32%nat → raw_key raw AlgorithmEdDSA (Ed25519Pub raw)
| raw_secp256k1 raw : length raw = 33%nat → secp256k1_point raw = true → raw_key raw AlgorithmES256K (Secp256k1Pub raw)
| raw_secp256k1_xy x y : length x = 32%nat → length y = 32%nat → secp256k1_point (secp256k1_sec1 x y) = true →
    raw_key (x ++ y) AlgorithmES256K (Secp256k1Pub (secp256k1_sec1 x y))
| raw_secp256k1_uncompressed x y : length x = 32%nat → length y = 32%nat → secp256k1_point (secp256k1_sec1 x y) = true →
    raw_key (x04 :: x ++ y) AlgorithmES256K (Secp256k1Pub (secp256k1_sec1 x y))
| raw_p256 raw x y : point_form P256 raw x y → raw_key raw AlgorithmES256 (EcdsaPub P256 x y)
| raw_p384 raw x y : point_form P384 raw x y → raw_key raw AlgorithmES384 (EcdsaPub P384 x y).

Lemma raw_key_algorithm raw a key : raw_key raw a key → AlgorithmForPublicKey key = Ok a.
Proof. by destruct 1. Qed.

Lemma secp256k1_new_raw raw k : secp256k1_new raw = Some k →
  length raw = 33%nat ∧ secp256k1_point raw = true ∧ k = Secp256k1Pub raw.
Proof.
  unfold secp256k1_new. destruct (Nat.eqb_spec (length raw) 33); [|done]. cbn [andb].
  destruct (secp256k1_point raw); [|done]. by intros [= <-].
Qed.

Lemma secp256k1KeyForXY_raw xy k : secp256k1KeyForXY xy = Some k → ∃ x y, xy = x ++ y ∧ length x = 32%nat ∧
  length y = 32%nat ∧ secp256k1_point (secp256k1_sec1 x y) = true ∧ k = Secp256k1Pub (secp256k1_sec1 x y).
Proof.
  unfold secp256k1KeyForXY. destruct (Nat.eqb_spec (length xy) 64) as [Hl|]; [|done]. cbn [negb].
  intros (_ & Hp & ->)%secp256k1_new_raw. exists (take 32 xy), (drop 32 xy).
  assert (secp256k1_sec1 (take 32 xy) (drop 32 xy) =
    (if Z.land (b2z (default x00 (list.last xy))) 1 =? 0 then x02 else x03) :: take 32 xy) as ->.
  { unfold secp256k1_sec1. f_equal.
    assert (list.last (drop 32 xy) = list.last xy) as ->.
    { rewrite <- (take_drop 32 xy) at 2. rewrite last_app. destruct (list.last (drop 32 xy)) eqn:El; [done|].
      apply last_None, (f_equal length) in El. rewrite length_drop in El. cbn [length] in El. lia. }
    change 1 with (Z.ones 1). rewrite Z.land_ones by lia. rewrite Zmod_odd. by destruct (Z.odd _). }
  split_and!; try done; [by rewrite take_drop|rewrite length_take; lia|rewrite length_drop; lia].
Qed.

Lemma ecdsaKeyForPoint_raw c raw k : c = P256 ∨ c = P384 → ecdsaKeyForPoint c raw = Some k →
  ∃ x y, k = EcdsaPub c x y ∧ point_form c raw x y.
Proof.
  intros Hc. unfold ecdsaKeyForPoint. destruct (curvePointBytes _ _ _) as [[x y]|] eqn:E; [|done].
  intros [= <-]. exists x, y. split; [done|]. by apply curvePointBytes_form.
Qed.

Lemma elem_of_add c a key : c ∈ add a key → ∃ k, key = Some k ∧ c = Candidate a k.
Proof. destruct key as [k|]; cbn [add]; [intros ->%list_elem_of_singleton; by exists k|by intros ?%not_elem_of_nil]. Qed.

(** Every candidate is a key the bytes stand for. *)
Lemma candidatesForRawKey_raw raw cands c : candidatesForRawKey raw = Ok cands → c ∈ cands →
  raw_key raw (cand_alg c) (cand_key c).
Proof.
  assert (c ∈ add AlgorithmES256 (ecdsaKeyForPoint P256 raw) → raw_key raw (cand_alg c) (cand_key c)) as H256.
  { intros (k & (x & y & -> & Hf)%ecdsaKeyForPoint_raw & ->)%elem_of_add; [by apply raw_p256|by left]. }
  assert (c ∈ add AlgorithmES384 (ecdsaKeyForPoint P384 raw) → raw_key raw (cand_alg c) (cand_key c)) as H384.
  { intros (k & (x & y & -> & Hf)%ecdsaKeyForPoint_raw & ->)%elem_of_add; [by apply raw_p384|by right]. }
  unfold candidatesForRawKey. cbv zeta. destruct (_ =? _)%nat; [done|]. intros Hr. injection Hr as <-. revert H256 H384.
  repeat case_match; intros H256 H384; rewrite ?elem_of_app; try (by intros ?%not_elem_of_nil);
    try (by apply H384); intros Hc; try (destruct Hc as [Hc|Hc]; [|by apply H256]);
    apply elem_of_add in Hc as (k & Hk & ->); cbn [cand_alg cand_key].
  - unfold trustEd25519Pub in Hk. destruct (Nat.eqb_spec (length raw) 32); [|done]. injection Hk as <-. by apply raw_ed25519.
  - apply secp256k1_new_raw in Hk as (? & ? & ->). by apply raw_secp256k1.
  - apply secp256k1KeyForXY_raw in Hk as (x & y & -> & ? & ? & ? & ->). by apply raw_secp256k1_xy.
  - unfold secp256k1KeyForUncompressed in Hk. destruct (_ || _) eqn:Eh; [done|].
    apply orb_false_iff in Eh as [_ Eh%negb_false_iff%bool_decide_eq_true].
    destruct raw as [|b raw]; [done|]. injection Eh as ->.
    apply secp256k1KeyForXY_raw in Hk as (x & y & E & ? & ? & ? & ->). cbn [drop] in E. rewrite drop_0 in E. rewrite E. by apply raw_secp256k1_uncompressed.
Qed.

(** ** No algorithm confusion *)

Lemma permitted_spec declared a : permitted declared a = true ↔ declared = [] ∨ a ∈ declared.
Proof.
  unfold permitted, containsAlgorithm. rewrite orb_true_iff, Nat.eqb_eq, existsb_exists.
  setoid_rewrite Z.eqb_eq. setoid_rewrite <- list_elem_of_In. split.
  - intros [?%nil_length_inv|(x & Hx & ->)]; auto.
  - intros [->|Ha]; [by left|right; eauto].
Qed.

(** A method's declarations permit an algorithm: they name none, or it. *)
Definition permits (declared : list Algorithm) (a : Algorithm) : Prop := declared = [] ∨ a ∈ declared.

(** The key a method publishes, with its algorithm.  Its multibase text, when there is
    one, decodes to bytes that stand for the key, and no other key they stand for is
    permitted; otherwise its JWK, read as one of the permitted algorithm, is the key, and
    no other algorithm of the JWK is permitted. *)
Inductive published (m : Did.Method) (declared : list Algorithm) (a : Algorithm) (key : PublicKey) : Prop :=
| published_raw raw cands : Did.PublicKeyMultibase m ≠ ""%string →
    decodeMultibase (str_bytes (Did.PublicKeyMultibase m)) = Ok raw → raw_key raw a key →
    candidatesForRawKey raw = Ok cands → (∀ c, c ∈ cands → permits declared (cand_alg c) → c = Candidate a key) →
    published m declared a key
| published_jwk algs : Did.PublicKeyMultibase m = ""%string →
    algorithmsForJWK (Did.PublicKeyJWK m) = Ok algs → a ∈ algs → (∀ b, b ∈ algs → permits declared b → b = a) →
    jwk_unmarshal (jwkWithAlg (Did.PublicKeyJWK m) a) = Ok key →
    published m declared a key.

(** The only element that passes a filter. *)
Lemma filter_one {A} (P : A → Prop) `{!∀ x, Decision (P x)} (l : list A) a : filter P l = [a] →
  a ∈ l ∧ P a ∧ ∀ b, b ∈ l → P b → b = a.
Proof.
  intros E. assert (a ∈ filter P l) as [Hp Ha]%list_elem_of_filter by (rewrite E; by left). split_and!; [done..|].
  intros b Hb Hpb. apply list_elem_of_singleton. rewrite <- E. by apply list_elem_of_filter.
Qed.

Lemma bindMethod_published m key : bindMethod m = Ok key →
  ∃ declared a, declaredAlgorithms m = Ok declared ∧ permits declared a ∧ AlgorithmForPublicKey key = Ok a ∧
    published m declared a key.
Proof.
  unfold bindMethod. intros (declared & Hd & Hb)%bind_Ok. exists declared.
  destruct (String.eqb_spec (Did.PublicKeyMultibase m) "") as [Hm|Hm]; cbn [negb] in Hb.
  - apply bind_Ok in Hb as (algs & Ha & Hb). destruct (intersectAlgorithms algs declared) as [|a [|]] eqn:Ei; try discriminate.
    apply bind_Ok in Hb as (k & Hk%wrap_err_Ok & Hb). apply filter_one in Ei as (Hin & Hp%permitted_spec & Hu).
    destruct (AlgorithmForPublicKey k) as [got| | |] eqn:Ea; try discriminate.
    destruct (Z.eqb_spec got a) as [->|]; [|discriminate]. injection Hb as <-. exists a. split_and!; [done..|].
    eapply published_jwk; [done..| |done]. intros b Hb ?%permitted_spec. by apply Hu.
  - apply bind_Ok in Hb as (raw & Hraw%wrap_err_Ok & Hb). apply bind_Ok in Hb as (cands & Hc%wrap_err_Ok & Hb).
    unfold selectCandidate in Hb. destruct (filter _ cands) as [|[a k] [|]] eqn:Ef; try discriminate. injection Hb as <-.
    apply filter_one in Ef as (Hin & Hp%permitted_spec & Hu). pose proof (candidatesForRawKey_raw _ _ _ Hc Hin) as Hr.
    cbn [cand_alg cand_key] in *. exists a. split_and!; [done..|by eapply raw_key_algorithm|].
    eapply published_raw; [done..|]. intros c Hcin ?%permitted_spec. by apply Hu.
Qed.

(** A method is used for a key id: its id is that or the document's fragment, and it
    carries a key. *)
Definition used_for (m : Did.Method) (docID keyID : string) : Prop :=
  (Did.MID m = keyID ∨ Did.MID m = (docID +:+ "#" +:+ keyID)%string) ∧
  (Did.PublicKeyMultibase m ≠ ""%string ∨ Did.PublicKeyJWK m ≠ []).

Lemma skipped_spec m docID keyID : negb (methodMatches m docID keyID) || negb (hasKeyMaterial m) = false ↔ used_for m docID keyID.
Proof.
  unfold used_for, methodMatches, hasKeyMaterial. rewrite <- negb_andb, negb_false_iff, andb_true_iff, !orb_true_iff, !String.eqb_eq.
  rewrite negb_true_iff, String.eqb_neq, Z.ltb_lt. destruct (Did.PublicKeyJWK m); cbn [length]; intuition (done || lia).
Qed.

Lemma bind_methods_first keyID docID l key : bind_methods keyID docID l = Ok key →
  ∃ i m, l !! i = Some m ∧ used_for m docID keyID ∧ (∀ j m', (j < i)%nat → l !! j = Some m' → ¬ used_for m' docID keyID) ∧
    bindMethod m = Ok key.
Proof.
  induction l as [|m l IH]; cbn [bind_methods]; [done|].
  destruct (negb _ || negb _) eqn:E.
  - intros (i & m' & Hm & Hu & Hf & Hb)%IH. exists (S i), m'. split_and!; [done..| |done].
    intros [|j] m'' Hj Hm''; [|apply (Hf j); [lia|done]]. injection Hm'' as <-. rewrite <- skipped_spec. congruence.
  - intros Hb. exists 0%nat, m. split_and!; [done|by apply skipped_spec| |done]. intros. lia.
Qed.

(** C27.  The key that [Bind] returns is the one published by the first verification
    method of the document that is used for the key id: the one its own multibase text
    or JWK stands for, under the algorithm the key itself resolves to; the method's
    declarations permit that algorithm, and no other its material could stand for. *)
Theorem Bind_no_confusion keyID doc key : Bind keyID (Some doc) = Ok key →
  ∃ i m declared a, Did.VerificationMethod doc !! i = Some m ∧ used_for m (Did.DocID doc) keyID ∧
    (∀ j m', (j < i)%nat → Did.VerificationMethod doc !! j = Some m' → ¬ used_for m' (Did.DocID doc) keyID) ∧
    declaredAlgorithms m = Ok declared ∧ permits declared a ∧ AlgorithmForPublicKey key = Ok a ∧
    published m declared a key.
Proof.
  cbn [Bind]. intros (i & m & Hm & Hu & Hf & (declared & a & Hd & Hp & Hr & Hpub)%bindMethod_published)%bind_methods_first.
  exists i, m, declared, a. do 6 (split; [done|]). done.
Qed.

(** The coordinates form of a secp256k1 key depends on [y] only through its
    parity: any 32 bytes with the same last bit yield the same key, on the curve or
    not. *)
Theorem secp256k1_y_ignored x y y' : length x = 32%nat → length y = 32%nat → length y' = 32%nat →
  Z.odd (b2z (default x00 (list.last y))) = Z.odd (b2z (default x00 (list.last y'))) →
  secp256k1KeyForXY (x ++ y) = secp256k1KeyForXY (x ++ y').
Proof.
  intros Hx Hy Hy' Hp. unfold secp256k1KeyForXY. rewrite !length_app, Hx, Hy, Hy'. cbn [negb Nat.eqb Nat.add].
  assert (∀ z, length z = 32%nat → list.last (x ++ z) = list.last z) as Hl.
  { intros z Hz. destruct z as [|b z] using rev_ind; [done|]. by rewrite app_assoc, !last_snoc. }
  rewrite !Hl, !take_app_le, !take_ge by lia.
  assert (∀ z, (Z.land z 1 =? 0) = negb (Z.odd z)) as Ho.
  { intros z. change 1 with (Z.ones 1). rewrite Z.land_ones by lia. rewrite Zmod_odd. by destruct (Z.odd z). }
  by rewrite !Ho, Hp.
Qed.

End Bind.

(** ** Concrete inputs *)

#[export] Instance toy_material : KeyMaterial :=
  {| secp256k1_point := λ raw, bool_decide (head raw = Some x02) || bool_decide (head raw = Some x03);
     jwk_unmarshal := λ _, Err tt |}.

Definition ex_method : Did.Method :=
  {| Did.MID := "did:example:a#k1"; Did.MType := "Ed25519VerificationKey2020"; Did.Controller := "did:example:a";
     Did.BlockchainAccountId := ""; Did.PublicKeyJWK := [];
     Did.PublicKeyMultibase := "f0101010101010101010101010101010101010101010101010101010101010101" |}.
Definition ex_document : Did.Document := Did.MkDocument "did:example:a" [ex_method] [].

(** A method under another id and one without a key come first. *)
Definition ex_methods : list Did.Method :=
  [Did.MkMethod "did:example:a#k0" "" "" "" [] "f00"; Did.MkMethod "did:example:a#k1" "" "" "" [] ""; ex_method].

Lemma Bind_no_confusion_witness : let doc := Did.MkDocument "did:example:a" ex_methods [] in
  ∃ i m declared a, Did.VerificationMethod doc !! i = Some m ∧ used_for m "did:example:a" "k1" ∧
    (∀ j m', (j < i)%nat → Did.VerificationMethod doc !! j = Some m' → ¬ used_for m' "did:example:a" "k1") ∧
    declaredAlgorithms m = Ok declared ∧ permits declared a ∧
    AlgorithmForPublicKey (Ed25519Pub (replicate 32 x01)) = Ok a ∧ published m declared a (Ed25519Pub (replicate 32 x01)).
Proof. intros doc. apply (Bind_no_confusion "k1" doc). vm_compute. reflexivity. Defined.

Lemma secp256k1_y_ignored_witness :
  secp256k1KeyForXY (replicate 32 x05 ++ replicate 32 x00) = secp256k1KeyForXY (replicate 32 x05 ++ replicate 32 x02).
Proof. apply secp256k1_y_ignored; reflexivity. Defined.
