(* ===== verification/Verification.v ===== *)
(** * The [verification] package: the offline pipeline

    A translation of src/verification: inputs and engine (input.go, options.go,
    engine.go, check.go), the thirteen checks (checks_single.go,
    checks_chain.go, checks_evidence.go) and the provenance trace
    (provenance.go, provenance_build.go, provenance_verify.go).  Key binding is
    in Binder.v.

    A check is a function of the context that returns the error, and the hop it
    writes to [ctx.hop].  An error is represented by the sentinel it wraps; texts
    are left out.  The clock of the engine is the instant it returns; the wall
    clock that [attestation.VerifyAuthorization] reads on its own is [wall]. *)
From stdpp Require Import gmap.
From S2P Require Import Prelude Sha256 GoTime Canonical Signature Authority Delegation ClaimEvidence.
From S2P Require Import Attestation Did Binder.
#[local] Open Scope Z_scope.

Module Verification.
Import GoTime Authority.

(** ** errors.go *)

Inductive error : Type :=
| ErrSignatureMismatch
| ErrSignatureKeyMismatch
| ErrAuthorityInvalid
| ErrChainBroken
| ErrNotRootAuthority
| ErrDelegationDepth
| ErrCapabilityNotGranted
| ErrScopeViolation
| ErrNotYetValid
| ErrExpired
| ErrRevoked
| ErrSuperseded
| ErrKeyVersionSuperseded
| ErrIdentityUnresolved
| ErrKeyBinding
| ErrEvidenceIntegrity
| ErrProvenanceMismatch
| ErrCommitmentInvalid
| ErrStructural
| ErrNilAttestation
| ErrNilSigningKey
| ErrEmptyChain
| ErrNilProvenance
| errSkipCheck
| ErrAttestation (e : Attestation.error)
| ErrClaim (e : Claim.error)
| ErrAuthority (e : Authority.error)
| ErrDelegation (e : Delegation.error)
| ErrCanonical (e : Canonical.error).

(** ** input.go, commitment.go *)

(** A nil interface or pointer is [None]. *)
Record AuthorityHop : Type := MkHop { HAuthority : option Authority; HPublicKey : option Signature.PublicKey }.
Record KeyVersion : Type := MkKeyVersion { Version : Z; BoundAt : Time; RevokedAt : Time }.
Record CommitmentProof : Type := MkCommitmentProof { CID : string; CValue : bytes }.

Record Inputs : Type := MkInputs {
  InAttestation : option Attestation.Attestation;
  SigningKey : option Signature.PublicKey;
  Chain : list AuthorityHop;
  IdentityResolver : option (Did.Resolver unit);
  KeyVersions : list KeyVersion;
  InEvidence : gmap string bytes;
  Commitments : list CommitmentProof;
  Now : Time
}.

(** The interfaces [KeyBinder] and [CommitmentChecker].  A commitment checker may call
    out, so it comes with the world it runs in: the one it finds when [Verify] calls
    it first, and the one each of its calls leaves. *)
Record KeyBinder : Type := MkKeyBinder {
  kb_Bind : string → option Did.Document → outcome Binder.error Signature.PublicKey
}.
Record CommitmentChecker : Type := MkChecker {
  cc_world : Type;
  cc_start : cc_world;
  cc_Verify : CommitmentProof → Inputs → cc_world → outcome unit unit * cc_world
}.

(** ** check.go *)

Inductive CheckID : Type :=
| CheckStructural | CheckSignature | CheckAuthorization | CheckAuthorityProof | CheckChainLink
| CheckRootAuthority | CheckTemporal | CheckRevocation | CheckIdentity | CheckKeyBinding
| CheckEvidence | CheckProvenance | CheckCommitment.
(** The name of a check in reports. *)
Definition CheckID_String (id : CheckID) : string :=
  match id with
  | CheckStructural => "structural" | CheckSignature => "signature" | CheckAuthorization => "authorization"
  | CheckAuthorityProof => "authority_proof" | CheckChainLink => "chain_link" | CheckRootAuthority => "root_authority"
  | CheckTemporal => "temporal" | CheckRevocation => "revocation" | CheckIdentity => "identity"
  | CheckKeyBinding => "key_binding" | CheckEvidence => "evidence" | CheckProvenance => "provenance"
  | CheckCommitment => "commitment"
  end.
#[global] Instance CheckID_eq_dec : EqDecision CheckID.
Proof. solve_decision. Defined.

Inductive CheckStatus : Type := CheckPassed | CheckFailed | CheckSkipped.

Record CheckResult : Type := MkCheckResult { CRID : CheckID; CRStatus : CheckStatus; CRErr : option error }.
Record Failure : Type := MkFailure { FCheck : CheckID; FErr : error; FHop : Z }.

(** ** provenance.go *)

Inductive NodeKind : Type :=
| NodeAttestation | NodeClaim | NodeSigningKey | NodeAuthority | NodeDelegation | NodeRootAuthority | NodeIdentity.
#[global] Instance NodeKind_eq_dec : EqDecision NodeKind.
Proof. solve_decision. Defined.
Definition kind_number (k : NodeKind) : Z :=
  match k with
  | NodeAttestation => 1 | NodeClaim => 2 | NodeSigningKey => 3 | NodeAuthority => 4
  | NodeDelegation => 5 | NodeRootAuthority => 6 | NodeIdentity => 7
  end.

Record Link : Type := MkLink {
  Kind : NodeKind;
  Ref : string;
  LSubject : string;
  LKeyID : string;
  LParent : string
}.
Record Provenance : Type := MkProvenance { Links : list Link }.

Record Result : Type := MkResult {
  Valid : bool;
  RProvenance : Provenance;
  Checks : list CheckResult;
  Failures : list Failure
}.

Definition consistent (r : Result) : bool := Bool.eqb (Valid r) (length (Failures r) =? 0)%nat.

Definition Link_json (l : Link) : Canonical.json :=
  Canonical.JObj (field "kind" (Canonical.jint (kind_number (Kind l))) ++
    field "ref" (Canonical.jstr (Ref l)) ++ field "subject" (Canonical.jstr (LSubject l)) ++
    field "keyId" (Canonical.jstr (LKeyID l)) ++ field "parent" (Canonical.jstr (LParent l))).
#[global] Instance Provenance_json : Canonical.ToJSON Provenance := λ p,
  Ok (Canonical.JObj (match Links p with
                      | [] => []
                      | l => field "links" (Canonical.JArr (Link_json <$> l))
                      end)).
#[global] Instance Provenance_declares : Canonical.Declares Provenance := Some Canonical.EncodingJSON.

(** ** Small pure helpers *)

(** [refEqual]: as decoded bytes when both are hex, as strings otherwise. *)
Definition refEqual (a b : string) : bool :=
  match hex_decode a, hex_decode b with
  | Some da, Some db => ct_equal da db
  | _, _ => ct_equal (str_bytes a) (str_bytes b)
  end.

Definition linkEqual (a b : Link) : bool :=
  bool_decide (Kind a = Kind b) && refEqual (Ref a) (Ref b) && refEqual (LSubject a) (LSubject b) &&
  refEqual (LKeyID a) (LKeyID b) && refEqual (LParent a) (LParent b).

Definition bound_later (v bound : KeyVersion) : bool :=
  After (BoundAt v) (BoundAt bound) ||
  (Equal (BoundAt v) (BoundAt bound) && (Version bound <? Version v)).

(** The loop of [keyVersionAt]; [None] is [found == false]. *)
Fixpoint keyVersionAt_loop (bound : option KeyVersion) (history : list KeyVersion) (now : Time) : option KeyVersion :=
  match history with
  | [] => bound
  | v :: history' =>
      if Before now (BoundAt v) then keyVersionAt_loop bound history' now
      else
        match bound with
        | None => keyVersionAt_loop (Some v) history' now
        | Some b => keyVersionAt_loop (if bound_later v b then Some v else Some b) history' now
        end
  end.
Definition keyVersionAt (history : list KeyVersion) (now : Time) : option KeyVersion :=
  keyVersionAt_loop None history now.

(** The comparable form of a key: its raw bytes, or the standard-library key
    whose PKIX encoding is compared.  RSA keys lose their scheme and hash.  A key
    that is not one of the library's own may have a PKIX encoding too, but
    [sameKeyAlgorithm] then fails with the same [ErrKeyBinding].  A point off its
    curve has no PKIX encoding, and none on a curve other than P-256 and P-384
    gets here. *)
Inductive material : Type :=
| RawKey (b : bytes)
| EcKey (c : Signature.Curve) (x y : Z)
| RsaKey (n e : Z).
#[global] Instance material_eq_dec : EqDecision material.
Proof. solve_decision. Defined.

Definition marshalPublicKey (k : Signature.PublicKey) : option material :=
  match k with
  | Signature.Ed25519Pub b => Some (RawKey b)
  | Signature.Secp256k1Pub b => Some (RawKey b)
  | Signature.EcdsaPub c x y => if Binder.on_curve c x y then Some (EcKey c x y) else None
  | Signature.PSSPub _ n e => Some (RsaKey n e)
  | Signature.PKCS1Pub _ n e => Some (RsaKey n e)
  | Signature.X25519Pub _ => None
  | Signature.OtherPub _ _ => None
  end.

Definition samePublicKey (a b : option Signature.PublicKey) : bool :=
  match a, b with
  | None, None => true
  | Some a, Some b =>
      match marshalPublicKey a, marshalPublicKey b with
      | Some ma, Some mb => bool_decide (ma = mb)
      | _, _ => false
      end
  | _, _ => false
  end.

(** The nil key falls into the default case of every type switch. *)
Definition key_or_nil (k : option Signature.PublicKey) : Signature.PublicKey :=
  default (Signature.OtherPub "nil" []) k.

Definition mapDelegationError (e : Delegation.error) : error :=
  match e with
  | Delegation.ErrCapabilityEscalation => ErrCapabilityNotGranted
  | Delegation.ErrScopeEscalation | Delegation.ErrValidityEscalation => ErrScopeViolation
  | Delegation.ErrDepthEscalation => ErrDelegationDepth
  | Delegation.ErrAuthority _ => ErrDelegation e
  end.

Section Ops.
Context `{!Hasher} `{!Canonical.CborLib} `{!Signature.KeyOps}.

(** ** provenance.go, provenance_build.go, provenance_verify.go *)

Definition CanonicalHash (p : option Provenance) : outcome error array32 :=
  match p with
  | None => Err ErrNilProvenance
  | Some p => wrap_err ErrCanonical (Canonical.CanonicalHash p)
  end.

Definition MarshalProvenance (p : option Provenance) : outcome error bytes :=
  match p with
  | None => Err ErrNilProvenance
  | Some p => wrap_err ErrCanonical (Canonical.Marshal p Canonical.EncodingJSON)
  end.

Definition hashRef {E} (f : E → error) (h : outcome E array32) : outcome error string :=
  h ← wrap_err f h; Ok (hex_encode (arr h)).

(** The authority links, each pointing at the next hop. *)
Fixpoint authority_links (chain : list AuthorityHop) (refs : list string) : outcome error (list Link) :=
  match chain, refs with
  | hop :: chain', ref :: refs' =>
      match HAuthority hop with
      | None => Panic
      | Some a =>
          rest ← authority_links chain' refs';
          Ok ({| Kind := NodeAuthority; Ref := ref; LSubject := Subject a; LKeyID := "";
                 LParent := default "" (head refs') |} :: rest)
      end
  | _, _ => Ok []
  end.

(** The delegation edges between consecutive hops. *)
Fixpoint delegation_links (refs : list string) : list Link :=
  match refs with
  | a :: ((b :: _) as refs') =>
      {| Kind := NodeDelegation; Ref := a; LSubject := ""; LKeyID := ""; LParent := b |} :: delegation_links refs'
  | _ => []
  end.

Definition BuildProvenance (inp : Inputs) : outcome error Provenance :=
  match InAttestation inp with
  | None => Err ErrNilAttestation
  | Some att =>
      if (length (Chain inp) =? 0)%nat then Err ErrEmptyChain
      else
        attRef ← hashRef ErrAttestation (Attestation.CanonicalHash (Some att));
        claimRef ← hashRef ErrClaim (Claim.CanonicalHash (Some (Attestation.AClaim att)));
        hopRefs ← each (λ _ hop, hashRef ErrAuthority (Authority.CanonicalHash (HAuthority hop))) 0 (Chain inp);
        auths ← authority_links (Chain inp) hopRefs;
        ids ← (match IdentityResolver inp with
               | None => Ok []
               | Some _ =>
                   match list.last (Chain inp) with
                   | Some {| HAuthority := Some root |} =>
                       Ok [{| Kind := NodeIdentity; Ref := Subject root; LSubject := Subject root;
                              LKeyID := ""; LParent := "" |}]
                   | _ => Panic
                   end
               end);
        Ok {| Links :=
          [ {| Kind := NodeAttestation; Ref := attRef; LSubject := Attestation.AIssuer att; LKeyID := ""; LParent := "" |};
            {| Kind := NodeClaim; Ref := claimRef; LSubject := ""; LKeyID := ""; LParent := attRef |};
            {| Kind := NodeSigningKey; Ref := ""; LSubject := ""; LKeyID := Attestation.SigningKeyID att; LParent := attRef |} ]
          ++ auths ++ delegation_links hopRefs ++
          [ {| Kind := NodeRootAuthority; Ref := default "" (list.last hopRefs); LSubject := ""; LKeyID := ""; LParent := "" |} ]
          ++ ids |}
  end.

Definition VerifyProvenance (prov : option Provenance) (inp : Inputs) : outcome error unit :=
  match prov with
  | None => Err ErrNilProvenance
  | Some p =>
      expected ← BuildProvenance inp;
      if negb (length (Links p) =? length (Links expected))%nat then Err ErrProvenanceMismatch
      else if forallb (λ ab, linkEqual ab.1 ab.2) (zip (Links p) (Links expected)) then Ok tt
      else Err ErrProvenanceMismatch
  end.

(** ** Engine *)

(** [NewEngine], the only constructor, fills the field [checks] with
    [defaultChecks()] and no option changes it, so it is not part of the record.
    The clock is the instant it would return. *)
Record Engine : Type := MkEngine {
  clock : Time;
  binder : KeyBinder;
  commitmentChecker : option CommitmentChecker
}.

Record checkContext : Type := MkContext {
  inp : Inputs;
  now : Time;
  prov : Provenance;
  eng : Engine;
  att : Attestation.Attestation;
  wall : Time
}.

(** The value of [ctx.hop] after the check, and what it returned. *)
Definition checked : Type := Z * outcome error unit.
Definition global (m : outcome error unit) : checked := (-1, m).

(** A loop over the chain that stops, and records the hop, at the first error. *)
Fixpoint each_hop (f : AuthorityHop → outcome error unit) (i : Z) (chain : list AuthorityHop) : checked :=
  match chain with
  | [] => (-1, Ok tt)
  | hop :: chain' =>
      match f hop with
      | Ok _ => each_hop f (i + 1) chain'
      | m => (i, m)
      end
  end.

(** ** checks_single.go *)

Definition checkStructural (ctx : checkContext) : checked :=
  global (wrap_err (λ _, ErrStructural) (Attestation.Validate (Some (att ctx)))).

Definition checkSignature (ctx : checkContext) : checked :=
  global (wrap_err (λ e, match e with
                         | Attestation.ErrWrongKey => ErrSignatureKeyMismatch
                         | _ => ErrSignatureMismatch
                         end)
            (Attestation.VerifySignature (Some (att ctx)) (key_or_nil (SigningKey (inp ctx))))).

Definition checkAuthorization (ctx : checkContext) : checked :=
  global
    match Chain (inp ctx) with
    | [] => Panic
    | leaf :: _ =>
        wrap_err (λ e, match e with
                       | Attestation.ErrCapabilityNotGranted => ErrCapabilityNotGranted
                       | Attestation.ErrAuthorizationScope => ErrScopeViolation
                       | _ => ErrAuthorityInvalid
                       end)
          (Attestation.VerifyAuthorization (wall ctx) (Some (att ctx)) (HAuthority leaf))
    end.

(** [ctx.in.Chain[len(ctx.in.Chain)-1]]. *)
Definition root_hop (ctx : checkContext) : outcome error AuthorityHop :=
  match list.last (Chain (inp ctx)) with Some h => Ok h | None => Panic end.
(** A pointer dereference. *)
Definition deref {A} (p : option A) : outcome error A :=
  match p with Some a => Ok a | None => Panic end.

Definition checkRootAuthority (ctx : checkContext) : checked :=
  global (root ← root_hop ctx; a ← deref (HAuthority root);
          match Parent a with Some _ => Err ErrNotRootAuthority | None => Ok tt end).

Definition checkSigningKeyVersion (ctx : checkContext) : outcome error unit :=
  match KeyVersions (inp ctx) with
  | [] => Ok tt
  | history =>
      let used := Attestation.SigningKeyVersion (att ctx) in
      match keyVersionAt history (now ctx) with
      | None => Err ErrKeyBinding
      | Some bound =>
          if used <? Version bound then Err ErrKeyVersionSuperseded
          else if Version bound <? used then Err ErrKeyBinding
          else if negb (IsZero (RevokedAt bound)) && negb (Before (now ctx) (RevokedAt bound)) then Err ErrRevoked
          else Ok tt
      end
  end.

Definition sameKeyAlgorithm (bound want : option Signature.PublicKey) : outcome error unit :=
  match Signature.AlgorithmForPublicKey (key_or_nil bound), Signature.AlgorithmForPublicKey (key_or_nil want) with
  | Ok ba, Ok wa => check (ba =? wa) ErrKeyBinding
  | _, _ => Err ErrKeyBinding
  end.

Definition bindKeyMatches (ctx : checkContext) (r : Did.Resolver unit) (subject keyID : string)
    (want : option Signature.PublicKey) : outcome error unit :=
  d ← wrap_err (λ _, ErrKeyBinding) (Did.Parse subject);
  doc ← wrap_err (λ _, ErrKeyBinding) (Did.Resolve r d);
  bound ← wrap_err (λ _, ErrKeyBinding) (kb_Bind (binder (eng ctx)) keyID doc);
  if negb (samePublicKey (Some bound) want) then Err ErrKeyBinding
  else sameKeyAlgorithm (Some bound) want.

Definition checkKeyBinding (ctx : checkContext) : checked :=
  global
    (_ ← checkSigningKeyVersion ctx;
     match IdentityResolver (inp ctx) with
     | None => Ok tt
     | Some r =>
         _ ← bindKeyMatches ctx r (Attestation.AIssuer (att ctx)) (Attestation.SigningKeyID (att ctx))
               (SigningKey (inp ctx));
         root ← root_hop ctx; a ← deref (HAuthority root);
         bindKeyMatches ctx r (Subject a) (KeyID (Proof a)) (HPublicKey root)
     end).

(** ** checks_chain.go *)

Definition checkAuthorityProof (ctx : checkContext) : checked :=
  each_hop (λ hop, wrap_err (λ _, ErrAuthorityInvalid)
                     (VerifyAuthorityProof (HAuthority hop) (key_or_nil (HPublicKey hop)))) 0 (Chain (inp ctx)).

(** One pair of consecutive hops. *)
Definition link_ok (child parent : AuthorityHop) : outcome error unit :=
  ph ← wrap_err (λ _, ErrAuthorityInvalid) (Authority.CanonicalHash (HAuthority parent));
  c ← deref (HAuthority child);
  if negb (bool_decide (Parent c = Some (hex_encode (arr ph)))) then Err ErrChainBroken
  else wrap_err mapDelegationError (Delegation.VerifySubset (HAuthority child) (HAuthority parent)).

Fixpoint chain_links (i : Z) (chain : list AuthorityHop) : checked :=
  match chain with
  | child :: ((parent :: _) as chain') =>
      match link_ok child parent with
      | Ok _ => chain_links (i + 1) chain'
      | m => (i, m)
      end
  | _ => (-1, Ok tt)
  end.
Definition checkChainLink (ctx : checkContext) : checked := chain_links 0 (Chain (inp ctx)).

Definition within (t : Time) (v : Validity) : outcome error unit :=
  if Before t (NotBefore v) then Err ErrNotYetValid
  else if After t (NotAfter v) then Err ErrExpired
  else Ok tt.

Definition checkTemporal (ctx : checkContext) : checked :=
  match within (now ctx) (Attestation.AValidity (att ctx)) with
  | Ok _ => each_hop (λ hop, a ← deref (HAuthority hop); within (now ctx) (Validity_ a)) 0 (Chain (inp ctx))
  | m => (-1, m)
  end.

Definition status_ok (s : Status) : outcome error unit :=
  if s =? StatusActive then Ok tt
  else if s =? StatusRevoked then Err ErrRevoked
  else if s =? StatusSuperseded then Err ErrSuperseded
  else if s =? StatusExpired then Err ErrExpired
  else Err ErrAuthorityInvalid.

Definition checkRevocation (ctx : checkContext) : checked :=
  each_hop (λ hop, a ← deref (HAuthority hop); status_ok (Status_ a)) 0 (Chain (inp ctx)).

Definition checkIdentity (ctx : checkContext) : checked :=
  global
    match IdentityResolver (inp ctx) with
    | None => Ok tt
    | Some r =>
        root ← root_hop ctx; a ← deref (HAuthority root);
        d ← wrap_err (λ _, ErrIdentityUnresolved) (Did.Parse (Subject a));
        _ ← wrap_err (λ _, ErrIdentityUnresolved) (Did.Resolve r d);
        Ok tt
    end.

(** ** checks_evidence.go *)

Definition evidence_ok (supplied : gmap string bytes) (ev : Evidence.Evidence) : outcome error unit :=
  eh ← wrap_err (λ _, ErrEvidenceIntegrity) (Evidence.CanonicalHash (Some ev));
  match supplied !! hex_encode (arr eh) with
  | None => Err ErrEvidenceIntegrity
  | Some content =>
      check (ct_equal (arr (Sum content)) (default [] (Evidence.ContentHash ev))) ErrEvidenceIntegrity
  end.

Definition checkEvidence (ctx : checkContext) : checked :=
  global (_ ← each (λ _, evidence_ok (InEvidence (inp ctx))) 0 (elems (Attestation.AEvidence (att ctx))); Ok tt).

Definition checkProvenance (ctx : checkContext) : checked :=
  global (VerifyProvenance (Some (prov ctx)) (inp ctx)).

(** The loop of [checkCommitment]: each proof is checked in the world the one before left. *)
Fixpoint each_commitment (checker : CommitmentChecker) (inp : Inputs) (proofs : list CommitmentProof)
    (w : cc_world checker) : outcome error unit :=
  match proofs with
  | [] => Ok tt
  | proof :: proofs' =>
      let (m, w') := cc_Verify checker proof inp w in
      _ ← wrap_err (λ _, ErrCommitmentInvalid) m;
      each_commitment checker inp proofs' w'
  end.

Definition checkCommitment (ctx : checkContext) : checked :=
  global
    match commitmentChecker (eng ctx) with
    | None => Err errSkipCheck
    | Some checker =>
        if (length (Commitments (inp ctx)) =? 0)%nat then Err ErrCommitmentInvalid
        else each_commitment checker (inp ctx) (Commitments (inp ctx)) (cc_start checker)
    end.

Definition defaultChecks : list (CheckID * (checkContext → checked)) :=
  [ (CheckStructural, checkStructural); (CheckSignature, checkSignature);
    (CheckAuthorization, checkAuthorization); (CheckAuthorityProof, checkAuthorityProof);
    (CheckChainLink, checkChainLink); (CheckRootAuthority, checkRootAuthority);
    (CheckTemporal, checkTemporal); (CheckRevocation, checkRevocation);
    (CheckIdentity, checkIdentity); (CheckKeyBinding, checkKeyBinding);
    (CheckEvidence, checkEvidence); (CheckProvenance, checkProvenance);
    (CheckCommitment, checkCommitment) ].

(** ** engine.go *)

Definition checkPrerequisites (id : CheckID) : list CheckID :=
  match id with
  | CheckStructural => []
  | CheckSignature => [CheckStructural]
  | CheckAuthorization => [CheckSignature]
  | CheckAuthorityProof => [CheckAuthorization]
  | CheckChainLink => [CheckAuthorityProof]
  | CheckRootAuthority => [CheckChainLink]
  | CheckTemporal | CheckRevocation | CheckIdentity => [CheckStructural]
  | CheckKeyBinding => [CheckSignature]
  | CheckEvidence | CheckProvenance | CheckCommitment => [CheckStructural]
  end.

(** [failed] is the set of checks recorded as failed so far. *)
Definition prerequisiteFailed (id : CheckID) (failed : list CheckID) : bool :=
  existsb (λ p, bool_decide (p ∈ failed)) (checkPrerequisites id).

(** The loop of [Verify]. *)
Fixpoint run_checks (ctx : checkContext) (specs : list (CheckID * (checkContext → checked)))
    (failed : list CheckID) : outcome error (list CheckResult * list Failure) :=
  match specs with
  | [] => Ok ([], [])
  | (id, run) :: specs' =>
      if prerequisiteFailed id failed then
        r ← run_checks ctx specs' failed;
        Ok (MkCheckResult id CheckSkipped None :: r.1, r.2)
      else
        let '(hop, m) := run ctx in
        match m with
        | Err errSkipCheck =>
            r ← run_checks ctx specs' failed;
            Ok (MkCheckResult id CheckSkipped None :: r.1, r.2)
        | Err e =>
            r ← run_checks ctx specs' (id :: failed);
            Ok (MkCheckResult id CheckFailed (Some e) :: r.1, MkFailure id e hop :: r.2)
        | Ok _ =>
            r ← run_checks ctx specs' failed;
            Ok (MkCheckResult id CheckPassed None :: r.1, r.2)
        | Panic => Panic
        | OutOfFuel => OutOfFuel
        end
  end.

Definition Verify (wall : Time) (e : Engine) (i : Inputs) : outcome error Result :=
  match InAttestation i with
  | None => Err ErrNilAttestation
  | Some a =>
      match SigningKey i with
      | None => Err ErrNilSigningKey
      | Some _ =>
          if (length (Chain i) =? 0)%nat then Err ErrEmptyChain
          else
            let t := if IsZero (Now i) then clock e else Now i in
            p ← BuildProvenance i;
            r ← run_checks (MkContext i t p e a wall) defaultChecks [];
            Ok {| Valid := (length r.2 =? 0)%nat; RProvenance := p; Checks := r.1; Failures := r.2 |}
      end
  end.

End Ops.

(** ** options.go *)

(** [NewEngine]: the default binder, then the options in order; [WithClock] and
    [WithKeyBinder] ignore nil, [WithCommitmentChecker] does not. *)
Inductive Option_ : Type :=
| WithClock (t : option Time)
| WithKeyBinder (b : option KeyBinder)
| WithCommitmentChecker (c : option CommitmentChecker).

Definition apply_option (e : Engine) (o : Option_) : Engine :=
  match o with
  | WithClock (Some t) => MkEngine t (binder e) (commitmentChecker e)
  | WithKeyBinder (Some b) => MkEngine (clock e) b (commitmentChecker e)
  | WithCommitmentChecker c => MkEngine (clock e) (binder e) c
  | _ => e
  end.

Definition DocumentKeyBinder `{!Binder.KeyMaterial} : KeyBinder := MkKeyBinder Binder.Bind.
Definition NewEngine `{!Binder.KeyMaterial} (wall : Time) (opts : list Option_) : Engine :=
  foldl apply_option (MkEngine wall DocumentKeyBinder None) opts.

End Verification.
