(* ===== verification/VerificationProofs.v ===== *)
(** * The verification pipeline: what a valid result means

    The report is complete and consistent, a valid result establishes the whole
    chain of trust from the attestation to a root authority, every recorded
    failure belongs to the published taxonomy, and the trace the engine builds
    verifies. *)
From stdpp Require Import gmap sorting.
From S2P Require Import Prelude Sha256 GoTime Canonical Signature SignatureProofs Authority.
From S2P Require Import AuthorityProofs Delegation DelegationProofs ClaimEvidence Attestation.
From S2P Require Import AttestationProofs Did Binder Verification.
Import GoTime Authority Verification.
#[local] Open Scope Z_scope.

(** ** Key versions *)

(** Bound no later than [now]. *)
Definition bound_by (now : Time) (v : KeyVersion) : Prop := instant (BoundAt v) ≤ instant now.
(** Later binding, then higher version. *)
Definition not_after (w v : KeyVersion) : Prop :=
  instant (BoundAt w) < instant (BoundAt v) ∨
  instant (BoundAt w) = instant (BoundAt v) ∧ Version w ≤ Version v.

Lemma keyVersionAt_loop_spec bound history now :
  (∀ b, bound = Some b → bound_by now b) →
  match keyVersionAt_loop bound history now with
  | None => bound = None ∧ Forall (λ v, ¬ bound_by now v) history
  | Some v =>
      bound_by now v ∧ (bound = Some v ∨ v ∈ history) ∧
      (∀ w, bound = Some w ∨ w ∈ history → bound_by now w → not_after w v)
  end.
Proof.
  revert bound. induction history as [|v history IH]; intros bound Hb; cbn [keyVersionAt_loop].
  - destruct bound as [b|]; [|by split]. split_and!; [by apply Hb|by left|].
    intros w [[= ->]|Hw]; [|by apply not_elem_of_nil in Hw]. intros _. right. split; [done|lia].
  - unfold Before. destruct (Z.ltb_spec (instant now) (instant (BoundAt v))) as [Hlt|Hge].
    + specialize (IH bound Hb). destruct (keyVersionAt_loop bound history now) as [x|].
      * destruct IH as (H1 & H2 & H3). split_and!; [done|rewrite elem_of_cons; tauto|].
        intros w Hw Hbw. apply H3; [|done]. rewrite elem_of_cons in Hw.
        destruct Hw as [Hw|[->|Hw]]; [by left|unfold bound_by in Hbw; lia|by right].
      * destruct IH. split; [done|]. constructor; [unfold bound_by; lia|done].
    + assert (∃ b', (bound = Some b' ∨ b' = v) ∧ bound_by now b' ∧ not_after v b' ∧
        (∀ b, bound = Some b → not_after b b') ∧
        (match bound with
         | None => keyVersionAt_loop (Some v) history now
         | Some b => keyVersionAt_loop (if bound_later v b then Some v else Some b) history now
         end) = keyVersionAt_loop (Some b') history now) as (b' & Hfrom & Hb' & Hv & Hmax & ->).
      { destruct bound as [b|].
        - unfold bound_later, After, Equal.
          destruct (Z.ltb_spec (instant (BoundAt b)) (instant (BoundAt v)));
          [|destruct (Z.eqb_spec (instant (BoundAt v)) (instant (BoundAt b)));
            [destruct (Z.ltb_spec (Version b) (Version v))|]]; cbn [orb andb];
          [exists v|exists v|exists b|exists b]; (split_and!; [auto|unfold bound_by; try lia; by apply Hb|..|done]);
          unfold not_after; try (intros ? [= <-]); lia.
        - exists v. split_and!; [by right|done|right; split; [done|lia]|done|done]. }
      specialize (IH (Some b') ltac:(by intros ? [= <-])).
      destruct (keyVersionAt_loop (Some b') history now) as [x|]; [|by destruct IH].
      destruct IH as (H1 & H2 & H3). split_and!; [done|rewrite elem_of_cons; naive_solver|].
      assert (not_after b' x) as Hbx by (apply H3; auto).
      intros w Hw Hbw. rewrite elem_of_cons in Hw.
      destruct Hw as [Hw|[->|Hw]]; [specialize (Hmax w Hw)| |apply H3; auto]; unfold not_after in *; lia.
Qed.

(** [keyVersionAt] returns the entry bound most recently, at or before the
    evaluation instant, the highest version among those bound at that same
    instant; it finds none exactly when every entry is bound later. *)
Theorem keyVersionAt_latest history now :
  match keyVersionAt history now with
  | None => Forall (λ v, ¬ bound_by now v) history
  | Some v => bound_by now v ∧ v ∈ history ∧ (∀ w, w ∈ history → bound_by now w → not_after w v)
  end.
Proof.
  unfold keyVersionAt. pose proof (keyVersionAt_loop_spec None history now ltac:(done)) as H.
  destruct (keyVersionAt_loop None history now); naive_solver.
Qed.

Section Pipeline.
Context `{!Hasher} `{!Canonical.CborLib} `{!Signature.KeyOps}.

(** ** The report *)

Definition pipeline : list CheckID := defaultChecks.*1.

(** A failed entry of the report and the failure recorded for it. *)
Definition failed_entry (c : CheckResult) : option (CheckID * error) :=
  match CRStatus c, CRErr c with CheckFailed, Some e => Some (CRID c, e) | _, _ => None end.

Lemma skip_dec (e : error) : {e = errSkipCheck} + {∀ A (x y : A), match e with errSkipCheck => x | _ => y end = y}.
Proof. destruct e; (by left) || (right; reflexivity). Defined.

Definition skipped (id : CheckID) (r : list CheckResult * list Failure) : list CheckResult * list Failure :=
  (MkCheckResult id CheckSkipped None :: r.1, r.2).
Definition passed (id : CheckID) (r : list CheckResult * list Failure) : list CheckResult * list Failure :=
  (MkCheckResult id CheckPassed None :: r.1, r.2).
Definition failed_at (id : CheckID) (e : error) (hop : Z) (r : list CheckResult * list Failure) :
    list CheckResult * list Failure :=
  (MkCheckResult id CheckFailed (Some e) :: r.1, MkFailure id e hop :: r.2).

(** One iteration of the loop of [Verify]. *)
Lemma run_checks_step ctx id run specs failed r :
  run_checks ctx ((id, run) :: specs) failed = Ok r →
  ∃ failed' r', run_checks ctx specs failed' = Ok r' ∧
    ((failed' = failed ∧ r = skipped id r' ∧
        (prerequisiteFailed id failed = true ∨ (run ctx).2 = Err errSkipCheck)) ∨
     (failed' = failed ∧ r = passed id r' ∧ prerequisiteFailed id failed = false ∧ (run ctx).2 = Ok tt) ∨
     (∃ e, failed' = id :: failed ∧ r = failed_at id e (run ctx).1 r' ∧
        prerequisiteFailed id failed = false ∧ (run ctx).2 = Err e)).
Proof.
  cbn [run_checks]. destruct (prerequisiteFailed id failed) eqn:Hp.
  { destruct (run_checks ctx specs failed) as [r'| | |] eqn:E; cbn [mbind outcome_bind]; try discriminate.
    intros Hr. injection Hr as <-. exists failed, r'. split; [done|]. left. auto. }
  destruct (run ctx) as [hop m]. cbn [fst snd]. destruct m as [[]|e| |]; try discriminate.
  - destruct (run_checks ctx specs failed) as [r'| | |] eqn:E; cbn [mbind outcome_bind]; try discriminate.
    intros Hr. injection Hr as <-. exists failed, r'. split; [done|]. right. left. auto.
  - destruct (skip_dec e) as [->|Hs].
    + destruct (run_checks ctx specs failed) as [r'| | |] eqn:E; cbn [mbind outcome_bind]; try discriminate.
      intros Hr. injection Hr as <-. exists failed, r'. split; [done|]. left. auto.
    + rewrite Hs.
      destruct (run_checks ctx specs (id :: failed)) as [r'| | |] eqn:E; cbn [mbind outcome_bind]; try discriminate.
      intros Hr. injection Hr as <-. exists (id :: failed), r'. split; [done|]. right. right. eauto.
Qed.

Lemma run_checks_report ctx specs failed r :
  run_checks ctx specs failed = Ok r →
  CRID <$> r.1 = specs.*1 ∧ omap failed_entry r.1 = (λ f, (FCheck f, FErr f)) <$> r.2.
Proof.
  revert failed r. induction specs as [|[id run] specs IH]; intros failed r.
  { cbn [run_checks]. intros Hr. injection Hr as <-. done. }
  intros (failed' & r' & Hr' & Hc)%run_checks_step. destruct (IH _ _ Hr') as [E1 E2].
  destruct Hc as [(_ & -> & _)|[(_ & -> & _)|(e & _ & -> & _)]]; cbn; by rewrite E1, E2.
Qed.

(** Where nothing failed, every check passed or asked to be skipped. *)
Lemma run_checks_clean ctx specs r :
  run_checks ctx specs [] = Ok (r, []) →
  Forall (λ s, (s.2 ctx).2 = Ok tt ∨ (s.2 ctx).2 = Err errSkipCheck) specs.
Proof.
  revert r. induction specs as [|[id run] specs IH]; intros r; [by constructor|].
  intros (failed' & [r1 r2] & Hr' & Hc)%run_checks_step.
  destruct Hc as [(-> & Hr & Hs)|[(-> & Hr & _ & Hs)|(e & _ & Hr & _)]]; [..|discriminate];
    injection Hr as -> <-; constructor; cbn; eauto.
  destruct Hs as [Hs|Hs]; [|by right]. unfold prerequisiteFailed in Hs.
  by destruct id.
Qed.

Lemma Verify_inv wall e i r : Verify wall e i = Ok r →
  ∃ a k p, InAttestation i = Some a ∧ SigningKey i = Some k ∧ Chain i ≠ [] ∧ BuildProvenance i = Ok p ∧
    RProvenance r = p ∧ Valid r = (length (Failures r) =? 0)%nat ∧
    run_checks (MkContext i (if IsZero (Now i) then clock e else Now i) p e a wall) defaultChecks [] =
      Ok (Checks r, Failures r).
Proof.
  unfold Verify. destruct (InAttestation i) as [a|]; [|done]. destruct (SigningKey i) as [k|]; [|done].
  destruct (Chain i) as [|h c] eqn:Ec; [done|]. cbn [length Nat.eqb]. unfold mbind, outcome_bind.
  destruct (BuildProvenance i) as [p| | |] eqn:Ep; try done.
  destruct (run_checks _ _ _) as [[cs fs]| | |] eqn:Er; try discriminate.
  intros Hr. injection Hr as <-. exists a, k, p. cbn [RProvenance Valid Checks Failures fst snd].
  split_and!; first [reflexivity|discriminate|exact Er].
Qed.

(** C25.  The report of a run: every check of the pipeline appears exactly once and
    in order, the failures are exactly the entries recorded as failed, in order
    and with the same errors, and the result is valid if and only if there is
    none. *)
Theorem Verify_report wall e i r : Verify wall e i = Ok r →
  CRID <$> Checks r = pipeline ∧ NoDup pipeline ∧
  omap failed_entry (Checks r) = (λ f, (FCheck f, FErr f)) <$> Failures r ∧
  (Valid r = true ↔ Failures r = []) ∧ consistent r = true.
Proof.
  intros (a & k & p & _ & _ & _ & _ & _ & Hv & Hr)%Verify_inv.
  apply run_checks_report in Hr as [H1' H2']. split_and!; [done| |done|..].
  - unfold pipeline. apply (bool_decide_unpack _). reflexivity.
  - rewrite Hv, Nat.eqb_eq. split; [apply nil_length_inv|by intros ->].
  - unfold consistent. rewrite Hv. apply eqb_reflx.
Qed.

(** ** What a valid result establishes *)

Definition current (t : Time) (v : Validity) : Prop :=
  instant (NotBefore v) ≤ instant t ≤ instant (NotAfter v).

(** The instant the engine evaluates at. *)
Definition evaluation_time (e : Engine) (i : Inputs) : Time := if IsZero (Now i) then clock e else Now i.

(** The key the binder finds for [keyID] in the document of [subject] is [want]. *)
Definition bound_key (e : Engine) (r : Did.Resolver unit) (subject keyID : string)
    (want : option Signature.PublicKey) : Prop :=
  ∃ d doc k, Did.Parse subject = Ok d ∧ Did.Resolve r d = Ok doc ∧ kb_Bind (binder e) keyID doc = Ok k ∧
    samePublicKey (Some k) want = true.

(** The trust the pipeline establishes: [chain] is the chain of authorities, leaf
    first. *)
Record established (wall : Time) (e : Engine) (i : Inputs) (a : Attestation.Attestation)
    (chain : list Authority) : Prop := {
  est_chain : HAuthority <$> Chain i = Some <$> chain;
  est_structure : Attestation.Validate (Some a) = Ok tt;
  est_signature : Attestation.VerifySignature (Some a) (key_or_nil (SigningKey i)) = Ok tt;
  est_leaf : ∃ leaf, head chain = Some leaf ∧ authorized wall a leaf;
  est_proofs : Forall2 (λ hop au, VerifyAuthorityProof (Some au) (key_or_nil (HPublicKey hop)) = Ok tt)
                 (Chain i) chain;
  est_parents : ∀ j c p, chain !! j = Some c → chain !! S j = Some p →
    ∃ h, Authority.CanonicalHash (Some p) = Ok h ∧ Parent c = Some (hex_encode (arr h));
  est_subsets : chain_ok chain;
  est_root : ∃ root, list.last chain = Some root ∧ Parent root = None;
  est_current : current (evaluation_time e i) (Attestation.AValidity a) ∧
                Forall (λ au, current (evaluation_time e i) (Validity_ au)) chain;
  est_active : Forall (λ au, Status_ au = StatusActive) chain;
  est_evidence : Forall (λ ev, ∃ h content, Evidence.CanonicalHash (Some ev) = Ok h ∧
      InEvidence i !! hex_encode (arr h) = Some content ∧
      arr (Sum content) = default [] (Evidence.ContentHash ev)) (elems (Attestation.AEvidence a));
  est_version : KeyVersions i = [] ∨ ∃ v, keyVersionAt (KeyVersions i) (evaluation_time e i) = Some v ∧
    Version v = Attestation.SigningKeyVersion a ∧
    (IsZero (RevokedAt v) = true ∨ instant (evaluation_time e i) < instant (RevokedAt v));
  est_binding : ∀ r, IdentityResolver i = Some r →
    bound_key e r (Attestation.AIssuer a) (Attestation.SigningKeyID a) (SigningKey i) ∧
    ∃ root hop, list.last chain = Some root ∧ list.last (Chain i) = Some hop ∧
      bound_key e r (Subject root) (KeyID (Proof root)) (HPublicKey hop)
}.

Lemma each_hop_Ok f i chain : (each_hop f i chain).2 = Ok tt ↔ Forall (λ hop, f hop = Ok tt) chain.
Proof.
  revert i. induction chain as [|hop chain IH]; intros i; cbn [each_hop]; [by split; [constructor|]|].
  rewrite Forall_cons. destruct (f hop) as [[]| | |]; cbn [snd]; [rewrite IH|..]; naive_solver.
Qed.

Lemma chain_links_Ok i chain : (chain_links i chain).2 = Ok tt →
  ∀ j c p, chain !! j = Some c → chain !! S j = Some p → link_ok c p = Ok tt.
Proof.
  revert i. induction chain as [|c chain IH]; intros i Hi j x y; [done|].
  destruct chain as [|p chain]; [by destruct j|]. cbn [chain_links] in Hi.
  destruct (link_ok c p) as [[]| | |] eqn:El; cbn [snd] in Hi; try discriminate.
  destruct j as [|j]; [by intros [= <-] [= <-]|]. apply (IH _ Hi j).
Qed.

Lemma within_Ok t v : within t v = Ok tt ↔ current t v.
Proof.
  unfold within, current, Before, After.
  destruct (Z.ltb_spec (instant t) (instant (NotBefore v))); [split; [done|lia]|].
  destruct (Z.ltb_spec (instant (NotAfter v)) (instant t)); split; try done; lia.
Qed.

Lemma status_ok_Ok s : status_ok s = Ok tt ↔ s = StatusActive.
Proof.
  unfold status_ok. destruct (Z.eqb_spec s StatusActive); [done|].
  by repeat destruct (Z.eqb _ _).
Qed.

Lemma evidence_ok_Ok m ev : evidence_ok m ev = Ok tt →
  ∃ h content, Evidence.CanonicalHash (Some ev) = Ok h ∧ m !! hex_encode (arr h) = Some content ∧
    arr (Sum content) = default [] (Evidence.ContentHash ev).
Proof.
  unfold evidence_ok. rewrite bind_Ok. intros (h & Hh%wrap_err_Ok & Hc).
  destruct (m !! hex_encode (arr h)) as [content|] eqn:Em; [|discriminate].
  unfold check in Hc. destruct (ct_equal _ _) eqn:Ec; [|discriminate].
  exists h, content. split_and!; [done..|by apply ct_equal_true].
Qed.

Lemma checkAuthorityProof_Ok ctx : (checkAuthorityProof ctx).2 = Ok tt →
  ∃ chain, Forall2 (λ hop au, HAuthority hop = Some au ∧
    VerifyAuthorityProof (Some au) (key_or_nil (HPublicKey hop)) = Ok tt) (Chain (inp ctx)) chain.
Proof.
  unfold checkAuthorityProof. rewrite each_hop_Ok. intros Hall.
  apply Forall_exists_Forall2_l, (Forall_impl _ _ _ Hall). intros hop Hh%wrap_err_Ok.
  destruct (HAuthority hop) as [au|]; [by exists au|discriminate].
Qed.

(** A check on every hop, on the authorities themselves. *)
Lemma each_hop_authorities (f : Authority → outcome error unit) hops chain :
  HAuthority <$> hops = Some <$> chain →
  (each_hop (λ hop, a ← deref (HAuthority hop); f a) 0 hops).2 = Ok tt →
  Forall (λ au, f au = Ok tt) chain.
Proof.
  rewrite each_hop_Ok. revert chain. induction hops as [|hop hops IH]; intros [|au chain] Hc; try done.
  injection Hc as Hh Hc. rewrite !Forall_cons, Hh. intros [Hf Hall]. split; [exact Hf|by apply IH].
Qed.

Lemma link_ok_Ok child parent c p : HAuthority child = Some c → HAuthority parent = Some p →
  link_ok child parent = Ok tt →
  (∃ h, Authority.CanonicalHash (Some p) = Ok h ∧ Parent c = Some (hex_encode (arr h))) ∧
  Delegation.VerifySubset (Some c) (Some p) = Ok tt.
Proof.
  intros Hc Hp. unfold link_ok. rewrite Hc, Hp, bind_Ok. intros (h & Hh%wrap_err_Ok & Hl).
  cbn [deref mbind outcome_bind] in Hl. case_bool_decide as Hpar; [|discriminate].
  cbn [negb] in Hl. apply wrap_err_Ok in Hl. eauto.
Qed.

Lemma root_hop_Ok ctx (f : Authority → outcome error unit) chain :
  HAuthority <$> Chain (inp ctx) = Some <$> chain →
  (root ← root_hop ctx; a ← deref (HAuthority root); f a) = Ok tt →
  ∃ root, list.last chain = Some root ∧ f root = Ok tt.
Proof.
  intros Hc. rewrite bind_Ok. intros (hop & Hhop & Hf). apply bind_Ok in Hf as (au & Hau & Hf).
  exists au. split; [|done]. unfold root_hop in Hhop.
  destruct (list.last (Chain (inp ctx))) as [x|] eqn:El; [|discriminate]. injection Hhop as <-.
  assert (list.last (Some <$> chain) = Some (Some au)) as Hl.
  { rewrite <- Hc, fmap_last, El. cbn. destruct (HAuthority x); [|discriminate]. by injection Hau as ->. }
  rewrite fmap_last in Hl. destruct (list.last chain); [|discriminate]. by injection Hl as ->.
Qed.

Lemma bindKeyMatches_Ok ctx r subject keyID want :
  bindKeyMatches ctx r subject keyID want = Ok tt → bound_key (eng ctx) r subject keyID want.
Proof.
  unfold bindKeyMatches. rewrite bind_Ok. intros (d & Hd%wrap_err_Ok & K).
  apply bind_Ok in K as (doc & Hdoc%wrap_err_Ok & K). apply bind_Ok in K as (k & Hk%wrap_err_Ok & K).
  exists d, doc, k. destruct (samePublicKey (Some k) want); [done|discriminate].
Qed.

Lemma checkSigningKeyVersion_Ok ctx : checkSigningKeyVersion ctx = Ok tt →
  KeyVersions (inp ctx) = [] ∨ ∃ v, keyVersionAt (KeyVersions (inp ctx)) (now ctx) = Some v ∧
    Version v = Attestation.SigningKeyVersion (att ctx) ∧
    (IsZero (RevokedAt v) = true ∨ instant (now ctx) < instant (RevokedAt v)).
Proof.
  unfold checkSigningKeyVersion. destruct (KeyVersions (inp ctx)) as [|w ws] eqn:Ek; [by left|].
  intros K. right. destruct (keyVersionAt (w :: ws) (now ctx)) as [v|]; [|discriminate].
  destruct (Z.ltb_spec (Attestation.SigningKeyVersion (att ctx)) (Version v)); [discriminate|].
  destruct (Z.ltb_spec (Version v) (Attestation.SigningKeyVersion (att ctx))); [discriminate|].
  exists v. split_and!; [done|lia|]. destruct (IsZero (RevokedAt v)); [by left|right].
  unfold Before in K. cbn [negb andb] in K. by destruct (Z.ltb_spec (instant (now ctx)) (instant (RevokedAt v))).
Qed.

Lemma checkKeyBinding_Ok ctx r chain : IdentityResolver (inp ctx) = Some r →
  HAuthority <$> Chain (inp ctx) = Some <$> chain → (checkKeyBinding ctx).2 = Ok tt →
  bound_key (eng ctx) r (Attestation.AIssuer (att ctx)) (Attestation.SigningKeyID (att ctx)) (SigningKey (inp ctx)) ∧
  ∃ root hop, list.last chain = Some root ∧ list.last (Chain (inp ctx)) = Some hop ∧
    bound_key (eng ctx) r (Subject root) (KeyID (Proof root)) (HPublicKey hop).
Proof.
  intros Hr Hc. unfold checkKeyBinding, global. cbn [snd]. rewrite bind_Ok. intros (_ & _ & K).
  rewrite Hr in K. apply bind_Ok in K as ([] & Hleaf%bindKeyMatches_Ok & K). split; [done|].
  pose proof K as K'. apply bind_Ok in K' as (hop & Hhop & K'). unfold root_hop in Hhop, K.
  destruct (list.last (Chain (inp ctx))) as [x|] eqn:El; [|discriminate].
  pose proof (root_hop_Ok ctx (λ a, bindKeyMatches ctx r (Subject a) (KeyID (Proof a)) (HPublicKey x)) chain Hc) as Hroot.
  unfold root_hop in Hroot. rewrite El in Hroot. destruct Hroot as (root & Hl & Hb); [exact K|].
  exists root, x. split_and!; [done..|]. by apply bindKeyMatches_Ok in Hb.
Qed.

(** ** The failure taxonomy *)

(** [m] returns no error outside [l]. *)
Definition raises {A} (l : list error) (m : outcome error A) : Prop := ∀ e, m = Err e → e ∈ l.

Lemma raises_bind {A B} l (m : outcome error A) (f : A → outcome error B) :
  raises l m → (∀ x, raises l (f x)) → raises l (mbind f m).
Proof. intros Hm Hf e. destruct m; cbn; try discriminate; [apply Hf|]. intros Hr. injection Hr as ->. by apply Hm. Qed.
Lemma raises_wrap {E A} l (f : E → error) (m : outcome E A) : (∀ e, f e ∈ l) → raises l (wrap_err f m).
Proof. intros Hf e. destruct m; cbn; try discriminate. intros Hr. injection Hr as <-. apply Hf. Qed.
Lemma raises_Ok {A} l (x : A) : raises l (Ok x).
Proof. intros e Hr. discriminate. Qed.
Lemma raises_Panic {A} l : raises l (Panic : outcome error A).
Proof. intros e Hr. discriminate. Qed.
Lemma raises_Err {A} l e : e ∈ l → raises l (Err e : outcome error A).
Proof. intros He e' Hr. by injection Hr as <-. Qed.
Lemma raises_check l b e : e ∈ l → raises l (check b e).
Proof. unfold check. destruct b; auto using raises_Ok, raises_Err. Qed.
Lemma raises_deref {A} l (p : option A) : raises l (deref p).
Proof. destruct p; [apply raises_Ok|apply raises_Panic]. Qed.
Lemma raises_root_hop l ctx : raises l (root_hop ctx).
Proof. unfold root_hop. destruct (list.last _); auto using raises_Ok, raises_Panic. Qed.
Lemma raises_each {A B} l (f : A → outcome error B) i xs : (∀ x, raises l (f x)) → raises l (each (λ _, f) i xs).
Proof.
  intros Hf. revert i. induction xs as [|x xs IH]; intros i; cbn [each]; [apply raises_Ok|].
  apply raises_bind; [done|]. intros y. apply raises_bind; [done|]. intros ys. apply raises_Ok.
Qed.
Lemma raises_each_hop l f i hops : (∀ hop, raises l (f hop)) → raises l (each_hop f i hops).2.
Proof.
  intros Hf. revert i. induction hops as [|hop hops IH]; intros i; cbn [each_hop]; [apply raises_Ok|].
  specialize (Hf hop). destruct (f hop); cbn [snd]; auto using raises_Panic.
Qed.
#[local] Ltac in_list := repeat (apply elem_of_cons; (left; reflexivity) || right).
#[local] Ltac raising :=
  repeat first [ apply raises_bind | apply raises_wrap | apply raises_Ok | apply raises_Panic
               | apply raises_Err | apply raises_check | apply raises_deref | apply raises_root_hop
               | apply raises_each | apply raises_each_hop
               | match goal with |- raises _ _ => fail 1 | _ => progress intros end ]; try solve [in_list].

(** The sentinels each check may record. *)
Definition sentinels (id : CheckID) : list error :=
  match id with
  | CheckStructural => [ErrStructural]
  | CheckSignature => [ErrSignatureMismatch; ErrSignatureKeyMismatch]
  | CheckAuthorization => [ErrCapabilityNotGranted; ErrScopeViolation; ErrAuthorityInvalid]
  | CheckAuthorityProof => [ErrAuthorityInvalid]
  | CheckChainLink =>
      [ErrAuthorityInvalid; ErrChainBroken; ErrCapabilityNotGranted; ErrScopeViolation; ErrDelegationDepth]
  | CheckRootAuthority => [ErrNotRootAuthority]
  | CheckTemporal => [ErrNotYetValid; ErrExpired]
  | CheckRevocation => [ErrRevoked; ErrSuperseded; ErrExpired; ErrAuthorityInvalid]
  | CheckIdentity => [ErrIdentityUnresolved]
  | CheckKeyBinding => [ErrKeyBinding; ErrKeyVersionSuperseded; ErrRevoked]
  | CheckEvidence => [ErrEvidenceIntegrity]
  | CheckProvenance => []
  | CheckCommitment => [ErrCommitmentInvalid]
  end.

Lemma raises_link_ok child parent : raises (sentinels CheckChainLink) (link_ok child parent).
Proof.
  unfold link_ok. cbn [sentinels]. destruct (HAuthority parent) as [p|] eqn:Ep; [|intros e; cbn; intros Hr; injection Hr as <-; in_list].
  apply raises_bind; [raising|]. intros h. destruct (HAuthority child) as [c|] eqn:Ec; [|apply raises_Panic].
  cbn [deref mbind outcome_bind]. destruct (negb _); [raising|]. unfold Delegation.VerifySubset.
  repeat match goal with |- context [if ?b then _ else _] => destruct b end; cbn [wrap_err mapDelegationError];
    first [apply raises_Ok|apply raises_Err; in_list].
Qed.

Lemma raises_chain_links i hops : raises (sentinels CheckChainLink) (chain_links i hops).2.
Proof.
  revert i. induction hops as [|c hops IH]; intros i; cbn [chain_links]; [apply raises_Ok|].
  destruct hops as [|p hops]; [apply raises_Ok|].
  pose proof (raises_link_ok c p) as Hl. destruct (link_ok c p); cbn [snd]; [apply IH|done|apply raises_Panic|done].
Qed.

Lemma raises_within l t v : ErrNotYetValid ∈ l → ErrExpired ∈ l → raises l (within t v).
Proof. intros. unfold within. destruct (Before _ _); [by apply raises_Err|]. destruct (After _ _); auto using raises_Ok, raises_Err. Qed.

Lemma raises_bindKey l ctx r s k w : ErrKeyBinding ∈ l → raises l (bindKeyMatches ctx r s k w).
Proof.
  intros. unfold bindKeyMatches. repeat (apply raises_bind; [by apply raises_wrap|intros]).
  destruct (negb _); [by apply raises_Err|]. unfold sameKeyAlgorithm.
  repeat case_match; auto using raises_check, raises_Err.
Qed.

Lemma raises_version l ctx : ErrKeyBinding ∈ l → ErrKeyVersionSuperseded ∈ l → ErrRevoked ∈ l →
  raises l (checkSigningKeyVersion ctx).
Proof.
  intros. unfold checkSigningKeyVersion. destruct (KeyVersions _); [apply raises_Ok|].
  destruct (keyVersionAt _ _); [|by apply raises_Err].
  repeat match goal with |- context [if ?b then _ else _] => destruct b end; auto using raises_Ok, raises_Err.
Qed.

(** ** The trace verifies *)

Lemma refEqual_refl s : refEqual s s = true.
Proof. unfold refEqual. destruct (hex_decode s); apply ct_equal_refl. Qed.
Lemma linkEqual_refl l : linkEqual l l = true.
Proof. unfold linkEqual. by rewrite !refEqual_refl, bool_decide_true. Qed.

Lemma VerifyProvenance_built i p : BuildProvenance i = Ok p → VerifyProvenance (Some p) i = Ok tt.
Proof.
  intros Hp. unfold VerifyProvenance. rewrite Hp. cbn [mbind outcome_bind]. rewrite Nat.eqb_refl. cbn [negb].
  replace (forallb _ _) with true; [done|]. symmetry. apply forallb_forall.
  intros [a b] Hin%list_elem_of_In. cbn [fst snd].
  assert (∀ l : list Link, (a, b) ∈ zip l l → a = b) as Heq.
  { induction l as [|x l IH]; cbn; [by intros ?%not_elem_of_nil|].
    intros [K|K]%elem_of_cons; [congruence|auto]. }
  rewrite (Heq _ Hin). apply linkEqual_refl.
Qed.

Lemma raises_each_commitment l c i proofs w : ErrCommitmentInvalid ∈ l → raises l (each_commitment c i proofs w).
Proof.
  intros Hl. revert w. induction proofs as [|p proofs IH]; intros w; cbn [each_commitment]; [apply raises_Ok|].
  destruct (cc_Verify c p i w) as [m w']. apply raises_bind; [by apply raises_wrap|intros; apply IH].
Qed.

Lemma each_commitment_Ok c i proofs w :
  each_commitment c i proofs w = Ok tt ↔ in_turn (λ p w w', cc_Verify c p i w = (Ok tt, w')) proofs w.
Proof.
  revert w. induction proofs as [|p proofs IH]; intros w; cbn [each_commitment in_turn]; [done|].
  destruct (cc_Verify c p i w) as [m w'] eqn:E. rewrite bind_Ok. split.
  - intros ([] & ->%wrap_err_Ok & Hl%IH). by exists w'.
  - intros (w'' & [= -> ->] & Hl%IH). exists tt. by split; [apply wrap_err_Ok|].
Qed.

(** Every check returns [errSkipCheck] or one of its sentinels; [errSkipCheck]
    only for the commitment. *)
Lemma raises_checks ctx : BuildProvenance (inp ctx) = Ok (prov ctx) →
  Forall (λ s, raises (sentinels s.1 ++ match s.1 with CheckCommitment => [errSkipCheck] | _ => [] end) (s.2 ctx).2)
    defaultChecks.
Proof.
  intros Hp. unfold defaultChecks. rewrite !Forall_cons, Forall_nil. split_and!; cbn [fst snd sentinels app]; [..|done].
  - unfold checkStructural, global. cbn [snd]. raising.
  - unfold checkSignature, global. cbn [snd]. apply raises_wrap. intros []; in_list.
  - unfold checkAuthorization, global. cbn [snd]. destruct (Chain (inp ctx)); [apply raises_Panic|].
    apply raises_wrap. intros []; in_list.
  - unfold checkAuthorityProof. raising.
  - apply raises_chain_links.
  - unfold checkRootAuthority, global. cbn [snd]. raising. destruct (Parent _); raising.
  - unfold checkTemporal.
    pose proof (raises_within [ErrNotYetValid; ErrExpired] (now ctx) (Attestation.AValidity (att ctx))
      ltac:(in_list) ltac:(in_list)) as Hw.
    destruct (within (now ctx) (Attestation.AValidity (att ctx))); [|done|apply raises_Panic|done].
    raising. apply raises_within; in_list.
  - unfold checkRevocation. raising. unfold status_ok. repeat destruct (Z.eqb _ _); raising.
  - unfold checkIdentity, global. cbn [snd]. destruct (IdentityResolver _); raising.
  - unfold checkKeyBinding, global. cbn [snd]. apply raises_bind; [apply raises_version; in_list|]. intros.
    destruct (IdentityResolver _); [|apply raises_Ok]. apply raises_bind; [apply raises_bindKey; in_list|]. intros.
    apply raises_bind; [apply raises_root_hop|]. intros. apply raises_bind; [apply raises_deref|]. intros.
    apply raises_bindKey; in_list.
  - unfold checkEvidence, global, evidence_ok. cbn [snd]. raising. destruct (_ !! _); raising.
  - unfold checkProvenance, global. cbn [snd]. rewrite (VerifyProvenance_built _ _ Hp). apply raises_Ok.
  - unfold checkCommitment, global. cbn [snd]. destruct (commitmentChecker _); raising.
    destruct (_ =? _)%nat; raising. apply raises_each_commitment. in_list.
Qed.

Lemma run_checks_raises ctx specs failed r :
  Forall (λ s, raises (sentinels s.1 ++ match s.1 with CheckCommitment => [errSkipCheck] | _ => [] end) (s.2 ctx).2) specs →
  run_checks ctx specs failed = Ok r → Forall (λ f, FErr f ∈ sentinels (FCheck f)) r.2.
Proof.
  intros Hs. revert failed r. induction Hs as [|[id run] specs Hrun Hs IH]; intros failed r.
  { cbn [run_checks]. intros Hr. injection Hr as <-. constructor. }
  intros K. pose proof K as (failed' & r' & Hr' & Hc)%run_checks_step. specialize (IH _ _ Hr').
  destruct Hc as [(_ & -> & _)|[(_ & -> & _)|(e & -> & -> & Hp & He)]]; [done..|].
  constructor; [|done]. cbn [FErr FCheck failed_at]. apply Hrun in He as He'. cbn [fst] in He'.
  apply elem_of_app in He' as [?|He']; [done|]. exfalso.
  destruct id; try (by apply not_elem_of_nil in He'). apply list_elem_of_singleton in He' as ->.
  revert K. cbn [run_checks]. rewrite Hp. destruct (run ctx) as [hop m]. cbn [snd fst] in *. rewrite He.
  destruct (run_checks ctx specs failed); cbn [mbind outcome_bind]; discriminate.
Qed.

(** C26.  Every failure of a result carries one of the sentinels of the check it is
    recorded for, whatever the resolver, the binder and the commitment checker
    return; the provenance check of a run never fails. *)
Theorem Verify_taxonomy wall e i r : Verify wall e i = Ok r →
  Forall (λ f, FErr f ∈ sentinels (FCheck f)) (Failures r).
Proof.
  intros (a & k & p & _ & _ & _ & Hp & _ & _ & Hr)%Verify_inv.
  apply run_checks_raises in Hr; [done|]. by apply raises_checks.
Qed.

(** The trace of a result verifies against the inputs it was computed from. *)
Theorem Verify_provenance_verifies wall e i r : Verify wall e i = Ok r →
  VerifyProvenance (Some (RProvenance r)) i = Ok tt.
Proof.
  intros (a & k & p & _ & _ & _ & Hp & -> & _)%Verify_inv. by apply VerifyProvenance_built.
Qed.

(** ** Soundness *)

Lemma sentinels_no_skip id : errSkipCheck ∉ sentinels id.
Proof. destruct id; cbn [sentinels]; rewrite ?elem_of_cons, elem_of_nil; naive_solver discriminate. Qed.

Lemma clean_passes ctx r : BuildProvenance (inp ctx) = Ok (prov ctx) →
  run_checks ctx defaultChecks [] = Ok (r, []) →
  Forall (λ s, s.1 = CheckCommitment ∨ (s.2 ctx).2 = Ok tt) defaultChecks.
Proof.
  intros Hp Hr%run_checks_clean. pose proof (raises_checks ctx Hp) as Hs.
  eapply Forall_impl; [apply Forall_and; exact (conj Hr Hs)|]. intros [id run] [[Ho|Ho] Hn]; [by right|left].
  apply Hn in Ho. cbn [fst] in *. apply elem_of_app in Ho as [Ho|Ho]; [by apply sentinels_no_skip in Ho|].
  destruct id; try (by apply not_elem_of_nil in Ho). done.
Qed.

Lemma passed_checks ctx r : BuildProvenance (inp ctx) = Ok (prov ctx) →
  run_checks ctx defaultChecks [] = Ok (r, []) →
  Forall (λ run : checkContext → checked, (run ctx).2 = Ok tt)
    [checkStructural; checkSignature; checkAuthorization; checkAuthorityProof; checkChainLink;
     checkRootAuthority; checkTemporal; checkRevocation; checkIdentity; checkKeyBinding; checkEvidence; checkProvenance].
Proof.
  intros Hp Hr. pose proof (clean_passes ctx r Hp Hr) as Hc. unfold defaultChecks in Hc.
  rewrite !Forall_cons in Hc. cbn [fst snd] in Hc. rewrite !Forall_cons, Forall_nil.
  repeat match goal with K : _ ∧ _ |- _ => destruct K as [[?|?] ?]; [discriminate|] end. tauto.
Qed.

Lemma clean_established wl e i a p r :
  BuildProvenance i = Ok p →
  run_checks (MkContext i (evaluation_time e i) p e a wl) defaultChecks [] = Ok (r, []) →
  ∃ chain, established wl e i a chain.
Proof.
  set (ctx := MkContext i (evaluation_time e i) p e a wl). intros Hp Hr.
  pose proof (passed_checks ctx r Hp Hr) as Hc. rewrite !Forall_cons in Hc.
  destruct Hc as (C1 & C2 & C3 & C4 & C5 & C6 & C7 & C8 & _ & C10 & C11 & _).
  apply checkAuthorityProof_Ok in C4 as [chain Hch]. exists chain.
  assert (HAuthority <$> Chain i = Some <$> chain) as Hc.
  { change (inp ctx) with i in Hch. clear -Hch. induction Hch as [|hop au ? ? [Hh _] _ IH]; [done|].
    rewrite !fmap_cons. congruence. }
  assert (∀ j c p, chain !! j = Some c → chain !! S j = Some p →
    (∃ h, Authority.CanonicalHash (Some p) = Ok h ∧ Parent c = Some (hex_encode (arr h))) ∧
    Delegation.VerifySubset (Some c) (Some p) = Ok tt) as Hlinks.
  { intros j c q Hj Hj'.
    destruct (Forall2_lookup_r _ _ _ _ _ Hch Hj) as (hc & Lc & Ac & _).
    destruct (Forall2_lookup_r _ _ _ _ _ Hch Hj') as (hq & Lq & Aq & _).
    eapply link_ok_Ok; [exact Ac|exact Aq|]. by eapply (chain_links_Ok _ _ C5). }
  split.
  - done.
  - by apply wrap_err_Ok in C1.
  - by apply wrap_err_Ok in C2.
  - unfold checkAuthorization, global in C3. cbn [snd inp] in C3.
    destruct Hch as [|hop leaf hops chain [Hh _] _]; [discriminate|]. cbn [inp] in *.
    exists leaf. split; [done|]. apply wrap_err_Ok in C3. rewrite Hh in C3. by apply VerifyAuthorization_spec.
  - eapply Forall2_impl; [exact Hch|]. by intros ? ? [_ ?].
  - intros j c q Hj Hq. by destruct (Hlinks j c q Hj Hq).
  - intros j c q Hj Hq. by destruct (Hlinks j c q Hj Hq).
  - apply (root_hop_Ok ctx _ chain Hc) in C6 as (root & Hl & Hpar). exists root.
    split; [done|]. by destruct (Parent root).
  - unfold checkTemporal in C7. unfold ctx in C7. cbn [now att inp] in C7.
    destruct (within (evaluation_time e i) (Attestation.AValidity a)) as [[]| | |] eqn:Ew; try discriminate.
    apply within_Ok in Ew. split; [done|].
    apply (each_hop_authorities (λ a, within (evaluation_time e i) (Validity_ a)) _ chain Hc) in C7.
    eapply Forall_impl; [exact C7|]. intros au. apply within_Ok.
  - apply (each_hop_authorities (λ a, status_ok (Status_ a)) _ chain Hc) in C8.
    eapply Forall_impl; [exact C8|]. intros au. apply status_ok_Ok.
  - unfold checkEvidence, global in C11. cbn [snd inp att] in C11. apply bind_Ok in C11 as (ys & Hys & _).
    apply each_Forall2 in Hys. apply list.Forall_forall. intros ev [j Hj]%list_elem_of_lookup.
    destruct (Forall2_lookup_l _ _ _ _ _ Hys Hj) as ([] & _ & Hev). by apply evidence_ok_Ok.
  - unfold checkKeyBinding, global in C10. cbn [snd] in C10. apply bind_Ok in C10 as ([] & Hv & _).
    by apply checkSigningKeyVersion_Ok in Hv.
  - intros rs Hrs. by apply (checkKeyBinding_Ok ctx rs chain).
Qed.

Lemma Valid_clean wl e i r : Verify wl e i = Ok r → Valid r = true →
  ∃ a chain, InAttestation i = Some a ∧ established wl e i a chain.
Proof.
  intros (a & k & p & Ha & _ & _ & Hp & _ & Hv & Hr)%Verify_inv Hval. rewrite Hv in Hval.
  apply Nat.eqb_eq, nil_length_inv in Hval. rewrite Hval in Hr.
  apply clean_established in Hr as [chain Hch]; [by exists a, chain|done].
Qed.

(** With a commitment checker, a valid result means that there were commitment proofs
    and that the checker accepted each of them, in the world the one before left. *)
Lemma Valid_commitments wl e i r c : Verify wl e i = Ok r → Valid r = true → commitmentChecker e = Some c →
  Commitments i ≠ [] ∧ in_turn (λ p w w', cc_Verify c p i w = (Ok tt, w')) (Commitments i) (cc_start c).
Proof.
  intros (a & k & p & Ha & _ & _ & Hp & _ & Hv & Hr)%Verify_inv Hval Hc. rewrite Hv in Hval.
  apply Nat.eqb_eq, nil_length_inv in Hval. rewrite Hval in Hr. apply run_checks_clean in Hr.
  unfold defaultChecks in Hr. rewrite !Forall_cons in Hr. destruct Hr as (_&_&_&_&_&_&_&_&_&_&_&_& Hr & _).
  revert Hr. unfold checkCommitment, global. cbn [fst snd eng inp]. rewrite Hc.
  destruct (Commitments i) as [|q l] eqn:El; [by intros [|]|]. cbn [length Nat.eqb]. intros Hr. split; [done|].
  apply each_commitment_Ok. destruct Hr as [|Hr]; [done|]. apply (raises_each_commitment [ErrCommitmentInvalid]), list_elem_of_singleton in Hr; [|by left].
  discriminate.
Qed.

(** C1.  Soundness of the pipeline: a valid result means that the attestation is
    well formed and signed by the supplied key, authorized by the leaf authority,
    that every authority of the chain carries a proof valid under its key, is
    active and current, names the canonical hash of the next one as its parent and
    is a subset of it, that the last one is a root, that the evidence supplied
    hashes to what the attestation states, and that the key version and, with a
    resolver, the identity documents agree with the signing and root keys. *)
Theorem Verify_valid_sound wl e i r : Verify wl e i = Ok r → Valid r = true →
  ∃ a chain, InAttestation i = Some a ∧ established wl e i a chain.
Proof. apply Valid_clean. Qed.

(** C2.  End to end: when a result is valid and the claim restates the string
    dimensions its leaf authority constrains, the root authority itself permits
    whatever the claim's scope admits, under the attested capability and within
    the attestation's validity. *)
Theorem Verify_valid_root_grants wl e i r q : Verify wl e i = Ok r → Valid r = true →
  ∃ a chain leaf root, InAttestation i = Some a ∧ HAuthority <$> Chain i = Some <$> chain ∧
    head chain = Some leaf ∧ list.last chain = Some root ∧ Parent root = None ∧
    (restates (Claim.CScope (Attestation.AClaim a)) (Scope_ leaf) →
     r_capability q = Attestation.ACapability a → scope_permits (Claim.CScope (Attestation.AClaim a)) q →
     current (r_time q) (Attestation.AValidity a) → grants root q).
Proof.
  intros Hr Hv. destruct (Valid_clean wl e i r Hr Hv) as (a & chain & Ha & He).
  destruct (est_leaf _ _ _ _ _ He) as (leaf & Hleaf & Hauth).
  destruct (est_root _ _ _ _ _ He) as (root & Hroot & Hpar).
  exists a, chain, leaf, root. split_and!; [done|by apply (est_chain _ _ _ _ _ He)|done..|].
  intros Hres Hcap Hperm Hcur. destruct chain as [|l chain]; [discriminate|]. injection Hleaf as ->.
  apply (chain_grants chain leaf q root); [by apply (est_subsets _ _ _ _ _ He)| |].
  - apply last_Some in Hroot as [l' ->]. apply elem_of_app. right. by left.
  - destruct Hauth as [_ (h & Hh & _) _ Hc _ _ Hs _ Hval]. split_and!; [by rewrite Hcap| |unfold current in Hcur; lia..].
    eapply scope_within_restated; [exact Hs|done|by eapply hash_limit_ok|done].
Qed.

(** ** Comparing traces *)

(** Equal, or hex text of the same bytes. *)
Definition same_ref (a b : string) : Prop := a = b ∨ ∃ d, hex_decode a = Some d ∧ hex_decode b = Some d.
Definition same_link (a b : Link) : Prop :=
  Kind a = Kind b ∧ same_ref (Ref a) (Ref b) ∧ same_ref (LSubject a) (LSubject b) ∧
  same_ref (LKeyID a) (LKeyID b) ∧ same_ref (LParent a) (LParent b).

Lemma refEqual_spec a b : refEqual a b = true ↔ same_ref a b.
Proof.
  unfold refEqual, same_ref. split.
  - destruct (hex_decode a) as [da|], (hex_decode b) as [db|]; intros He%ct_equal_true;
      try (left; by apply str_bytes_inj). right. exists db. by subst.
  - intros [->|(d & -> & ->)]; [apply refEqual_refl|apply ct_equal_refl].
Qed.

Lemma linkEqual_spec a b : linkEqual a b = true ↔ same_link a b.
Proof. unfold linkEqual, same_link. rewrite !andb_true_iff, bool_decide_eq_true, !refEqual_spec. tauto. Qed.

Lemma zip_forallb {A B} (f : A → B → bool) (l : list A) (k : list B) : length l = length k →
  forallb (λ ab, f ab.1 ab.2) (zip l k) = true ↔ Forall2 (λ a b, f a b = true) l k.
Proof.
  revert k. induction l as [|a l IH]; intros [|b k] Hl; try discriminate; cbn.
  - split; [by constructor|done].
  - injection Hl as Hl. rewrite andb_true_iff, (IH k Hl), Forall2_cons. done.
Qed.

(** [VerifyProvenance] accepts a trace exactly when the trace rebuilt from the
    inputs has the same links in the same order, each field equal or, where both
    sides are hex, naming the same bytes. *)
Theorem VerifyProvenance_iff p i : VerifyProvenance (Some p) i = Ok tt ↔
  ∃ q, BuildProvenance i = Ok q ∧ Forall2 same_link (Links p) (Links q).
Proof.
  unfold VerifyProvenance. rewrite bind_Ok.
  assert (∀ q, (if negb (length (Links p) =? length (Links q))%nat then Err ErrProvenanceMismatch
                else if forallb (λ ab, linkEqual ab.1 ab.2) (zip (Links p) (Links q)) then Ok tt
                else Err ErrProvenanceMismatch) = Ok tt ↔ Forall2 same_link (Links p) (Links q)) as Hq.
  { intros q. assert (Forall2 same_link (Links p) (Links q) ↔ Forall2 (λ a b, linkEqual a b = true) (Links p) (Links q)) as ->.
    { by split; intros K; (eapply Forall2_impl; [exact K|]); intros a b; apply linkEqual_spec. }
    destruct (Nat.eqb_spec (length (Links p)) (length (Links q))) as [Hl|Hl]; cbn [negb].
    - rewrite <- (zip_forallb linkEqual _ _ Hl). by destruct (forallb _ _).
    - split; [discriminate|]. by intros ?%Forall2_length. }
  by setoid_rewrite Hq.
Qed.

End Pipeline.

(** ** Concrete inputs *)

(** A leaf authority derived from the example root, and an attestation under it. *)
Definition ex_spec : Delegation.DelegationSpec :=
  {| Delegation.s_Subject := "did:example:root"; Delegation.s_Capabilities := Some [CapabilityAttest];
     Delegation.s_Scope := ex_scope;
     Delegation.s_Validity := MkValidity (of_unix 1700000000) (of_unix 1790000000);
     Delegation.s_Constraints := MkConstraints (Some 1) |}.
Definition ex_leaf : Authority :=
  match Delegation.Derive (Some ex_authority) ex_spec with Ok a => ex_signed a | _ => ex_root end.
Definition ex_leaf_attestation : Attestation.Attestation :=
  let a := {| Attestation.AIssuer := "did:example:root"; Attestation.SigningKeyID := "k1";
              Attestation.SigningKeyVersion := 1; Attestation.AuthorityRef := ex_ref ex_leaf;
              Attestation.ACapability := CapabilityAttest; Attestation.AClaim := ex_claim;
              Attestation.AEvidence := Some [ex_evidence]; Attestation.IssuedAt := of_unix 1710000000;
              Attestation.AValidity := MkValidity (of_unix 1710000000) (of_unix 1720000000);
              Attestation.AStatus := StatusActive; Attestation.AAlgorithm := 0; Attestation.ASignature := [] |} in
  default a (Attestation.SignAttestation (Some a) (Some ex_root_signer) "k1").1.

Definition ex_evidence_ref : string :=
  match Evidence.CanonicalHash (Some ex_evidence) with Ok h => hex_encode (arr h) | _ => "" end.
Definition ex_inputs (now : Time) : Inputs :=
  {| InAttestation := Some ex_leaf_attestation; SigningKey := Some ex_root_pub;
     Chain := [MkHop (Some ex_leaf) (Some ex_root_pub); MkHop (Some ex_authority) (Some ex_root_pub)];
     IdentityResolver := None; KeyVersions := [MkKeyVersion 1 (of_unix 1700000000) zero_time];
     InEvidence := {[ ex_evidence_ref := [x01; x02; x03] ]}; Commitments := []; Now := now |}.
Definition ex_engine : Engine := MkEngine zero_time (MkKeyBinder (λ _ _, Err Binder.ErrBind)) None.

Definition verdict (r : outcome error Result) : option bool :=
  match r with Ok r => Some (Valid r) | _ => None end.
Definition run (wl now : Time) : outcome error Result := Verify wl ex_engine (ex_inputs now).

Definition ex_result : Result :=
  Eval vm_compute in
    match run ex_wall ex_wall with Ok r => r | _ => MkResult false (MkProvenance []) [] [] end.

Lemma ex_result_run : Verify ex_wall ex_engine (ex_inputs ex_wall) = Ok ex_result.
Proof. vm_compute. reflexivity. Qed.
Lemma ex_result_valid : Valid ex_result = true.
Proof. vm_compute. reflexivity. Qed.

Lemma Verify_report_witness :
  CRID <$> Checks ex_result = pipeline ∧ NoDup pipeline ∧
  omap failed_entry (Checks ex_result) = (λ f, (FCheck f, FErr f)) <$> Failures ex_result ∧
  (Valid ex_result = true ↔ Failures ex_result = []) ∧ consistent ex_result = true.
Proof. exact (Verify_report ex_wall ex_engine (ex_inputs ex_wall) ex_result ex_result_run). Defined.

Lemma Verify_taxonomy_witness : Forall (λ f, FErr f ∈ sentinels (FCheck f)) (Failures ex_result).
Proof. exact (Verify_taxonomy ex_wall ex_engine (ex_inputs ex_wall) ex_result ex_result_run). Defined.

Lemma Verify_provenance_verifies_witness :
  VerifyProvenance (Some (RProvenance ex_result)) (ex_inputs ex_wall) = Ok tt.
Proof. exact (Verify_provenance_verifies ex_wall ex_engine (ex_inputs ex_wall) ex_result ex_result_run). Defined.

Lemma Verify_valid_sound_witness :
  ∃ a chain, InAttestation (ex_inputs ex_wall) = Some a ∧ established ex_wall ex_engine (ex_inputs ex_wall) a chain.
Proof.
  exact (Verify_valid_sound ex_wall ex_engine (ex_inputs ex_wall) ex_result ex_result_run ex_result_valid).
Defined.

Definition ex_request : request :=
  Request CapabilityAttest "doc" "s" "read" "o" "g" "c" ex_wall "documents" 2 "USD" (SpecFloat.S754_zero false).

Lemma Verify_valid_root_grants_witness :
  ∃ a chain leaf root, InAttestation (ex_inputs ex_wall) = Some a ∧
    HAuthority <$> Chain (ex_inputs ex_wall) = Some <$> chain ∧
    head chain = Some leaf ∧ list.last chain = Some root ∧ Parent root = None ∧
    (restates (Claim.CScope (Attestation.AClaim a)) (Scope_ leaf) →
     r_capability ex_request = Attestation.ACapability a →
     scope_permits (Claim.CScope (Attestation.AClaim a)) ex_request →
     current (r_time ex_request) (Attestation.AValidity a) → grants root ex_request).
Proof.
  exact (Verify_valid_root_grants ex_wall ex_engine (ex_inputs ex_wall) ex_result ex_request ex_result_run ex_result_valid).
Defined.

(** The instant supplied in the inputs does not decide the verdict: with the
    same engine and inputs, evaluated at a fixed [Now], the result is valid or not
    depending on the wall clock. *)
Theorem Verify_depends_on_wall_clock :
  ∃ wl wl' e i, IsZero (Now i) = false ∧
    verdict (Verify wl e i) = Some true ∧ verdict (Verify wl' e i) = Some false.
Proof.
  exists ex_wall, (of_unix 1900000000), ex_engine, (ex_inputs ex_wall). split_and!; vm_compute; reflexivity.
Qed.

(** The example with the signing key and the leaf's key replaced. *)
Definition ex_other_pub : Signature.PublicKey := Signature.Ed25519Pub (replicate 32 x07).
Definition ex_bad_inputs : Inputs :=
  {| InAttestation := Some ex_leaf_attestation; SigningKey := Some ex_other_pub;
     Chain := [MkHop (Some ex_leaf) (Some ex_other_pub); MkHop (Some ex_authority) (Some ex_root_pub)];
     IdentityResolver := None; KeyVersions := []; InEvidence := {[ ex_evidence_ref := [x01; x02; x03] ]};
     Commitments := []; Now := ex_wall |}.

(** Gating is not transitive: a failed signature skips the authorization
    check, but a skipped check gates nothing, so the authority proofs are still
    checked and recorded as a failure of their own. *)
Theorem gating_not_transitive :
  ∃ wl e i r, Verify wl e i = Ok r ∧
    FCheck <$> Failures r = [CheckSignature; CheckAuthorityProof] ∧
    omap (λ c, match CRStatus c with CheckSkipped => Some (CRID c) | _ => None end) (Checks r) =
      [CheckAuthorization; CheckChainLink; CheckKeyBinding; CheckCommitment].
Proof.
  eexists ex_wall, ex_engine, ex_bad_inputs, _. split; [vm_compute; reflexivity|]. split; reflexivity.
Qed.

(** Traces that differ in the case of a hex reference compare equal. *)
Theorem linkEqual_hex_case :
  ∃ a b, a ≠ b ∧ linkEqual a b = true.
Proof.
  exists (MkLink NodeClaim "ab" "" "" ""), (MkLink NodeClaim "AB" "" "" ""). split; [discriminate|reflexivity].
Qed.
