(* ===== verification/GoBig.v ===== *)
(** * Arbitrary-precision integers and fixed-size arrays

    What the packages under src/chain and src/kms use of [math/big]: a [*big.Int]
    is an [option Z] where nil is possible and a [Z] where it is not.  [big_bytes]
    is [Bytes] (the minimal big-endian form of the absolute value), [be_value] of
    the prelude is [SetBytes], [BitLen] the length in bits.  The second part holds
    the type [[20]byte] beside the [[32]byte] of the prelude, and slices. *)
From S2P Require Import Prelude.
#[local] Open Scope Z_scope.

(** [n.BitLen()]: the bits of the absolute value. *)
Definition BitLen (n : Z) : Z := if n =? 0 then 0 else Z.log2 (Z.abs n) + 1.

(** [n.Bytes()]. *)
Definition big_bytes (n : Z) : bytes := be_bytes (Z.to_nat ((BitLen n + 7) `div` 8)) (Z.abs n).

(** [n.FillBytes(buf)] with [len(buf) = k]: it panics when the value does not fit. *)
Definition fill_bytes {E} (k : nat) (n : Z) : outcome E bytes :=
  if BitLen n <=? 8 * Z.of_nat k then Ok (be_bytes k (Z.abs n)) else Panic.

(** [buf := make([]byte, k); copy(buf[k-len(b):], b)]: right-aligned in a zeroed
    buffer; a slice that starts before the buffer panics. *)
Definition right_align {E} (k : nat) (b : bytes) : outcome E bytes :=
  if (length b <=? k)%nat then Ok (replicate (k - length b) x00 ++ b) else Panic.

(** [b[lo:hi]] where the guards around it bound [hi] by the length. *)
Definition go_slice {E A} (b : list A) (lo hi : Z) : outcome E (list A) :=
  if (0 <=? lo) && (lo <=? hi) && (hi <=? zlen b)
  then Ok (take (Z.to_nat (hi - lo)) (drop (Z.to_nat lo) b))
  else Panic.

(** The digits of [n >= 0], most significant first; every round at least halves [n]. *)
Fixpoint digits (fuel : nat) (base n : Z) : list Z :=
  match fuel with
  | O => []
  | S f => if n <? base then [n] else digits f base (n `div` base) ++ [n `mod` base]
  end.

(** [n.Text(base)] for bases up to 16 (and [strconv.Itoa] for base 10). *)
Definition text (base n : Z) : bytes :=
  (if n <? 0 then [x2d] else []) ++
  (hex_digit <$> digits (S (Z.to_nat (BitLen n))) base (Z.abs n)).

(** [new(big.Int).SetString(s, 16)]: an optional sign, then one or more digits in
    either case. *)
Definition set_string16 (s : bytes) : option Z :=
  let '(neg, ds) :=
    match s with
    | c :: s' => if bool_decide (c = x2d) then (true, s') else if bool_decide (c = x2b) then (false, s') else (false, s)
    | [] => (false, s)
    end in
  match ds, mapM hex_value ds with
  | _ :: _, Some vs => let v := foldl (λ acc d, acc * 16 + d) 0 vs in Some (if neg : bool then - v else v)
  | _, _ => None
  end.

(** ** [[20]byte] *)

Record array20 : Type := Arr20 {
  arr20 : bytes;
  arr20_ok : bool_decide (length arr20 = 20%nat)
}.

Definition fill20 (b : bytes) : bytes := take 20 (b ++ replicate 20 x00).

Lemma fill20_length b : bool_decide (length (fill20 b) = 20%nat).
Proof. apply bool_decide_pack. unfold fill20. rewrite length_take, length_app, length_replicate. lia. Qed.

(** [var a [20]byte; copy(a[:], b)]. *)
Definition copy20 (b : bytes) : array20 := Arr20 (fill20 b) (norm_true _ (fill20_length b)).
Definition zero20 : array20 := copy20 [].

#[global] Instance array20_eq_decision : EqDecision array20.
Proof.
  refine (λ a b, cast_if (decide (arr20 a = arr20 b))); [|congruence].
  destruct a, b. simpl in *. subst. f_equal. apply proof_irrel.
Defined.

Lemma arr20_length (a : array20) : length (arr20 a) = 20%nat.
Proof. exact (bool_decide_unpack _ (arr20_ok a)). Qed.

Lemma arr20_inj (a b : array20) : arr20 a = arr20 b → a = b.
Proof. destruct a, b. simpl. intros ->. f_equal. apply proof_irrel. Qed.

Lemma arr20_copy20 b : length b = 20%nat → arr20 (copy20 b) = b.
Proof. intros E. simpl. unfold fill20. rewrite <- E. apply take_app_length. Qed.

Lemma copy20_arr20 a : copy20 (arr20 a) = a.
Proof. apply arr20_inj, arr20_copy20, arr20_length. Qed.

#[export] Hint Rewrite arr20_length copy20_arr20 : go_len.
#[export] Hint Resolve arr20_length arr20_inj : go_bytes.

(** ** Minimal big-endian form *)

(** No leading zero byte; zero is the empty string. *)
Definition no_lead (bs : bytes) : Prop := head bs ≠ Some x00.

#[global] Instance no_lead_dec bs : Decision (no_lead bs).
Proof. unfold no_lead. apply _. Defined.

Lemma BitLen_nonneg n : 0 ≤ BitLen n.
Proof. unfold BitLen. destruct (n =? 0); [done|]. pose proof (Z.log2_nonneg (Z.abs n)). lia. Qed.

Lemma BitLen_le n k : 0 ≤ k → BitLen n ≤ k ↔ Z.abs n < 2 ^ k.
Proof.
  intros Hk. unfold BitLen. destruct (Z.eqb_spec n 0) as [->|Hn].
  { simpl. pose proof (Z.pow_pos_nonneg 2 k). lia. }
  rewrite (Z.log2_lt_pow2 (Z.abs n)) by lia. lia.
Qed.

Lemma BitLen_lt_pow n : Z.abs n < 2 ^ BitLen n.
Proof. apply BitLen_le; [apply BitLen_nonneg|lia]. Qed.

Lemma be_bytes_small k n : 0 ≤ n < 256 ^ Z.of_nat k → be_value (be_bytes k n) = n.
Proof. intros Hn. rewrite be_value_bytes. by apply Z.mod_small. Qed.

Lemma pow256 k : 0 ≤ k → 256 ^ k = 2 ^ (8 * k).
Proof. intros Hk. change 256 with (2 ^ 8). by rewrite <- Z.pow_mul_r by lia. Qed.

Lemma big_bytes_value n : be_value (big_bytes n) = Z.abs n.
Proof.
  unfold big_bytes. apply be_bytes_small. split; [lia|].
  rewrite pow256 by lia. eapply Z.lt_le_trans; [apply BitLen_lt_pow|].
  apply Z.pow_le_mono_r; [lia|]. pose proof (BitLen_nonneg n). div_lia.
Qed.

Lemma big_bytes_length n k : Z.abs n < 256 ^ Z.of_nat k → (length (big_bytes n) ≤ k)%nat.
Proof.
  intros Hn. unfold big_bytes. rewrite be_bytes_length.
  rewrite pow256, <- BitLen_le in Hn by lia. pose proof (BitLen_nonneg n). div_lia.
Qed.

Lemma be_value_byte_cons c bs : be_value (c :: bs) = b2z c * 256 ^ zlen bs + be_value bs.
Proof.
  induction bs as [|b bs IH] using rev_ind; [unfold be_value; simpl; lia|].
  change (c :: bs ++ [b]) with ((c :: bs) ++ [b]). rewrite !be_value_snoc, IH, length_app.
  cbn [length]. rewrite Nat2Z.inj_add, Z.pow_add_r by lia. change (256 ^ Z.of_nat 1) with 256. lia.
Qed.

(** Two strings without a leading zero that denote the same number are equal. *)
Lemma no_lead_pos c bs : no_lead (c :: bs) → 256 ^ zlen bs ≤ be_value (c :: bs).
Proof.
  intros H. rewrite be_value_byte_cons. pose proof (be_value_range bs).
  assert (b2z c ≠ 0) by (intros E; apply H; simpl; f_equal; by apply b2z_inj).
  pose proof (b2z_range c). nia.
Qed.

Lemma no_lead_length_le a b : no_lead a → be_value a = be_value b → (length a ≤ length b)%nat.
Proof.
  intros Ha E. destruct a as [|c a]; [simpl; lia|]. pose proof (no_lead_pos c a Ha) as Hp.
  pose proof (be_value_range b) as Hb.
  assert (256 ^ zlen a < 256 ^ zlen b) as Hlt by lia. apply Z.pow_lt_mono_r_iff in Hlt; simpl; lia.
Qed.

Lemma no_lead_inj a b : no_lead a → no_lead b → be_value a = be_value b → a = b.
Proof.
  intros Ha Hb E. pose proof (no_lead_length_le a b Ha E). pose proof (no_lead_length_le b a Hb (eq_sym E)).
  rewrite <- (be_bytes_value a), <- (be_bytes_value b), E. f_equal. lia.
Qed.

Lemma big_bytes_no_lead n : no_lead (big_bytes n).
Proof.
  destruct (big_bytes n) as [|c r] eqn:E; [done|]. intros [= ->].
  assert (be_value r = Z.abs n) as Hr.
  { rewrite <- big_bytes_value, E. symmetry. exact (be_value_zeros 1 r). }
  pose proof (be_value_range r) as Hlt.
  assert (length (big_bytes n) ≤ length r)%nat as Hl; [|rewrite E in Hl; simpl in Hl; lia].
  apply big_bytes_length. lia.
Qed.

Lemma big_bytes_of_value bs : no_lead bs → big_bytes (be_value bs) = bs.
Proof.
  intros H. apply no_lead_inj; [apply big_bytes_no_lead|done|].
  rewrite big_bytes_value. pose proof (be_value_range bs). lia.
Qed.

Lemma big_bytes_0 : big_bytes 0 = [].
Proof. done. Qed.

Lemma be_value_zero_no_lead bs : no_lead bs → be_value bs = 0 → bs = [].
Proof. intros H E. rewrite <- (big_bytes_of_value bs H), E. done. Qed.

Lemma big_bytes_inj n m : 0 ≤ n → 0 ≤ m → big_bytes n = big_bytes m → n = m.
Proof. intros Hn Hm E. apply (f_equal be_value) in E. rewrite !big_bytes_value in E. lia. Qed.

Lemma right_align_ok {E} k b : (length b ≤ k)%nat →
  right_align (E := E) k b = Ok (replicate (k - length b) x00 ++ b).
Proof. intros H. unfold right_align. by rewrite (proj2 (Nat.leb_le _ _)). Qed.

(** Padding the minimal form on the left gives the fixed-width form. *)
Lemma be_bytes_pad k bs : (length bs ≤ k)%nat →
  be_bytes k (be_value bs) = replicate (k - length bs) x00 ++ bs.
Proof.
  intros H. rewrite <- (be_bytes_value (replicate (k - length bs) x00 ++ bs)), be_value_zeros. f_equal.
  rewrite length_app, length_replicate. lia.
Qed.

Lemma be_bytes_inj k a b : 0 ≤ a < 256 ^ Z.of_nat k → 0 ≤ b < 256 ^ Z.of_nat k → be_bytes k a = be_bytes k b → a = b.
Proof. intros Ha Hb E. apply (f_equal be_value) in E. by rewrite !be_bytes_small in E. Qed.

Lemma be_value_bound32 bs : (length bs ≤ 32)%nat → be_value bs < 2 ^ 256.
Proof.
  intros H. pose proof (be_value_range bs) as [_ Hlt]. eapply Z.lt_le_trans; [exact Hlt|].
  rewrite pow256 by lia. apply Z.pow_le_mono_r; lia.
Qed.

(** ** Digits *)

Definition digits_value (base : Z) (ds : list Z) : Z := foldl (λ acc d, acc * base + d) 0 ds.

Lemma digits_value_snoc base ds d : digits_value base (ds ++ [d]) = digits_value base ds * base + d.
Proof. unfold digits_value. by rewrite foldl_app. Qed.

Lemma digits_spec fuel base n : 2 ≤ base → 0 ≤ n < 2 ^ Z.of_nat fuel →
  digits_value base (digits fuel base n) = n ∧ Forall (λ d, 0 ≤ d < base) (digits fuel base n) ∧
  (0 < n → ∃ d ds, digits fuel base n = d :: ds ∧ 0 < d).
Proof.
  intros Hb. revert n. induction fuel as [|fuel IH]; intros n Hn.
  { change (2 ^ Z.of_nat 0) with 1 in Hn. cbn. split_and!; [lia|constructor|lia]. }
  cbn [digits]. destruct (Z.ltb_spec n base) as [Hlt|Hge].
  { split_and!; [unfold digits_value; simpl; lia|by repeat constructor; lia|]. intros Hp. by eexists _, []. }
  rewrite Nat2Z.inj_succ, Z.pow_succ_r in Hn by lia.
  destruct (IH (n `div` base)) as (Hv & HF & Hh).
  { split; [apply Z.div_pos; lia|]. apply Z.div_lt_upper_bound; nia. }
  split_and!.
  - rewrite digits_value_snoc, Hv. pose proof (Z.div_mod n base). lia.
  - apply Forall_app. split; [done|]. repeat constructor; apply Z.mod_pos_bound; lia.
  - intros _. destruct Hh as (d & ds & E & Hd); [apply Z.div_str_pos; lia|]. rewrite E. by eexists _, (ds ++ [_]).
Qed.

Lemma digits_value_nonneg base ds : 0 ≤ base → Forall (λ d, 0 ≤ d < base) ds → 0 ≤ digits_value base ds.
Proof.
  intros Hb. induction ds as [|d ds IH] using rev_ind; [done|]. intros [HF Hd]%Forall_app.
  rewrite digits_value_snoc. apply Forall_inv in Hd. apply IH in HF. nia.
Qed.

(** Digit strings without a leading zero are determined by their value. *)
Lemma digits_of_value fuel base d ds : 2 ≤ base → Forall (λ d, 0 ≤ d < base) (d :: ds) → 0 < d →
  digits_value base (d :: ds) < 2 ^ Z.of_nat fuel → digits fuel base (digits_value base (d :: ds)) = d :: ds ∧
  0 < digits_value base (d :: ds).
Proof.
  intros Hb. revert fuel. induction ds as [|e ds IH] using rev_ind; intros fuel HF Hd Hlt.
  - replace (digits_value base [d]) with d in * by (unfold digits_value; simpl; lia). apply Forall_inv in HF.
    split; [|lia]. destruct fuel as [|fuel]; [change (2 ^ Z.of_nat 0) with 1 in Hlt; lia|]. cbn [digits].
    by rewrite (proj2 (Z.ltb_lt _ _)) by lia.
  - change (d :: ds ++ [e]) with ((d :: ds) ++ [e]) in *. rewrite digits_value_snoc in *.
    apply Forall_app in HF as [HF He]. apply Forall_inv in He.
    pose proof (digits_value_nonneg base (d :: ds) ltac:(lia) HF) as Hnn.
    destruct fuel as [|fuel]; [change (2 ^ Z.of_nat 0) with 1 in Hlt|].
    { destruct (IH (Z.to_nat (digits_value base (d :: ds)) )) as [_ ?]; [done|done| |nia].
      rewrite Z2Nat.id by lia. apply Z.pow_gt_lin_r; lia. }
    rewrite Nat2Z.inj_succ, Z.pow_succ_r in Hlt by lia. destruct (IH fuel) as [Hds Hp]; [done|done|nia|].
    split; [|nia]. cbn [digits]. rewrite (proj2 (Z.ltb_ge _ _)) by nia.
    rewrite Z.div_add_l, (Z.div_small e), Z.add_0_r, Hds by lia. f_equal. f_equal.
    rewrite Z.add_comm, Z_mod_plus_full. apply Z.mod_small. lia.
Qed.

Lemma mapM_hex_digit ds : Forall (λ d, 0 ≤ d < 16) ds → mapM hex_value (hex_digit <$> ds) = Some ds.
Proof.
  intros HF. apply mapM_Some. induction HF; constructor; auto using hex_value_digit.
Qed.

Lemma hex_value_range c d : hex_value c = Some d → 0 ≤ d < 16.
Proof. unfold hex_value. intros H. repeat case_match; simplify_eq; lia. Qed.

Lemma mapM_hex_range cs ds : mapM hex_value cs = Some ds → Forall (λ d, 0 ≤ d < 16) ds.
Proof. rewrite mapM_Some. induction 1 as [|c d cs ds Hc _ IH]; constructor; eauto using hex_value_range. Qed.

(** The text of a positive number begins with a digit other than 0. *)
Lemma text16_pos n : 0 < n → ∃ d ds, text 16 n = hex_digit <$> (d :: ds) ∧ 0 < d ∧
  Forall (λ d, 0 ≤ d < 16) (d :: ds) ∧ digits_value 16 (d :: ds) = n.
Proof.
  intros Hn. unfold text. rewrite (proj2 (Z.ltb_ge _ _)) by lia.
  destruct (digits_spec (S (Z.to_nat (BitLen n))) 16 (Z.abs n)) as (Hv & HF & Hh); [lia| |].
  { split; [lia|]. eapply Z.lt_trans; [apply BitLen_lt_pow|]. pose proof (BitLen_nonneg n).
    apply Z.pow_lt_mono_r; lia. }
  destruct Hh as (d & ds & E & Hd); [lia|]. exists d, ds. rewrite E in *. split_and!; try done. lia.
Qed.

Lemma set_string16_digits c cs vs : c ≠ x2d → c ≠ x2b → mapM hex_value (c :: cs) = Some vs →
  set_string16 (c :: cs) = Some (digits_value 16 vs).
Proof. intros H1 H2 Hm. unfold set_string16. rewrite !bool_decide_eq_false_2 by done. by rewrite Hm. Qed.

Lemma set_string16_minus c cs vs : mapM hex_value (c :: cs) = Some vs →
  set_string16 (x2d :: c :: cs) = Some (- digits_value 16 vs).
Proof. intros Hm. unfold set_string16. rewrite bool_decide_eq_true_2 by done. by rewrite Hm. Qed.

Lemma hex_digit_no_sign d : 0 ≤ d < 16 → hex_digit d ≠ x2d ∧ hex_digit d ≠ x2b.
Proof. intros Hd%hex_value_digit. split; intros Eq; by rewrite Eq in Hd. Qed.

Lemma set_string16_text n : 0 < n → set_string16 (text 16 n) = Some n.
Proof.
  intros Hn. destruct (text16_pos n Hn) as (d & ds & -> & Hd & HF & Hv). rewrite <- Hv.
  destruct (hex_digit_no_sign d) as [H1 H2]; [by apply Forall_inv in HF|].
  apply (set_string16_digits _ _ (d :: ds) H1 H2). exact (mapM_hex_digit (d :: ds) HF).
Qed.

Lemma set_string16_neg n : 0 < n → set_string16 (x2d :: text 16 n) = Some (- n).
Proof.
  intros Hn. destruct (text16_pos n Hn) as (d & ds & -> & Hd & HF & Hv). rewrite <- Hv.
  apply (set_string16_minus _ _ (d :: ds)). exact (mapM_hex_digit (d :: ds) HF).
Qed.

(** ** Slices *)

Lemma go_slice_mid {E A} (pre mid post : list A) lo hi : lo = zlen pre → hi = zlen pre + zlen mid →
  go_slice (E := E) (pre ++ mid ++ post) lo hi = Ok mid.
Proof.
  intros -> ->. unfold go_slice. rewrite !length_app, !Nat2Z.inj_add.
  rewrite !(proj2 (Z.leb_le _ _)) by lia. cbn [andb]. rewrite Nat2Z.id, drop_app_length.
  replace (Z.to_nat _) with (length mid) by lia. by rewrite take_app_length.
Qed.

Lemma go_slice_tail {E A} (pre post : list A) lo hi : lo = zlen pre → hi = zlen (pre ++ post) →
  go_slice (E := E) (pre ++ post) lo hi = Ok post.
Proof.
  intros Hlo Hhi. pose proof (go_slice_mid (E := E) pre post [] lo hi Hlo) as H.
  rewrite app_nil_r in H. apply H. rewrite Hhi, length_app. lia.
Qed.

Lemma go_slice_ok {E A} (b : list A) lo hi : 0 ≤ lo ≤ hi → hi ≤ zlen b →
  go_slice (E := E) b lo hi = Ok (take (Z.to_nat (hi - lo)) (drop (Z.to_nat lo) b)).
Proof. intros H1 H2. unfold go_slice. by rewrite !(proj2 (Z.leb_le _ _)) by lia. Qed.

Lemma go_slice_length {E A} (b s : list A) lo hi : go_slice (E := E) b lo hi = Ok s → zlen s = hi - lo.
Proof.
  unfold go_slice. destruct (Z.leb_spec 0 lo), (Z.leb_spec lo hi), (Z.leb_spec hi (zlen b)); try done.
  intros [= <-]. rewrite length_take, length_drop. lia.
Qed.
