(* ===== verification/Keccak.v ===== *)
(** * Keccak-256

    src/crypto/hash/keccak256.go wraps the legacy Keccak-256 of
    golang.org/x/crypto/sha3.  The function is outside the repository, so it is the
    class [Keccak]; the instance below is the published permutation with the
    original padding, and lets concrete inputs evaluate. *)
From S2P Require Import Prelude.
#[local] Open Scope Z_scope.

(** [hash.NewKeccak256().Sum]; [SumBytes] is [arr (keccak_sum data)]. *)
Class Keccak : Type := keccak_sum : bytes → array32.

Definition SumBytes `{Keccak} (data : bytes) : bytes := arr (keccak_sum data).

Lemma SumBytes_length `{Keccak} data : length (SumBytes data) = 32%nat.
Proof. apply arr_length. Qed.

#[export] Hint Rewrite @SumBytes_length : go_len.

Module Keccak256.

Definition w64 (z : Z) : Z := Z.land z 0xffffffffffffffff.
Definition rotl (n x : Z) : Z := w64 (Z.lor (Z.shiftl x n) (Z.shiftr x (64 - n))).

(** Lane [(x, y)] of the state is entry [x + 5 y]. *)
Definition lane (a : list Z) (x y : nat) : Z := nth (x `mod` 5 + 5 * (y `mod` 5))%nat a 0.
Definition tabulate (f : nat → nat → Z) : list Z :=
  (λ i, f (i `mod` 5) (i `div` 5))%nat <$> seq 0 25.

Definition rho : list Z :=
  [0; 1; 62; 28; 27; 36; 44; 6; 55; 20; 3; 10; 43; 25; 39; 41; 45; 15; 21; 8; 18; 2; 61; 56; 14].

(** The round constants from the degree-eight feedback register. *)
Fixpoint lfsr (t : nat) (r : Z) : Z :=
  match t with
  | O => r
  | S t' => let r' := Z.shiftl r 1 in lfsr t' (if Z.testbit r' 8 then Z.lxor r' 0x171 else r')
  end.
Definition round_constant (i : nat) : Z :=
  foldl (λ acc j, if Z.testbit (lfsr (j + 7 * i) 1) 0 then Z.lor acc (Z.shiftl 1 (2 ^ Z.of_nat j - 1)) else acc)
    0 (seq 0 7).
Definition RC : list Z := Eval vm_compute in round_constant <$> seq 0 24.

Definition round (a : list Z) (rc : Z) : list Z :=
  let c := (λ x, foldl (λ acc y, Z.lxor acc (lane a x y)) 0 (seq 0 5)) <$> seq 0 5 in
  let d := (λ x, Z.lxor (nth ((x + 4) `mod` 5)%nat c 0) (rotl 1 (nth ((x + 1) `mod` 5)%nat c 0))) <$> seq 0 5 in
  let t := tabulate (λ x y, Z.lxor (lane a x y) (nth x d 0)) in
  let b := tabulate (λ x y, rotl (lane rho (x + 3 * y) x) (lane t (x + 3 * y) x)) in
  let e := tabulate (λ x y, Z.lxor (lane b x y) (Z.ldiff (lane b (x + 2) y) (lane b (x + 1) y))) in
  match e with l :: e' => Z.lxor l rc :: e' | [] => [] end.

Definition permute (a : list Z) : list Z := foldl round a RC.

Definition rate : nat := 136.

(** The original padding: 0x01, zeros, and 0x80 in the last byte of the block. *)
Definition pad (m : bytes) : bytes :=
  let n := (rate - length m `mod` rate)%nat in
  m ++ (if (n =? 1)%nat then [z2b 0x81] else [z2b 0x01] ++ replicate (n - 2) x00 ++ [z2b 0x80]).

Fixpoint lanes (n : nat) (bs : bytes) : list Z :=
  match n with
  | O => []
  | S m => be_value (rev (take 8 bs)) :: lanes m (drop 8 bs)
  end.

Fixpoint absorb (n : nat) (a : list Z) (bs : bytes) : list Z :=
  match n with
  | O => a
  | S m =>
      let blk := lanes 17 (take rate bs) ++ replicate 8 0 in
      absorb m (permute (zip_with Z.lxor a blk)) (drop rate bs)
  end.

Definition Sum (m : bytes) : array32 :=
  let p := pad m in
  let a := absorb (length p / rate) (replicate 25 0) p in
  copy32 (mjoin ((λ w, rev (be_bytes 8 w)) <$> take 4 a)).

Example sum_empty : hex_encode (arr (Sum [])) =
  "c5d2460186f7233c927e7db2dcc703c0e500b653ca82273b7bfad8045d85a470".
Proof. vm_compute. reflexivity. Qed.
Example sum_transfer : hex_encode (take 4 (arr (Sum (str_bytes "transfer(address,uint256)")))) = "a9059cbb".
Proof. vm_compute. reflexivity. Qed.
End Keccak256.

#[global] Instance keccak256_legacy : Keccak := Keccak256.Sum.
