(* ===== verification/Secp256k1.v ===== *)
(** * The [crypto/secp256k1] package

    A translation of src/crypto/secp256k1 (secp256k1.go, recovery.go, address.go).
    Curve arithmetic, scalars and the compact signature codec are the library
    github.com/decred/dcrd/dcrec/secp256k1, which enters as the class [Dcrd]; what
    the code relies on is [DcrdLaws], the behaviour that library documents. *)
From S2P Require Import Prelude Sha256 GoBig Keccak.
#[local] Open Scope Z_scope.

(** The functions of the decred library the package calls.  [modn_set] is
    [ModNScalar.SetBytes]: the reduced scalar and whether a reduction took place. *)
Class Dcrd : Type := {
  PrivKey : Type;
  Point : Type;
  modn_set : bytes → Z * bool;
  modn_bytes : Z → bytes;
  over_half : Z → bool;
  priv_new : Z → PrivKey;
  priv_serialize : PrivKey → bytes;
  priv_public : PrivKey → Point;
  parse_point : bytes → option Point;
  point_compressed : Point → bytes;
  point_uncompressed : Point → bytes;
  ecdsa_sign : PrivKey → bytes → Z * Z;
  ecdsa_verify : Z → Z → bytes → Point → bool;
  sign_compact : PrivKey → bytes → bytes;
  recover_compact : bytes → bytes → option (Point * bool)
}.

Module Secp256k1.

(** The group order, SEC 2 section 2.4.1. *)
Definition order : Z := 0xFFFFFFFFFFFFFFFFFFFFFFFFFFFFFFFEBAAEDCE6AF48A03BBFD25E8CD0364141.
Definition half_order : Z := Z.shiftr order 1.

(** What the library documents: [SetBytes] reads 32 big-endian bytes and reduces
    them, a compressed key is 33 bytes and parses back, the uncompressed form is
    0x04 followed by 64 bytes, a compact signature is a header byte 27 + id (+ 4 for
    a compressed key), r and s, both in range and s in the lower half, and recovery
    returns the signing key. *)
Class DcrdLaws `{Dcrd} : Prop := {
  modn_set_spec b : length b = 32%nat → modn_set b = (be_value b `mod` order, order <=? be_value b);
  over_half_spec s : 0 ≤ s < order → over_half s = (half_order <? s);
  compressed_length p : length (point_compressed p) = 33%nat;
  parse_compressed p : parse_point (point_compressed p) = Some p;
  uncompressed_form p : ∃ xy, point_uncompressed p = x04 :: xy ∧ length xy = 64%nat;
  sign_compact_form d h : length h = 32%nat → ∃ id r s,
    sign_compact d h = z2b (27 + id + 4) :: r ++ s ∧ 0 ≤ id ≤ 3 ∧
    length r = 32%nat ∧ length s = 32%nat ∧
    1 ≤ be_value r < order ∧ 1 ≤ be_value s ≤ half_order;
  recover_sign d h : length h = 32%nat →
    recover_compact (sign_compact d h) h = Some (priv_public d, true)
}.

Inductive error : Type :=
| ErrInvalidKey
| ErrInvalidSignature
| ErrInvalidScalar
| ErrInvalidRecoveryID
| ErrRecoveryFailed
| ErrUnexpectedCompact
| ErrRand
| ErrNilPublicKey
| ErrUncompressedLength.

Section Operations.
Context `{D : Dcrd}.

Definition PrivateKey : Type := PrivKey.
Definition PublicKey : Type := Point.

(** ** secp256k1.go *)

(** The loop draws until a candidate is a scalar in [1, n-1].  The draws of the
    random source are the argument; [None] is a failed read. *)
Fixpoint GenerateKey (draws : list (option array32)) : outcome error (PrivateKey * PublicKey) :=
  match draws with
  | [] => OutOfFuel
  | None :: _ => Err ErrRand
  | Some seed :: draws' =>
      let '(scalar, overflow) := modn_set (arr seed) in
      if negb overflow && negb (scalar =? 0) then
        let priv := priv_new scalar in Ok (priv, priv_public priv)
      else GenerateKey draws'
  end.

Definition NewPrivateKey (key : bytes) : outcome error PrivateKey :=
  if negb (zlen key =? 32) then Err ErrInvalidKey
  else
    let '(scalar, overflow) := modn_set (arr (copy32 key)) in
    if overflow : bool then Err ErrInvalidScalar
    else if scalar =? 0 then Err ErrInvalidScalar
    else Ok (priv_new scalar).

Definition NewPublicKey (key : bytes) : outcome error PublicKey :=
  if negb (zlen key =? 33) then Err ErrInvalidKey
  else match parse_point key with
       | None => Err ErrInvalidKey
       | Some pub => Ok pub
       end.

Definition Public (priv : PrivateKey) : PublicKey := priv_public priv.

Definition Bytes (priv : PrivateKey) : bytes := priv_serialize priv.

Definition Sign (priv : PrivateKey) (hash : bytes) : outcome error bytes :=
  if negb (zlen hash =? 32) then Err ErrInvalidSignature
  else
    let '(r, s) := ecdsa_sign priv hash in
    Ok (arr (copy32 (modn_bytes r)) ++ arr (copy32 (modn_bytes s))).

(** The overflow results of both [SetBytes] calls are discarded. *)
Definition Verify (pub : PublicKey) (signature hash : bytes) : bool :=
  if negb (zlen signature =? 64) || negb (zlen hash =? 32) then false
  else
    let r := (modn_set (arr (copy32 (take 32 signature)))).1 in
    let s := (modn_set (arr (copy32 (drop 32 signature)))).1 in
    if over_half s then false else ecdsa_verify r s hash pub.

Definition Redact `{Hasher} (priv : PrivateKey) : string :=
  (hex_encode (take 4 (arr (Sum (priv_serialize priv)))) +:+ "...")%string.

Definition PubBytes (pub : PublicKey) : bytes := point_compressed pub.
Definition BytesUncompressed (pub : PublicKey) : bytes := point_uncompressed pub.

Definition PubRedact `{Hasher} (pub : PublicKey) : string :=
  (hex_encode (take 4 (arr (Sum (point_compressed pub)))) +:+ "...")%string.

Definition Equal (pub : PublicKey) (other : option PublicKey) : bool :=
  match other with
  | None => false
  | Some o => ct_equal (point_compressed pub) (point_compressed o)
  end.

(** ** recovery.go *)

Definition RecoverPubKey (signature digest : bytes) (recID : byte) : outcome error PublicKey :=
  if negb (zlen signature =? 64) then Err ErrInvalidSignature
  else if negb (zlen digest =? 32) then Err ErrInvalidSignature
  else if 3 <? b2z recID then Err ErrInvalidRecoveryID
  else
    let compact := z2b (27 + b2z recID + 4) :: take 32 signature ++ drop 32 signature in
    match recover_compact compact digest with
    | None => Err ErrRecoveryFailed
    | Some (pub, wasCompressed) => if wasCompressed : bool then Ok pub else Err ErrRecoveryFailed
    end.

Definition SignRecoverable (priv : PrivateKey) (hash : bytes) : outcome error (bytes * byte) :=
  if negb (zlen hash =? 32) then Err ErrInvalidSignature
  else
    let compact := sign_compact priv hash in
    if negb (zlen compact =? 65) then Err ErrUnexpectedCompact
    else
      match compact with
      | [] => Panic
      | c :: rest =>
          let recID := z2b (b2z c - 27 - 4) in
          if 3 <? b2z recID then Err ErrUnexpectedCompact
          else Ok (take 32 rest ++ take 32 (drop 32 rest), recID)
      end.

(** ** address.go *)

Context `{K : Keccak}.

(** The loop over the 40 digits of a 20-byte address; both callers pass exactly
    20 bytes. *)
Definition checksumAddress (addr : bytes) : string :=
  let lower := hex_bytes addr in
  let hashHex := SumBytes lower in
  let digit (i : nat) (c : byte) : byte :=
    if (97 <=? b2z c) && (b2z c <=? 102) then
      let h := b2z (hashHex !!! (i `div` 2)%nat) in
      let hashNibble := if (i `mod` 2 =? 0)%nat then Z.shiftr h 4 else Z.land h 0x0f in
      if 8 <=? hashNibble then z2b (b2z c - 32) else c
    else c in
  ("0x" +:+ String.string_of_list_byte (imap digit lower))%string.

Definition EVMAddress (pub : option PublicKey) : outcome error string :=
  match pub with
  | None => Err ErrNilPublicKey
  | Some p =>
      let uncompressed := point_uncompressed p in
      if negb (zlen uncompressed =? 65) then Err ErrUncompressedLength
      else Ok (checksumAddress (drop 12 (SumBytes (drop 1 uncompressed))))
  end.

(** [strings.TrimPrefix]. *)
Definition TrimPrefix (s prefix : bytes) : bytes :=
  if bool_decide (take (length prefix) s = prefix) then drop (length prefix) s else s.

Definition ChecksumAddress (addr : string) : string :=
  let a := TrimPrefix (TrimPrefix (str_bytes addr) (str_bytes "0x")) (str_bytes "0X") in
  match unhex_bytes a with
  | Some b => if negb (zlen b =? 20) then ("0x" +:+ String.string_of_list_byte a)%string
              else checksumAddress b
  | None => ("0x" +:+ String.string_of_list_byte a)%string
  end.

End Operations.
End Secp256k1.

(** * Properties *)
Import Secp256k1.

Section Laws.
Context `{D : Dcrd, L : !DcrdLaws}.

(** A recoverable signature over a 32-byte digest always succeeds: 64 bytes, both
    halves in range, s in the lower half, and [RecoverPubKey] returns the signer's
    key from it. *)
Lemma SignRecoverable_spec priv h : length h = 32%nat →
  ∃ r s recID, SignRecoverable priv h = Ok (r ++ s, recID) ∧ b2z recID ≤ 3 ∧
    length r = 32%nat ∧ length s = 32%nat ∧
    1 ≤ be_value r < order ∧ 1 ≤ be_value s ≤ half_order ∧
    RecoverPubKey (r ++ s) h recID = Ok (Public priv).
Proof.
  intros Hh. destruct (sign_compact_form priv h Hh) as (id & r & s & E & Hid & Hr & Hs & Hrv & Hsv).
  pose proof (recover_sign priv h Hh) as Hrec.
  exists r, s, (z2b id). unfold SignRecoverable, RecoverPubKey.
  assert (b2z (z2b (27 + id + 4)) = 27 + id + 4) as Hb by (apply b2z_z2b_small; lia).
  assert (b2z (z2b id) = id) as Hi by (apply b2z_z2b_small; lia).
  assert (zlen (r ++ s) = 64) as Hrs by (rewrite length_app; lia).
  rewrite Hrs, Hi, E. rewrite E in Hrec. rewrite (proj2 (Z.eqb_eq _ _)) by lia. cbn [negb].
  replace (Z.of_nat (length (_ :: r ++ s))) with 65 by (cbn [length]; lia).
  change (negb (65 =? 65)) with false. change (negb (64 =? 64)) with false. cbv iota.
  rewrite Hb, (proj2 (Z.ltb_ge 3 id)) by lia. replace (27 + id + 4 - 27 - 4) with id by lia.
  rewrite Hi, (proj2 (Z.ltb_ge 3 id)) by lia.
  rewrite take_drop, (take_app_length' r s), (drop_app_length' r s), (take_ge s 32), Hrec by lia.
  split_and!; auto; lia.
Qed.

(** [PublicKey.Equal] decides equality of keys. *)
Lemma Equal_iff (p q : PublicKey) : Equal p (Some q) = true ↔ p = q.
Proof.
  unfold Equal. rewrite ct_equal_true. split; [|by intros ->].
  intros E. apply (inj Some). by rewrite <- !parse_compressed, E.
Qed.

(** [NewPrivateKey] accepts exactly the 32-byte encodings of 1 to n-1. *)
Theorem NewPrivateKey_iff key :
  is_ok (NewPrivateKey key) = true ↔ length key = 32%nat ∧ 1 ≤ be_value key < order.
Proof.
  unfold NewPrivateKey. pose proof (be_value_range key) as [Hp _].
  destruct (Z.eqb_spec (zlen key) 32) as [Hl|Hl]; cbn [negb is_ok]; [|naive_solver lia].
  assert (length key = 32%nat) as Hk by lia. rewrite arr_copy32, modn_set_spec by done.
  destruct (Z.leb_spec order (be_value key)) as [Ho|Ho]; [naive_solver lia|].
  rewrite Z.mod_small by lia. destruct (Z.eqb_spec (be_value key) 0); naive_solver lia.
Qed.

Lemma NewPublicKey_parse (p : PublicKey) : NewPublicKey (point_compressed p) = Ok p.
Proof. unfold NewPublicKey. by rewrite compressed_length, parse_compressed. Qed.

(** [NewPublicKey] inverts [Bytes]. *)
Theorem NewPublicKey_Bytes (p : PublicKey) : NewPublicKey (PubBytes p) = Ok p.
Proof. apply NewPublicKey_parse. Qed.

(** [Verify] discards the overflow flags, so a component that is out of range is
    reduced instead of rejected: whenever s + n still fits 32 bytes, the signature
    with s + n is accepted exactly when the one with s is. *)
Theorem Verify_unreduced_s pub r s h : length r = 32%nat → 0 ≤ s → s + order < 2 ^ 256 →
  Verify pub (r ++ be_bytes 32 (s + order)) h = Verify pub (r ++ be_bytes 32 s) h.
Proof.
  intros Hr Hs Hso. unfold Verify.
  assert (s < 2 ^ 256) by (unfold order in Hso; lia).
  assert (∀ x, zlen (r ++ be_bytes 32 x) = 64) as Hl
    by (intros x; rewrite length_app, be_bytes_length; lia).
  rewrite !Hl, !(take_app_length' r), !(drop_app_length' r) by lia. case_match; [done|].
  rewrite !(arr_copy32 (be_bytes 32 _)), !(modn_set_spec (be_bytes 32 _)) by apply be_bytes_length.
  rewrite !be_bytes_small by (change (256 ^ Z.of_nat 32) with (2 ^ 256); unfold order in *; lia).
  cbn [fst]. by replace (s + order) with (s + 1 * order) by lia; rewrite Z.mod_add by done.
Qed.

(** [GenerateKey] returns a key as soon as one draw is in range, whatever came
    before it, and never from a draw that is out of range. *)
Theorem GenerateKey_first pre seed post :
  Forall (λ d, ∃ b, d = Some b ∧ (be_value (arr b) = 0 ∨ order ≤ be_value (arr b))) pre →
  1 ≤ be_value (arr seed) < order →
  GenerateKey (pre ++ Some seed :: post) =
    Ok (priv_new (be_value (arr seed)), priv_public (priv_new (be_value (arr seed)))).
Proof.
  intros Hpre Hs. induction Hpre as [|d pre (b & -> & Hb) _ IH]; cbn [GenerateKey app].
  - rewrite modn_set_spec, Z.mod_small by (lia || apply arr_length).
    rewrite (proj2 (Z.leb_gt _ _)), (proj2 (Z.eqb_neq _ _)) by lia. done.
  - rewrite modn_set_spec by apply arr_length. destruct Hb as [->|Hb]; [done|].
    by rewrite (proj2 (Z.leb_le _ _)).
Qed.
End Laws.

(** ** A concrete library

    The private key is its scalar and the point reveals it; a signature is the
    scalar beside a fixed s.  It satisfies the documented laws and evaluates. *)
Module Toy.

Record scalar : Type := Scalar { val : Z; val_ok : bool_decide (1 ≤ val < order) }.

Definition mk (z : Z) : scalar :=
  match decide (1 ≤ z < order) with
  | left Hz => Scalar z (norm_true _ (bool_decide_pack _ Hz))
  | right _ => Scalar 1 I
  end.

Definition fixed_s : Z := 2 ^ 248.

Definition parse (b : bytes) : option scalar :=
  match b with
  | c :: r => if bool_decide (c = x02) && bool_decide (length r = 32%nat) && bool_decide (1 ≤ be_value r < order)
              then Some (mk (be_value r)) else None
  | [] => None
  end.

Definition recover (c digest : bytes) : option (scalar * bool) :=
  match c with
  | b :: rs => if bool_decide (length rs = 64%nat) && bool_decide (1 ≤ be_value (take 32 rs) < order)
      && (27 <=? b2z b) && (b2z b <=? 34)
    then Some (mk (be_value (take 32 rs)), 31 <=? b2z b) else None
  | [] => None
  end.

#[local] Instance dcrd : Dcrd := {|
  PrivKey := scalar;
  Point := scalar;
  modn_set b := (be_value b `mod` order, order <=? be_value b);
  modn_bytes := be_bytes 32;
  over_half s := half_order <? s;
  priv_new := mk;
  priv_serialize d := be_bytes 32 (val d);
  priv_public d := d;
  parse_point := parse;
  point_compressed d := x02 :: be_bytes 32 (val d);
  point_uncompressed d := x04 :: be_bytes 32 (val d) ++ replicate 32 x00;
  ecdsa_sign d h := (val d, fixed_s);
  ecdsa_verify r s h p := (r =? val p) && (s =? fixed_s);
  sign_compact d h := z2b (27 + 0 + 4) :: be_bytes 32 (val d) ++ be_bytes 32 fixed_s;
  recover_compact := recover
|}.

Lemma val_range (d : scalar) : 1 ≤ val d < order.
Proof. exact (bool_decide_unpack _ (val_ok d)). Qed.

Lemma val_be (d : scalar) : be_value (be_bytes 32 (val d)) = val d.
Proof.
  apply be_bytes_small. pose proof (val_range d). change (256 ^ Z.of_nat 32) with (2 ^ 256).
  unfold order in *. lia.
Qed.

Lemma fixed_s_be : be_value (be_bytes 32 fixed_s) = fixed_s.
Proof. vm_compute. reflexivity. Qed.

Lemma mk_val (d : scalar) : mk (val d) = d.
Proof.
  unfold mk. destruct (decide _) as [Hd|Hd]; [|destruct Hd; apply val_range].
  destruct d. simpl. f_equal. apply proof_irrel.
Qed.

#[local] Instance laws : DcrdLaws.
Proof.
  split.
  - done.
  - done.
  - intros p. cbn -[be_bytes]. by rewrite be_bytes_length.
  - intros p. cbn -[mk be_bytes]. rewrite be_bytes_length, val_be.
    rewrite (bool_decide_eq_true_2 (x02 = x02)), (bool_decide_eq_true_2 (32%nat = 32%nat)) by done.
    rewrite bool_decide_eq_true_2 by apply val_range. cbn -[mk]. by rewrite mk_val.
  - intros p. eexists. split; [reflexivity|]. by rewrite length_app, be_bytes_length.
  - intros d h _. exists 0, (be_bytes 32 (val d)), (be_bytes 32 fixed_s). rewrite val_be, fixed_s_be.
    pose proof (val_range d) as Hd. split_and!; try apply be_bytes_length; try apply Hd; [reflexivity|lia|lia| |];
    vm_compute; congruence.
  - intros d h _. cbn -[mk be_bytes take fixed_s b2z z2b].
    rewrite length_app, !be_bytes_length, take_app_length', val_be by (by rewrite be_bytes_length).
    rewrite (bool_decide_eq_true_2 (32 + 32 = 64)%nat) by done.
    rewrite bool_decide_eq_true_2 by apply val_range. cbn -[mk]. by rewrite mk_val.
Qed.
End Toy.

Lemma NewPrivateKey_iff_witness :
  is_ok (NewPrivateKey (D := Toy.dcrd) (be_bytes 32 7)) = true.
Proof. apply (NewPrivateKey_iff (L := Toy.laws)). split; [reflexivity|]. vm_compute. split; congruence. Defined.

Lemma Verify_unreduced_s_witness : let d := Toy.dcrd in
  Verify (Toy.mk 5) (be_bytes 32 5 ++ be_bytes 32 (1 + order)) (replicate 32 x00) =
  Verify (Toy.mk 5) (be_bytes 32 5 ++ be_bytes 32 1) (replicate 32 x00).
Proof. apply (Verify_unreduced_s (L := Toy.laws)); [reflexivity|lia|vm_compute; reflexivity]. Defined.

Lemma GenerateKey_first_witness : let d := Toy.dcrd in
  GenerateKey [Some zero32; Some (copy32 (replicate 32 x01))] =
  Ok (priv_new (be_value (replicate 32 x01)), priv_public (priv_new (be_value (replicate 32 x01)))).
Proof.
  apply (GenerateKey_first (L := Toy.laws) [Some zero32] (copy32 (replicate 32 x01)) []).
  - repeat constructor. exists zero32. split; [reflexivity|left; reflexivity].
  - vm_compute. split; congruence.
Defined.
