(* ===== verification/Ethereum.v ===== *)
(** * The [chain/ethereum] package: addresses

    A translation of src/chain/ethereum/address.go: derivation of an address from
    a public key, the EIP-55 checksummed form and its parser. *)
From S2P Require Import Prelude GoBig Keccak Secp256k1.
Import Secp256k1.
#[local] Open Scope Z_scope.

Module Ethereum.

Inductive error : Type :=
| ErrInvalidAddress
| ErrNilPublicKey
| ErrInvalidPublicKey.

Definition Address : Type := array20.

Section Operations.
Context `{D : Dcrd, K : Keccak}.

Definition FromPublicKey (pub : option PublicKey) : outcome error Address :=
  match pub with
  | None => Err ErrNilPublicKey
  | Some p =>
      let uncompressed := BytesUncompressed p in
      if negb (zlen uncompressed =? 65) || negb (bool_decide (head uncompressed = Some x04))
      then Err ErrInvalidPublicKey
      else Ok (copy20 (drop 12 (arr (keccak_sum (drop 1 uncompressed)))))
  end.

(** The digits after 0x; [Address.String] is the same string. *)
Definition Hex_digits (a : Address) : bytes :=
  let hexAddr := hex_bytes (arr20 a) in
  let hashHex := hex_bytes (arr (keccak_sum hexAddr)) in
  imap (λ i c,
    if (97 <=? b2z c) && (b2z c <=? 102) then
      if 56 <=? b2z (hashHex !!! i) then z2b (b2z c - 32) else c
    else c) hexAddr.

Definition Hex (a : Address) : string :=
  ("0x" +:+ String.string_of_list_byte (Hex_digits a))%string.

Definition ParseAddress (s0 : string) : outcome error Address :=
  let s := TrimPrefix (str_bytes s0) (str_bytes "0x") in
  if negb (zlen s =? 40) then Err ErrInvalidAddress
  else
    match unhex_bytes s with
    | None => Err ErrInvalidAddress
    | Some decoded =>
        if negb (zlen decoded =? 20) then Err ErrInvalidAddress
        else
          let addr := copy20 decoded in
          let hasUpper := existsb (λ c, (65 <=? b2z c) && (b2z c <=? 70)) s in
          let hasLower := existsb (λ c, (97 <=? b2z c) && (b2z c <=? 102)) s in
          if hasUpper && hasLower then
            if negb (bool_decide (s = TrimPrefix (str_bytes (Hex addr)) (str_bytes "0x")))
            then Err ErrInvalidAddress
            else Ok addr
          else Ok addr
    end.

End Operations.
End Ethereum.

(** * Properties *)
Import Secp256k1 Ethereum.

(** ** Case of hexadecimal digits *)

Definition lower_digit (c : byte) : bool := (97 <=? b2z c) && (b2z c <=? 102).
Definition upper_digit (c : byte) : bool := (65 <=? b2z c) && (b2z c <=? 70).

(** [c'] is [c], or the capital of the letter [c]. *)
Definition casing (c c' : byte) : Prop := c' = c ∨ lower_digit c = true ∧ c' = z2b (b2z c - 32).

Lemma casing_value c c' : casing c c' → hex_value c' = hex_value c.
Proof.
  intros [->|[Hl ->]]; [done|]. unfold lower_digit in Hl. apply andb_prop in Hl as [?%Z.leb_le ?%Z.leb_le].
  unfold hex_value. rewrite b2z_z2b_small by lia. repeat case_match; try (f_equal; lia); lia.
Qed.

Lemma unhex_casing n l l' : (length l ≤ n)%nat → Forall2 casing l l' → unhex_bytes l' = unhex_bytes l.
Proof.
  revert l l'. induction n as [|n IH]; intros l l' Hn HF.
  { destruct l; [|simpl in Hn; lia]. by apply Forall2_nil_inv_l in HF as ->. }
  destruct HF as [|a a' l l' Ha HF]; [done|]. destruct HF as [|b b' l l' Hb HF]; [done|].
  cbn [unhex_bytes]. rewrite (casing_value a a'), (casing_value b b') by done.
  rewrite (IH l l') by (simpl in Hn; done || lia). done.
Qed.

Lemma imap_casing f l : (∀ i c, casing c (f i c)) → Forall2 casing l (imap f l).
Proof. revert f. induction l as [|c l IH]; intros f Hf; [constructor|]. cbn [imap]. constructor; [apply Hf|]. apply IH. intros i d. apply Hf. Qed.

Lemma hex_bytes_length b : length (hex_bytes b) = (2 * length b)%nat.
Proof.
  induction b as [|c b IH]; [done|].
  change (hex_bytes (c :: b)) with (hex_digit (b2z c `div` 16) :: hex_digit (b2z c `mod` 16) :: hex_bytes b).
  cbn [length]. lia.
Qed.

Lemma unhex_length s b : unhex_bytes s = Some b → length s = (2 * length b)%nat.
Proof.
  revert s b. fix IH 1. intros [|c [|c' s]] b; cbn [unhex_bytes]; [by intros [= <-]|done|].
  destruct (hex_value c), (hex_value c'); cbn; try done.
  destruct (unhex_bytes s) as [r|] eqn:E; cbn; [|done]. intros [= <-]. apply IH in E. simpl. lia.
Qed.

Lemma TrimPrefix_app p s : TrimPrefix (p ++ s) p = s.
Proof. unfold TrimPrefix. by rewrite take_app_length, bool_decide_eq_true_2, drop_app_length. Qed.

Lemma str_bytes_app a b : str_bytes (a +:+ b)%string = str_bytes a ++ str_bytes b.
Proof.
  unfold str_bytes, String.list_byte_of_string.
  assert (∀ a b, String.list_ascii_of_string (a +:+ b)%string =
    String.list_ascii_of_string a ++ String.list_ascii_of_string b) as ->.
  { intros s t. induction s as [|c s IH]; [done|]. simpl. by rewrite <- IH. }
  by rewrite map_app.
Qed.

Section Address.
Context `{D : Dcrd, K : Keccak}.

Lemma Hex_digits_casing a : Forall2 casing (hex_bytes (arr20 a)) (Hex_digits a).
Proof.
  apply imap_casing. intros i c. unfold casing, lower_digit.
  destruct ((97 <=? b2z c) && (b2z c <=? 102)); [|by left]. case_match; [by right|by left].
Qed.

Lemma Hex_digits_length a : length (Hex_digits a) = 40%nat.
Proof. rewrite <- (Forall2_length _ _ _ (Hex_digits_casing a)), hex_bytes_length, arr20_length. done. Qed.

Lemma unhex_Hex_digits a : unhex_bytes (Hex_digits a) = Some (arr20 a).
Proof. rewrite (unhex_casing 40 (hex_bytes (arr20 a))); [apply unhex_hex| |apply Hex_digits_casing].
  rewrite hex_bytes_length, arr20_length. lia. Qed.

Lemma Hex_trim a : TrimPrefix (str_bytes (Hex a)) (str_bytes "0x") = Hex_digits a.
Proof. unfold Hex. rewrite str_bytes_app, str_bytes_of_list. apply TrimPrefix_app. Qed.

(** The body of an address string mixes capital and small digits. *)
Definition mixed_case (s : bytes) : bool := existsb upper_digit s && existsb lower_digit s.

Lemma ParseAddress_spec s a :
  let t := TrimPrefix (str_bytes s) (str_bytes "0x") in
  ParseAddress s = Ok a ↔
  unhex_bytes t = Some (arr20 a) ∧ (mixed_case t = true → t = Hex_digits a).
Proof.
  intros t. unfold ParseAddress. fold t. split.
  - destruct (negb (zlen t =? 40)); [done|]. destruct (unhex_bytes t) as [d|]; [|done].
    destruct (Z.eqb_spec (zlen d) 20) as [Hd|]; cbn [negb]; [|done].
    assert (arr20 (copy20 d) = d) as Hc by (apply arr20_copy20; lia). rewrite Hex_trim.
    change (existsb _ t && existsb _ t) with (mixed_case t). destruct (mixed_case t) eqn:Hm.
    + destruct (decide (t = Hex_digits (copy20 d))) as [Ht|Ht].
      * rewrite bool_decide_eq_true_2 by done. cbn [negb]. intros Eq. assert (copy20 d = a) as <- by congruence. by rewrite Hc.
      * by rewrite bool_decide_eq_false_2.
    + intros Eq. assert (copy20 d = a) as <- by congruence. by rewrite Hc.
  - intros [Hu Hm]. rewrite Hu. pose proof (unhex_length _ _ Hu) as Hl. rewrite arr20_length in Hl.
    rewrite (proj2 (Z.eqb_eq _ _)), arr20_length by lia. rewrite copy20_arr20, Hex_trim. cbn [negb Z.eqb].
    change (existsb _ t && existsb _ t) with (mixed_case t). change (Z.of_nat 20 =? 20) with true. cbn [negb].
    destruct (mixed_case t); [|done]. by rewrite bool_decide_eq_true_2 by auto.
Qed.

(** The checksummed form of an address parses back to it. *)
Theorem ParseAddress_Hex a : ParseAddress (Hex a) = Ok a.
Proof. apply ParseAddress_spec. rewrite Hex_trim. split; [apply unhex_Hex_digits|done]. Qed.

(** [ParseAddress] accepts a string exactly when, after an optional 0x, it is 40
    hexadecimal digits of the address and, if it mixes cases, the checksummed form:
    of the mixed-case spellings of an address only one is accepted. *)
Theorem ParseAddress_iff s a :
  ParseAddress s = Ok a ↔
  let t := TrimPrefix (str_bytes s) (str_bytes "0x") in
  unhex_bytes t = Some (arr20 a) ∧ (mixed_case t = true → t = Hex_digits a).
Proof. apply ParseAddress_spec. Qed.

(** ** The two checksum implementations *)

Lemma hex_digit_ge_8 n : 0 ≤ n < 16 → (56 <=? b2z (hex_digit n)) = (8 <=? n).
Proof.
  intros Hn. unfold hex_digit. destruct (Z.ltb_spec n 10); rewrite b2z_z2b_small by lia;
  destruct (Z.leb_spec 8 n); symmetry; rewrite ?Z.leb_le, ?Z.leb_gt; try lia.
Qed.

Lemma hex_bytes_lookup bs i : (i < 2 * length bs)%nat → hex_bytes bs !!! i =
  hex_digit (if (i `mod` 2 =? 0)%nat then b2z (bs !!! (i `div` 2)%nat) `div` 16
             else b2z (bs !!! (i `div` 2)%nat) `mod` 16).
Proof.
  revert i. induction bs as [|b bs IH]; intros i Hi; [simpl in Hi; lia|].
  destruct i as [|[|i]]; [done|done|].
  change (hex_bytes (b :: bs) !!! S (S i)) with (hex_bytes bs !!! i). rewrite IH by (simpl in Hi; lia).
  replace (S (S i) `div` 2)%nat with (S (i `div` 2))%nat by div_lia.
  replace (S (S i) `mod` 2)%nat with (i `mod` 2)%nat by div_lia. done.
Qed.

Lemma imap_ext_lt {A B} (f g : nat → A → B) l : (∀ i x, (i < length l)%nat → f i x = g i x) →
  imap f l = imap g l.
Proof.
  revert f g. induction l as [|x l IH]; intros f g E; [done|]. cbn. f_equal; [apply E; simpl; lia|].
  apply IH. intros i y Hi. apply E. simpl. lia.
Qed.

Lemma nibble_split h : 0 ≤ h < 256 → Z.shiftr h 4 = h `div` 16 ∧ Z.land h 0x0f = h `mod` 16.
Proof.
  intros Hh. rewrite Z.shiftr_div_pow2 by done. split; [done|].
  change 0x0f with (Z.ones 4). by rewrite Z.land_ones.
Qed.

Lemma checksum_Hex a : checksumAddress (arr20 a) = Hex a.
Proof.
  unfold checksumAddress, Hex, Hex_digits. f_equal. f_equal. apply imap_ext_lt. intros i c Hi.
  destruct (_ && _); [|done].
  rewrite hex_bytes_length, arr20_length in Hi.
  rewrite hex_bytes_lookup by (rewrite arr_length; lia). unfold SumBytes.
  set (h := b2z _). assert (0 ≤ h < 256) as Hh by apply b2z_range.
  destruct (nibble_split h Hh) as [-> ->].
  rewrite hex_digit_ge_8; [by destruct (i `mod` 2 =? 0)%nat|].
  destruct (i `mod` 2 =? 0)%nat; div_lia.
Qed.
End Address.

Section Derivation.
Context `{D : Dcrd, L : !DcrdLaws, K : Keccak}.

Lemma FromPublicKey_ok p : ∃ xy, point_uncompressed p = x04 :: xy ∧ length xy = 64%nat ∧
  FromPublicKey (Some p) = Ok (copy20 (drop 12 (SumBytes xy))).
Proof.
  destruct (uncompressed_form p) as (xy & E & Hl). exists xy. split_and!; [done|done|].
  unfold FromPublicKey, BytesUncompressed. rewrite E.
  replace (zlen (x04 :: xy)) with 65 by (simpl; lia). done.
Qed.

(** [secp256k1.EVMAddress] and [ethereum.FromPublicKey] followed by [Hex], two
    implementations of address derivation and of the EIP-55 checksum, agree on
    every key. *)
Theorem EVMAddress_is_Hex p : ∃ a,
  FromPublicKey (Some p) = Ok a ∧ EVMAddress (Some p) = Ok (Hex a).
Proof.
  destruct (FromPublicKey_ok p) as (xy & E & Hl & Hf). eexists. split; [exact Hf|].
  unfold EVMAddress. rewrite E. replace (zlen (x04 :: xy)) with 65 by (simpl; lia). cbn [negb].
  change (negb (65 =? 65)) with false. cbv iota. f_equal. rewrite <- checksum_Hex.
  f_equal. rewrite arr20_copy20; [done|]. rewrite length_drop, SumBytes_length. done.
Qed.
End Derivation.

(** ** Concrete inputs *)

(** A test vector of EIP-55. *)
Example Hex_eip55 :
  Hex (copy20 (default [] (hex_decode "5aaeb6053f3e94c9b9a09f33669435e7ef1beaed"))) =
  "0x5aAeb6053F3E94C9b9A09f33669435E7Ef1BeAed".
Proof. vm_compute. reflexivity. Qed.

Example ParseAddress_bad_checksum :
  ParseAddress "0x5aAeb6053F3E94C9b9A09f33669435E7Ef1Beaed" = Err ErrInvalidAddress.
Proof. vm_compute. reflexivity. Qed.

Lemma EVMAddress_is_Hex_witness : let d := Toy.dcrd in ∃ a,
  FromPublicKey (Some (Toy.mk 9)) = Ok a ∧ EVMAddress (Some (Toy.mk 9)) = Ok (Hex a).
Proof. apply (EVMAddress_is_Hex (L := Toy.laws)). Defined.
