(* ===== verification/Wallet.v ===== *)
(** * The [chain/wallet] package

    A translation of src/chain/wallet: the three transaction families and their
    encodings (transaction.go), signing (wallet.go, sign.go), decoding with sender
    recovery (decode.go) and validation (validate.go).  A [*big.Int] and an
    [*ethereum.Address] are options; an [interface{}] from [rlp.Decode] is an
    [Rlp.item]. *)
From S2P Require Import Prelude GoBig Keccak Rlp Secp256k1 Ethereum.
Import Secp256k1.
#[local] Open Scope Z_scope.

Module Wallet.

Inductive error : Type :=
| ErrEmptyInput
| ErrInvalidType
| ErrDecodeFailed
| ErrInvalidField
| ErrRecoverFailed
| ErrInvalidRLP
| ErrInvalidSignature
| ErrChainIDMismatch
| ErrHighS
| ErrInvalidV
| ErrFieldSanity
| ErrNilPrivateKey
| ErrNilTransaction
| ErrZeroChainID
| ErrSign
| ErrNotLegacy
| ErrUnsupportedType
| ErrDigestLength
| ErrSignatureLength
| ErrRecoveryID
| ErrAddress
| ErrOther (text : string).

#[global] Instance error_eq_dec : EqDecision error.
Proof. solve_decision. Defined.

Definition secp256k1N : Z := 0xFFFFFFFFFFFFFFFFFFFFFFFFFFFFFFFEBAAEDCE6AF48A03BBFD25E8CD0364141.
Definition secp256k1HalfN : Z := Z.shiftr secp256k1N 1.

(** ** transaction.go *)

Definition encodeBig (n : option Z) : bytes :=
  match n with
  | None => Rlp.EncodeBytes []
  | Some z => if z =? 0 then Rlp.EncodeBytes [] else Rlp.EncodeBytes (big_bytes z)
  end.

Definition encodeAddr (addr : option Ethereum.Address) : bytes :=
  match addr with
  | None => Rlp.EncodeBytes []
  | Some a => Rlp.EncodeBytes (arr20 a)
  end.

Definition encodeBytes (b : bytes) : bytes := Rlp.EncodeBytes b.

Record LegacyTx : Type := mkLegacy {
  lChainID : option Z;
  lNonce : Z;
  lGasPrice : option Z;
  lGasLimit : Z;
  lTo : option Ethereum.Address;
  lValue : option Z;
  lData : bytes
}.

Record AccessListEntry : Type := Entry {
  EAddress : array20;
  StorageKeys : list array32
}.

Record EIP1559Tx : Type := mk1559 {
  fChainID : option Z;
  fNonce : Z;
  fMaxPriorityFeePerGas : option Z;
  fMaxFeePerGas : option Z;
  fGasLimit : Z;
  fTo : option Ethereum.Address;
  fValue : option Z;
  fData : bytes;
  fAccessList : list AccessListEntry
}.

Record EIP2930Tx : Type := mk2930 {
  aChainID : option Z;
  aNonce : Z;
  aGasPrice : option Z;
  aGasLimit : Z;
  aTo : option Ethereum.Address;
  aValue : option Z;
  aData : bytes;
  aAccessList : list AccessListEntry
}.

(** [chainID == nil || chainID.Sign() == 0]. *)
Definition no_chain_id (c : option Z) : bool :=
  match c with None => true | Some z => z =? 0 end.

Definition encodeAccessList (accessList : list AccessListEntry) : bytes :=
  match accessList with
  | [] => Rlp.EncodeList []
  | _ =>
      let entry e :=
        Rlp.EncodeList [Rlp.EncodeBytes (arr20 (EAddress e));
                        Rlp.EncodeList ((λ k, Rlp.EncodeBytes (arr k)) <$> StorageKeys e)] in
      Rlp.EncodeList (entry <$> accessList)
  end.

(** Any type of the program may implement the interface; [OtherTx] is one that is
    none of the three, given by its methods. *)
Inductive Transaction : Type :=
| Legacy (tx : LegacyTx)
| Eip2930 (tx : EIP2930Tx)
| Eip1559 (tx : EIP1559Tx)
| OtherTx (type : byte) (signingHash : outcome error bytes)
    (encodeSigned : bytes → bytes → bytes → outcome error bytes).

Definition Type_ (tx : Transaction) : byte :=
  match tx with
  | Legacy _ => x00
  | Eip2930 _ => x01
  | Eip1559 _ => x02
  | OtherTx t _ _ => t
  end.

Section Hashing.
Context `{K : Keccak}.

Definition keccak256 (data : bytes) : bytes := SumBytes data.

Definition Legacy_SigningHash (tx : LegacyTx) : outcome error bytes :=
  if no_chain_id (lChainID tx) then Err ErrZeroChainID
  else
    let preimage := Rlp.EncodeList
      [ Rlp.EncodeUint64 (lNonce tx); encodeBig (lGasPrice tx); Rlp.EncodeUint64 (lGasLimit tx);
        encodeAddr (lTo tx); encodeBig (lValue tx); encodeBytes (lData tx);
        encodeBig (lChainID tx); Rlp.EncodeUint64 0; Rlp.EncodeUint64 0 ] in
    Ok (keccak256 preimage).

Definition Legacy_EncodeSigned (tx : LegacyTx) (r s v : bytes) : outcome error bytes :=
  if no_chain_id (lChainID tx) then Err ErrZeroChainID
  else Ok (Rlp.EncodeList
      [ Rlp.EncodeUint64 (lNonce tx); encodeBig (lGasPrice tx); Rlp.EncodeUint64 (lGasLimit tx);
        encodeAddr (lTo tx); encodeBig (lValue tx); encodeBytes (lData tx);
        encodeBytes v; encodeBytes r; encodeBytes s ]).

Definition Eip1559_SigningHash (tx : EIP1559Tx) : outcome error bytes :=
  if no_chain_id (fChainID tx) then Err ErrZeroChainID
  else
    let accessListEnc := encodeAccessList (fAccessList tx) in
    let preimage := x02 :: Rlp.EncodeList
      [ encodeBig (fChainID tx); Rlp.EncodeUint64 (fNonce tx); encodeBig (fMaxPriorityFeePerGas tx);
        encodeBig (fMaxFeePerGas tx); Rlp.EncodeUint64 (fGasLimit tx); encodeAddr (fTo tx);
        encodeBig (fValue tx); encodeBytes (fData tx); accessListEnc ] in
    Ok (keccak256 preimage).

Definition Eip1559_EncodeSigned (tx : EIP1559Tx) (r s v : bytes) : outcome error bytes :=
  if no_chain_id (fChainID tx) then Err ErrZeroChainID
  else
    let accessListEnc := encodeAccessList (fAccessList tx) in
    let body := Rlp.EncodeList
      [ encodeBig (fChainID tx); Rlp.EncodeUint64 (fNonce tx); encodeBig (fMaxPriorityFeePerGas tx);
        encodeBig (fMaxFeePerGas tx); Rlp.EncodeUint64 (fGasLimit tx); encodeAddr (fTo tx);
        encodeBig (fValue tx); encodeBytes (fData tx); accessListEnc;
        encodeBig (Some (be_value v)); encodeBytes r; encodeBytes s ] in
    Ok (x02 :: body).

Definition Eip2930_SigningHash (tx : EIP2930Tx) : outcome error bytes :=
  if no_chain_id (aChainID tx) then Err ErrZeroChainID
  else
    let accessListEnc := encodeAccessList (aAccessList tx) in
    let preimage := x01 :: Rlp.EncodeList
      [ encodeBig (aChainID tx); Rlp.EncodeUint64 (aNonce tx); encodeBig (aGasPrice tx);
        Rlp.EncodeUint64 (aGasLimit tx); encodeAddr (aTo tx); encodeBig (aValue tx);
        encodeBytes (aData tx); accessListEnc ] in
    Ok (keccak256 preimage).

Definition Eip2930_EncodeSigned (tx : EIP2930Tx) (r s v : bytes) : outcome error bytes :=
  if no_chain_id (aChainID tx) then Err ErrZeroChainID
  else
    let accessListEnc := encodeAccessList (aAccessList tx) in
    let body := Rlp.EncodeList
      [ encodeBig (aChainID tx); Rlp.EncodeUint64 (aNonce tx); encodeBig (aGasPrice tx);
        Rlp.EncodeUint64 (aGasLimit tx); encodeAddr (aTo tx); encodeBig (aValue tx);
        encodeBytes (aData tx); accessListEnc;
        encodeBig (Some (be_value v)); encodeBytes r; encodeBytes s ] in
    Ok (x01 :: body).

Definition SigningHash (tx : Transaction) : outcome error bytes :=
  match tx with
  | Legacy t => Legacy_SigningHash t
  | Eip2930 t => Eip2930_SigningHash t
  | Eip1559 t => Eip1559_SigningHash t
  | OtherTx _ h _ => h
  end.

Definition EncodeSigned (tx : Transaction) (r s v : bytes) : outcome error bytes :=
  match tx with
  | Legacy t => Legacy_EncodeSigned t r s v
  | Eip2930 t => Eip2930_EncodeSigned t r s v
  | Eip1559 t => Eip1559_EncodeSigned t r s v
  | OtherTx _ _ e => e r s v
  end.

(** ** wallet.go and sign.go *)

Context `{D : Dcrd}.

(** A [*Wallet]: nil, or a wallet whose key may be nil. *)
Definition wallet : Type := option (option PrivateKey).

Definition NewWallet (priv : option PrivateKey) : wallet := Some priv.

Definition the_key (w : wallet) : option PrivateKey := mjoin w.

Definition Address (w : wallet) : outcome error Ethereum.Address :=
  match the_key w with
  | None => Err ErrNilPrivateKey
  | Some priv => wrap_err (λ _, ErrAddress) (Ethereum.FromPublicKey (Some (Public priv)))
  end.

Definition WalletPublicKey (w : wallet) : option PublicKey := Public <$> the_key w.

Definition assembleV (tx : Transaction) (recID : byte) : outcome error bytes :=
  match b2z (Type_ tx) with
  | 0 =>
      match tx with
      | Legacy legacy =>
          match lChainID legacy with
          | Some chainID =>
              if chainID =? 0 then Err ErrZeroChainID
              else Ok (big_bytes (chainID * 2 + (b2z recID + 35)))
          | None => Err ErrZeroChainID
          end
      | _ => Err ErrNotLegacy
      end
  | 1 => Ok [recID]
  | 2 => Ok [recID]
  | _ => Err ErrUnsupportedType
  end.

Definition SignTx (w : wallet) (tx : option Transaction) : outcome error bytes :=
  match the_key w with
  | None => Err ErrNilPrivateKey
  | Some priv =>
      match tx with
      | None => Err ErrNilTransaction
      | Some tx =>
          digest ← SigningHash tx;
          '(sig, recID) ← wrap_err (λ _, ErrSign) (SignRecoverable priv digest);
          let r := take 32 sig in
          let s := take 32 (drop 32 sig) in
          v ← assembleV tx recID;
          EncodeSigned tx r s v
      end
  end.

Definition personalMessagePrefix (msg : bytes) : bytes :=
  [x19] ++ str_bytes "Ethereum Signed Message:" ++ [x0a] ++ text 10 (zlen msg).

(** [out[64] = recID + 27] beside r and s. *)
Definition join_sig (sig : bytes) (recID : byte) : bytes :=
  take 32 sig ++ take 32 (drop 32 sig) ++ [z2b (b2z recID + 27)].

Definition SignPersonalMessage (w : wallet) (msg : bytes) : outcome error bytes :=
  match the_key w with
  | None => Err ErrNilPrivateKey
  | Some priv =>
      let prefixed := personalMessagePrefix msg ++ msg in
      let digest := SumBytes prefixed in
      '(sig, recID) ← wrap_err (λ _, ErrSign) (SignRecoverable priv digest);
      Ok (join_sig sig recID)
  end.

Definition SignDigest (w : wallet) (digest : bytes) : outcome error bytes :=
  match the_key w with
  | None => Err ErrNilPrivateKey
  | Some priv =>
      if negb (zlen digest =? 32) then Err ErrDigestLength
      else
        '(sig, recID) ← wrap_err (λ _, ErrSign) (SignRecoverable priv digest);
        Ok (join_sig sig recID)
  end.

Definition recoverPublicKey (sig digest : bytes) : outcome error PublicKey :=
  if negb (zlen sig =? 65) then Err ErrSignatureLength
  else if negb (zlen digest =? 32) then Err ErrDigestLength
  else
    v ← index sig 64;
    let recID := z2b (b2z v - 27) in
    if 3 <? b2z recID then Err ErrRecoveryID
    else wrap_err (λ _, ErrRecoverFailed) (RecoverPubKey (take 64 sig) digest recID).

(** ** decode.go *)

Record DecodedTx : Type := mkDecoded {
  Type' : byte;
  ChainID : option Z;
  Nonce : Z;
  GasPrice : option Z;
  MaxPriorityFeePerGas : option Z;
  MaxFeePerGas : option Z;
  GasLimit : Z;
  To : option Ethereum.Address;
  Value : option Z;
  Data : bytes;
  AccessList : list AccessListEntry;
  SigV : bytes;
  SigR : bytes;
  SigS : bytes;
  Sender : Ethereum.Address
}.

Definition asBytes (v : Rlp.item) : outcome error bytes :=
  match v with Rlp.Str b => Ok b | Rlp.Lst _ => Err ErrInvalidField end.

Definition asList (v : Rlp.item) : outcome error (list Rlp.item) :=
  match v with Rlp.Lst l => Ok l | Rlp.Str _ => Err ErrInvalidField end.

Definition checkIntegerField (b : bytes) : outcome error unit :=
  if match b with c :: _ => b2z c =? 0 | [] => false end then Err ErrInvalidField
  else if 32 <? zlen b then Err ErrInvalidField
  else Ok tt.

Definition asScalar (v : Rlp.item) : outcome error bytes :=
  b ← asBytes v;
  _ ← checkIntegerField b;
  let scalar := be_value b in
  if (scalar =? 0) || (secp256k1N <=? scalar) then Err ErrInvalidField
  else Ok b.

Definition asUint64 (v : Rlp.item) : outcome error Z :=
  b ← asBytes v;
  if 8 <? zlen b then Err ErrInvalidField
  else
    _ ← checkIntegerField b;
    Ok (foldl (λ n c, Z.lor (u64 (Z.shiftl n 8)) (b2z c)) 0 b).

Definition asBigInt (v : Rlp.item) : outcome error (option Z) :=
  b ← asBytes v;
  _ ← checkIntegerField b;
  Ok (Some (be_value b)).

Definition asAddress (v : Rlp.item) : outcome error (option Ethereum.Address) :=
  b ← asBytes v;
  if zlen b =? 0 then Ok None
  else if negb (zlen b =? 20) then Err ErrInvalidField
  else Ok (Some (copy20 b)).

(** The wrapped error keeps the sentinel and flattens the rest. *)
Definition fieldErr {A} (m : outcome error A) : outcome error A :=
  wrap_err (λ _, ErrInvalidField) m.

Definition parseKey (sk : Rlp.item) : outcome error array32 :=
  keyBytes ← asBytes sk;
  if negb (zlen keyBytes =? 32) then Err ErrInvalidField else Ok (copy32 keyBytes).

Definition parseEntry (e : Rlp.item) : outcome error AccessListEntry :=
  entry ← asList e;
  if negb (zlen entry =? 2) then Err ErrInvalidField
  else
    e0 ← index entry 0;
    addrBytes ← asBytes e0;
    if negb (zlen addrBytes =? 20) then Err ErrInvalidField
    else
      e1 ← index entry 1;
      storageList ← asList e1;
      keys ← each (λ _, parseKey) 0 storageList;
      Ok (Entry (copy20 addrBytes) keys).

Definition parseAccessList (v : Rlp.item) : outcome error (list AccessListEntry) :=
  entries ← asList v;
  each (λ _, parseEntry) 0 entries.

Definition yParity (v : bytes) : outcome error byte :=
  match v with
  | [] => Ok x00
  | [c] => if b2z c =? 0 then Err ErrInvalidField
           else if 1 <? b2z c then Err ErrInvalidField
           else Ok c
  | _ => Err ErrInvalidField
  end.

Definition ecrecoverSender (r s : bytes) (recID : byte) (digest : bytes) : outcome error Ethereum.Address :=
  if (32 <? zlen r) || (32 <? zlen s) then Err ErrInvalidField
  else
    r' ← right_align 32 r;
    s' ← right_align 32 s;
    pub ← wrap_err (λ _, ErrRecoverFailed) (RecoverPubKey (r' ++ s') digest recID);
    wrap_err (λ _, ErrRecoverFailed) (Ethereum.FromPublicKey (Some pub)).

Definition decodeLegacy (raw : bytes) : outcome error DecodedTx :=
  decoded ← wrap_err (λ _, ErrDecodeFailed) (Rlp.Decode raw);
  items ← asList decoded;
  if negb (zlen items =? 9) then Err ErrInvalidField
  else
    i0 ← index items 0; nonce ← fieldErr (asUint64 i0);
    i1 ← index items 1; gasPrice ← fieldErr (asBigInt i1);
    i2 ← index items 2; gasLimit ← fieldErr (asUint64 i2);
    i3 ← index items 3; to ← fieldErr (asAddress i3);
    i4 ← index items 4; value ← fieldErr (asBigInt i4);
    i5 ← index items 5; data ← fieldErr (asBytes i5);
    i6 ← index items 6; vBytes ← fieldErr (asBytes i6);
    _ ← fieldErr (checkIntegerField vBytes);
    i7 ← index items 7; rBytes ← fieldErr (asScalar i7);
    i8 ← index items 8; sBytes ← fieldErr (asScalar i8);
    let v := be_value vBytes in
    if negb (v =? 27) && negb (v =? 28) && (v <? 35) then Err ErrInvalidField
    else
      let body := [ Rlp.EncodeUint64 nonce; encodeBig gasPrice; Rlp.EncodeUint64 gasLimit;
                    encodeAddr to; encodeBig value; encodeBytes data ] in
      let '(chainID, recID, preimage) :=
        if (v =? 27) || (v =? 28) then
          (None, z2b (v - 27), Rlp.EncodeList body)
        else
          let c := v - 35 in
          (Some (c `div` 2), z2b (c `mod` 2),
           Rlp.EncodeList (body ++ [ encodeBig (Some (c `div` 2)); Rlp.EncodeUint64 0; Rlp.EncodeUint64 0 ])) in
      sender ← ecrecoverSender rBytes sBytes recID (keccak256 preimage);
      Ok (mkDecoded x00 chainID nonce gasPrice None None gasLimit to value data [] vBytes rBytes sBytes sender).

Definition decodeEIP2930 (body : bytes) : outcome error DecodedTx :=
  decoded ← wrap_err (λ _, ErrDecodeFailed) (Rlp.Decode body);
  items ← asList decoded;
  if negb (zlen items =? 11) then Err ErrInvalidField
  else
    i0 ← index items 0; chainID ← fieldErr (asBigInt i0);
    i1 ← index items 1; nonce ← fieldErr (asUint64 i1);
    i2 ← index items 2; gasPrice ← fieldErr (asBigInt i2);
    i3 ← index items 3; gasLimit ← fieldErr (asUint64 i3);
    i4 ← index items 4; to ← fieldErr (asAddress i4);
    i5 ← index items 5; value ← fieldErr (asBigInt i5);
    i6 ← index items 6; data ← fieldErr (asBytes i6);
    i7 ← index items 7; accessList ← fieldErr (parseAccessList i7);
    i8 ← index items 8; vBytes ← fieldErr (asBytes i8);
    i9 ← index items 9; rBytes ← fieldErr (asScalar i9);
    i10 ← index items 10; sBytes ← fieldErr (asScalar i10);
    let preimage := x01 :: Rlp.EncodeList
      [ encodeBig chainID; Rlp.EncodeUint64 nonce; encodeBig gasPrice; Rlp.EncodeUint64 gasLimit;
        encodeAddr to; encodeBig value; encodeBytes data; encodeAccessList accessList ] in
    let digest := keccak256 preimage in
    recID ← yParity vBytes;
    sender ← ecrecoverSender rBytes sBytes recID digest;
    Ok (mkDecoded x01 chainID nonce gasPrice None None gasLimit to value data accessList vBytes rBytes sBytes sender).

Definition decodeEIP1559 (body : bytes) : outcome error DecodedTx :=
  decoded ← wrap_err (λ _, ErrDecodeFailed) (Rlp.Decode body);
  items ← asList decoded;
  if negb (zlen items =? 12) then Err ErrInvalidField
  else
    i0 ← index items 0; chainID ← fieldErr (asBigInt i0);
    i1 ← index items 1; nonce ← fieldErr (asUint64 i1);
    i2 ← index items 2; maxPriorityFee ← fieldErr (asBigInt i2);
    i3 ← index items 3; maxFee ← fieldErr (asBigInt i3);
    i4 ← index items 4; gasLimit ← fieldErr (asUint64 i4);
    i5 ← index items 5; to ← fieldErr (asAddress i5);
    i6 ← index items 6; value ← fieldErr (asBigInt i6);
    i7 ← index items 7; data ← fieldErr (asBytes i7);
    i8 ← index items 8; accessList ← fieldErr (parseAccessList i8);
    i9 ← index items 9; vBytes ← fieldErr (asBytes i9);
    i10 ← index items 10; rBytes ← fieldErr (asScalar i10);
    i11 ← index items 11; sBytes ← fieldErr (asScalar i11);
    let preimage := x02 :: Rlp.EncodeList
      [ encodeBig chainID; Rlp.EncodeUint64 nonce; encodeBig maxPriorityFee; encodeBig maxFee;
        Rlp.EncodeUint64 gasLimit; encodeAddr to; encodeBig value; encodeBytes data;
        encodeAccessList accessList ] in
    let digest := keccak256 preimage in
    recID ← yParity vBytes;
    sender ← ecrecoverSender rBytes sBytes recID digest;
    Ok (mkDecoded x02 chainID nonce None maxPriorityFee maxFee gasLimit to value data accessList
          vBytes rBytes sBytes sender).

Definition DecodeTransaction (raw : bytes) : outcome error DecodedTx :=
  match raw with
  | [] => Err ErrEmptyInput
  | c :: body =>
      if 0xc0 <=? b2z c then decodeLegacy raw
      else if b2z c =? 0x01 then decodeEIP2930 body
      else if b2z c =? 0x02 then decodeEIP1559 body
      else Err ErrInvalidType
  end.

(** ** validate.go *)

Definition negative (n : option Z) : bool :=
  match n with Some z => z <? 0 | None => false end.

Definition checkFieldSanity (d : DecodedTx) : outcome error unit :=
  if negative (Value d) then Err ErrFieldSanity
  else if negative (GasPrice d) then Err ErrFieldSanity
  else if negative (MaxPriorityFeePerGas d) then Err ErrFieldSanity
  else if negative (MaxFeePerGas d) then Err ErrFieldSanity
  else if negative (ChainID d) then Err ErrFieldSanity
  else if match To d with Some a => negb (zlen (arr20 a) =? 20) | None => false end then Err ErrFieldSanity
  else if (zlen (SigR d) =? 0) || (32 <? zlen (SigR d)) then Err ErrFieldSanity
  else if (zlen (SigS d) =? 0) || (32 <? zlen (SigS d)) then Err ErrFieldSanity
  else Ok tt.

(** The comparison with the expected chain ID at the end of [checkChainID]. *)
Definition compareChainID (chainID : option Z) (expected : option Z) : outcome error unit :=
  match chainID with
  | None => Err ErrFieldSanity
  | Some c =>
      match expected with
      | None => Ok tt
      | Some e => if negb (c =? e) then Err ErrChainIDMismatch else Ok tt
      end
  end.

Definition checkChainID (d : DecodedTx) (expected : option Z) : outcome error unit :=
  if b2z (Type' d) =? 0 then
    let v := be_value (SigV d) in
    if (v =? 27) || (v =? 28) then Ok tt
    else compareChainID (ChainID d) expected
  else compareChainID (ChainID d) expected.

Definition checkV (d : DecodedTx) : outcome error unit :=
  let v := be_value (SigV d) in
  match b2z (Type' d) with
  | 0 =>
      if (v =? 27) || (v =? 28) then Ok tt
      else if v <? 35 then Err ErrInvalidV
      else Ok tt
  | 1 | 2 => if negb (v =? 0) && negb (v =? 1) then Err ErrInvalidV else Ok tt
  | _ => Err ErrInvalidType
  end.

Definition ValidateTransaction (raw : bytes) (expectedChainID : option Z) : outcome error unit :=
  decoded ← wrap_err (λ e, if bool_decide (e = ErrInvalidType) then ErrInvalidType else ErrInvalidRLP)
              (DecodeTransaction raw);
  _ ← checkFieldSanity decoded;
  if bool_decide (Sender decoded = zero20) then Err ErrInvalidSignature
  else
    _ ← checkChainID decoded expectedChainID;
    _ ← checkV decoded;
    let s := be_value (SigS decoded) in
    if secp256k1HalfN <? s then Err ErrHighS
    else Ok tt.

End Hashing.
End Wallet.
