(* ===== verification/WalletProofs.v ===== *)
(** * Properties of [chain/wallet]

    [DecodeTransaction] is characterised completely: which byte strings it accepts
    and what it returns for them.  Soundness of the recovered sender, absence of
    malleability, the behaviour of validation, and the round trip from [SignTx]
    follow. *)
From S2P Require Import Prelude GoBig Keccak Rlp RlpProofs Secp256k1.
From S2P Require Import Ethereum Wallet.
Import Secp256k1 Wallet.
#[local] Open Scope Z_scope.
#[local] Arguments be_value : simpl never.
#[local] Arguments big_bytes : simpl never.

(** ** Fields as RLP items *)

Definition big_item (x : option Z) : Rlp.item := Rlp.Str (from_option big_bytes [] x).
Definition uint_item (n : Z) : Rlp.item := Rlp.Str (big_bytes n).
Definition addr_item (x : option Ethereum.Address) : Rlp.item := Rlp.Str (from_option arr20 [] x).
Definition entry_item (e : AccessListEntry) : Rlp.item :=
  Rlp.Lst [Rlp.Str (arr20 (EAddress e)); Rlp.Lst ((λ k, Rlp.Str (arr k)) <$> StorageKeys e)].
Definition access_item (l : list AccessListEntry) : Rlp.item := Rlp.Lst (entry_item <$> l).

Lemma encodeBig_item x : encodeBig x = Rlp.encode (big_item x).
Proof. destruct x as [n|]; [|done]. cbn. by destruct (Z.eqb_spec n 0) as [->|]. Qed.

Lemma encodeAddr_item x : encodeAddr x = Rlp.encode (addr_item x).
Proof. by destruct x. Qed.

Lemma encodeBytes_item b : encodeBytes b = Rlp.encode (Rlp.Str b).
Proof. done. Qed.

Lemma uintToBytes_big n : is_u64 n → Rlp.uintToBytes n = big_bytes n.
Proof.
  intros Hn. destruct (decide (n = 0)) as [->|Hz]; [done|].
  destruct (uintToBytes_spec n) as [(c & r & E & Hc & _) Hv]; [unfold is_u64 in Hn; lia|].
  rewrite <- Hv at 2. symmetry. apply big_bytes_of_value. rewrite E. intros [= ->]. by apply Hc.
Qed.

Lemma EncodeUint64_item n : is_u64 n → Rlp.EncodeUint64 n = Rlp.encode (uint_item n).
Proof.
  intros Hn. unfold uint_item. rewrite <- uintToBytes_big by done.
  unfold Rlp.EncodeUint64, Rlp.uintToBytes. cbn. by destruct (n =? 0).
Qed.

Lemma encodeAccessList_item l : encodeAccessList l = Rlp.encode (access_item l).
Proof.
  unfold access_item. rewrite encode_Lst, <- list_fmap_compose. destruct l as [|e l]; [done|].
  unfold encodeAccessList. f_equal. apply list_fmap_ext. intros i x _. cbn [compose].
  unfold entry_item. rewrite encode_Lst. f_equal. cbn [fmap list_fmap]. f_equal. f_equal.
  rewrite encode_Lst. f_equal. by rewrite <- list_fmap_compose.
Qed.

(** ** The field decoders *)

Lemma checkIntegerField_Ok b : checkIntegerField b = Ok tt ↔ no_lead b ∧ (length b ≤ 32)%nat.
Proof.
  unfold checkIntegerField, no_lead. destruct b as [|c b]; [naive_solver (simpl; lia)|].
  cbn [head]. destruct (Z.eqb_spec (b2z c) 0) as [Hc|Hc].
  - split; [done|]. intros [H _]. exfalso. apply H. f_equal. by apply b2z_inj.
  - assert (Some c ≠ Some x00) by (intros [= ->]; by apply Hc).
    destruct (Z.ltb_spec 32 (zlen (c :: b))); naive_solver lia.
Qed.

Lemma asBytes_Ok it b : asBytes it = Ok b ↔ it = Rlp.Str b.
Proof. destruct it; cbn; naive_solver. Qed.

Lemma asList_Ok it l : asList it = Ok l ↔ it = Rlp.Lst l.
Proof. destruct it; cbn; naive_solver. Qed.

Lemma pow256_32 : 256 ^ 32 = 2 ^ 256.
Proof. done. Qed.

Lemma asBigInt_Ok it x : asBigInt it = Ok x ↔ ∃ n, x = Some n ∧ 0 ≤ n < 2 ^ 256 ∧ it = uint_item n.
Proof.
  unfold asBigInt. rewrite bind_Ok. setoid_rewrite bind_Ok. split.
  - intros (b & ->%asBytes_Ok & [] & [Hn Hl]%checkIntegerField_Ok & [= <-]).
    exists (be_value b). split_and!; [done|apply be_value_range|by apply be_value_bound32|].
    unfold uint_item. by rewrite big_bytes_of_value.
  - intros (n & -> & Hn & ->). exists (big_bytes n). split; [done|]. exists tt. split.
    + apply checkIntegerField_Ok. split; [apply big_bytes_no_lead|]. apply big_bytes_length.
      change (256 ^ Z.of_nat 32) with (2 ^ 256). lia.
    + rewrite big_bytes_value. by rewrite Z.abs_eq by lia.
Qed.

Lemma asUint64_Ok it n : asUint64 it = Ok n ↔ is_u64 n ∧ it = uint_item n.
Proof.
  unfold asUint64. rewrite bind_Ok. split.
  - intros (b & ->%asBytes_Ok & H). destruct (Z.ltb_spec 8 (zlen b)) as [|Hl]; [done|].
    apply bind_Ok in H as ([] & [Hn _]%checkIntegerField_Ok & H). rewrite fold_shift_be in H by lia.
    injection H as <-. unfold uint_item. rewrite big_bytes_of_value by done. split; [|done].
    pose proof (be_value_range b) as [H0 H1]. split; [done|].
    eapply Z.lt_le_trans; [exact H1|]. change (2 ^ 64) with (256 ^ 8). apply Z.pow_le_mono_r; lia.
  - intros [Hn ->]. assert (length (big_bytes n) ≤ 8)%nat as Hl.
    { apply big_bytes_length. change (256 ^ Z.of_nat 8) with (2 ^ 64). unfold is_u64 in Hn. lia. }
    exists (big_bytes n). split; [done|]. rewrite (proj2 (Z.ltb_ge _ _)) by lia.
    apply bind_Ok. exists tt. split; [apply checkIntegerField_Ok; split; [apply big_bytes_no_lead|lia]|].
    rewrite fold_shift_be, big_bytes_value by lia. f_equal. unfold is_u64 in Hn. lia.
Qed.

Lemma asAddress_Ok it x : asAddress it = Ok x ↔ it = addr_item x.
Proof.
  unfold asAddress. rewrite bind_Ok. split.
  - intros (b & ->%asBytes_Ok & H). destruct (Z.eqb_spec (zlen b) 0).
    { injection H as <-. by destruct b. }
    destruct (Z.eqb_spec (zlen b) 20) as [Hb|]; cbn [negb] in H; [|done].
    assert (x = Some (copy20 b)) as -> by congruence.
    unfold addr_item. cbn [from_option]. rewrite arr20_copy20 by lia. done.
  - intros ->. exists (from_option arr20 [] x). split; [done|]. destruct x as [a|]; [|done].
    cbn [from_option]. rewrite arr20_length, copy20_arr20. done.
Qed.

(** A signature component: a minimal encoding of a number in [1, n-1]. *)
Definition scalar_ok (b : bytes) : Prop := no_lead b ∧ 1 ≤ be_value b < secp256k1N.

Lemma no_lead_length_pow b k : no_lead b → be_value b < 256 ^ Z.of_nat k → (length b ≤ k)%nat.
Proof.
  intros Hb Hv. rewrite <- (big_bytes_of_value b Hb). apply big_bytes_length.
  pose proof (be_value_range b). lia.
Qed.

Lemma scalar_length b : scalar_ok b → (1 ≤ length b ≤ 32)%nat.
Proof.
  intros [Hn Hv]. split.
  - destruct b; [change (be_value []) with 0 in Hv; lia|simpl; lia].
  - apply no_lead_length_pow; [done|]. change (256 ^ Z.of_nat 32) with (2 ^ 256). unfold secp256k1N in Hv. lia.
Qed.

Lemma asScalar_Ok it b : asScalar it = Ok b ↔ it = Rlp.Str b ∧ scalar_ok b.
Proof.
  unfold asScalar. rewrite bind_Ok. setoid_rewrite bind_Ok. split.
  - intros (b' & ->%asBytes_Ok & [] & [Hn Hl]%checkIntegerField_Ok & H).
    destruct (Z.eqb_spec (be_value b') 0), (Z.leb_spec secp256k1N (be_value b')); cbn [orb] in H; try done.
    injection H as ->. pose proof (be_value_range b). split; [done|]. split; [done|lia].
  - intros [-> Hs]. pose proof (scalar_length b Hs) as Hl. destruct Hs as [Hn Hv].
    exists b. split; [done|]. exists tt. split; [apply checkIntegerField_Ok; split; [done|lia]|].
    by rewrite (proj2 (Z.eqb_neq _ _)), (proj2 (Z.leb_gt _ _)) by lia.
Qed.

Lemma parseKey_Ok it k : parseKey it = Ok k ↔ it = Rlp.Str (arr k).
Proof.
  unfold parseKey. rewrite bind_Ok. split.
  - intros (b & ->%asBytes_Ok & H). destruct (Z.eqb_spec (zlen b) 32); cbn [negb] in H; [|done].
    assert (copy32 b = k) as <- by congruence. by rewrite arr_copy32 by lia.
  - intros ->. exists (arr k). split; [done|]. by rewrite arr_length, copy32_arr.
Qed.

Lemma Forall2_fmap_spec {A B} (f : B → A) l k : Forall2 (λ x y, x = f y) l k ↔ l = f <$> k.
Proof.
  split; [by induction 1 as [|x y l k -> _ ->]|]. intros ->. induction k; constructor; auto.
Qed.

Lemma each_map {A B} (f : A → outcome error B) (g : B → A) l k :
  (∀ x y, f x = Ok y ↔ x = g y) → each (λ _, f) 0 l = Ok k ↔ l = g <$> k.
Proof.
  intros Hf. rewrite each_Forall2, <- Forall2_fmap_spec.
  split; intros HF; (eapply Forall2_impl; [exact HF|]); intros x y; apply Hf.
Qed.

Lemma parseEntry_Ok it e : parseEntry it = Ok e ↔ it = entry_item e.
Proof.
  unfold parseEntry. rewrite bind_Ok. split.
  - intros (l & ->%asList_Ok & H). destruct (Z.eqb_spec (zlen l) 2) as [Hl|]; cbn [negb] in H; [|done].
    destruct l as [|x [|y [|]]]; simpl in Hl; try lia.
    apply bind_Ok in H as (e0 & [= <-] & H). apply bind_Ok in H as (ab & ->%asBytes_Ok & H).
    destruct (Z.eqb_spec (zlen ab) 20); cbn [negb] in H; [|done].
    apply bind_Ok in H as (e1 & [= <-] & H). apply bind_Ok in H as (sl & ->%asList_Ok & H).
    apply bind_Ok in H as (ks & ->%(each_map _ (λ k, Rlp.Str (arr k)) _ _ parseKey_Ok) & H).
    assert (Entry (copy20 ab) ks = e) as <- by congruence. unfold entry_item. cbn [EAddress StorageKeys].
    by rewrite arr20_copy20 by lia.
  - intros ->. destruct e as [a ks]. eexists. split; [reflexivity|]. cbn [length]. cbn [negb Z.eqb].
    change (Z.of_nat 2 =? 2) with true. cbn [negb].
    apply bind_Ok. eexists. split; [reflexivity|]. apply bind_Ok. eexists. split; [reflexivity|].
    cbn [EAddress StorageKeys]. rewrite arr20_length. change (Z.of_nat 20 =? 20) with true. cbn [negb].
    apply bind_Ok. eexists. split; [reflexivity|]. apply bind_Ok. eexists. split; [reflexivity|].
    apply bind_Ok. eexists. split; [by apply (each_map _ (λ k, Rlp.Str (arr k)) _ _ parseKey_Ok)|].
    by rewrite copy20_arr20.
Qed.

Lemma parseAccessList_Ok it l : parseAccessList it = Ok l ↔ it = access_item l.
Proof.
  unfold parseAccessList. rewrite bind_Ok. setoid_rewrite (each_map _ entry_item _ _ parseEntry_Ok).
  setoid_rewrite asList_Ok. unfold access_item. naive_solver.
Qed.

Lemma yParity_Ok v c : yParity v = Ok c ↔ v = [] ∧ c = x00 ∨ v = [x01] ∧ c = x01.
Proof.
  destruct v as [|x [|y v]]; cbn [yParity]; [naive_solver| |naive_solver].
  pose proof (b2z_range x). destruct (Z.eqb_spec (b2z x) 0) as [H0|H0].
  - split; [done|]. intros [[? _]|[[= ->] _]]; done.
  - destruct (Z.ltb_spec 1 (b2z x)) as [H1|H1].
    + split; [done|]. intros [[? _]|[[= ->] _]]; [done|]. by vm_compute in H1.
    + assert (x = x01) as -> by (apply b2z_inj; change (b2z x01) with 1; lia). naive_solver.
Qed.

(** ** What a decoded transaction denotes *)

Definition u256 (x : option Z) : Prop := ∃ n, x = Some n ∧ 0 ≤ n < 2 ^ 256.

(** The fields that are signed, in order. *)
Definition base_items (d : DecodedTx) : list Rlp.item :=
  let tail := [uint_item (GasLimit d); addr_item (To d); big_item (Value d); Rlp.Str (Data d)] in
  match b2z (Type' d) with
  | 0 => [uint_item (Nonce d); big_item (GasPrice d)] ++ tail
  | 1 => [big_item (ChainID d); uint_item (Nonce d); big_item (GasPrice d)] ++ tail ++ [access_item (AccessList d)]
  | _ => [big_item (ChainID d); uint_item (Nonce d); big_item (MaxPriorityFeePerGas d); big_item (MaxFeePerGas d)]
           ++ tail ++ [access_item (AccessList d)]
  end.

(** The EIP-2718 type byte in front of a typed transaction. *)
Definition type_prefix (d : DecodedTx) : bytes := if b2z (Type' d) =? 0 then [] else [Type' d].

(** The signed transaction: the fields, then v, r and s. *)
Definition tx_item (d : DecodedTx) : Rlp.item :=
  Rlp.Lst (base_items d ++ [Rlp.Str (SigV d); Rlp.Str (SigR d); Rlp.Str (SigS d)]).
Definition tx_bytes (d : DecodedTx) : bytes := type_prefix d ++ Rlp.encode (tx_item d).

(** The pre-image of the signing hash; EIP-155 appends the chain ID and two zeros. *)
Definition signing_preimage (d : DecodedTx) : bytes :=
  type_prefix d ++ Rlp.encode (Rlp.Lst (base_items d ++
    match b2z (Type' d), ChainID d with
    | 0, Some c => [big_item (Some c); Rlp.Str []; Rlp.Str []]
    | _, _ => []
    end)).

(** The recovery identifier v carries. *)
Definition recovery_id (d : DecodedTx) : Z :=
  let v := be_value (SigV d) in
  match b2z (Type' d) with
  | 0 => match ChainID d with None => v - 27 | Some _ => (v - 35) `mod` 2 end
  | _ => v
  end.

(** Which fields each family has, and the shape of v. *)
Definition family_wf (d : DecodedTx) : Prop :=
  match b2z (Type' d) with
  | 0 =>
      u256 (GasPrice d) ∧ MaxPriorityFeePerGas d = None ∧ MaxFeePerGas d = None ∧ AccessList d = [] ∧
      no_lead (SigV d) ∧ (length (SigV d) ≤ 32)%nat ∧
      let v := be_value (SigV d) in
      (v = 27 ∨ v = 28) ∧ ChainID d = None ∨ 35 ≤ v ∧ ChainID d = Some ((v - 35) `div` 2)
  | 1 =>
      u256 (ChainID d) ∧ u256 (GasPrice d) ∧ MaxPriorityFeePerGas d = None ∧ MaxFeePerGas d = None ∧
      (SigV d = [] ∨ SigV d = [x01])
  | 2 =>
      u256 (ChainID d) ∧ u256 (MaxPriorityFeePerGas d) ∧ u256 (MaxFeePerGas d) ∧ GasPrice d = None ∧
      (SigV d = [] ∨ SigV d = [x01])
  | _ => False
  end.

Record tx_wf (d : DecodedTx) : Prop := {
  wf_nonce : is_u64 (Nonce d);
  wf_gas : is_u64 (GasLimit d);
  wf_value : u256 (Value d);
  wf_family : family_wf d;
  wf_r : scalar_ok (SigR d);
  wf_s : scalar_ok (SigS d)
}.

Lemma big_item_Some n : big_item (Some n) = uint_item n.
Proof. done. Qed.

Lemma index_inv {E A} (l : list A) i x : index (E := E) l i = Ok x ↔ l !! i = Some x.
Proof. unfold index. destruct (l !! i); naive_solver. Qed.

(** Read the fields off a successful run: split the binds, then invert each
    field decoder. *)
Ltac split_binds H := repeat (apply bind_Ok in H as (? & ? & H)).
Ltac invert_fields := repeat match goal with
  | Hx : index _ _ = Ok _ |- _ => apply index_inv in Hx; cbn in Hx; injection Hx as <-
  | Hx : fieldErr _ = Ok _ |- _ => apply wrap_err_Ok in Hx
  | Hx : asUint64 _ = Ok _ |- _ => apply asUint64_Ok in Hx as [? ->]
  | Hx : asBigInt _ = Ok _ |- _ => apply asBigInt_Ok in Hx as (? & -> & ? & ->)
  | Hx : asAddress _ = Ok _ |- _ => apply asAddress_Ok in Hx as ->
  | Hx : asBytes _ = Ok _ |- _ => apply asBytes_Ok in Hx as ->
  | Hx : asScalar _ = Ok _ |- _ => apply asScalar_Ok in Hx as [-> ?]
  | Hx : parseAccessList _ = Ok _ |- _ => apply parseAccessList_Ok in Hx as ->
  | Hx : checkIntegerField _ = Ok ?u |- _ => destruct u; apply checkIntegerField_Ok in Hx as [? ?]
  end.

(** Run a field decoder on the item it accepts. *)
Ltac run_field := apply bind_Ok; eexists; split;
  [ first [ apply index_inv; reflexivity
          | apply wrap_err_Ok;
            first [ apply asUint64_Ok; refine (conj _ eq_refl); assumption
                  | apply asBigInt_Ok; refine (ex_intro _ _ (conj eq_refl (conj _ eq_refl))); assumption
                  | apply asAddress_Ok; reflexivity
                  | apply asBytes_Ok; reflexivity
                  | apply asScalar_Ok; split; [reflexivity|eassumption]
                  | apply parseAccessList_Ok; reflexivity
                  | apply checkIntegerField_Ok; split; eassumption ] ] | ].

Ltac encode_items := rewrite ?EncodeUint64_item, ?encodeBig_item, ?encodeAddr_item, ?encodeBytes_item,
  ?encodeAccessList_item by assumption.

Section Decode.
Context `{K : Keccak, D : Dcrd}.

(** The last step of every family. *)
Definition sender_ok (d : DecodedTx) : Prop :=
  ecrecoverSender (SigR d) (SigS d) (z2b (recovery_id d)) (keccak256 (signing_preimage d)) = Ok (Sender d).

(** The recovered sender, once the fields are known. *)
Ltac show_sender Hs :=
  revert Hs; unfold sender_ok, signing_preimage, recovery_id, base_items, type_prefix;
  cbn [Type' ChainID Nonce GasPrice MaxPriorityFeePerGas MaxFeePerGas GasLimit To Value Data AccessList
       SigV SigR SigS Sender];
  change (b2z x00) with 0; change (b2z x01) with 1; change (b2z x02) with 2;
  cbn [app]; rewrite encode_Lst; cbn [fmap list_fmap]; encode_items; done || (intros Hs; exact Hs).

Ltac typed_fields := match goal with Hy : yParity _ = Ok _, Hs : ecrecoverSender _ _ _ _ = Ok _ |- _ =>
  apply yParity_Ok in Hy;
  split_and!; [reflexivity|reflexivity|split; try assumption; try (by eexists)|];
  [ unfold family_wf; cbn; split_and!; try (by eexists); try done; naive_solver
  | destruct Hy as [[-> ->]|[-> ->]]; show_sender Hs ] end.

Lemma decodeLegacy_fields it raw d : Rlp.Decode raw = Ok it →
  decodeLegacy raw = Ok d → it = tx_item d ∧ Type' d = x00 ∧ tx_wf d ∧ sender_ok d.
Proof.
  intros HD H. unfold decodeLegacy in H. rewrite HD in H.
  apply bind_Ok in H as (it' & [= <-] & H). apply bind_Ok in H as (items & ->%asList_Ok & H).
  destruct (Z.eqb_spec (zlen items) 9) as [Hl|]; cbn [negb] in H; [|done].
  destruct items as [|i0 [|i1 [|i2 [|i3 [|i4 [|i5 [|i6 [|i7 [|i8 [|]]]]]]]]]]; simpl in Hl; try lia.
  split_binds H. invert_fields.
  destruct (negb _ && _ && _) eqn:Hv; [done|].
  match type of H with context [if ?b then (None, _, _) else _] => destruct b eqn:Hpre end.
  all: apply bind_Ok in H as (sender & Hs & H); injection H as <-.
  all: split_and!; [reflexivity|reflexivity|split; try assumption; try (by eexists)|show_sender Hs].
  - unfold family_wf. cbn. split_and!; [by eexists|done..|]. left. apply orb_prop in Hpre. split; [|done].
    destruct Hpre as [?%Z.eqb_eq|?%Z.eqb_eq]; auto.
  - unfold family_wf. cbn. split_and!; [by eexists|done..|]. right. split; [|done].
    apply orb_false_elim in Hpre as [E1 E2]. rewrite E1, E2 in Hv. cbn in Hv. by apply Z.ltb_ge in Hv.
Qed.

Lemma decodeEIP2930_fields it body d : Rlp.Decode body = Ok it →
  decodeEIP2930 body = Ok d → it = tx_item d ∧ Type' d = x01 ∧ tx_wf d ∧ sender_ok d.
Proof.
  intros HD H. unfold decodeEIP2930 in H. rewrite HD in H.
  apply bind_Ok in H as (it' & [= <-] & H). apply bind_Ok in H as (items & ->%asList_Ok & H).
  destruct (Z.eqb_spec (zlen items) 11) as [Hl|]; cbn [negb] in H; [|done].
  destruct items as [|i0 [|i1 [|i2 [|i3 [|i4 [|i5 [|i6 [|i7 [|i8 [|i9 [|i10 [|]]]]]]]]]]]]; simpl in Hl; try lia.
  split_binds H. injection H as <-. invert_fields. typed_fields.
Qed.

Lemma decodeEIP1559_fields it body d : Rlp.Decode body = Ok it →
  decodeEIP1559 body = Ok d → it = tx_item d ∧ Type' d = x02 ∧ tx_wf d ∧ sender_ok d.
Proof.
  intros HD H. unfold decodeEIP1559 in H. rewrite HD in H.
  apply bind_Ok in H as (it' & [= <-] & H). apply bind_Ok in H as (items & ->%asList_Ok & H).
  destruct (Z.eqb_spec (zlen items) 12) as [Hl|]; cbn [negb] in H; [|done].
  destruct items as [|i0 [|i1 [|i2 [|i3 [|i4 [|i5 [|i6 [|i7 [|i8 [|i9 [|i10 [|i11 [|]]]]]]]]]]]]]; simpl in Hl; try lia.
  split_binds H. injection H as <-. invert_fields. typed_fields.
Qed.

(** The converses: the items of a well-formed transaction are accepted. *)

Ltac plain_items HD :=
  unfold tx_item, base_items in HD;
  cbn [Type' ChainID Nonce GasPrice MaxPriorityFeePerGas MaxFeePerGas GasLimit To Value Data AccessList
       SigV SigR SigS Sender] in HD;
  change (b2z x00) with 0 in HD; change (b2z x01) with 1 in HD; change (b2z x02) with 2 in HD; cbn [app] in HD.

Lemma decodeLegacy_accepts raw d : Rlp.Decode raw = Ok (tx_item d) →
  Type' d = x00 → tx_wf d → sender_ok d → decodeLegacy raw = Ok d.
Proof.
  intros HD HT [Hn Hg (vl & Hvl & Hvr) Hf Hr Hs] Hsend. destruct d. cbn in HT, Hn, Hg, Hvl, Hr, Hs. subst.
  destruct Hf as ((gp & HG & Hgr) & HM1 & HM2 & HA & Hnl & HlV & Hv). cbn in HG, HM1, HM2, HA, Hnl, HlV, Hv. subst.
  plain_items HD. unfold decodeLegacy. rewrite HD. apply bind_Ok. eexists. split; [reflexivity|].
  apply bind_Ok. eexists. split; [reflexivity|]. cbn [length app]. change (negb (Z.of_nat 9 =? 9)) with false. cbv iota.
  do 19 run_field.
  destruct Hv as [[Hv ->]|[Hv ->]].
  - replace (negb (be_value SigV0 =? 27) && negb (be_value SigV0 =? 28) && (be_value SigV0 <? 35)) with false
      by (destruct Hv as [->| ->]; reflexivity).
    replace ((be_value SigV0 =? 27) || (be_value SigV0 =? 28)) with true by (destruct Hv as [->| ->]; reflexivity).
    apply bind_Ok. eexists. split; [|reflexivity]. show_sender Hsend.
  - rewrite (proj2 (Z.ltb_ge _ _) Hv), andb_false_r.
    rewrite (proj2 (Z.eqb_neq _ 27)), (proj2 (Z.eqb_neq _ 28)) by lia. cbn [orb].
    apply bind_Ok. eexists. split; [|reflexivity]. show_sender Hsend.
Qed.

Lemma decodeEIP2930_accepts body d : Rlp.Decode body = Ok (tx_item d) →
  Type' d = x01 → tx_wf d → sender_ok d → decodeEIP2930 body = Ok d.
Proof.
  intros HD HT [Hn Hg (vl & Hvl & Hvr) Hf Hr Hs] Hsend. destruct d. cbn in HT, Hn, Hg, Hvl, Hr, Hs. subst.
  destruct Hf as ((c & HC & Hcr) & (gp & HG & Hgr) & HM1 & HM2 & Hv). cbn in HC, HG, HM1, HM2, Hv. subst.
  plain_items HD. unfold decodeEIP2930. rewrite HD. apply bind_Ok. eexists. split; [reflexivity|].
  apply bind_Ok. eexists. split; [reflexivity|]. cbn [length app]. change (negb (Z.of_nat 11 =? 11)) with false. cbv iota.
  do 22 run_field.
  destruct Hv as [->| ->]; (apply bind_Ok; eexists; split; [reflexivity|]);
    (apply bind_Ok; eexists; split; [show_sender Hsend|reflexivity]).
Qed.

Lemma decodeEIP1559_accepts body d : Rlp.Decode body = Ok (tx_item d) →
  Type' d = x02 → tx_wf d → sender_ok d → decodeEIP1559 body = Ok d.
Proof.
  intros HD HT [Hn Hg (vl & Hvl & Hvr) Hf Hr Hs] Hsend. destruct d. cbn in HT, Hn, Hg, Hvl, Hr, Hs. subst.
  destruct Hf as ((c & HC & Hcr) & (mp & HP & Hpr) & (mf & HF & Hfr) & HM & Hv). cbn in HC, HP, HF, HM, Hv. subst.
  plain_items HD. unfold decodeEIP1559. rewrite HD. apply bind_Ok. eexists. split; [reflexivity|].
  apply bind_Ok. eexists. split; [reflexivity|]. cbn [length app]. change (negb (Z.of_nat 12 =? 12)) with false. cbv iota.
  do 24 run_field.
  destruct Hv as [->| ->]; (apply bind_Ok; eexists; split; [reflexivity|]);
    (apply bind_Ok; eexists; split; [show_sender Hsend|reflexivity]).
Qed.

(** ** Nesting and prefixes *)

Lemma depth_access l : depth (access_item l) ≤ 3.
Proof.
  cbn [depth access_item]. enough (foldr Z.max 0 (depth <$> (entry_item <$> l)) ≤ 2) by lia.
  induction l as [|e l IH]; [done|]. cbn [fmap list_fmap foldr] in *. apply Z.max_lub; [|done].
  cbn. enough (foldr Z.max 0 (depth <$> ((λ k : array32, Rlp.Str (arr k)) <$> StorageKeys e)) ≤ 0) by lia.
  induction (StorageKeys e) as [|k ks IHk]; [done|]. cbn in *. lia.
Qed.

Lemma depth_Lst_bound l n : 0 ≤ n → Forall (λ x, depth x ≤ n) l → depth (Rlp.Lst l) ≤ n + 1.
Proof.
  intros Hn HF. cbn [depth]. enough (foldr Z.max 0 (depth <$> l) ≤ n) by lia.
  induction HF as [|x l Hx _ IH]; [done|]. cbn in *. lia.
Qed.

Lemma depth_tx_item d : depth (tx_item d) ≤ Rlp.MaxNestingDepth.
Proof.
  transitivity (3 + 1); [|by vm_compute]. apply depth_Lst_bound; [done|]. pose proof (depth_access (AccessList d)).
  apply Forall_app. split; [|repeat constructor; cbn; lia]. unfold base_items.
  repeat case_match; repeat (apply Forall_cons; split); try (cbn; lia); try done; constructor.
Qed.

Lemma encode_Lst_head l : zlen (Rlp.encode (Rlp.Lst l)) < 2 ^ 63 →
  ∃ p b, Rlp.encode (Rlp.Lst l) = p :: b ∧ 0xc0 ≤ b2z p.
Proof.
  intros H. rewrite encode_Lst in *. destruct (EncodeList_form (Rlp.encode <$> l) []) as (p & b & E & Hp & _).
  { by rewrite app_nil_r. } exists p, b. by rewrite app_nil_r in E.
Qed.

Lemma Decode_tx_item d : zlen (Rlp.encode (tx_item d)) ≤ Rlp.MaxInputLen →
  Rlp.Decode (Rlp.encode (tx_item d)) = Ok (tx_item d).
Proof. intros H. apply Decode_encode_ok; [apply depth_tx_item|done]. Qed.

Lemma Decode_size b it : Rlp.Decode b = Ok it → zlen b ≤ Rlp.MaxInputLen.
Proof.
  unfold Rlp.Decode. destruct b as [|c b]; [done|]. destruct (Z.ltb_spec Rlp.MaxInputLen (zlen (c :: b))); done.
Qed.

(** ** The characterisation *)

Lemma family_type d : family_wf d → Type' d = x00 ∨ Type' d = x01 ∨ Type' d = x02.
Proof.
  unfold family_wf. intros H.
  destruct (b2z (Type' d)) as [|[[]|[]|]|] eqn:E; try done; [left|right; right|right; left]; by apply b2z_inj.
Qed.

(** An accepted RLP body is the encoding of the item it decodes to. *)
Lemma accepted_body body it d : Rlp.Decode body = Ok it → it = tx_item d →
  body = Rlp.encode (tx_item d) ∧ zlen (Rlp.encode (tx_item d)) ≤ Rlp.MaxInputLen.
Proof.
  intros HD ->. pose proof (Decode_size _ _ HD). by apply Decode_canonical_ok in HD as <-.
Qed.

Lemma decoded_body {A} (m : outcome Rlp.error Rlp.item) (f : Rlp.item → outcome error A) d :
  mbind f (wrap_err (λ _, ErrDecodeFailed) m) = Ok d → ∃ it, m = Ok it.
Proof. rewrite bind_Ok. intros (it & H%wrap_err_Ok & _). eauto. Qed.

Lemma DecodeTransaction_spec raw d :
  DecodeTransaction raw = Ok d ↔
  raw = tx_bytes d ∧ tx_wf d ∧ zlen (Rlp.encode (tx_item d)) ≤ Rlp.MaxInputLen ∧ sender_ok d.
Proof.
  unfold tx_bytes, type_prefix. split.
  - destruct raw as [|c body]; [done|]. cbn [DecodeTransaction].
    destruct (Z.leb_spec 0xc0 (b2z c)) as [Hc|Hc]; [|destruct (Z.eqb_spec (b2z c) 1) as [H1|H1];
      [|destruct (Z.eqb_spec (b2z c) 2) as [H2|H2]; [|done]]]; intros H; pose proof H as Hd.
    all: apply decoded_body in Hd as [it HD].
    + destruct (decodeLegacy_fields _ _ _ HD H) as (E & -> & Hwf & Hs).
      destruct (accepted_body _ _ _ HD E) as [-> Hl]. done.
    + destruct (decodeEIP2930_fields _ _ _ HD H) as (E & -> & Hwf & Hs).
      destruct (accepted_body _ _ _ HD E) as [-> Hl]. split_and!; try done.
      cbn. f_equal. by apply b2z_inj.
    + destruct (decodeEIP1559_fields _ _ _ HD H) as (E & -> & Hwf & Hs).
      destruct (accepted_body _ _ _ HD E) as [-> Hl]. split_and!; try done.
      cbn. f_equal. by apply b2z_inj.
  - intros (-> & Hwf & Hl & Hs). pose proof (Decode_tx_item d Hl) as HD.
    destruct (family_type d (wf_family d Hwf)) as [HT|[HT|HT]]; rewrite HT.
    + destruct (encode_Lst_head (base_items d ++ [Rlp.Str (SigV d); Rlp.Str (SigR d); Rlp.Str (SigS d)]))
        as (p & b & E & Hp); [change Rlp.MaxInputLen with 10485760 in Hl; unfold tx_item in Hl; lia|].
      change (Rlp.encode (tx_item d) = p :: b) in E.
      change (DecodeTransaction (Rlp.encode (tx_item d)) = Ok d).
      transitivity (decodeLegacy (Rlp.encode (tx_item d))); [|by apply decodeLegacy_accepts].
      rewrite E. cbn [DecodeTransaction]. by rewrite (proj2 (Z.leb_le _ _) Hp).
    + by apply decodeEIP2930_accepts.
    + by apply decodeEIP1559_accepts.
Qed.

(** [DecodeTransaction] is characterised completely.  It accepts a byte string with
    result [d] exactly when the string is the canonical signed encoding of [d], the
    fields of [d] are within their widths and those of its family, r and s are
    scalars in minimal form, the encoding is within the size limit, and the sender is
    the address recovered from the signature over the recomputed signing pre-image. *)
Theorem DecodeTransaction_iff raw d :
  DecodeTransaction raw = Ok d ↔
  raw = tx_bytes d ∧ tx_wf d ∧ zlen (Rlp.encode (tx_item d)) ≤ Rlp.MaxInputLen ∧
  ecrecoverSender (SigR d) (SigS d) (z2b (recovery_id d)) (keccak256 (signing_preimage d)) = Ok (Sender d).
Proof. apply DecodeTransaction_spec. Qed.

(** A decoded transaction has one encoding: no two distinct byte strings decode to
    the same transaction, whatever its family. *)
Theorem DecodeTransaction_injective raw1 raw2 d :
  DecodeTransaction raw1 = Ok d → DecodeTransaction raw2 = Ok d → raw1 = raw2.
Proof. rewrite !DecodeTransaction_spec. intros (-> & _) (-> & _). done. Qed.
End Decode.
