(* ===== verification/WalletRoundtrip.v ===== *)
(** * Signing and decoding transactions

    What [SignTx] produces is what [DecodeTransaction] accepts, with the fields and
    the sender recovered, provided neither half of the signature begins with a zero
    byte; when one does, the output is not a transaction.  Validation and personal
    messages follow. *)
From S2P Require Import Prelude GoBig Keccak Rlp RlpProofs Secp256k1.
From S2P Require Import Ethereum Wallet WalletProofs.
Import Secp256k1 Wallet.
#[local] Open Scope Z_scope.
#[local] Arguments be_value : simpl never.
#[local] Arguments big_bytes : simpl never.

(** ** Rebuilding the transaction from its decoded view *)

Definition as_tx (d : DecodedTx) : Transaction :=
  match b2z (Type' d) with
  | 0 => Legacy (mkLegacy (ChainID d) (Nonce d) (GasPrice d) (GasLimit d) (To d) (Value d) (Data d))
  | 1 => Eip2930 (mk2930 (ChainID d) (Nonce d) (GasPrice d) (GasLimit d) (To d) (Value d) (Data d) (AccessList d))
  | _ => Eip1559 (mk1559 (ChainID d) (Nonce d) (MaxPriorityFeePerGas d) (MaxFeePerGas d) (GasLimit d) (To d)
           (Value d) (Data d) (AccessList d))
  end.

(** The decoded view of a transaction signed with the given components. *)
Definition view (tx : Transaction) (recID : Z) (r s : bytes) (sender : Ethereum.Address) : DecodedTx :=
  let big (x : option Z) := Some (default 0 x) in
  match tx with
  | Legacy t => mkDecoded x00 (big (lChainID t)) (lNonce t) (big (lGasPrice t)) None None (lGasLimit t) (lTo t)
      (big (lValue t)) (lData t) [] (big_bytes (default 0 (lChainID t) * 2 + (recID + 35))) r s sender
  | Eip2930 t => mkDecoded x01 (big (aChainID t)) (aNonce t) (big (aGasPrice t)) None None (aGasLimit t) (aTo t)
      (big (aValue t)) (aData t) (aAccessList t) (big_bytes recID) r s sender
  | Eip1559 t => mkDecoded x02 (big (fChainID t)) (fNonce t) None (big (fMaxPriorityFeePerGas t))
      (big (fMaxFeePerGas t)) (fGasLimit t) (fTo t) (big (fValue t)) (fData t) (fAccessList t)
      (big_bytes recID) r s sender
  | OtherTx t _ _ => mkDecoded t None 0 None None None 0 None None [] [] [] r s sender
  end.

(** A quantity that fits the 256 bits of its field; nil counts as zero. *)
Definition fits (x : option Z) : Prop := 0 ≤ default 0 x < 2 ^ 256.

(** A transaction a client may hand to [SignTx]: one of the three families, a
    positive chain ID, every quantity within its field. *)
Definition tx_ok (tx : Transaction) : Prop :=
  match tx with
  | Legacy t => is_u64 (lNonce t) ∧ is_u64 (lGasLimit t) ∧ fits (lGasPrice t) ∧ fits (lValue t) ∧
      0 < default 0 (lChainID t) ∧ default 0 (lChainID t) * 2 + 36 < 2 ^ 256
  | Eip2930 t => is_u64 (aNonce t) ∧ is_u64 (aGasLimit t) ∧ fits (aGasPrice t) ∧ fits (aValue t) ∧
      fits (aChainID t) ∧ 0 < default 0 (aChainID t)
  | Eip1559 t => is_u64 (fNonce t) ∧ is_u64 (fGasLimit t) ∧ fits (fMaxPriorityFeePerGas t) ∧
      fits (fMaxFeePerGas t) ∧ fits (fValue t) ∧ fits (fChainID t) ∧ 0 < default 0 (fChainID t)
  | OtherTx _ _ _ => False
  end.

Lemma big_item_default x : big_item x = big_item (Some (default 0 x)).
Proof. by destruct x. Qed.

Lemma no_chain_id_false x : 0 < default 0 x → no_chain_id x = false.
Proof. destruct x as [n|]; cbn; [|lia]. intros H. by apply Z.eqb_neq; lia. Qed.

Ltac plain := cbn [Type' ChainID Nonce GasPrice MaxPriorityFeePerGas MaxFeePerGas GasLimit To Value Data AccessList
  SigV SigR SigS Sender lChainID lNonce lGasPrice lGasLimit lTo lValue lData
  aChainID aNonce aGasPrice aGasLimit aTo aValue aData aAccessList
  fChainID fNonce fMaxPriorityFeePerGas fMaxFeePerGas fGasLimit fTo fValue fData fAccessList view as_tx].
Ltac types := change (b2z x00) with 0; change (b2z x01) with 1; change (b2z x02) with 2.

(** Unfold both sides of an encoding equation to lists of items. *)
Ltac items := unfold tx_bytes, tx_item, signing_preimage, base_items, type_prefix; plain; types; cbn [app Z.eqb];
  rewrite ?encode_Lst; cbn [fmap list_fmap]; encode_items; rewrite <- ?big_item_default.

Section Rebuild.
Context `{K : Keccak, D : Dcrd}.

Lemma as_tx_EncodeSigned d c : tx_wf d → ChainID d = Some c → c ≠ 0 →
  EncodeSigned (as_tx d) (SigR d) (SigS d) (SigV d) = Ok (tx_bytes d).
Proof.
  intros [Hn Hg _ Hf _ _] Hc Hz. pose proof (family_type d Hf) as HT.
  assert (no_chain_id (ChainID d) = false) as Hid by (rewrite Hc; by apply Z.eqb_neq).
  destruct d. cbn in *. destruct HT as [->|[->| ->]]; unfold as_tx; plain; types;
    cbn [EncodeSigned]; unfold Legacy_EncodeSigned, Eip2930_EncodeSigned, Eip1559_EncodeSigned; plain;
    rewrite Hid; f_equal; items; try done.
  all: destruct Hf as (_ & _ & _ & _ & Hv); cbn in Hv; destruct Hv as [->| ->]; reflexivity.
Qed.

Lemma as_tx_SigningHash d c : tx_wf d → ChainID d = Some c → c ≠ 0 →
  SigningHash (as_tx d) = Ok (keccak256 (signing_preimage d)).
Proof.
  intros [Hn Hg _ Hf _ _] Hc Hz. pose proof (family_type d Hf) as HT.
  assert (no_chain_id (ChainID d) = false) as Hid by (rewrite Hc; by apply Z.eqb_neq).
  destruct d. cbn in *. destruct HT as [->|[->| ->]]; unfold as_tx; plain; types;
    cbn [SigningHash]; unfold Legacy_SigningHash, Eip2930_SigningHash, Eip1559_SigningHash; plain;
    rewrite Hid; f_equal; f_equal; rewrite ?Hc; items; done.
Qed.

(** C15.  What is decoded is what was signed.  For every accepted transaction that names a
    chain, encoding the decoded fields with the decoded v, r and s gives back the
    input, and the sender is the address recovered from r and s over the signing hash
    of those very fields. *)
Theorem DecodeTransaction_sound raw d c : DecodeTransaction raw = Ok d → ChainID d = Some c → c ≠ 0 →
  EncodeSigned (as_tx d) (SigR d) (SigS d) (SigV d) = Ok raw ∧
  ∃ h, SigningHash (as_tx d) = Ok h ∧
    ecrecoverSender (SigR d) (SigS d) (z2b (recovery_id d)) h = Ok (Sender d).
Proof.
  intros (-> & Hwf & _ & Hs)%DecodeTransaction_spec Hc Hz.
  split; [by eapply as_tx_EncodeSigned|]. eexists. split; [by eapply as_tx_SigningHash|done].
Qed.

Lemma view_SigningHash tx recID r s a : tx_ok tx →
  SigningHash tx = Ok (keccak256 (signing_preimage (view tx recID r s a))).
Proof.
  destruct tx as [t|t|t|]; [..|done]; intros Hok; cbn in Hok; destruct Hok as (Hn & Hg & Hok); cbn [SigningHash];
    unfold Legacy_SigningHash, Eip2930_SigningHash, Eip1559_SigningHash;
    rewrite no_chain_id_false by tauto; f_equal; f_equal; items; done.
Qed.

Lemma view_EncodeSigned tx (recID : byte) r s a v : tx_ok tx →
  assembleV tx recID = Ok v → EncodeSigned tx r s v = Ok (tx_bytes (view tx (b2z recID) r s a)).
Proof.
  destruct tx as [t|t|t|]; [..|done]; intros Hok; cbn in Hok; destruct Hok as (Hn & Hg & Hok); cbn [EncodeSigned];
    unfold Legacy_EncodeSigned, Eip2930_EncodeSigned, Eip1559_EncodeSigned, assembleV; cbn [Type_]; types;
    rewrite no_chain_id_false by tauto.
  - destruct (lChainID t) as [c|] eqn:Ec; [|cbn in Hok; lia]. cbn in Hok. cbn [no_chain_id].
    rewrite (proj2 (Z.eqb_neq _ _)) by lia. intros [= <-]. f_equal. items. rewrite Ec. done.
  - intros [= <-]. f_equal. items. done.
  - intros [= <-]. f_equal. items. done.
Qed.

Lemma assembleV_ok tx recID : tx_ok tx → is_Some (match assembleV tx recID with Ok v => Some v | _ => None end).
Proof.
  destruct tx as [t|t|t|]; [..|done]; intros Hok; unfold assembleV; cbn [Type_]; types; [|by eexists..].
  cbn in Hok. destruct (lChainID t) as [c|]; [|cbn in Hok; lia]. cbn in Hok.
  rewrite (proj2 (Z.eqb_neq _ _)) by lia. by eexists.
Qed.

Lemma SignTx_form priv tx h sig recID a : tx_ok tx → SigningHash tx = Ok h →
  SignRecoverable priv h = Ok (sig, recID) →
  SignTx (NewWallet (Some priv)) (Some tx) =
    Ok (tx_bytes (view tx (b2z recID) (take 32 sig) (take 32 (drop 32 sig)) a)).
Proof.
  intros Hok Hh Hs. unfold SignTx. cbn [the_key NewWallet mjoin option_join]. destruct (assembleV_ok tx recID Hok) as [v Hv].
  destruct (assembleV tx recID) as [v'| | |] eqn:Ev; try done.
  apply bind_Ok. exists h. split; [done|]. apply bind_Ok. exists (sig, recID). split; [by apply wrap_err_Ok|].
  apply bind_Ok. exists v'. split; [done|]. by apply view_EncodeSigned.
Qed.

Lemma view_wf tx recID r s a : tx_ok tx → 0 ≤ recID ≤ 1 → scalar_ok r → scalar_ok s →
  tx_wf (view tx recID r s a).
Proof.
  intros Hok Hid Hr Hs. assert (∀ x, fits x → u256 (Some (default 0 x))) as Hu by (intros x Hx; by eexists).
  assert (big_bytes recID = [] ∨ big_bytes recID = [x01]) as Hb.
  { assert (recID = 0 ∨ recID = 1) as [->| ->] by lia; auto. }
  destruct tx as [t|t|t|]; [..|done]; cbn in Hok; split; plain; try done; try (by apply Hok); try (by apply Hu, Hok);
    unfold family_wf; plain; types; split_and!; try done; try (by apply Hu, Hok).
  - apply big_bytes_no_lead.
  - apply big_bytes_length. change (256 ^ Z.of_nat 32) with (2 ^ 256). lia.
  - right. rewrite big_bytes_value, Z.abs_eq by lia. split; [lia|]. f_equal. div_lia.
Qed.
End Rebuild.

Section Roundtrip.
Context `{K : Keccak, D : Dcrd, L : !DcrdLaws}.

Lemma SigningHash_length tx h : tx_ok tx → SigningHash tx = Ok h → length h = 32%nat.
Proof.
  intros Hok Hh. rewrite (view_SigningHash tx 0 [] [] zero20) in Hh by done. injection Hh as <-. apply SumBytes_length.
Qed.

Lemma right_align_full {E} b : length b = 32%nat → right_align (E := E) 32 b = Ok b.
Proof. intros Hb. rewrite right_align_ok by lia. by rewrite Hb. Qed.

(** Recovery from the components of a recoverable signature gives the signer. *)
Lemma ecrecover_signer priv r s recID h a : length r = 32%nat → length s = 32%nat →
  RecoverPubKey (r ++ s) h recID = Ok (Public priv) →
  Ethereum.FromPublicKey (Some (Public priv)) = Ok a →
  ecrecoverSender r s recID h = Ok a.
Proof.
  intros Hr Hs Hrec Ha. unfold ecrecoverSender. rewrite Hr, Hs, !right_align_full by done. cbn [Z.ltb].
  change (Z.of_nat 32) with 32. cbn [Z.ltb Z.compare Pos.compare Pos.compare_cont orb].
  apply bind_Ok. exists r. split; [done|]. apply bind_Ok. exists s. split; [done|].
  apply bind_Ok. exists (Public priv). split; [by apply wrap_err_Ok|]. by apply wrap_err_Ok.
Qed.

Lemma wallet_address priv : ∃ a, Ethereum.FromPublicKey (Some (Public priv)) = Ok a ∧
  Address (NewWallet (Some priv)) = Ok a.
Proof.
  destruct (FromPublicKey_ok (Public priv)) as (xy & _ & _ & E). eexists. split; [exact E|].
  apply wrap_err_Ok. exact E.
Qed.

Lemma recovery_id_view tx recID r s a : tx_ok tx → 0 ≤ recID ≤ 1 → recovery_id (view tx recID r s a) = recID.
Proof.
  intros Hok Hid. unfold recovery_id. destruct tx as [t|t|t|]; [..|done]; plain; types; rewrite big_bytes_value;
    cbn in Hok; rewrite Z.abs_eq by lia; [|done..]. div_lia.
Qed.

Lemma SignTx_decoded priv tx h r s recID : tx_ok tx → SigningHash tx = Ok h →
  SignRecoverable priv h = Ok (r ++ s, recID) → length r = 32%nat →
  b2z recID ≤ 1 → no_lead r → no_lead s →
  ∃ raw a, SignTx (NewWallet (Some priv)) (Some tx) = Ok raw ∧ Address (NewWallet (Some priv)) = Ok a ∧
    (zlen raw ≤ Rlp.MaxInputLen → DecodeTransaction raw = Ok (view tx (b2z recID) r s a)).
Proof.
  intros Hok Hh Hsig Hr Hid Hnr Hns. pose proof (SigningHash_length tx h Hok Hh) as Hlen.
  destruct (SignRecoverable_spec priv h Hlen) as (r' & s' & id & E & _ & Hr' & Hs' & Hrv & Hsv & Hrec).
  rewrite E in Hsig. injection Hsig as Ers Eid. apply app_inj_1 in Ers as [-> ->]; [|lia].
  destruct (wallet_address priv) as (a & Ha & HA). rewrite Eid in E, Hrec.
  pose proof (SignTx_form priv tx h (r ++ s) recID a Hok Hh E) as HS.
  rewrite take_app_length', drop_app_length', (take_ge s) in HS by lia.
  eexists _, a. split; [exact HS|]. split; [done|]. intros Hl. apply DecodeTransaction_spec.
  pose proof (b2z_range recID). change Secp256k1.order with secp256k1N in *.
  assert (half_order < secp256k1N) by done. split_and!; [done| | |].
  - apply view_wf; [done|lia|split; [done|lia]..].
  - revert Hl. unfold tx_bytes. rewrite length_app. lia.
  - unfold sender_ok. rewrite recovery_id_view, z2b_b2z by (done || lia).
    replace (SigR _) with r by (by destruct tx). replace (SigS _) with s by (by destruct tx).
    replace (Sender _) with a by (by destruct tx).
    apply (ecrecover_signer priv); [done..| |done].
    rewrite (view_SigningHash tx (b2z recID) r s a) in Hh by done. injection Hh as <-. done.
Qed.

(** C14.  Signing round trip.  For a transaction whose quantities fit their fields, whose
    signature has recovery identifier 0 or 1 and whose r and s have no leading zero
    byte, [SignTx] succeeds and, within the size limit, [DecodeTransaction] returns
    exactly the fields that were signed, with the wallet's address as the sender. *)
Theorem SignTx_decodes priv tx h r s recID : tx_ok tx → SigningHash tx = Ok h →
  SignRecoverable priv h = Ok (r ++ s, recID) → length r = 32%nat →
  b2z recID ≤ 1 → no_lead r → no_lead s →
  ∃ raw a, SignTx (NewWallet (Some priv)) (Some tx) = Ok raw ∧ Address (NewWallet (Some priv)) = Ok a ∧
    (zlen raw ≤ Rlp.MaxInputLen → DecodeTransaction raw = Ok (view tx (b2z recID) r s a)).
Proof. apply SignTx_decoded. Qed.

Lemma encode_inj x y : depth x ≤ Rlp.MaxNestingDepth → depth y ≤ Rlp.MaxNestingDepth →
  zlen (Rlp.encode x) ≤ Rlp.MaxInputLen → Rlp.encode x = Rlp.encode y → x = y.
Proof.
  intros Hx Hy Hl E. pose proof (Decode_encode_ok x Hx Hl) as H1. rewrite E in *.
  rewrite (Decode_encode_ok y Hy) in H1 by done. by injection H1.
Qed.

Definition known_type (d : DecodedTx) : Prop := Type' d = x00 ∨ Type' d = x01 ∨ Type' d = x02.

Lemma tx_bytes_head d : known_type d → zlen (Rlp.encode (tx_item d)) < 2 ^ 63 →
  ∃ c b, tx_bytes d = c :: b ∧
    (Type' d = x00 ∧ 0xc0 ≤ b2z c ∧ c :: b = Rlp.encode (tx_item d) ∨
     Type' d = c ∧ 1 ≤ b2z c ≤ 2 ∧ b = Rlp.encode (tx_item d)).
Proof.
  intros HT Hl. unfold tx_bytes, type_prefix. destruct HT as [HT|HT].
  - rewrite HT. destruct (encode_Lst_head _ Hl) as (p & b & E & Hp). change (Rlp.encode (tx_item d) = p :: b) in E.
    exists p, b. rewrite E. split; [done|]. left. done.
  - exists (Type' d), (Rlp.encode (tx_item d)). destruct HT as [->| ->]; (split; [done|]); right;
      (split; [done|]); (split; [vm_compute; split; congruence|done]).
Qed.

(** The signed encoding determines the type and every field. *)
Lemma tx_bytes_inj d d' : known_type d → known_type d' →
  zlen (Rlp.encode (tx_item d')) ≤ Rlp.MaxInputLen → tx_bytes d = tx_bytes d' →
  Type' d = Type' d' ∧ tx_item d = tx_item d'.
Proof.
  intros HT HT' Hl' E. change Rlp.MaxInputLen with 10485760 in Hl'.
  assert (zlen (Rlp.encode (tx_item d)) ≤ 1 + zlen (Rlp.encode (tx_item d'))) as Hl.
  { apply (f_equal length) in E. unfold tx_bytes, type_prefix in E. rewrite !length_app in E.
    destruct (b2z (Type' d') =? 0), (b2z (Type' d) =? 0); cbn [length] in E; lia. }
  destruct (tx_bytes_head d HT) as (c & b & E1 & H1); [lia|].
  destruct (tx_bytes_head d' HT') as (c' & b' & E2 & H2); [lia|].
  rewrite E1, E2 in E. injection E as -> ->.
  assert (∀ x, x = Rlp.encode (tx_item d) → x = Rlp.encode (tx_item d') → tx_item d = tx_item d') as Hinj.
  { intros x -> Ex. apply encode_inj; [apply depth_tx_item..| |done]. rewrite Ex.
    by change Rlp.MaxInputLen with 10485760. }
  destruct H1 as [(T1 & B1 & X1)|(T1 & B1 & X1)], H2 as [(T2 & B2 & X2)|(T2 & B2 & X2)]; try lia.
  - split; [congruence|by eapply Hinj].
  - split; [congruence|by eapply Hinj].
Qed.

(** [EncodeSigned] writes r and s as fixed 32-byte strings although the fields are
    minimal integers, so a signature with a leading zero byte in either half - about
    one in 128 - yields a transaction that [DecodeTransaction] refuses. *)
Theorem SignTx_leading_zero priv tx h r s recID : tx_ok tx → SigningHash tx = Ok h →
  SignRecoverable priv h = Ok (r ++ s, recID) → length r = 32%nat →
  ~ (no_lead r ∧ no_lead s) →
  ∃ raw, SignTx (NewWallet (Some priv)) (Some tx) = Ok raw ∧ ∀ d, DecodeTransaction raw ≠ Ok d.
Proof.
  intros Hok Hh Hsig Hr Hlead. pose proof (SigningHash_length tx h Hok Hh) as Hlen.
  destruct (SignRecoverable_spec priv h Hlen) as (r' & s' & id & E & _ & Hr' & Hs' & _).
  pose proof Hsig as Hsig'. rewrite E in Hsig'. injection Hsig' as Ers _. apply app_inj_1 in Ers as [-> ->]; [|lia].
  pose proof (SignTx_form priv tx h (r ++ s) recID zero20 Hok Hh Hsig) as HS.
  rewrite take_app_length', drop_app_length', (take_ge s) in HS by lia.
  eexists. split; [exact HS|]. intros d (Eb & Hwf & Hl & _)%DecodeTransaction_spec.
  destruct (tx_bytes_inj (view tx (b2z recID) r s zero20) d) as [_ EI]; [|by apply family_type, Hwf|done..|].
  { destruct tx; [..|done]; unfold known_type; cbn; auto. }
  apply Hlead. unfold tx_item in EI. assert (∀ l k, Rlp.Lst l = Rlp.Lst k → l = k) as HLst by congruence.
  apply HLst, app_inj_2 in EI as [_ EI]; [|done]. injection EI as _ ER ES.
  pose proof (wf_r d Hwf) as [Hnr _]. pose proof (wf_s d Hwf) as [Hns _]. rewrite <- ER in Hnr. rewrite <- ES in Hns.
  destruct tx; [..|done]; auto.
Qed.
End Roundtrip.

(** ** Validation *)

Section Validate.
Context `{K : Keccak, D : Dcrd}.

Lemma u256_not_negative x : u256 x → negative x = false.
Proof. intros (n & -> & Hn). apply Z.ltb_ge. lia. Qed.

Lemma checkFieldSanity_ok d : tx_wf d → checkFieldSanity d = Ok tt.
Proof.
  intros [Hn Hg Hv Hf Hr Hs]. unfold checkFieldSanity. rewrite (u256_not_negative _ Hv).
  pose proof (scalar_length _ Hr) as Hlr. pose proof (scalar_length _ Hs) as Hls.
  assert (negative (GasPrice d) = false ∧ negative (MaxPriorityFeePerGas d) = false ∧
    negative (MaxFeePerGas d) = false ∧ negative (ChainID d) = false) as (-> & -> & -> & ->).
  { pose proof (family_type d Hf) as HT. unfold family_wf in Hf. destruct HT as [HT|[HT|HT]]; rewrite HT in Hf;
      cbn in Hf; repeat match goal with Hx : _ ∧ _ |- _ => destruct Hx end;
      repeat match goal with Hx : u256 _ |- _ => apply u256_not_negative in Hx as -> | Hx : _ = None |- _ => rewrite Hx end;
      split_and!; try done.
    match goal with Hx : _ ∨ _ |- _ => destruct Hx as [[_ ->]|[H35 ->]]; [done|] end. apply Z.ltb_ge. div_lia. }
  replace (match To d with Some a => negb (zlen (arr20 a) =? 20) | None => false end) with false
    by (destruct (To d); [by rewrite arr20_length|done]).
  rewrite !(proj2 (Z.eqb_neq _ 0)), !(proj2 (Z.ltb_ge 32 _)) by lia. done.
Qed.

Lemma checkV_ok d : tx_wf d → checkV d = Ok tt.
Proof.
  intros [_ _ _ Hf _ _]. pose proof (family_type d Hf) as HT. unfold checkV. unfold family_wf in Hf.
  destruct HT as [HT|[HT|HT]]; rewrite HT in *; types; cbn in Hf.
  - destruct Hf as (_ & _ & _ & _ & _ & _ & [[[->| ->] _]|[H35 _]]); [done..|].
    rewrite (proj2 (Z.ltb_ge _ 35)), (proj2 (Z.eqb_neq _ 27)), (proj2 (Z.eqb_neq _ 28)) by lia. done.
  - by destruct Hf as (_ & _ & _ & _ & [->| ->]).
  - by destruct Hf as (_ & _ & _ & _ & [->| ->]).
Qed.

(** The chain a transaction commits to, if any, is the expected one. *)
Definition chain_matches (d : DecodedTx) (expected : option Z) : Prop :=
  match ChainID d, expected with Some c, Some e => c = e | _, _ => True end.

#[global] Instance chain_matches_dec d expected : Decision (chain_matches d expected).
Proof. unfold chain_matches. repeat case_match; apply _. Defined.

Lemma checkChainID_eq d expected : tx_wf d → checkChainID d expected =
  if bool_decide (chain_matches d expected) then Ok tt else Err ErrChainIDMismatch.
Proof.
  intros [_ _ _ Hf _ _]. pose proof (family_type d Hf) as HT.
  assert (∀ c, ChainID d = Some c → compareChainID (ChainID d) expected =
    if bool_decide (chain_matches d expected) then Ok tt else Err ErrChainIDMismatch) as Hcmp.
  { intros c Hc. rewrite Hc. destruct expected as [e|]; cbn [compareChainID].
    - assert (chain_matches d (Some e) ↔ c = e) as Hm by (unfold chain_matches; by rewrite Hc).
      rewrite (bool_decide_ext _ _ Hm). destruct (Z.eqb_spec c e); cbn [negb]; by case_bool_decide.
    - rewrite bool_decide_eq_true_2; [done|]. unfold chain_matches. by rewrite Hc. }
  unfold checkChainID. unfold family_wf in Hf.
  destruct HT as [HT|[HT|HT]]; rewrite HT in *; types; cbn in Hf; cbn [Z.eqb].
  - destruct Hf as (_ & _ & _ & _ & _ & _ & [[Hv HC]|[H35 HC]]).
    + rewrite bool_decide_eq_true_2 by (unfold chain_matches; by rewrite HC). by destruct Hv as [->| ->].
    + rewrite (proj2 (Z.eqb_neq _ 27)), (proj2 (Z.eqb_neq _ 28)) by lia. by eapply Hcmp.
  - destruct Hf as ((c & Hc & _) & _). by eapply Hcmp.
  - destruct Hf as ((c & Hc & _) & _). by eapply Hcmp.
Qed.

(** [ValidateTransaction] after a successful decode: the sanity and v checks repeat
    what decoding established, the other three decide. *)
Lemma ValidateTransaction_decoded raw d expected : DecodeTransaction raw = Ok d →
  ValidateTransaction raw expected =
    if bool_decide (Sender d = zero20) then Err ErrInvalidSignature
    else if bool_decide (chain_matches d expected) then
      if secp256k1HalfN <? be_value (SigS d) then Err ErrHighS else Ok tt
    else Err ErrChainIDMismatch.
Proof.
  intros H. pose proof H as (_ & Hwf & _)%DecodeTransaction_spec. unfold ValidateTransaction. rewrite H.
  cbn [wrap_err mbind outcome_bind]. rewrite checkFieldSanity_ok, checkChainID_eq, checkV_ok by done.
  destruct (bool_decide (Sender d = zero20)), (bool_decide (chain_matches d expected)); done.
Qed.

(** [ValidateTransaction] accepts exactly the decodable transactions with a non-zero
    recovered sender, s in the lower half of the group order, and a chain ID equal to
    the expected one unless either side names none. *)
Theorem ValidateTransaction_iff raw expected :
  ValidateTransaction raw expected = Ok tt ↔
  ∃ d, DecodeTransaction raw = Ok d ∧ Sender d ≠ zero20 ∧ chain_matches d expected ∧
    be_value (SigS d) ≤ secp256k1HalfN.
Proof.
  split.
  - intros H. pose proof H as H'. unfold ValidateTransaction in H'.
    apply bind_Ok in H' as (d & Hd%wrap_err_Ok & _). exists d. split; [done|].
    rewrite (ValidateTransaction_decoded raw d) in H by done.
    destruct (bool_decide (Sender d = zero20)) eqn:E1; [done|]. apply bool_decide_eq_false in E1.
    destruct (bool_decide (chain_matches d expected)) eqn:E2; [|done]. apply bool_decide_eq_true in E2.
    destruct (Z.ltb_spec secp256k1HalfN (be_value (SigS d))); [done|auto].
  - intros (d & Hd & Hs & Hc & Hl). rewrite (ValidateTransaction_decoded raw d) by done.
    rewrite bool_decide_eq_false_2, bool_decide_eq_true_2 by done. by rewrite (proj2 (Z.ltb_ge _ _)).
Qed.
End Validate.

(** ** Digests and personal messages *)

Section Messages.
Context `{K : Keccak, D : Dcrd, L : !DcrdLaws}.

Lemma recoverPublicKey_join priv h r s recID : length h = 32%nat → length r = 32%nat → length s = 32%nat →
  b2z recID ≤ 3 → RecoverPubKey (r ++ s) h recID = Ok (Public priv) →
  length (join_sig (r ++ s) recID) = 65%nat ∧ recoverPublicKey (join_sig (r ++ s) recID) h = Ok (Public priv).
Proof.
  intros Hh Hr Hs Hid Hrec. unfold join_sig.
  rewrite (take_app_length' r s), (drop_app_length' r s), (take_ge s 32), app_assoc by lia.
  assert (length ((r ++ s) ++ [z2b (b2z recID + 27)]) = 65%nat) as Hl by (rewrite !length_app; simpl; lia).
  split; [done|]. unfold recoverPublicKey. rewrite Hl, Hh. change (Z.of_nat 65 =? 65) with true.
  change (Z.of_nat 32 =? 32) with true. cbn [negb].
  apply bind_Ok. eexists. split; [apply index_inv; by apply list_lookup_middle; rewrite length_app; lia|].
  pose proof (b2z_range recID). rewrite (b2z_z2b_small (b2z recID + 27)) by lia. replace (b2z recID + 27 - 27) with (b2z recID) by lia.
  rewrite z2b_b2z, (proj2 (Z.ltb_ge _ _)) by lia. apply wrap_err_Ok.
  rewrite take_app_length' by (rewrite length_app; lia). done.
Qed.

Lemma SignDigest_spec priv digest : length digest = 32%nat →
  ∃ sig, SignDigest (NewWallet (Some priv)) digest = Ok sig ∧ length sig = 65%nat ∧
    recoverPublicKey sig digest = Ok (Public priv).
Proof.
  intros Hh. destruct (SignRecoverable_spec priv digest Hh) as (r & s & id & E & Hid & Hr & Hs & _ & _ & Hrec).
  exists (join_sig (r ++ s) id). split; [|by apply recoverPublicKey_join].
  unfold SignDigest. cbn [the_key NewWallet mjoin option_join]. rewrite Hh. change (Z.of_nat 32 =? 32) with true.
  cbn [negb]. apply bind_Ok. exists (r ++ s, id). split; [by apply wrap_err_Ok|done].
Qed.

(** [SignDigest] always succeeds on a 32-byte digest and the signer's key is recovered
    from its 65 bytes. *)
Theorem SignDigest_recovers priv digest : length digest = 32%nat →
  ∃ sig, SignDigest (NewWallet (Some priv)) digest = Ok sig ∧ length sig = 65%nat ∧
    recoverPublicKey sig digest = Ok (Public priv).
Proof. apply SignDigest_spec. Qed.

(** The same for an EIP-191 personal message of any length. *)
Theorem SignPersonalMessage_recovers priv msg :
  ∃ sig, SignPersonalMessage (NewWallet (Some priv)) msg = Ok sig ∧ length sig = 65%nat ∧
    recoverPublicKey sig (SumBytes (personalMessagePrefix msg ++ msg)) = Ok (Public priv).
Proof.
  destruct (SignDigest_spec priv (SumBytes (personalMessagePrefix msg ++ msg))) as (sig & E & H);
    [apply SumBytes_length|]. exists sig. split; [|done]. rewrite <- E.
  unfold SignDigest, SignPersonalMessage. by rewrite SumBytes_length.
Qed.
End Messages.

(** ** Concrete inputs *)

Module Example.
#[local] Existing Instance Toy.dcrd.
#[local] Existing Instance Toy.laws.

Definition key : Toy.scalar := Toy.mk (2 ^ 250).
Definition weak_key : Toy.scalar := Toy.mk 1.
Definition addr : Ethereum.Address := copy20 (replicate 20 xcc).

Definition tx : Transaction :=
  Eip1559 (mk1559 (Some 1) 7 (Some 2) (Some 300) 21000 (Some addr) (Some (10 ^ 18)) (str_bytes "data")
    [Entry addr [zero32]]).
Definition legacy : Transaction :=
  Legacy (mkLegacy (Some 1) 0 (Some 1) 21000 (Some addr) None []).

Definition hash : bytes := Eval vm_compute in match SigningHash tx with Ok h => h | _ => [] end.
Definition legacy_hash : bytes := Eval vm_compute in match SigningHash legacy with Ok h => h | _ => [] end.

Definition r : bytes := be_bytes 32 (2 ^ 250).
Definition s : bytes := be_bytes 32 (2 ^ 248).
Definition raw : bytes := Eval vm_compute in
  match SignTx (NewWallet (Some key)) (Some tx) with Ok b => b | _ => [] end.

Lemma tx_is_ok : tx_ok tx.
Proof. vm_compute. intuition congruence. Qed.

Lemma legacy_is_ok : tx_ok legacy.
Proof. vm_compute. intuition congruence. Qed.

Definition decoded : DecodedTx := Eval vm_compute in
  match DecodeTransaction raw with Ok d => d | _ => view tx 0 r s addr end.

Lemma raw_decodes : DecodeTransaction raw = Ok decoded.
Proof. vm_compute. reflexivity. Qed.
End Example.

Lemma DecodeTransaction_injective_witness : let d := Toy.dcrd in Example.raw = Example.raw.
Proof. intros d. apply (DecodeTransaction_injective _ _ Example.decoded); exact Example.raw_decodes. Defined.

Lemma DecodeTransaction_sound_witness : let d := Toy.dcrd in
  EncodeSigned (as_tx Example.decoded) (SigR Example.decoded) (SigS Example.decoded) (SigV Example.decoded)
    = Ok Example.raw.
Proof.
  intros d. destruct (DecodeTransaction_sound Example.raw Example.decoded 1) as [H _];
    [exact Example.raw_decodes|reflexivity|lia|exact H].
Defined.

Lemma SignTx_decodes_witness : let d := Toy.dcrd in ∃ raw a,
  SignTx (NewWallet (Some Example.key)) (Some Example.tx) = Ok raw ∧
  Address (NewWallet (Some Example.key)) = Ok a ∧
  (zlen raw ≤ Rlp.MaxInputLen → DecodeTransaction raw = Ok (view Example.tx (b2z x00) Example.r Example.s a)).
Proof.
  apply (SignTx_decodes (L := Toy.laws) Example.key Example.tx Example.hash Example.r Example.s x00 Example.tx_is_ok);
    vm_compute; try reflexivity; congruence.
Defined.

Lemma SignTx_leading_zero_witness : let d := Toy.dcrd in ∃ raw,
  SignTx (NewWallet (Some Example.weak_key)) (Some Example.legacy) = Ok raw ∧ ∀ d, DecodeTransaction raw ≠ Ok d.
Proof.
  apply (SignTx_leading_zero (L := Toy.laws) Example.weak_key Example.legacy Example.legacy_hash (be_bytes 32 1) Example.s x00
    Example.legacy_is_ok); vm_compute; try reflexivity; try congruence. intros [H _]. by apply H.
Defined.

Lemma SignDigest_recovers_witness : let d := Toy.dcrd in
  ∃ sig, SignDigest (NewWallet (Some Example.key)) Example.hash = Ok sig ∧ length sig = 65%nat ∧
    recoverPublicKey sig Example.hash = Ok (Public Example.key).
Proof. apply (SignDigest_recovers (L := Toy.laws)). reflexivity. Defined.

Lemma SignPersonalMessage_recovers_witness : let d := Toy.dcrd in
  ∃ sig, SignPersonalMessage (NewWallet (Some Example.key)) (str_bytes "hi") = Ok sig ∧ length sig = 65%nat ∧
    recoverPublicKey sig (SumBytes (personalMessagePrefix (str_bytes "hi") ++ str_bytes "hi"))
      = Ok (Public Example.key).
Proof. apply (SignPersonalMessage_recovers (L := Toy.laws)). Defined.
