(* ===== verification/RpcQuantity.v ===== *)
(** * JSON-RPC quantities

    A translation of src/chain/rpc/quantity.go and its properties: quantities
    round-trip, the accepted spellings of a number without a sign differ in the case
    of digits only, and a sign - which EIP-1474 does not know - is accepted. *)
From S2P Require Import Prelude GoBig Ethereum.
#[local] Open Scope Z_scope.

Module Quantity.

Inductive error : Type :=
| ErrEmptyQuantity
| ErrMissingPrefix
| ErrNoDigits
| ErrLeadingZeros
| ErrInvalidHex
| ErrBlockNumberOverflow.

#[global] Instance error_eq_dec : EqDecision error.
Proof. solve_decision. Defined.

Definition hex_prefix : bytes := [x30; x78].

Definition ParseQuantity (hex : bytes) : outcome error Z :=
  if bool_decide (hex = []) then Err ErrEmptyQuantity
  else if negb (bool_decide (take 2 hex = hex_prefix)) then Err ErrMissingPrefix
  else
    let body := drop 2 hex in
    if bool_decide (body = []) then Err ErrNoDigits
    else if (1 <? zlen body) && bool_decide (head body = Some x30) then Err ErrLeadingZeros
    else match set_string16 body with
         | None => Err ErrInvalidHex
         | Some n => Ok n
         end.

Definition FormatQuantity (n : option Z) : bytes :=
  match n with
  | None => hex_prefix ++ [x30]
  | Some z => if z =? 0 then hex_prefix ++ [x30] else hex_prefix ++ text 16 z
  end.

(** [n.Uint64()] takes the low 64 bits of the absolute value. *)
Definition ParseBlockNumber (hex : bytes) : outcome error Z :=
  n ← ParseQuantity hex;
  if 64 <? BitLen n then Err ErrBlockNumberOverflow
  else Ok (u64 (Z.abs n)).

End Quantity.

Import Quantity.

Lemma ParseQuantity_body c cs : ParseQuantity (hex_prefix ++ c :: cs) =
  if (1 <? zlen (c :: cs)) && bool_decide (c = x30) then Err ErrLeadingZeros
  else match set_string16 (c :: cs) with None => Err ErrInvalidHex | Some n => Ok n end.
Proof.
  unfold ParseQuantity. change (hex_prefix ++ c :: cs) with (x30 :: x78 :: c :: cs).
  rewrite bool_decide_eq_false_2 by done. cbn [take drop]. rewrite (bool_decide_eq_true_2 (_ = hex_prefix)) by done.
  cbn [negb head]. rewrite bool_decide_eq_false_2 by done.
  assert (bool_decide (Some c = Some x30) = bool_decide (c = x30)) as -> by (apply bool_decide_ext; naive_solver).
  done.
Qed.

Lemma ParseQuantity_text n : 0 < n → ParseQuantity (hex_prefix ++ text 16 n) = Ok n.
Proof.
  intros Hn. pose proof (set_string16_text n Hn) as Hs.
  destruct (text16_pos n Hn) as (d & ds & E & Hd & HF & Hv). rewrite E in *. cbn [fmap list_fmap] in *.
  rewrite ParseQuantity_body, Hs. rewrite bool_decide_eq_false_2, andb_false_r; [done|].
  intros Eq. assert (hex_value (hex_digit d) = Some d) as Hx by (apply hex_value_digit; by apply Forall_inv in HF).
  rewrite Eq in Hx. cbn in Hx. injection Hx. lia.
Qed.

Lemma ParseQuantity_Format n : 0 ≤ n → ParseQuantity (FormatQuantity (Some n)) = Ok n.
Proof.
  intros Hn. unfold FormatQuantity. destruct (Z.eqb_spec n 0) as [->|]; [done|]. apply ParseQuantity_text. lia.
Qed.

Lemma digit_casing c d : hex_value c = Some d → casing (hex_digit d) c.
Proof.
  unfold hex_value, casing, hex_digit. pose proof (b2z_range c) as Hr. intros H.
  destruct ((48 <=? b2z c) && (b2z c <=? 57)) eqn:E1; [|destruct ((97 <=? b2z c) && (b2z c <=? 102)) eqn:E2;
    [|destruct ((65 <=? b2z c) && (b2z c <=? 70)) eqn:E3; [|done]]]; injection H as <-;
    apply andb_prop in E1 || apply andb_prop in E2 || apply andb_prop in E3; rewrite ?Z.leb_le in *.
  - left. rewrite (proj2 (Z.ltb_lt _ _)) by lia. rewrite <- (z2b_b2z c) at 1. f_equal. lia.
  - left. rewrite (proj2 (Z.ltb_ge _ _)) by lia. rewrite <- (z2b_b2z c) at 1. f_equal. lia.
  - right. rewrite (proj2 (Z.ltb_ge _ _)) by lia. unfold lower_digit. rewrite !b2z_z2b_small by lia. split.
    + apply andb_true_intro. rewrite !Z.leb_le. lia.
    + rewrite <- (z2b_b2z c) at 1. f_equal. lia.
Qed.

Lemma text16_of_digits d ds : Forall (λ d, 0 ≤ d < 16) (d :: ds) → 0 < d →
  text 16 (digits_value 16 (d :: ds)) = hex_digit <$> (d :: ds) ∧ 0 < digits_value 16 (d :: ds).
Proof.
  intros HF Hd. set (v := digits_value 16 (d :: ds)).
  destruct (digits_of_value (S (Z.to_nat (BitLen v))) 16 d ds) as [E Hp]; [lia|done|done| |].
  { apply (Z.le_lt_trans _ (Z.abs v)); [fold v; lia|]. eapply Z.lt_trans; [apply BitLen_lt_pow|].
    pose proof (BitLen_nonneg v). apply Z.pow_lt_mono_r; lia. }
  fold v in E, Hp. split; [|done]. unfold text. rewrite (proj2 (Z.ltb_ge _ _)), Z.abs_eq by lia. by rewrite E.
Qed.

(** Quantities round-trip: the formatted form of a number that is not negative parses
    back to it. *)
Theorem ParseQuantity_FormatQuantity n : 0 ≤ n → ParseQuantity (FormatQuantity (Some n)) = Ok n.
Proof. apply ParseQuantity_Format. Qed.

(** An accepted string that has no sign after 0x denotes a number that is not negative
    and is its formatted form up to the case of the digits. *)
Theorem ParseQuantity_canonical c cs n : c ≠ x2d → c ≠ x2b →
  ParseQuantity (hex_prefix ++ c :: cs) = Ok n →
  0 ≤ n ∧ Forall2 casing (FormatQuantity (Some n)) (hex_prefix ++ c :: cs).
Proof.
  intros H1 H2. rewrite ParseQuantity_body. destruct ((1 <? zlen (c :: cs)) && bool_decide (c = x30)) eqn:Hz; [done|].
  destruct (mapM hex_value (c :: cs)) as [vs|] eqn:Hm.
  2: { unfold set_string16. rewrite !bool_decide_eq_false_2 by done. by rewrite Hm. }
  rewrite (set_string16_digits c cs vs) by done. intros [= <-]. pose proof (mapM_hex_range _ _ Hm) as HF.
  apply mapM_Some, Forall2_cons_inv_l in Hm as (d & ds & Hc & Hcs & ->).
  assert (Forall2 casing (hex_digit <$> (d :: ds)) (c :: cs)) as Hcas.
  { constructor; [by apply digit_casing|]. apply Forall2_fmap_l.
    eapply Forall2_flip, Forall2_impl; [exact Hcs|]. intros x y. apply digit_casing. }
  destruct (decide (d = 0)) as [->|Hd].
  - assert (c = x30) as ->.
    { apply Forall2_cons_1 in Hcas as [[->|[Hl _]] _]; [done|by vm_compute in Hl]. }
    rewrite bool_decide_eq_true_2, andb_true_r in Hz by done. apply Z.ltb_ge in Hz.
    destruct cs; [|simpl in Hz; lia]. apply Forall2_nil_inv_l in Hcs as ->. split; [done|].
    cbn. repeat constructor.
  - assert (0 < d) by (apply Forall_inv in HF; lia). destruct (text16_of_digits d ds) as [Et Hp]; [done..|].
    split; [lia|]. unfold FormatQuantity. rewrite (proj2 (Z.eqb_neq _ _)), Et by lia.
    apply Forall2_app; [repeat constructor|done].
Qed.

(** A minus sign after 0x is accepted, and [ParseBlockNumber] then returns the
    absolute value: "0x-5" is read as block 5. *)
Theorem ParseBlockNumber_sign n : 0 < n < 2 ^ 64 →
  ParseQuantity (hex_prefix ++ x2d :: text 16 n) = Ok (- n) ∧
  ParseBlockNumber (hex_prefix ++ x2d :: text 16 n) = Ok n.
Proof.
  intros Hn. assert (ParseQuantity (hex_prefix ++ x2d :: text 16 n) = Ok (- n)) as Hq.
  { rewrite ParseQuantity_body, set_string16_neg by lia. by rewrite andb_false_r. }
  split; [done|]. unfold ParseBlockNumber. rewrite Hq. cbn [mbind outcome_bind].
  rewrite (proj2 (Z.ltb_ge _ _)) by (apply BitLen_le; lia).
  rewrite Z.abs_opp, Z.abs_eq, u64_small by (unfold is_u64; lia). done.
Qed.

Lemma ParseBlockNumber_Format n : is_u64 n → ParseBlockNumber (FormatQuantity (Some n)) = Ok n.
Proof.
  intros Hn. unfold is_u64 in Hn. unfold ParseBlockNumber. rewrite ParseQuantity_Format by lia. cbn [mbind outcome_bind].
  rewrite (proj2 (Z.ltb_ge _ _)), Z.abs_eq, u64_small; [done|done|lia|]. apply BitLen_le; lia.
Qed.

(** ** Concrete inputs *)

Lemma ParseQuantity_FormatQuantity_witness : ParseQuantity (FormatQuantity (Some 255)) = Ok 255.
Proof. apply ParseQuantity_FormatQuantity. lia. Defined.

Lemma ParseQuantity_canonical_witness :
  0 ≤ 171 ∧ Forall2 casing (FormatQuantity (Some 171)) (hex_prefix ++ [x41; x62]).
Proof. apply ParseQuantity_canonical; [done|done|vm_compute; reflexivity]. Defined.

Lemma ParseBlockNumber_sign_witness :
  ParseQuantity (hex_prefix ++ x2d :: text 16 5) = Ok (- (5)) ∧ ParseBlockNumber (hex_prefix ++ x2d :: text 16 5) = Ok 5.
Proof. apply ParseBlockNumber_sign. lia. Defined.
