(* ===== verification/Abi.v ===== *)
(** * The [chain/abi] package: Solidity ABI encoding

    A translation of src/chain/abi (abi.go, encode.go, decode.go).  An [interface{}]
    argument is a [value]: one constructor per Go type the encoder accepts, and
    [VOther] for any other dynamic type. *)
From S2P Require Import Prelude GoBig Keccak.
#[local] Open Scope Z_scope.

Module Abi.

Inductive error : Type :=
| ErrUnknownABIType
| ErrArgCountMismatch
| ErrWrongValueType
| ErrUint256Overflow
| ErrShortData
| ErrBadOffset
| ErrBadLength
| ErrNonZeroPadding
| ErrBadBool.

(** ** abi.go *)

(** [type ABIType int]: the eight constants, and any other integer. *)
Inductive ABIType : Type :=
| ABITypeUint256
| ABITypeAddress
| ABITypeBytes32
| ABITypeBool
| ABITypeString
| ABITypeBytes
| ABITypeUint256Array
| ABITypeAddressArray
| ABITypeUnknown (n : Z).

#[global] Instance ABIType_eq_dec : EqDecision ABIType.
Proof. solve_decision. Defined.

Definition wordSize : Z := 32.

Definition ParseABIType (s : string) : outcome error ABIType :=
  if String.eqb s "uint256" then Ok ABITypeUint256
  else if String.eqb s "address" then Ok ABITypeAddress
  else if String.eqb s "bytes32" then Ok ABITypeBytes32
  else if String.eqb s "bool" then Ok ABITypeBool
  else if String.eqb s "string" then Ok ABITypeString
  else if String.eqb s "bytes" then Ok ABITypeBytes
  else if String.eqb s "uint256[]" then Ok ABITypeUint256Array
  else if String.eqb s "address[]" then Ok ABITypeAddressArray
  else Err ErrUnknownABIType.

Definition TypeString (t : ABIType) : string :=
  match t with
  | ABITypeUint256 => "uint256"
  | ABITypeAddress => "address"
  | ABITypeBytes32 => "bytes32"
  | ABITypeBool => "bool"
  | ABITypeString => "string"
  | ABITypeBytes => "bytes"
  | ABITypeUint256Array => "uint256[]"
  | ABITypeAddressArray => "address[]"
  | ABITypeUnknown n => "abi: unknown ABIType(" +:+ String.string_of_list_byte (text 10 n) +:+ ")"
  end%string.

Definition isDynamic (t : ABIType) : bool :=
  match t with
  | ABITypeString | ABITypeBytes | ABITypeUint256Array | ABITypeAddressArray => true
  | _ => false
  end.

Definition FunctionSelector `{Keccak} (signature : string) : bytes :=
  take 4 (arr (keccak_sum (str_bytes signature))).

(** ** encode.go *)

Inductive value : Type :=
| VBig (n : option Z)
| VAddress (a : array20)
| VBytes32 (b : array32)
| VBool (b : bool)
| VString (s : bytes)
| VBytes (b : bytes)
| VBigs (l : list (option Z))
| VAddresses (l : list array20)
| VOther (type : string).

Definition maxUint256 : Z := Z.shiftl 1 256 - 1.

Definition zero_word : bytes := replicate 32 x00.

Definition encodeUint256 (v : option Z) : outcome error bytes :=
  match v with
  | None => Ok zero_word
  | Some n =>
      if (n <? 0) || (maxUint256 <? n) then Err ErrUint256Overflow
      else
        let b := big_bytes n in
        if wordSize <? zlen b then Err ErrUint256Overflow
        else right_align 32 b
  end.

(** [word[31-i] = byte(v >> (8*i))] for the eight bytes of a [uint64]. *)
Definition encodeUint256FromUint64 (v : Z) : bytes := replicate 24 x00 ++ be_bytes 8 v.

Definition encodeAddress (v : array20) : bytes := replicate 12 x00 ++ arr20 v.

Definition encodeBool (v : bool) : bytes := replicate 31 x00 ++ [if v then x01 else x00].

Definition paddedLen (n : Z) : Z :=
  if n =? 0 then 0
  else
    let r := n `mod` wordSize in
    if r =? 0 then n else n + wordSize - r.

Definition encodeBytesPayload (data : bytes) : bytes :=
  let lengthWord := encodeUint256FromUint64 (u64 (zlen data)) in
  let padded := data ++ replicate (Z.to_nat (paddedLen (zlen data) - zlen data)) x00 in
  lengthWord ++ padded.

Definition encodeUint256Array (a : list (option Z)) : outcome error bytes :=
  let lengthWord := encodeUint256FromUint64 (u64 (zlen a)) in
  words ← each (λ _, encodeUint256) 0 a;
  Ok (lengthWord ++ mjoin words).

Definition encodeAddressArray (a : list array20) : bytes :=
  let lengthWord := encodeUint256FromUint64 (u64 (zlen a)) in
  lengthWord ++ mjoin (encodeAddress <$> a).

(** The first pass on one argument: its head word and its tail.  Entries that are
    not assigned keep the zero value. *)
Definition encodeArg (t : ABIType) (v : value) : outcome error (bytes * bytes) :=
  match t, v with
  | ABITypeUint256, VBig n => word ← encodeUint256 n; Ok (word, [])
  | ABITypeAddress, VAddress a => Ok (encodeAddress a, [])
  | ABITypeBytes32, VBytes32 b => Ok (arr b, [])
  | ABITypeBool, VBool b => Ok (encodeBool b, [])
  | ABITypeString, VString s => Ok (zero_word, encodeBytesPayload s)
  | ABITypeBytes, VBytes b => Ok (zero_word, encodeBytesPayload b)
  | ABITypeUint256Array, VBigs l => tail ← encodeUint256Array l; Ok (zero_word, tail)
  | ABITypeAddressArray, VAddresses l => Ok (zero_word, encodeAddressArray l)
  | ABITypeUnknown _, _ => Err ErrUnknownABIType
  | _, _ => Err ErrWrongValueType
  end.

(** The second pass: head words, with the running offset in those of dynamic types. *)
Fixpoint assemble (types : list ABIType) (parts : list (bytes * bytes)) (tailOffset : Z) : bytes :=
  match types, parts with
  | t :: types', (head, tail) :: parts' =>
      if isDynamic t
      then encodeUint256FromUint64 (u64 tailOffset) ++ assemble types' parts' (tailOffset + zlen tail)
      else head ++ assemble types' parts' tailOffset
  | _, _ => []
  end.

Definition EncodeArgs (types : list ABIType) (values : list value) : outcome error bytes :=
  if negb (zlen types =? zlen values) then Err ErrArgCountMismatch
  else
    parts ← each (λ _ tv, encodeArg tv.1 tv.2) 0 (zip types values);
    let headLen := zlen types * wordSize in
    Ok (assemble types parts headLen ++ mjoin (snd <$> parts)).

(** ** decode.go *)

Definition decodeUint256 (word : bytes) : option Z := Some (be_value word).

Definition checkZeroPadding (b : bytes) : outcome error unit :=
  if forallb (λ c, b2z c =? 0) b then Ok tt else Err ErrNonZeroPadding.

Definition decodeAddress (word : bytes) : outcome error array20 :=
  pad ← go_slice word 0 (wordSize - 20);
  _ ← checkZeroPadding pad;
  low ← go_slice word (wordSize - 20) (zlen word);
  Ok (copy20 low).

Definition decodeBool (word : bytes) : outcome error bool :=
  pad ← go_slice word 0 (wordSize - 1);
  _ ← checkZeroPadding pad;
  c ← index word 31;
  if b2z c =? 0 then Ok false
  else if b2z c =? 1 then Ok true
  else Err ErrBadBool.

(** [offBig.IsInt64()] holds of a non-negative number below 2^63, so [off] is not
    negative. *)
Definition resolveOffset (data head : bytes) : outcome error bytes :=
  let off := be_value head in
  if negb (off <? 2 ^ 63) then Err ErrBadOffset
  else if off <? 0 then Err ErrBadOffset
  else if negb (off `mod` wordSize =? 0) then Err ErrBadOffset
  else if zlen data <? off then Err ErrBadOffset
  else go_slice data off (zlen data).

Definition readLength (tail : bytes) : outcome error (Z * bytes) :=
  if zlen tail <? wordSize then Err ErrShortData
  else
    word ← go_slice tail 0 wordSize;
    let n := be_value word in
    if negb (n <? 2 ^ 63) then Err ErrBadLength
    else if n <? 0 then Err ErrBadLength
    else
      rest ← go_slice tail wordSize (zlen tail);
      if zlen rest <? n then Err ErrShortData
      else Ok (n, rest).

Definition checkTailPadding (rest : bytes) (length : Z) : outcome error unit :=
  let padded := paddedLen length in
  if zlen rest <? padded then Err ErrShortData
  else
    pad ← go_slice rest length padded;
    checkZeroPadding pad.

(** [decodeString] and [decodeBytes] differ in the type of the result only. *)
Definition decodeBytes (data head : bytes) : outcome error bytes :=
  tail ← resolveOffset data head;
  '(length, rest) ← readLength tail;
  _ ← checkTailPadding rest length;
  go_slice rest 0 length.

Definition decodeString (data head : bytes) : outcome error bytes :=
  tail ← resolveOffset data head;
  '(length, rest) ← readLength tail;
  _ ← checkTailPadding rest length;
  go_slice rest 0 length.

(** [for i := 0; i < length; i++] over the words of an array payload. *)
Definition decodeWords {A} (f : bytes → outcome error A) (rest : bytes) (length : Z) : outcome error (list A) :=
  each (λ i _, word ← go_slice rest (Z.of_nat i * wordSize) ((Z.of_nat i + 1) * wordSize); f word)
    0 (replicate (Z.to_nat length) tt).

Definition decodeUint256Array (data head : bytes) : outcome error (list (option Z)) :=
  tail ← resolveOffset data head;
  '(length, rest) ← readLength tail;
  let need := i64 (length * wordSize) in
  if zlen rest <? need then Err ErrShortData
  else decodeWords (λ word, Ok (decodeUint256 word)) rest length.

Definition decodeAddressArray (data head : bytes) : outcome error (list array20) :=
  tail ← resolveOffset data head;
  '(length, rest) ← readLength tail;
  let need := i64 (length * wordSize) in
  if zlen rest <? need then Err ErrShortData
  else decodeWords decodeAddress rest length.

Definition decodeArg (data head : bytes) (t : ABIType) : outcome error value :=
  match t with
  | ABITypeUint256 => Ok (VBig (decodeUint256 head))
  | ABITypeAddress => a ← decodeAddress head; Ok (VAddress a)
  | ABITypeBytes32 => Ok (VBytes32 (copy32 head))
  | ABITypeBool => b ← decodeBool head; Ok (VBool b)
  | ABITypeString => s ← decodeString data head; Ok (VString s)
  | ABITypeBytes => b ← decodeBytes data head; Ok (VBytes b)
  | ABITypeUint256Array => l ← decodeUint256Array data head; Ok (VBigs l)
  | ABITypeAddressArray => l ← decodeAddressArray data head; Ok (VAddresses l)
  | ABITypeUnknown _ => Err ErrUnknownABIType
  end.

Definition DecodeArgs (types : list ABIType) (data : bytes) : outcome error (list value) :=
  let headLen := zlen types * wordSize in
  if zlen data <? headLen then Err ErrShortData
  else
    each (λ i t, head ← go_slice data (Z.of_nat i * wordSize) ((Z.of_nat i + 1) * wordSize);
                 decodeArg data head t) 0 types.

End Abi.
