(* ===== verification/AbiProofs.v ===== *)
(** * Properties of the ABI codec

    [EncodeArgs] succeeds exactly on well-typed arguments in range, and
    [DecodeArgs] inverts it; decoding never panics and returns values of the
    requested types. *)
From S2P Require Import Prelude GoBig Keccak Abi.
Import Abi.
#[local] Open Scope Z_scope.
#[local] Arguments be_value : simpl never.
#[local] Arguments be_bytes : simpl never.
#[local] Arguments u64 : simpl never.

(** ** Types of values *)

Definition has_type (t : ABIType) (v : value) : Prop :=
  match t, v with
  | ABITypeUint256, VBig _ | ABITypeAddress, VAddress _ | ABITypeBytes32, VBytes32 _ | ABITypeBool, VBool _
  | ABITypeString, VString _ | ABITypeBytes, VBytes _ | ABITypeUint256Array, VBigs _
  | ABITypeAddressArray, VAddresses _ => True
  | _, _ => False
  end.

(** A [*big.Int] that fits a word; nil counts as zero. *)
Definition in_word (n : option Z) : Prop := 0 ≤ default 0 n < 2 ^ 256.

Definition in_range (v : value) : Prop :=
  match v with
  | VBig n => in_word n
  | VBigs l => Forall in_word l
  | _ => True
  end.

(** Decoding returns zero for a nil integer. *)
Definition norm (v : value) : value :=
  match v with
  | VBig n => VBig (Some (default 0 n))
  | VBigs l => VBigs ((λ n, Some (default 0 n)) <$> l)
  | _ => v
  end.

(** ** Words *)

Lemma be_bytes_zero k : be_bytes k 0 = replicate k x00.
Proof.
  assert (be_value (replicate k x00) = 0) as Hv by (rewrite <- (app_nil_r (replicate k x00)); apply be_value_zeros).
  rewrite <- (be_bytes_value (replicate k x00)), Hv. by rewrite length_replicate.
Qed.

Lemma encodeUint256_ok n : in_word n → encodeUint256 n = Ok (be_bytes 32 (default 0 n)).
Proof.
  unfold in_word, encodeUint256. intros Hn. destruct n as [n|]; cbn [default from_option] in *; [|by rewrite be_bytes_zero].
  change maxUint256 with (2 ^ 256 - 1). unfold id in Hn |- *. rewrite (proj2 (Z.ltb_ge n 0)), (proj2 (Z.ltb_ge _ n)) by lia.
  assert (length (big_bytes n) ≤ 32)%nat as Hl.
  { apply big_bytes_length. change (256 ^ Z.of_nat 32) with (2 ^ 256). lia. }
  cbn [orb]. rewrite (proj2 (Z.ltb_ge _ _)) by (unfold wordSize; lia). rewrite right_align_ok, <- be_bytes_pad by done.
  rewrite big_bytes_value. do 2 f_equal. lia.
Qed.

Lemma encodeUint256_err n : ~ in_word n → encodeUint256 n = Err ErrUint256Overflow.
Proof.
  unfold in_word, encodeUint256. intros Hn. destruct n as [n|]; cbn [default from_option] in *; [|lia].
  change maxUint256 with (2 ^ 256 - 1). unfold id in Hn.
  destruct (Z.ltb_spec n 0), (Z.ltb_spec (2 ^ 256 - 1) n); try done. lia.
Qed.

Lemma word64_be v : is_u64 v → encodeUint256FromUint64 v = be_bytes 32 v.
Proof.
  intros Hv. unfold encodeUint256FromUint64. rewrite <- (be_bytes_small 8 v) at 2.
  - rewrite be_bytes_pad by (rewrite be_bytes_length; lia). by rewrite be_bytes_length.
  - change (256 ^ Z.of_nat 8) with (2 ^ 64). exact Hv.
Qed.

Lemma word64_length v : length (encodeUint256FromUint64 v) = 32%nat.
Proof. unfold encodeUint256FromUint64. by rewrite length_app, length_replicate, be_bytes_length. Qed.

Lemma word64_value v : is_u64 v → be_value (encodeUint256FromUint64 v) = v.
Proof. intros Hv. unfold encodeUint256FromUint64. rewrite be_value_zeros. by apply be_bytes_small. Qed.

Lemma forallb_zero_replicate k : forallb (λ c, b2z c =? 0) (replicate k x00) = true.
Proof. induction k; [done|]. done. Qed.

Lemma checkZeroPadding_zeros k : checkZeroPadding (replicate k x00) = Ok tt.
Proof. unfold checkZeroPadding. by rewrite forallb_zero_replicate. Qed.

Lemma encodeAddress_length a : length (encodeAddress a) = 32%nat.
Proof. unfold encodeAddress. by rewrite length_app, length_replicate, arr20_length. Qed.

Lemma decodeAddress_encode a : decodeAddress (encodeAddress a) = Ok a.
Proof.
  unfold decodeAddress. apply bind_Ok. exists (replicate 12 x00). split.
  { rewrite <- (app_nil_l (encodeAddress a)). by apply (go_slice_mid [] _ (arr20 a)). }
  apply bind_Ok. exists tt. split; [apply checkZeroPadding_zeros|]. apply bind_Ok. exists (arr20 a).
  split; [|by rewrite copy20_arr20]. by apply go_slice_tail.
Qed.

Lemma decodeBool_encode b : decodeBool (encodeBool b) = Ok b.
Proof. by destruct b. Qed.

(** ** Padding and dynamic payloads *)

Lemma paddedLen_spec n : 0 ≤ n → n ≤ paddedLen n < n + 32 ∧ paddedLen n `mod` 32 = 0.
Proof.
  intros Hn. unfold paddedLen, wordSize. destruct (Z.eqb_spec n 0) as [->|]; [done|].
  destruct (Z.eqb_spec (n `mod` 32) 0); [lia|]. div_lia.
Qed.

Lemma resolveOffset_at pre tail : zlen pre `mod` 32 = 0 → zlen pre < 2 ^ 63 →
  resolveOffset (pre ++ tail) (encodeUint256FromUint64 (u64 (zlen pre))) = Ok tail.
Proof.
  intros Hm Hl. unfold resolveOffset. rewrite u64_small, word64_value by (unfold is_u64; lia).
  rewrite (proj2 (Z.ltb_lt _ (2 ^ 63))), (proj2 (Z.ltb_ge _ 0)) by lia. unfold wordSize. rewrite Hm.
  rewrite (proj2 (Z.ltb_ge _ _)) by (rewrite length_app; lia). cbn [negb Z.eqb].
  by apply go_slice_tail.
Qed.

Lemma readLength_word n rest : 0 ≤ n ≤ zlen rest → n < 2 ^ 63 →
  readLength (encodeUint256FromUint64 (u64 n) ++ rest) = Ok (n, rest).
Proof.
  intros Hn Hl. rewrite u64_small by (unfold is_u64; lia). unfold readLength, wordSize.
  set (w := encodeUint256FromUint64 n).
  assert (length w = 32%nat) as Hw by apply word64_length.
  rewrite (proj2 (Z.ltb_ge _ _)) by (rewrite length_app; lia).
  apply bind_Ok. exists w. split; [apply (go_slice_mid [] w rest); simpl; lia|].
  assert (be_value w = n) as -> by (apply word64_value; unfold is_u64; lia).
  rewrite (proj2 (Z.ltb_lt _ _)), (proj2 (Z.ltb_ge _ 0)) by lia. cbn [negb].
  apply bind_Ok. exists rest. split; [apply go_slice_tail; [lia|done]|].
  by rewrite (proj2 (Z.ltb_ge _ _)) by lia.
Qed.

Lemma payload_roundtrip pre data post : zlen pre `mod` 32 = 0 → zlen (pre ++ data) < 2 ^ 63 →
  decodeBytes (pre ++ encodeBytesPayload data ++ post) (encodeUint256FromUint64 (u64 (zlen pre))) = Ok data.
Proof.
  intros Hm Hl. rewrite length_app in Hl. unfold decodeBytes. apply bind_Ok. eexists.
  split; [apply resolveOffset_at; [done|lia]|]. destruct (paddedLen_spec (zlen data)) as [Hp _]; [lia|].
  unfold encodeBytesPayload. set (z := replicate _ x00). rewrite <- !app_assoc.
  assert (zlen z = paddedLen (zlen data) - zlen data) as Hz by (unfold z; rewrite length_replicate; lia).
  apply bind_Ok. eexists (_, _). split; [apply readLength_word; rewrite ?length_app; lia|]. cbv beta iota.
  apply bind_Ok. exists tt. split.
  { unfold checkTailPadding. rewrite (proj2 (Z.ltb_ge _ _)) by (rewrite !length_app; lia).
    apply bind_Ok. exists z. split; [apply go_slice_mid; lia|]. apply checkZeroPadding_zeros. }
  by apply (go_slice_mid [] data (z ++ post)).
Qed.

Lemma decodeWords_aux {A} (f : bytes → outcome error A) ws xs pre post i :
  zlen pre = Z.of_nat i * 32 → Forall2 (λ w x, length w = 32%nat ∧ f w = Ok x) ws xs →
  each (λ i _, word ← go_slice (pre ++ mjoin ws ++ post) (Z.of_nat i * wordSize) ((Z.of_nat i + 1) * wordSize); f word)
    i (replicate (length ws) tt) = Ok xs.
Proof.
  intros Hpre HF. revert pre i Hpre. induction HF as [|w x ws xs [Hw Hf] HF IH]; intros pre i Hpre; [done|].
  cbn [replicate length each]. unfold wordSize in *.
  apply bind_Ok. exists x. split.
  { apply bind_Ok. exists w. split; [|done]. change (mjoin (w :: ws)) with (w ++ mjoin ws). rewrite <- app_assoc.
    apply go_slice_mid; lia. }
  apply bind_Ok. exists xs. split; [|done].
  replace (pre ++ mjoin (w :: ws) ++ post) with ((pre ++ w) ++ mjoin ws ++ post)
    by (change (mjoin (w :: ws)) with (w ++ mjoin ws); by rewrite <- !app_assoc).
  apply IH. rewrite length_app. lia.
Qed.

Lemma words_length (ws : list bytes) : Forall (λ w, length w = 32%nat) ws → zlen (mjoin ws) = 32 * zlen ws.
Proof. induction 1 as [|w ws Hw _ IH]; [done|].
  change (mjoin (w :: ws)) with (w ++ mjoin ws). rewrite length_app. cbn [length]. lia. Qed.

Lemma decodeWords_roundtrip {A} (f : bytes → outcome error A) ws xs post :
  Forall2 (λ w x, length w = 32%nat ∧ f w = Ok x) ws xs →
  decodeWords f (mjoin ws ++ post) (zlen ws) = Ok xs.
Proof.
  intros HF. unfold decodeWords. rewrite Nat2Z.id. by apply (decodeWords_aux f ws xs [] post 0).
Qed.

Lemma each_encodeUint256 l : Forall in_word l →
  each (λ _, encodeUint256) 0 l = Ok ((λ n, be_bytes 32 (default 0 n)) <$> l).
Proof.
  intros HF. apply each_Forall2. induction HF; constructor; auto using encodeUint256_ok.
Qed.

(** One argument whose tail lies at a known offset. *)
Lemma array_roundtrip {A} (f : bytes → outcome error A) ws xs pre post
    (dec : bytes → bytes → outcome error (list A)) :
  (∀ data head, dec data head = (tail ← resolveOffset data head; '(length, rest) ← readLength tail;
     let need := i64 (length * wordSize) in
     if zlen rest <? need then Err ErrShortData else decodeWords f rest length)) →
  Forall2 (λ w x, length w = 32%nat ∧ f w = Ok x) ws xs →
  zlen pre `mod` 32 = 0 → zlen (pre ++ mjoin ws) < 2 ^ 63 →
  dec (pre ++ (encodeUint256FromUint64 (u64 (zlen ws)) ++ mjoin ws) ++ post)
    (encodeUint256FromUint64 (u64 (zlen pre))) = Ok xs.
Proof.
  intros Hdec HF Hm Hl. rewrite length_app in Hl.
  assert (zlen (mjoin ws) = 32 * zlen ws) as Hw.
  { apply words_length. clear -HF. induction HF as [|w x ws xs [? _] _ IH]; constructor; auto. }
  rewrite Hdec. apply bind_Ok. eexists. split; [apply resolveOffset_at; [done|lia]|].
  rewrite <- app_assoc. apply bind_Ok. eexists (_, _). split; [apply readLength_word; rewrite ?length_app; lia|].
  cbv beta iota zeta. rewrite i64_small by (unfold is_int, wordSize; lia).
  rewrite (proj2 (Z.ltb_ge _ _)) by (rewrite length_app; unfold wordSize; lia).
  by apply decodeWords_roundtrip.
Qed.

(** ** One argument *)

(** A head and a tail from which the decoder recovers the value. *)
Record arg_good (t : ABIType) (v : value) (part : bytes * bytes) : Prop := {
  good_head : length part.1 = 32%nat;
  good_tail : zlen part.2 `mod` 32 = 0;
  good_static : isDynamic t = false → part.2 = [] ∧ ∀ data, decodeArg data part.1 t = Ok (norm v);
  good_dynamic : isDynamic t = true → ∀ pre post, zlen pre `mod` 32 = 0 → zlen (pre ++ part.2) < 2 ^ 63 →
    decodeArg (pre ++ part.2 ++ post) (encodeUint256FromUint64 (u64 (zlen pre))) t = Ok (norm v)
}.

Lemma payload_length data : zlen (encodeBytesPayload data) `mod` 32 = 0 ∧
  zlen data ≤ zlen (encodeBytesPayload data).
Proof.
  unfold encodeBytesPayload. rewrite !length_app, word64_length, length_replicate.
  destruct (paddedLen_spec (zlen data)) as [Hp Hm]; [lia|]. split; [|lia].
  replace (Z.of_nat _) with (32 + paddedLen (zlen data)) by lia. by rewrite Z.add_mod, Hm by done.
Qed.

Lemma words_payload_length (ws : list bytes) n : Forall (λ w, length w = 32%nat) ws →
  zlen (encodeUint256FromUint64 n ++ mjoin ws) = 32 * (1 + zlen ws).
Proof. intros HF. rewrite length_app, word64_length. rewrite Nat2Z.inj_add, words_length by done. lia. Qed.

Lemma word_Forall2 l : Forall in_word l →
  Forall2 (λ w x, length w = 32%nat ∧ Ok (decodeUint256 w) = (Ok x : outcome error (option Z)))
    ((λ n, be_bytes 32 (default 0 n)) <$> l) ((λ n, Some (default 0 n)) <$> l).
Proof.
  induction 1 as [|n l Hn _ IH]; constructor; [|done]. split; [apply be_bytes_length|].
  unfold decodeUint256. do 2 f_equal. apply be_bytes_small. exact Hn.
Qed.

Lemma addr_Forall2 l :
  Forall2 (λ w x, length w = 32%nat ∧ decodeAddress w = Ok x) (encodeAddress <$> l) l.
Proof. induction l; constructor; auto using encodeAddress_length, decodeAddress_encode. Qed.

Lemma static_good t v head : isDynamic t = false → length head = 32%nat →
  (∀ data, decodeArg data head t = Ok (norm v)) → arg_good t v (head, []).
Proof. intros Ht Hl Hd. split; cbn; [done..|]. by rewrite Ht. Qed.

Lemma bytes_good t v data : isDynamic t = true →
  (∀ d h, decodeArg d h t = (s ← decodeBytes d h; Ok (if t is ABITypeString then VString s else VBytes s))) →
  norm v = (if t is ABITypeString then VString data else VBytes data) →
  arg_good t v (zero_word, encodeBytesPayload data).
Proof.
  intros Ht Hd Hn. destruct (payload_length data) as [Hm Hl]. split; cbn [fst snd]; [done|done|by rewrite Ht|].
  intros _ pre post Hpre Hlen. rewrite Hd. apply bind_Ok. exists data. split; [|by rewrite Hn].
  apply payload_roundtrip; [done|]. rewrite length_app in *. lia.
Qed.

Lemma array_good {A} t v ws (xs : list A) (f : bytes → outcome error A) dec (con : list A → value) :
  isDynamic t = true →
  (∀ d h, decodeArg d h t = (l ← dec d h; Ok (con l))) →
  (∀ data head, dec data head = (tail ← resolveOffset data head; '(length, rest) ← readLength tail;
     let need := i64 (length * wordSize) in
     if zlen rest <? need then Err ErrShortData else decodeWords f rest length)) →
  Forall2 (λ w x, length w = 32%nat ∧ f w = Ok x) ws xs → norm v = con xs →
  arg_good t v (zero_word, encodeUint256FromUint64 (u64 (zlen ws)) ++ mjoin ws).
Proof.
  intros Ht Hd Hdec HF Hn.
  assert (Forall (λ w, length w = 32%nat) ws) as Hw.
  { clear -HF. induction HF as [|w x ws xs [? _] _ IH]; constructor; auto. }
  pose proof (words_payload_length ws (u64 (zlen ws)) Hw) as Hl. split; cbn [fst snd]; [done| |by rewrite Ht|].
  - rewrite Hl, Z.mul_comm. by apply Z_mod_mult.
  - intros _ pre post Hpre Hlen. rewrite Hd. apply bind_Ok. exists xs. split; [|by rewrite Hn].
    eapply array_roundtrip; [exact Hdec|done|done|]. pose proof (words_length ws Hw). rewrite !length_app in *. lia.
Qed.

Lemma encodeArg_good t v : has_type t v → in_range v → ∃ part, encodeArg t v = Ok part ∧ arg_good t v part.
Proof.
  destruct t, v; try done; intros _ Hr; cbn [in_range] in Hr; cbn [encodeArg].
  - rewrite encodeUint256_ok by done. eexists. split; [reflexivity|]. apply static_good; [done|apply be_bytes_length|].
    intros data. cbn. unfold decodeUint256. by rewrite be_bytes_small by exact Hr.
  - eexists. split; [reflexivity|]. apply static_good; [done|apply encodeAddress_length|].
    intros data. cbn [decodeArg]. by rewrite decodeAddress_encode.
  - eexists. split; [reflexivity|]. apply static_good; [done|apply arr_length|].
    intros data. cbn [decodeArg]. by rewrite copy32_arr.
  - eexists. split; [reflexivity|]. apply static_good; [done|by destruct b|].
    intros data. cbn [decodeArg]. by rewrite decodeBool_encode.
  - eexists. split; [reflexivity|]. by apply (bytes_good ABITypeString).
  - eexists. split; [reflexivity|]. by apply (bytes_good ABITypeBytes).
  - unfold encodeUint256Array. rewrite each_encodeUint256 by done. eexists. split; [reflexivity|].
    rewrite <- (length_fmap (λ n : option Z, be_bytes 32 (default 0 n)) l).
    by apply (array_good ABITypeUint256Array _ _ _ _ decodeUint256Array VBigs eq_refl (λ _ _, eq_refl) (λ _ _, eq_refl)
      (word_Forall2 l Hr)).
  - eexists. split; [reflexivity|]. unfold encodeAddressArray. rewrite <- (length_fmap encodeAddress l).
    by apply (array_good ABITypeAddressArray _ _ _ _ decodeAddressArray VAddresses eq_refl (λ _ _, eq_refl) (λ _ _, eq_refl)
      (addr_Forall2 l)).
Qed.

(** ** All arguments *)

Lemma assemble_length types values parts off : Forall3 arg_good types values parts →
  zlen (assemble types parts off) = 32 * zlen types.
Proof.
  intros HF. revert off. induction HF as [|t v [h tl] types values parts Hg HF IH]; intros off; [done|].
  cbn [assemble length]. pose proof (good_head _ _ _ Hg) as Hh. cbn in Hh.
  destruct (isDynamic t); rewrite length_app, ?word64_length, ?Hh, Nat2Z.inj_add, IH; lia.
Qed.

Lemma decode_assembled data types values parts : Forall3 arg_good types values parts → zlen data < 2 ^ 63 →
  ∀ hpre tpre i off,
  data = (hpre ++ assemble types parts off) ++ tpre ++ mjoin (snd <$> parts) →
  off = zlen (hpre ++ assemble types parts off) + zlen tpre →
  zlen hpre = 32 * Z.of_nat i → zlen tpre `mod` 32 = 0 →
  each (λ i t, head ← go_slice data (Z.of_nat i * wordSize) ((Z.of_nat i + 1) * wordSize);
               decodeArg data head t) i types = Ok (norm <$> values).
Proof.
  intros HF Hdata. induction HF as [|t v [h tl] types values parts Hg HF IH]; intros hpre tpre i off Hd Hoff Hh Ht; [done|].
  cbn [each]. cbn [assemble] in Hd, Hoff. change (mjoin (snd <$> (h, tl) :: parts)) with (tl ++ mjoin (snd <$> parts)) in Hd.
  set (off' := if isDynamic t then off + zlen tl else off).
  set (w := if isDynamic t then encodeUint256FromUint64 (u64 off) else h).
  assert (length w = 32%nat) as Hw by (unfold w; destruct (isDynamic t); [apply word64_length|apply Hg]).
  assert (∀ x, (hpre ++ (if isDynamic t then encodeUint256FromUint64 (u64 off) ++ assemble types parts (off + zlen tl)
     else h ++ assemble types parts off)) ++ x = hpre ++ w ++ assemble types parts off' ++ x) as Hrew.
  { intros x. unfold w, off'. destruct (isDynamic t); by rewrite <- !app_assoc. }
  rewrite Hrew in Hd. pose proof (Hrew []) as Hrew'. rewrite !app_nil_r in Hrew'. rewrite Hrew' in Hoff.
  pose proof (assemble_length _ _ _ off' HF) as Hal. rewrite !length_app in Hoff.
  assert (off' = off + zlen tl) as Ho.
  { unfold off'. destruct (isDynamic t) eqn:Et; [done|]. destruct (good_static _ _ _ Hg Et) as [E _].
    cbn in E. rewrite E. cbn. lia. }
  apply bind_Ok. exists (norm v). split.
  - apply bind_Ok. exists w. split; [rewrite Hd; apply go_slice_mid; unfold wordSize; lia|].
    unfold w. destruct (isDynamic t) eqn:Et.
    + rewrite Hd. rewrite !app_assoc. rewrite <- (app_assoc _ tl).
      set (pre := ((hpre ++ w) ++ assemble types parts off') ++ tpre).
      replace off with (zlen pre) by (unfold pre; rewrite !length_app; lia).
      apply (good_dynamic _ _ _ Hg); [done| |].
      * unfold pre. rewrite !length_app. replace (Z.of_nat _) with (zlen tpre + (Z.of_nat i + 1 + zlen types) * 32) by lia.
        by rewrite Z_mod_plus_full.
      * cbn [snd]. rewrite Hd in Hdata. unfold pre. rewrite !length_app in *. lia.
    + apply (good_static _ _ _ Hg). done.
  - apply bind_Ok. exists (norm <$> values). split; [|done].
    apply (IH (hpre ++ w) (tpre ++ tl) (S i) off').
    + rewrite Hd. by rewrite <- !app_assoc.
    + rewrite !length_app. lia.
    + rewrite length_app. lia.
    + rewrite length_app, Nat2Z.inj_add, Z.add_mod, Ht, (good_tail _ _ _ Hg : zlen tl `mod` 32 = 0) by done. done.
Qed.

Definition encodable (types : list ABIType) (values : list value) : Prop :=
  Forall2 (λ t v, has_type t v ∧ in_range v) types values.

Lemma EncodeArgs_parts types values : encodable types values → ∃ parts,
  Forall3 arg_good types values parts ∧
  EncodeArgs types values = Ok (assemble types parts (zlen types * wordSize) ++ mjoin (snd <$> parts)).
Proof.
  intros HF. assert (∃ parts, Forall3 arg_good types values parts ∧
    ∀ i, each (λ _ tv, encodeArg tv.1 tv.2) i (zip types values) = Ok parts) as (parts & HG & HE).
  { induction HF as [|t v types values [Ht Hr] _ (parts & HG & HE)]; [exists []; split; [constructor|done]|].
    destruct (encodeArg_good t v Ht Hr) as (p & Hp & Hg). exists (p :: parts). split; [by constructor|].
    intros i. cbn. by rewrite Hp, HE. }
  exists parts. split; [done|]. unfold EncodeArgs. rewrite (Forall2_length _ _ _ HF), Z.eqb_refl. cbn [negb].
  by rewrite HE.
Qed.

Lemma DecodeArgs_assembled types values parts : Forall3 arg_good types values parts →
  let b := assemble types parts (zlen types * wordSize) ++ mjoin (snd <$> parts) in
  zlen b < 2 ^ 63 → DecodeArgs types b = Ok (norm <$> values).
Proof.
  intros HG b Hb. unfold DecodeArgs. pose proof (assemble_length _ _ _ (zlen types * wordSize) HG) as Hl.
  rewrite (proj2 (Z.ltb_ge _ _)) by (unfold b; rewrite length_app; unfold wordSize in *; lia).
  eapply (decode_assembled b types values parts HG Hb [] [] 0); cbn [app length]; [reflexivity|..]; try done.
  rewrite Hl. unfold wordSize. lia.
Qed.

Lemma in_word_dec_err n b : encodeUint256 n = Ok b → in_word n.
Proof.
  intros H. destruct (decide (0 ≤ default 0 n)), (decide (default 0 n < 2 ^ 256)); [done|..];
    rewrite encodeUint256_err in H by (unfold in_word; lia); done.
Qed.

Lemma encodeArg_inv t v p : encodeArg t v = Ok p → has_type t v ∧ in_range v.
Proof.
  destruct t, v; try done; cbn [encodeArg has_type in_range]; intros H; (split; [done|]).
  - apply bind_Ok in H as (w & Hw & _). by eapply in_word_dec_err.
  - apply bind_Ok in H as (tl & Hw & _). unfold encodeUint256Array in Hw. apply bind_Ok in Hw as (ws & Hw & _).
    apply each_Forall2 in Hw. induction Hw; constructor; eauto using in_word_dec_err.
Qed.

Lemma EncodeArgs_spec types values :
  is_ok (EncodeArgs types values) = true ↔ encodable types values.
Proof.
  split; [|intros (parts & _ & ->)%EncodeArgs_parts; done].
  unfold EncodeArgs. destruct (Z.eqb_spec (zlen types) (zlen values)) as [Hl|]; [cbn [negb]|done].
  destruct (each _ _ _) as [parts| | |] eqn:E; try done. intros _. unfold encodable.
  apply (each_Forall2 (λ tv, encodeArg tv.1 tv.2)) in E. assert (length types = length values) as Hlen by lia.
  clear Hl. revert values parts Hlen E. induction types as [|t types IH]; intros [|v values] parts Hlen E; simplify_eq/=;
    [constructor|]. apply Forall2_cons_inv_l in E as (p & parts' & Hp & E & ->).
  constructor; [by eapply encodeArg_inv|by eapply IH].
Qed.

(** [EncodeArgs] succeeds exactly when there are as many values as types, every value
    has the Go type of its ABI type and every integer fits 256 bits (nil is zero). *)
Theorem EncodeArgs_iff types values :
  is_ok (EncodeArgs types values) = true ↔ encodable types values.
Proof. apply EncodeArgs_spec. Qed.

(** C16.  Round trip: well-typed arguments in range encode, and decoding the result with the
    same types returns them (a nil integer as zero). *)
Theorem DecodeArgs_EncodeArgs types values : encodable types values →
  ∃ b, EncodeArgs types values = Ok b ∧ (zlen b < 2 ^ 63 → DecodeArgs types b = Ok (norm <$> values)).
Proof.
  intros (parts & HG & HE)%EncodeArgs_parts. eexists. split; [exact HE|]. by apply DecodeArgs_assembled.
Qed.

(** Distinct arguments have distinct encodings under the same types. *)
Lemma EncodeArgs_inj types v1 v2 b : EncodeArgs types v1 = Ok b → EncodeArgs types v2 = Ok b →
  zlen b < 2 ^ 63 → norm <$> v1 = norm <$> v2.
Proof.
  intros H1 H2 Hb.
  assert (encodable types v1) as E1 by (apply EncodeArgs_spec; by rewrite H1).
  assert (encodable types v2) as E2 by (apply EncodeArgs_spec; by rewrite H2).
  apply EncodeArgs_parts in E1 as (p1 & G1 & F1), E2 as (p2 & G2 & F2).
  rewrite H1 in F1. injection F1 as F1. rewrite H2 in F2. injection F2 as F2.
  pose proof (DecodeArgs_assembled _ _ _ G1) as D1. pose proof (DecodeArgs_assembled _ _ _ G2) as D2.
  rewrite <- F1 in D1. rewrite <- F2 in D2. specialize (D1 Hb). specialize (D2 Hb). rewrite D1 in D2. by injection D2.
Qed.

(** ** Decoding arbitrary data *)

(** The call returns, with an error or with a result satisfying [Q]. *)
Definition returns {A} (m : outcome error A) (Q : A → Prop) : Prop :=
  match m with Ok a => Q a | Err _ => True | Panic | OutOfFuel => False end.

Lemma returns_bind {A B} (m : outcome error A) (f : A → outcome error B) P Q :
  returns m P → (∀ a, P a → returns (f a) Q) → returns (mbind f m) Q.
Proof. destruct m; cbn; auto. Qed.

Ltac blia := cbv beta in *; lia.

Lemma returns_weaken {A} (m : outcome error A) (P Q : A → Prop) :
  returns m P → (∀ a, P a → Q a) → returns m Q.
Proof. destruct m; cbn; auto. Qed.

Lemma returns_slice (b : bytes) lo hi : 0 ≤ lo ≤ hi → hi ≤ zlen b →
  returns (go_slice b lo hi) (λ s, zlen s = hi - lo).
Proof. intros H1 H2. pose proof (go_slice_ok (E := error) b lo hi H1 H2) as E. rewrite E. by eapply go_slice_length. Qed.

Lemma returns_pad b : returns (checkZeroPadding b) (λ _, True).
Proof. unfold checkZeroPadding. by destruct (forallb _ b). Qed.

Lemma returns_decodeAddress w : length w = 32%nat → returns (decodeAddress w) (λ _, True).
Proof.
  intros Hw. unfold decodeAddress, wordSize. eapply returns_bind; [apply returns_slice; lia|]. intros p _.
  eapply returns_bind; [apply returns_pad|]. intros _ _. eapply returns_bind; [apply returns_slice; lia|]. done.
Qed.

Lemma returns_decodeBool w : length w = 32%nat → returns (decodeBool w) (λ _, True).
Proof.
  intros Hw. unfold decodeBool, wordSize. eapply returns_bind; [apply returns_slice; lia|]. intros p _.
  eapply returns_bind; [apply returns_pad|]. intros _ _. unfold index.
  destruct (lookup_lt_is_Some_2 w 31) as [c ->]; [lia|]. cbn [mbind outcome_bind].
  by destruct (b2z c =? 0), (b2z c =? 1).
Qed.

Lemma returns_resolveOffset data head : returns (resolveOffset data head) (λ t, zlen t ≤ zlen data).
Proof.
  unfold resolveOffset. pose proof (be_value_range head).
  destruct (negb (be_value head <? 2 ^ 63)), (be_value head <? 0), (negb (be_value head `mod` wordSize =? 0)); try done.
  destruct (Z.ltb_spec (zlen data) (be_value head)); [done|].
  pose proof (go_slice_ok (E := error) data (be_value head) (zlen data)) as E. rewrite E by lia. cbn.
  rewrite length_take, length_drop. lia.
Qed.

Lemma returns_readLength tail : returns (readLength tail) (λ p, 0 ≤ p.1 ≤ zlen p.2 ∧ zlen p.2 ≤ zlen tail).
Proof.
  unfold readLength, wordSize. destruct (Z.ltb_spec (zlen tail) 32); [done|].
  eapply returns_bind; [apply returns_slice; lia|]. intros w Hw. pose proof (be_value_range w).
  destruct (negb _), (be_value w <? 0); try done.
  eapply returns_bind; [apply returns_slice; lia|]. intros rest Hr.
  destruct (Z.ltb_spec (zlen rest) (be_value w)); [done|]. cbn [returns fst snd]. blia.
Qed.

Lemma returns_payload data head : returns (decodeBytes data head) (λ _, True).
Proof.
  unfold decodeBytes. eapply returns_bind; [apply returns_resolveOffset|]. intros tail _.
  eapply returns_bind; [apply returns_readLength|]. intros [n rest] [Hn _]. cbn [fst snd] in Hn.
  destruct (paddedLen_spec n) as [Hp _]; [lia|].
  eapply (returns_bind _ _ (λ _, True)); [|intros _ _; eapply returns_weaken; [apply returns_slice; lia|done]].
  unfold checkTailPadding. destruct (Z.ltb_spec (zlen rest) (paddedLen n)); [done|].
  eapply returns_bind; [apply returns_slice; lia|]. intros p _. apply returns_pad.
Qed.

Lemma returns_each {A B} (f : nat → A → outcome error B) P i l :
  (∀ j x, (j < i + length l)%nat → returns (f j x) P) → returns (each f i l) (Forall P).
Proof.
  revert i. induction l as [|x l IH]; intros i Hf; [constructor|]. cbn [each].
  eapply returns_bind; [apply Hf; cbn [length]; lia|]. intros y Hy.
  eapply returns_bind; [apply IH; intros j z Hj; apply Hf; cbn [length]; lia|]. intros ys Hys. by constructor.
Qed.

Lemma returns_words {A} (f : bytes → outcome error A) P rest n : 0 ≤ n → n * 32 ≤ zlen rest →
  (∀ w, length w = 32%nat → returns (f w) P) → returns (decodeWords f rest n) (Forall P).
Proof.
  intros Hn Hl Hf. unfold decodeWords, wordSize. apply returns_each. intros j x Hj. rewrite length_replicate in Hj.
  eapply returns_bind; [apply returns_slice; lia|]. intros w Hw. apply Hf. blia.
Qed.

Lemma returns_array {A} (f : bytes → outcome error A) P data head (dec : outcome error (list A)) :
  dec = (tail ← resolveOffset data head; '(length, rest) ← readLength tail;
     let need := i64 (length * wordSize) in
     if zlen rest <? need then Err ErrShortData else decodeWords f rest length) →
  zlen data < 2 ^ 58 → (∀ w, length w = 32%nat → returns (f w) P) → returns dec (Forall P).
Proof.
  intros -> Hd Hf. eapply returns_bind; [apply returns_resolveOffset|]. cbv beta. intros tail Ht.
  eapply returns_bind; [apply returns_readLength|]. intros [n rest] [Hn Hr]. cbn [fst snd] in *. cbv beta iota zeta.
  rewrite i64_small by (unfold is_int, wordSize; lia). destruct (Z.ltb_spec (zlen rest) (n * wordSize)); [done|].
  by apply returns_words; [lia|unfold wordSize in *; lia|].
Qed.

(** A value [DecodeArgs] may return for the type [t]: of that type, integers present
    and below 2^256. *)
Definition decoded_as (t : ABIType) (v : value) : Prop :=
  has_type t v ∧ in_range v ∧ norm v = v.

Definition word_int (x : option Z) : Prop := ∃ n, x = Some n ∧ 0 ≤ n < 2 ^ 256.

Lemma decodeUint256_word w : length w = 32%nat → word_int (decodeUint256 w).
Proof.
  intros Hw. eexists. split; [reflexivity|]. pose proof (be_value_range w). split; [lia|]. apply be_value_bound32. lia.
Qed.

Lemma word_ints_norm l : Forall word_int l → Forall in_word l ∧ (λ n : option Z, Some (default 0 n)) <$> l = l.
Proof.
  induction 1 as [|x l (n & -> & Hn) _ [IH1 IH2]]; [by split|]. split; [by constructor|]. cbn. by rewrite IH2.
Qed.

Lemma returns_decodeArg data head t : zlen data < 2 ^ 58 → length head = 32%nat →
  returns (decodeArg data head t) (decoded_as t).
Proof.
  intros Hd Hh. destruct t; cbn [decodeArg]; try done.
  - destruct (decodeUint256_word head Hh) as (n & E & Hn). cbn. unfold decoded_as. rewrite E. done.
  - eapply returns_bind; [by apply returns_decodeAddress|]. done.
  - eapply returns_bind; [by apply returns_decodeBool|]. done.
  - eapply returns_bind; [apply returns_payload|]. done.
  - eapply returns_bind; [apply returns_payload|]. done.
  - eapply returns_bind; [eapply (returns_array _ word_int); [reflexivity|done|]|].
    + intros w Hw. by apply decodeUint256_word.
    + intros l Hl. destruct (word_ints_norm l Hl) as [H1 H2]. cbn. unfold decoded_as. cbn. by rewrite H2.
  - eapply returns_bind; [eapply (returns_array _ (λ _, True)); [reflexivity|done|]|]; [|done].
    intros w Hw. by apply returns_decodeAddress.
Qed.

Lemma returns_each2 {A B} (f : nat → A → outcome error B) R i l :
  (∀ j x, (j < i + length l)%nat → returns (f j x) (R x)) → returns (each f i l) (Forall2 R l).
Proof.
  revert i. induction l as [|x l IH]; intros i Hf; [constructor|]. cbn [each].
  eapply returns_bind; [apply Hf; cbn [length]; lia|]. intros y Hy.
  eapply returns_bind; [apply IH; intros j z Hj; apply Hf; cbn [length]; lia|]. intros ys Hys. by constructor.
Qed.

(** C19.  [DecodeArgs] is total and type-correct: on any data of realistic size it returns
    an error or one value per requested type, each of that type with its integers
    below 2^256; it never indexes out of range. *)
Theorem DecodeArgs_typed types data : zlen data < 2 ^ 58 →
  match DecodeArgs types data with
  | Ok values => Forall2 decoded_as types values
  | Err _ => True
  | Panic | OutOfFuel => False
  end.
Proof.
  intros Hd. change (returns (DecodeArgs types data) (Forall2 decoded_as types)). unfold DecodeArgs, wordSize.
  destruct (Z.ltb_spec (zlen data) (zlen types * 32)); [done|]. apply returns_each2. intros j t Hj.
  eapply returns_bind; [apply returns_slice; lia|]. intros w Hw. apply returns_decodeArg; [done|blia].
Qed.

(** [ParseABIType] inverts [String] on the supported types. *)
Theorem ParseABIType_String t : ParseABIType (TypeString t) = Ok t ∨ ∃ n, t = ABITypeUnknown n.
Proof. destruct t; [left; reflexivity..|]. right. eauto. Qed.

(** ** Concrete inputs *)

Definition ex_types : list ABIType :=
  [ABITypeString; ABITypeUint256; ABITypeUint256Array; ABITypeBool; ABITypeAddressArray; ABITypeBytes32].
Definition ex_values : list value :=
  [VString (str_bytes "hello"); VBig None; VBigs [Some 1; Some (2 ^ 255)]; VBool true;
   VAddresses [copy20 (replicate 20 xaa)]; VBytes32 zero32].

Lemma ex_encodable : encodable ex_types ex_values.
Proof. unfold encodable, ex_types, ex_values. repeat constructor; unfold in_word; cbn; lia. Qed.

Lemma DecodeArgs_EncodeArgs_witness : ∃ b, EncodeArgs ex_types ex_values = Ok b ∧
  (zlen b < 2 ^ 63 → DecodeArgs ex_types b = Ok (norm <$> ex_values)).
Proof. apply DecodeArgs_EncodeArgs. exact ex_encodable. Defined.

Lemma DecodeArgs_typed_witness :
  match DecodeArgs [ABITypeString] (be_bytes 32 32 ++ be_bytes 32 (2 ^ 63 - 1)) with
  | Ok values => Forall2 decoded_as [ABITypeString] values
  | Err _ => True
  | Panic | OutOfFuel => False
  end.
Proof. apply DecodeArgs_typed. vm_compute. reflexivity. Defined.

(** Offsets may overlap or leave gaps, so decoding is not injective. *)
Example DecodeArgs_gap :
  DecodeArgs [ABITypeBytes] (be_bytes 32 32 ++ be_bytes 32 0) = Ok [VBytes []] ∧
  DecodeArgs [ABITypeBytes] (be_bytes 32 64 ++ be_bytes 32 7 ++ be_bytes 32 0) = Ok [VBytes []].
Proof. split; vm_compute; reflexivity. Qed.
