(* ===== verification/Eip712.v ===== *)
(** * The [chain/eip712] package

    A translation of src/chain/eip712/eip712.go and its properties: signatures
    recover to the signer, digests separate domains and structs unless Keccak-256
    collides on the strings hashed, and the pre-images of transactions, personal
    messages and typed data are pairwise disjoint. *)
From S2P Require Import Prelude GoBig Keccak Rlp Secp256k1.
From S2P Require Import Ethereum Wallet WalletProofs WalletRoundtrip.
Import Secp256k1.
#[local] Open Scope Z_scope.

Module Eip712.

Inductive error : Type :=
| ErrInvalidDomain
| ErrNilWallet
| ErrSign
| ErrSignatureLength
| ErrRecoveryID
| ErrRecover
| ErrAddress.

Record DomainSeparator : Type := Domain {
  Name : bytes;
  Version : bytes;
  ChainID : option Z;
  VerifyingContract : Ethereum.Address;
  Salt : array32
}.

Definition Validate (d : DomainSeparator) : outcome error unit :=
  match ChainID d with
  | None => Err ErrInvalidDomain
  | Some n =>
      if n <? 0 then Err ErrInvalidDomain
      else if 256 <? BitLen n then Err ErrInvalidDomain
      else Ok tt
  end.

Definition encodeUint256 (n : option Z) : bytes :=
  match n with
  | None => replicate 32 x00
  | Some z =>
      if (z <=? 0) || (256 <? BitLen z) then replicate 32 x00
      else let b := big_bytes z in replicate (32 - length b) x00 ++ b
  end.

Definition encodeAddress (addr : Ethereum.Address) : bytes := replicate 12 x00 ++ arr20 addr.

Section Operations.
Context `{K : Keccak, D : Dcrd}.

Definition keccak256 (data : bytes) : array32 := keccak_sum data.

Definition keccak256Concat (parts : list bytes) : array32 := keccak_sum (mjoin parts).

Definition domainType : bytes :=
  str_bytes "EIP712Domain(string name,string version,uint256 chainId,address verifyingContract,bytes32 salt)".
Definition domainTypeHash : array32 := keccak256 domainType.

(** The five fields in canonical order. *)
Definition domain_encoded (d : DomainSeparator) : bytes :=
  arr (keccak256 (Name d)) ++ arr (keccak256 (Version d)) ++ encodeUint256 (ChainID d) ++
  encodeAddress (VerifyingContract d) ++ arr (Salt d).

Definition Hash (d : DomainSeparator) : outcome error array32 :=
  _ ← Validate d;
  Ok (keccak256Concat [arr domainTypeHash; domain_encoded d]).

Definition HashStruct (typeHash encodedFields : bytes) : array32 :=
  keccak256Concat [typeHash; encodedFields].

Definition digest_preimage (domainSeparator structHash : array32) : bytes :=
  [x19; x01] ++ arr domainSeparator ++ arr structHash.

Definition Digest (domainSeparator structHash : array32) : array32 :=
  keccak256Concat [[x19; x01]; arr domainSeparator; arr structHash].

Definition Sign (w : Wallet.wallet) (domainSeparator structHash : array32) : outcome error bytes :=
  match w with
  | None => Err ErrNilWallet
  | Some _ =>
      let digest := Digest domainSeparator structHash in
      wrap_err (λ _, ErrSign) (Wallet.SignDigest w (arr digest))
  end.

Definition Recover (sig : bytes) (domainSeparator structHash : array32) : outcome error Ethereum.Address :=
  if negb (zlen sig =? 65) then Err ErrSignatureLength
  else
    let digest := Digest domainSeparator structHash in
    v ← index sig 64;
    let recID := z2b (b2z v - 27) in
    if 3 <? b2z recID then Err ErrRecoveryID
    else
      pub ← wrap_err (λ _, ErrRecover) (RecoverPubKey (take 64 sig) (arr digest) recID);
      wrap_err (λ _, ErrAddress) (Ethereum.FromPublicKey (Some pub)).

End Operations.
End Eip712.

Import Eip712.

(** ** Field encodings *)

Lemma encodeUint256_be n : 0 ≤ n → BitLen n ≤ 256 → encodeUint256 (Some n) = be_bytes 32 n.
Proof.
  intros Hn Hb. unfold encodeUint256. apply BitLen_le in Hb; [|done]. rewrite (Z.abs_eq n) in Hb by done.
  assert (length (big_bytes n) ≤ 32)%nat.
  { apply big_bytes_length. change (256 ^ Z.of_nat 32) with (2 ^ 256). lia. }
  destruct (Z.leb_spec n 0).
  - assert (n = 0) as -> by lia. done.
  - rewrite (proj2 (Z.ltb_ge _ _)) by (apply BitLen_le; lia). cbn [orb].
    rewrite <- be_bytes_pad, big_bytes_value by done. by rewrite Z.abs_eq.
Qed.

Lemma encodeAddress_inj a b : Eip712.encodeAddress a = Eip712.encodeAddress b → a = b.
Proof. intros E. apply app_inv_head in E. by apply arr20_inj. Qed.

Lemma app_split {A} (a b c d : list A) : length a = length c → a ++ b = c ++ d → a = c ∧ b = d.
Proof. intros Hl E. by apply app_inj_1. Qed.

Section Binding.
Context `{K : Keccak}.

Lemma Digest_preimage ds sh : Digest ds sh = keccak_sum (digest_preimage ds sh).
Proof. unfold Digest, keccak256Concat, digest_preimage. cbn. by rewrite app_nil_r. Qed.

Lemma digest_preimage_inj ds sh ds' sh' :
  digest_preimage ds sh = digest_preimage ds' sh' → ds = ds' ∧ sh = sh'.
Proof.
  intros E. apply app_inv_head, app_split in E as [E1 E2]; [|by rewrite !arr_length]. split; by apply arr_inj.
Qed.

Lemma Hash_Ok d h : Hash d = Ok h ↔
  (∃ n, ChainID d = Some n ∧ 0 ≤ n < 2 ^ 256) ∧ h = keccak_sum (arr domainTypeHash ++ domain_encoded d).
Proof.
  unfold Hash, Validate, keccak256Concat. rewrite bind_Ok. cbn [mjoin list_join]. rewrite app_nil_r.
  destruct (ChainID d) as [n|] eqn:Hc; [|split; [by intros ([] & ? & _)|by intros ((n & ? & _) & _)]].
  destruct (Z.ltb_spec n 0) as [Hn|Hn]; [split; [by intros ([] & ? & _)|intros ((m & [= <-] & ?) & _); lia]|].
  destruct (Z.ltb_spec 256 (BitLen n)) as [Hb|Hb].
  - split; [by intros ([] & ? & _)|]. intros ((m & [= <-] & Hm) & _).
    assert (BitLen n ≤ 256) by (apply BitLen_le; lia). lia.
  - apply BitLen_le in Hb; [|done]. split.
    + intros ([] & _ & [= <-]). split; [exists n; split; [done|lia]|done].
    + intros [_ ->]. by exists tt.
Qed.

(** The fields of a valid domain are recovered from the string that is hashed, up to
    the hashes of the name and the version. *)
Lemma domain_encoded_inj d d' n n' :
  ChainID d = Some n → 0 ≤ n < 2 ^ 256 → ChainID d' = Some n' → 0 ≤ n' < 2 ^ 256 →
  domain_encoded d = domain_encoded d' →
  keccak_sum (Name d) = keccak_sum (Name d') ∧ keccak_sum (Version d) = keccak_sum (Version d') ∧
  ChainID d = ChainID d' ∧ VerifyingContract d = VerifyingContract d' ∧ Salt d = Salt d'.
Proof.
  intros Hc Hn Hc' Hn' E. unfold domain_encoded in E. rewrite Hc, Hc' in E.
  rewrite !encodeUint256_be in E by (lia || apply BitLen_le; lia).
  apply app_split in E as [E1 E]; [|by rewrite !arr_length].
  apply app_split in E as [E2 E]; [|by rewrite !arr_length].
  apply app_split in E as [E3 E]; [|by rewrite !be_bytes_length].
  apply app_split in E as [E4 E5]; [|unfold Eip712.encodeAddress; by rewrite !length_app, !arr20_length].
  apply be_bytes_inj in E3; [|change (256 ^ Z.of_nat 32) with (2 ^ 256); lia..].
  split_and!; [by apply arr_inj|by apply arr_inj|congruence|by apply encodeAddress_inj|by apply arr_inj].
Qed.

(** The hash has no collision among the given strings. *)
Definition no_collision (l : list bytes) : Prop :=
  ∀ a b, a ∈ l → b ∈ l → keccak_sum a = keccak_sum b → a = b.

(** The strings hashed for the digest of a struct in a domain. *)
Definition hashed (d : DomainSeparator) (typeHash fields : bytes) : list bytes :=
  let sep := arr domainTypeHash ++ domain_encoded d in
  [Name d; Version d; sep; typeHash ++ fields;
   digest_preimage (keccak_sum sep) (keccak_sum (typeHash ++ fields))].

Lemma HashStruct_eq th f : HashStruct th f = keccak_sum (th ++ f).
Proof. unfold HashStruct, keccak256Concat. cbn [mjoin list_join]. by rewrite app_nil_r. Qed.

Lemma Digest_bound d d' h h' th f th' f' :
  Hash d = Ok h → Hash d' = Ok h' → length th = 32%nat → length th' = 32%nat →
  no_collision (hashed d th f ++ hashed d' th' f') →
  Digest h (HashStruct th f) = Digest h' (HashStruct th' f') →
  d = d' ∧ th = th' ∧ f = f'.
Proof.
  intros [(n & Hc & Hn) ->]%Hash_Ok [(n' & Hc' & Hn') ->]%Hash_Ok Hl Hl' Hno. rewrite !Digest_preimage, !HashStruct_eq.
  intros E. apply Hno in E; [|set_solver..]. apply digest_preimage_inj in E as [E1 E2].
  apply Hno in E1; [|set_solver..]. apply Hno in E2; [|set_solver..].
  apply app_split in E2 as [-> ->]; [|lia]. apply app_inv_head in E1.
  destruct (domain_encoded_inj d d' n n') as (N & V & C & A & S); try done.
  apply Hno in N; [|set_solver..]. apply Hno in V; [|set_solver..].
  split; [|done]. destruct d, d'; cbn in *. congruence.
Qed.

(** Domain separation.  Unless Keccak-256 collides on the strings actually hashed, one
    digest stands for one domain (name, version, chain, contract and salt) and one
    struct (type hash and encoded fields). *)
Theorem Digest_binds d d' h h' th f th' f' :
  Hash d = Ok h → Hash d' = Ok h' → length th = 32%nat → length th' = 32%nat →
  no_collision (hashed d th f ++ hashed d' th' f') →
  Digest h (HashStruct th f) = Digest h' (HashStruct th' f') →
  d = d' ∧ th = th' ∧ f = f'.
Proof. apply Digest_bound. Qed.
End Binding.

Section Recovery.
Context `{K : Keccak, D : Dcrd, L : !DcrdLaws}.

Lemma Sign_recovers priv ds sh : ∃ sig a, Sign (Wallet.NewWallet (Some priv)) ds sh = Ok sig ∧
  length sig = 65%nat ∧ Wallet.Address (Wallet.NewWallet (Some priv)) = Ok a ∧ Recover sig ds sh = Ok a.
Proof.
  assert (length (arr (Digest ds sh)) = 32%nat) as Hh by apply arr_length.
  destruct (SignDigest_spec priv (arr (Digest ds sh)) Hh) as (sig & Hs & Hl & Hr).
  destruct (wallet_address priv) as (a & Hf & Ha). exists sig, a.
  split; [unfold Sign; cbn [Wallet.NewWallet]; by rewrite wrap_err_Ok|]. split; [done|]. split; [done|].
  unfold Wallet.recoverPublicKey in Hr. rewrite Hl, Hh in Hr. change (negb (Z.of_nat 65 =? 65)) with false in Hr.
  change (negb (Z.of_nat 32 =? 32)) with false in Hr. cbv iota in Hr.
  apply bind_Ok in Hr as (v & Hv & Hr). unfold Recover. rewrite Hl. change (negb (Z.of_nat 65 =? 65)) with false. cbv iota.
  apply bind_Ok. exists v. split; [apply index_inv; by apply index_inv in Hv|].
  destruct (3 <? b2z (z2b (b2z v - 27))); [done|]. apply wrap_err_Ok in Hr.
  apply bind_Ok. eexists. split; [by apply wrap_err_Ok|by apply wrap_err_Ok].
Qed.

(** [Sign] always succeeds with a key, and [Recover] returns the wallet's address from
    the signature. *)
Theorem Recover_Sign priv ds sh : ∃ sig a, Sign (Wallet.NewWallet (Some priv)) ds sh = Ok sig ∧
  Wallet.Address (Wallet.NewWallet (Some priv)) = Ok a ∧ Recover sig ds sh = Ok a.
Proof. destruct (Sign_recovers priv ds sh) as (sig & a & ? & _ & ? & ?). eauto. Qed.
End Recovery.

(** ** The signed pre-images are disjoint *)

(** No byte string is both a transaction pre-image and an EIP-191 or EIP-712 pre-image,
    and none is both of the latter: a signature made in one protocol is over a
    different string in every other. *)
Theorem preimages_disjoint `{Keccak} (d : Wallet.DecodedTx) msg ds sh : tx_wf d →
  zlen (signing_preimage d) < 2 ^ 63 →
  signing_preimage d ≠ Wallet.personalMessagePrefix msg ++ msg ∧
  signing_preimage d ≠ digest_preimage ds sh ∧
  Wallet.personalMessagePrefix msg ++ msg ≠ digest_preimage ds sh.
Proof.
  intros Hwf Hl. assert (∃ c b, signing_preimage d = c :: b ∧ c ≠ x19) as (c & b & E & Hc).
  { unfold signing_preimage, type_prefix in *.
    destruct (family_type d (wf_family d Hwf)) as [HT|[HT|HT]]; rewrite HT in *; [|by eexists _, _..].
    change (b2z x00 =? 0) with true in *. cbv iota in *. cbn [app] in *.
    edestruct encode_Lst_head as (c & b & E & Hc); [exact Hl|]. exists c, b. split; [exact E|].
    intros ->. by vm_compute in Hc. }
  rewrite E. split_and!; intros Eq; injection Eq; congruence.
Qed.

(** ** Concrete inputs *)

Lemma no_collision_NoDup `{Keccak} u : NoDup (keccak_sum <$> u) → no_collision (u ++ u).
Proof.
  intros Hu a b Ha Hb E. assert (a ∈ u ∧ b ∈ u) as [[i Hi]%list_elem_of_lookup [j Hj]%list_elem_of_lookup] by set_solver.
  assert (i = j) as ->; [|congruence]. eapply NoDup_lookup; [exact Hu|rewrite list_lookup_fmap, Hi; reflexivity|].
  rewrite list_lookup_fmap, Hj. cbn. by rewrite E.
Qed.

Definition ex_domain : DomainSeparator :=
  Domain (str_bytes "TrustCommitment") (str_bytes "1") (Some 1) (copy20 (replicate 20 xcc)) zero32.
Definition ex_hash : array32 := keccak_sum (arr domainTypeHash ++ domain_encoded ex_domain).

Lemma Digest_binds_witness :
  ex_domain = ex_domain ∧ arr domainTypeHash = arr domainTypeHash ∧ [x01] = [x01].
Proof.
  apply (Digest_binds ex_domain ex_domain ex_hash ex_hash (arr domainTypeHash) [x01] (arr domainTypeHash) [x01]).
  - vm_compute. reflexivity.
  - vm_compute. reflexivity.
  - apply arr_length.
  - apply arr_length.
  - apply no_collision_NoDup, (bool_decide_unpack _). vm_compute. exact I.
  - reflexivity.
Defined.

Lemma Recover_Sign_witness : let d := Toy.dcrd in ∃ sig a,
  Sign (Wallet.NewWallet (Some (Toy.mk 5))) zero32 zero32 = Ok sig ∧
  Wallet.Address (Wallet.NewWallet (Some (Toy.mk 5))) = Ok a ∧ Recover sig zero32 zero32 = Ok a.
Proof. apply (Recover_Sign (L := Toy.laws)). Defined.

Lemma preimages_disjoint_witness :
  signing_preimage Example.decoded ≠ Wallet.personalMessagePrefix [x61] ++ [x61] ∧
  signing_preimage Example.decoded ≠ digest_preimage zero32 zero32 ∧
  Wallet.personalMessagePrefix [x61] ++ [x61] ≠ digest_preimage zero32 zero32.
Proof.
  apply preimages_disjoint; [|vm_compute; reflexivity].
  pose proof (proj1 (DecodeTransaction_spec (D := Toy.dcrd) _ _) Example.raw_decodes) as (_ & H & _). exact H.
Defined.
