(* ===== verification/GoIO.v ===== *)
(** * Calls into the environment

    Go code that talks to a node runs against a world: the server, the network and
    the context.  [io W E A] is such a call; it returns an outcome and the world
    after it.  The JSON documents that cross the boundary are [json] values, what
    [encoding/json] produces for an [interface{}]. *)
From S2P Require Import Prelude.
#[local] Open Scope Z_scope.

Definition io (W E A : Type) : Type := W → outcome E A * W.

#[global] Instance io_ret W E : MRet (io W E) := λ A a w, (Ok a, w).
#[global] Instance io_bind W E : MBind (io W E) := λ A B f m w,
  let '(r, w') := m w in
  match r with
  | Ok a => f a w'
  | Err e => (Err e, w')
  | Panic => (Panic, w')
  | OutOfFuel => (OutOfFuel, w')
  end.

(** A step that does not touch the world. *)
Definition pure {W E A} (m : outcome E A) : io W E A := λ w, (m, w).

(** A method of an interface the environment implements: an error or a value. *)
Definition ext (W E A : Type) : Type := W → (E + A) * W.

(** Calling it; [f] is the error the caller wraps around. *)
Definition run {W E F A} (f : E → F) (m : ext W E A) : io W F A := λ w,
  let '(r, w') := m w in
  (match r with inl e => Err (f e) | inr a => Ok a end, w').

(** [fmt.Errorf("...: %w", err)] around a call. *)
Definition wrap_io {W E F A} (f : E → F) (m : io W E A) : io W F A := λ w,
  let '(r, w') := m w in (wrap_err f r, w').

Lemma io_bind_Ok {W E A B} (m : io W E A) (f : A → io W E B) w b w' :
  (m ≫= f) w = (Ok b, w') ↔ ∃ a w1, m w = (Ok a, w1) ∧ f a w1 = (Ok b, w').
Proof.
  unfold mbind, io_bind. destruct (m w) as [[a|e| |] w1]; [|naive_solver..].
  split; [eauto|]. by intros (a' & w2 & [= <- <-] & ?).
Qed.

Lemma wrap_io_Ok {W E F A} (f : E → F) (m : io W E A) w a w' :
  wrap_io f m w = (Ok a, w') ↔ m w = (Ok a, w').
Proof. unfold wrap_io. destruct (m w) as [[]]; cbn; naive_solver. Qed.

Lemma pure_Ok {W E A} (m : outcome E A) (w w' : W) a : pure m w = (Ok a, w') ↔ m = Ok a ∧ w' = w.
Proof. unfold pure. naive_solver. Qed.

Lemma run_Ok {W E F A} (f : E → F) (m : ext W E A) w a w' : run f m w = (Ok a, w') ↔ m w = (inr a, w').
Proof. unfold run. destruct (m w) as [[e|b] w1]; naive_solver. Qed.

(** ** JSON values *)

Inductive json : Type :=
| JNull
| JBool (b : bool)
| JNumber (lit : bytes)
| JString (s : bytes)
| JArray (l : list json)
| JObject (m : list (bytes * json)).

(** [m[key]] on a [map[string]interface{}]; a key occurs once. *)
Fixpoint json_lookup (key : bytes) (m : list (bytes * json)) : option json :=
  match m with
  | [] => None
  | (k, v) :: m' => if bool_decide (k = key) then Some v else json_lookup key m'
  end.

Lemma json_null_dec (j : json) : {j = JNull} + {j ≠ JNull}.
Proof. destruct j; (left; reflexivity) || (right; discriminate). Qed.

(** [if b { return err }] before the rest. *)
Lemma io_guard_Ok {W E A} (b : bool) e (m : io W E A) w a w' :
  (if b then pure (Err e) else m) w = (Ok a, w') ↔ b = false ∧ m w = (Ok a, w').
Proof. unfold pure. destruct b; naive_solver. Qed.

(** A call wrapped with [%w], then the rest. *)
Lemma wrap_bind_Ok {W E F A B} (f : E → F) (m : io W E A) (k : A → io W F B) w b w' :
  (wrap_io f m ≫= k) w = (Ok b, w') ↔ ∃ a w1, m w = (Ok a, w1) ∧ k a w1 = (Ok b, w').
Proof. rewrite io_bind_Ok. by setoid_rewrite wrap_io_Ok. Qed.

(** A step that does not touch the world, then the rest. *)
Lemma pure_bind_Ok {W E A B} (m : outcome E A) (k : A → io W E B) (w w' : W) b :
  (pure m ≫= k) w = (Ok b, w') ↔ ∃ a, m = Ok a ∧ k a w = (Ok b, w').
Proof. rewrite io_bind_Ok. setoid_rewrite pure_Ok. naive_solver. Qed.
