(* ===== verification/Broadcast.v ===== *)
(** * The [chain/broadcast] package

    A translation of src/chain/broadcast (broadcast.go, fees.go).  The JSON-RPC
    client is the interface [rpc.Client] of src/chain/rpc/client.go, the class
    [Client]; the cancellation of the context and the ticker belong to the world.
    The polling loop of [WaitForReceipt] takes fuel, one unit per poll. *)
From S2P Require Import Prelude GoBig GoIO RpcQuantity.
Import Quantity.
#[local] Open Scope Z_scope.

(** The methods of [rpc.Client] the package calls, the context's error, and the wait
    for the ticker or for [ctx.Done()] ([Some e] when the context ended first). *)
Class Client (W : Type) : Type := {
  rpc_error : Type;
  ctx_err : W → option rpc_error;
  await : Z → W → option rpc_error * W;
  GetTransactionCount : bytes → bytes → ext W rpc_error bytes;
  EstimateGas : json → ext W rpc_error bytes;
  GasPrice : ext W rpc_error bytes;
  MaxPriorityFeePerGas : ext W rpc_error bytes;
  SendRawTransaction : bytes → ext W rpc_error bytes;
  GetTransactionReceipt : bytes → ext W rpc_error json
}.
Arguments rpc_error W {_}.

Module Broadcast.

Inductive error (R : Type) : Type :=
| ErrNilClient
| ErrRpc (e : R)
| ErrContext (e : R)
| ErrMalformedReceipt
| ErrInvalidBlockTag
| ErrQuantity (e : Quantity.error).
Arguments ErrNilClient {R}.
Arguments ErrRpc {R} e.
Arguments ErrContext {R} e.
Arguments ErrMalformedReceipt {R}.
Arguments ErrInvalidBlockTag {R}.
Arguments ErrQuantity {R} e.

(** ** broadcast.go *)

(** Nanoseconds. *)
Definition DefaultPollInterval : Z := 2 * 10 ^ 9.

Definition key (s : string) : bytes := str_bytes s.

Definition requiredReceiptFields : list bytes :=
  key <$> ["status"; "blockHash"; "blockNumber"; "transactionHash"; "transactionIndex"; "gasUsed";
           "contractAddress"; "logs"].

Record Receipt : Type := mkReceipt {
  Status : Z;
  BlockHash : bytes;
  BlockNumber : Z;
  TransactionHash : bytes;
  TransactionIndex : Z;
  GasUsed : Z;
  ContractAddress : bytes;
  Logs : list json
}.

Record waitConfig : Type := WaitConfig { pollInterval : Z }.

Definition WaitOption : Type := waitConfig → waitConfig.

Definition WithPollInterval (d : Z) : WaitOption := λ c, if 0 <? d then WaitConfig d else c.

Definition newWaitConfig (opts : list WaitOption) : waitConfig :=
  foldl (λ c opt, opt c) (WaitConfig DefaultPollInterval) opts.

Section Parse.
Context {R : Type}.

Definition receiptString (m : list (bytes * json)) (k : bytes) : outcome (error R) bytes :=
  match json_lookup k m with
  | None => Err ErrMalformedReceipt
  | Some v =>
      match v with
      | JString s => if bool_decide (s = []) then Err ErrMalformedReceipt else Ok s
      | _ => Err ErrMalformedReceipt
      end
  end.

(** A required numeric field. *)
Definition receiptNumber (m : list (bytes * json)) (k : bytes) : outcome (error R) Z :=
  s ← receiptString m k;
  wrap_err (λ _, ErrMalformedReceipt) (ParseBlockNumber s).

Definition parseReceipt (raw : json) : outcome (error R) Receipt :=
  match raw with
  | JObject m =>
      if negb (forallb (λ k, bool_decide (is_Some (json_lookup k m))) requiredReceiptFields)
      then Err ErrMalformedReceipt
      else
        status ← receiptNumber m (key "status");
        blockHash ← receiptString m (key "blockHash");
        blockNumber ← receiptNumber m (key "blockNumber");
        transactionHash ← receiptString m (key "transactionHash");
        transactionIndex ← receiptNumber m (key "transactionIndex");
        gasUsed ← receiptNumber m (key "gasUsed");
        contractAddress ←
          match json_lookup (key "contractAddress") m with
          | None | Some JNull => Ok []
          | Some (JString s) => Ok s
          | Some _ => Err ErrMalformedReceipt
          end;
        match json_lookup (key "logs") m with
        | Some (JArray logs) =>
            Ok (mkReceipt status blockHash blockNumber transactionHash transactionIndex gasUsed contractAddress logs)
        | _ => Err ErrMalformedReceipt
        end
  | _ => Err ErrMalformedReceipt
  end.

End Parse.

Section Operations.
Context `{C : Client W}.

(** A nil [rpc.Client] interface is [false] in the first argument. *)
Definition SendTx (client : bool) (rawTx : bytes) : io W (error (rpc_error W)) bytes :=
  if negb client then pure (Err ErrNilClient)
  else
    let hexStr := hex_prefix ++ hex_bytes rawTx in
    run ErrRpc (SendRawTransaction hexStr).

(** [select] on the ticker, which continues with [again], and on [ctx.Done()]. *)
Definition tick_or_done {A} (cfg : waitConfig) (again : io W (error (rpc_error W)) A) :
    io W (error (rpc_error W)) A := λ w,
  let '(done, w') := await (pollInterval cfg) w in
  match done with
  | None => again w'
  | Some e => (Err (ErrContext e), w')
  end.

(** One turn of the [for] loop per unit of fuel. *)
Fixpoint wait_loop (fuel : nat) (cfg : waitConfig) (txHash : bytes) : io W (error (rpc_error W)) Receipt :=
  match fuel with
  | O => pure OutOfFuel
  | S f =>
      raw ← run ErrRpc (GetTransactionReceipt txHash);
      match raw with
      | JNull => tick_or_done cfg (wait_loop f cfg txHash)
      | _ => pure (parseReceipt raw)
      end
  end.

Definition WaitForReceipt (fuel : nat) (client : bool) (txHash : bytes) (opts : list WaitOption) :
    io W (error (rpc_error W)) Receipt :=
  if negb client then pure (Err ErrNilClient)
  else
    let cfg := newWaitConfig opts in
    λ w,
      match ctx_err w with
      | Some e => (Err (ErrContext e), w)
      | None =>
          (* time.NewTicker panics on a non-positive interval *)
          if pollInterval cfg <=? 0 then (Panic, w)
          else wait_loop fuel cfg txHash w
      end.

(** ** fees.go *)

Definition validBlockTag (tag : bytes) : bool :=
  if bool_decide (tag ∈ key <$> ["latest"; "earliest"; "pending"; "safe"; "finalized"]) then true
  else is_ok (ParseQuantity tag).

Definition FetchNonce (client : bool) (address blockTag : bytes) : io W (error (rpc_error W)) Z :=
  if negb client then pure (Err ErrNilClient)
  else if negb (validBlockTag blockTag) then pure (Err ErrInvalidBlockTag)
  else
    hex ← run ErrRpc (GetTransactionCount address blockTag);
    pure (wrap_err ErrQuantity (ParseBlockNumber hex)).

Definition EstimateGasLimit (client : bool) (call : json) : io W (error (rpc_error W)) Z :=
  if negb client then pure (Err ErrNilClient)
  else
    hex ← run ErrRpc (EstimateGas call);
    pure (wrap_err ErrQuantity (ParseBlockNumber hex)).

Definition FetchFees (client : bool) : io W (error (rpc_error W)) (Z * Z) :=
  if negb client then pure (Err ErrNilClient)
  else
    priorityHex ← run ErrRpc MaxPriorityFeePerGas;
    priorityFee ← pure (wrap_err ErrQuantity (ParseQuantity priorityHex));
    gasHex ← run ErrRpc GasPrice;
    gasPrice ← pure (wrap_err ErrQuantity (ParseQuantity gasHex));
    pure (Ok (gasPrice, priorityFee)).

End Operations.
End Broadcast.
