(* ===== verification/BroadcastProofs.v ===== *)
(** * Properties of [chain/broadcast]

    The polling loop of [WaitForReceipt] as a step relation: the executable loop
    refines it, it returns once the node answers or the context ends, and nothing
    else stops it.  Receipts parse back, and the fee helpers issue their calls in a
    fixed order. *)
From S2P Require Import Prelude GoBig GoIO RpcQuantity Broadcast.
From stdpp Require Import relations.
Import Quantity Broadcast.
#[local] Open Scope Z_scope.

(** ** Options *)

Lemma newWaitConfig_positive ds : 0 < pollInterval (newWaitConfig (WithPollInterval <$> ds)).
Proof.
  unfold newWaitConfig. assert (0 < pollInterval (WaitConfig DefaultPollInterval)) as H by done.
  revert H. generalize (WaitConfig DefaultPollInterval). induction ds as [|d ds IH]; intros c Hc; [done|].
  cbn. apply IH. unfold WithPollInterval. destruct (Z.ltb_spec 0 d); [done|exact Hc].
Qed.

(** ** Polling *)

Section Polling.
Context `{C : Client W}.
Context (cfg : waitConfig) (txHash : bytes).

Inductive wait_state : Type :=
| Polling (w : W)
| Returned (r : outcome (error (rpc_error W)) Receipt) (w : W).

(** One turn: the call fails, the transaction is mined, the ticker fires, or the
    context ends. *)
Inductive step : wait_state → wait_state → Prop :=
| step_failed w e w' :
    GetTransactionReceipt txHash w = (inl e, w') → step (Polling w) (Returned (Err (ErrRpc e)) w')
| step_mined w raw w' :
    GetTransactionReceipt txHash w = (inr raw, w') → raw ≠ JNull →
    step (Polling w) (Returned (parseReceipt raw) w')
| step_tick w w1 w2 :
    GetTransactionReceipt txHash w = (inr JNull, w1) → await (pollInterval cfg) w1 = (None, w2) →
    step (Polling w) (Polling w2)
| step_done w w1 e w2 :
    GetTransactionReceipt txHash w = (inr JNull, w1) → await (pollInterval cfg) w1 = (Some e, w2) →
    step (Polling w) (Returned (Err (ErrContext e)) w2).

Lemma wait_loop_failed f w e w' : GetTransactionReceipt txHash w = (inl e, w') →
  wait_loop (S f) cfg txHash w = (Err (ErrRpc e), w').
Proof. intros H. cbn [wait_loop]. unfold mbind, io_bind, run. by rewrite H. Qed.

Lemma wait_loop_mined f w raw w' : GetTransactionReceipt txHash w = (inr raw, w') → raw ≠ JNull →
  wait_loop (S f) cfg txHash w = (parseReceipt raw, w').
Proof. intros H Hr. cbn [wait_loop]. unfold mbind, io_bind, run. rewrite H. by destruct raw. Qed.

Lemma wait_loop_nil f w w1 : GetTransactionReceipt txHash w = (inr JNull, w1) →
  wait_loop (S f) cfg txHash w = tick_or_done cfg (wait_loop f cfg txHash) w1.
Proof. intros H. cbn [wait_loop]. unfold mbind, io_bind, run. by rewrite H. Qed.

Lemma wait_loop_tick f w w1 w2 : GetTransactionReceipt txHash w = (inr JNull, w1) →
  await (pollInterval cfg) w1 = (None, w2) → wait_loop (S f) cfg txHash w = wait_loop f cfg txHash w2.
Proof. intros H Ha. rewrite (wait_loop_nil f w w1 H). unfold tick_or_done. by rewrite Ha. Qed.

Lemma wait_loop_done f w w1 e w2 : GetTransactionReceipt txHash w = (inr JNull, w1) →
  await (pollInterval cfg) w1 = (Some e, w2) → wait_loop (S f) cfg txHash w = (Err (ErrContext e), w2).
Proof. intros H Ha. rewrite (wait_loop_nil f w w1 H). unfold tick_or_done. by rewrite Ha. Qed.

Lemma returned_final r w s : ~ step (Returned r w) s.
Proof. by inversion 1. Qed.

(** [k] polls that find nothing, each followed by a tick. *)
Inductive idle : nat → W → W → Prop :=
| idle_0 w : idle 0 w w
| idle_S k w w1 w2 w' :
    GetTransactionReceipt txHash w = (inr JNull, w1) → await (pollInterval cfg) w1 = (None, w2) →
    idle k w2 w' → idle (S k) w w'.

Lemma idle_steps k w w' : idle k w w' → rtc step (Polling w) (Polling w').
Proof. induction 1; [apply rtc_refl|]. eapply rtc_l; [by eapply step_tick|done]. Qed.

Lemma wait_loop_idle k w w' f : idle k w w' → wait_loop (k + f) cfg txHash w = wait_loop f cfg txHash w'.
Proof. induction 1; [done|]. cbn [Nat.add]. by rewrite (wait_loop_tick _ _ _ _ H H0). Qed.

(** A complete run is some idle turns and one last turn. *)
Lemma run_idle w r w' : rtc step (Polling w) (Returned r w') →
  ∃ k w0, idle k w w0 ∧ step (Polling w0) (Returned r w').
Proof.
  remember (Polling w) as s eqn:Es. remember (Returned r w') as s' eqn:Es'. intros H. revert w Es.
  induction H as [s|s s1 s2 Hs Hr IH]; intros w ->; [done|]. destruct s1 as [w1|r1 w1].
  - inversion Hs as [| |? w0 ? Hg Ha|]; subst. destruct (IH eq_refl w1 eq_refl) as (k & w2 & Hi & Hl).
    exists (S k), w2. split; [by econstructor|done].
  - inversion Hr as [|? ? ? Hx _]; subst; [|by apply returned_final in Hx].
    exists 0%nat, w. split; [constructor|done].
Qed.

Lemma last_turn w r w' f : step (Polling w) (Returned r w') → wait_loop (S f) cfg txHash w = (r, w').
Proof.
  inversion 1; subst; eauto using wait_loop_failed, wait_loop_mined, wait_loop_done.
Qed.

Lemma parse_not_fuel raw : parseReceipt (R := rpc_error W) raw ≠ OutOfFuel.
Proof.
  assert (∀ m k, receiptString (R := rpc_error W) m k ≠ OutOfFuel) as Hs
    by (intros m k; unfold receiptString; repeat case_match; done).
  assert (∀ m k, receiptNumber (R := rpc_error W) m k ≠ OutOfFuel) as Hn.
  { intros m k. unfold receiptNumber. specialize (Hs m k). destruct (receiptString m k); cbn; try done.
    unfold ParseBlockNumber, ParseQuantity. repeat (case_match; cbn; try done). }
  destruct raw; try done. unfold parseReceipt. case_match; [done|].
  unfold mbind, outcome_bind.
  repeat match goal with
  | |- context [receiptNumber ?m ?k] => pose proof (Hn m k); destruct (receiptNumber m k); try done
  | |- context [receiptString ?m ?k] => pose proof (Hs m k); destruct (receiptString m k); try done
  end. repeat case_match; done.
Qed.

(** C17.  Refinement.  With enough fuel the loop of [WaitForReceipt] computes exactly the
    complete runs of the polling relation: it returns a result in a final world if and
    only if the relation leads there. *)
Theorem wait_loop_refines w r w' :
  (∃ fuel, wait_loop fuel cfg txHash w = (r, w') ∧ r ≠ OutOfFuel) ↔ rtc step (Polling w) (Returned r w').
Proof.
  split.
  - intros (fuel & H & Hr). revert w H. induction fuel as [|f IH]; intros w H; [by injection H as <-|].
    destruct (GetTransactionReceipt txHash w) as [res w1] eqn:Hg. destruct res as [e|raw].
    + rewrite (wait_loop_failed _ _ _ _ Hg) in H. injection H as <- <-. by apply rtc_once, step_failed.
    + destruct (json_null_dec raw) as [->|Hn].
      * destruct (await (pollInterval cfg) w1) as [[e|] w2] eqn:Ha.
        -- rewrite (wait_loop_done _ _ _ _ _ Hg Ha) in H. injection H as <- <-. by apply rtc_once, (step_done w w1).
        -- rewrite (wait_loop_tick _ _ _ _ Hg Ha) in H. eapply rtc_l; [by eapply step_tick|]. by apply IH.
      * rewrite (wait_loop_mined _ _ _ _ Hg Hn) in H. injection H as <- <-. by apply rtc_once, step_mined.
  - intros (k & w0 & Hi & Hl)%run_idle. exists (k + 1)%nat. rewrite (wait_loop_idle _ _ _ _ Hi).
    rewrite (last_turn _ _ _ 0 Hl). split; [done|]. inversion Hl; subst; try done. apply parse_not_fuel.
Qed.
End Polling.

Section Waiting.
Context `{C : Client W}.

Lemma WaitForReceipt_loop fuel txHash ds w : ctx_err w = None →
  WaitForReceipt fuel true txHash (WithPollInterval <$> ds) w =
  wait_loop fuel (newWaitConfig (WithPollInterval <$> ds)) txHash w.
Proof.
  intros Hc. unfold WaitForReceipt. cbn [negb]. rewrite Hc. pose proof (newWaitConfig_positive ds).
  by rewrite (proj2 (Z.leb_gt _ _)).
Qed.

(** C18.  Liveness.  From a live context, if after [k] empty polls the next turn is the last
    one - the node answers with a receipt, the call fails, or the context ends - then
    [WaitForReceipt] has returned that turn's result by its poll [k + 1]. *)
Theorem WaitForReceipt_live txHash ds k w w0 r w' fuel : ctx_err w = None →
  idle (newWaitConfig (WithPollInterval <$> ds)) txHash k w w0 →
  step (newWaitConfig (WithPollInterval <$> ds)) txHash (Polling w0) (Returned r w') → (k < fuel)%nat →
  WaitForReceipt fuel true txHash (WithPollInterval <$> ds) w = (r, w').
Proof.
  intros Hc Hi Hl Hf. rewrite WaitForReceipt_loop by done. replace fuel with (k + S (fuel - k - 1))%nat by lia.
  rewrite (wait_loop_idle _ _ _ _ _ _ Hi). by apply last_turn.
Qed.

(** Nothing else stops it: while the node answers with no receipt and the context lives,
    no number of polls returns. *)
Theorem WaitForReceipt_forever txHash ds w : ctx_err w = None →
  (∀ k, ∃ w0, idle (newWaitConfig (WithPollInterval <$> ds)) txHash k w w0) →
  ∀ fuel, (WaitForReceipt fuel true txHash (WithPollInterval <$> ds) w).1 = OutOfFuel.
Proof.
  intros Hc Hall fuel. rewrite WaitForReceipt_loop by done. destruct (Hall fuel) as [w0 Hi].
  rewrite <- (Nat.add_0_r fuel), (wait_loop_idle _ _ _ _ _ _ Hi). done.
Qed.

(** ** Fees *)

(** [FetchFees] asks for the priority fee first and for the gas price after it. *)
Lemma FetchFees_Ok w g p w' : FetchFees true w = (Ok (g, p), w') ↔
  ∃ ph w1 gh, MaxPriorityFeePerGas w = (inr ph, w1) ∧ ParseQuantity ph = Ok p ∧
    GasPrice w1 = (inr gh, w') ∧ ParseQuantity gh = Ok g.
Proof.
  unfold FetchFees. cbn [negb]. rewrite io_bind_Ok. setoid_rewrite run_Ok. setoid_rewrite io_bind_Ok.
  setoid_rewrite pure_Ok. setoid_rewrite wrap_err_Ok. setoid_rewrite io_bind_Ok. setoid_rewrite run_Ok.
  setoid_rewrite io_bind_Ok. setoid_rewrite pure_Ok. setoid_rewrite wrap_err_Ok. naive_solver.
Qed.

(** When the gas price fails, the priority fee has already been requested. *)
Theorem FetchFees_gas_price_fails w ph p w1 e w2 :
  MaxPriorityFeePerGas w = (inr ph, w1) → ParseQuantity ph = Ok p → GasPrice w1 = (inl e, w2) →
  FetchFees true w = (Err (ErrRpc e), w2).
Proof.
  intros H1 H2 H3. unfold FetchFees, mbind, io_bind, run, pure. cbn [negb]. by rewrite H1, H2, H3.
Qed.

(** [FetchNonce] refuses an invalid block tag before any call is made. *)
Theorem FetchNonce_invalid_tag addr tag w : validBlockTag tag = false →
  FetchNonce true addr tag w = (Err ErrInvalidBlockTag, w).
Proof. intros H. unfold FetchNonce. by rewrite H. Qed.
End Waiting.

(** ** Receipts *)

(** The document a node sends for a mined transaction. *)
Definition receipt_json (r : Receipt) : json :=
  let number n := JString (FormatQuantity (Some n)) in
  JObject
    [ (key "status", number (Status r)); (key "blockHash", JString (BlockHash r));
      (key "blockNumber", number (BlockNumber r)); (key "transactionHash", JString (TransactionHash r));
      (key "transactionIndex", number (TransactionIndex r)); (key "gasUsed", number (GasUsed r));
      (key "contractAddress", if bool_decide (ContractAddress r = []) then JNull else JString (ContractAddress r));
      (key "logs", JArray (Logs r)) ].

Record receipt_ok (r : Receipt) : Prop := {
  ok_status : is_u64 (Status r);
  ok_hash : BlockHash r ≠ [];
  ok_number : is_u64 (BlockNumber r);
  ok_tx : TransactionHash r ≠ [];
  ok_index : is_u64 (TransactionIndex r);
  ok_gas : is_u64 (GasUsed r)
}.

Lemma receiptString_at {R} m k s : json_lookup k m = Some (JString s) → s ≠ [] → receiptString (R := R) m k = Ok s.
Proof. intros H Hs. unfold receiptString. rewrite H. by rewrite bool_decide_eq_false_2. Qed.

Lemma FormatQuantity_nonempty n : FormatQuantity n ≠ [].
Proof. unfold FormatQuantity. by repeat case_match. Qed.

Lemma receiptNumber_at {R} m k n : json_lookup k m = Some (JString (FormatQuantity (Some n))) → is_u64 n →
  receiptNumber (R := R) m k = Ok n.
Proof.
  intros H Hn. unfold receiptNumber. rewrite (receiptString_at _ _ _ H) by apply FormatQuantity_nonempty.
  cbn [mbind outcome_bind]. by rewrite ParseBlockNumber_Format.
Qed.

(** Round trip: the document of a receipt parses back to the receipt. *)
Lemma parseReceipt_json {R} r : receipt_ok r → parseReceipt (R := R) (receipt_json r) = Ok r.
Proof.
  intros [H1 H2 H3 H4 H5 H6]. unfold parseReceipt, receipt_json.
  match goal with |- context [forallb ?f ?l] => replace (forallb f l) with true by reflexivity end. cbn [negb].
  apply bind_Ok. eexists. split; [by apply receiptNumber_at|]. apply bind_Ok. eexists. split; [by apply receiptString_at|].
  apply bind_Ok. eexists. split; [by apply receiptNumber_at|]. apply bind_Ok. eexists. split; [by apply receiptString_at|].
  apply bind_Ok. eexists. split; [by apply receiptNumber_at|]. apply bind_Ok. eexists. split; [by apply receiptNumber_at|].
  apply bind_Ok. exists (ContractAddress r). split; [|by destruct r].
  change (json_lookup (key "contractAddress") _) with
    (Some (if bool_decide (ContractAddress r = []) then JNull else JString (ContractAddress r))).
  by case_bool_decide as E; [rewrite E|].
Qed.

(** ** A node that mines after a while *)

Module Node.

(** The world counts the polls that are still to find nothing. *)
Definition receipt : Receipt :=
  mkReceipt 1 (str_bytes "0xaa") 456 (str_bytes "0xbb") 10 21000 [] [].

#[local] Instance client : Client nat := {|
  rpc_error := string;
  ctx_err _ := None;
  await _ w := (None, pred w);
  GetTransactionCount _ _ w := (inr (str_bytes "0x7"), w);
  EstimateGas _ w := (inr (str_bytes "0x5208"), w);
  GasPrice w := (inl "timeout"%string, S w);
  MaxPriorityFeePerGas w := (inr (str_bytes "0x1"), S w);
  SendRawTransaction _ w := (inr (str_bytes "0xbb"), w);
  GetTransactionReceipt _ w := (inr (if (w =? 0)%nat then receipt_json receipt else JNull), w)
|}.

(** A node on which the transaction is never mined. *)
#[local] Instance silent : Client unit := {|
  rpc_error := string;
  ctx_err _ := None;
  await _ w := (None, w);
  GetTransactionCount _ _ w := (inl ""%string, w);
  EstimateGas _ w := (inl ""%string, w);
  GasPrice w := (inl ""%string, w);
  MaxPriorityFeePerGas w := (inl ""%string, w);
  SendRawTransaction _ w := (inl ""%string, w);
  GetTransactionReceipt _ w := (inr JNull, w)
|}.

Lemma idle_down cfg h k : idle (C := client) cfg h k k 0%nat.
Proof. induction k as [|k IH]; [constructor|]. by eapply idle_S. Qed.

Lemma idle_silent cfg h k : idle (C := silent) cfg h k tt tt.
Proof. induction k as [|k IH]; [constructor|]. by eapply idle_S. Qed.
End Node.

Lemma WaitForReceipt_live_witness :
  WaitForReceipt (C := Node.client) 4 true [] (WithPollInterval <$> [5]) 3%nat = (Ok Node.receipt, 0%nat).
Proof.
  apply (WaitForReceipt_live (C := Node.client) [] [5] 3 3%nat 0%nat); [reflexivity|apply Node.idle_down| |lia].
  apply (step_mined (C := Node.client) _ _ 0%nat (receipt_json Node.receipt)); [reflexivity|done].
Defined.

Lemma WaitForReceipt_forever_witness :
  (WaitForReceipt (C := Node.silent) 100 true [] (WithPollInterval <$> []) tt).1 = OutOfFuel.
Proof.
  apply (WaitForReceipt_forever (C := Node.silent) [] [] tt); [reflexivity|].
  intros k. exists tt. apply Node.idle_silent.
Defined.

Lemma FetchFees_gas_price_fails_witness :
  FetchFees (C := Node.client) true 0%nat = (Err (ErrRpc "timeout"%string), 2%nat).
Proof.
  apply (FetchFees_gas_price_fails (C := Node.client) 0%nat (str_bytes "0x1") 1 1%nat "timeout"%string 2%nat); reflexivity.
Defined.

Lemma FetchNonce_invalid_tag_witness :
  FetchNonce (C := Node.client) true [] (str_bytes "newest") 0%nat = (Err ErrInvalidBlockTag, 0%nat).
Proof. apply FetchNonce_invalid_tag. vm_compute. reflexivity. Defined.
