(* ===== verification/ChainCommitment.v ===== *)
(** * The [chain/commitment] package: anchoring roots on a chain

    A translation of src/chain/commitment (errors.go, anchor.go, proof.go,
    provider.go, publish.go, verify.go, checker.go).  The interface [Provider] is a
    record of calls on a world; [NewRPCProvider] builds one from a JSON-RPC client,
    the class [RPCClient].  [json.Unmarshal] of a bound proof is an argument of
    [Checker_Verify]. *)
From S2P Require Import Prelude Sha256 GoBig GoIO Keccak Canonical Secp256k1 Ethereum Wallet Abi Eip712.
From S2P Require Import RpcQuantity Broadcast Attestation Authority Commitment CommitmentObject Verification.
Import Secp256k1.
#[local] Open Scope Z_scope.

(** The interface [RPCClient] of provider.go: [rpc.Client] and two more methods. *)
Class RPCClient (W : Type) : Type := {
  rpc_client :: Client W;
  rpc_BlockNumber : ext W (rpc_error W) bytes;
  rpc_Call : list (bytes * json) → bytes → ext W (rpc_error W) bytes
}.

Module ChainCommitment.

Notation Receipt := Broadcast.Receipt.

(** ** errors.go *)

(** The sentinels, the unnamed errors, and an error of the provider [P]. *)
Inductive error (P : Type) : Type :=
| ErrNilAnchor
| ErrNilWallet
| ErrInvalidAnchor
| ErrMissingTxParams
| ErrMalformedReceipt
| ErrReceiptMismatch
| ErrChainIDMismatch
| ErrNotConfirmed
| ErrRootMismatch
| ErrBindingMismatch
| ErrBadSignature
| ErrAddress
| ErrDomain
| ErrEncode
| ErrSign
| ErrNilProvider
| ErrMalformedProof
| ErrProvider (e : P).
Arguments ErrNilAnchor {P}.
Arguments ErrNilWallet {P}.
Arguments ErrInvalidAnchor {P}.
Arguments ErrMissingTxParams {P}.
Arguments ErrMalformedReceipt {P}.
Arguments ErrReceiptMismatch {P}.
Arguments ErrChainIDMismatch {P}.
Arguments ErrNotConfirmed {P}.
Arguments ErrRootMismatch {P}.
Arguments ErrBindingMismatch {P}.
Arguments ErrBadSignature {P}.
Arguments ErrAddress {P}.
Arguments ErrDomain {P}.
Arguments ErrEncode {P}.
Arguments ErrSign {P}.
Arguments ErrNilProvider {P}.
Arguments ErrMalformedProof {P}.
Arguments ErrProvider {P} e.

(** ** anchor.go *)

Definition deriveNamespacePrefix : bytes := str_bytes "TrustCommitment/".

Record Anchor : Type := MkAnchor { ChainID : option Z; Contract : Ethereum.Address }.

Section Anchors.
Context {P : Type}.

Definition validateChainID (chainID : option Z) : outcome (error P) unit :=
  match chainID with
  | None => Err ErrInvalidAnchor
  | Some n => if (n <=? 0) || (256 <? BitLen n) then Err ErrInvalidAnchor else Ok tt
  end.

(** A nil chain ID is dereferenced. *)
Definition uint256BE (chainID : option Z) : outcome (error P) array32 :=
  match chainID with
  | None => Panic
  | Some n => out ← fill_bytes 32 n; Ok (copy32 out)
  end.

Definition Validate (a : option Anchor) : outcome (error P) unit :=
  match a with
  | None => Err ErrNilAnchor
  | Some a =>
      _ ← validateChainID (ChainID a);
      if bool_decide (Contract a = zero20) then Err ErrInvalidAnchor else Ok tt
  end.

Definition NewAnchor (chainID : option Z) (contract : Ethereum.Address) : outcome (error P) Anchor :=
  let a := MkAnchor chainID contract in
  _ ← Validate (Some a);
  Ok a.

Definition DeriveAnchor `{Keccak} (chainID : option Z) (namespace : bytes) : outcome (error P) Anchor :=
  _ ← validateChainID chainID;
  id ← uint256BE chainID;
  let buf := deriveNamespacePrefix ++ namespace ++ arr id in
  let digest := keccak_sum buf in
  Ok (MkAnchor chainID (copy20 (drop 12 (arr digest)))).

Definition ParseAnchor `{Keccak} (chainID : option Z) (s : string) : outcome (error P) Anchor :=
  _ ← validateChainID chainID;
  addr ← wrap_err (λ _, ErrAddress) (Ethereum.ParseAddress s);
  Ok (MkAnchor chainID addr).

(** ** proof.go *)

Definition ProofStructType : bytes :=
  str_bytes "Commitment(bytes32 root,bytes32 txHash,uint256 blockNumber)".

Record CommitmentProof : Type := MkProof {
  Root : array32;
  PChainID : option Z;
  PContract : array20;
  TxHash : array32;
  BlockNumber : Z;
  Sig : bytes
}.

Definition parseTxHash (s : bytes) : outcome (error P) array32 :=
  let body := TrimPrefix s (str_bytes "0x") in
  match unhex_bytes body with
  | None => Err ErrMalformedReceipt
  | Some decoded => if negb (zlen decoded =? 32) then Err ErrMalformedReceipt else Ok (copy32 decoded)
  end.

Context `{K : Keccak, D : Dcrd}.

Definition commitmentDomain (a : option Anchor) : outcome (error P) (Eip712.DomainSeparator * array32) :=
  match a with
  | None => Err ErrNilAnchor
  | Some a =>
      let domain := Eip712.Domain (str_bytes "TrustCommitment") (str_bytes "1") (ChainID a) (Contract a) zero32 in
      domainHash ← wrap_err (λ _, ErrDomain) (Eip712.Hash domain);
      Ok (domain, domainHash)
  end.

Definition commitmentStructHash (root txHash : array32) (blockNumber : Z) : outcome (error P) array32 :=
  encoded ← wrap_err (λ _, ErrEncode)
    (Abi.EncodeArgs [Abi.ABITypeBytes32; Abi.ABITypeBytes32; Abi.ABITypeUint256]
       [Abi.VBytes32 root; Abi.VBytes32 txHash; Abi.VBig (Some blockNumber)]);
  let typeHash := keccak_sum ProofStructType in
  Ok (Eip712.HashStruct (arr typeHash) encoded).

Definition Proof_ (root : array32) (a : option Anchor) (r : Receipt) (w : Wallet.wallet) :
    outcome (error P) CommitmentProof :=
  match a, w with
  | None, _ => Err ErrNilAnchor
  | Some _, None => Err ErrNilWallet
  | Some anchor, Some _ =>
      txHash ← parseTxHash (Broadcast.TransactionHash r);
      '(_, domainHash) ← commitmentDomain a;
      structHash ← commitmentStructHash root txHash (Broadcast.BlockNumber r);
      sig ← wrap_err (λ _, ErrSign) (Eip712.Sign w domainHash structHash);
      Ok (MkProof root (ChainID anchor) (Contract anchor) txHash (Broadcast.BlockNumber r) sig)
  end.

Definition VerifyCommitmentProof (p : CommitmentProof) : outcome (error P) Ethereum.Address :=
  let a := MkAnchor (PChainID p) (PContract p) in
  '(_, domainHash) ← wrap_err (λ _ : error P, ErrBadSignature) (commitmentDomain (Some a));
  structHash ← wrap_err (λ _ : error P, ErrBadSignature) (commitmentStructHash (Root p) (TxHash p) (BlockNumber p));
  wrap_err (λ _, ErrBadSignature) (Eip712.Recover (Sig p) domainHash structHash).

End Anchors.

(** ** provider.go *)

(** The interface [Provider]. *)
Record Provider (W P : Type) : Type := MkProvider {
  SendTx : bytes → io W P bytes;
  GetReceipt : bytes → io W P (option Receipt);
  GetBlockNumber : io W P Z;
  GetRoot : Ethereum.Address → bytes → io W P array32
}.
Arguments SendTx {W P} p raw : rename.
Arguments GetReceipt {W P} p txHash : rename.
Arguments GetBlockNumber {W P} p : rename.
Arguments GetRoot {W P} p contract blockTag : rename.

Definition RootSignature : string := "root()".

(** The errors of an [RPCProvider]. *)
Inductive rpc_failure (R : Type) : Type :=
| ErrNilClient
| ErrBroadcast (e : Broadcast.error R)
| ErrCall (e : R)
| ErrQuantity (e : Quantity.error)
| ErrDecodeRoot
| ErrRootGetterFailed.
Arguments ErrNilClient {R}.
Arguments ErrBroadcast {R} e.
Arguments ErrCall {R} e.
Arguments ErrQuantity {R} e.
Arguments ErrDecodeRoot {R}.
Arguments ErrRootGetterFailed {R}.

(** The client field is nil or the client of the world. *)
Record RPCProvider : Type := MkRPC { client : bool; pollInterval : Z }.

Definition ProviderOption : Type := RPCProvider → RPCProvider.

Definition WithPollInterval (d : Z) : ProviderOption := λ p, if 0 <? d then MkRPC (client p) d else p.

Definition NewRPCProvider (c : bool) (opts : list ProviderOption) : RPCProvider :=
  foldl (λ p opt, opt p) (MkRPC c Broadcast.DefaultPollInterval) opts.

Section Rpc.
Context `{C : RPCClient W, K : Keccak}.
#[local] Notation call := (io W (rpc_failure (rpc_error W))).

Definition RPC_SendTx (p : RPCProvider) (rawTx : bytes) : call bytes :=
  if negb (client p) then pure (Err ErrNilClient)
  else wrap_io ErrBroadcast (Broadcast.SendTx (client p) rawTx).

Definition RPC_Receipt (fuel : nat) (p : RPCProvider) (txHash : bytes) : call (option Receipt) :=
  if negb (client p) then pure (Err ErrNilClient)
  else
    r ← wrap_io ErrBroadcast
      (Broadcast.WaitForReceipt fuel (client p) txHash [Broadcast.WithPollInterval (pollInterval p)]);
    pure (Ok (Some r)).

Definition RPC_BlockNumber (p : RPCProvider) : call Z :=
  if negb (client p) then pure (Err ErrNilClient)
  else
    hexStr ← run ErrCall rpc_BlockNumber;
    pure (wrap_err ErrQuantity (Quantity.ParseBlockNumber hexStr)).

Definition RPC_Root (p : RPCProvider) (contract : Ethereum.Address) (blockTag : bytes) : call array32 :=
  if negb (client p) then pure (Err ErrNilClient)
  else
    let selector := Abi.FunctionSelector RootSignature in
    let callArgs := [ (str_bytes "to", JString (str_bytes (Ethereum.Hex contract)));
                      (str_bytes "data", JString (str_bytes "0x" ++ hex_bytes selector)) ] in
    res ← run ErrCall (rpc_Call callArgs blockTag);
    let body := TrimPrefix res (str_bytes "0x") in
    match unhex_bytes body with
    | None => pure (Err ErrDecodeRoot)
    | Some decoded =>
        if negb (zlen decoded =? 32) then pure (Err ErrRootGetterFailed)
        else pure (Ok (copy32 decoded))
    end.

(** An [RPCProvider] as a [Provider]; [fuel] bounds the polls of [Receipt]. *)
Definition rpc_provider (fuel : nat) (p : RPCProvider) : Provider W (rpc_failure (rpc_error W)) :=
  MkProvider W _ (RPC_SendTx p) (RPC_Receipt fuel p) (RPC_BlockNumber p) (RPC_Root p).
End Rpc.

(** ** publish.go *)

Definition PublishSignature : string := "publishRoot(bytes32)".

Definition publishCallData {P} `{Keccak} (root : array32) : outcome (error P) bytes :=
  body ← wrap_err (λ _, ErrEncode) (Abi.EncodeArgs [Abi.ABITypeBytes32] [Abi.VBytes32 root]);
  let sel := Abi.FunctionSelector PublishSignature in
  Ok (sel ++ body).

Record PublishConfig : Type := MkPublish { Nonce : Z; GasLimit : Z; GasPrice : option Z }.

Definition PublishOption : Type := PublishConfig → PublishConfig.

Definition WithNonce (n : Z) : PublishOption := λ c, MkPublish n (GasLimit c) (GasPrice c).
Definition WithGasLimit (n : Z) : PublishOption := λ c,
  if 0 <? n then MkPublish (Nonce c) n (GasPrice c) else c.
Definition WithGasPrice (p : option Z) : PublishOption := λ c,
  match p with Some _ => MkPublish (Nonce c) (GasLimit c) p | None => c end.

Definition newPublishConfig (opts : list PublishOption) : PublishConfig :=
  foldl (λ c opt, opt c) (MkPublish 0 0 None) opts.

Definition statusOr (r : option Receipt) : Z :=
  match r with None => 0 | Some r => Broadcast.Status r end.

Section Chain.
Context `{K : Keccak, D : Dcrd} {W P : Type}.
#[local] Notation call := (io W (error P)).

Definition publish_tx (a : Anchor) (cfg : PublishConfig) (data : bytes) : Wallet.Transaction :=
  Wallet.Legacy (Wallet.mkLegacy (ChainID a) (Nonce cfg) (GasPrice cfg) (GasLimit cfg)
                   (Some (Contract a)) (Some 0) data).

Definition Publish (a : option Anchor) (root : array32) (w : Wallet.wallet) (p : option (Provider W P))
    (opts : list PublishOption) : call Receipt :=
  match a, w, p with
  | None, _, _ => pure (Err ErrNilAnchor)
  | _, None, _ => pure (Err ErrNilWallet)
  | _, _, None => pure (Err ErrNilProvider)
  | Some a, Some _, Some p =>
      let cfg := newPublishConfig opts in
      if GasLimit cfg =? 0 then pure (Err ErrMissingTxParams)
      else
        match GasPrice cfg with
        | None => pure (Err ErrMissingTxParams)
        | Some _ =>
            data ← pure (publishCallData root);
            raw ← pure (wrap_err (λ _, ErrSign) (Wallet.SignTx w (Some (publish_tx a cfg data))));
            txHash ← wrap_io ErrProvider (SendTx p raw);
            r ← wrap_io ErrProvider (GetReceipt p txHash);
            match r with
            | None => pure (Err ErrNotConfirmed)
            | Some r => if negb (Broadcast.Status r =? 1) then pure (Err ErrNotConfirmed) else pure (Ok r)
            end
        end
  end.

(** ** verify.go *)

(** [p.ChainID == nil || p.ChainID.Cmp(a.ChainID) != 0]: comparing with a nil
    pointer panics. *)
Definition chainMismatch (proof anchor : option Z) : outcome (error P) bool :=
  match proof, anchor with
  | None, _ => Ok true
  | Some _, None => Panic
  | Some x, Some y => Ok (negb (x =? y))
  end.

Definition Verify (a : option Anchor) (root : array32) (p : CommitmentProof) (prov : option (Provider W P)) :
    call unit :=
  match a with
  | None => pure (Err ErrNilAnchor)
  | Some a =>
      mismatch ← pure (chainMismatch (PChainID p) (ChainID a));
      if mismatch : bool then pure (Err ErrChainIDMismatch)
      else if negb (bool_decide (PContract p = Contract a)) then pure (Err ErrChainIDMismatch)
      else
        _ ← pure (VerifyCommitmentProof p);
        if negb (ct_equal (arr (Root p)) (arr root)) then pure (Err ErrRootMismatch)
        else
          match prov with
          | None => pure (Ok tt)
          | Some prov =>
              head ← wrap_io ErrProvider (GetBlockNumber prov);
              if head <? BlockNumber p then pure (Err ErrNotConfirmed)
              else
                let txHash := str_bytes "0x" ++ hex_bytes (arr (TxHash p)) in
                r ← wrap_io ErrProvider (GetReceipt prov txHash);
                match r with
                | None => pure (Err ErrNotConfirmed)
                | Some r =>
                    if negb (Broadcast.Status r =? 1) then pure (Err ErrNotConfirmed)
                    else
                      receiptHash ← pure (parseTxHash (Broadcast.TransactionHash r));
                      if negb (ct_equal (arr receiptHash) (arr (TxHash p))) then pure (Err ErrReceiptMismatch)
                      else if negb (Broadcast.BlockNumber r =? BlockNumber p) then pure (Err ErrReceiptMismatch)
                      else
                        let blockTag := Quantity.FormatQuantity (Some (BlockNumber p)) in
                        onChain ← wrap_io ErrProvider (GetRoot prov (PContract p) blockTag);
                        if negb (ct_equal (arr onChain) (arr root)) then pure (Err ErrRootMismatch)
                        else pure (Ok tt)
                end
          end
  end.

(** ** checker.go *)

Record Checker : Type := MkChecker { CAnchor : option Anchor; CProvider : option (Provider W P) }.

Record BoundProof : Type := MkBound {
  BAnchor : CommitmentProof;
  BAttestation : option Commitment.Proof_;
  BTerminalAuthority : option Commitment.Proof_
}.

Context `{HS : Hasher, CB : Canonical.CborLib}.

(** The part of [Verify] after the document is decoded. *)
Definition Checker_Verify_bound (c : Checker) (bound : BoundProof) (att : Attestation.Attestation)
    (terminal : Authority.Authority) : call unit :=
  _ ← Verify (CAnchor c) (Root (BAnchor bound)) (BAnchor bound) (CProvider c);
  match BAttestation bound, BTerminalAuthority bound with
  | Some ap, Some tp =>
      _ ← pure (wrap_err (λ _, ErrBindingMismatch)
            (Commitment.VerifyInclusion (Root (BAnchor bound)) ap
               (Some (CommitmentObject.as_object (CommitmentObject.NewAttestationObject (Some att))))));
      pure (wrap_err (λ _, ErrBindingMismatch)
        (Commitment.VerifyInclusion (Root (BAnchor bound)) tp
           (Some (CommitmentObject.as_object (CommitmentObject.NewAuthorityObject (Some terminal))))))
  | _, _ => pure (Err ErrBindingMismatch)
  end.

(** The terminal authority of a chain. *)
Definition terminal (chain : list Verification.AuthorityHop) : option Authority.Authority :=
  hop ← last chain; Verification.HAuthority hop.

Definition Checker_Verify (unmarshal : bytes → option BoundProof) (c : Checker)
    (proof : Verification.CommitmentProof) (inp : Verification.Inputs) : call unit :=
  match Verification.InAttestation inp, terminal (Verification.Chain inp) with
  | Some att, Some auth =>
      match unmarshal (Verification.CValue proof) with
      | None => pure (Err ErrMalformedProof)
      | Some bound => Checker_Verify_bound c bound att auth
      end
  | _, _ => pure (Err ErrBindingMismatch)
  end.

(** The checker as the engine's [CommitmentChecker], [w] the world when it is called first. *)
Definition as_checker (unmarshal : bytes → option BoundProof) (c : Checker) (w : W) :
    Verification.CommitmentChecker :=
  Verification.MkChecker W w
    (λ proof inp w, let (m, w') := Checker_Verify unmarshal c proof inp w in (wrap_err (λ _, tt) m, w')).

End Chain.
End ChainCommitment.
