(* ===== verification/ChainCommitmentProofs.v ===== *)
(** * Anchored commitments: publication, proofs and the engine's checker

    A signed proof recovers to its wallet and passes [Verify]; [Verify] accepts
    exactly the proofs whose fields, receipt and on-chain root agree; the signed
    digest binds every field; [Publish] sends the transaction it means to; and a
    valid result of the verification engine whose checker is [Checker] puts the
    attestation and its root authority under the anchored root. *)
From S2P Require Import Prelude Sha256 GoBig GoIO Keccak Canonical Secp256k1 Ethereum.
From S2P Require Import Wallet WalletProofs WalletRoundtrip Abi AbiProofs Eip712 RpcQuantity Broadcast.
From S2P Require Import Merkle MerkleInclusion Attestation Authority Commitment CommitmentProofs CommitmentObject.
From S2P Require Import SignatureProofs AuthorityProofs GoTime AttestationProofs Verification VerificationProofs ChainCommitment.
Import Secp256k1 ChainCommitment.
#[local] Open Scope Z_scope.
#[local] Arguments be_bytes : simpl never.

(** ** Anchors *)

Lemma validateChainID_Ok {P} c : validateChainID (P := P) c = Ok tt ↔ ∃ n, c = Some n ∧ 0 < n < 2 ^ 256.
Proof.
  unfold validateChainID. destruct c as [n|]; [|split; [done|by intros (? & ? & _)]].
  destruct (Z.leb_spec n 0); cbn [orb]; [split; [done|intros (? & [= <-] & ?); lia]|].
  destruct (Z.ltb_spec 256 (BitLen n)) as [Hb|Hb].
  - split; [done|]. intros (? & [= <-] & Hn). assert (BitLen n ≤ 256) by (apply BitLen_le; lia). lia.
  - apply BitLen_le in Hb; [|done]. split; [intros _; exists n; split; [done|lia]|done].
Qed.

Lemma uint256BE_Ok {P} n : 0 ≤ n < 2 ^ 256 → uint256BE (P := P) (Some n) = Ok (copy32 (be_bytes 32 n)).
Proof.
  intros Hn. unfold uint256BE, fill_bytes. rewrite (proj2 (Z.leb_le _ _)).
  - cbn [mbind outcome_bind]. by rewrite Z.abs_eq by lia.
  - change (8 * Z.of_nat 32) with 256. apply BitLen_le; lia.
Qed.

(** The string whose hash names the contract. *)
Definition anchor_preimage (n : Z) (namespace : bytes) : bytes :=
  deriveNamespacePrefix ++ namespace ++ be_bytes 32 n.

Lemma anchor_preimage_inj n ns n' ns' : 0 ≤ n < 2 ^ 256 → 0 ≤ n' < 2 ^ 256 →
  anchor_preimage n ns = anchor_preimage n' ns' → n = n' ∧ ns = ns'.
Proof.
  intros Hn Hn' E. apply app_inv_head, app_inj_2 in E as [-> E]; [|by rewrite !be_bytes_length].
  split; [|done]. apply be_bytes_inj in E; [done|change (256 ^ Z.of_nat 32) with (2 ^ 256); lia..].
Qed.

Lemma DeriveAnchor_Ok {P} `{Keccak} c ns a : DeriveAnchor (P := P) c ns = Ok a ↔
  ∃ n, c = Some n ∧ 0 < n < 2 ^ 256 ∧
    a = MkAnchor c (copy20 (drop 12 (arr (keccak_sum (anchor_preimage n ns))))).
Proof.
  unfold DeriveAnchor. rewrite bind_Ok. split.
  - intros ([] & (n & -> & Hn)%validateChainID_Ok & E). rewrite uint256BE_Ok in E by lia. cbn [mbind outcome_bind] in E.
    rewrite arr_copy32 in E by apply be_bytes_length. exists n. split; [done|]. split; [done|]. unfold anchor_preimage.
    congruence.
  - intros (n & -> & Hn & ->). exists tt. split; [apply validateChainID_Ok; eauto|].
    rewrite uint256BE_Ok by lia. cbn [mbind outcome_bind]. by rewrite arr_copy32 by apply be_bytes_length.
Qed.

(** Derived anchors are distinct: two derivations give the same contract only for the
    same chain and namespace, unless the last 20 bytes of the Keccak-256 digests of
    their pre-images coincide although the pre-images differ. *)
Theorem DeriveAnchor_distinct {P} `{Keccak} n ns n' ns' a a' :
  DeriveAnchor (P := P) (Some n) ns = Ok a → DeriveAnchor (P := P) (Some n') ns' = Ok a' →
  (drop 12 (arr (keccak_sum (anchor_preimage n ns))) = drop 12 (arr (keccak_sum (anchor_preimage n' ns'))) →
   anchor_preimage n ns = anchor_preimage n' ns') →
  Contract a = Contract a' ↔ n = n' ∧ ns = ns'.
Proof.
  intros (? & [= <-] & Hn & ->)%DeriveAnchor_Ok (? & [= <-] & Hn' & ->)%DeriveAnchor_Ok Hno. cbn [Contract]. split.
  - intros E%(f_equal arr20). rewrite !arr20_copy20 in E by (rewrite length_drop, arr_length; done).
    apply anchor_preimage_inj; [lia..|by apply Hno].
  - by intros [-> ->].
Qed.

(** ** The signed struct *)

Section Struct.
Context `{K : Keccak} {P : Type}.

Definition proof_domain (c : option Z) (a : Ethereum.Address) : Eip712.DomainSeparator :=
  Eip712.Domain (str_bytes "TrustCommitment") (str_bytes "1") c a zero32.
Definition struct_fields (root txHash : array32) (n : Z) : bytes := arr root ++ arr txHash ++ be_bytes 32 n.
Definition domain_sep (c : option Z) (a : Ethereum.Address) : array32 :=
  keccak_sum (arr Eip712.domainTypeHash ++ Eip712.domain_encoded (proof_domain c a)).
Definition struct_hash (root txHash : array32) (n : Z) : array32 :=
  Eip712.HashStruct (arr (keccak_sum ProofStructType)) (struct_fields root txHash n).

Lemma commitmentDomain_Ok c a x : commitmentDomain (P := P) (Some (MkAnchor c a)) = Ok x ↔
  (∃ n, c = Some n ∧ 0 ≤ n < 2 ^ 256) ∧ x = (proof_domain c a, domain_sep c a).
Proof.
  unfold commitmentDomain. cbn [ChainID Contract]. rewrite bind_Ok. split.
  - intros (h & [Hn ->]%wrap_err_Ok%Hash_Ok & E). split; [done|]. by injection E as <-.
  - intros [Hn ->]. eexists. split; [|done]. apply wrap_err_Ok, Hash_Ok. by split.
Qed.

Lemma commitmentStructHash_Ok root txHash n : 0 ≤ n < 2 ^ 256 →
  commitmentStructHash (P := P) root txHash n = Ok (struct_hash root txHash n).
Proof.
  intros Hn. unfold commitmentStructHash. apply bind_Ok. exists (struct_fields root txHash n). split; [|done].
  apply wrap_err_Ok. unfold Abi.EncodeArgs. cbn [zip zip_with length]. change (negb (Z.of_nat 3 =? Z.of_nat 3)) with false.
  cbv iota. cbn [each Abi.encodeArg fst snd mbind outcome_bind]. rewrite encodeUint256_ok by (unfold in_word; cbn; lia).
  cbn [mbind outcome_bind Abi.assemble Abi.isDynamic fmap list_fmap snd mjoin list_join default].
  unfold struct_fields. by rewrite !app_nil_r.
Qed.

Lemma struct_fields_inj r t n r' t' n' : 0 ≤ n < 2 ^ 256 → 0 ≤ n' < 2 ^ 256 →
  struct_fields r t n = struct_fields r' t' n' → r = r' ∧ t = t' ∧ n = n'.
Proof.
  intros Hn Hn' E. apply app_split in E as [E1 E]; [|by rewrite !arr_length].
  apply app_split in E as [E2 E3]; [|by rewrite !arr_length].
  apply be_bytes_inj in E3; [|change (256 ^ Z.of_nat 32) with (2 ^ 256); lia..].
  split_and!; [by apply arr_inj|by apply arr_inj|done].
Qed.

(** The digest a proof's signature is over. *)
Definition proof_digest (p : CommitmentProof) : array32 :=
  Eip712.Digest (domain_sep (PChainID p) (PContract p)) (struct_hash (Root p) (TxHash p) (BlockNumber p)).

(** The strings hashed for it. *)
Definition proof_hashed (p : CommitmentProof) : list bytes :=
  hashed (proof_domain (PChainID p) (PContract p)) (arr (keccak_sum ProofStructType))
    (struct_fields (Root p) (TxHash p) (BlockNumber p)).

Definition proof_wf (p : CommitmentProof) : Prop :=
  (∃ n, PChainID p = Some n ∧ 0 ≤ n < 2 ^ 256) ∧ is_u64 (BlockNumber p).

(** Two well-formed proofs with one digest agree on every signed field: the root, the
    chain, the contract, the transaction and the block, unless Keccak-256 collides on
    the strings hashed.  A signature cannot be moved to another root or chain. *)
Theorem proof_digest_binds p p' : proof_wf p → proof_wf p' → no_collision (proof_hashed p ++ proof_hashed p') →
  proof_digest p = proof_digest p' →
  Root p = Root p' ∧ PChainID p = PChainID p' ∧ PContract p = PContract p' ∧
  TxHash p = TxHash p' ∧ BlockNumber p = BlockNumber p'.
Proof.
  intros [Hc Hb] [Hc' Hb'] Hno E.
  edestruct (Digest_bound (proof_domain (PChainID p) (PContract p)) (proof_domain (PChainID p') (PContract p')))
    as (Ed & _ & Ef); [by apply Hash_Ok|by apply Hash_Ok|apply arr_length|apply arr_length|exact Hno|exact E|].
  unfold is_u64 in *. apply struct_fields_inj in Ef as (? & ? & ?); [|lia..]. injection Ed. auto.
Qed.

End Struct.

(** ** Proofs *)

Section Signed.
Context `{K : Keccak, D : Dcrd} {P : Type}.

Lemma VerifyCommitmentProof_Ok p addr : is_u64 (BlockNumber p) →
  VerifyCommitmentProof (P := P) p = Ok addr ↔
  (∃ n, PChainID p = Some n ∧ 0 ≤ n < 2 ^ 256) ∧
  Eip712.Recover (Sig p) (domain_sep (PChainID p) (PContract p)) (struct_hash (Root p) (TxHash p) (BlockNumber p))
    = Ok addr.
Proof.
  intros Hb. unfold is_u64 in Hb. unfold VerifyCommitmentProof. rewrite bind_Ok. split.
  - intros (x & [Hn ->]%wrap_err_Ok%commitmentDomain_Ok & E). rewrite commitmentStructHash_Ok in E by lia.
    split; [done|]. cbn [wrap_err mbind outcome_bind] in E. by apply wrap_err_Ok in E.
  - intros [Hn E]. eexists. split; [by apply wrap_err_Ok, commitmentDomain_Ok|].
    rewrite commitmentStructHash_Ok by lia. cbn [wrap_err mbind outcome_bind]. by apply wrap_err_Ok.
Qed.

Lemma parseTxHash_hex h : parseTxHash (P := P) (str_bytes "0x" ++ hex_bytes (arr h)) = Ok h.
Proof.
  unfold parseTxHash, TrimPrefix. rewrite take_app_length, bool_decide_true by done. rewrite drop_app_length, unhex_hex.
  rewrite arr_length. change (negb (Z.of_nat 32 =? 32)) with false. cbv iota. by rewrite copy32_arr.
Qed.

(** [Verify] without a provider. *)
Lemma Verify_offline {W} a root p (w : W) :
  PChainID p = ChainID a → ChainID a ≠ None → PContract p = Contract a → Root p = root →
  (∃ addr, VerifyCommitmentProof (P := P) p = Ok addr) →
  Verify (P := P) (Some a) root p None w = (Ok tt, w).
Proof.
  intros Hc Hs Ha Hr [addr Hv]. unfold Verify. destruct (ChainID a) as [n|] eqn:En; [|done]. rewrite Hc.
  apply io_bind_Ok. exists false, w. split; [unfold pure; cbn; by rewrite Z.eqb_refl|]. rewrite bool_decide_true by done.
  cbn [negb]. apply io_bind_Ok. exists addr, w. split; [by rewrite Hv|]. by rewrite Hr, ct_equal_refl.
Qed.

Context `{L : !DcrdLaws}.

(** Round trip.  [Proof] succeeds for a receipt whose transaction hash is 32 bytes of
    hexadecimal and an anchor whose chain ID fits its word; the proof carries the
    anchor, the transaction and the block, recovers to the wallet's address and
    passes [Verify] offline.  Nothing restricts the key: any wallet's proof passes. *)
Theorem CommitmentProof_verifies {W} priv root n c r h (w : W) :
  0 ≤ n < 2 ^ 256 → is_u64 (Broadcast.BlockNumber r) → parseTxHash (P := P) (Broadcast.TransactionHash r) = Ok h →
  ∃ p addr, Proof_ (P := P) root (Some (MkAnchor (Some n) c)) r (Wallet.NewWallet (Some priv)) = Ok p ∧
    Root p = root ∧ TxHash p = h ∧ BlockNumber p = Broadcast.BlockNumber r ∧
    Wallet.Address (Wallet.NewWallet (Some priv)) = Ok addr ∧ VerifyCommitmentProof (P := P) p = Ok addr ∧
    Verify (P := P) (Some (MkAnchor (Some n) c)) root p None w = (Ok tt, w).
Proof.
  intros Hn Hb Hh. pose proof Hb as Hb'. unfold is_u64 in Hb'.
  destruct (Sign_recovers priv (domain_sep (Some n) c) (struct_hash root h (Broadcast.BlockNumber r)))
    as (sig & addr & Hs & _ & Ha & Hr).
  exists (MkProof root (Some n) c h (Broadcast.BlockNumber r) sig), addr.
  assert (VerifyCommitmentProof (P := P) (MkProof root (Some n) c h (Broadcast.BlockNumber r) sig) = Ok addr) as Hv.
  { apply VerifyCommitmentProof_Ok; [done|]. split; [by exists n|done]. }
  split_and!; try done; [|apply Verify_offline; eauto; done].
  unfold Proof_. cbn [Wallet.NewWallet]. rewrite Hh. cbn [mbind outcome_bind].
  apply bind_Ok. eexists. split; [apply commitmentDomain_Ok; split; [by exists n|done]|].
  rewrite commitmentStructHash_Ok by lia. cbn [mbind outcome_bind].
  apply bind_Ok. exists sig. split; [by apply wrap_err_Ok|done].
Qed.
End Signed.

(** ** Verification against the chain *)

(** What the provider reports about an accepted proof: a head that is not before the
    proof's block, a successful receipt of that transaction in that block, and the
    expected root stored at the contract at that block. *)
Definition on_chain {W P} (prov : Provider W P) (root : array32) (p : CommitmentProof) (w w' : W) : Prop :=
  ∃ head w1 r w2,
    GetBlockNumber prov w = (Ok head, w1) ∧ BlockNumber p ≤ head ∧
    GetReceipt prov (str_bytes "0x" ++ hex_bytes (arr (TxHash p))) w1 = (Ok (Some r), w2) ∧
    Broadcast.Status r = 1 ∧ parseTxHash (P := P) (Broadcast.TransactionHash r) = Ok (TxHash p) ∧
    Broadcast.BlockNumber r = BlockNumber p ∧
    GetRoot prov (PContract p) (Quantity.FormatQuantity (Some (BlockNumber p))) w2 = (Ok root, w').

Section Online.
Context `{K : Keccak, D : Dcrd} {W P : Type}.

Lemma chainMismatch_Ok x y : chainMismatch (P := P) x y = Ok false ↔ x = y ∧ y ≠ None.
Proof.
  destruct x as [x|], y as [y|]; cbn; [|naive_solver..]. destruct (Z.eqb_spec x y); cbn; naive_solver.
Qed.

Lemma Verify_spec a root p prov (w w' : W) : Verify (P := P) (Some a) root p prov w = (Ok tt, w') ↔
  PChainID p = ChainID a ∧ ChainID a ≠ None ∧ PContract p = Contract a ∧
  (∃ addr, VerifyCommitmentProof (P := P) p = Ok addr) ∧ Root p = root ∧
  match prov with None => w' = w | Some prov => on_chain prov root p w w' end.
Proof.
  unfold Verify. rewrite pure_bind_Ok. split.
  - intros (m & Hm & E). apply io_guard_Ok in E as [-> E]. apply chainMismatch_Ok in Hm as [Hm Hs].
    apply io_guard_Ok in E as [Ea%negb_false_iff%bool_decide_eq_true E]. apply pure_bind_Ok in E as (addr & Hv & E).
    apply io_guard_Ok in E as [Er%negb_false_iff%ct_equal_true%arr_inj E]. split_and!; [done..|by eauto|done|].
    destruct prov as [prov|]; [|apply pure_Ok in E; tauto].
    apply wrap_bind_Ok in E as (head & w1 & Hh & E). apply io_guard_Ok in E as [Hb%Z.ltb_ge E].
    apply wrap_bind_Ok in E as ([r|] & w2 & Hr & E); [|by apply pure_Ok in E as [? _]].
    apply io_guard_Ok in E as [Hst%negb_false_iff%Z.eqb_eq E]. apply pure_bind_Ok in E as (h & Hp & E).
    apply io_guard_Ok in E as [Eh%negb_false_iff%ct_equal_true%arr_inj E].
    apply io_guard_Ok in E as [Hbn%negb_false_iff%Z.eqb_eq E]. apply wrap_bind_Ok in E as (oc & w3 & Hg & E).
    apply io_guard_Ok in E as [Eo%negb_false_iff%ct_equal_true%arr_inj E]. apply pure_Ok in E as [_ ->].
    exists head, w1, r, w2. subst. by split_and!.
  - intros (Hm & Hs & Ea & [addr Hv] & Er & Hp). exists false. split; [by apply chainMismatch_Ok|].
    cbv iota. rewrite bool_decide_true by done. cbn [negb].
    apply pure_bind_Ok. exists addr. split; [done|]. rewrite Er, ct_equal_refl. cbn [negb].
    destruct prov as [prov|]; [|by rewrite Hp]. destruct Hp as (head & w1 & r & w2 & Hh & Hb & Hr & Hst & Hp & Hbn & Hg).
    apply wrap_bind_Ok. exists head, w1. split; [done|]. apply io_guard_Ok. split; [by apply Z.ltb_ge|].
    apply wrap_bind_Ok. exists (Some r), w2. split; [done|]. rewrite Hst. change (negb (1 =? 1)) with false. cbv iota.
    apply pure_bind_Ok. exists (TxHash p). split; [done|]. rewrite ct_equal_refl, Hbn, Z.eqb_refl. cbn [negb].
    apply wrap_bind_Ok. exists root, w'. split; [done|]. by rewrite ct_equal_refl.
Qed.

(** [Verify] accepts a proof exactly when it names the anchor's chain and contract,
    its signature recovers to some address, its root is the expected one and, with a
    provider, the chain holds the root: the head has reached the block, the receipt
    is successful and is the proof's transaction in the proof's block, and the
    contract stores the root at that block. *)
Theorem Verify_accepts_iff a root p prov (w w' : W) : Verify (P := P) (Some a) root p prov w = (Ok tt, w') ↔
  PChainID p = ChainID a ∧ ChainID a ≠ None ∧ PContract p = Contract a ∧
  (∃ addr, VerifyCommitmentProof (P := P) p = Ok addr) ∧ Root p = root ∧
  match prov with None => w' = w | Some prov => on_chain prov root p w w' end.
Proof. apply Verify_spec. Qed.

(** ** Publication *)

Lemma publishCallData_Ok root : publishCallData (P := P) root =
  Ok (take 4 (arr (keccak_sum (str_bytes PublishSignature))) ++ arr root).
Proof.
  unfold publishCallData. apply bind_Ok. exists (arr root). split; [|done]. apply wrap_err_Ok. unfold Abi.EncodeArgs.
  cbn [zip zip_with length]. change (negb (Z.of_nat 1 =? Z.of_nat 1)) with false. cbv iota.
  cbn [each Abi.encodeArg fst snd mbind outcome_bind Abi.assemble Abi.isDynamic fmap list_fmap mjoin list_join].
  by rewrite !app_nil_r.
Qed.

Definition publish_data (root : array32) : bytes :=
  take 4 (arr (keccak_sum (str_bytes PublishSignature))) ++ arr root.

(** A successful [Publish] sent exactly one signed transaction and returned the
    provider's receipt for the hash the provider gave it, with status 1. *)
Lemma Publish_inv a root wl p opts (w w' : W) r : Publish (P := P) a root wl p opts w = (Ok r, w') →
  ∃ an prov raw txHash w1, a = Some an ∧ p = Some prov ∧ GasLimit (newPublishConfig opts) ≠ 0 ∧
    Wallet.SignTx wl (Some (publish_tx an (newPublishConfig opts) (publish_data root))) = Ok raw ∧
    SendTx prov raw w = (Ok txHash, w1) ∧ GetReceipt prov txHash w1 = (Ok (Some r), w') ∧ Broadcast.Status r = 1.
Proof.
  unfold Publish. destruct a as [an|]; [|by intros [? _]%pure_Ok]. destruct wl as [wl|]; [|by intros [? _]%pure_Ok].
  destruct p as [prov|]; [|by intros [? _]%pure_Ok]. intros [Hg%Z.eqb_neq E]%io_guard_Ok.
  destruct (GasPrice (newPublishConfig opts)); [|by apply pure_Ok in E as [? _]].
  rewrite publishCallData_Ok in E. apply pure_bind_Ok in E as (data & Hd & E).
  assert (data = publish_data root) as -> by (unfold publish_data; congruence).
  apply pure_bind_Ok in E as (raw & Hs%wrap_err_Ok & E). apply wrap_bind_Ok in E as (txHash & w1 & Hsend & E).
  apply wrap_bind_Ok in E as ([r'|] & w2 & Hr & E); [|by apply pure_Ok in E as [? _]].
  apply io_guard_Ok in E as [Hst%negb_false_iff%Z.eqb_eq E]. apply pure_Ok in E as [[= ->] ->].
  by exists an, prov, raw, txHash, w1.
Qed.

Context `{L : !DcrdLaws}.

(** What [Publish] puts on the wire.  When it succeeds, the bytes it broadcast decode
    to a legacy transaction of the wallet's address on the anchor's chain, to the
    anchor's contract, of value zero, with the nonce, price and limit of the options,
    whose data is the selector of [publishRoot(bytes32)] and the root; the returned
    receipt has status 1. *)
Theorem Publish_sends an root priv prov opts (w w' : W) rc n h r s recID :
  let cfg := newPublishConfig opts in
  let tx := publish_tx an cfg (publish_data root) in
  Publish (P := P) (Some an) root (Wallet.NewWallet (Some priv)) (Some prov) opts w = (Ok rc, w') →
  ChainID an = Some n → tx_ok tx → Wallet.SigningHash tx = Ok h →
  SignRecoverable priv h = Ok (r ++ s, recID) → length r = 32%nat → b2z recID ≤ 1 → no_lead r → no_lead s →
  ∃ raw txHash w1 d addr, SendTx prov raw w = (Ok txHash, w1) ∧ GetReceipt prov txHash w1 = (Ok (Some rc), w') ∧
    Broadcast.Status rc = 1 ∧ Wallet.Address (Wallet.NewWallet (Some priv)) = Ok addr ∧
    (zlen raw ≤ Rlp.Rlp.MaxInputLen → Wallet.DecodeTransaction raw = Ok d) ∧
    Wallet.To d = Some (Contract an) ∧ Wallet.Data d = publish_data root ∧ Wallet.ChainID d = Some n ∧
    Wallet.Nonce d = Nonce cfg ∧ Wallet.GasLimit d = GasLimit cfg ∧
    Wallet.GasPrice d = Some (default 0 (GasPrice cfg)) ∧ Wallet.Value d = Some 0 ∧ Wallet.Sender d = addr.
Proof.
  cbv zeta. intros HP Hc Hok Hh Hsig Hr Hid Hnr Hns.
  apply Publish_inv in HP as (? & ? & raw & txHash & w1 & [= <-] & [= <-] & _ & Hs & Hsend & Hrec & Hst).
  destruct (SignTx_decoded priv _ h r s recID Hok Hh Hsig Hr Hid Hnr Hns) as (raw' & addr & Hs' & Ha & Hd).
  assert (raw' = raw) as -> by congruence.
  exists raw, txHash, w1, (view (publish_tx an (newPublishConfig opts) (publish_data root)) (b2z recID) r s addr), addr.
  split_and!; try done. cbn. by rewrite Hc.
Qed.
End Online.

(** ** The checker and the verification engine *)

Section Engine.
Context `{K : Keccak, D : Dcrd, HS : Hasher, CB : Canonical.CborLib, KO : Signature.Signature.KeyOps} {W P : Type}.
#[local] Notation object o := (Some (CommitmentObject.as_object o)).
#[local] Notation att_object a := (object (CommitmentObject.NewAttestationObject (Some a))).
#[local] Notation auth_object a := (object (CommitmentObject.NewAuthorityObject (Some a))).

(** What an accepted bound proof establishes about the inputs. *)
Definition bound_ok (c : Checker (W := W) (P := P)) (b : BoundProof) att auth (w w' : W) : Prop :=
  ∃ ap tp, BAttestation b = Some ap ∧ BTerminalAuthority b = Some tp ∧
    Verify (CAnchor c) (Root (BAnchor b)) (BAnchor b) (CProvider c) w = (Ok tt, w') ∧
    Commitment.VerifyInclusion (Root (BAnchor b)) ap (att_object att) = Ok tt ∧
    Commitment.VerifyInclusion (Root (BAnchor b)) tp (auth_object auth) = Ok tt.

Lemma Checker_Verify_Ok unmarshal c cp inp (w w' : W) : Checker_Verify unmarshal c cp inp w = (Ok tt, w') ↔
  ∃ att auth b, Verification.InAttestation inp = Some att ∧ terminal (Verification.Chain inp) = Some auth ∧
    unmarshal (Verification.CValue cp) = Some b ∧ bound_ok c b att auth w w'.
Proof.
  unfold Checker_Verify. split.
  - destruct (Verification.InAttestation inp) as [att|]; [|by intros [? _]%pure_Ok].
    destruct (terminal _) as [auth|]; [|by intros [? _]%pure_Ok].
    destruct (unmarshal _) as [b|]; [|by intros [? _]%pure_Ok].
    intros ([] & w1 & Hv & E)%io_bind_Ok. exists att, auth, b. split_and!; [done..|].
    destruct (BAttestation b) as [ap|] eqn:Ea; [|by apply pure_Ok in E as [? _]].
    destruct (BTerminalAuthority b) as [tp|] eqn:Et; [|by apply pure_Ok in E as [? _]].
    apply pure_bind_Ok in E as ([] & H1%wrap_err_Ok & [H2%wrap_err_Ok ->]%pure_Ok). by exists ap, tp.
  - intros (att & auth & b & -> & -> & -> & ap & tp & Ea & Et & Hv & H1 & H2). unfold Checker_Verify_bound.
    apply io_bind_Ok. exists tt, w'. split; [done|]. rewrite Ea, Et.
    apply pure_bind_Ok. exists tt. split; [by apply wrap_err_Ok|]. apply pure_Ok. split; [by apply wrap_err_Ok|done].
Qed.

Lemma bound_committed c b att auth (w w' : W) cm :
  bound_ok c b att auth w w' →
  Commitment.VerifyCommitment (E := CommitmentObject.error) (Some cm) = Ok tt → Root (BAnchor b) = Commitment.Root cm →
  ∃ ap tp ha hu, BAttestation b = Some ap ∧ BTerminalAuthority b = Some tp ∧
    Attestation.CanonicalHash (Some att) = Ok ha ∧ Authority.CanonicalHash (Some auth) = Ok hu ∧
    committed cm ap ha ∧ committed cm tp hu.
Proof.
  intros (ap & tp & Ea & Et & _ & H1 & H2) Hcm Hr. rewrite Hr in H1, H2.
  apply (VerifyInclusion_member cm) in H1 as (ha & La & Ca); [|done].
  apply (VerifyInclusion_member cm) in H2 as (hu & Lu & Cu); [|done]. exists ap, tp, ha, hu.
  unfold Commitment.LeafHash in La, Lu. cbn [Commitment.obj_LeafHash CommitmentObject.as_object CommitmentObject.Object_LeafHash
    CommitmentObject.NewAttestationObject CommitmentObject.NewAuthorityObject] in La, Lu.
  apply wrap_err_Ok, wrap_err_Ok in La. apply wrap_err_Ok, wrap_err_Ok in Lu. by split_and!.
Qed.

(** What one check of the engine's checker establishes: the decoded proof names the
    anchor's chain and contract, the chain holds its root in the block it names, and
    under any valid commitment with that root both the attestation and the last
    authority of the chain are committed. *)
Definition anchored unmarshal (a : Anchor) (prov : Provider W P) (i : Verification.Inputs)
    (cp : Verification.CommitmentProof) (w w' : W) : Prop :=
  ∃ att auth b,
    Verification.InAttestation i = Some att ∧ terminal (Verification.Chain i) = Some auth ∧
    unmarshal (Verification.CValue cp) = Some b ∧
    PChainID (BAnchor b) = ChainID a ∧ PContract (BAnchor b) = Contract a ∧
    on_chain prov (Root (BAnchor b)) (BAnchor b) w w' ∧
    ∀ cm, Commitment.VerifyCommitment (E := CommitmentObject.error) (Some cm) = Ok tt →
      Root (BAnchor b) = Commitment.Root cm →
      ∃ ap tp ha hu, BAttestation b = Some ap ∧ BTerminalAuthority b = Some tp ∧
        Attestation.CanonicalHash (Some att) = Ok ha ∧ Authority.CanonicalHash (Some auth) = Ok hu ∧
        committed cm ap ha ∧ committed cm tp hu.

Lemma Checker_Verify_anchored unmarshal a (prov : Provider W P) i cp (w w' : W) :
  Checker_Verify unmarshal (MkChecker (Some a) (Some prov)) cp i w = (Ok tt, w') → anchored unmarshal a prov i cp w w'.
Proof.
  intros (att & auth & b & Ha & Hu & Hb & Hok)%Checker_Verify_Ok. exists att, auth, b.
  pose proof Hok as (ap & tp & _ & _ & (Hch & _ & Hco & _ & _ & Hon)%Verify_spec & _).
  split_and!; [done..|]. intros cm. by eapply bound_committed.
Qed.

(** C11.  End to end across the packages.  When the engine's checker is a [Checker] with an
    anchor and a provider, a valid result means: there is at least one commitment
    proof, and each of them, checked in the world the one before left, decodes to a
    proof that names the anchor's chain and contract and whose root the chain holds in
    the block it names.  Under every valid commitment with that root, whatever index
    and size the inclusion proofs claim, the hashes of both the attestation and the
    last authority of the chain are committed leaves, unless two of the strings
    collide that were hashed to build the tree and to check the proof. *)
Theorem Verify_valid_anchored wl e i r unmarshal a (prov : Provider W P) w :
  Verification.Verify wl e i = Ok r → Verification.Valid r = true →
  Verification.commitmentChecker e = Some (as_checker unmarshal (MkChecker (Some a) (Some prov)) w) →
  Verification.Commitments i ≠ [] ∧ in_turn (anchored unmarshal a prov i) (Verification.Commitments i) w.
Proof.
  intros Hv Hval Hc. destruct (Valid_commitments wl e i r _ Hv Hval Hc) as [Hne Hall]. split; [done|].
  cbn [as_checker Verification.cc_world Verification.cc_start Verification.cc_Verify] in Hall.
  revert Hall. apply in_turn_impl. intros cp w1 w2 Hcp. apply Checker_Verify_anchored.
  destruct (Checker_Verify unmarshal _ cp i w1) as [m w']. by injection Hcp as ->%wrap_err_Ok ->.
Qed.
End Engine.

(** ** Concrete inputs *)

Module Deployed.
#[local] Existing Instance Toy.dcrd.
#[local] Existing Instance Toy.laws.

Definition anchor : Anchor := MkAnchor (Some 1) Example.addr.

(** The example attestation and its root authority, committed together. *)
Definition objects : list CommitmentObject.Object :=
  [CommitmentObject.NewAttestationObject (Some ex_leaf_attestation);
   CommitmentObject.NewAuthorityObject (Some AttestationProofs.ex_authority)].
Definition committed : Commitment.Commitment :=
  Eval vm_compute in
    match Commitment.Build (Some ∘ CommitmentObject.as_object <$> objects) with
    | Ok c => c
    | _ => Commitment.MkCommitment zero32 0 [] ""
    end.
Definition root : array32 := Commitment.Root committed.

Definition tx_hash : array32 := copy32 (replicate 32 xab).
Definition tx_hash_text : bytes := str_bytes "0x" ++ hex_bytes (arr tx_hash).
Definition receipt : Receipt := Broadcast.mkReceipt 1 (str_bytes "0xaa") 456 tx_hash_text 0 21000 [] [].

(** A chain on which the transaction is mined in block 456 and the root is stored. *)
Definition node : Provider unit string :=
  MkProvider unit string (λ _ w, (Ok tx_hash_text, w)) (λ _ w, (Ok (Some receipt), w)) (λ w, (Ok 460, w))
    (λ _ _ w, (Ok root, w)).

(** The same while the chain grows: every question about the head finds it a block later. *)
Definition growing : Provider Z string :=
  MkProvider Z string (λ _ w, (Ok tx_hash_text, w)) (λ _ w, (Ok (Some receipt), w)) (λ w, (Ok (456 + w), w + 1))
    (λ _ _ w, (Ok root, w)).

Definition proof : CommitmentProof :=
  Eval vm_compute in
    match Proof_ (P := string) root (Some anchor) receipt (Wallet.NewWallet (Some Example.key)) with
    | Ok p => p
    | _ => MkProof zero32 None zero20 zero32 0 []
    end.

Definition inclusion (o : CommitmentObject.Object) : option Commitment.Proof_ :=
  match Commitment.InclusionProof (Some committed) (Some (CommitmentObject.as_object o)) with
  | Ok p => Some p
  | _ => None
  end.
Definition bound : BoundProof :=
  MkBound proof (inclusion (CommitmentObject.NewAttestationObject (Some ex_leaf_attestation)))
    (inclusion (CommitmentObject.NewAuthorityObject (Some AttestationProofs.ex_authority))).
Definition unmarshal (b : bytes) : option BoundProof := match b with [] => None | _ => Some bound end.

Definition engine : Verification.Engine :=
  Verification.MkEngine GoTime.zero_time (Verification.MkKeyBinder (λ _ _, Err Binder.Binder.ErrBind))
    (Some (as_checker unmarshal (MkChecker (Some anchor) (Some growing)) 0)).
Definition inputs : Verification.Inputs :=
  let i := ex_inputs AttestationProofs.ex_wall in
  {| Verification.InAttestation := Verification.InAttestation i; Verification.SigningKey := Verification.SigningKey i;
     Verification.Chain := Verification.Chain i; Verification.IdentityResolver := None;
     Verification.KeyVersions := Verification.KeyVersions i; Verification.InEvidence := Verification.InEvidence i;
     Verification.Commitments := [Verification.MkCommitmentProof "c" [x01]; Verification.MkCommitmentProof "d" [x02]]; Verification.Now := Verification.Now i |}.
Definition result : Verification.Result :=
  Eval vm_compute in
    match Verification.Verify AttestationProofs.ex_wall engine inputs with
    | Ok r => r
    | _ => Verification.MkResult false (Verification.MkProvenance []) [] []
    end.

Definition options : list PublishOption := [WithNonce 3; WithGasLimit 60000; WithGasPrice (Some 20)].
Definition publish : Wallet.Transaction := publish_tx anchor (newPublishConfig options) (publish_data root).
Definition publish_hash : bytes := Eval vm_compute in match Wallet.SigningHash publish with Ok h => h | _ => [] end.

Definition att_hash : array32 := Eval vm_compute in
  hash_of (Attestation.CanonicalHash (Some ex_leaf_attestation)).
Definition auth_hash : array32 := Eval vm_compute in
  hash_of (Authority.CanonicalHash (Some AttestationProofs.ex_authority)).
Definition att_proof : Commitment.Proof_ := Eval vm_compute in default (Commitment.MkProof 0 0 []) (BAttestation bound).
Definition auth_proof : Commitment.Proof_ := Eval vm_compute in
  default (Commitment.MkProof 0 0 []) (BTerminalAuthority bound).

Lemma members ha hu ap tp : BAttestation bound = Some ap → BTerminalAuthority bound = Some tp →
  Attestation.CanonicalHash (Some ex_leaf_attestation) = Ok ha →
  Authority.CanonicalHash (Some AttestationProofs.ex_authority) = Ok hu → CommitmentProofs.committed committed ap ha →
  CommitmentProofs.committed committed tp hu →
  att_hash ∈ Commitment.LeafHashes committed ∧ auth_hash ∈ Commitment.LeafHashes committed.
Proof.
  intros Hap Htp Hha Hhu (t & Ht & Hm) (t' & Ht' & Hm').
  assert (ap = att_proof) as -> by (apply (inj Some); rewrite <- Hap; vm_compute; reflexivity).
  assert (tp = auth_proof) as -> by (apply (inj Some); rewrite <- Htp; vm_compute; reflexivity).
  assert (ha = att_hash) as -> by (apply (inj (Ok (E := Attestation.error))); rewrite <- Hha; vm_compute; reflexivity).
  assert (hu = auth_hash) as -> by (apply (inj (Ok (E := Authority.error))); rewrite <- Hhu; vm_compute; reflexivity).
  rewrite Ht in Ht'. injection Ht' as <-.
  destruct Hm as [Hm|[]%coll_free_not]; [split; [exact Hm|]|].
  - destruct Hm' as [Hm'|[]%coll_free_not]; [exact Hm'|].
    apply coll_free_b_ok. apply (f_equal (λ m, match m with Ok t => t | _ => Merkle.MkTree [] 0 end)) in Ht. cbv beta iota in Ht.
    rewrite <- Ht. vm_compute. reflexivity.
  - apply coll_free_b_ok. apply (f_equal (λ m, match m with Ok t => t | _ => Merkle.MkTree [] 0 end)) in Ht. cbv beta iota in Ht.
    rewrite <- Ht. vm_compute. reflexivity.
Qed.
End Deployed.

Lemma Verify_valid_anchored_witness :
  Verification.Commitments Deployed.inputs ≠ [] ∧
  Deployed.att_hash ∈ Commitment.LeafHashes Deployed.committed ∧
  Deployed.auth_hash ∈ Commitment.LeafHashes Deployed.committed.
Proof.
  destruct (Verify_valid_anchored (D := Toy.dcrd) AttestationProofs.ex_wall Deployed.engine Deployed.inputs Deployed.result
    Deployed.unmarshal Deployed.anchor Deployed.growing 0) as [Hne Hall];
    [vm_compute; reflexivity|vm_compute; reflexivity|reflexivity|]. split; [exact Hne|].
  destruct Hall as (w' & (att & auth & b & Ha & Hu & Hb & _ & _ & _ & Hc) & _).
  change (Some Deployed.bound = Some b) in Hb. apply (inj Some) in Hb as <-.
  change (Some ex_leaf_attestation = Some att) in Ha. apply (inj Some) in Ha as <-.
  change (Some AttestationProofs.ex_authority = Some auth) in Hu. apply (inj Some) in Hu as <-.
  destruct (Hc Deployed.committed) as (ap & tp & ha & hu & H1 & H2 & H3 & H4 & H5 & H6);
    [vm_compute; reflexivity|vm_compute; reflexivity|]. exact (Deployed.members ha hu ap tp H1 H2 H3 H4 H5 H6).
Defined.

Lemma DeriveAnchor_distinct_witness :
  Contract (MkAnchor (Some 1) (copy20 (drop 12 (arr (keccak_sum (anchor_preimage 1 [x61])))))) =
  Contract (MkAnchor (Some 1) (copy20 (drop 12 (arr (keccak_sum (anchor_preimage 1 [x62])))))) ↔
  1 = 1 ∧ [x61] = [x62].
Proof.
  apply (DeriveAnchor_distinct (P := unit)).
  - apply DeriveAnchor_Ok. exists 1. split; [reflexivity|split; [lia|reflexivity]].
  - apply DeriveAnchor_Ok. exists 1. split; [reflexivity|split; [lia|reflexivity]].
  - vm_compute. congruence.
Defined.

Lemma proof_digest_binds_witness :
  Root Deployed.proof = Root Deployed.proof ∧ PChainID Deployed.proof = PChainID Deployed.proof ∧
  PContract Deployed.proof = PContract Deployed.proof ∧ TxHash Deployed.proof = TxHash Deployed.proof ∧
  BlockNumber Deployed.proof = BlockNumber Deployed.proof.
Proof.
  assert (proof_wf Deployed.proof) as Hwf.
  { split; [exists 1; split; [reflexivity|lia]|vm_compute; split; congruence]. }
  apply (proof_digest_binds Deployed.proof Deployed.proof Hwf Hwf); [|reflexivity].
  apply no_collision_NoDup, (bool_decide_unpack _). vm_compute. exact I.
Defined.

Lemma CommitmentProof_verifies_witness : let d := Toy.dcrd in
  ∃ p addr, Proof_ (P := unit) Deployed.root (Some Deployed.anchor) Deployed.receipt (Wallet.NewWallet (Some Example.key)) = Ok p ∧
    Root p = Deployed.root ∧ TxHash p = Deployed.tx_hash ∧ BlockNumber p = Broadcast.BlockNumber Deployed.receipt ∧
    Wallet.Address (Wallet.NewWallet (Some Example.key)) = Ok addr ∧ VerifyCommitmentProof (P := unit) p = Ok addr ∧
    Verify (P := unit) (Some Deployed.anchor) Deployed.root p None tt = (Ok tt, tt).
Proof.
  apply (CommitmentProof_verifies (L := Toy.laws)); [lia|vm_compute; split; congruence|apply parseTxHash_hex].
Defined.

Lemma Publish_sends_witness : let d := Toy.dcrd in
  ∃ raw txHash w1 d addr, SendTx Deployed.node raw tt = (Ok txHash, w1) ∧
    GetReceipt Deployed.node txHash w1 = (Ok (Some Deployed.receipt), tt) ∧
    Broadcast.Status Deployed.receipt = 1 ∧ Wallet.Address (Wallet.NewWallet (Some Example.key)) = Ok addr ∧
    (zlen raw ≤ Rlp.Rlp.MaxInputLen → Wallet.DecodeTransaction raw = Ok d) ∧
    Wallet.To d = Some (Contract Deployed.anchor) ∧ Wallet.Data d = publish_data Deployed.root ∧
    Wallet.ChainID d = Some 1 ∧ Wallet.Nonce d = 3 ∧ Wallet.GasLimit d = 60000 ∧
    Wallet.GasPrice d = Some 20 ∧ Wallet.Value d = Some 0 ∧ Wallet.Sender d = addr.
Proof.
  intros d. eapply (Publish_sends (L := Toy.laws) Deployed.anchor Deployed.root Example.key Deployed.node
    Deployed.options tt tt Deployed.receipt 1 Deployed.publish_hash Example.r Example.s x00).
  - vm_compute. reflexivity.
  - reflexivity.
  - vm_compute. intuition congruence.
  - vm_compute. reflexivity.
  - vm_compute. reflexivity.
  - reflexivity.
  - vm_compute. congruence.
  - vm_compute. congruence.
  - vm_compute. congruence.
Defined.
