(* ===== verification/Asn1.v ===== *)
(** * DER

    What src/kms uses of [encoding/asn1]: the header of an element, INTEGER,
    OBJECT IDENTIFIER, BIT STRING and SEQUENCE, read from the front of a byte
    string; [None] is any of the package's syntax and structural errors.  The
    second part is the encoder and the round trips between the two. *)
From S2P Require Import Prelude GoBig.
#[local] Open Scope Z_scope.

Module Asn1.

Definition TagInteger : Z := 2.
Definition TagBitString : Z := 3.
Definition TagOID : Z := 6.
Definition TagSequence : Z := 16.

(** [parseBase128Int]: at most five bytes, a first byte other than 0x80, and a value
    of at most [math.MaxInt32]. *)
Fixpoint base128 (shifted : nat) (acc : Z) (bs : bytes) : option (Z * bytes) :=
  match bs with
  | [] => None
  | b :: bs' =>
      if (shifted =? 5)%nat then None
      else if (shifted =? 0)%nat && (b2z b =? 128) then None
      else
        let acc' := acc * 128 + b2z b `mod` 128 in
        if b2z b <? 128 then if 2 ^ 31 - 1 <? acc' then None else Some (acc', bs')
        else base128 (S shifted) acc' bs'
  end.

(** The bytes of a long-form length. *)
Fixpoint long_length (n : nat) (acc : Z) (bs : bytes) : option (Z * bytes) :=
  match n with
  | O => Some (acc, bs)
  | S n' =>
      match bs with
      | [] => None
      | b :: bs' =>
          if 2 ^ 23 <=? acc then None
          else
            let acc' := acc * 256 + b2z b in
            if acc' =? 0 then None else long_length n' acc' bs'
      end
  end.

Record header : Type := Header { class : Z; tag : Z; isCompound : bool; hlen : Z }.

Definition parse_length (bs : bytes) : option (Z * bytes) :=
  match bs with
  | [] => None
  | b :: bs' =>
      if b2z b <? 128 then Some (b2z b, bs')
      else
        let numBytes := b2z b - 128 in
        if numBytes =? 0 then None
        else
          '(len, rest) ← long_length (Z.to_nat numBytes) 0 bs';
          if len <? 128 then None else Some (len, rest)
  end.

(** [parseTagAndLength]. *)
Definition parseTagAndLength (bs : bytes) : option (header * bytes) :=
  match bs with
  | [] => None
  | b :: bs' =>
      let cls := b2z b `div` 64 in
      let comp := Z.testbit (b2z b) 5 in
      '(t, rest) ←
        (if b2z b `mod` 32 =? 31 then
           '(t, rest) ← base128 0 0 bs';
           if t <? 31 then None else Some (t, rest)
         else Some (b2z b `mod` 32, bs'));
      '(len, rest') ← parse_length rest;
      Some (Header cls t comp len, rest')
  end.

(** A header and its content; an element that is absent or cut off is an error. *)
Definition parse_element (bs : bytes) : option (header * bytes * bytes) :=
  '(h, rest) ← parseTagAndLength bs;
  if zlen rest <? hlen h then None
  else Some (h, take (Z.to_nat (hlen h)) rest, drop (Z.to_nat (hlen h)) rest).

(** An element of the universal class with this tag and form. *)
Definition parse_universal (t : Z) (comp : bool) (bs : bytes) : option (bytes * bytes) :=
  '(h, content, rest) ← parse_element bs;
  if (class h =? 0) && (tag h =? t) && Bool.eqb (isCompound h) comp then Some (content, rest) else None.

(** [checkInteger] and [parseBigInt]. *)
Definition checkInteger (bs : bytes) : bool :=
  match bs with
  | [] => false
  | [_] => true
  | a :: b :: _ => negb ((b2z a =? 0) && (b2z b <? 128) || (b2z a =? 255) && (128 <=? b2z b))
  end.

Definition parseBigInt (bs : bytes) : option Z :=
  if negb (checkInteger bs) then None
  else
    match bs with
    | c :: _ => if 128 <=? b2z c then Some (be_value bs - 256 ^ zlen bs) else Some (be_value bs)
    | [] => None
    end.

(** [parseObjectIdentifier]; a round of the loop consumes at least one byte. *)
Fixpoint oid_arcs (fuel : nat) (bs : bytes) : option (list Z) :=
  match fuel, bs with
  | _, [] => Some []
  | O, _ :: _ => None
  | S f, _ :: _ => '(v, rest) ← base128 0 0 bs; vs ← oid_arcs f rest; Some (v :: vs)
  end.
Definition parseObjectIdentifier (bs : bytes) : option (list Z) :=
  '(v, rest) ← base128 0 0 bs;
  vs ← oid_arcs (length bs) rest;
  Some ((if v <? 80 then [v `div` 40; v `mod` 40] else [2; v - 80]) ++ vs).

Record BitString : Type := Bits { BitBytes : bytes; BitLength : Z }.

(** [parseBitString]. *)
Definition parseBitString (bs : bytes) : option BitString :=
  match bs with
  | [] => None
  | p :: content =>
      let paddingBits := b2z p in
      let lastByte := b2z (List.last bs x00) in
      if (7 <? paddingBits) || ((zlen content =? 0) && (0 <? paddingBits)) ||
         negb (Z.land lastByte (2 ^ paddingBits - 1) =? 0)
      then None
      else Some (Bits content (zlen content * 8 - paddingBits))
  end.

(** ** Encoding *)

Definition encode_length (n : Z) : bytes :=
  if n <? 128 then [z2b n] else let bs := big_bytes n in z2b (128 + zlen bs) :: bs.

Definition element (ident : byte) (content : bytes) : bytes := ident :: encode_length (zlen content) ++ content.

(** [makeBigInt]. *)
Definition int_content (n : Z) : bytes :=
  if n <? 0 then
    let bs := (λ c, z2b (255 - b2z c)) <$> big_bytes (- n - 1) in
    match bs with
    | c :: _ => if b2z c <? 128 then xff :: bs else bs
    | [] => xff :: bs
    end
  else if n =? 0 then [x00]
  else
    let bs := big_bytes n in
    match bs with
    | c :: _ => if 128 <=? b2z c then x00 :: bs else bs
    | [] => bs
    end.

Definition encode_int (n : Z) : bytes := element x02 (int_content n).
Definition sequence (content : bytes) : bytes := element x30 content.

End Asn1.

Import Asn1.

(** ** Round trips *)

Lemma long_length_value rest l acc : 0 ≤ acc → acc * 256 ^ zlen l + be_value l < 2 ^ 23 →
  0 < acc ∨ no_lead l →
  long_length (length l) acc (l ++ rest) = Some (acc * 256 ^ zlen l + be_value l, rest).
Proof.
  revert acc. induction l as [|d l IH]; intros acc Ha Hb Hc; cbn [length long_length app].
  { change (be_value []) with 0. change (256 ^ zlen []) with 1. do 2 f_equal. lia. }
  pose proof (b2z_range d). pose proof (be_value_range l). rewrite be_value_byte_cons in Hb |- *.
  assert (256 ^ Z.of_nat (S (length l)) = 256 * 256 ^ zlen l) as Hp by (rewrite Nat2Z.inj_succ, Z.pow_succ_r by lia; done).
  cbn [length] in Hb. rewrite Hp in Hb |- *.
  assert (0 < 256 ^ zlen l) by (apply Z.pow_pos_nonneg; lia).
  rewrite (proj2 (Z.leb_gt _ _)) by nia.
  assert (acc * 256 + b2z d ≠ 0) as Hne.
  { destruct Hc as [?|Hd]; [lia|]. assert (b2z d ≠ 0); [|lia]. intros E. apply Hd. cbn. f_equal. by apply b2z_inj. }
  rewrite (proj2 (Z.eqb_neq _ _)) by done. rewrite IH; [do 2 f_equal; lia|lia|lia|left; lia].
Qed.

Lemma parse_length_encode n rest : 0 ≤ n < 2 ^ 23 → parse_length (encode_length n ++ rest) = Some (n, rest).
Proof.
  intros Hn. unfold encode_length. destruct (Z.ltb_spec n 128) as [Hs|Hs]; cbn [app parse_length].
  { rewrite b2z_z2b_small by lia. by rewrite (proj2 (Z.ltb_lt n 128)). }
  assert (length (big_bytes n) ≤ 3)%nat as Hl.
  { apply big_bytes_length. change (256 ^ Z.of_nat 3) with (2 ^ 24). lia. }
  pose proof (big_bytes_value n) as Hv. rewrite Z.abs_eq in Hv by lia.
  assert (length (big_bytes n) ≠ 0)%nat as Hne by (destruct (big_bytes n); [cbn in Hv; lia|done]).
  rewrite b2z_z2b_small by lia. rewrite (proj2 (Z.ltb_ge _ 128)) by lia.
  replace (128 + zlen (big_bytes n) - 128) with (zlen (big_bytes n)) by lia.
  rewrite (proj2 (Z.eqb_neq _ 0)) by lia. rewrite Nat2Z.id, long_length_value;
    [|lia|lia|right; apply big_bytes_no_lead].
  cbn [mbind option_bind]. rewrite Z.mul_0_l, Z.add_0_l, Hv. by rewrite (proj2 (Z.ltb_ge n 128)).
Qed.

(** An element with a low tag number reads back. *)
Lemma parse_element_encode ident content rest : b2z ident `mod` 32 ≠ 31 → zlen content < 2 ^ 23 →
  parse_element (element ident content ++ rest) =
    Some (Header (b2z ident `div` 64) (b2z ident `mod` 32) (Z.testbit (b2z ident) 5) (zlen content), content, rest).
Proof.
  intros Ht Hl. unfold parse_element, parseTagAndLength, element. cbn [app].
  rewrite (proj2 (Z.eqb_neq _ 31)) by done. cbn. rewrite <- app_assoc, parse_length_encode by lia. cbn.
  rewrite (proj2 (Z.ltb_ge _ _)) by (rewrite length_app; lia). rewrite Nat2Z.id.
  by rewrite take_app_length, drop_app_length.
Qed.

Lemma parse_sequence_encode content rest : zlen content < 2 ^ 23 →
  parse_universal TagSequence true (sequence content ++ rest) = Some (content, rest).
Proof. intros Hl. unfold parse_universal, sequence. rewrite parse_element_encode by done. done. Qed.

Lemma parse_int_encode n rest : zlen (int_content n) < 2 ^ 23 →
  parse_universal TagInteger false (encode_int n ++ rest) = Some (int_content n, rest).
Proof. intros Hl. unfold parse_universal, encode_int. rewrite parse_element_encode by done. done. Qed.

(** A positive INTEGER reads back, and its content has at most one byte more than the
    number. *)
Lemma parseBigInt_content n : 0 < n → parseBigInt (int_content n) = Some n.
Proof.
  intros Hn. unfold int_content. rewrite (proj2 (Z.ltb_ge n 0)), (proj2 (Z.eqb_neq n 0)) by lia.
  pose proof (big_bytes_value n) as Hv. pose proof (big_bytes_no_lead n) as Hlead. rewrite Z.abs_eq in Hv by lia.
  destruct (big_bytes n) as [|c bs] eqn:E; [cbn in Hv; lia|].
  assert (b2z c ≠ 0) by (intros Ec; apply Hlead; cbn; f_equal; by apply b2z_inj).
  pose proof (b2z_range c). unfold parseBigInt. destruct (Z.leb_spec 128 (b2z c)) as [Hc|Hc].
  - cbn [checkInteger]. change (b2z x00) with 0. rewrite (proj2 (Z.ltb_ge (b2z c) 128)) by lia. cbn -[be_value].
    rewrite be_value_byte_cons. f_equal. change (b2z x00) with 0. lia.
  - replace (checkInteger (c :: bs)) with true; cbn [negb].
    + rewrite (proj2 (Z.leb_gt 128 (b2z c))) by lia. by rewrite Hv.
    + destruct bs as [|d bs]; [done|]. cbn [checkInteger].
      rewrite (proj2 (Z.eqb_neq (b2z c) 0)), (proj2 (Z.eqb_neq (b2z c) 255)) by lia. done.
Qed.

Lemma int_content_length n k : 0 < n < 256 ^ Z.of_nat k → (length (int_content n) ≤ S k)%nat.
Proof.
  intros Hn. unfold int_content. rewrite (proj2 (Z.ltb_ge n 0)), (proj2 (Z.eqb_neq n 0)) by lia.
  pose proof (big_bytes_length n k) as Hl. destruct (big_bytes n) as [|c bs]; [simpl; lia|].
  assert (length (c :: bs) ≤ k)%nat by (apply Hl; lia). destruct (128 <=? b2z c); simpl in *; lia.
Qed.
