(* ===== verification/Kms.v ===== *)
(** * The [kms] package: signatures and keys of a remote signer

    A translation of src/kms (der/der.go, recovery.go, signer.go, kms_signer.go,
    pubkey.go).  DER is Asn1.v, the curve library the class [Dcrd]; the remote
    signer is an interface on a world. *)
From S2P Require Import Prelude Sha256 GoBig GoIO Keccak Asn1 Secp256k1 Signature Binder.
Import Asn1.
#[local] Open Scope Z_scope.

Module Kms.

Inductive error : Type :=
| ErrInvalidDER
| ErrNoRecoveryID
| ErrInvalidPublicKeyDER
| ErrUnknownPath
| ErrContext
| ErrRemote.

(** ** der/der.go *)

Record ecdsaSigValue : Type := SigValue { R : Z; S : Z }.

Definition secp256k1N : Z := 0xFFFFFFFFFFFFFFFFFFFFFFFFFFFFFFFEBAAEDCE6AF48A03BBFD25E8CD0364141.
Definition secp256k1HalfN : Z := Z.shiftr secp256k1N 1.

(** [asn1.Unmarshal] into the struct: elements after the second are ignored. *)
Definition unmarshalSig (bs : bytes) : option (ecdsaSigValue * bytes) :=
  '(content, rest) ← parse_universal TagSequence true bs;
  '(ri, content') ← parse_universal TagInteger false content;
  r ← parseBigInt ri;
  '(si, _) ← parse_universal TagInteger false content';
  s ← parseBigInt si;
  Some (SigValue r s, rest).

(** [asn1.Marshal] of the struct. *)
Definition marshalSig (v : ecdsaSigValue) : bytes := sequence (encode_int (R v) ++ encode_int (S v)).

Definition ParseECDSASignature (derBytes : bytes) : outcome error (bytes * bytes) :=
  if zlen derBytes =? 0 then Err ErrInvalidDER
  else
    match unmarshalSig derBytes with
    | None => Err ErrInvalidDER
    | Some (sig, rest) =>
        if negb (zlen rest =? 0) then Err ErrInvalidDER
        else if (R sig <? 0) || (S sig <? 0) then Err ErrInvalidDER
        else if (R sig =? 0) || (S sig =? 0) then Err ErrInvalidDER
        else if (secp256k1N <=? R sig) || (secp256k1N <=? S sig) then Err ErrInvalidDER
        else
          let reencoded := marshalSig sig in
          if negb (ct_equal reencoded derBytes) then Err ErrInvalidDER
          else Ok (big_bytes (R sig), big_bytes (S sig))
    end.

Definition NormalizeLowS (s : bytes) : bytes * bool :=
  let sInt := be_value s in
  if secp256k1HalfN <? sInt then (big_bytes (secp256k1N - sInt), true)
  else (s, false).

(** ** recovery.go *)

Section Recovery.
Context `{D : Dcrd}.

(** The loop [for recID := byte(0); recID < 4; recID++]. *)
Fixpoint recovery_loop (ids : list Z) (sig digest : bytes) (pub : Secp256k1.PublicKey) : outcome error byte :=
  match ids with
  | [] => Err ErrNoRecoveryID
  | id :: ids' =>
      match Secp256k1.RecoverPubKey sig digest (z2b id) with
      | Ok recovered =>
          if Secp256k1.Equal recovered (Some pub) then Ok (z2b id) else recovery_loop ids' sig digest pub
      | Err _ => recovery_loop ids' sig digest pub
      | Panic => Panic
      | OutOfFuel => OutOfFuel
      end
  end.

Definition ComputeRecoveryID (sig digest : bytes) (pub : option Secp256k1.PublicKey) : outcome error byte :=
  match pub with
  | None => Err ErrNoRecoveryID
  | Some pub => recovery_loop [0; 1; 2; 3] sig digest pub
  end.
End Recovery.

(** ** signer.go and kms_signer.go *)

(** [type SignPath int]. *)
Definition SignPath : Type := Z.
Definition SignPathJOSE : SignPath := 0.
Definition SignPathEVM : SignPath := 1.

Record SignOptions : Type := MkOptions { Path : SignPath }.

(** The interface [RemoteSigner], on a world. *)
Record RemoteSigner (W Pub : Type) : Type := MkRemote {
  remote_Sign : bytes → SignOptions → ext W unit bytes;
  remote_PublicKey : ext W unit Pub
}.
Arguments remote_Sign {W Pub} r digest opts : rename.
Arguments remote_PublicKey {W Pub} r : rename.

(** A nil remote is [None]; calling it panics. *)
Record KMSSigner (W Pub : Type) : Type := MkSigner { remote : option (RemoteSigner W Pub); path : SignPath }.
Arguments remote {W Pub} k : rename.
Arguments path {W Pub} k : rename.

Definition NewKMSSigner {W Pub} (r : option (RemoteSigner W Pub)) (p : SignPath) : KMSSigner W Pub := MkSigner W Pub r p.

Definition PublicKey {W Pub} (k : KMSSigner W Pub) : io W error Pub :=
  match remote k with
  | None => pure Panic
  | Some r => run (λ _, ErrRemote) (remote_PublicKey r)
  end.

Definition preHash `{Hasher, Keccak} (p : SignPath) (digest : bytes) : option array32 :=
  if p =? SignPathJOSE then Some (Sum digest)
  else if p =? SignPathEVM then Some (keccak_sum digest)
  else None.

(** [canceled] is [ctx.Err() != nil]. *)
Definition Sign `{Hasher, Keccak} {W Pub} (canceled : W → bool) (k : KMSSigner W Pub) (digest : bytes) :
    io W error bytes := λ w,
  if canceled w then (Err ErrContext, w)
  else
    match preHash (path k) digest, remote k with
    | None, _ => (Err ErrUnknownPath, w)
    | Some _, None => (Panic, w)
    | Some h, Some r => run (λ _, ErrRemote) (remote_Sign r (arr h) (MkOptions (path k))) w
    end.

(** ** pubkey.go *)

Definition oidECPublicKey : list Z := [1; 2; 840; 10045; 2; 1].
Definition oidEd25519 : list Z := [1; 3; 101; 112].
Definition oidP256 : list Z := [1; 2; 840; 10045; 3; 1; 7].
Definition oidSecp256k1 : list Z := [1; 3; 132; 0; 10].
Definition oidP384 : list Z := [1; 3; 132; 0; 34].
Definition ed25519KeySize : Z := 32.

Record subjectPublicKeyInfo : Type := SPKI {
  Algorithm : header * bytes;
  SubjectPublicKey : BitString
}.

(** [asn1.Unmarshal] into the struct: the algorithm is any element, elements after
    the second are ignored. *)
Definition unmarshalSPKI (bs : bytes) : option (subjectPublicKeyInfo * bytes) :=
  '(content, rest) ← parse_universal TagSequence true bs;
  '(h, alg, content') ← parse_element content;
  '(bits, _) ← parse_universal TagBitString false content';
  key ← parseBitString bits;
  Some (SPKI (h, alg) key, rest).

(** [asn1.Unmarshal] into an [asn1.ObjectIdentifier]. *)
Definition unmarshalOID (bs : bytes) : option (list Z * bytes) :=
  '(content, rest) ← parse_universal TagOID false bs;
  oid ← parseObjectIdentifier content;
  Some (oid, rest).

(** The three wrappers of src/crypto the function returns. *)
Inductive TrustKey (Point : Type) : Type :=
| Ed25519Key (b : bytes)
| EcdsaKey (curve : Signature.Curve) (x y : Z) (hash : Signature.Hash)
| Secp256k1Key (p : Point).
Arguments Ed25519Key {Point} b.
Arguments EcdsaKey {Point} curve x y hash.
Arguments Secp256k1Key {Point} p.

Section Pubkey.
Context `{D : Dcrd}.
#[local] Notation key := (TrustKey Secp256k1.PublicKey).

(** [ed25519.NewPublicKey] copies a key of 32 bytes. *)
Definition parseEd25519PublicKey (point : bytes) : outcome error key :=
  if negb (zlen point =? ed25519KeySize) then Err ErrInvalidPublicKeyDER
  else Ok (Ed25519Key point).

(** [ecdsa.NewPublicKey] accepts the two curves with their hashes. *)
Definition validateCurveHash (curve : Signature.Curve) (hash : Signature.Hash) : bool :=
  match curve, hash with
  | Signature.P256, Signature.SHA256 => true
  | Signature.P384, Signature.SHA384 => true
  | _, _ => false
  end.

Definition parseNISTPublicKey (curve : Signature.Curve) (hash : Signature.Hash) (point : bytes) : outcome error key :=
  let size := Binder.field_bytes curve in
  if negb (zlen point =? 1 + 2 * size) then Err ErrInvalidPublicKeyDER
  else
    prefix ← index point 0;
    if negb (b2z prefix =? 4) then Err ErrInvalidPublicKeyDER
    else
      xs ← go_slice point 1 (1 + size);
      ys ← go_slice point (1 + size) (zlen point);
      let x := be_value xs in
      let y := be_value ys in
      if (Binder.field_prime curve <=? x) || (Binder.field_prime curve <=? y) then Err ErrInvalidPublicKeyDER
      else if negb (Binder.on_curve curve x y) then Err ErrInvalidPublicKeyDER
      else if negb (validateCurveHash curve hash) then Err ErrInvalidPublicKeyDER
      else Ok (EcdsaKey curve x y hash).

Definition parseSecp256k1PublicKey (point : bytes) : outcome error key :=
  if negb (zlen point =? 65) then Err ErrInvalidPublicKeyDER
  else
    prefix ← index point 0;
    if negb (b2z prefix =? 4) then Err ErrInvalidPublicKeyDER
    else
      x ← go_slice point 1 33;
      y ← go_slice point 33 65;
      parity ← index y 31;
      let compressed := (if b2z parity `mod` 2 =? 0 then x02 else x03) :: x in
      pub ← wrap_err (λ _, ErrInvalidPublicKeyDER) (Secp256k1.NewPublicKey compressed);
      if negb (ct_equal (Secp256k1.BytesUncompressed pub) point) then Err ErrInvalidPublicKeyDER
      else Ok (Secp256k1Key pub).

Definition parseECPublicKey (curveOID : list Z) (point : bytes) : outcome error key :=
  if bool_decide (curveOID = oidSecp256k1) then parseSecp256k1PublicKey point
  else if bool_decide (curveOID = oidP256) then parseNISTPublicKey Signature.P256 Signature.SHA256 point
  else if bool_decide (curveOID = oidP384) then parseNISTPublicKey Signature.P384 Signature.SHA384 point
  else Err ErrInvalidPublicKeyDER.

Definition ParsePublicKeyDER (derBytes : bytes) : outcome error key :=
  if zlen derBytes =? 0 then Err ErrInvalidPublicKeyDER
  else
    match unmarshalSPKI derBytes with
    | None => Err ErrInvalidPublicKeyDER
    | Some (spki, rest) =>
        let '(h, alg) := Algorithm spki in
        let bits := SubjectPublicKey spki in
        if negb (zlen rest =? 0) then Err ErrInvalidPublicKeyDER
        else if negb (class h =? 0) || negb (tag h =? TagSequence) || negb (isCompound h)
        then Err ErrInvalidPublicKeyDER
        else if negb (BitLength bits =? zlen (BitBytes bits) * 8) then Err ErrInvalidPublicKeyDER
        else
          match unmarshalOID alg with
          | None => Err ErrInvalidPublicKeyDER
          | Some (algOID, algRest) =>
              let point := BitBytes bits in
              if bool_decide (algOID = oidEd25519) then
                if negb (zlen algRest =? 0) then Err ErrInvalidPublicKeyDER
                else parseEd25519PublicKey point
              else if bool_decide (algOID = oidECPublicKey) then
                match unmarshalOID algRest with
                | None => Err ErrInvalidPublicKeyDER
                | Some (curveOID, paramsRest) =>
                    if negb (zlen paramsRest =? 0) then Err ErrInvalidPublicKeyDER
                    else parseECPublicKey curveOID point
                end
              else Err ErrInvalidPublicKeyDER
          end
    end.
End Pubkey.
End Kms.
