(* ===== verification/KmsProofs.v ===== *)
(** * Properties of the [kms] package

    [ParseECDSASignature] accepts exactly the canonical DER of scalars in range;
    low-s normalization; the recovery identifier found is the one that recovers the
    key; public keys read back from their SubjectPublicKeyInfo, and what the parser
    accepts is a point of the named curve. *)
From S2P Require Import Prelude Sha256 GoBig GoIO Keccak Asn1 Secp256k1 Signature Binder Kms.
Import Asn1 Kms.
#[local] Open Scope Z_scope.
#[local] Arguments be_value : simpl never.
#[local] Arguments big_bytes : simpl never.

(** ** Signatures *)

Definition in_order (n : Z) : Prop := 1 ≤ n < secp256k1N.

Lemma secp256k1N_bound : secp256k1N < 256 ^ Z.of_nat 32.
Proof. vm_compute. reflexivity. Qed.

Lemma encode_int_length n : in_order n → (length (encode_int n) ≤ 35)%nat.
Proof.
  intros Hn. pose proof secp256k1N_bound. pose proof (int_content_length n 32) as Hl. unfold in_order in Hn.
  unfold encode_int, element. cbn [length]. rewrite length_app. unfold encode_length.
  assert (length (int_content n) ≤ 33)%nat by (apply Hl; lia).
  rewrite (proj2 (Z.ltb_lt _ 128)) by lia. simpl. lia.
Qed.

Lemma unmarshal_int n rest : in_order n → parse_universal TagInteger false (encode_int n ++ rest) = Some (int_content n, rest).
Proof.
  intros Hn. apply parse_int_encode. pose proof secp256k1N_bound. unfold in_order in Hn.
  pose proof (int_content_length n 32). lia.
Qed.

(** What [asn1.Marshal] writes, [asn1.Unmarshal] reads. *)
Lemma unmarshal_marshal r s : in_order r → in_order s →
  unmarshalSig (marshalSig (SigValue r s)) = Some (SigValue r s, []).
Proof.
  intros Hr Hs. unfold unmarshalSig, marshalSig. cbn [R S].
  rewrite <- (app_nil_r (sequence _)), parse_sequence_encode.
  - cbn [mbind option_bind]. rewrite unmarshal_int by done. cbn [mbind option_bind].
    rewrite parseBigInt_content by (unfold in_order in Hr; lia). cbn [mbind option_bind].
    rewrite <- (app_nil_r (encode_int s)), unmarshal_int by done. cbn [mbind option_bind].
    rewrite parseBigInt_content by (unfold in_order in Hs; lia). done.
  - rewrite length_app. pose proof (encode_int_length r Hr). pose proof (encode_int_length s Hs). lia.
Qed.

(** Exactness.  [ParseECDSASignature] accepts a byte string exactly when it is the DER
    encoding of a pair of scalars in [1, n-1], and returns their minimal big-endian
    forms; so no signature has a second accepted encoding. *)
Theorem ParseECDSASignature_iff b r s : ParseECDSASignature b = Ok (r, s) ↔
  ∃ x y, in_order x ∧ in_order y ∧ b = marshalSig (SigValue x y) ∧ r = big_bytes x ∧ s = big_bytes y.
Proof.
  unfold ParseECDSASignature. split.
  - destruct (zlen b =? 0); [done|]. destruct (unmarshalSig b) as [[[x y] rest]|]; [|done]. cbn [R S].
    destruct (negb (zlen rest =? 0)); [done|].
    destruct (Z.ltb_spec x 0), (Z.ltb_spec y 0); cbn [orb]; try done.
    destruct (Z.eqb_spec x 0), (Z.eqb_spec y 0); cbn [orb]; try done.
    destruct (Z.leb_spec secp256k1N x), (Z.leb_spec secp256k1N y); cbn [orb]; try done.
    destruct (ct_equal _ _) eqn:E; cbn [negb]; [|done]. apply ct_equal_true in E. intros [= <- <-].
    exists x, y. unfold in_order. split_and!; try lia; done.
  - intros (x & y & Hx & Hy & -> & -> & ->). rewrite unmarshal_marshal by done. cbn [R S].
    rewrite (proj2 (Z.eqb_neq _ 0)) by (unfold marshalSig, sequence, element; simpl; lia).
    change (negb (zlen [] =? 0)) with false. cbv iota. unfold in_order in *.
    rewrite (proj2 (Z.ltb_ge x 0)), (proj2 (Z.ltb_ge y 0)) by lia. cbn [orb].
    rewrite (proj2 (Z.eqb_neq x 0)), (proj2 (Z.eqb_neq y 0)) by lia. cbn [orb].
    rewrite (proj2 (Z.leb_gt secp256k1N x)), (proj2 (Z.leb_gt secp256k1N y)) by lia. cbn [orb].
    by rewrite ct_equal_refl.
Qed.

(** Low-s normalization of a scalar in range: the result is s or n - s, in the lower
    half and in range, [flipped] exactly when s was in the upper half, and a second
    normalization changes nothing. *)
Theorem NormalizeLowS_spec s : in_order (be_value s) →
  let '(t, flipped) := NormalizeLowS s in
  1 ≤ be_value t ≤ secp256k1HalfN ∧ flipped = (secp256k1HalfN <? be_value s) ∧
  be_value t = (if flipped then secp256k1N - be_value s else be_value s) ∧ NormalizeLowS t = (t, false).
Proof.
  intros Hs. unfold in_order in Hs. unfold NormalizeLowS at 1.
  assert (secp256k1N = 2 * secp256k1HalfN + 1) as Hn by reflexivity.
  destruct (Z.ltb_spec secp256k1HalfN (be_value s)) as [Hh|Hh].
  - rewrite big_bytes_value, Z.abs_eq by lia. split_and!; try done; try lia.
    unfold NormalizeLowS. rewrite big_bytes_value, Z.abs_eq by lia. by rewrite (proj2 (Z.ltb_ge _ _)) by lia.
  - split_and!; try done; try lia. unfold NormalizeLowS. by rewrite (proj2 (Z.ltb_ge _ _)) by lia.
Qed.

(** ** Recovery identifiers *)

Section Recovery.
Context `{D : Dcrd, L : !Secp256k1.DcrdLaws}.

Lemma recovery_loop_Ok ids sig digest pub id : recovery_loop ids sig digest pub = Ok id →
  ∃ i, i ∈ ids ∧ id = z2b i ∧ Secp256k1.RecoverPubKey sig digest id = Ok pub.
Proof.
  induction ids as [|i ids IH]; cbn [recovery_loop]; [done|].
  destruct (Secp256k1.RecoverPubKey sig digest (z2b i)) as [p|e| |] eqn:E; [| |done..].
  - destruct (Secp256k1.Equal p (Some pub)) eqn:Eq.
    + intros [= <-]. apply Equal_iff in Eq as ->. exists i. split; [by left|done].
    + intros (j & ? & ?)%IH. exists j. split; [by right|done].
  - intros (j & ? & ?)%IH. exists j. split; [by right|done].
Qed.

Lemma recovery_loop_None ids sig digest pub : (∀ i, i ∈ ids → Secp256k1.RecoverPubKey sig digest (z2b i) ≠ Panic ∧
    Secp256k1.RecoverPubKey sig digest (z2b i) ≠ OutOfFuel) →
  (∃ id, recovery_loop ids sig digest pub = Ok id) ∨
  (recovery_loop ids sig digest pub = Err ErrNoRecoveryID ∧ ∀ i, i ∈ ids → Secp256k1.RecoverPubKey sig digest (z2b i) ≠ Ok pub).
Proof.
  induction ids as [|i ids IH]; intros Hp; cbn [recovery_loop]; [right; split; [done|set_solver]|].
  destruct (Hp i) as [H1 H2]; [by left|]. destruct IH as [[id Hid]|[He Hn]]; [intros j Hj; apply Hp; by right| |].
  - destruct (Secp256k1.RecoverPubKey sig digest (z2b i)) as [p|e| |]; [|by eauto|done..].
    destruct (Secp256k1.Equal p (Some pub)); eauto.
  - destruct (Secp256k1.RecoverPubKey sig digest (z2b i)) as [p|e| |] eqn:E; [| |done..].
    + destruct (Secp256k1.Equal p (Some pub)) eqn:Eq; [by eauto|]. right. split; [done|].
      intros j [->|Hj]%elem_of_cons; [|by apply Hn]. rewrite E. intros [= ->]. by rewrite (proj2 (Equal_iff pub pub)) in Eq.
    + right. split; [done|]. intros j [->|Hj]%elem_of_cons; [by rewrite E|by apply Hn].
Qed.

Lemma RecoverPubKey_returns sig digest id :
  Secp256k1.RecoverPubKey sig digest id ≠ Panic ∧ Secp256k1.RecoverPubKey sig digest id ≠ OutOfFuel.
Proof. unfold Secp256k1.RecoverPubKey. repeat case_match; done. Qed.

(** [ComputeRecoveryID] is exact: it returns an identifier from 0 to 3 under which the
    signature recovers to the given key, and fails only when there is none. *)
Theorem ComputeRecoveryID_exact sig digest pub :
  (∃ id, ComputeRecoveryID sig digest (Some pub) = Ok id ∧ b2z id ≤ 3 ∧
         Secp256k1.RecoverPubKey sig digest id = Ok pub) ∨
  (ComputeRecoveryID sig digest (Some pub) = Err ErrNoRecoveryID ∧
   ∀ id, b2z id ≤ 3 → Secp256k1.RecoverPubKey sig digest id ≠ Ok pub).
Proof.
  unfold ComputeRecoveryID. destruct (recovery_loop_None [0; 1; 2; 3] sig digest pub) as [[id Hid]|[He Hn]].
  - intros i _. apply RecoverPubKey_returns.
  - left. exists id. split; [done|]. apply recovery_loop_Ok in Hid as (i & Hi & -> & Hr). split; [|done].
    repeat (apply elem_of_cons in Hi as [->|Hi]; [by vm_compute|]). by apply not_elem_of_nil in Hi.
  - right. split; [done|]. intros id Hid. rewrite <- (z2b_b2z id). apply Hn. pose proof (b2z_range id).
    assert (b2z id = 0 ∨ b2z id = 1 ∨ b2z id = 2 ∨ b2z id = 3) as Hc by lia.
    rewrite !elem_of_cons. tauto.
Qed.
End Recovery.

(** ** Public keys *)

Definition bit_string (point : bytes) : bytes := element x03 (x00 :: point).
Definition oid_element (content : bytes) : bytes := element x06 content.
Definition ed25519_alg : bytes := oid_element [x2b; x65; x70].
Definition ec_alg (curve : bytes) : bytes := oid_element [x2a; x86; x48; xce; x3d; x02; x01] ++ oid_element curve.

(** A SubjectPublicKeyInfo with [extra] bytes after its two elements. *)
Definition spki (alg point extra : bytes) : bytes := sequence (sequence alg ++ bit_string point ++ extra).

Section Keys.
Context `{D : Dcrd}.
#[local] Notation key := (TrustKey Secp256k1.PublicKey).

(** The part of [ParsePublicKeyDER] after the outer structure is read. *)
Definition dispatch (alg point : bytes) : outcome error key :=
  match unmarshalOID alg with
  | None => Err ErrInvalidPublicKeyDER
  | Some (algOID, algRest) =>
      if bool_decide (algOID = oidEd25519) then
        if negb (zlen algRest =? 0) then Err ErrInvalidPublicKeyDER else parseEd25519PublicKey point
      else if bool_decide (algOID = oidECPublicKey) then
        match unmarshalOID algRest with
        | None => Err ErrInvalidPublicKeyDER
        | Some (curveOID, paramsRest) =>
            if negb (zlen paramsRest =? 0) then Err ErrInvalidPublicKeyDER else parseECPublicKey curveOID point
        end
      else Err ErrInvalidPublicKeyDER
  end.

Lemma element_length ident content : zlen content < 2 ^ 23 → zlen (element ident content) ≤ zlen content + 5.
Proof.
  intros Hl. unfold element, encode_length. cbn [length]. rewrite length_app.
  destruct (zlen content <? 128); [simpl; lia|]. cbn [length].
  pose proof (big_bytes_length (zlen content) 3). change (256 ^ Z.of_nat 3) with (2 ^ 24) in *. lia.
Qed.

Lemma parse_bits point rest : zlen point < 2 ^ 16 →
  parse_universal TagBitString false (bit_string point ++ rest) = Some (x00 :: point, rest).
Proof.
  intros Hp. unfold parse_universal, bit_string. rewrite parse_element_encode; [done|vm_compute; congruence|cbn [length]; lia].
Qed.

Lemma parseBitString_whole point : parseBitString (x00 :: point) = Some (Bits point (zlen point * 8)).
Proof.
  unfold parseBitString. change (b2z x00) with 0. change (7 <? 0) with false. change (0 <? 0) with false.
  rewrite andb_false_r. change (2 ^ 0 - 1) with 0. rewrite Z.land_0_r. cbn. by rewrite Z.sub_0_r.
Qed.

Lemma ParsePublicKeyDER_spki alg point extra :
  zlen alg < 2 ^ 16 → zlen point < 2 ^ 16 → zlen extra < 2 ^ 16 →
  ParsePublicKeyDER (spki alg point extra) = dispatch alg point.
Proof.
  intros Ha Hp He. unfold ParsePublicKeyDER. unfold spki at 1, sequence at 1, element at 1.
  rewrite (proj2 (Z.eqb_neq _ 0)) by (cbn [length]; lia).
  assert (unmarshalSPKI (spki alg point extra) =
    Some (SPKI (Header 0 TagSequence true (zlen alg), alg) (Bits point (zlen point * 8)), [])) as ->.
  { unfold unmarshalSPKI, spki. rewrite <- (app_nil_r (sequence (_ ++ _))), parse_sequence_encode.
    - cbn [mbind option_bind]. unfold sequence at 1. rewrite parse_element_encode by (done || lia). cbn [mbind option_bind].
      rewrite parse_bits by lia. cbn [mbind option_bind]. by rewrite parseBitString_whole.
    - rewrite !length_app. pose proof (element_length x30 alg). pose proof (element_length x03 (x00 :: point)).
      unfold sequence, bit_string. cbn [length] in *. lia. }
  cbn [Algorithm SubjectPublicKey BitBytes BitLength class tag isCompound]. by rewrite (Z.eqb_refl (zlen point * 8)).
Qed.

Definition curve_oid (c : Signature.Curve) : bytes :=
  match c with
  | Signature.P256 => [x2a; x86; x48; xce; x3d; x03; x01; x07]
  | Signature.P384 => [x2b; x81; x04; x00; x22]
  | Signature.OtherCurve _ => []
  end.
Definition secp256k1_oid : bytes := [x2b; x81; x04; x00; x0a].

(** The algorithm and the point a key is written with. *)
Definition key_alg (k : key) : bytes :=
  match k with
  | Ed25519Key _ => ed25519_alg
  | EcdsaKey c _ _ _ => ec_alg (curve_oid c)
  | Secp256k1Key _ => ec_alg secp256k1_oid
  end.
Definition key_point (k : key) : bytes :=
  match k with
  | Ed25519Key b => b
  | EcdsaKey c x y _ => let n := Z.to_nat (Binder.field_bytes c) in x04 :: be_bytes n x ++ be_bytes n y
  | Secp256k1Key p => Secp256k1.BytesUncompressed p
  end.

(** A key as the wrappers hold it: 32 bytes, or a point of P-256 or P-384 with the
    hash of its curve. *)
Definition key_ok (k : key) : Prop :=
  match k with
  | Ed25519Key b => length b = 32%nat
  | EcdsaKey c x y h => Binder.on_curve c x y = true ∧ validateCurveHash c h = true
  | Secp256k1Key _ => True
  end.

Lemma on_curve_range c x y : Binder.on_curve c x y = true →
  0 ≤ x < 256 ^ Binder.field_bytes c ∧ 0 ≤ y < 256 ^ Binder.field_bytes c ∧
  x < Binder.field_prime c ∧ y < Binder.field_prime c.
Proof.
  unfold Binder.on_curve, Binder.pointInRange. rewrite !andb_true_iff, !Z.leb_le, !Z.ltb_lt. intros [[[[? ?] ?] ?] _].
  assert (Binder.field_prime c ≤ 256 ^ Binder.field_bytes c) by (by destruct c; vm_compute). lia.
Qed.

Lemma parseNIST_iff c h point k : c = Signature.P256 ∨ c = Signature.P384 → validateCurveHash c h = true →
  parseNISTPublicKey c h point = Ok k ↔ ∃ x y, k = EcdsaKey c x y h ∧ point = key_point k ∧ Binder.on_curve c x y = true.
Proof.
  intros Hc Hh. assert (∃ n, Binder.field_bytes c = Z.of_nat n ∧ Z.to_nat (Binder.field_bytes c) = n) as (n & Hn & Hn')
    by (destruct Hc as [->| ->]; [exists 32%nat|exists 48%nat]; done).
  unfold parseNISTPublicKey. split.
  - destruct (Z.eqb_spec (zlen point) (1 + 2 * Binder.field_bytes c)) as [Hl|]; cbn [negb]; [|done].
    destruct point as [|p xy]; [simpl in Hl; lia|]. cbn [index lookup list_lookup nth_error mbind outcome_bind].
    change (index (p :: xy) 0) with (Ok (E := error) p). cbn [mbind outcome_bind].
    destruct (Z.eqb_spec (b2z p) 4) as [Hp|]; cbn [negb]; [|done].
    assert (p = x04) as -> by (by apply b2z_inj).
    assert (∃ xs ys, xy = xs ++ ys ∧ length xs = n ∧ length ys = n) as (xs & ys & -> & Hxs & Hys).
    { exists (take n xy), (drop n xy). rewrite take_drop, length_take, length_drop. cbn [length] in Hl. split_and!; [done|lia..]. }
    rewrite (go_slice_mid [x04] xs ys 1 (1 + Binder.field_bytes c)); [|reflexivity|cbn [length]; lia]. cbn [mbind outcome_bind].
    change (x04 :: xs ++ ys) with ((x04 :: xs) ++ ys). rewrite (go_slice_tail (x04 :: xs) ys) by (rewrite ?length_app; cbn [length]; rewrite ?length_app; lia).
    cbn [mbind outcome_bind]. destruct (_ || _); [done|].
    destruct (Binder.on_curve c (be_value xs) (be_value ys)) eqn:Eo; cbn [negb]; [|done]. rewrite Hh. cbn [negb].
    intros [= <-]. exists (be_value xs), (be_value ys). split_and!; [done| |done]. cbn [key_point]. rewrite Hn'.
    rewrite <- (be_bytes_value xs) at 1. rewrite <- (be_bytes_value ys) at 1. by rewrite Hxs, Hys.
  - intros (x & y & -> & -> & Ho). pose proof (on_curve_range c x y Ho) as (Hx & Hy & Hpx & Hpy). cbn [key_point].
    rewrite Hn' in *. rewrite Hn in *.
    rewrite (proj2 (Z.eqb_eq _ _)) by (cbn [length]; rewrite length_app, !be_bytes_length; lia). cbn [negb].
    change (index (x04 :: _) 0) with (Ok (E := error) x04). cbn [mbind outcome_bind].
    change (negb (b2z x04 =? 4)) with false. cbv iota.
    rewrite (go_slice_mid [x04] (be_bytes n x) (be_bytes n y) 1 (1 + Z.of_nat n)) by (cbn [length]; rewrite ?be_bytes_length; lia).
    cbn [mbind outcome_bind]. change (x04 :: be_bytes n x ++ be_bytes n y) with ((x04 :: be_bytes n x) ++ be_bytes n y).
    rewrite (go_slice_tail (x04 :: be_bytes n x) (be_bytes n y)) by (rewrite ?length_app; cbn [length]; rewrite ?be_bytes_length; lia).
    cbn [mbind outcome_bind]. rewrite !be_bytes_small by done.
    rewrite (proj2 (Z.leb_gt _ x)), (proj2 (Z.leb_gt _ y)) by done. cbn [orb]. by rewrite Ho, Hh.
Qed.

Lemma parseSecp256k1_sound point k : parseSecp256k1PublicKey point = Ok k →
  ∃ p, k = Secp256k1Key p ∧ point = Secp256k1.BytesUncompressed p.
Proof.
  unfold parseSecp256k1PublicKey. destruct (negb _); [done|]. intros (c & _ & E)%bind_Ok.
  destruct (negb _) in E; [done|]. apply bind_Ok in E as (x & _ & E). apply bind_Ok in E as (y & _ & E).
  apply bind_Ok in E as (par & _ & E). apply bind_Ok in E as (pub & _ & E).
  destruct (ct_equal _ _) eqn:Ec; cbn [negb] in E; [|done]. apply ct_equal_true in Ec. injection E as <-. eauto.
Qed.

Lemma dispatch_sound alg point k : dispatch alg point = Ok k → key_ok k ∧ point = key_point k.
Proof.
  unfold dispatch. destruct (unmarshalOID alg) as [[oid rest]|]; [|done]. case_bool_decide.
  - destruct (negb _); [done|]. unfold parseEd25519PublicKey.
    destruct (Z.eqb_spec (zlen point) ed25519KeySize) as [Hl|]; cbn [negb]; [|done]. intros [= <-].
    split; [|done]. unfold ed25519KeySize in Hl. cbn. lia.
  - case_bool_decide; [|done]. destruct (unmarshalOID rest) as [[c rest']|]; [|done]. destruct (negb _); [done|].
    unfold parseECPublicKey. case_bool_decide; [|case_bool_decide; [|case_bool_decide; [|done]]].
    + intros (p & -> & ->)%parseSecp256k1_sound. done.
    + intros E. apply parseNIST_iff in E as (x & y & -> & -> & Ho); [done|by left|done].
    + intros E. apply parseNIST_iff in E as (x & y & -> & -> & Ho); [done|by right|done].
Qed.

(** What is accepted is a key: the BIT STRING of the document holds exactly the bytes
    of the returned key, an Ed25519 key has 32 bytes, a NIST key is a reduced point of
    P-256 or P-384 bound to its curve's hash, and a secp256k1 key re-encodes to the
    uncompressed point that was given. *)
Theorem ParsePublicKeyDER_sound b k : ParsePublicKeyDER b = Ok k →
  ∃ info, unmarshalSPKI b = Some (info, []) ∧ BitBytes (SubjectPublicKey info) = key_point k ∧ key_ok k.
Proof.
  unfold ParsePublicKeyDER. destruct (zlen b =? 0); [done|]. destruct (unmarshalSPKI b) as [[info rest]|]; [|done].
  destruct (Algorithm info) as [h alg]. destruct (Z.eqb_spec (zlen rest) 0) as [Hr|]; cbn [negb]; [|done].
  destruct (_ || _ || _); [done|]. destruct (negb _); [done|]. intros E.
  change (dispatch alg (BitBytes (SubjectPublicKey info)) = Ok k) in E. apply dispatch_sound in E as [Hk Hp].
  exists info. split; [|done]. destruct rest; [done|]. simpl in Hr. lia.
Qed.

Context `{L : !Secp256k1.DcrdLaws}.

(** SEC 1 section 2.3.3: the compressed form of a point is the parity of y and x. *)
Definition sec1 : Prop := ∀ p x y c, point_uncompressed p = x04 :: x ++ y ++ [c] → length x = 32%nat → length y = 31%nat →
  point_compressed p = (if b2z c `mod` 2 =? 0 then x02 else x03) :: x.

Lemma parseSecp256k1_complete p : sec1 →
  parseSecp256k1PublicKey (Secp256k1.BytesUncompressed p) = Ok (Secp256k1Key p).
Proof.
  intros Hsec. unfold Secp256k1.BytesUncompressed. destruct (Secp256k1.uncompressed_form p) as (xy & E & Hl).
  assert (∃ x y c, xy = x ++ y ++ [c] ∧ length x = 32%nat ∧ length y = 31%nat) as (x & y & c & -> & Hx & Hy).
  { clear -Hl. destruct (exists_last (l := drop 32 xy)) as (y & c & Ey).
    { intros Ed. apply (f_equal length) in Ed. rewrite length_drop in Ed. simpl in Ed. lia. }
    exists (take 32 xy), y, c. rewrite <- Ey, take_drop. split; [done|]. rewrite length_take. split; [lia|].
    apply (f_equal length) in Ey. rewrite length_drop, length_app in Ey. simpl in Ey. lia. }
  pose proof (Hsec p x y c E Hx Hy) as Hcomp. unfold parseSecp256k1PublicKey. rewrite E.
  rewrite (proj2 (Z.eqb_eq _ 65)) by (cbn [length]; rewrite !length_app; cbn [length]; lia). cbn [negb].
  change (index (x04 :: _) 0) with (Ok (E := error) x04). cbn [mbind outcome_bind].
  change (negb (b2z x04 =? 4)) with false. cbv iota.
  rewrite (go_slice_mid [x04] x (y ++ [c]) 1 33) by (cbn [length]; lia). cbn [mbind outcome_bind].
  change (x04 :: x ++ y ++ [c]) with ((x04 :: x) ++ y ++ [c]) at 1.
  rewrite (go_slice_tail (x04 :: x) (y ++ [c]) 33 65) by (rewrite ?length_app; cbn [length]; rewrite ?length_app; cbn [length]; lia).
  cbn [mbind outcome_bind]. unfold index at 1. rewrite lookup_app_r by lia. replace (31 - length y)%nat with 0%nat by lia.
  cbn [lookup list_lookup mbind outcome_bind]. rewrite <- Hcomp, NewPublicKey_parse. cbn [wrap_err mbind outcome_bind].
  change ((x04 :: x) ++ y ++ [c]) with (x04 :: x ++ y ++ [c]). unfold Secp256k1.BytesUncompressed.
  by rewrite E, ct_equal_refl.
Qed.

Lemma key_point_length k : key_ok k → zlen (key_point k) ≤ 97.
Proof.
  destruct k as [b|c x y h|p]; cbn [key_ok key_point]; [lia| |].
  - intros [_ Hh]. cbn [length]. rewrite length_app, !be_bytes_length. destruct c; [simpl; lia..|done].
  - intros _. unfold Secp256k1.BytesUncompressed. destruct (Secp256k1.uncompressed_form p) as (xy & -> & Hl).
    cbn [length]. lia.
Qed.

Lemma dispatch_key k : sec1 → key_ok k → dispatch (key_alg k) (key_point k) = Ok k.
Proof.
  intros Hsec Hk. unfold dispatch. destruct k as [b|c x y h|p]; cbn [key_alg key_ok] in *.
  - change (unmarshalOID ed25519_alg) with (Some (oidEd25519, @nil byte)). cbn [key_point].
    rewrite bool_decide_true by done. change (negb (zlen [] =? 0)) with false. cbv iota.
    unfold parseEd25519PublicKey, ed25519KeySize. by rewrite Hk.
  - destruct Hk as [Ho Hh].
    assert (∃ oid, unmarshalOID (ec_alg (curve_oid c)) = Some (oidECPublicKey, oid_element (curve_oid c)) ∧
      unmarshalOID (oid_element (curve_oid c)) = Some (oid, []) ∧
      ∀ pt, parseECPublicKey oid pt = parseNISTPublicKey c h pt) as (oid & E1 & E2 & E3).
    { destruct c, h; try done; [exists oidP256|exists oidP384]; done. }
    rewrite E1, bool_decide_false, bool_decide_true, E2 by done. change (negb (zlen [] =? 0)) with false. cbv iota.
    rewrite E3. apply parseNIST_iff; [destruct c; [by left|by right|done]|done|]. by exists x, y.
  - change (unmarshalOID (ec_alg secp256k1_oid)) with (Some (oidECPublicKey, oid_element secp256k1_oid)).
    cbv beta iota. rewrite bool_decide_false, bool_decide_true by done.
    change (unmarshalOID (oid_element secp256k1_oid)) with (Some (oidSecp256k1, @nil byte)). cbv beta iota.
    change (negb (zlen [] =? 0)) with false. cbv iota. unfold parseECPublicKey. rewrite bool_decide_true by done.
    by apply parseSecp256k1_complete.
Qed.

Lemma key_alg_length k : key_ok k → zlen (key_alg k) ≤ 30.
Proof.
  destruct k as [b|c x y h|p]; cbn [key_alg key_ok]; intros Hk; [clear; by vm_compute| |clear; by vm_compute].
  destruct Hk as [_ Hh]. destruct c; [clear; by vm_compute..|done].
Qed.

(** Round trip: the SubjectPublicKeyInfo of every key of the three kinds parses back to
    the key. *)
Theorem ParsePublicKeyDER_roundtrip k : sec1 → key_ok k → ParsePublicKeyDER (spki (key_alg k) (key_point k) []) = Ok k.
Proof.
  intros Hsec Hk. rewrite ParsePublicKeyDER_spki; [by apply dispatch_key| | |simpl; lia].
  - pose proof (key_alg_length k Hk). lia.
  - pose proof (key_point_length k Hk). lia.
Qed.

(** The outer SEQUENCE is not held to two elements: the same key is returned whatever
    bytes follow the BIT STRING inside it, so a key has many accepted encodings. *)
Theorem ParsePublicKeyDER_surplus k extra : sec1 → key_ok k → zlen extra < 2 ^ 16 →
  ParsePublicKeyDER (spki (key_alg k) (key_point k) extra) = Ok k.
Proof.
  intros Hsec Hk He. rewrite ParsePublicKeyDER_spki; [by apply dispatch_key| | |done].
  - pose proof (key_alg_length k Hk). lia.
  - pose proof (key_point_length k Hk). lia.
Qed.
End Keys.

(** ** Concrete inputs *)

Lemma toy_sec1 : sec1 (D := Toy.dcrd).
Proof.
  intros p x y c E Hx Hy. change (x04 :: be_bytes 32 (Toy.val p) ++ replicate 32 x00 = x04 :: x ++ y ++ [c]) in E.
  change (x02 :: be_bytes 32 (Toy.val p) = (if b2z c `mod` 2 =? 0 then x02 else x03) :: x).
  apply cons_eq_inj in E as [_ E].
  apply app_inj_1 in E as [<- E]; [|by rewrite be_bytes_length].
  change (replicate 32 x00) with (replicate 31 x00 ++ [x00]) in E. by apply app_inj_2 in E as [_ [= <-]].
Qed.

Lemma NormalizeLowS_spec_witness :
  let '(t, flipped) := NormalizeLowS (be_bytes 32 (secp256k1N - 5)) in
  1 ≤ be_value t ≤ secp256k1HalfN ∧ flipped = (secp256k1HalfN <? be_value (be_bytes 32 (secp256k1N - 5))) ∧
  be_value t = (if flipped then secp256k1N - be_value (be_bytes 32 (secp256k1N - 5)) else be_value (be_bytes 32 (secp256k1N - 5))) ∧
  NormalizeLowS t = (t, false).
Proof. apply (NormalizeLowS_spec (be_bytes 32 (secp256k1N - 5))). vm_compute. split; congruence. Defined.

Lemma ComputeRecoveryID_exact_witness :
  is_ok (ComputeRecoveryID (D := Toy.dcrd) (be_bytes 32 7 ++ be_bytes 32 Toy.fixed_s) (replicate 32 x00) (Some (Toy.mk 7))) = true.
Proof.
  destruct (ComputeRecoveryID_exact (L := Toy.laws) (be_bytes 32 7 ++ be_bytes 32 Toy.fixed_s) (replicate 32 x00) (Toy.mk 7))
    as [(id & E & _)|[_ Hn]].
  - exact (f_equal is_ok E).
  - exfalso. apply (Hn x00); vm_compute; congruence.
Defined.

(** The base point of P-256. *)
Definition p256_key : TrustKey Toy.scalar :=
  EcdsaKey Signature.P256 0x6b17d1f2e12c4247f8bce6e563a440f277037d812deb33a0f4a13945d898c296
    0x4fe342e2fe1a7f9b8ee7eb4a7c0f9e162bce33576b315ececbb6406837bf51f5 Signature.SHA256.

Lemma ParsePublicKeyDER_roundtrip_witness : let d := Toy.dcrd in
  ParsePublicKeyDER (spki (key_alg p256_key) (key_point p256_key) []) = Ok p256_key.
Proof. apply (ParsePublicKeyDER_roundtrip (L := Toy.laws) p256_key toy_sec1). vm_compute. split; reflexivity. Defined.

Lemma ParsePublicKeyDER_surplus_witness : let d := Toy.dcrd in
  ParsePublicKeyDER (spki (key_alg (Secp256k1Key (Toy.mk 9))) (key_point (Secp256k1Key (Toy.mk 9))) [x05; x00])
    = Ok (Secp256k1Key (Toy.mk 9)).
Proof. apply (ParsePublicKeyDER_surplus (L := Toy.laws) (Secp256k1Key (Toy.mk 9)) [x05; x00] toy_sec1); [exact I|reflexivity]. Defined.

Lemma ParsePublicKeyDER_sound_witness : let d := Toy.dcrd in
  ∃ info, unmarshalSPKI (spki (key_alg p256_key) (key_point p256_key) []) = Some (info, []) ∧
    BitBytes (SubjectPublicKey info) = key_point p256_key ∧ key_ok p256_key.
Proof. apply (ParsePublicKeyDER_sound (D := Toy.dcrd)). vm_compute. reflexivity. Defined.
