(* ===== verification/Base64.v ===== *)
(** * Unpadded base64url

    [base64.RawURLEncoding.EncodeToString], the inverse of the decoder that Binder.v
    models. *)
From S2P Require Import Prelude Binder.
#[local] Open Scope Z_scope.

Definition b64url_digit (n : Z) : byte :=
  nth (Z.to_nat n) (str_bytes "ABCDEFGHIJKLMNOPQRSTUVWXYZabcdefghijklmnopqrstuvwxyz0123456789-_") x00.

(** Three bytes make four digits; the last group may be short. *)
Fixpoint b64_digits (bs : bytes) : list Z :=
  match bs with
  | [] => []
  | [a] => let n := b2z a * 16 in [n `div` 64; n `mod` 64]
  | [a; b] => let n := (b2z a * 256 + b2z b) * 4 in [n `div` 4096; (n `div` 64) `mod` 64; n `mod` 64]
  | a :: b :: c :: bs' =>
      let n := b2z a * 65536 + b2z b * 256 + b2z c in
      n `div` 262144 :: (n `div` 4096) `mod` 64 :: (n `div` 64) `mod` 64 :: n `mod` 64 :: b64_digits bs'
  end.

Definition encode_rawurl (bs : bytes) : bytes := b64url_digit <$> b64_digits bs.

Lemma b64url_value_digit n : 0 ≤ n < 64 → Binder.b64url_value (b64url_digit n) = Some n ∧
  b64url_digit n ≠ x0a ∧ b64url_digit n ≠ x0d.
Proof.
  intros Hn. assert (n ∈ seqZ 0 64) as Hin by (apply elem_of_seqZ; lia).
  assert (Forall (λ n, Binder.b64url_value (b64url_digit n) = Some n ∧ b64url_digit n ≠ x0a ∧ b64url_digit n ≠ x0d) (seqZ 0 64)) as HF.
  { apply (bool_decide_unpack _). vm_compute. exact I. }
  rewrite list.Forall_forall in HF. by apply HF.
Qed.

Lemma bytes_ind3 (P : bytes → Prop) : P [] → (∀ a, P [a]) → (∀ a b, P [a; b]) →
  (∀ a b c bs, P bs → P (a :: b :: c :: bs)) → ∀ bs, P bs.
Proof. intros H0 H1 H2 H3. fix IH 1. intros [|a [|b [|c bs]]]; [done..|]. apply H3, IH. Qed.

Lemma b64_digits_range bs : Forall (λ n, 0 ≤ n < 64) (b64_digits bs).
Proof.
  induction bs as [|a|a b|a b c bs IH] using bytes_ind3; cbn [b64_digits]; repeat constructor; try done;
    try pose proof (b2z_range a); try pose proof (b2z_range b); try pose proof (b2z_range c); div_lia.
Qed.

Lemma z2b_eq z b : z `mod` 256 = b2z b → z2b z = b.
Proof. intros E. apply b2z_inj. by rewrite b2z_z2b. Qed.

Lemma b64_groups_digits bs : Binder.b64_groups (b64_digits bs) = Some bs.
Proof.
  induction bs as [|a|a b|a b c bs IH] using bytes_ind3; cbn [b64_digits Binder.b64_groups]; [done|..].
  - pose proof (b2z_range a). do 2 f_equal. apply z2b_eq. div_lia.
  - pose proof (b2z_range a). pose proof (b2z_range b). do 2 f_equal; [apply z2b_eq; div_lia|]. f_equal. apply z2b_eq. div_lia.
  - rewrite IH. cbn. pose proof (b2z_range a). pose proof (b2z_range b). pose proof (b2z_range c).
    f_equal. f_equal; [apply z2b_eq; div_lia|]. f_equal; [apply z2b_eq; div_lia|]. f_equal. apply z2b_eq. div_lia.
Qed.

(** Round trip. *)
Lemma decode_encode_rawurl bs : Binder.decode_rawurl (encode_rawurl bs) = Some bs.
Proof.
  unfold Binder.decode_rawurl, encode_rawurl. pose proof (b64_digits_range bs) as HR.
  assert (filter (λ c, c ≠ x0a ∧ c ≠ x0d) (b64url_digit <$> b64_digits bs) = b64url_digit <$> b64_digits bs) as ->.
  { clear -HR. induction HR as [|n l Hn _ IH]; [done|]. rewrite fmap_cons, filter_cons_True by (by apply b64url_value_digit).
    by rewrite IH. }
  assert (mapM Binder.b64url_value (b64url_digit <$> b64_digits bs) = Some (b64_digits bs)) as ->; [|apply b64_groups_digits].
  apply mapM_Some_2. apply Forall2_fmap_l, Forall_Forall2_diag. eapply Forall_impl; [exact HR|].
  intros n Hn. by apply b64url_value_digit.
Qed.

Lemma encode_rawurl_inj a b : encode_rawurl a = encode_rawurl b → a = b.
Proof. intros E. apply (inj Some). by rewrite <- !decode_encode_rawurl, E. Qed.
