(* ===== verification/Resume.v ===== *)
(** * Interleaved requests

    A request handler that calls a shared store is a tree of atomic actions, [prog]:
    each [Act] is one call, and what happens next depends on its answer.  A pool of
    handlers runs by picking any of them for its next action.  [at_most_one] is the
    argument for single-use resources: when every handler that succeeds has itself
    made the action that took the resource, at most one of them succeeds in every
    interleaving. *)
From S2P Require Import Prelude.

Inductive prog (W A : Type) : Type :=
| Ret (a : A)
| Act {X : Type} (m : W → X * W) (k : X → prog W A).
Arguments Ret {W A} a.
Arguments Act {W A X} m k.

Fixpoint prog_bind {W A B} (f : A → prog W B) (p : prog W A) : prog W B :=
  match p with
  | Ret a => f a
  | Act m k => Act m (λ x, prog_bind f (k x))
  end.

(** A handler returns an outcome; its steps stop at the first error. *)
Definition handler (W E A : Type) : Type := prog W (outcome E A).

#[global] Instance handler_ret W E : MRet (handler W E) := λ A a, Ret (Ok a).
#[global] Instance handler_bind W E : MBind (handler W E) := λ A B f p,
  prog_bind (λ r, match r with
                  | Ok a => f a
                  | Err e => Ret (Err e)
                  | Panic => Ret Panic
                  | OutOfFuel => Ret OutOfFuel
                  end) p.

Definition finish {W E A} (r : outcome E A) : handler W E A := Ret r.

(** One atomic call. *)
Definition call {W E A} (m : W → A * W) : handler W E A := Act m (λ x, Ret (Ok x)).

(** A handler running alone. *)
Fixpoint run_alone {W A} (p : prog W A) (w : W) : A * W :=
  match p with
  | Ret a => (a, w)
  | Act m k => let '(x, w') := m w in run_alone (k x) w'
  end.

(** One action of the [i]-th handler, and a schedule of them. *)
Definition run_one {W A} (i : nat) (s : list (prog W A) * W) : list (prog W A) * W :=
  match s.1 !! i with
  | Some (Act m k) => let '(x, w') := m s.2 in (<[i := k x]> s.1, w')
  | _ => s
  end.
Definition run_schedule {W A} (sched : list nat) (s : list (prog W A) * W) : list (prog W A) * W :=
  foldl (λ s i, run_one i s) s sched.

(** A call moves the world along [R]; so does every action of a handler. *)
Definition moves {W X} (R : W → W → Prop) (m : W → X * W) : Prop := ∀ w, R w (m w).2.

Fixpoint acts {W A} (R : W → W → Prop) (p : prog W A) : Prop :=
  match p with
  | Ret _ => True
  | Act m k => moves R m ∧ ∀ w, acts R (k (m w).1)
  end.

Section Exclusive.
Context {W A : Type}.
(** How actions move the world, the resource, which no action gives back, and what
    holds in the worlds of the run. *)
Variable R : W → W → Prop.
Context `{!PreOrder R}.
Variable taken : W → bool.
Variable inv : W → Prop.
Hypothesis taken_stays : ∀ w w', R w w' → taken w = true → taken w' = true.

(** A handler that wins only after its own action took the resource. *)
Fixpoint disciplined (win : A → bool) (held : bool) (p : prog W A) : Prop :=
  match p with
  | Ret a => win a = true → held = true
  | Act m k => ∀ w x w', inv w → m w = (x, w') → disciplined win (held || (negb (taken w) && taken w')) (k x)
  end.

(** So does one that has it already, or none of whose results wins. *)
Lemma disciplined_calm win held p : held = true ∨ (∀ a, win a = false) → disciplined win held p.
Proof.
  revert held. induction p as [a|X m k IH]; intros held Hw.
  - intros Ha. destruct Hw as [|Hw]; [done|]. by rewrite Hw in Ha.
  - intros w x w' _ _. apply IH. destruct Hw as [->|Hw]; [by left|by right].
Qed.

(** A schedule moves the world along [R], and leaves handlers of such actions. *)
Lemma acts_one i (s : list (prog W A) * W) : Forall (acts R) s.1 → R s.2 (run_one i s).2 ∧ Forall (acts R) (run_one i s).1.
Proof.
  intros Hs. unfold run_one. destruct (s.1 !! i) as [[a|X m k]|] eqn:Ep; [by split|..|by split].
  pose proof (Forall_lookup_1 _ _ _ _ Hs Ep) as [Hm Hk]. specialize (Hm s.2). specialize (Hk s.2).
  destruct (m s.2) as [x w']. split; [done|]. by apply Forall_insert.
Qed.

Lemma acts_schedule sched (s : list (prog W A) * W) : Forall (acts R) s.1 → R s.2 (run_schedule sched s).2.
Proof.
  revert s. induction sched as [|i sched IH]; intros s Hs; [reflexivity|].
  destruct (acts_one i s Hs) as [H1 H2]. etrans; [exact H1|]. by apply (IH (run_one i s)).
Qed.

Definition holders (hs : list bool) : nat := length (filter (λ h : bool, h = true) hs).

Lemma holders_insert (hs : list bool) (i : nat) (h h' : bool) : hs !! i = Some h →
  (holders (<[i := h']> hs) + (if h then 1 else 0) = holders hs + (if h' then 1 else 0))%nat.
Proof.
  unfold holders. revert i. induction hs as [|a hs IH]; intros [|i]; try discriminate.
  - intros [= ->]. cbn [insert list_insert]. rewrite !filter_cons. destruct h, h'; simpl; lia.
  - intros Hi. change (<[S i := h']> (a :: hs)) with (a :: <[i := h']> hs). rewrite !filter_cons.
    specialize (IH i Hi). destruct (decide (a = true)); simpl; lia.
Qed.

Lemma holders_lookup (hs : list bool) (i : nat) : hs !! i = Some true → (1 ≤ holders hs)%nat.
Proof. intros Hi. pose proof (holders_insert hs i true false Hi) as Hc. simpl in Hc. lia. Qed.

Lemma holders_two (hs : list bool) (i j : nat) : hs !! i = Some true → hs !! j = Some true → i ≠ j → (2 ≤ holders hs)%nat.
Proof.
  intros Hi Hj Hne. pose proof (holders_insert hs i true false Hi) as Hc. simpl in Hc.
  assert (<[i := false]> hs !! j = Some true) as Hj' by (by rewrite list_lookup_insert_ne).
  apply holders_lookup in Hj'. lia.
Qed.

(** Who holds the resource: at most one handler, and none while it is free. *)
Definition owned (wins : nat → A → bool) (s : list (prog W A) * W) : Prop :=
  ∃ hs, length hs = length s.1 ∧ (holders hs ≤ 1)%nat ∧ (taken s.2 = false → holders hs = 0%nat) ∧
    ∀ i p h, s.1 !! i = Some p → hs !! i = Some h → disciplined (wins i) h p.

Lemma owned_step wins i s : Forall (acts R) s.1 → inv s.2 → owned wins s → owned wins (run_one i s).
Proof.
  intros Hs Hi (hs & Hl & H1 & H0 & Hd). pose proof (taken_stays _ _ (proj1 (acts_one i s Hs))) as Hm.
  destruct s as [ps w]. unfold run_one in *. cbn [fst snd] in *. clear Hs.
  destruct (ps !! i) as [[a|X m k]|] eqn:Ep; [by exists hs| |by exists hs].
  destruct (lookup_lt_is_Some_2 hs i) as [h Eh]; [rewrite Hl; by eapply lookup_lt_Some|].
  pose proof (Hd i _ h Ep Eh w) as Hk. destruct (m w) as [x w'] eqn:Em. specialize (Hk x w' Hi eq_refl). cbn [fst snd] in *.
  exists (<[i := h || (negb (taken w) && taken w')]> hs). cbn [fst snd].
  rewrite !length_insert. split_and!; [done| | |].
  - pose proof (holders_insert hs i h (h || (negb (taken w) && taken w')) Eh).
    destruct (taken w); cbn [negb andb] in *; [rewrite orb_false_r in *; destruct h; lia|].
    specialize (H0 eq_refl). destruct h, (taken w'); simpl in *; lia.
  - intros Hf. destruct (taken w) eqn:Et; [rewrite (Hm eq_refl) in Hf; discriminate|]. specialize (H0 eq_refl).
    pose proof (holders_insert hs i h (h || (negb false && taken w')) Eh) as Hc. rewrite Hf in *. cbn [negb andb] in *.
    rewrite orb_false_r in *. destruct h; lia.
  - intros j p h' Hp Hh. destruct (decide (i = j)) as [<-|Hne].
    + rewrite list_lookup_insert_eq in Hp by (by eapply lookup_lt_Some).
      rewrite list_lookup_insert_eq in Hh by (by eapply lookup_lt_Some). injection Hp as <-. injection Hh as <-. exact Hk.
    + rewrite list_lookup_insert_ne in Hp by done. rewrite list_lookup_insert_ne in Hh by done. by eapply Hd.
Qed.

Lemma owned_schedule wins sched s : Forall (acts R) s.1 →
  (∀ w, R s.2 w → R w (run_schedule sched s).2 → inv w) → owned wins s → owned wins (run_schedule sched s).
Proof.
  revert s. induction sched as [|i sched IH]; intros s Hs Hi Ho; [done|].
  destruct (acts_one i s Hs) as [H1 H2]. change (run_schedule (i :: sched) s) with (run_schedule sched (run_one i s)) in *.
  apply IH; [done| |].
  - intros w' Hw. apply Hi. by etrans.
  - apply owned_step; [done| |done]. apply Hi; [reflexivity|]. etrans; [exact H1|]. by apply acts_schedule.
Qed.

(** Every schedule of disciplined handlers lets at most one of them win, when [inv]
    holds in every world between the first and the last. *)
Lemma at_most_one wins ps w sched i j a b : Forall (acts R) ps →
  (∀ w', R w w' → R w' (run_schedule sched (ps, w)).2 → inv w') →
  (∀ i p, ps !! i = Some p → disciplined (wins i) false p) →
  (run_schedule sched (ps, w)).1 !! i = Some (Ret a) → wins i a = true →
  (run_schedule sched (ps, w)).1 !! j = Some (Ret b) → wins j b = true → i = j.
Proof.
  intros Hs Hi Hd. assert (owned wins (run_schedule sched (ps, w))) as (hs & Hl & H1 & _ & Hdis).
  { apply owned_schedule; [done|done|]. exists (replicate (length ps) false). cbn [fst snd]. rewrite length_replicate.
    assert (holders (replicate (length ps) false) = 0%nat) as ->.
    { unfold holders. induction (length ps) as [|n IH]; [done|]. cbn [replicate]. by rewrite filter_cons. }
    split_and!; [done|lia|done|]. intros n p h Hp Hh. apply lookup_replicate in Hh as [-> _]. by apply Hd. }
  intros Ha Wa Hb Wb. destruct (decide (i = j)) as [|Hne]; [done|].
  assert (∀ n c, (run_schedule sched (ps, w)).1 !! n = Some (Ret c) → wins n c = true → hs !! n = Some true) as Hheld.
  { intros n c Hn Wn. destruct (lookup_lt_is_Some_2 hs n) as [h Eh]; [rewrite Hl; by eapply lookup_lt_Some|].
    specialize (Hdis n _ h Hn Eh Wn). by rewrite <- Hdis. }
  pose proof (holders_two hs i j (Hheld i a Ha Wa) (Hheld j b Hb Wb) Hne). lia.
Qed.
End Exclusive.
