(* ===== verification/OAuth.v ===== *)
(** * The [auth] packages: tokens, passwords, PKCE and the grant flows

    A translation of src/auth/token, src/auth/password, src/auth/oauth (interfaces.go,
    pkce.go, oauth.go) and the claim record of src/auth/claims.  The two stores, the
    clock and the random source are the class [Env]; each of their calls is one atomic
    action of a handler (Resume.v), so that concurrent requests interleave between
    them.  bcrypt is third-party code and the class [Bcrypt]; the signing of an access
    token ([claims.Sign]) is the interface [ClaimSigner]. *)
From S2P Require Import Prelude Sha256 Canonical GoTime GoIO Signature Base64 Resume.
Import GoTime.
#[local] Open Scope Z_scope.

(** golang.org/x/crypto/bcrypt. *)
Class Bcrypt : Type := {
  bcrypt_generate : bytes → option bytes;
  bcrypt_matches : bytes → bytes → bool
}.

(** The claims of an access token (src/auth/claims/claims.go). *)
Record Claims : Type := MkClaims {
  Issuer : bytes;
  Subject : bytes;
  Audience : list bytes;
  ExpiresAt : Z;
  NotBefore : Z;
  IssuedAt : Z;
  ID : bytes;
  Extra : list (bytes * Canonical.json)
}.

(** [claims.Sign] with the algorithm pinned: the token, or nothing on an error. *)
Class ClaimSigner : Type := sign_claims : Claims → Signature.PrivateKey → string → option bytes.

Module OAuth.

(** ** token.go *)

Definition DefaultBytes : Z := 32.

Definition HashForStorage `{Hasher} (token : bytes) : bytes := hex_bytes (arr (Sum token)).

(** ** password.go *)

Section Passwords.
Context `{Bcrypt}.

Definition PasswordHash (password : bytes) : option bytes :=
  if zlen password =? 0 then None
  else if 72 <? zlen password then None
  else bcrypt_generate password.

Definition PasswordVerify (hashedPassword password : bytes) : bool :=
  if (zlen hashedPassword =? 0) || (zlen password =? 0) then false
  else bcrypt_matches hashedPassword password.
End Passwords.

(** ** interfaces.go *)

Inductive error : Type :=
| ErrInvalidGrant
| ErrInvalidCredentials
| ErrInvalidClient
| ErrInvalidPKCE
| ErrExpiredToken
| ErrTokenReuseDetected
| ErrCodeAlreadyConsumed
| ErrInvalidRedirectURI
| ErrStore
| ErrRandom
| ErrAlgorithm
| ErrSigning.

(** What a store method returns beside a value: the two sentinels of the contract, or
    another error. *)
Inductive store_error : Type := ErrCodeConsumed | ErrTokenRevoked | ErrOther.

Record RefreshToken : Type := MkRefresh {
  RID : bytes;
  RUserID : bytes;
  FamilyID : bytes;
  TokenHash : bytes;
  RExpiresAt : Time;
  RevokedAt : option Time
}.

Record AuthCode : Type := MkCode {
  CID : bytes;
  CUserID : bytes;
  ClientID : bytes;
  CodeHash : bytes;
  RedirectURI : bytes;
  CodeChallenge : bytes;
  CodeChallengeMethod : bytes;
  CExpiresAt : Time;
  ConsumedAt : option Time
}.

(** ** pkce.go *)

Definition MethodS256 : bytes := str_bytes "S256".
Definition MethodPlain : bytes := str_bytes "plain".
Definition pkceMinLen : Z := 43.
Definition pkceMaxLen : Z := 128.

Definition isUnreserved (c : byte) : bool :=
  let n := b2z c in
  (65 <=? n) && (n <=? 90) || (97 <=? n) && (n <=? 122) || (48 <=? n) && (n <=? 57) ||
  (n =? 45) || (n =? 46) || (n =? 95) || (n =? 126).

Definition validPKCEGrammar (s : bytes) : bool :=
  if (zlen s <? pkceMinLen) || (pkceMaxLen <? zlen s) then false
  else forallb isUnreserved s.

Definition VerifyPKCE `{Hasher} (verifier challenge method : bytes) : outcome error unit :=
  if bool_decide (method = MethodPlain) then Err ErrInvalidPKCE
  else if negb (bool_decide (method = MethodS256)) then Err ErrInvalidPKCE
  else if negb (validPKCEGrammar verifier) || negb (validPKCEGrammar challenge) then Err ErrInvalidPKCE
  else
    let computed := encode_rawurl (arr (Sum verifier)) in
    if negb (ct_equal computed challenge) then Err ErrInvalidPKCE else Ok tt.

(** ** oauth.go *)

Record GrantOptions : Type := MkOptions {
  OIssuer : bytes;
  OAudience : bytes;
  AccessTokenTTL : Z;
  RefreshTokenTTL : Z;
  OExtra : list (bytes * Canonical.json);
  SigningKey : Signature.PrivateKey
}.

(** [t.Add(d)] for a duration in nanoseconds. *)
Definition Add (t : Time) (d : Z) : Time :=
  MkTime ((instant t + d) `div` 10 ^ 9) ((instant t + d) `mod` 10 ^ 9) (off t).

(** [m[k] = v] on a copy of a map. *)
Definition map_set (k : bytes) (v : Canonical.json) (m : list (bytes * Canonical.json)) : list (bytes * Canonical.json) :=
  filter (λ kv, kv.1 ≠ k) m ++ [(k, v)].
End OAuth.

(** The environment of a request: the clock, the random source ([n] bytes or a failed
    read) and the methods of [AuthCodeStore] and [RefreshTokenStore] the flows call. *)
Class Env (W : Type) : Type := {
  now : W → Time * W;
  rand_read : nat → W → option bytes * W;
  code_GetByHash : bytes → W → (OAuth.store_error + option OAuth.AuthCode) * W;
  code_Consume : bytes → Time → W → (OAuth.store_error + unit) * W;
  refresh_Create : OAuth.RefreshToken → W → (OAuth.store_error + unit) * W;
  refresh_GetByHash : bytes → W → (OAuth.store_error + option OAuth.RefreshToken) * W;
  refresh_Revoke : bytes → Time → W → (OAuth.store_error + unit) * W;
  refresh_RevokeFamily : bytes → W → (OAuth.store_error + unit) * W
}.

Module Grants.
Import OAuth.

Section Flows.
Context `{E : Env W, H : Hasher, B : Bcrypt, S : ClaimSigner}.
#[local] Notation handler A := (handler W error A).

(** A call that may fail; [f] is the error the flow returns then. *)
Definition try {A} (f : store_error → error) (m : W → (store_error + A) * W) : handler A :=
  Act m (λ r, Ret (match r with inl e => Err (f e) | inr a => Ok a end)).

(** Dereferencing the pointer a store returned. *)
Definition found {A} (r : option A) : outcome error A :=
  match r with Some a => Ok a | None => Panic end.

Definition random (n : nat) : handler bytes :=
  Act (rand_read n) (λ r, Ret (match r with None => Err ErrRandom | Some b => Ok b end)).

Definition newID : handler bytes := b ← random 16; finish (Ok (hex_bytes b)).

(** [token.Generate]. *)
Definition Generate (nBytes : Z) : handler bytes :=
  if nBytes <? 0 then finish (Err ErrRandom)
  else b ← random (Z.to_nat nBytes); finish (Ok (hex_bytes b)).

Definition access_claims (opts : GrantOptions) (t : Time) (userID email tokenID : bytes) : Claims :=
  let extra := if bool_decide (email = []) then OExtra opts
               else map_set (str_bytes "email") (Canonical.JStr email) (OExtra opts) in
  MkClaims (OIssuer opts) userID [OAudience opts] (Unix (Add t (AccessTokenTTL opts))) 0 (Unix t) tokenID extra.

Definition issueTokensInFamily (userID familyID email : bytes) (opts : GrantOptions) : handler (bytes * bytes) :=
  t ← call now;
  tokenID ← newID;
  let accessClaims := access_claims opts t userID email tokenID in
  alg ← finish (wrap_err (λ _, ErrAlgorithm) (Signature.AlgorithmForPrivateKey (SigningKey opts)));
  accessToken ← finish match sign_claims accessClaims (SigningKey opts) (Signature.JOSE alg) with
                       | Some tok => Ok tok
                       | None => Err ErrSigning
                       end;
  rawRefresh ← Generate DefaultBytes;
  let refreshHash := HashForStorage rawRefresh in
  refreshID ← newID;
  let rt := MkRefresh refreshID userID familyID refreshHash (Add t (RefreshTokenTTL opts)) None in
  _ ← try (λ _, ErrStore) (refresh_Create rt);
  finish (Ok (accessToken, rawRefresh)).

Definition issueTokens (userID email : bytes) (opts : GrantOptions) : handler (bytes * bytes) :=
  familyID ← newID;
  issueTokensInFamily userID familyID email opts.

Definition PasswordGrant (userID email passwordHash pw : bytes) (opts : GrantOptions) : handler (bytes * bytes) :=
  if negb (PasswordVerify passwordHash pw) then finish (Err ErrInvalidCredentials)
  else issueTokens userID email opts.

(** The checks of [AuthCodeGrant] on the stored code, before it is consumed. *)
Definition code_checks (ac : AuthCode) (t : Time) (verifier redirectURI clientID : bytes) : outcome error unit :=
  if After t (CExpiresAt ac) then Err ErrExpiredToken
  else if negb (ct_equal (ClientID ac) clientID) then Err ErrInvalidClient
  else
    _ ← (if bool_decide (CodeChallenge ac = []) then Ok tt
         else VerifyPKCE verifier (CodeChallenge ac) (CodeChallengeMethod ac));
    if negb (bool_decide (RedirectURI ac = redirectURI)) then Err ErrInvalidRedirectURI else Ok tt.

Definition consume_error (e : store_error) : error :=
  match e with ErrCodeConsumed => ErrCodeAlreadyConsumed | _ => ErrStore end.

Definition AuthCodeGrant (code verifier redirectURI clientID : bytes) (opts : GrantOptions) : handler (bytes * bytes) :=
  let codeHash := HashForStorage code in
  r ← try (λ _, ErrInvalidGrant) (code_GetByHash codeHash);
  ac ← finish (found r);
  match ConsumedAt ac with
  | Some _ => finish (Err ErrInvalidGrant)
  | None =>
      t ← call now;
      _ ← finish (code_checks ac t verifier redirectURI clientID);
      t' ← call now;
      _ ← try consume_error (code_Consume (CID ac) t');
      issueTokens (CUserID ac) [] opts
  end.

(** Reuse of a refresh token: revoke its family and report it. *)
Definition reuse_detected {A} (family : bytes) : handler A :=
  _ ← try (λ _, ErrStore) (refresh_RevokeFamily family);
  finish (Err ErrTokenReuseDetected).

Definition RefreshTokenGrant (refreshToken : bytes) (opts : GrantOptions) : handler (bytes * bytes) :=
  let tokenHash := HashForStorage refreshToken in
  r ← try (λ _, ErrInvalidGrant) (refresh_GetByHash tokenHash);
  rt ← finish (found r);
  t ← call now;
  if After t (RExpiresAt rt) then finish (Err ErrExpiredToken)
  else
    match RevokedAt rt with
    | Some _ => reuse_detected (FamilyID rt)
    | None =>
        t' ← call now;
        res ← call (refresh_Revoke (RID rt) t');
        match res with
        | inl ErrTokenRevoked => reuse_detected (FamilyID rt)
        | inl _ => finish (Err ErrStore)
        | inr _ => issueTokensInFamily (RUserID rt) (FamilyID rt) [] opts
        end
    end.

End Flows.
End Grants.
