(* ===== verification/OAuthProofs.v ===== *)
(** * Properties of the grant flows

    Against the documented contract of the two stores ([StoreLaws]): however requests
    interleave, an authorization code is redeemed at most once and a refresh token is
    rotated at most once; a rotation revokes the old token and stores one active
    successor of the same family and user; a reused token has its family revoked when
    the request runs alone, but not when a rotation is in flight. *)
From S2P Require Import Prelude Sha256 GoTime GoIO Signature Base64 Resume OAuth.
Import GoTime OAuth Grants.
#[local] Open Scope Z_scope.

(** ** PKCE *)

Section Pkce.
Context `{H : Hasher}.

(** [VerifyPKCE] accepts exactly the S256 challenge of a verifier, both of 43 to 128
    unreserved characters. *)
Theorem VerifyPKCE_iff verifier challenge method : VerifyPKCE verifier challenge method = Ok tt ↔
  method = MethodS256 ∧ challenge = encode_rawurl (arr (Sum verifier)) ∧
  Forall (λ s, 43 ≤ zlen s ≤ 128 ∧ Forall (λ c, isUnreserved c = true) s) [verifier; challenge].
Proof.
  assert (∀ s, validPKCEGrammar s = true ↔ 43 ≤ zlen s ≤ 128 ∧ Forall (λ c, isUnreserved c = true) s) as Hg.
  { intros s. assert (forallb isUnreserved s = true ↔ Forall (λ c, isUnreserved c = true) s) as Hf.
    { rewrite forallb_forall, list.Forall_forall. by setoid_rewrite list_elem_of_In. }
    unfold validPKCEGrammar, pkceMinLen, pkceMaxLen. rewrite <- Hf.
    destruct (Z.ltb_spec (zlen s) 43), (Z.ltb_spec 128 (zlen s)); cbn [orb]; split; try done; try lia; intuition lia. }
  unfold VerifyPKCE. rewrite !Forall_cons, Forall_nil, <- !Hg. case_bool_decide as Hm; [split; [done|]|].
  { intros [-> _]. discriminate. }
  case_bool_decide as Hm'; cbn [negb]; [|split; [done|naive_solver]].
  destruct (validPKCEGrammar verifier), (validPKCEGrammar challenge); cbn [negb orb]; try (split; [done|naive_solver]).
  destruct (ct_equal _ challenge) eqn:Ec; cbn [negb]; [apply ct_equal_true in Ec; naive_solver|].
  split; [done|]. intros (_ & -> & _). by rewrite ct_equal_refl in Ec.
Qed.
End Pkce.

(** ** The contract of the stores *)

(** What is stored under an identifier. *)
Class Stored (W : Type) : Type := {
  code_at : W → bytes → option AuthCode;
  refresh_at : W → bytes → option RefreshToken
}.

Definition consume (t : Time) (ac : AuthCode) : AuthCode :=
  MkCode (CID ac) (CUserID ac) (ClientID ac) (CodeHash ac) (RedirectURI ac) (CodeChallenge ac)
    (CodeChallengeMethod ac) (CExpiresAt ac) (Some t).
Definition revoke (t : Time) (rt : RefreshToken) : RefreshToken :=
  MkRefresh (RID rt) (RUserID rt) (FamilyID rt) (TokenHash rt) (RExpiresAt rt) (Some t).

(** The world after a call has the records [f] changed and nothing else. *)
Definition updates {X} (at_ at' : bytes → option X) (f : bytes → X → X) : Prop :=
  ∀ id, at' id = f id <$> at_ id.

Definition only {X} (id : bytes) (f : X → X) : bytes → X → X := λ id' x, if bool_decide (id' = id) then f x else x.

(** The comments of interfaces.go: lookups return the record with the hash; [Consume]
    and [Revoke] are an atomic check-and-set; [RevokeFamily] revokes every token of a
    family; [Create] stores a new record; failed calls and calls on the other store
    change nothing. *)
Class StoreLaws (W : Type) `{E : Env W, S : Stored W} : Prop := {
  now_frame w : code_at (now w).2 = code_at w ∧ refresh_at (now w).2 = refresh_at w;
  rand_frame n w : code_at (rand_read n w).2 = code_at w ∧ refresh_at (rand_read n w).2 = refresh_at w;
  get_code_frame h w : code_at (code_GetByHash h w).2 = code_at w ∧ refresh_at (code_GetByHash h w).2 = refresh_at w;
  get_code h w ac : (code_GetByHash h w).1 = inr (Some ac) → code_at w (CID ac) = Some ac ∧ CodeHash ac = h;
  consume_frame id t w : refresh_at (code_Consume id t w).2 = refresh_at w;
  consume_err id t w e : (code_Consume id t w).1 = inl e → code_at (code_Consume id t w).2 = code_at w;
  consume_ok id t w : (code_Consume id t w).1 = inr tt →
    (∃ ac, code_at w id = Some ac ∧ ConsumedAt ac = None) ∧
    updates (code_at w) (code_at (code_Consume id t w).2) (only id (consume t));
  get_refresh_frame h w : code_at (refresh_GetByHash h w).2 = code_at w ∧ refresh_at (refresh_GetByHash h w).2 = refresh_at w;
  get_refresh h w rt : (refresh_GetByHash h w).1 = inr (Some rt) → refresh_at w (RID rt) = Some rt ∧ TokenHash rt = h;
  create_frame rt w : code_at (refresh_Create rt w).2 = code_at w;
  create_err rt w e : (refresh_Create rt w).1 = inl e → refresh_at (refresh_Create rt w).2 = refresh_at w;
  create_ok rt w : (refresh_Create rt w).1 = inr tt → refresh_at w (RID rt) = None ∧
    ∀ id, refresh_at (refresh_Create rt w).2 id = if bool_decide (id = RID rt) then Some rt else refresh_at w id;
  revoke_frame id t w : code_at (refresh_Revoke id t w).2 = code_at w;
  revoke_err id t w e : (refresh_Revoke id t w).1 = inl e → refresh_at (refresh_Revoke id t w).2 = refresh_at w;
  revoke_ok id t w : (refresh_Revoke id t w).1 = inr tt →
    (∃ rt, refresh_at w id = Some rt ∧ RevokedAt rt = None) ∧
    updates (refresh_at w) (refresh_at (refresh_Revoke id t w).2) (only id (revoke t));
  family_frame f w : code_at (refresh_RevokeFamily f w).2 = code_at w;
  family_err f w e : (refresh_RevokeFamily f w).1 = inl e → refresh_at (refresh_RevokeFamily f w).2 = refresh_at w;
  family_ok f w : (refresh_RevokeFamily f w).1 = inr tt → ∃ t,
    updates (refresh_at w) (refresh_at (refresh_RevokeFamily f w).2)
      (λ _ rt, if bool_decide (FamilyID rt = f) then revoke t rt else rt)
}.

(** ** The actions of the flows *)

Lemma acts_bind {W A B} (R : W → W → Prop) (f : A → prog W B) (p : prog W A) :
  acts R p → (∀ a, acts R (f a)) → acts R (prog_bind f p).
Proof.
  induction p as [a|X m k IH]; cbn; [auto|]. intros [Hm Hk] Hf. split; [done|]. intros w. by apply IH.
Qed.

Lemma acts_handler {W E A B} (R : W → W → Prop) (p : handler W E A) (f : A → handler W E B) :
  acts R p → (∀ a, acts R (f a)) → acts R (p ≫= f).
Proof. intros Hp Hf. apply acts_bind; [done|]. by intros [a|e| |]; [apply Hf|..]. Qed.

(** A request to the package. *)
Inductive request : Type :=
| PasswordRequest (userID email passwordHash pw : bytes) (opts : GrantOptions)
| CodeRequest (code verifier redirectURI clientID : bytes) (opts : GrantOptions)
| RefreshRequest (refreshToken : bytes) (opts : GrantOptions).

(** A handler that ended in an error did not win. *)
Ltac lost := let Hw := fresh in
  intros Hw; exfalso; apply andb_true_iff in Hw as [_ Hw]; discriminate Hw.

Section Requests.
Context `{E : Env W, H : Hasher, B : Bcrypt, Sg : ClaimSigner}.

Definition serve (r : request) : handler W error (bytes * bytes) :=
  match r with
  | PasswordRequest u e ph pw o => PasswordGrant u e ph pw o
  | CodeRequest c v ru ci o => AuthCodeGrant c v ru ci o
  | RefreshRequest t o => RefreshTokenGrant t o
  end.

(** The actions of every flow are the calls of [Env]. *)
Section Actions.
Variable R : W → W → Prop.
Hypothesis Hnow : moves R now.
Hypothesis Hrand : ∀ n, moves R (rand_read n).
Hypothesis Hget : ∀ h, moves R (code_GetByHash h).
Hypothesis Hcons : ∀ id t, moves R (code_Consume id t).
Hypothesis Hcreate : ∀ rt, moves R (refresh_Create rt).
Hypothesis Hrget : ∀ h, moves R (refresh_GetByHash h).
Hypothesis Hrev : ∀ id t, moves R (refresh_Revoke id t).
Hypothesis Hfam : ∀ f, moves R (refresh_RevokeFamily f).

Lemma acts_serve r : acts R (serve r).
Proof.
  destruct r; cbn [serve]; unfold PasswordGrant, AuthCodeGrant, RefreshTokenGrant;
    repeat first
      [ apply acts_handler; [|intros ?]
      | progress unfold issueTokens, issueTokensInFamily, reuse_detected, call, try, finish, newID, random, Generate
      | match goal with |- acts _ (Act _ _) => split; [eauto|intros ?] end
      | exact I
      | match goal with |- acts _ (if ?b then _ else _) => destruct b end
      | match goal with |- acts _ (match ?b with _ => _ end) => destruct b end ].
Qed.
End Actions.
End Requests.

(** ** Codes are single-use *)

Section Codes.
Context `{L : StoreLaws W, H : Hasher, B : Bcrypt, Sg : ClaimSigner}.
Variables hash id : bytes.

(** The record with the hash is the one stored under [id]. *)
Definition code_unique (w : W) : Prop := ∀ i ac, code_at w i = Some ac → CodeHash ac = hash → i = id.

Definition redeemed (w : W) : bool :=
  match code_at w id with Some ac => bool_decide (is_Some (ConsumedAt ac)) | None => false end.

(** No action adds a code or changes its hash, and a redeemed one stays redeemed. *)
Definition codes_kept (w w' : W) : Prop := (code_unique w → code_unique w') ∧ (redeemed w = true → redeemed w' = true).
#[local] Instance codes_kept_preorder : PreOrder codes_kept.
Proof. split; [by split|]. intros w w1 w2 [? ?] [? ?]. split; auto. Qed.

Lemma codes_frame w w' : code_at w' = code_at w → codes_kept w w'.
Proof. intros Hf. unfold codes_kept, code_unique, redeemed. by rewrite Hf. Qed.

Lemma moves_consume i t : moves codes_kept (code_Consume i t).
Proof.
  intros w. destruct (code_Consume i t w).1 as [e|[]] eqn:Ec; [by eapply codes_frame, consume_err|].
  destruct (consume_ok i t w Ec) as [_ Hu]. unfold only in Hu. split.
  - intros Hi j ac. rewrite Hu. intros (ac0 & Hac & ->)%fmap_Some Hh. apply (Hi j ac0 Hac). by case_bool_decide.
  - unfold redeemed. rewrite Hu. destruct (code_at w id); cbn; [|done]. rewrite !bool_decide_eq_true. intros. by case_bool_decide.
Qed.

Lemma acts_code r : acts codes_kept (serve r).
Proof.
  apply acts_serve; intros; try apply moves_consume; intros w; apply codes_frame.
  - apply now_frame.
  - apply rand_frame.
  - apply get_code_frame.
  - apply create_frame.
  - apply get_refresh_frame.
  - apply revoke_frame.
  - apply family_frame.
Qed.

(** Presenting this code, and getting tokens for it. *)
Definition presents (r : request) : bool :=
  match r with CodeRequest c _ _ _ _ => bool_decide (HashForStorage c = hash) | _ => false end.
Definition redeems (r : request) (res : outcome error (bytes * bytes)) : bool := presents r && is_ok res.

Lemma disciplined_other r : presents r = false → disciplined redeemed code_unique (redeems r) false (serve r).
Proof. intros Hr. apply disciplined_calm. right. intros a. unfold redeems. by rewrite Hr. Qed.

(** The redeeming request takes the code with its own [Consume]. *)
Lemma disciplined_redeem c v ru ci o :
  disciplined redeemed code_unique (redeems (CodeRequest c v ru ci o)) false (serve (CodeRequest c v ru ci o)).
Proof.
  destruct (presents (CodeRequest c v ru ci o)) eqn:Hp; [|by apply disciplined_other].
  assert (HashForStorage c = hash) as Hh by (cbn in Hp; by apply bool_decide_eq_true in Hp). clear Hp.
  cbn [serve]. unfold AuthCodeGrant. rewrite Hh.
  assert (∀ X (m : W → X * W) w x w', code_at (m w).2 = code_at w → m w = (x, w') →
    negb (redeemed w) && redeemed w' = false) as Hflip.
  { intros X m w x w' Hf Em. rewrite Em in Hf. unfold redeemed. cbn in Hf. rewrite Hf.
    by destruct (match code_at w id with Some _ => _ | None => _ end). }
  intros w x w' Hi Em. rewrite (Hflip _ _ _ _ _ (proj1 (get_code_frame hash w)) Em). cbn [orb].
  destruct x as [e|[ac|]]; [lost| |lost].
  pose proof (get_code hash w ac) as Hac. rewrite Em in Hac. destruct (Hac eq_refl) as [Hat Hch].
  assert (CID ac = id) as Hid by (by eapply Hi). cbn [mbind handler_bind prog_bind found finish].
  destruct (ConsumedAt ac) eqn:Hcons; [lost|].
  intros w1 t w1' Hi1 Em1. rewrite (Hflip _ _ _ _ _ (proj1 (now_frame w1)) Em1). cbn [orb prog_bind mbind handler_bind finish].
  destruct (code_checks ac t v ru ci) as [[]|e| |]; [|lost..]. cbn [prog_bind].
  intros w2 t' w2' Hi2 Em2. rewrite (Hflip _ _ _ _ _ (proj1 (now_frame w2)) Em2). cbn [orb prog_bind mbind handler_bind].
  intros w3 y w3' Hi3 Em3. destruct y as [e|[]]; [lost|]. rewrite Hid in Em3.
  pose proof (consume_ok id t' w3) as Hok. rewrite Em3 in Hok. destruct (Hok eq_refl) as [(ac' & Hat' & Hn) Hu]. cbn [snd] in Hu.
  assert (negb (redeemed w3) && redeemed w3' = true) as ->.
  { unfold redeemed. rewrite Hu, Hat'. cbn. unfold only. rewrite Hn, (bool_decide_true (id = id)) by done. done. }
  apply disciplined_calm. by left.
Qed.

Lemma serve_disciplined r : disciplined redeemed code_unique (redeems r) false (serve r).
Proof. destruct r; [by apply disciplined_other|apply disciplined_redeem|by apply disciplined_other]. Qed.

(** C12.  A code is redeemed at most once.  Any number of requests of the three kinds run
    concurrently, their store calls, clock reads and random draws interleaved by any
    schedule; of the requests that present a given code, at most one returns tokens. *)
Theorem AuthCodeGrant_once (reqs : list request) (w : W) sched i j ri rj a b :
  code_unique w → reqs !! i = Some ri → reqs !! j = Some rj → presents ri = true → presents rj = true →
  (run_schedule sched (serve <$> reqs, w)).1 !! i = Some (Ret (Ok a)) →
  (run_schedule sched (serve <$> reqs, w)).1 !! j = Some (Ret (Ok b)) → i = j.
Proof.
  intros Hu Hi Hj Pi Pj Ra Rb.
  eapply (at_most_one codes_kept redeemed code_unique (λ w w' Hw, proj2 Hw)
    (λ n, match reqs !! n with Some r => redeems r | None => λ _, false end)); [| | |exact Ra| |exact Rb|].
  - apply Forall_fmap, Forall_true. intros r. apply acts_code.
  - intros w' [Hw _] _. by apply Hw.
  - intros n p (r & -> & Hr)%list_lookup_fmap_Some. rewrite Hr. apply serve_disciplined.
  - rewrite Hi. unfold redeems. by rewrite Pi.
  - rewrite Hj. unfold redeems. by rewrite Pj.
Qed.
End Codes.

(** ** Refresh tokens rotate at most once *)

Section Refresh.
Context `{L : StoreLaws W, H : Hasher, B : Bcrypt, Sg : ClaimSigner}.
Variables hash id : bytes.

(** The record with the hash is the one stored under [id]. *)
Definition token_unique (w : W) : Prop := ∀ i rt, refresh_at w i = Some rt → TokenHash rt = hash → i = id.

Definition revoked (w : W) : bool :=
  match refresh_at w id with Some rt => bool_decide (is_Some (RevokedAt rt)) | None => false end.

(** Records are never removed and keep their hashes, and a revoked one stays revoked. *)
Definition tokens_kept (w w' : W) : Prop :=
  (∀ i rt, refresh_at w i = Some rt → ∃ rt', refresh_at w' i = Some rt' ∧ TokenHash rt' = TokenHash rt) ∧
  (revoked w = true → revoked w' = true).
#[local] Instance tokens_kept_preorder : PreOrder tokens_kept.
Proof.
  split; [split; [by eauto|done]|]. intros w w1 w2 [H1 R1] [H2 R2]. split; [|auto].
  intros i rt (rt1 & Hi1 & T1)%H1. apply H2 in Hi1 as (rt2 & Hi2 & T2). exists rt2. split; [done|]. by rewrite T2.
Qed.

(** So what is unique in the end was unique all along. *)
Lemma token_unique_before w w' : tokens_kept w w' → token_unique w' → token_unique w.
Proof. intros [Hk _] Hu i rt (rt1 & Hi & T)%Hk Hh. apply (Hu i rt1 Hi). by rewrite T. Qed.

Lemma tokens_frame w w' : refresh_at w' = refresh_at w → tokens_kept w w'.
Proof. intros Hf. unfold tokens_kept, revoked. rewrite Hf. split; [by eauto|done]. Qed.

Lemma tokens_updated w w' f : (∀ i rt, TokenHash (f i rt) = TokenHash rt) →
  (∀ i rt, is_Some (RevokedAt rt) → is_Some (RevokedAt (f i rt))) → updates (refresh_at w) (refresh_at w') f → tokens_kept w w'.
Proof.
  intros Hh Hc Hu. split.
  - intros i rt Hi. exists (f i rt). rewrite Hu, Hi. by split.
  - unfold revoked. rewrite Hu. destruct (refresh_at w id); cbn; [|done]. rewrite !bool_decide_eq_true. apply Hc.
Qed.

Lemma moves_revoke i t : moves tokens_kept (refresh_Revoke i t).
Proof.
  intros w. destruct (refresh_Revoke i t w).1 as [e|[]] eqn:Er; [by eapply tokens_frame, revoke_err|].
  eapply tokens_updated, revoke_ok, Er; intros j rt; unfold only; by case_bool_decide.
Qed.

Lemma moves_family f : moves tokens_kept (refresh_RevokeFamily f).
Proof.
  intros w. destruct (refresh_RevokeFamily f w).1 as [e|[]] eqn:Er; [by eapply tokens_frame, family_err|].
  destruct (family_ok f w Er) as [t Hu]. eapply tokens_updated, Hu; intros j rt; cbv beta; by case_bool_decide.
Qed.

Lemma moves_create rt : moves tokens_kept (refresh_Create rt).
Proof.
  intros w. destruct (refresh_Create rt w).1 as [e|[]] eqn:Er; [by eapply tokens_frame, create_err|].
  destruct (create_ok rt w Er) as [Hn Hc]. split.
  - intros i rt' Hi. rewrite Hc, bool_decide_false by congruence. by exists rt'.
  - unfold revoked. rewrite Hc. case_bool_decide as Ei; [|done]. by rewrite Ei, Hn.
Qed.

Lemma acts_refresh r : acts tokens_kept (serve r).
Proof.
  apply acts_serve; intros; try apply moves_revoke; try apply moves_family; try apply moves_create; intros w; apply tokens_frame.
  - apply now_frame.
  - apply rand_frame.
  - apply get_code_frame.
  - apply consume_frame.
  - apply get_refresh_frame.
Qed.

(** Presenting this token, and getting a successor for it. *)
Definition offers (r : request) : bool :=
  match r with RefreshRequest t _ => bool_decide (HashForStorage t = hash) | _ => false end.
Definition rotates (r : request) (res : outcome error (bytes * bytes)) : bool := offers r && is_ok res.

Lemma disciplined_idle r : offers r = false → disciplined revoked token_unique (rotates r) false (serve r).
Proof. intros Hr. apply disciplined_calm. right. intros a. unfold rotates. by rewrite Hr. Qed.

(** Reporting reuse wins nothing. *)
Lemma disciplined_reuse tok o fam held :
  disciplined revoked token_unique (rotates (RefreshRequest tok o)) held (reuse_detected fam).
Proof. intros w x w' Hi Em. destruct x; lost. Qed.

(** The rotating request revokes the token with its own [Revoke]. *)
Lemma disciplined_rotate tok o :
  disciplined revoked token_unique (rotates (RefreshRequest tok o)) false (serve (RefreshRequest tok o)).
Proof.
  destruct (offers (RefreshRequest tok o)) eqn:Hp; [|by apply disciplined_idle].
  assert (HashForStorage tok = hash) as Hh by (cbn in Hp; by apply bool_decide_eq_true in Hp). clear Hp.
  cbn [serve]. unfold RefreshTokenGrant. rewrite Hh.
  assert (∀ X (m : W → X * W) w x w', refresh_at (m w).2 = refresh_at w → m w = (x, w') →
    negb (revoked w) && revoked w' = false) as Hflip.
  { intros X m w x w' Hf Em. rewrite Em in Hf. unfold revoked. cbn in Hf. rewrite Hf.
    by destruct (match refresh_at w id with Some _ => _ | None => _ end). }
  intros w x w' Hi Em. rewrite (Hflip _ _ _ _ _ (proj2 (get_refresh_frame hash w)) Em). cbn [orb].
  destruct x as [e|[rt|]]; [lost| |lost].
  pose proof (get_refresh hash w rt) as Hrt. rewrite Em in Hrt. destruct (Hrt eq_refl) as [Hat Hth].
  assert (RID rt = id) as Hid by (by eapply Hi). cbn [mbind handler_bind prog_bind found finish].
  intros w1 t w1' Hi1 Em1. rewrite (Hflip _ _ _ _ _ (proj2 (now_frame w1)) Em1). cbn [orb prog_bind mbind handler_bind].
  destruct (After t (RExpiresAt rt)); [lost|]. destruct (RevokedAt rt) eqn:Hrev; [apply disciplined_reuse|].
  intros w2 t' w2' Hi2 Em2. rewrite (Hflip _ _ _ _ _ (proj2 (now_frame w2)) Em2). cbn [orb prog_bind mbind handler_bind].
  intros w3 y w3' Hi3 Em3.
  destruct y as [[| |]|[]]; cbn [prog_bind]; [lost|apply disciplined_reuse|lost|]. rewrite Hid in Em3.
  pose proof (revoke_ok id t' w3) as Hok. rewrite Em3 in Hok. destruct (Hok eq_refl) as [(rt' & Hat' & Hn) Hu]. cbn [snd] in Hu.
  assert (negb (revoked w3) && revoked w3' = true) as ->.
  { unfold revoked. rewrite Hu, Hat'. cbn. unfold only. rewrite Hn, (bool_decide_true (id = id)) by done. done. }
  apply disciplined_calm. by left.
Qed.

Lemma serve_rotation r : disciplined revoked token_unique (rotates r) false (serve r).
Proof. destruct r; [by apply disciplined_idle|by apply disciplined_idle|apply disciplined_rotate]. Qed.

(** C13.  A refresh token is rotated at most once.  Any number of requests of the three
    kinds run concurrently, interleaved by any schedule; of those that present a given
    token, at most one returns tokens, provided that after the run only one record of
    the store has the token's hash: that none of the tokens issued hashes to it too. *)
Theorem RefreshTokenGrant_once (reqs : list request) (w : W) sched i j ri rj a b :
  token_unique (run_schedule sched (serve <$> reqs, w)).2 →
  reqs !! i = Some ri → reqs !! j = Some rj → offers ri = true → offers rj = true →
  (run_schedule sched (serve <$> reqs, w)).1 !! i = Some (Ret (Ok a)) →
  (run_schedule sched (serve <$> reqs, w)).1 !! j = Some (Ret (Ok b)) → i = j.
Proof.
  intros Hu Hi Hj Pi Pj Ra Rb.
  eapply (at_most_one tokens_kept revoked token_unique (λ w w' Hw, proj2 Hw)
    (λ n, match reqs !! n with Some r => rotates r | None => λ _, false end)); [| | |exact Ra| |exact Rb|].
  - apply Forall_fmap, Forall_true. intros r. apply acts_refresh.
  - intros w' _ Hw. by eapply token_unique_before.
  - intros n p (r & -> & Hr)%list_lookup_fmap_Some. rewrite Hr. apply serve_rotation.
  - rewrite Hi. unfold rotates. by rewrite Pi.
  - rewrite Hj. unfold rotates. by rewrite Pj.
Qed.
End Refresh.

(** ** A request running alone *)

Lemma run_alone_bind {W A B} (f : A → prog W B) (p : prog W A) w :
  run_alone (prog_bind f p) w = let '(a, w1) := run_alone p w in run_alone (f a) w1.
Proof. revert w. induction p as [a|X m k IH]; intros w; cbn; [done|]. by destruct (m w). Qed.

Lemma alone_Ok {W E A B} (p : handler W E A) (f : A → handler W E B) w b w' :
  run_alone (p ≫= f) w = (Ok b, w') ↔ ∃ a w1, run_alone p w = (Ok a, w1) ∧ run_alone (f a) w1 = (Ok b, w').
Proof.
  unfold mbind, handler_bind. rewrite run_alone_bind. destruct (run_alone p w) as [[a|e| |] w1]; [|naive_solver..].
  split; [eauto|]. by intros (? & ? & [= <- <-] & ?).
Qed.

Section Alone.
Context `{L : StoreLaws W, H : Hasher, B : Bcrypt, Sg : ClaimSigner}.

Lemma finish_Ok {A} (r : outcome error A) (w w' : W) a : run_alone (finish r) w = (Ok a, w') ↔ r = Ok a ∧ w' = w.
Proof. cbn. naive_solver. Qed.

Lemma call_Ok {A} (m : W → A * W) w w' a : run_alone (call (E := error) m) w = (Ok a, w') → m w = (a, w').
Proof. cbn. destruct (m w). naive_solver. Qed.

Lemma try_Ok {A} f (m : W → (store_error + A) * W) w w' a : run_alone (try f m) w = (Ok a, w') ↔ m w = (inr a, w').
Proof. cbn. destruct (m w) as [[e|x] w1]; naive_solver. Qed.

Lemma random_Ok n w w' b : run_alone (random n) w = (Ok b, w') ↔ rand_read n w = (Some b, w').
Proof. cbn. destruct (rand_read n w) as [[x|] w1]; naive_solver. Qed.

(** A helper that draws random bytes does not touch the stores. *)
Lemma newID_frame w w' b : run_alone newID w = (Ok b, w') → refresh_at w' = refresh_at w.
Proof.
  intros (x & w1 & Hx%random_Ok & [_ ->]%finish_Ok)%alone_Ok. pose proof (proj2 (rand_frame 16 w)) as Hf. by rewrite Hx in Hf.
Qed.

Lemma Generate_frame n w w' b : run_alone (Generate n) w = (Ok b, w') → refresh_at w' = refresh_at w.
Proof.
  unfold Generate. destruct (n <? 0); [by intros [? _]%finish_Ok|].
  intros (x & w1 & Hx%random_Ok & [_ ->]%finish_Ok)%alone_Ok. pose proof (proj2 (rand_frame (Z.to_nat n) w)) as Hf. by rewrite Hx in Hf.
Qed.

(** Issuing tokens stores exactly one new, active refresh token: of the given user and
    family, under the hash of the raw token returned. *)
Lemma issue_alone u f e o w w' access raw : run_alone (issueTokensInFamily u f e o) w = (Ok (access, raw), w') →
  ∃ rt, refresh_at w (RID rt) = None ∧ RUserID rt = u ∧ FamilyID rt = f ∧ TokenHash rt = HashForStorage raw ∧
    RevokedAt rt = None ∧ ∀ id, refresh_at w' id = if bool_decide (id = RID rt) then Some rt else refresh_at w id.
Proof.
  intros (t & w1 & H1%call_Ok & E1)%alone_Ok. apply alone_Ok in E1 as (tid & w2 & H2 & E1).
  apply alone_Ok in E1 as (alg & w3 & [_ ->]%finish_Ok & E1). apply alone_Ok in E1 as (tok & w4 & [_ ->]%finish_Ok & E1).
  apply alone_Ok in E1 as (raw' & w5 & H5 & E1). apply alone_Ok in E1 as (rid & w6 & H6 & E1).
  apply alone_Ok in E1 as ([] & w7 & H7%try_Ok & [[= <- <-] ->]%finish_Ok).
  pose proof (proj2 (now_frame w)) as F1. rewrite H1 in F1. cbn [snd] in F1.
  apply newID_frame in H2, H6. apply Generate_frame in H5.
  assert (refresh_at w6 = refresh_at w) as F by congruence.
  match type of H7 with refresh_Create ?rt _ = _ => exists rt; pose proof (create_ok rt w6) as Hc end.
  rewrite H7 in Hc. destruct (Hc eq_refl) as [Hn Hall]. rewrite F in Hn. cbn [snd] in Hall. rewrite F in Hall. by split_and!.
Qed.

(** Rotation.  A successful [RefreshTokenGrant] running alone found the presented token
    active, revoked it, and stored one active successor of the same user and family
    under the hash of the token it returns; every other record is as before. *)
Theorem RefreshTokenGrant_rotates tok o w w' access raw : run_alone (RefreshTokenGrant tok o) w = (Ok (access, raw), w') →
  ∃ old t new, refresh_at w (RID old) = Some old ∧ TokenHash old = HashForStorage tok ∧ RevokedAt old = None ∧
    refresh_at w (RID new) = None ∧ RUserID new = RUserID old ∧ FamilyID new = FamilyID old ∧
    TokenHash new = HashForStorage raw ∧ RevokedAt new = None ∧
    ∀ id, refresh_at w' id = if bool_decide (id = RID new) then Some new
                             else if bool_decide (id = RID old) then Some (revoke t old) else refresh_at w id.
Proof.
  intros (r & w1 & H1%try_Ok & E1)%alone_Ok. apply alone_Ok in E1 as (old & w2 & [Hr ->]%finish_Ok & E1).
  destruct r as [rt|]; [injection Hr as ->|discriminate Hr].
  pose proof (get_refresh (HashForStorage tok) w old) as Hg. pose proof (proj2 (get_refresh_frame (HashForStorage tok) w)) as F1.
  rewrite H1 in Hg, F1. destruct (Hg eq_refl) as [Hat Hth]. cbn [snd] in F1.
  apply alone_Ok in E1 as (t0 & w3 & H3%call_Ok & E1). pose proof (proj2 (now_frame w1)) as F3. rewrite H3 in F3. cbn [snd] in F3.
  destruct (After t0 (RExpiresAt old)); [by apply finish_Ok in E1 as [? _]|].
  destruct (RevokedAt old) eqn:Hrev; [by apply alone_Ok in E1 as (? & ? & _ & [? _]%finish_Ok)|].
  apply alone_Ok in E1 as (t & w4 & H4%call_Ok & E1). pose proof (proj2 (now_frame w3)) as F4. rewrite H4 in F4. cbn [snd] in F4.
  apply alone_Ok in E1 as (res & w5 & H5%call_Ok & E1).
  destruct res as [[| |]|[]]; [by apply finish_Ok in E1 as [? _]| |by apply finish_Ok in E1 as [? _]|].
  { by apply alone_Ok in E1 as (? & ? & _ & [? _]%finish_Ok). }
  pose proof (revoke_ok (RID old) t w4) as Hrv. rewrite H5 in Hrv. destruct (Hrv eq_refl) as [_ Hu]. cbn [snd] in Hu.
  apply issue_alone in E1 as (new & Hn & Huser & Hfam & Hhash & Hact & Hall).
  assert (refresh_at w4 = refresh_at w) as F by congruence. exists old, t, new.
  assert (refresh_at w (RID new) = None) as Hn0.
  { rewrite Hu, F in Hn. by apply fmap_None in Hn. }
  split_and!; try done. intros id. rewrite Hall. case_bool_decide; [done|]. rewrite Hu, F. unfold only.
  case_bool_decide as Ei; [|by destruct (refresh_at w id)]. by rewrite Ei, Hat.
Qed.

(** Reuse.  Presenting a revoked token that has not expired, alone, is reported and
    leaves no active token in its family. *)
Theorem RefreshTokenGrant_reuse tok o w w1 rt t t0 w2 w3 :
  refresh_GetByHash (HashForStorage tok) w = (inr (Some rt), w1) → RevokedAt rt = Some t →
  now w1 = (t0, w2) → After t0 (RExpiresAt rt) = false → refresh_RevokeFamily (FamilyID rt) w2 = (inr tt, w3) →
  run_alone (RefreshTokenGrant tok o) w = (Err ErrTokenReuseDetected, w3) ∧
  ∀ id rt', refresh_at w3 id = Some rt' → FamilyID rt' = FamilyID rt → RevokedAt rt' ≠ None.
Proof.
  intros Hg Hr Hn Ha Hf. split.
  - unfold RefreshTokenGrant. cbn. rewrite Hg. cbn. rewrite Hn. cbn. rewrite Ha, Hr. cbn. by rewrite Hf.
  - intros id rt' Hid Hfam. pose proof (family_ok (FamilyID rt) w2) as Hok. rewrite Hf in Hok. destruct (Hok eq_refl) as (t' & Hu).
    cbn [snd] in Hu. rewrite Hu in Hid. apply fmap_Some in Hid as (r0 & _ & ->). case_bool_decide; [done|].
    by contradict Hfam.
Qed.

(** An expired token is refused before its revocation is looked at: presenting a
    revoked token after its expiry is not treated as reuse. *)
Theorem RefreshTokenGrant_expired_first tok o w w1 rt t0 w2 :
  refresh_GetByHash (HashForStorage tok) w = (inr (Some rt), w1) → now w1 = (t0, w2) →
  After t0 (RExpiresAt rt) = true → run_alone (RefreshTokenGrant tok o) w = (Err ErrExpiredToken, w2).
Proof. intros Hg Hn Ha. unfold RefreshTokenGrant. cbn. rewrite Hg. cbn. rewrite Hn. cbn. by rewrite Ha. Qed.
End Alone.

(** ** An in-memory store

    Records by identifier, an index from hashes to identifiers, a clock that ticks and
    draws that count; it satisfies the contract. *)
Module Memory.

Record mem : Type := Mem {
  m_code : bytes → option AuthCode;
  m_refresh : bytes → option RefreshToken;
  m_index : bytes → option bytes;
  m_clock : Z;
  m_seed : Z
}.

Definition lookup_by {X} (at_ : bytes → option X) (index : bytes → option bytes) (key hash : X → bytes) (h : bytes) :
    store_error + option X :=
  match index h with
  | None => inl ErrOther
  | Some id =>
      match at_ id with
      | None => inl ErrOther
      | Some x => if bool_decide (key x = id) && bool_decide (hash x = h) then inr (Some x) else inl ErrOther
      end
  end.

#[local] Instance env : Env mem := {|
  now w := (of_unix (m_clock w), Mem (m_code w) (m_refresh w) (m_index w) (m_clock w + 1) (m_seed w));
  rand_read n w := (Some (x01 :: be_bytes (n - 1) (m_seed w)),
                    Mem (m_code w) (m_refresh w) (m_index w) (m_clock w) (m_seed w + 1));
  code_GetByHash h w := (lookup_by (m_code w) (m_index w) CID CodeHash h, w);
  code_Consume id t w :=
    match m_code w id with
    | None => (inl ErrOther, w)
    | Some ac =>
        match ConsumedAt ac with
        | Some _ => (inl ErrCodeConsumed, w)
        | None => (inr tt, Mem (λ i, only id (consume t) i <$> m_code w i) (m_refresh w) (m_index w) (m_clock w) (m_seed w))
        end
    end;
  refresh_Create rt w :=
    match m_refresh w (RID rt) with
    | Some _ => (inl ErrOther, w)
    | None => (inr tt, Mem (m_code w) (λ i, if bool_decide (i = RID rt) then Some rt else m_refresh w i)
        (λ h, if bool_decide (h = TokenHash rt) then Some (RID rt) else m_index w h) (m_clock w) (m_seed w))
    end;
  refresh_GetByHash h w := (lookup_by (m_refresh w) (m_index w) RID TokenHash h, w);
  refresh_Revoke id t w :=
    match m_refresh w id with
    | None => (inl ErrOther, w)
    | Some rt =>
        match RevokedAt rt with
        | Some _ => (inl ErrTokenRevoked, w)
        | None => (inr tt, Mem (m_code w) (λ i, only id (revoke t) i <$> m_refresh w i) (m_index w) (m_clock w) (m_seed w))
        end
    end;
  refresh_RevokeFamily f w :=
    (inr tt, Mem (m_code w)
      (λ i, (λ rt, if bool_decide (FamilyID rt = f) then revoke (of_unix (m_clock w)) rt else rt) <$> m_refresh w i)
      (m_index w) (m_clock w) (m_seed w))
|}.

#[local] Instance stored : Stored mem := {| code_at := m_code; refresh_at := m_refresh |}.

Lemma lookup_by_ok {X} at_ index (key hash : X → bytes) h x : lookup_by at_ index key hash h = inr (Some x) →
  at_ (key x) = Some x ∧ hash x = h.
Proof.
  unfold lookup_by. destruct (index h) as [id|]; [|done]. destruct (at_ id) as [y|] eqn:E; [|done].
  case_bool_decide as Hk; [|done]. case_bool_decide as Hh; [|done]. intros [= <-]. by rewrite Hk.
Qed.

#[local] Instance laws : StoreLaws mem.
Proof.
  split; try done.
  - intros h w ac. apply lookup_by_ok.
  - intros id t w. cbn. by repeat case_match.
  - intros id t w e. cbn. by repeat case_match.
  - intros id t w. cbn. destruct (m_code w id) as [ac|] eqn:Ea; [|done]. destruct (ConsumedAt ac) eqn:Ec; [done|].
    intros _. split; [by exists ac|]. by intros i.
  - intros h w rt. apply lookup_by_ok.
  - intros rt w. cbn. by repeat case_match.
  - intros rt w e. cbn. by repeat case_match.
  - intros rt w. cbn. by destruct (m_refresh w (RID rt)).
  - intros id t w. cbn. by repeat case_match.
  - intros id t w e. cbn. by repeat case_match.
  - intros id t w. cbn. destruct (m_refresh w id) as [rt|] eqn:Ea; [|done]. destruct (RevokedAt rt) eqn:Ec; [done|].
    intros _. split; [by exists rt|]. by intros i.
  - intros f w _. exists (of_unix (m_clock w)). by intros i.
Qed.

(** A signer that returns the subject as the token, and a bcrypt that compares. *)
#[local] Instance signer : ClaimSigner := λ c _ _, Some (Subject c).
#[local] Instance bcrypt : Bcrypt := {| bcrypt_generate p := Some p; bcrypt_matches h p := bool_decide (h = p) |}.
Definition opts : GrantOptions := MkOptions (str_bytes "iss") (str_bytes "aud") 900 3600 [] (Signature.Ed25519Priv []).
Definition token : bytes := str_bytes "r0".
Definition code : bytes := str_bytes "c0".

Section Worlds.
Context `{Hasher}.
Definition family : bytes := str_bytes "f0".
Definition rt0 : RefreshToken := MkRefresh (str_bytes "id0") (str_bytes "user") family (HashForStorage token) (of_unix 1000) None.
Definition ac0 : AuthCode := MkCode (str_bytes "ac0") (str_bytes "user") (str_bytes "client") (HashForStorage code)
  (str_bytes "https://app") [] [] (of_unix 1000) None.
Definition world : mem := Mem
  (λ i, if bool_decide (i = str_bytes "ac0") then Some ac0 else None)
  (λ i, if bool_decide (i = str_bytes "id0") then Some rt0 else None)
  (λ h, if bool_decide (h = HashForStorage token) then Some (str_bytes "id0")
        else if bool_decide (h = HashForStorage code) then Some (str_bytes "ac0") else None) 0 0.
Definition refresh_request : request := RefreshRequest token opts.
Definition code_request : request := CodeRequest code [] (str_bytes "https://app") (str_bytes "client") opts.
End Worlds.
End Memory.

(** Reuse detection races with rotation.  Two requests present one token; the second
    loses the [Revoke], revokes the family and reports reuse, and then the first stores
    its successor: a token of the revoked family stays active. *)
Theorem reuse_race : let e := Memory.env in let sg := Memory.signer in let b := Memory.bcrypt in
  ∃ sched access raw, let s := run_schedule sched (serve <$> [Memory.refresh_request; Memory.refresh_request], Memory.world) in
    s.1 = [Ret (Ok (access, raw)); Ret (Err ErrTokenReuseDetected)] ∧
    ∃ id rt, Memory.m_refresh s.2 id = Some rt ∧ FamilyID rt = Memory.family ∧ RevokedAt rt = None ∧
      TokenHash rt = HashForStorage raw.
Proof.
  intros e sg b. exists ([0; 0; 0; 1; 1; 1; 0; 1; 1] ++ replicate 5 0)%nat. eexists _, _. cbv zeta. split; [vm_compute; reflexivity|].
  eexists (hex_bytes (x01 :: be_bytes 15 2)), _. split; [vm_compute; reflexivity|]. split_and!; vm_compute; reflexivity.
Qed.

(** ** Witnesses *)

Definition code_run : list (prog Memory.mem (outcome error (bytes * bytes))) * Memory.mem :=
  let e := Memory.env in let sg := Memory.signer in let b := Memory.bcrypt in
  run_schedule (replicate 10 0%nat) (serve <$> [Memory.code_request; Memory.code_request], Memory.world).
Definition code_tokens : bytes * bytes := Eval vm_compute in
  match code_run.1 !! 0%nat with Some (Ret (Ok r)) => r | _ => ([], []) end.

Lemma AuthCodeGrant_once_witness : (0 = 0)%nat.
Proof.
  apply (AuthCodeGrant_once (L := Memory.laws) (B := Memory.bcrypt) (Sg := Memory.signer) (HashForStorage Memory.code) (str_bytes "ac0")
    [Memory.code_request; Memory.code_request] Memory.world (replicate 10 0%nat) 0 0
    Memory.code_request Memory.code_request code_tokens code_tokens).
  - intros i ac Hc _. change ((if bool_decide (i = str_bytes "ac0") then Some Memory.ac0 else None) = Some ac) in Hc.
    case_bool_decide as Hi; [exact Hi|discriminate Hc].
  - reflexivity.
  - reflexivity.
  - vm_compute. reflexivity.
  - vm_compute. reflexivity.
  - vm_compute. reflexivity.
  - vm_compute. reflexivity.
Defined.

(** The first token the memory's random source gives out, presented twice. *)
Definition issued : bytes := hex_bytes (x01 :: be_bytes 31 0).
Definition issued_rt : RefreshToken :=
  MkRefresh (str_bytes "id0") (str_bytes "user") Memory.family (HashForStorage issued) (of_unix 1000) None.
Definition issued_world : Memory.mem :=
  Memory.Mem (λ _, None) (λ i, if bool_decide (i = str_bytes "id0") then Some issued_rt else None)
    (λ h, if bool_decide (h = HashForStorage issued) then Some (str_bytes "id0") else None) 0 1.
Definition issued_schedule : list nat := ([0; 1; 0; 1; 0; 0; 1; 1; 1] ++ replicate 5 0)%nat.
#[local] Notation issued_run := (run_schedule issued_schedule
  (serve (E := Memory.env) (B := Memory.bcrypt) (Sg := Memory.signer) <$>
     [RefreshRequest issued Memory.opts; RefreshRequest issued Memory.opts], issued_world)).
Definition refresh_tokens : bytes * bytes := Eval vm_compute in
  match issued_run.1 !! 0%nat with Some (Ret (Ok r)) => r | _ => ([], []) end.

(** After the run the store has the token's record, revoked, and one successor under
    the hash of the next token. *)
Definition successor : RefreshToken := Eval vm_compute in
  default (MkRefresh [] [] [] [] (of_unix 0) None) (Memory.m_refresh issued_run.2 (hex_bytes (x01 :: be_bytes 15 3))).

Lemma issued_final i : refresh_at (Stored := Memory.stored) issued_run.2 i =
  if bool_decide (i = RID successor) then Some successor
  else (λ rt, if bool_decide (FamilyID rt = Memory.family) then revoke (of_unix 4) rt else rt) <$>
    (only (str_bytes "id0") (revoke (of_unix 2)) i <$> if bool_decide (i = str_bytes "id0") then Some issued_rt else None).
Proof. vm_compute. reflexivity. Qed.

Lemma successor_hash : bool_decide (TokenHash successor = HashForStorage issued) = false.
Proof. vm_compute. reflexivity. Qed.

Lemma issued_unique : token_unique (S0 := Memory.stored) (HashForStorage issued) (str_bytes "id0") issued_run.2.
Proof.
  intros i rt. rewrite issued_final. destruct (bool_decide (i = RID successor)).
  - intros Hi Hh. injection Hi as <-. pose proof successor_hash as Hn. apply bool_decide_eq_false in Hn. exact (False_ind _ (Hn Hh)).
  - destruct (bool_decide_reflect (i = str_bytes "id0")) as [Hid|_]; [intros _ _; exact Hid|].
    cbn [fmap option_fmap option_map]. intros Hi. discriminate Hi.
Qed.

Lemma RefreshTokenGrant_once_witness : (0 = 0)%nat.
Proof.
  apply (RefreshTokenGrant_once (L := Memory.laws) (B := Memory.bcrypt) (Sg := Memory.signer)
    (HashForStorage issued) (str_bytes "id0")
    [RefreshRequest issued Memory.opts; RefreshRequest issued Memory.opts] issued_world issued_schedule 0 0
    (RefreshRequest issued Memory.opts) (RefreshRequest issued Memory.opts) refresh_tokens refresh_tokens).
  - exact issued_unique.
  - reflexivity.
  - reflexivity.
  - vm_compute. reflexivity.
  - vm_compute. reflexivity.
  - vm_compute. reflexivity.
  - vm_compute. reflexivity.
Defined.

Definition rotated : outcome error (bytes * bytes) * Memory.mem :=
  let e := Memory.env in let sg := Memory.signer in let b := Memory.bcrypt in
  run_alone (RefreshTokenGrant Memory.token Memory.opts) Memory.world.

Lemma RefreshTokenGrant_rotates_witness : ∃ old, Memory.m_refresh Memory.world (RID old) = Some old ∧
  TokenHash old = HashForStorage Memory.token ∧ RevokedAt old = None.
Proof.
  destruct (RefreshTokenGrant_rotates (L := Memory.laws) (Sg := Memory.signer) Memory.token Memory.opts Memory.world rotated.2
    (str_bytes "user") (hex_bytes (x01 :: be_bytes 31 1))) as (old & _ & _ & H1 & H2 & H3 & _).
  - vm_compute. reflexivity.
  - exists old. split; [exact H1|split; [exact H2|exact H3]].
Defined.

(** The token of the example, already revoked. *)
Definition reused : Memory.mem :=
  (refresh_Revoke (Env := Memory.env) (str_bytes "id0") (of_unix 5) Memory.world).2.

Lemma RefreshTokenGrant_reuse_witness : let e := Memory.env in let sg := Memory.signer in
  (run_alone (RefreshTokenGrant Memory.token Memory.opts) reused).1 = Err ErrTokenReuseDetected.
Proof.
  intros e sg. destruct (RefreshTokenGrant_reuse (L := Memory.laws) (Sg := sg) Memory.token Memory.opts reused reused
    (revoke (of_unix 5) Memory.rt0) (of_unix 5) (of_unix 0) (now reused).2 (refresh_RevokeFamily Memory.family (now reused).2).2)
    as [Hr _].
  - vm_compute. reflexivity.
  - reflexivity.
  - reflexivity.
  - reflexivity.
  - reflexivity.
  - exact (f_equal fst Hr).
Defined.

Lemma RefreshTokenGrant_expired_first_witness : let e := Memory.env in let sg := Memory.signer in
  let w := Memory.Mem (Memory.m_code reused) (Memory.m_refresh reused) (Memory.m_index reused) 2000 0 in
  run_alone (RefreshTokenGrant Memory.token Memory.opts) w = (Err ErrExpiredToken, (now w).2).
Proof.
  intros e sg w. apply (RefreshTokenGrant_expired_first Memory.token Memory.opts w w (revoke (of_unix 5) Memory.rt0) (of_unix 2000)).
  - vm_compute. reflexivity.
  - reflexivity.
  - reflexivity.
Defined.
