(* ===== verification/Aes.v ===== *)
(** * AES, the block cipher of Go's standard library

    crypto/aes as FIPS 197 specifies it: the S-box from inversion in GF(2^8), the
    key schedule for 16-, 24- and 32-byte keys, the cipher and the inverse cipher,
    all executable.  Decryption is proved to invert encryption and conversely, for
    every list of round keys. *)
From S2P Require Import Prelude.
#[local] Open Scope Z_scope.

(** ** Bytes as elements of GF(2^8) *)

Definition bxor (a b : byte) : byte := z2b (Z.lxor (b2z a) (b2z b)).

Module Aes.

Definition xtime (x : byte) : byte :=
  z2b (Z.lxor (Z.shiftl (b2z x) 1) (if Z.testbit (b2z x) 7 then 0x1b else 0)).

(** Multiplication, one addition per set bit of the first factor below [2 ^ n]. *)
Fixpoint gmul (n : nat) (c : Z) (x : byte) : byte :=
  match n with
  | O => x00
  | S n' => bxor (if Z.odd c then x else x00) (gmul n' (Z.div2 c) (xtime x))
  end.

(** Inversion is the 254th power. *)
Definition ginv (x : byte) : byte := Nat.iter 253 (gmul 8 (b2z x)) x.

Definition rotl8 (n v : Z) : Z := Z.land (Z.lor (Z.shiftl v n) (Z.shiftr v (8 - n))) 255.

Definition affine (x : byte) : byte :=
  let v := b2z x in
  z2b (Z.lxor 0x63 (Z.lxor v (Z.lxor (rotl8 1 v) (Z.lxor (rotl8 2 v) (Z.lxor (rotl8 3 v) (rotl8 4 v)))))).

Definition at_byte (t : list byte) (x : byte) : byte := default x00 (t !! N.to_nat (Byte.to_N x)).

Definition sbox : list byte := Eval vm_compute in (λ x, affine (ginv x)) <$> all_bytes.

(** Position of a byte in a table. *)
Fixpoint position (x : byte) (t : list byte) (i : Z) : byte :=
  match t with
  | [] => x00
  | y :: t' => if Byte.eqb x y then z2b i else position x t' (i + 1)
  end.

Definition inv_sbox : list byte := Eval vm_compute in (λ x, position x sbox 0) <$> all_bytes.

(** ** Words, columns of the state, and blocks *)

Record word : Type := W { w0 : byte; w1 : byte; w2 : byte; w3 : byte }.
Record block : Type := B { c0 : word; c1 : word; c2 : word; c3 : word }.

Definition map_word (f : byte → byte) (w : word) : word := W (f (w0 w)) (f (w1 w)) (f (w2 w)) (f (w3 w)).
Definition map_block (f : word → word) (b : block) : block := B (f (c0 b)) (f (c1 b)) (f (c2 b)) (f (c3 b)).

Definition xor_word (a b : word) : word :=
  W (bxor (w0 a) (w0 b)) (bxor (w1 a) (w1 b)) (bxor (w2 a) (w2 b)) (bxor (w3 a) (w3 b)).
Definition AddRoundKey (k st : block) : block :=
  B (xor_word (c0 st) (c0 k)) (xor_word (c1 st) (c1 k)) (xor_word (c2 st) (c2 k)) (xor_word (c3 st) (c3 k)).

Definition SubBytes : block → block := map_block (map_word (at_byte sbox)).
Definition InvSubBytes : block → block := map_block (map_word (at_byte inv_sbox)).

Definition ShiftRows (b : block) : block :=
  B (W (w0 (c0 b)) (w1 (c1 b)) (w2 (c2 b)) (w3 (c3 b))) (W (w0 (c1 b)) (w1 (c2 b)) (w2 (c3 b)) (w3 (c0 b)))
    (W (w0 (c2 b)) (w1 (c3 b)) (w2 (c0 b)) (w3 (c1 b))) (W (w0 (c3 b)) (w1 (c0 b)) (w2 (c1 b)) (w3 (c2 b))).
Definition InvShiftRows (b : block) : block :=
  B (W (w0 (c0 b)) (w1 (c3 b)) (w2 (c2 b)) (w3 (c1 b))) (W (w0 (c1 b)) (w1 (c0 b)) (w2 (c3 b)) (w3 (c2 b)))
    (W (w0 (c2 b)) (w1 (c1 b)) (w2 (c0 b)) (w3 (c3 b))) (W (w0 (c3 b)) (w1 (c2 b)) (w2 (c1 b)) (w3 (c0 b))).

(** A row of the circulant matrix of MixColumns. *)
Definition mix_row (k0 k1 k2 k3 : Z) (w : word) : byte :=
  bxor (bxor (gmul 4 k0 (w0 w)) (gmul 4 k1 (w1 w))) (bxor (gmul 4 k2 (w2 w)) (gmul 4 k3 (w3 w))).
Definition circulant (k0 k1 k2 k3 : Z) (w : word) : word :=
  W (mix_row k0 k1 k2 k3 w) (mix_row k3 k0 k1 k2 w) (mix_row k2 k3 k0 k1 w) (mix_row k1 k2 k3 k0 w).

Definition MixColumns : block → block := map_block (circulant 2 3 1 1).
Definition InvMixColumns : block → block := map_block (circulant 14 11 13 9).

(** ** Key schedule *)

Definition SubWord : word → word := map_word (at_byte sbox).
Definition RotWord (w : word) : word := W (w1 w) (w2 w) (w3 w) (w0 w).
Definition zero_word : word := W x00 x00 x00 x00.
Definition Rcon (i : nat) : word := W (Nat.iter (i - 1) xtime x01) x00 x00 x00.

(** [n] more words after the [i] in [rw], latest first. *)
Fixpoint expand (n i Nk : nat) (rw : list word) : list word :=
  match n with
  | O => rw
  | S n' =>
      let temp := default zero_word (rw !! 0%nat) in
      let temp := if (i mod Nk =? 0)%nat then xor_word (SubWord (RotWord temp)) (Rcon (i / Nk))
                  else if ((6 <? Nk) && (i mod Nk =? 4))%nat then SubWord temp else temp in
      expand n' (S i) Nk (xor_word (default zero_word (rw !! (Nk - 1)%nat)) temp :: rw)
  end.

Fixpoint key_words (bs : bytes) : list word :=
  match bs with
  | b0 :: b1 :: b2 :: b3 :: bs' => W b0 b1 b2 b3 :: key_words bs'
  | _ => []
  end.

Fixpoint round_keys (ws : list word) : list block :=
  match ws with
  | a :: b :: c :: d :: ws' => B a b c d :: round_keys ws'
  | _ => []
  end.

Record Cipher : Type := MkCipher { first_key : block; middle_keys : list block; last_key : block }.

Definition zero_block : block := B zero_word zero_word zero_word zero_word.

(** [aes.NewCipher]: fails unless the key has 16, 24 or 32 bytes. *)
Definition NewCipher (key : bytes) : option Cipher :=
  match length key with
  | 16 | 24 | 32 =>
      let Nk := (length key / 4)%nat in
      let ks := round_keys (rev (expand (4 * (Nk + 7) - Nk) Nk Nk (rev (key_words key)))) in
      Some (MkCipher (default zero_block (head ks)) (removelast (tail ks)) (List.last ks zero_block))
  | _ => None
  end%nat.

(** ** The cipher and its inverse *)

Definition cipher_round (st k : block) : block := AddRoundKey k (MixColumns (ShiftRows (SubBytes st))).
Definition encrypt_block (c : Cipher) (st : block) : block :=
  AddRoundKey (last_key c) (ShiftRows (SubBytes (foldl cipher_round (AddRoundKey (first_key c) st) (middle_keys c)))).

Definition inv_round (st k : block) : block := InvMixColumns (AddRoundKey k (InvSubBytes (InvShiftRows st))).
Definition decrypt_block (c : Cipher) (st : block) : block :=
  AddRoundKey (first_key c)
    (InvSubBytes (InvShiftRows (foldl inv_round (AddRoundKey (last_key c) st) (rev (middle_keys c))))).

Definition word_bytes (w : word) : bytes := [w0 w; w1 w; w2 w; w3 w].
Definition block_bytes (b : block) : bytes :=
  word_bytes (c0 b) ++ word_bytes (c1 b) ++ word_bytes (c2 b) ++ word_bytes (c3 b).
Definition to_block (bs : bytes) : block := default zero_block (head (round_keys (key_words bs))).

(** [cipher.Encrypt] and [cipher.Decrypt] on an array of 16 bytes. *)
Definition Encrypt (c : Cipher) (bs : bytes) : bytes := block_bytes (encrypt_block c (to_block bs)).
Definition Decrypt (c : Cipher) (bs : bytes) : bytes := block_bytes (decrypt_block c (to_block bs)).

(** The example of FIPS 197, appendix C.1. *)
Example fips197_c1 :
  (λ c, Encrypt c (z2b <$> ((λ i, 17 * i) <$> seqZ 0 16))) <$> NewCipher (z2b <$> seqZ 0 16)
  = unhex_bytes (str_bytes "69c4e0d86a7b0430d8cdb78070b4c55a").
Proof. vm_compute. reflexivity. Qed.

(** The example of FIPS 197, appendix C.3. *)
Example fips197_c3 :
  (λ c, Encrypt c (z2b <$> ((λ i, 17 * i) <$> seqZ 0 16))) <$> NewCipher (z2b <$> seqZ 0 32)
  = unhex_bytes (str_bytes "8ea2b7ca516745bfeafc49904b496089").
Proof. vm_compute. reflexivity. Qed.

End Aes.

(** ** Decryption inverts encryption *)

Lemma bxor_z a b : b2z (bxor a b) = Z.lxor (b2z a) (b2z b).
Proof.
  unfold bxor. apply b2z_z2b_small. pose proof (b2z_range a). pose proof (b2z_range b). split.
  - apply Z.lxor_nonneg. lia.
  - destruct (Z.eq_dec (Z.lxor (b2z a) (b2z b)) 0) as [->|Hnz]; [lia|].
    assert (0 ≤ Z.lxor (b2z a) (b2z b)) by (apply Z.lxor_nonneg; lia).
    apply Z.log2_lt_cancel. change (Z.log2 256) with 8. eapply Z.le_lt_trans; [apply Z.log2_lxor; lia|].
    apply Z.max_lub_lt; (destruct (Z.eq_dec (b2z a) 0) as [Ha|]; destruct (Z.eq_dec (b2z b) 0) as [Hb|];
      rewrite ?Ha, ?Hb; first [reflexivity|apply Z.log2_lt_pow2; lia|simpl; lia]).
Qed.

Lemma bxor_comm a b : bxor a b = bxor b a.
Proof. apply b2z_inj. rewrite !bxor_z. apply Z.lxor_comm. Qed.

Lemma bxor_assoc a b c : bxor (bxor a b) c = bxor a (bxor b c).
Proof. apply b2z_inj. rewrite !bxor_z. apply Z.lxor_assoc. Qed.

Lemma bxor_nilpotent a : bxor a a = x00.
Proof. apply b2z_inj. rewrite bxor_z. apply Z.lxor_nilpotent. Qed.

Lemma bxor_0_r a : bxor a x00 = a.
Proof. apply b2z_inj. rewrite bxor_z. apply Z.lxor_0_r. Qed.

Lemma bxor_0_l a : bxor x00 a = a.
Proof. by rewrite bxor_comm, bxor_0_r. Qed.

Lemma bxor_twice a b : bxor (bxor a b) b = a.
Proof. by rewrite bxor_assoc, bxor_nilpotent, bxor_0_r. Qed.

Section Inverse.
Import Aes.

Lemma sbox_inv x : at_byte inv_sbox (at_byte sbox x) = x.
Proof. revert x. apply by_bytes_eq. vm_compute. reflexivity. Qed.

Lemma inv_sbox_inv x : at_byte sbox (at_byte inv_sbox x) = x.
Proof. revert x. apply by_bytes_eq. vm_compute. reflexivity. Qed.

Lemma xtime_bxor x y : xtime (bxor x y) = bxor (xtime x) (xtime y).
Proof.
  assert (Hall : ∀ x, forallb (λ y, Byte.eqb (xtime (bxor x y)) (bxor (xtime x) (xtime y))) all_bytes = true).
  { apply (by_bytes (λ x, forallb (λ y, Byte.eqb (xtime (bxor x y)) (bxor (xtime x) (xtime y))) all_bytes)).
    vm_compute. reflexivity. }
  revert y. apply by_bytes_eq, Hall.
Qed.

Lemma bxor_swap4 a b c d : bxor (bxor a b) (bxor c d) = bxor (bxor a c) (bxor b d).
Proof. rewrite !bxor_assoc. f_equal. rewrite <- !bxor_assoc. f_equal. apply bxor_comm. Qed.

Lemma gmul_bxor n c x y : gmul n c (bxor x y) = bxor (gmul n c x) (gmul n c y).
Proof.
  revert c x y; induction n as [|n IH]; intros c x y; cbn [gmul]; [reflexivity|].
  rewrite xtime_bxor, IH. destruct (Z.odd c); [by rewrite bxor_swap4|].
  by rewrite !bxor_0_l.
Qed.

(** A product of two row coefficients applied to one byte. *)
Lemma mix_row_word k0 k1 k2 k3 a b c d :
  mix_row k0 k1 k2 k3 (W a b c d) = bxor (bxor (gmul 4 k0 a) (gmul 4 k1 b)) (bxor (gmul 4 k2 c) (gmul 4 k3 d)).
Proof. reflexivity. Qed.

(** Linearity: a row applied to a word that is the sum of four columns. *)
Lemma mix_row_sum k0 k1 k2 k3 (a b c d : word) :
  mix_row k0 k1 k2 k3 (xor_word (xor_word a b) (xor_word c d))
  = bxor (bxor (mix_row k0 k1 k2 k3 a) (mix_row k0 k1 k2 k3 b)) (bxor (mix_row k0 k1 k2 k3 c) (mix_row k0 k1 k2 k3 d)).
Proof.
  assert (Hadd : ∀ u v, mix_row k0 k1 k2 k3 (xor_word u v) = bxor (mix_row k0 k1 k2 k3 u) (mix_row k0 k1 k2 k3 v)).
  { intros u v. unfold mix_row, xor_word. cbn [w0 w1 w2 w3]. rewrite !gmul_bxor.
    rewrite (bxor_swap4 (gmul 4 k0 (w0 u))), (bxor_swap4 (gmul 4 k2 (w2 u))). apply bxor_swap4. }
  by rewrite !Hadd.
Qed.

Lemma circulant_sum k0 k1 k2 k3 (a b c d : word) :
  circulant k0 k1 k2 k3 (xor_word (xor_word a b) (xor_word c d))
  = xor_word (xor_word (circulant k0 k1 k2 k3 a) (circulant k0 k1 k2 k3 b))
             (xor_word (circulant k0 k1 k2 k3 c) (circulant k0 k1 k2 k3 d)).
Proof. unfold circulant. rewrite !mix_row_sum. reflexivity. Qed.

(** A word is the sum of its four one-byte parts. *)
Lemma word_parts w : w = xor_word (xor_word (W (w0 w) x00 x00 x00) (W x00 (w1 w) x00 x00))
                                  (xor_word (W x00 x00 (w2 w) x00) (W x00 x00 x00 (w3 w))).
Proof.
  destruct w as [a b c d]. unfold xor_word. cbn [w0 w1 w2 w3].
  by rewrite !bxor_0_r, !bxor_0_l.
Qed.

Definition word_eqb (a b : word) : bool :=
  Byte.eqb (w0 a) (w0 b) && Byte.eqb (w1 a) (w1 b) && Byte.eqb (w2 a) (w2 b) && Byte.eqb (w3 a) (w3 b).

Lemma word_eqb_true a b : word_eqb a b = true → a = b.
Proof.
  destruct a, b. unfold word_eqb; cbn [w0 w1 w2 w3]. rewrite !andb_true_iff.
  intros [[[H0%Byte.byte_dec_bl H1%Byte.byte_dec_bl] H2%Byte.byte_dec_bl] H3%Byte.byte_dec_bl]. by subst.
Qed.

(** Two circulants that undo each other on the one-byte words undo each other. *)
Lemma circulant_inverse k0 k1 k2 k3 l0 l1 l2 l3 :
  let ok p := forallb (λ b, word_eqb (circulant l0 l1 l2 l3 (circulant k0 k1 k2 k3 (p b))) (p b)) all_bytes in
  ok (λ b, W b x00 x00 x00) && ok (λ b, W x00 b x00 x00) && ok (λ b, W x00 x00 b x00) && ok (λ b, W x00 x00 x00 b) = true →
  ∀ w, circulant l0 l1 l2 l3 (circulant k0 k1 k2 k3 w) = w.
Proof.
  intros ok Hok w. rewrite !andb_true_iff in Hok. destruct Hok as [[[H0 H1] H2] H3].
  rewrite (word_parts w) at 1. rewrite !circulant_sum.
  assert (Hp : ∀ p, ok p = true → ∀ b, circulant l0 l1 l2 l3 (circulant k0 k1 k2 k3 (p b)) = p b).
  { intros p Hp b. apply word_eqb_true. apply (by_bytes _ Hp b). }
  rewrite (Hp (λ b, W b x00 x00 x00) H0), (Hp (λ b, W x00 b x00 x00) H1), (Hp (λ b, W x00 x00 b x00) H2),
    (Hp (λ b, W x00 x00 x00 b) H3).
  symmetry. apply word_parts.
Qed.

Lemma map_block_inverse f g : (∀ w, g (f w) = w) → ∀ b, map_block g (map_block f b) = b.
Proof. intros Hw [a b c d]. unfold map_block. cbn [c0 c1 c2 c3]. by rewrite !Hw. Qed.

Lemma map_word_inverse f g : (∀ x, g (f x) = x) → ∀ w, map_word g (map_word f w) = w.
Proof. intros Hx [a b c d]. unfold map_word. cbn [w0 w1 w2 w3]. by rewrite !Hx. Qed.

Lemma InvMixColumns_Mix b : InvMixColumns (MixColumns b) = b.
Proof. apply map_block_inverse, circulant_inverse. vm_compute. reflexivity. Qed.

Lemma MixColumns_Inv b : MixColumns (InvMixColumns b) = b.
Proof. apply map_block_inverse, circulant_inverse. vm_compute. reflexivity. Qed.

Lemma InvSubBytes_Sub b : InvSubBytes (SubBytes b) = b.
Proof. apply map_block_inverse, map_word_inverse, sbox_inv. Qed.

Lemma SubBytes_Inv b : SubBytes (InvSubBytes b) = b.
Proof. apply map_block_inverse, map_word_inverse, inv_sbox_inv. Qed.

Lemma InvShiftRows_Shift b : InvShiftRows (ShiftRows b) = b.
Proof. by destruct b as [[] [] [] []]. Qed.

Lemma ShiftRows_Inv b : ShiftRows (InvShiftRows b) = b.
Proof. by destruct b as [[] [] [] []]. Qed.

Lemma AddRoundKey_twice k b : AddRoundKey k (AddRoundKey k b) = b.
Proof.
  destruct b as [[] [] [] []]. unfold AddRoundKey, xor_word. cbn [c0 c1 c2 c3 w0 w1 w2 w3]. by rewrite !bxor_twice.
Qed.

#[local] Hint Rewrite InvMixColumns_Mix MixColumns_Inv InvSubBytes_Sub SubBytes_Inv InvShiftRows_Shift ShiftRows_Inv
  AddRoundKey_twice : aes.

Lemma inv_round_round st k ks : foldl inv_round (ShiftRows (SubBytes (foldl cipher_round st (ks ++ [k])))) (rev (ks ++ [k]))
  = foldl inv_round (ShiftRows (SubBytes (foldl cipher_round st ks))) (rev ks).
Proof.
  rewrite foldl_app, rev_app_distr. cbn [rev app foldl]. unfold inv_round at 2, cipher_round at 1.
  by autorewrite with aes.
Qed.

Lemma rounds_inverse ks : ∀ st, foldl inv_round (ShiftRows (SubBytes (foldl cipher_round st ks))) (rev ks) = ShiftRows (SubBytes st).
Proof.
  induction ks as [|k ks IH] using rev_ind; intros st; [reflexivity|]. rewrite inv_round_round. apply IH.
Qed.

Lemma inv_rounds_inverse ks : ∀ st,
  foldl cipher_round (InvSubBytes (InvShiftRows (foldl inv_round st (rev ks)))) ks = InvSubBytes (InvShiftRows st).
Proof.
  induction ks as [|k ks IH] using rev_ind; intros st; [reflexivity|].
  rewrite foldl_app, rev_app_distr. cbn [rev app foldl]. rewrite IH. unfold cipher_round, inv_round.
  by autorewrite with aes.
Qed.

Lemma decrypt_encrypt_block c st : decrypt_block c (encrypt_block c st) = st.
Proof.
  unfold decrypt_block, encrypt_block. rewrite AddRoundKey_twice, rounds_inverse. by autorewrite with aes.
Qed.

Lemma encrypt_decrypt_block c st : encrypt_block c (decrypt_block c st) = st.
Proof.
  unfold decrypt_block, encrypt_block. rewrite AddRoundKey_twice, inv_rounds_inverse. by autorewrite with aes.
Qed.

Lemma to_block_bytes b : to_block (block_bytes b) = b.
Proof. by destruct b as [[] [] [] []]. Qed.

Lemma block_bytes_to bs : length bs = 16%nat → block_bytes (to_block bs) = bs.
Proof. intros Hl. do 16 (destruct bs as [|? bs]; [discriminate Hl|]). by destruct bs. Qed.

Lemma block_bytes_length b : length (block_bytes b) = 16%nat.
Proof. reflexivity. Qed.

Lemma Encrypt_length c bs : length (Encrypt c bs) = 16%nat.
Proof. reflexivity. Qed.

Lemma Decrypt_length c bs : length (Decrypt c bs) = 16%nat.
Proof. reflexivity. Qed.

Lemma Decrypt_Encrypt c bs : length bs = 16%nat → Decrypt c (Encrypt c bs) = bs.
Proof. intros Hl. unfold Decrypt, Encrypt. rewrite to_block_bytes, decrypt_encrypt_block. by apply block_bytes_to. Qed.

Lemma Encrypt_Decrypt c bs : length bs = 16%nat → Encrypt c (Decrypt c bs) = bs.
Proof. intros Hl. unfold Decrypt, Encrypt. rewrite to_block_bytes, encrypt_decrypt_block. by apply block_bytes_to. Qed.
End Inverse.
