(* ===== verification/Envelope.v ===== *)
(** * AES key wrap: the [crypto/envelope] package, aes_kw.go

    RFC 3394 wrapping over the block cipher of Aes.v: the two loops on the register
    [a] and the semiblocks [r], the size checks and the integrity check.  The theorems
    show that wrapping returns on every well-sized input and that unwrapping accepts
    exactly the outputs of wrapping. *)
From S2P Require Import Prelude Aes.
#[local] Open Scope Z_scope.

Module Envelope.

Inductive error : Type :=
| ErrInvalidKEK
| ErrInvalidKey
| ErrInvalidWrapped
| ErrICVMismatch
| ErrCipher.

Definition icv : bytes := replicate 8 xa6.

Definition validateKEK (kek : bytes) : outcome error unit :=
  match length kek with
  | 16 | 24 | 32 => Ok tt
  | _ => Err ErrInvalidKEK
  end%nat.

Definition validatePlaintextKey (key : bytes) : outcome error unit :=
  if zlen key <? 16 then Err ErrInvalidKey
  else if negb (zlen key `mod` 8 =? 0) then Err ErrInvalidKey
  else Ok tt.

Definition validateWrappedKey (key : bytes) : outcome error unit :=
  if zlen key <? 24 then Err ErrInvalidWrapped
  else if negb (zlen key `mod` 8 =? 0) then Err ErrInvalidWrapped
  else Ok tt.

(** [b[7-i] ^= byte(v >> (8*i))] for [i] from 0 to 7. *)
Definition xorUint64 (b : bytes) (v : Z) : bytes :=
  foldl (λ b i, alter (λ x, bxor x (z2b (Z.shiftr v (8 * Z.of_nat i)))) (7 - i)%nat b) b (seq 0 8).

(** The register [a] and the semiblocks [r]. *)
Definition registers : Type := bytes * list bytes.

(** A loop over the values of its counter. *)
Fixpoint loop {X St} (body : X → St → outcome error St) (xs : list X) (st : St) : outcome error St :=
  match xs with
  | [] => Ok st
  | x :: xs' => st' ← body x st; loop body xs' st'
  end.

(** [uint64(j*n + i + 1)]. *)
Definition counter (n j i : nat) : Z := u64 (Z.of_nat j * Z.of_nat n + Z.of_nat i + 1).

Definition wrap_step (c : Aes.Cipher) (n j i : nat) (st : registers) : outcome error registers :=
  let '(a, r) := st in
  ri ← index r i;
  let out := Aes.Encrypt c (a ++ ri) in
  Ok (xorUint64 (take 8 out) (counter n j i), <[i := drop 8 out]> r).

Definition unwrap_step (c : Aes.Cipher) (n j i : nat) (st : registers) : outcome error registers :=
  let '(a, r) := st in
  let a := xorUint64 a (counter n j i) in
  ri ← index r i;
  let out := Aes.Decrypt c (a ++ ri) in
  Ok (take 8 out, <[i := drop 8 out]> r).

Definition wrap_rounds (c : Aes.Cipher) (n : nat) : registers → outcome error registers :=
  loop (λ j, loop (wrap_step c n j) (seq 0 n)) (seq 0 6).

(** The counters run downwards. *)
Definition unwrap_rounds (c : Aes.Cipher) (n : nat) : registers → outcome error registers :=
  loop (λ j, loop (unwrap_step c n j) (rev (seq 0 n))) (rev (seq 0 6)).

(** The [n] semiblocks of a buffer. *)
Definition semiblocks (n : nat) (bs : bytes) : list bytes := (λ i, take 8 (drop (8 * i) bs)) <$> seq 0 n.

Definition Wrap (kek plaintextKey : bytes) : outcome error bytes :=
  _ ← validateKEK kek;
  _ ← validatePlaintextKey plaintextKey;
  match Aes.NewCipher kek with
  | None => Err ErrCipher
  | Some cipher =>
      let n := (length plaintextKey / 8)%nat in
      '(a, r) ← wrap_rounds cipher n (icv, semiblocks n plaintextKey);
      Ok (a ++ concat r)
  end.

Definition Unwrap (kek wrappedKey : bytes) : outcome error bytes :=
  _ ← validateKEK kek;
  _ ← validateWrappedKey wrappedKey;
  match Aes.NewCipher kek with
  | None => Err ErrCipher
  | Some cipher =>
      let n := (length wrappedKey / 8 - 1)%nat in
      '(a, r) ← unwrap_rounds cipher n (take 8 wrappedKey, semiblocks n (drop 8 wrappedKey));
      if negb (ct_equal a icv) then Err ErrICVMismatch else Ok (concat r)
  end.


(** The example of RFC 3394, section 4.1. *)
Example rfc3394_4_1 :
  Wrap (z2b <$> seqZ 0 16) (z2b <$> ((λ i, 17 * i) <$> seqZ 0 16))
  = match unhex_bytes (str_bytes "1fa68b0a8112b447aef34bd8fb5a7b829d3e862371d2cfe5") with
    | Some w => Ok w | None => Panic end.
Proof. vm_compute. reflexivity. Qed.

End Envelope.

(** ** Loops that undo each other *)

Section Loops.
Import Envelope.
Context {X St : Type} (I : St → Prop).

Lemma loop_snoc (body : X → St → outcome error St) xs x st :
  loop body (xs ++ [x]) st = (st' ← loop body xs st; body x st').
Proof.
  revert st; induction xs as [|y xs IH]; intros st; cbn [app loop].
  - cbn. by destruct (body x st).
  - destruct (body y st) as [st'| | |]; [apply IH|done..].
Qed.

(** When each step is undone by another on states that satisfy [I], the loop is undone
    by the loop of the others in the opposite order. *)
Lemma loop_inverse (f g : X → St → outcome error St) xs :
  (∀ x st st', x ∈ xs → I st → f x st = Ok st' → I st' ∧ g x st' = Ok st) →
  ∀ st st', I st → loop f xs st = Ok st' → I st' ∧ loop g (rev xs) st' = Ok st.
Proof.
  induction xs as [|x xs IH]; intros Hfg st st' HI Hl; cbn [loop rev] in *.
  - injection Hl as <-. done.
  - apply bind_Ok in Hl as (st1 & Hx & Hl). destruct (Hfg x st st1) as [HI1 Hg]; [left|done..|].
    destruct (IH (λ y s s' Hy, Hfg y s s' (list_elem_of_further _ _ _ Hy)) st1 st' HI1 Hl) as [HI' Hl'].
    split; [done|]. rewrite loop_snoc, Hl'. exact Hg.
Qed.

Lemma loop_total (f : X → St → outcome error St) xs :
  (∀ x st, x ∈ xs → I st → ∃ st', f x st = Ok st' ∧ I st') →
  ∀ st, I st → ∃ st', loop f xs st = Ok st' ∧ I st'.
Proof.
  induction xs as [|x xs IH]; intros Hf st HI; cbn [loop]; [by eauto|].
  destruct (Hf x st) as (st1 & -> & HI1); [left|done|]. cbn.
  apply IH; [|done]. intros y s Hy. apply Hf. by right.
Qed.
End Loops.

Section KeyWrap.
Import Envelope.
#[local] Opaque Aes.Encrypt Aes.Decrypt.

(** Registers of [n] semiblocks of eight bytes each. *)
Definition well_sized (n : nat) (st : registers) : Prop :=
  length st.1 = 8%nat ∧ length st.2 = n ∧ Forall (λ b, length b = 8%nat) st.2.

Lemma xorUint64_length b v : length (xorUint64 b v) = length b.
Proof. unfold xorUint64. cbn [seq foldl]. by rewrite !length_alter. Qed.

Lemma xorUint64_twice b v : length b = 8%nat → xorUint64 (xorUint64 b v) v = b.
Proof.
  intros Hl. do 8 (destruct b as [|? b]; [discriminate Hl|]). destruct b; [|discriminate Hl].
  unfold xorUint64. cbn [seq foldl Nat.sub alter list_alter]. by rewrite !bxor_twice.
Qed.

Lemma index_in {A} (l : list A) i : (i < length l)%nat → ∃ x, l !! i = Some x ∧ index (E := error) l i = Ok x.
Proof. intros Hi. destruct (lookup_lt_is_Some_2 l i Hi) as [x Hx]. exists x. unfold index. by rewrite Hx. Qed.

Lemma split8 (l : bytes) : length l = 16%nat → take 8 l ++ drop 8 l = l ∧ length (take 8 l) = 8%nat ∧ length (drop 8 l) = 8%nat.
Proof. intros Hl. rewrite take_drop, length_take, length_drop. split_and!; [done|lia..]. Qed.

Lemma well_sized_insert n a r i x : well_sized n (a, r) → length x = 8%nat → Forall (λ b, length b = 8%nat) (<[i := x]> r) ∧ length (<[i := x]> r) = n.
Proof. intros (_ & Hn & Hr) Hx. rewrite length_insert. split; [|done]. by apply Forall_insert. Qed.

Lemma semiblock_length n a r i ri : well_sized n (a, r) → r !! i = Some ri → length (a ++ ri) = 16%nat.
Proof. intros (Ha & _ & Hr) Hi. rewrite length_app. rewrite Forall_lookup in Hr. cbn in Ha. rewrite Ha, (Hr i ri Hi). reflexivity. Qed.

Lemma wrap_step_total c n j i st : (i < n)%nat → well_sized n st → ∃ st', wrap_step c n j i st = Ok st' ∧ well_sized n st'.
Proof.
  intros Hi Hw. destruct st as [a r]. pose proof Hw as (_ & Hn & _). cbn in Hn.
  destruct (index_in r i ltac:(lia)) as (ri & Hri & Hix). unfold wrap_step. rewrite Hix. cbn [mbind outcome_bind].
  eexists. split; [reflexivity|]. destruct (split8 _ (Encrypt_length c (a ++ ri))) as (_ & Ht & Hd).
  destruct (well_sized_insert n a r i _ Hw Hd). split; [|done]. cbn [fst]. by rewrite xorUint64_length.
Qed.

Lemma unwrap_step_total c n j i st : (i < n)%nat → well_sized n st → ∃ st', unwrap_step c n j i st = Ok st' ∧ well_sized n st'.
Proof.
  intros Hi Hw. destruct st as [a r]. pose proof Hw as (_ & Hn & _). cbn in Hn.
  destruct (index_in r i ltac:(lia)) as (ri & Hri & Hix). unfold unwrap_step. rewrite Hix. cbn [mbind outcome_bind].
  eexists. split; [reflexivity|].
  destruct (split8 _ (Decrypt_length c (xorUint64 a (counter n j i) ++ ri))) as (_ & Ht & Hd).
  destruct (well_sized_insert n a r i _ Hw Hd). done.
Qed.

Lemma index_Ok {A} (l : list A) i x : index (E := error) l i = Ok x ↔ l !! i = Some x.
Proof. unfold index. destruct (l !! i); split; congruence. Qed.

Lemma insert_back (r : list bytes) i x y : r !! i = Some x → <[i := x]> (<[i := y]> r) = r.
Proof. intros Hi. rewrite list_insert_insert_eq. by apply list_insert_id. Qed.

Lemma unwrap_wrap_step c n j i st st' : (i < n)%nat → well_sized n st → wrap_step c n j i st = Ok st' →
  well_sized n st' ∧ unwrap_step c n j i st' = Ok st.
Proof.
  intros Hi Hw Hs. destruct (wrap_step_total c n j i st Hi Hw) as (st1 & Hs1 & Hw1).
  rewrite Hs in Hs1. injection Hs1 as <-. split; [done|]. destruct st as [a r].
  unfold wrap_step in Hs. apply bind_Ok in Hs as (ri & Hri%index_Ok & Hs). injection Hs as <-.
  unfold unwrap_step. destruct (split8 _ (Encrypt_length c (a ++ ri))) as (Htd & Ht & _).
  rewrite xorUint64_twice by done. destruct Hw1 as (_ & Hn & _). cbn in Hn. rewrite length_insert in Hn.
  rewrite (proj2 (index_Ok _ i (drop 8 (Aes.Encrypt c (a ++ ri))))) by (apply list_lookup_insert_eq; lia).
  cbn [mbind outcome_bind]. rewrite Htd, Decrypt_Encrypt by eauto using semiblock_length.
  destruct Hw as (Ha & _ & _). cbn in Ha. rewrite take_app_length', drop_app_length' by done. by rewrite insert_back.
Qed.

Lemma wrap_unwrap_step c n j i st st' : (i < n)%nat → well_sized n st → unwrap_step c n j i st = Ok st' →
  well_sized n st' ∧ wrap_step c n j i st' = Ok st.
Proof.
  intros Hi Hw Hs. destruct (unwrap_step_total c n j i st Hi Hw) as (st1 & Hs1 & Hw1).
  rewrite Hs in Hs1. injection Hs1 as <-. split; [done|]. destruct st as [a r].
  unfold unwrap_step in Hs. apply bind_Ok in Hs as (ri & Hri%index_Ok & Hs). injection Hs as <-.
  unfold wrap_step. destruct Hw1 as (_ & Hn & _). cbn in Hn. rewrite length_insert in Hn.
  set (a' := xorUint64 a (counter n j i)).
  assert (Ha' : length a' = 8%nat) by (unfold a'; rewrite xorUint64_length; apply Hw).
  destruct (split8 _ (Decrypt_length c (a' ++ ri))) as (Htd & Ht & _).
  rewrite (proj2 (index_Ok _ i (drop 8 (Aes.Decrypt c (a' ++ ri))))) by (apply list_lookup_insert_eq; lia).
  cbn [mbind outcome_bind]. rewrite Htd, Encrypt_Decrypt.
  - rewrite take_app_length', drop_app_length' by done. unfold a'. rewrite xorUint64_twice by apply Hw.
    by rewrite insert_back.
  - rewrite length_app, Ha'. destruct Hw as (_ & _ & Hr). rewrite Forall_lookup in Hr. by rewrite (Hr i ri Hri).
Qed.

Lemma in_seq0 i n : i ∈ seq 0 n → (i < n)%nat.
Proof. rewrite elem_of_seq. lia. Qed.

Lemma in_rev_seq0 i n : i ∈ rev (seq 0 n) → (i < n)%nat.
Proof. rewrite list_elem_of_In, <- in_rev, <- list_elem_of_In. apply in_seq0. Qed.
#[local] Hint Resolve in_seq0 in_rev_seq0 wrap_step_total unwrap_step_total wrap_unwrap_step unwrap_wrap_step : core.

Lemma wrap_rounds_total c n st : well_sized n st → ∃ st', wrap_rounds c n st = Ok st' ∧ well_sized n st'.
Proof. apply loop_total. intros j s _. apply loop_total. eauto. Qed.

Lemma unwrap_rounds_total c n st : well_sized n st → ∃ st', unwrap_rounds c n st = Ok st' ∧ well_sized n st'.
Proof. apply loop_total. intros j s _. apply loop_total. eauto. Qed.

Lemma unwrap_wrap_rounds c n st st' : well_sized n st → wrap_rounds c n st = Ok st' → well_sized n st' ∧ unwrap_rounds c n st' = Ok st.
Proof.
  apply (loop_inverse (well_sized n)). intros j s s' _.
  apply (loop_inverse (well_sized n) (wrap_step c n j) (unwrap_step c n j)). eauto.
Qed.

Lemma wrap_unwrap_rounds c n st st' : well_sized n st → unwrap_rounds c n st = Ok st' → well_sized n st' ∧ wrap_rounds c n st' = Ok st.
Proof.
  unfold wrap_rounds. rewrite <- (rev_involutive (seq 0 6)).
  apply (loop_inverse (well_sized n)). intros j s s' _. rewrite <- (rev_involutive (seq 0 n)) at 2.
  apply (loop_inverse (well_sized n) (unwrap_step c n j) (wrap_step c n j)). eauto.
Qed.

(** ** Buffers and semiblocks *)

Lemma semiblocks_length n bs : length (semiblocks n bs) = n.
Proof. unfold semiblocks. by rewrite length_fmap, length_seq. Qed.

Lemma semiblocks_S n bs : semiblocks (S n) bs = take 8 bs :: semiblocks n (drop 8 bs).
Proof.
  unfold semiblocks. cbn [seq fmap list_fmap]. rewrite Nat.mul_0_r, drop_0. f_equal.
  rewrite <- fmap_S_seq, <- list_fmap_compose. apply list_fmap_ext. intros i j _. cbn. rewrite drop_drop. do 2 f_equal. lia.
Qed.

Lemma semiblocks_sized n bs : length bs = (8 * n)%nat → Forall (λ b, length b = 8%nat) (semiblocks n bs) ∧ concat (semiblocks n bs) = bs.
Proof.
  revert bs; induction n as [|n IH]; intros bs Hl; [by destruct bs|]. rewrite semiblocks_S.
  destruct (IH (drop 8 bs)) as [IHf IHc]; [rewrite length_drop; lia|]. cbn [concat]. rewrite IHc, take_drop. split; [|done].
  constructor; [|done]. rewrite length_take. lia.
Qed.

Lemma semiblocks_concat n r : length r = n → Forall (λ b, length b = 8%nat) r → semiblocks n (concat r) = r ∧ length (concat r) = (8 * n)%nat.
Proof.
  intros Hn Hr. revert n Hn; induction Hr as [|b r Hb Hr IH]; intros n <-; [done|]. cbn [concat length].
  destruct (IH (length r) eq_refl) as [IHs IHl].
  rewrite semiblocks_S, take_app_length', drop_app_length', IHs, length_app, Hb, IHl by done. split; [done|lia].
Qed.

Lemma validateKEK_cipher kek : validateKEK kek = Ok tt → ∃ c, Aes.NewCipher kek = Some c.
Proof.
  unfold validateKEK, Aes.NewCipher. generalize (length kek) as k. intros k Hv.
  do 33 (destruct k as [|k]; [first [discriminate Hv|by eexists]|]). discriminate Hv.
Qed.
End KeyWrap.

Section KeyWrapTheorems.
Import Envelope.

Lemma validatePlaintextKey_Ok key u : validatePlaintextKey key = Ok u ↔ ∃ n, (2 ≤ n)%nat ∧ length key = (8 * n)%nat.
Proof.
  destruct u. unfold validatePlaintextKey. destruct (Z.ltb_spec (zlen key) 16).
  - split; [done|]. intros (n & Hn & Hl). lia.
  - destruct (Z.eqb_spec (zlen key `mod` 8) 0) as [Hm|Hm]; cbn [negb].
    + split; [|done]. intros _. exists (length key / 8)%nat. div_lia.
    + split; [done|]. intros (n & Hn & Hl). exfalso. apply Hm. div_lia.
Qed.

Lemma validateWrappedKey_Ok key u : validateWrappedKey key = Ok u ↔ ∃ n, (2 ≤ n)%nat ∧ length key = (8 * S n)%nat.
Proof.
  destruct u. unfold validateWrappedKey. destruct (Z.ltb_spec (zlen key) 24).
  - split; [done|]. intros (n & Hn & Hl). lia.
  - destruct (Z.eqb_spec (zlen key `mod` 8) 0) as [Hm|Hm]; cbn [negb].
    + split; [|done]. intros _. exists (length key / 8 - 1)%nat. div_lia.
    + split; [done|]. intros (n & Hn & Hl). exfalso. apply Hm. div_lia.
Qed.

(** Wrapping as a relation: what the loops compute on the semiblocks. *)
Lemma Wrap_Ok kek key w : Wrap kek key = Ok w ↔
  validateKEK kek = Ok tt ∧ ∃ n c a r, (2 ≤ n)%nat ∧ length key = (8 * n)%nat ∧ Aes.NewCipher kek = Some c ∧
  wrap_rounds c n (icv, semiblocks n key) = Ok (a, r) ∧ w = a ++ concat r.
Proof.
  unfold Wrap. rewrite bind_Ok. split.
  - intros ([] & HK & HR). split; [done|]. apply bind_Ok in HR as (u & (n & Hn & Hl)%validatePlaintextKey_Ok & HR).
    destruct (Aes.NewCipher kek) as [c|]; [|done]. apply bind_Ok in HR as ([a r] & Hw & [= <-]).
    replace (length key / 8)%nat with n in Hw by (rewrite Hl, Nat.mul_comm; symmetry; by apply Nat.div_mul).
    by exists n, c, a, r.
  - intros (HK & n & c & a & r & Hn & Hl & HC & Hw & ->). exists tt. split; [done|].
    rewrite bind_Ok. exists tt. split; [apply validatePlaintextKey_Ok; eauto|]. rewrite HC.
    replace (length key / 8)%nat with n by (rewrite Hl, Nat.mul_comm; symmetry; by apply Nat.div_mul).
    by rewrite Hw.
Qed.

Lemma Unwrap_Ok kek w key : Unwrap kek w = Ok key ↔
  validateKEK kek = Ok tt ∧ ∃ n c r, (2 ≤ n)%nat ∧ length w = (8 * S n)%nat ∧ Aes.NewCipher kek = Some c ∧
  unwrap_rounds c n (take 8 w, semiblocks n (drop 8 w)) = Ok (icv, r) ∧ key = concat r.
Proof.
  unfold Unwrap. rewrite bind_Ok. split.
  - intros ([] & HK & HR). split; [done|]. apply bind_Ok in HR as (u & (n & Hn & Hl)%validateWrappedKey_Ok & HR).
    destruct (Aes.NewCipher kek) as [c|]; [|done]. apply bind_Ok in HR as ([a r] & Hw & HR).
    replace (length w / 8 - 1)%nat with n in Hw by (rewrite Hl, Nat.mul_comm, Nat.div_mul; lia).
    destruct (ct_equal a icv) eqn:Ha; [|done]. apply ct_equal_true in Ha as ->. injection HR as <-.
    by exists n, c, r.
  - intros (HK & n & c & r & Hn & Hl & HC & Hw & ->). exists tt. split; [done|].
    rewrite bind_Ok. exists tt. split; [apply validateWrappedKey_Ok; eauto|]. rewrite HC.
    replace (length w / 8 - 1)%nat with n by (rewrite Hl, Nat.mul_comm, Nat.div_mul; lia).
    rewrite Hw. cbn [mbind outcome_bind]. by rewrite ct_equal_refl.
Qed.

Lemma key_registers n key : length key = (8 * n)%nat → well_sized n (icv, semiblocks n key).
Proof. intros Hl. split; [done|]. split; [apply semiblocks_length|]. by apply semiblocks_sized. Qed.

Lemma wrapped_registers n w : length w = (8 * S n)%nat → well_sized n (take 8 w, semiblocks n (drop 8 w)).
Proof.
  intros Hl. split; [cbn; rewrite length_take; lia|]. split; [apply semiblocks_length|].
  apply semiblocks_sized. rewrite length_drop. lia.
Qed.

(** Wrapping succeeds exactly on a 16-, 24- or 32-byte key-encryption key and a key of
    at least two semiblocks; the output is eight bytes longer than the key. *)
Theorem Wrap_total kek key :
  ((∃ w, Wrap kek key = Ok w ∧ length w = (length key + 8)%nat) ↔
   length kek ∈ [16; 24; 32]%nat ∧ (16 ≤ length key)%nat ∧ (length key mod 8 = 0)%nat) ∧
  ((∃ w, Wrap kek key = Ok w) ∨ Wrap kek key = Err ErrInvalidKEK ∨ Wrap kek key = Err ErrInvalidKey).
Proof.
  assert (HK : validateKEK kek = Ok tt ↔ length kek ∈ [16; 24; 32]%nat).
  { unfold validateKEK. rewrite !elem_of_cons, elem_of_nil. generalize (length kek) as k. intros k.
    do 33 (destruct k as [|k]; [split; [naive_solver|lia||done]|]). split; [done|lia]. }
  assert (HW : ∀ n, validateKEK kek = Ok tt → (2 ≤ n)%nat → length key = (8 * n)%nat → ∃ w, Wrap kek key = Ok w ∧ length w = (length key + 8)%nat).
  { intros n HV Hn Hl. destruct (validateKEK_cipher kek HV) as [c HC].
    destruct (wrap_rounds_total c n _ (key_registers n key Hl)) as ([a r] & Hw & Ha & Hr & Hf). cbn in Ha, Hr, Hf.
    exists (a ++ concat r). split; [apply Wrap_Ok; split; [done|]; by exists n, c, a, r|].
    rewrite length_app, Ha, (proj2 (semiblocks_concat n r Hr Hf)). lia. }
  split.
  - rewrite <- HK. split.
    + intros (w & (HV & n & c & a & r & Hn & Hl & _)%Wrap_Ok & _). split; [done|]. rewrite Hl, Nat.mul_comm, Nat.Div0.mod_mul. lia.
    + intros (HV & Hlo & Hm). apply (HW (length key / 8)%nat HV); div_lia.
  - destruct (validateKEK kek) as [[]|e| |] eqn:HV.
    + destruct (validatePlaintextKey key) as [u|e| |] eqn:HP.
      * apply validatePlaintextKey_Ok in HP as (n & Hn & Hl). left. destruct (HW n eq_refl Hn Hl) as (w & Hw & _). eauto.
      * right; right. unfold Wrap. rewrite HV, HP. unfold validatePlaintextKey in HP. cbn. repeat case_match; naive_solver.
      * unfold validatePlaintextKey in HP. repeat case_match; done.
      * unfold validatePlaintextKey in HP. repeat case_match; done.
    + right; left. unfold Wrap. rewrite HV. unfold validateKEK in HV. cbn. f_equal. repeat case_match; congruence.
    + unfold validateKEK in HV. repeat case_match; done.
    + unfold validateKEK in HV. repeat case_match; done.
Qed.

(** C20.  Unwrapping accepts exactly the outputs of wrapping under the same key-encryption
    key, and returns the key that was wrapped. *)
Theorem Unwrap_iff kek w key : Unwrap kek w = Ok key ↔ Wrap kek key = Ok w.
Proof.
  rewrite Unwrap_Ok, Wrap_Ok. split.
  - intros (HK & n & c & r & Hn & Hl & HC & Hu & ->). split; [done|].
    destruct (wrap_unwrap_rounds c n _ _ (wrapped_registers n w Hl) Hu) as ((_ & Hr & Hf) & Hw). cbn in Hr, Hf.
    destruct (semiblocks_concat n r Hr Hf) as [Hs Hlr]. exists n, c, (take 8 w), (semiblocks n (drop 8 w)).
    rewrite Hs. split_and!; try done.
    rewrite (proj2 (semiblocks_sized n (drop 8 w) ltac:(rewrite length_drop; lia))). symmetry. apply take_drop.
  - intros (HK & n & c & a & r & Hn & Hl & HC & Hw & ->). split; [done|].
    destruct (unwrap_wrap_rounds c n _ _ (key_registers n key Hl) Hw) as ((Ha & Hr & Hf) & Hu). cbn in Ha, Hr, Hf.
    destruct (semiblocks_concat n r Hr Hf) as [Hs Hlr]. exists n, c, (semiblocks n key).
    rewrite take_app_length', drop_app_length', Hs by done. split_and!; try done.
    + rewrite length_app, Ha, Hlr. lia.
    + symmetry. apply (semiblocks_sized n key Hl).
Qed.
End KeyWrapTheorems.
