(* ===== verification/DidPkh.v ===== *)
(** * The [identity/didpkh] package: DIDs of blockchain accounts

    A translation of src/identity/didpkh/didpkh.go: CAIP-10 account identifiers of the
    eip155 namespace and the document of a did:pkh DID.  The theorems characterise the
    accepted identifiers, show that the address rule is the one of chain/ethereum, and
    that a document names its DID and account exactly as they were spelled. *)
From S2P Require Import Prelude GoBig Keccak Secp256k1 Ethereum Did DidProofs.
Import Did.
#[local] Open Scope Z_scope.

Module DidPkh.

Inductive error : Type :=
| ErrWrongMethod
| ErrDIDURLNotSupported
| ErrInvalidComponentCount
| ErrUnsupportedNamespace
| ErrInvalidChainReference
| ErrMalformedAddress
| ErrChecksumMismatch.

(** [strings.Count] and [strings.Split] with a one-byte separator. *)
Definition Count (s : bytes) (sep : byte) : Z := zlen (filter (λ c, c = sep) s).

Fixpoint Split (s : bytes) (sep : byte) : list bytes :=
  match s with
  | [] => [[]]
  | c :: s' =>
      if bool_decide (c = sep) then [] :: Split s' sep
      else match Split s' sep with
           | [] => [[c]]
           | p :: ps => (c :: p) :: ps
           end
  end.

(** [strings.ToLower] and [strings.ToUpper] on ASCII. *)
Definition ToLower (s : bytes) : bytes := (λ c, if (65 <=? b2z c) && (b2z c <=? 90) then z2b (b2z c + 32) else c) <$> s.
Definition ToUpper (s : bytes) : bytes := (λ c, if (97 <=? b2z c) && (b2z c <=? 122) then z2b (b2z c - 32) else c) <$> s.

Definition validChainReference (reference : bytes) : bool :=
  match reference with
  | [] => false
  | c :: _ =>
      if (1 <? zlen reference) && (b2z c =? 48) then false
      else forallb (λ c, (48 <=? b2z c) && (b2z c <=? 57)) reference
  end.

Definition is_hex (c : byte) : bool :=
  (48 <=? b2z c) && (b2z c <=? 57) || (97 <=? b2z c) && (b2z c <=? 102) || (65 <=? b2z c) && (b2z c <=? 70).

Section Operations.
Context `{K : Keccak}.

Definition validateAddress (address : bytes) : outcome error unit :=
  if negb (zlen address =? 42) || negb (bool_decide (take 2 address = str_bytes "0x")) then Err ErrMalformedAddress
  else
    let payload := drop 2 address in
    if negb (forallb is_hex payload) then Err ErrMalformedAddress
    else if bool_decide (payload = ToLower payload) || bool_decide (payload = ToUpper payload) then Ok tt
    else
      let canonical := Secp256k1.ChecksumAddress (String.string_of_list_byte address) in
      if negb (ct_equal address (str_bytes canonical)) then Err ErrChecksumMismatch else Ok tt.

Definition ParseAccountID (s : bytes) : outcome error (bytes * bytes) :=
  let colonCount := Count s x3a in
  if negb (colonCount =? 2) then Err ErrInvalidComponentCount
  else
    match Split s x3a with
    | [namespace; reference; account] =>
        if negb (bool_decide (namespace = str_bytes "eip155")) then Err ErrUnsupportedNamespace
        else if negb (validChainReference reference) then Err ErrInvalidChainReference
        else
          _ ← validateAddress account;
          Ok (namespace ++ [x3a] ++ reference, account)
    | _ => Panic
    end.

Definition DocumentFor (d : DID) : outcome error Document :=
  if negb (bool_decide (path d = [])) || negb (bool_decide (query d = [])) || negb (bool_decide (fragment d = [])) ||
     (negb (bool_decide (original d = [])) && negb (IsDID (original d)))
  then Err ErrDIDURLNotSupported
  else if negb (bool_decide (method d = str_bytes "pkh")) then Err ErrWrongMethod
  else
    _ ← ParseAccountID (methodSpecificID d);
    let id := String.string_of_list_byte (original d) in
    Ok {| DocID := id;
          VerificationMethod :=
            [ {| MID := (id +:+ "#blockchainAccountId")%string;
                 MType := "EcdsaSecp256k1RecoveryMethod2020";
                 Controller := id;
                 BlockchainAccountId := String.string_of_list_byte (methodSpecificID d);
                 PublicKeyJWK := [];
                 PublicKeyMultibase := "" |} ];
          Services := [] |}.

(** [Resolver.Resolve]. *)
Definition Resolve (d : DID) : outcome error (option Document) := doc ← DocumentFor d; Ok (Some doc).

(** The value as an implementation of [did.Resolver]. *)
Definition resolver : Did.Resolver error := MkResolver Resolve.
End Operations.
End DidPkh.

Section Accounts.
Import DidPkh.
Context `{K : Keccak}.

(** ** Splitting *)

Lemma Split_app a s sep : sep ∉ a → Split (a ++ (sep :: s)) sep = a :: Split s sep.
Proof.
  induction a as [|c a IH]; intros Hn; cbn [app Split].
  - by rewrite bool_decide_eq_true_2.
  - rewrite bool_decide_eq_false_2 by (intros ->; apply Hn; left). by rewrite IH by (intros Hi; apply Hn; by right).
Qed.

Lemma Split_none a sep : sep ∉ a → Split a sep = [a].
Proof.
  induction a as [|c a IH]; intros Hn; cbn [Split]; [done|].
  rewrite bool_decide_eq_false_2 by (intros ->; apply Hn; left). by rewrite IH by (intros Hi; apply Hn; by right).
Qed.

Lemma Count_0 s sep : Count s sep = 0 ↔ sep ∉ s.
Proof.
  unfold Count. induction s as [|c s IH]; [split; [intros _; apply not_elem_of_nil|done]|].
  rewrite not_elem_of_cons. destruct (decide (c = sep)) as [->|Hc].
  - rewrite filter_cons_True by done. cbn [length]. split; [lia|naive_solver].
  - rewrite filter_cons_False by done. naive_solver.
Qed.

Lemma Count_app a b sep : Count (a ++ b) sep = Count a sep + Count b sep.
Proof. unfold Count. rewrite filter_app, length_app. lia. Qed.

Lemma Count_cons c s sep : Count (c :: s) sep = (if decide (c = sep) then 1 else 0) + Count s sep.
Proof.
  unfold Count. destruct (decide (c = sep)) as [E|E].
  - rewrite filter_cons_True by done. cbn [length]. lia.
  - by rewrite filter_cons_False by done.
Qed.

Lemma Count_split s sep n : 0 ≤ n → Count s sep = n + 1 →
  ∃ a b, s = a ++ (sep :: b) ∧ (sep ∉ a) ∧ Count b sep = n.
Proof.
  intros Hn. revert n Hn; induction s as [|c s IH]; intros n Hn.
  { intros HC. unfold Count in HC. cbn in HC. lia. }
  rewrite Count_cons.
  destruct (decide (c = sep)) as [->|Hc]; intros HC.
  - exists [], s. split_and!; [done|apply not_elem_of_nil|lia].
  - destruct (IH n Hn ltac:(lia)) as (a & b & -> & Ha & Hb). exists (c :: a), b. split_and!; [done| |done].
    rewrite not_elem_of_cons. done.
Qed.

(** Three components: exactly two separators. *)
Lemma Split_three s sep : Count s sep = 2 ↔
  ∃ a b c, s = a ++ (sep :: (b ++ (sep :: c))) ∧ (sep ∉ a) ∧ (sep ∉ b) ∧ (sep ∉ c) ∧ Split s sep = [a; b; c].
Proof.
  split.
  - intros HC. destruct (Count_split s sep 1 ltac:(lia) HC) as (a & s1 & -> & Ha & HC1).
    destruct (Count_split s1 sep 0 ltac:(lia) HC1) as (b & c & -> & Hb & HC2%Count_0).
    exists a, b, c. split_and!; try done. by rewrite !Split_app, Split_none.
  - intros (a & b & c & -> & Ha%Count_0 & Hb%Count_0 & Hc%Count_0 & _).
    rewrite Count_app, Count_cons, decide_True, Count_app, Count_cons, decide_True by done. lia.
Qed.

(** ** Chain references *)

Lemma decimal_digit c : (48 <=? b2z c) && (b2z c <=? 57) = true ↔ ∃ d, 0 ≤ d < 10 ∧ c = hex_digit d.
Proof.
  rewrite andb_true_iff, !Z.leb_le. split.
  - intros Hc. exists (b2z c - 48). split; [lia|]. unfold hex_digit. rewrite (proj2 (Z.ltb_lt _ _)) by lia.
    rewrite <- (z2b_b2z c) at 1. f_equal. lia.
  - intros (d & Hd & ->). unfold hex_digit. rewrite (proj2 (Z.ltb_lt _ _)), b2z_z2b_small by lia. lia.
Qed.

Lemma decimal_digits r : forallb (λ c, (48 <=? b2z c) && (b2z c <=? 57)) r = true ↔
  ∃ ds, Forall (λ d, 0 ≤ d < 10) ds ∧ r = hex_digit <$> ds.
Proof.
  induction r as [|c r IH]; cbn [forallb].
  - split; [intros _; by exists []|done].
  - rewrite andb_true_iff, decimal_digit, IH. split.
    + intros [(d & Hd & ->) (ds & Hds & ->)]. exists (d :: ds). by split; [constructor|].
    + intros ([|d ds] & HF & [= -> ->]). apply Forall_cons in HF as [? ?]. split; [by exists d|by exists ds].
Qed.

Lemma text_digits base n : 2 ≤ base → 0 < n → ∃ d ds, text base n = hex_digit <$> (d :: ds) ∧ 0 < d ∧
  Forall (λ d, 0 ≤ d < base) (d :: ds) ∧ digits_value base (d :: ds) = n.
Proof.
  intros Hb Hn. unfold text. rewrite (proj2 (Z.ltb_ge _ _)) by lia.
  destruct (digits_spec (S (Z.to_nat (BitLen n))) base (Z.abs n)) as (Hv & HF & Hh); [lia| |].
  { split; [lia|]. eapply Z.lt_trans; [apply BitLen_lt_pow|]. pose proof (BitLen_nonneg n).
    apply Z.pow_lt_mono_r; lia. }
  destruct Hh as (d & ds & E & Hd); [lia|]. exists d, ds. rewrite E in *. split_and!; try done. lia.
Qed.

Lemma text_of_digits base d ds : 2 ≤ base → Forall (λ d, 0 ≤ d < base) (d :: ds) → 0 < d →
  0 < digits_value base (d :: ds) ∧ text base (digits_value base (d :: ds)) = hex_digit <$> (d :: ds).
Proof.
  intros Hb HF Hd. set (v := digits_value base (d :: ds)).
  assert (Hv : 0 ≤ v) by (apply digits_value_nonneg; [lia|done]).
  destruct (digits_of_value (S (Z.to_nat (BitLen v))) base d ds Hb HF Hd) as [Hds Hp].
  { fold v. pose proof (BitLen_lt_pow v). pose proof (BitLen_nonneg v).
    eapply Z.le_lt_trans; [|apply (Z.pow_lt_mono_r 2 (BitLen v)); lia]. lia. }
  split; [done|]. unfold text. fold v in Hp. rewrite (proj2 (Z.ltb_ge _ _)) by lia. rewrite Z.abs_eq by lia.
  fold v in Hds. by rewrite Hds.
Qed.

(** A reference is valid exactly when it is the decimal text of a number. *)
Lemma validChainReference_text r : validChainReference r = true ↔ ∃ n, 0 ≤ n ∧ r = text 10 n.
Proof.
  destruct r as [|c r]; [split; [done|]|].
  { intros (n & Hn & E). destruct (Z.eq_dec n 0) as [->|]; [done|].
    destruct (text_digits 10 n) as (d & ds & Et & _); [lia..|]. by rewrite Et in E. }
  unfold validChainReference. destruct (Z.ltb_spec 1 (zlen (c :: r))) as [Hl|Hl]; cbn [andb].
  - destruct (Z.eqb_spec (b2z c) 48) as [Hc|Hc].
    + split; [done|]. intros (n & Hn & E). destruct (Z.eq_dec n 0) as [->|]; [by destruct r|].
      destruct (text_digits 10 n) as (d & ds & Et & Hd & HF & _); [lia..|]. rewrite Et in E. injection E as -> ->.
      apply Forall_cons in HF as [HF _]. unfold hex_digit in Hc. rewrite (proj2 (Z.ltb_lt _ _)), b2z_z2b_small in Hc by lia. lia.
    + rewrite decimal_digits. split.
      * intros ([|d ds] & HF & E); [done|]. assert (Hd : 0 < d).
        { injection E as -> _. apply Forall_cons in HF as [HF _].
          unfold hex_digit in Hc. rewrite (proj2 (Z.ltb_lt _ _)), b2z_z2b_small in Hc by lia. lia. }
        destruct (text_of_digits 10 d ds ltac:(lia) HF Hd) as [Hp Ht]. eexists. split; [|by rewrite E, Ht]. lia.
      * intros (n & Hn & E). destruct (Z.eq_dec n 0) as [->|]; [by destruct r; cbn in Hl; [lia|]|].
        destruct (text_digits 10 n) as (d & ds & Et & _ & HF & _); [lia..|]. exists (d :: ds). by rewrite E, Et.
  - destruct r; [|cbn in Hl; lia]. cbn [forallb]. rewrite andb_true_r, decimal_digit. split.
    + intros (d & Hd & ->). exists d. split; [lia|].
      destruct (Z.eq_dec d 0) as [->|]; [done|].
      destruct (text_of_digits 10 d []) as [_ Ht]; [lia|by repeat constructor; lia|lia|].
      replace (digits_value 10 [d]) with d in Ht by (unfold digits_value; simpl; lia). by rewrite Ht.
    + intros (n & Hn & E). destruct (Z.eq_dec n 0) as [->|]; [exists 0; by injection E as ->|].
      destruct (text_digits 10 n) as (d & ds & Et & _ & HF & _); [lia..|]. rewrite Et in E. injection E as -> E.
      apply Forall_cons in HF as [? _]. eauto.
Qed.
End Accounts.

(** ** Addresses *)

Section Addresses.
Import DidPkh.
Context `{K : Keccak}.

Lemma is_hex_value c : is_hex c = bool_decide (is_Some (hex_value c)).
Proof.
  apply eqb_prop. revert c.
  apply (by_bytes (λ c, Bool.eqb (is_hex c) (bool_decide (is_Some (hex_value c))))). vm_compute. reflexivity.
Qed.

Lemma forallb_is_hex n s : (length s ≤ n)%nat → (length s mod 2 = 0)%nat →
  forallb is_hex s = true ↔ is_Some (unhex_bytes s).
Proof.
  revert s; induction n as [|n IH]; intros [|a [|b s]] Hn Hm; cbn in Hn; try lia; [by split..|done|].
  cbn [forallb unhex_bytes]. rewrite !andb_true_iff, !is_hex_value, !bool_decide_eq_true, IH; [|lia|].
  - destruct (hex_value a), (hex_value b), (unhex_bytes s); cbn;
      (split; [intros (?&?&?)|intros [? ?]; split_and!]); try done; try by eexists; match goal with H : is_Some None |- _ => by destruct H end.
  - cbn [length] in Hm. replace (S (S (length s)))%nat with (length s + 1 * 2)%nat in Hm by lia.
    by rewrite Nat.Div0.mod_add in Hm.
Qed.

(** A hexadecimal string is its image under [f] exactly when it has no letter [f]
    changes. *)
Lemma map_fixed (f : byte → byte) (p : byte → bool) t :
  forallb (λ c, implb (is_hex c) (Bool.eqb (Byte.eqb c (f c)) (negb (p c)))) all_bytes = true →
  forallb is_hex t = true → bool_decide (t = f <$> t) = negb (existsb p t).
Proof.
  intros Hf Hh. induction t as [|c t IH]; [done|]. cbn [forallb] in Hh. apply andb_true_iff in Hh as [Hc Ht].
  specialize (IH Ht). pose proof (by_bytes _ Hf c) as Hcase. cbn beta in Hcase. rewrite Hc in Hcase.
  cbn [implb] in Hcase. apply eqb_prop in Hcase. cbn [existsb fmap list_fmap].
  rewrite negb_orb, <- Hcase, <- IH. destruct (Byte.eqb c (f c)) eqn:E.
  - apply Byte.byte_dec_bl in E. rewrite <- E. cbn [andb]. apply bool_decide_ext. split; [by intros [=]|by intros <-].
  - cbn [andb]. apply bool_decide_eq_false. intros [= E' _]. rewrite Byte.byte_dec_lb in E; congruence.
Qed.

(** One case only: no capital or no small hexadecimal letter. *)
Lemma one_case t : forallb is_hex t = true →
  bool_decide (t = ToLower t) || bool_decide (t = ToUpper t) = negb (mixed_case t).
Proof.
  intros Hh. unfold ToLower, ToUpper. rewrite (map_fixed _ upper_digit), (map_fixed _ lower_digit) by (done || (vm_compute; reflexivity)).
  unfold mixed_case. by rewrite negb_andb.
Qed.

Lemma ChecksumAddress_digits t a : unhex_bytes t = Some (arr20 a) → Secp256k1.TrimPrefix t (str_bytes "0X") = t →
  str_bytes (Secp256k1.ChecksumAddress (String.string_of_list_byte (str_bytes "0x" ++ t))) = str_bytes "0x" ++ Ethereum.Hex_digits a.
Proof.
  intros Hu Ht. unfold Secp256k1.ChecksumAddress. rewrite str_bytes_of_list, TrimPrefix_app, Ht, Hu.
  rewrite arr20_length. change (negb (Z.of_nat 20 =? 20)) with false. cbv iota.
  rewrite checksum_Hex. unfold Ethereum.Hex. by rewrite str_bytes_app, str_bytes_of_list.
Qed.

Lemma no_0X t : forallb is_hex t = true → Secp256k1.TrimPrefix t (str_bytes "0X") = t.
Proof.
  intros Hh. unfold Secp256k1.TrimPrefix. case_bool_decide as E; [|done]. exfalso.
  destruct t as [|a [|b t]]; [done..|]. cbn [length str_bytes] in E.
  assert (b = x58) as -> by (vm_compute in E; congruence). cbn [forallb] in Hh.
  rewrite !andb_true_iff in Hh. by destruct Hh as (_ & Hb & _).
Qed.

(** The address rule of did:pkh: 42 characters with the prefix 0x, and otherwise
    exactly the rule of [ethereum.ParseAddress]. *)
Lemma validateAddress_spec s : validateAddress s = Ok tt ↔
  ∃ t a, s = str_bytes "0x" ++ t ∧ unhex_bytes t = Some (arr20 a) ∧ (mixed_case t = true → t = Ethereum.Hex_digits a).
Proof.
  unfold validateAddress. split.
  - destruct (Z.eqb_spec (zlen s) 42) as [Hl|]; [|done]. cbn [negb orb].
    destruct (bool_decide_reflect (take 2 s = str_bytes "0x")) as [Hp|]; [|done]. cbn [negb].
    destruct (forallb is_hex (drop 2 s)) eqn:Hh; [|done]. cbn [negb].
    assert (Hl' : length (drop 2 s) = 40%nat) by (rewrite length_drop; lia).
    destruct (proj1 (forallb_is_hex 40 (drop 2 s) ltac:(lia) ltac:(by rewrite Hl')) Hh) as [b Hb].
    pose proof (unhex_length _ _ Hb) as Hlb. rewrite <- (arr20_copy20 b) in Hb by lia.
    rewrite one_case by done. intros Hm. exists (drop 2 s), (copy20 b). rewrite <- Hp, take_drop. split_and!; [done..|].
    intros Hmix. rewrite Hmix in Hm. cbn [negb] in Hm.
    rewrite <- (take_drop 2 s), Hp, (ChecksumAddress_digits _ (copy20 b)) in Hm by (done || by apply no_0X).
    destruct (ct_equal _ _) eqn:E in Hm; [|done]. apply ct_equal_true, app_inv_head in E. done.
  - intros (t & a & -> & Hu & Hm). pose proof (unhex_length _ _ Hu) as Hl. rewrite arr20_length in Hl.
    rewrite (proj2 (Z.eqb_eq _ _)) by (rewrite length_app, Hl; reflexivity).
    assert (Hh : forallb is_hex t = true) by (apply (forallb_is_hex 40); [lia|by rewrite Hl|by eexists]).
    change (take 2 (str_bytes "0x" ++ t)) with (str_bytes "0x"). change (drop 2 (str_bytes "0x" ++ t)) with t.
    rewrite bool_decide_eq_true_2 by done. cbn [negb orb]. rewrite Hh. cbn [negb]. rewrite one_case by done.
    destruct (mixed_case t); [|done]. cbn [negb].
    rewrite (ChecksumAddress_digits _ a) by (done || by apply no_0X). rewrite <- Hm by done. by rewrite ct_equal_refl.
Qed.
End Addresses.

(** ** Account identifiers *)

Section Identifiers.
Import DidPkh.
Context `{K : Keccak}.

(** An account identifier of chain [n] and the account string [acct]. *)
Definition chain_of (n : Z) : bytes := str_bytes "eip155:" ++ text 10 n.
Definition account_id (n : Z) (acct : bytes) : bytes := chain_of n ++ [x3a] ++ acct.

(** An account string: the prefix 0x and what [ethereum.ParseAddress] accepts. *)
Definition account (acct : bytes) (a : Ethereum.Address) : Prop :=
  take 2 acct = str_bytes "0x" ∧ Ethereum.ParseAddress (String.string_of_list_byte acct) = Ok a.

Lemma validateAddress_account acct : validateAddress acct = Ok tt ↔ ∃ a, account acct a.
Proof.
  rewrite validateAddress_spec. split.
  - intros (t & a & -> & Hu & Hm). exists a. split; [done|]. apply ParseAddress_spec.
    by rewrite str_bytes_of_list, TrimPrefix_app.
  - intros (a & Hp & Ha). exists (drop 2 acct), a. rewrite <- Hp, take_drop. split; [done|].
    apply ParseAddress_spec in Ha. rewrite str_bytes_of_list in Ha.
    rewrite <- (take_drop 2 acct), Hp, TrimPrefix_app in Ha. done.
Qed.

(** The characters of the two variable parts. *)
Definition plain (c : byte) : bool := is_hex c || bool_decide (c = x78).

Lemma reference_plain n : 0 ≤ n → forallb plain (text 10 n) = true ∧ text 10 n ≠ [].
Proof.
  intros Hn. assert (Hv : validChainReference (text 10 n) = true) by (apply validChainReference_text; eauto).
  destruct (text 10 n) as [|c r]; [done|]. split; [|done]. unfold validChainReference in Hv.
  destruct (_ && _) in Hv; [done|]. rewrite forallb_forall in Hv |- *. intros x Hx. unfold plain, is_hex. by rewrite Hv.
Qed.

Lemma account_plain acct a : account acct a → forallb plain acct = true.
Proof.
  intros [Hp Ha]. assert (HV : validateAddress acct = Ok tt) by (apply validateAddress_account; by exists a).
  unfold validateAddress in HV. destruct (_ || _) in HV; [done|]. destruct (forallb is_hex (drop 2 acct)) eqn:Hh; [|done].
  rewrite <- (take_drop 2 acct), forallb_app, Hp. apply andb_true_iff. split; [reflexivity|].
  rewrite forallb_forall in Hh |- *. intros x Hx. unfold plain. by rewrite Hh.
Qed.

Lemma plain_no_colon s : forallb plain s = true → x3a ∉ s.
Proof. rewrite forallb_forall. intros Hp Hin%list_elem_of_In%Hp. discriminate Hin. Qed.

(** [ParseAccountID] accepts exactly "eip155:", the canonical decimal text of a chain
    number, ":" and an address string with the prefix 0x that [ethereum.ParseAddress]
    accepts, and splits it at the last colon. *)
Lemma ParseAccountID_spec s chain acct :
  ParseAccountID s = Ok (chain, acct) ↔
  ∃ n a, 0 ≤ n ∧ account acct a ∧ chain = chain_of n ∧ s = account_id n acct.
Proof.
  unfold ParseAccountID. split.
  - destruct (Z.eqb_spec (Count s x3a) 2) as [HC|]; [|done]. cbn [negb].
    apply Split_three in HC as (ns & r & t & -> & _ & _ & _ & ->).
    destruct (bool_decide_reflect (ns = str_bytes "eip155")) as [->|]; [|done]. cbn [negb].
    destruct (validChainReference r) eqn:Hr; [|done]. cbn [negb]. apply validChainReference_text in Hr as (n & Hn & ->).
    rewrite bind_Ok. intros ([] & (a & Ha)%validateAddress_account & [= <- <-]). exists n, a. by split_and!.
  - intros (n & a & Hn & Ha & -> & ->). destruct (reference_plain n Hn) as [Hr%plain_no_colon _].
    pose proof (plain_no_colon _ (account_plain _ _ Ha)) as Hc.
    assert (HS : account_id n acct = str_bytes "eip155" ++ (x3a :: (text 10 n ++ (x3a :: acct)))).
    { unfold account_id, chain_of. by rewrite <- !app_assoc. }
    assert (Hns : x3a ∉ str_bytes "eip155") by (apply Count_0; reflexivity).
    assert (HC : Count (account_id n acct) x3a = 2).
    { apply Split_three. exists (str_bytes "eip155"), (text 10 n), acct. rewrite HS. split_and!; try done.
      by rewrite !Split_app, Split_none. }
    rewrite HC, HS, !Split_app, Split_none by done. change (negb (2 =? 2)) with false. cbv iota.
    rewrite bool_decide_eq_true_2 by done. cbn [negb].
    rewrite (proj2 (validChainReference_text _)) by eauto. cbn [negb].
    rewrite (proj2 (validateAddress_account acct)) by eauto. done.
Qed.
End Identifiers.

(** ** Documents *)

Section Documents.
Import DidPkh.
Context `{K : Keccak}.

(** The document of the DID [s] for the account [msid]. *)
Definition pkh_document (s msid : bytes) : Document :=
  let id := String.string_of_list_byte s in
  {| DocID := id;
     VerificationMethod :=
       [ {| MID := (id +:+ "#blockchainAccountId")%string;
            MType := "EcdsaSecp256k1RecoveryMethod2020";
            Controller := id;
            BlockchainAccountId := String.string_of_list_byte msid;
            PublicKeyJWK := [];
            PublicKeyMultibase := "" |} ];
     Services := [] |}.

(** Characters that keep the parser inside the method-specific id. *)
Definition id_char (c : byte) : bool :=
  negb (one_of "/?#" c) && (bool_decide (c = x3a) || (negb (bool_decide (c = x25)) && has_class c charID)).

Lemma id_loop fuel s i v : state v = stateID → 0 ≤ i → zlen s - i ≤ Z.of_nat fuel →
  (∀ j, i ≤ j < zlen s → id_char (at_ s j) = true) → parse_loop fuel s i v = Ok v.
Proof.
  intros Hs. revert i. induction fuel as [|fuel IH]; intros i Hi Hf Hc; cbn [parse_loop].
  - by rewrite (proj2 (Z.ltb_ge _ _)) by lia.
  - destruct (Z.ltb_spec i (zlen s)) as [Hlt|]; [|done].
    assert (step s i v = Ok (v, i + 1)) as ->.
    { unfold step. rewrite Hs. specialize (Hc i ltac:(lia)). unfold id_char in Hc. apply andb_true_iff in Hc as [Hd Hc].
      apply negb_true_iff in Hd. rewrite Hd. destruct (bool_decide (at_ s i = x3a)); [done|]. cbn [orb] in Hc.
      apply andb_true_iff in Hc as [Hp Hc]. unfold advance, validEscapedOr. by rewrite Hp, Hc. }
    cbn [mbind outcome_bind fst snd]. apply IH; [lia..|]. intros j Hj. apply Hc. lia.
Qed.

Lemma last_lookup_default (c : byte) l d : List.last (c :: l) d = default d ((c :: l) !! length l).
Proof. revert c; induction l as [|x l IH]; intros c; [done|]. apply IH. Qed.

(** A did:pkh string of identifier characters parses to a bare DID. *)
Lemma parse_pkh c msid : forallb id_char (c :: msid) = true → List.last (c :: msid) x00 ≠ x3a →
  let s := str_bytes "did:pkh:" ++ c :: msid in
  parse s = Ok {| original := s; method := str_bytes "pkh"; methodSpecificID := c :: msid;
                  path := []; query := []; fragment := []; isURL := false |}.
Proof.
  intros Hid Hlast s. assert (Hlen : zlen s = 8 + zlen (c :: msid)) by (unfold s; rewrite length_app, Nat2Z.inj_add; reflexivity).
  assert (Hat : ∀ j, 8 ≤ j → at_ s j = default x00 ((c :: msid) !! Z.to_nat (j - 8))).
  { intros j Hj. unfold at_, s. rewrite lookup_app_r by (cbn; lia). do 2 f_equal. cbn. lia. }
  set (v := Vars stateID 7 8 (-1) (-1) (-1) (-1) false).
  assert (HL : parse_loop (length s) s 4 init_vars = Ok v).
  { assert (H4 : ∃ f, length s = S (S (S (S f))) ∧ zlen s - 8 ≤ Z.of_nat f) by (exists (length s - 4)%nat; lia).
    destruct H4 as (f & Ef & Hf). rewrite Ef.
    assert (Hlt : ∀ i, i < 9 → (i <? zlen s) = true) by (intros i Hi; apply Z.ltb_lt; cbn [length] in Hlen; lia).
    cbn [parse_loop]. rewrite !Hlt by done. cbn [mbind outcome_bind fst snd Z.add Pos.add].
    change (step s 4 init_vars) with (Ok (E := Did.error) (init_vars, 5)). cbn [fst snd mbind outcome_bind].
    rewrite Hlt by done. change (step s 5 init_vars) with (Ok (E := Did.error) (init_vars, 6)). cbn [fst snd mbind outcome_bind].
    rewrite Hlt by done. change (step s 6 init_vars) with (Ok (E := Did.error) (init_vars, 7)). cbn [fst snd mbind outcome_bind].
    rewrite Hlt by done. change (step s 7 init_vars) with (Ok (E := Did.error) (v, 8)). cbn [fst snd mbind outcome_bind].
    apply id_loop; [done|lia|lia|]. intros j Hj. rewrite Hat by lia.
    destruct ((c :: msid) !! Z.to_nat (j - 8)) as [x|] eqn:Hx.
    - rewrite forallb_forall in Hid. apply Hid, list_elem_of_In. by eapply list_elem_of_lookup_2.
    - apply lookup_ge_None in Hx. lia. }
  unfold parse. rewrite HL. rewrite (proj2 (Z.ltb_ge _ _)) by (cbn [length] in Hlen; lia).
  change (take 4 s) with (str_bytes "did:"). rewrite bool_decide_eq_true_2 by done. cbn [negb orb mbind outcome_bind].
  change (is_state_method v) with false. cbv iota. cbn [idStart idEnd v].
  rewrite (proj2 (Z.eqb_neq _ _)) by (cbn [length] in Hlen; lia). cbn [orb Z.ltb Z.compare andb].
  rewrite bool_decide_eq_false_2.
  2: { rewrite Hat by (cbn [length] in Hlen; lia).
       replace (Z.to_nat (zlen s - 1 - 8)) with (length msid) by (cbn [length] in Hlen; lia).
       intros E. apply Hlast. rewrite last_lookup_default. exact E. }
  f_equal. unfold sub. f_equal.
  transitivity (take (Z.to_nat (zlen s - 8)) (c :: msid)); [reflexivity|].
  apply take_ge. lia.
Qed.

Lemma plain_id_char c : plain c = true → id_char c = true.
Proof.
  pose proof (by_bytes (λ c, implb (plain c) (id_char c))) as Hb. specialize (Hb ltac:(vm_compute; reflexivity) c).
  cbn beta in Hb. by destruct (plain c).
Qed.

Lemma forallb_plain_id s : forallb plain s = true → forallb id_char s = true.
Proof. rewrite !forallb_forall. intros Hp x Hx. by apply plain_id_char, Hp. Qed.

Lemma account_id_chars n acct a : 0 ≤ n → account acct a →
  ∃ c l, account_id n acct = c :: l ∧ forallb id_char (c :: l) = true ∧ List.last (c :: l) x00 ≠ x3a.
Proof.
  intros Hn Ha. destruct (reference_plain n Hn) as [Hr _]. pose proof (account_plain _ _ Ha) as Hp.
  exists x65, (str_bytes "ip155:" ++ text 10 n ++ [x3a] ++ acct). split_and!.
  - unfold account_id, chain_of. by rewrite <- app_assoc.
  - change (x65 :: str_bytes "ip155:" ++ ?l) with (str_bytes "eip155:" ++ l).
    rewrite !forallb_app, (forallb_plain_id (text 10 n)), (forallb_plain_id acct) by done. reflexivity.
  - destruct Ha as [Ha _]. destruct acct as [|x acct] using rev_ind; [done|]. clear IHacct.
    rewrite !app_assoc, app_comm_cons, last_last. intros ->.
    apply (plain_no_colon _ Hp). apply elem_of_app. right. by apply list_elem_of_singleton.
Qed.

(** A string is a DID with a did:pkh document exactly when it is "did:pkh:" and an
    account identifier; the document then carries the DID and the account identifier
    letter for letter. *)
Theorem DocumentFor_iff s doc :
  (∃ d, parse s = Ok d ∧ DocumentFor d = Ok doc) ↔
  ∃ n acct a, 0 ≤ n ∧ account acct a ∧ s = str_bytes "did:pkh:" ++ account_id n acct ∧
    doc = pkh_document s (account_id n acct).
Proof.
  split.
  - intros (d & Hp & HD). destruct (parse_spells s) as [(e & He)|(d' & Hp' & q & f & Ho & Hs & _ & _ & Hb & _)]; [congruence|].
    rewrite Hp in Hp'. injection Hp' as <-. unfold DocumentFor in HD.
    destruct (_ || _) eqn:Hg in HD; [done|]. apply orb_false_iff in Hg as [_ Hg].
    destruct (bool_decide_reflect (method d = str_bytes "pkh")) as [Hm|]; [|done]. cbn [negb] in HD.
    apply bind_Ok in HD as ([chain acct] & (n & a & Hn & Ha & _ & Hid)%ParseAccountID_spec & [= <-]).
    exists n, acct, a. rewrite <- Hid, Ho. split_and!; try done.
    assert (isURL d = false) as Hu.
    { rewrite Ho in Hg. unfold IsDID in Hg. rewrite Hp in Hg. destruct (isURL d); [|done]. cbn [negb] in Hg.
      rewrite andb_true_r, negb_false_iff, bool_decide_eq_true in Hg. rewrite Hg in Hs. discriminate Hs. }
    apply Hb in Hu. rewrite Hu, app_nil_r, Hm in Hs. exact Hs.
  - intros (n & acct & a & Hn & Ha & -> & ->). destruct (account_id_chars n acct a Hn Ha) as (c & l & Hid & Hc & Hl).
    pose proof (parse_pkh c l Hc Hl) as Hp. cbn zeta in Hp. rewrite <- Hid in Hp.
    eexists. split; [exact Hp|]. unfold DocumentFor. cbn [path query fragment original method methodSpecificID].
    rewrite !(bool_decide_eq_true_2 ([] = [])) by done. unfold IsDID. rewrite Hp. cbn [isURL negb orb].
    rewrite andb_false_r, bool_decide_eq_true_2 by done. cbn [negb].
    rewrite (proj2 (ParseAccountID_spec (account_id n acct) (chain_of n) acct)) by eauto 8. reflexivity.
Qed.

(** [ParseAccountID] accepts exactly "eip155:", the canonical decimal text of a chain
    number, ":" and an address string with the prefix 0x that [ethereum.ParseAddress]
    accepts, and splits it at the last colon. *)
Theorem ParseAccountID_iff s chain acct :
  ParseAccountID s = Ok (chain, acct) ↔
  ∃ n a, 0 ≤ n ∧ account acct a ∧ chain = chain_of n ∧ s = account_id n acct.
Proof. apply ParseAccountID_spec. Qed.
End Documents.
