(* ===== verification/CryptoKeys.v ===== *)
(** * The key packages of [crypto]

    A translation of src/crypto/rsa, src/crypto/ecdsa, src/crypto/ed25519,
    src/crypto/x25519 and src/crypto/rand, and of the SHA-3 and BLAKE3 digests of
    src/crypto/hash: the wrappers around the key types of the
    standard library, their constructors and methods.  The primitives behind them are
    the classes [RsaLib], [EcdsaLib], [Ed25519Lib] and [X25519Lib]; a primitive that
    draws randomness acts on the world.  A nil pointer is [None], and a method that
    dereferences one panics. *)
From S2P Require Import Prelude Sha256 GoBig GoIO Canonical Signature Binder.
Import Signature.
#[local] Open Scope Z_scope.

(** ** SHA-384 and SHA-512

    The two other hashes a key is bound to ([crypto.Hash.New]), written out after FIPS
    180-4 so that concrete inputs evaluate, and the class [Digest] of what the key
    packages use: one function per hash. *)

(** [h := hash.New(); h.Write(message); h.Sum(nil)]. *)
Class Digest : Type := hash_sum : Hash → bytes → bytes.

Module Sha512.

Definition w64 (z : Z) : Z := Z.land z 0xffffffffffffffff.
Definition rotr (n x : Z) : Z := w64 (Z.lor (Z.shiftr x n) (Z.shiftl x (64 - n))).

Definition Sigma0 (x : Z) : Z := Z.lxor (Z.lxor (rotr 28 x) (rotr 34 x)) (rotr 39 x).
Definition Sigma1 (x : Z) : Z := Z.lxor (Z.lxor (rotr 14 x) (rotr 18 x)) (rotr 41 x).
Definition sigma0 (x : Z) : Z := Z.lxor (Z.lxor (rotr 1 x) (rotr 8 x)) (Z.shiftr x 7).
Definition sigma1 (x : Z) : Z := Z.lxor (Z.lxor (rotr 19 x) (rotr 61 x)) (Z.shiftr x 6).

(** The first 64 bits of the fractional parts of the cube roots of the first 80 primes,
    of the square roots of the first 8 (SHA-512) and of the next 8 (SHA-384). *)
Definition primes : list Z := Z.of_nat <$> List.filter Sha256.is_prime (seq 2 410).
Definition frac_root (e p : Z) : Z := Sha256.iroot e 72 (p * 2 ^ (64 * e)) 0 `mod` 2 ^ 64.

Definition K : list Z := Eval vm_compute in frac_root 3 <$> firstn 80 primes.
Definition H512 : list Z := Eval vm_compute in frac_root 2 <$> firstn 8 primes.
Definition H384 : list Z := Eval vm_compute in frac_root 2 <$> firstn 8 (skipn 8 primes).

(** Padding to a multiple of 128 bytes: 0x80, zeros, the bit length in 16 bytes. *)
Definition pad (m : bytes) : bytes :=
  m ++ [z2b 0x80] ++ replicate (Z.to_nat ((111 - zlen m) `mod` 128)) x00 ++ be_bytes 16 (8 * zlen m).

Fixpoint words (fuel : nat) (bs : bytes) : list Z :=
  match fuel with
  | O => []
  | S f => be_value (take 8 bs) :: words f (drop 8 bs)
  end.

(** The message schedule, most recent word first. *)
Fixpoint schedule (n : nat) (rw : list Z) : list Z :=
  match n with
  | O => rev rw
  | S m =>
      let w := w64 (sigma1 (nth 1 rw 0) + nth 6 rw 0 + sigma0 (nth 14 rw 0) + nth 15 rw 0) in
      schedule m (w :: rw)
  end.

Definition round (st : list Z) (kw : Z * Z) : list Z :=
  match st with
  | [a; b; c; d; e; f; g; h] =>
      let t1 := h + Sigma1 e + Sha256.Ch e f g + kw.1 + kw.2 in
      let t2 := Sigma0 a + Sha256.Maj a b c in
      [w64 (t1 + t2); a; b; c; w64 (d + t1); e; f; g]
  | _ => st
  end.

Definition block (st : list Z) (bs : bytes) : list Z :=
  let ws := schedule 64 (rev (words 16 bs)) in
  zip_with (λ x y, w64 (x + y)) st (foldl round st (zip K ws)).

Fixpoint blocks (n : nat) (st : list Z) (bs : bytes) : list Z :=
  match n with
  | O => st
  | S m => blocks m (block st (take 128 bs)) (drop 128 bs)
  end.

Definition digest (iv : list Z) (m : bytes) : bytes :=
  let p := pad m in mjoin (be_bytes 8 <$> blocks (length p / 128) iv p).

Definition Sum512 (m : bytes) : bytes := digest H512 m.
Definition Sum384 (m : bytes) : bytes := take 48 (digest H384 m).

Example sum384_abc : hex_encode (Sum384 (str_bytes "abc")) =
  "cb00753f45a35e8bb5a03d699ac65007272c32ab0eded1631a8b605a43ff5bed8086072ba1e7cc2358baeca134c825a7".
Proof. vm_compute. reflexivity. Qed.

Example sum512_abc : hex_encode (take 16 (Sum512 (str_bytes "abc"))) = "ddaf35a193617abacc417349ae204131".
Proof. vm_compute. reflexivity. Qed.
End Sha512.

(** The hashes the process has linked in; any other panics in [New], and no
    constructor accepts it. *)
#[global] Instance go_digest `{Hasher} : Digest := λ h m,
  match h with
  | SHA256 => arr (Sum m)
  | SHA384 => Sha512.Sum384 m
  | SHA512 => Sha512.Sum512 m
  | OtherHash _ => []
  end.

(** ** The other digests of [crypto/hash] *)

(** golang.org/x/crypto/sha3 and github.com/zeebo/blake3; a keyed hash exists for some
    keys only. *)
Class ExtraHashes : Type := {
  sha3_sum256 : bytes → array32;
  blake3_sum256 : bytes → array32;
  blake3_keyed : bytes → bytes → option bytes
}.

Module ExtraHash.
Inductive error : Type := ErrKeyLength | ErrNewKeyed.

Section Operations.
Context `{X : ExtraHashes}.

Definition SHA3_256_Sum (data : bytes) : array32 := sha3_sum256 data.
Definition SHA3_256_SumBytes (data : bytes) : bytes := arr (SHA3_256_Sum data).
Definition BLAKE3_Sum (data : bytes) : array32 := blake3_sum256 data.
Definition BLAKE3_SumBytes (data : bytes) : bytes := arr (BLAKE3_Sum data).

Definition KeyedSum (key data : bytes) : outcome error bytes :=
  if negb (zlen key =? 32) then Err ErrKeyLength
  else match blake3_keyed key data with Some h => Ok h | None => Err ErrNewKeyed end.
End Operations.
End ExtraHash.

(** [crypto/rand.Read] of [n] bytes. *)
Class Random (W : Type) : Type := rand_read : Z → ext W unit bytes.

(** The standard library's RSA keys. *)
Record StdRsaPublic : Type := MkRsaPublic { RsaN : option Z; RsaE : Z }.
Record StdRsaPrivate : Type := MkRsaPrivate { RsaPub : StdRsaPublic; RsaD : option Z }.

(** crypto/rsa, with the salt length as [PSSOptions] has it. *)
Class RsaLib (W : Type) : Type := {
  rsa_generate : Z → ext W unit StdRsaPrivate;
  rsa_sign_pss : StdRsaPrivate → Hash → bytes → Z → ext W unit bytes;
  rsa_verify_pss : StdRsaPublic → Hash → bytes → bytes → Z → bool;
  rsa_sign_pkcs1 : StdRsaPrivate → Hash → bytes → ext W unit bytes;
  rsa_verify_pkcs1 : StdRsaPublic → Hash → bytes → bytes → bool
}.

(** The standard library's ECDSA keys; coordinates and scalars are never nil. *)
Record StdEcdsaPublic : Type := MkEcdsaPublic { EcCurve : Curve; EcX : Z; EcY : Z }.
Record StdEcdsaPrivate : Type := MkEcdsaPrivate { EcPub : StdEcdsaPublic; EcD : Z }.

Class EcdsaLib (W : Type) : Type := {
  ecdsa_generate : Curve → ext W unit StdEcdsaPrivate;
  ecdsa_sign : StdEcdsaPrivate → bytes → ext W unit bytes;
  ecdsa_verify : StdEcdsaPublic → bytes → bytes → bool
}.

(** crypto/ed25519 on the 64 bytes of a key, seed and public half. *)
Class Ed25519Lib : Type := {
  ed25519_key_from_seed : bytes → bytes;
  ed25519_sign : bytes → bytes → bytes;
  ed25519_verify : bytes → bytes → bytes → bool
}.

(** golang.org/x/crypto/curve25519: scalar times point, nothing for an all-zero product. *)
Class X25519Lib : Type := {
  curve25519_x25519 : bytes → bytes → option bytes;
  curve25519_basepoint : bytes
}.

(** The first 8 hex digits of a SHA-256 digest and three dots. *)
Definition fingerprint `{Hasher} (material : bytes) : bytes :=
  hex_bytes (take 4 (arr (Sum material))) ++ str_bytes "...".

Module Rand.
Inductive error : Type := ErrNegativeLength | ErrRead.

Definition Bytes `{Random W} (n : Z) : io W error bytes :=
  if n <? 0 then pure (Err ErrNegativeLength)
  else if n =? 0 then pure (Ok [])
  else run (λ _, ErrRead) (rand_read n).
End Rand.

Module Rsa.

Inductive error : Type := ErrKeyTooSmall | ErrUnsupportedHash | ErrNilKey | ErrGenerate | ErrSign.

Definition minKeyBits : Z := 2048.

(** The key of a PSS or a PKCS1v1.5 key, and the hash bound to it. *)
Record rsaPrivateKey : Type := MkPrivate { priv_key : option StdRsaPrivate; priv_hash : Hash }.
Record rsaPublicKey : Type := MkPublic { pub_key : option StdRsaPublic; pub_hash : Hash }.

(** SHA-384 and SHA-512 are linked in by the package itself. *)
Definition validateHash (hash : Hash) : outcome error unit :=
  match hash with
  | SHA256 | SHA384 | SHA512 => Ok tt
  | OtherHash _ => Err ErrUnsupportedHash
  end.

Definition validateKeySize (bits : Z) : outcome error unit :=
  if bits <? minKeyBits then Err ErrKeyTooSmall else Ok tt.

Definition constantTimeIntEqual (a b : Z) : bool := ct_equal (be_bytes 8 (u64 a)) (be_bytes 8 (u64 b)).

(** The modulus of a valid key. *)
Definition validatePrivateKey (key : option StdRsaPrivate) : outcome error Z :=
  match key with
  | None => Err ErrNilKey
  | Some k =>
      match RsaN (RsaPub k) with
      | None => Err ErrNilKey
      | Some n => match RsaD k with None => Err ErrNilKey | Some _ => Ok n end
      end
  end.

Definition validatePublicKey (key : option StdRsaPublic) : outcome error Z :=
  match key with
  | None => Err ErrNilKey
  | Some k => match RsaN k with None => Err ErrNilKey | Some n => Ok n end
  end.

(** Dereferencing. *)
Definition deref {A} (p : option A) : outcome error A := match p with Some a => Ok a | None => Panic end.

Definition modulus (r : rsaPublicKey) : outcome error Z := k ← deref (pub_key r); deref (RsaN k).
Definition exponent (r : rsaPublicKey) : outcome error Z := k ← deref (pub_key r); Ok (RsaE k).
Definition PublicHash (r : rsaPublicKey) : Hash := pub_hash r.
Definition PrivateHash (r : rsaPrivateKey) : Hash := priv_hash r.

(** A copy of the key, nil for none. *)
Definition StdKey (r : rsaPrivateKey) : outcome error (option StdRsaPrivate) :=
  match priv_key r with
  | None => Ok None
  | Some k => n ← deref (RsaN (RsaPub k)); d ← deref (RsaD k); Ok (Some (MkRsaPrivate (MkRsaPublic (Some n) (RsaE (RsaPub k))) (Some d)))
  end.

Section Methods.
Context `{R : RsaLib W, H : Hasher, G : Digest}.

(** *** PSS *)

Definition PSSPublic (priv : rsaPrivateKey) : outcome error rsaPublicKey :=
  k ← deref (priv_key priv); Ok (MkPublic (Some (RsaPub k)) (priv_hash priv)).

Definition GeneratePSSKey (bits : Z) (hash : Hash) : io W error (rsaPrivateKey * rsaPublicKey) :=
  _ ← pure (validateKeySize bits);
  _ ← pure (validateHash hash);
  key ← run (λ _, ErrGenerate) (rsa_generate bits);
  let priv := MkPrivate (Some key) hash in
  pub ← pure (PSSPublic priv);
  mret (priv, pub).

Definition NewPSSPrivateKey (key : option StdRsaPrivate) (hash : Hash) : outcome error rsaPrivateKey :=
  n ← validatePrivateKey key;
  _ ← validateKeySize (BitLen n);
  _ ← validateHash hash;
  Ok (MkPrivate key hash).

Definition NewPSSPublicKey (key : option StdRsaPublic) (hash : Hash) : outcome error rsaPublicKey :=
  n ← validatePublicKey key;
  _ ← validateKeySize (BitLen n);
  _ ← validateHash hash;
  Ok (MkPublic key hash).

(** [PSSSaltLengthEqualsHash]. *)
Definition saltLength : Z := -1.

Definition PSSSign (priv : rsaPrivateKey) (message : bytes) : io W error bytes :=
  k ← pure (deref (priv_key priv));
  run (λ _, ErrSign) (rsa_sign_pss k (priv_hash priv) (hash_sum (priv_hash priv) message) saltLength).

Definition PSSVerify (pub : rsaPublicKey) (signature message : bytes) : outcome error bool :=
  k ← deref (pub_key pub);
  Ok (rsa_verify_pss k (pub_hash pub) (hash_sum (pub_hash pub) message) signature saltLength).

Definition PSSPrivateRedact (priv : rsaPrivateKey) : outcome error bytes :=
  k ← deref (priv_key priv); d ← deref (RsaD k); Ok (fingerprint (big_bytes d)).

Definition PSSPublicRedact (pub : rsaPublicKey) : outcome error bytes :=
  k ← deref (pub_key pub); n ← deref (RsaN k); Ok (fingerprint (big_bytes n)).

Definition PSSEqual (pub : rsaPublicKey) (other : option rsaPublicKey) : outcome error bool :=
  match other with
  | None => Ok false
  | Some o =>
      k ← deref (pub_key pub); k' ← deref (pub_key o);
      n ← deref (RsaN k); n' ← deref (RsaN k');
      Ok (ct_equal (big_bytes n) (big_bytes n') && constantTimeIntEqual (RsaE k) (RsaE k'))
  end.

(** *** PKCS1v1.5 *)

Definition PKCS1Public (priv : rsaPrivateKey) : outcome error rsaPublicKey :=
  k ← deref (priv_key priv); Ok (MkPublic (Some (RsaPub k)) (priv_hash priv)).

Definition GeneratePKCS1Key (bits : Z) (hash : Hash) : io W error (rsaPrivateKey * rsaPublicKey) :=
  _ ← pure (validateKeySize bits);
  _ ← pure (validateHash hash);
  key ← run (λ _, ErrGenerate) (rsa_generate bits);
  let priv := MkPrivate (Some key) hash in
  pub ← pure (PKCS1Public priv);
  mret (priv, pub).

Definition NewPKCS1PrivateKey (key : option StdRsaPrivate) (hash : Hash) : outcome error rsaPrivateKey :=
  n ← validatePrivateKey key;
  _ ← validateKeySize (BitLen n);
  _ ← validateHash hash;
  Ok (MkPrivate key hash).

Definition NewPKCS1PublicKey (key : option StdRsaPublic) (hash : Hash) : outcome error rsaPublicKey :=
  n ← validatePublicKey key;
  _ ← validateKeySize (BitLen n);
  _ ← validateHash hash;
  Ok (MkPublic key hash).

Definition PKCS1Sign (priv : rsaPrivateKey) (message : bytes) : io W error bytes :=
  k ← pure (deref (priv_key priv));
  run (λ _, ErrSign) (rsa_sign_pkcs1 k (priv_hash priv) (hash_sum (priv_hash priv) message)).

Definition PKCS1Verify (pub : rsaPublicKey) (signature message : bytes) : outcome error bool :=
  k ← deref (pub_key pub);
  Ok (rsa_verify_pkcs1 k (pub_hash pub) (hash_sum (pub_hash pub) message) signature).

Definition PKCS1PrivateRedact (priv : rsaPrivateKey) : outcome error bytes :=
  k ← deref (priv_key priv); d ← deref (RsaD k); Ok (fingerprint (big_bytes d)).

Definition PKCS1PublicRedact (pub : rsaPublicKey) : outcome error bytes :=
  k ← deref (pub_key pub); n ← deref (RsaN k); Ok (fingerprint (big_bytes n)).

Definition PKCS1Equal (pub : rsaPublicKey) (other : option rsaPublicKey) : outcome error bool :=
  match other with
  | None => Ok false
  | Some o =>
      k ← deref (pub_key pub); k' ← deref (pub_key o);
      n ← deref (RsaN k); n' ← deref (RsaN k');
      Ok (ct_equal (big_bytes n) (big_bytes n') && constantTimeIntEqual (RsaE k) (RsaE k'))
  end.
End Methods.
End Rsa.

Module Ecdsa.

Inductive error : Type := ErrUnsupportedCurve | ErrUnsupportedHash | ErrNilKey | ErrGenerate | ErrSign.

Definition validateCurveHash (curve : Curve) (hash : Hash) : outcome error unit :=
  match curve with
  | P256 => check (bool_decide (hash = SHA256)) ErrUnsupportedHash
  | P384 => check (bool_decide (hash = SHA384)) ErrUnsupportedHash
  | OtherCurve _ => Err ErrUnsupportedCurve
  end.

Record PrivateKey : Type := MkPrivate { priv_key : option StdEcdsaPrivate; priv_hash : Hash }.
Record PublicKey : Type := MkPublic { pub_key : option StdEcdsaPublic; pub_hash : Hash }.

(** [elliptic.Marshal]: the uncompressed point; it panics off the curve, the pair of
    zeros apart. *)
Definition Marshal (k : StdEcdsaPublic) : outcome error bytes :=
  if negb ((EcX k =? 0) && (EcY k =? 0)) && negb (Binder.on_curve (EcCurve k) (EcX k) (EcY k)) then Panic
  else
    let size := Z.to_nat (Binder.field_bytes (EcCurve k)) in
    xs ← fill_bytes size (EcX k); ys ← fill_bytes size (EcY k);
    Ok (x04 :: xs ++ ys).

Section Methods.
Context `{R : EcdsaLib W, H : Hasher, G : Digest}.

Definition Public (priv : PrivateKey) : option PublicKey :=
  match priv_key priv with Some k => Some (MkPublic (Some (EcPub k)) (priv_hash priv)) | None => None end.

Definition GenerateKey (curve : Curve) (hash : Hash) : io W error (PrivateKey * option PublicKey) :=
  _ ← pure (validateCurveHash curve hash);
  key ← run (λ _, ErrGenerate) (ecdsa_generate curve);
  let priv := MkPrivate (Some key) hash in
  mret (priv, Public priv).

Definition NewPrivateKey (key : option StdEcdsaPrivate) (hash : Hash) : outcome error PrivateKey :=
  match key with
  | None => Err ErrNilKey
  | Some k => _ ← validateCurveHash (EcCurve (EcPub k)) hash; Ok (MkPrivate key hash)
  end.

Definition NewPublicKey (key : option StdEcdsaPublic) (hash : Hash) : outcome error PublicKey :=
  match key with
  | None => Err ErrNilKey
  | Some k => _ ← validateCurveHash (EcCurve k) hash; Ok (MkPublic key hash)
  end.

Definition Sign (priv : PrivateKey) (message : bytes) : io W error bytes :=
  match priv_key priv with
  | None => pure (Err ErrNilKey)
  | Some k => run (λ _, ErrSign) (ecdsa_sign k (hash_sum (priv_hash priv) message))
  end.

Definition Verify (pub : PublicKey) (signature message : bytes) : bool :=
  match pub_key pub with
  | None => false
  | Some k => ecdsa_verify k (hash_sum (pub_hash pub) message) signature
  end.

Definition PrivateCurve (priv : PrivateKey) : option Curve := (EcCurve ∘ EcPub) <$> priv_key priv.
Definition StdKey (priv : PrivateKey) : option StdEcdsaPrivate := priv_key priv.
Definition PublicCurve (pub : PublicKey) : option Curve := EcCurve <$> pub_key pub.
Definition PublicX (pub : PublicKey) : option Z := EcX <$> pub_key pub.
Definition PublicY (pub : PublicKey) : option Z := EcY <$> pub_key pub.

Definition PrivateRedact (priv : PrivateKey) : bytes :=
  match priv_key priv with None => str_bytes "nil..." | Some k => fingerprint (big_bytes (EcD k)) end.

Definition PublicRedact (pub : PublicKey) : outcome error bytes :=
  match pub_key pub with
  | None => Ok (str_bytes "nil...")
  | Some k => enc ← Marshal k; Ok (fingerprint enc)
  end.

Definition Equal (pub : PublicKey) (other : option PublicKey) : outcome error bool :=
  match other with
  | None => Ok false
  | Some o =>
      match pub_key pub, pub_key o with
      | Some k, Some k' => a ← Marshal k; b ← Marshal k'; Ok (ct_equal a b)
      | _, _ => Ok false
      end
  end.
End Methods.
End Ecdsa.

Module Ed25519.

Inductive error : Type := ErrInvalidKey | ErrRead.

Definition SeedSize : Z := 32.
Definition PublicKeySize : Z := 32.
Definition PrivateKeySize : Z := 64.

Record PrivateKey : Type := MkPrivate { priv_key : bytes }.
Record PublicKey : Type := MkPublic { pub_key : bytes }.

Section Methods.
Context `{R : Random W, L : Ed25519Lib, H : Hasher}.

(** [priv.Public()] of the standard library copies [priv[32:]]; the slice panics on a
    shorter key. *)
Definition std_public (key : bytes) : outcome error bytes :=
  tail ← go_slice key 32 (zlen key);
  Ok (take 32 tail ++ replicate (32 - length tail) x00).

Definition GenerateKey : io W error (PrivateKey * PublicKey) :=
  seed ← run (λ _, ErrRead) (rand_read SeedSize);
  let priv := ed25519_key_from_seed seed in
  pub ← pure (std_public priv);
  mret (MkPrivate priv, MkPublic pub).

Definition NewPrivateKey (key : bytes) : outcome error PrivateKey :=
  if negb (zlen key =? PrivateKeySize) then Err ErrInvalidKey else Ok (MkPrivate key).

Definition NewPublicKey (key : bytes) : outcome error PublicKey :=
  if negb (zlen key =? PublicKeySize) then Err ErrInvalidKey else Ok (MkPublic key).

Definition StdKey (priv : PrivateKey) : option bytes :=
  if zlen (priv_key priv) =? 0 then None else Some (priv_key priv).

Definition Public (priv : PrivateKey) : outcome error PublicKey := pub ← std_public (priv_key priv); Ok (MkPublic pub).

(** Both primitives panic on a key of the wrong length. *)
Definition Sign (priv : PrivateKey) (message : bytes) : outcome error bytes :=
  if negb (zlen (priv_key priv) =? PrivateKeySize) then Panic else Ok (ed25519_sign (priv_key priv) message).

Definition Verify (pub : PublicKey) (signature message : bytes) : outcome error bool :=
  if negb (zlen (pub_key pub) =? PublicKeySize) then Panic else Ok (ed25519_verify (pub_key pub) message signature).

Definition PrivateRedact (priv : PrivateKey) : bytes := fingerprint (priv_key priv).
Definition Bytes (pub : PublicKey) : bytes := take 32 (pub_key pub) ++ replicate (32 - length (pub_key pub)) x00.
Definition PublicRedact (pub : PublicKey) : bytes := fingerprint (pub_key pub).

Definition Equal (pub : PublicKey) (other : option PublicKey) : bool :=
  match other with None => false | Some o => ct_equal (pub_key pub) (pub_key o) end.
End Methods.
End Ed25519.

Module X25519.

Inductive error : Type := ErrInvalidKey | ErrRead | ErrLowOrder.

(** Arrays of 32 bytes. *)
Record PrivateKey : Type := MkPrivate { priv_key : array32 }.
Record PublicKey : Type := MkPublic { pub_key : array32 }.

Section Methods.
Context `{R : Random W, L : X25519Lib, H : Hasher}.

(** A failing base point product panics. *)
Definition Public (priv : PrivateKey) : outcome error PublicKey :=
  match curve25519_x25519 (arr (priv_key priv)) curve25519_basepoint with
  | None => Panic
  | Some pub => Ok (MkPublic (copy32 pub))
  end.

Definition GenerateKey : io W error (PrivateKey * PublicKey) :=
  privBytes ← run (λ _, ErrRead) (rand_read 32);
  let priv := MkPrivate (copy32 privBytes) in
  pub ← pure (Public priv);
  mret (priv, pub).

Definition NewPrivateKey (key : bytes) : outcome error PrivateKey :=
  if negb (zlen key =? 32) then Err ErrInvalidKey else Ok (MkPrivate (copy32 key)).

Definition NewPublicKey (key : bytes) : outcome error PublicKey :=
  if negb (zlen key =? 32) then Err ErrInvalidKey else Ok (MkPublic (copy32 key)).

Definition PrivateBytes (priv : PrivateKey) : array32 := priv_key priv.

Definition SharedSecret (priv : PrivateKey) (peer : option PublicKey) : outcome error bytes :=
  match peer with
  | None => Err ErrInvalidKey
  | Some p =>
      match curve25519_x25519 (arr (priv_key priv)) (arr (pub_key p)) with
      | None => Err ErrLowOrder
      | Some shared => Ok shared
      end
  end.

Definition PrivateRedact (priv : PrivateKey) : bytes := fingerprint (arr (priv_key priv)).
Definition PublicBytes (pub : PublicKey) : array32 := pub_key pub.
Definition PublicRedact (pub : PublicKey) : bytes := fingerprint (arr (pub_key pub)).

Definition Equal (pub : PublicKey) (other : option PublicKey) : bool :=
  match other with None => false | Some o => ct_equal (arr (pub_key pub)) (arr (pub_key o)) end.
End Methods.
End X25519.
