(* ===== verification/CryptoKeysProofs.v ===== *)
(** * Properties of the key packages

    Constructors accept exactly the keys within the policy of their package, no method
    of a constructed key panics, what a key signs it verifies, [Equal] decides equality
    of the key material, and two X25519 parties agree on a secret. *)
From S2P Require Import Prelude Sha256 GoBig GoIO Canonical Signature Binder CryptoKeys.
Import Signature.
#[local] Open Scope Z_scope.

(** ** Laws of the primitives *)

(** What the standard library documents: the signature of a key pair verifies under its
    public half with the same hash, digest and salt length, and a generated key has the
    requested size. *)
Class RsaLaws `{RsaLib W} (belong : StdRsaPrivate → Prop) : Prop := {
  pss_verifies k h d salt w s w' : belong k → rsa_sign_pss k h d salt w = (inr s, w') → rsa_verify_pss (RsaPub k) h d s salt = true;
  pkcs1_verifies k h d w s w' : belong k → rsa_sign_pkcs1 k h d w = (inr s, w') → rsa_verify_pkcs1 (RsaPub k) h d s = true;
  rsa_generated bits w k w' : rsa_generate bits w = (inr k, w') →
    belong k ∧ ∃ n e d, k = MkRsaPrivate (MkRsaPublic (Some n) e) (Some d) ∧ BitLen n = bits
}.

Class EcdsaLaws `{EcdsaLib W} (belong : StdEcdsaPrivate → Prop) : Prop :=
  ecdsa_verifies k d w s w' : belong k → ecdsa_sign k d w = (inr s, w') → ecdsa_verify (EcPub k) d s = true.

Class Ed25519Laws `{Ed25519Lib} : Prop := {
  from_seed_length s : length (ed25519_key_from_seed s) = 64%nat;
  ed25519_verifies s m : length s = 32%nat →
    ed25519_verify (drop 32 (ed25519_key_from_seed s)) m (ed25519_sign (ed25519_key_from_seed s) m) = true
}.

(** Scalar multiplication commutes on the base point, and its product has 32 bytes. *)
Class X25519Laws `{X25519Lib} : Prop := {
  base_defined k : length k = 32%nat → ∃ p, curve25519_x25519 k curve25519_basepoint = Some p ∧ length p = 32%nat;
  x25519_commutes j k p q : curve25519_x25519 j curve25519_basepoint = Some p → curve25519_x25519 k curve25519_basepoint = Some q →
    curve25519_x25519 j q = curve25519_x25519 k p
}.

(** ** RSA *)

Import Rsa.

(** The policy of the package. *)
Definition hash_allowed (h : Hash) : Prop := h = SHA256 ∨ h = SHA384 ∨ h = SHA512.

Definition valid_public (r : rsaPublicKey) : Prop :=
  hash_allowed (pub_hash r) ∧ ∃ n e, pub_key r = Some (MkRsaPublic (Some n) e) ∧ minKeyBits ≤ BitLen n.

Definition valid_private (r : rsaPrivateKey) : Prop :=
  hash_allowed (priv_hash r) ∧
  ∃ n e d, priv_key r = Some (MkRsaPrivate (MkRsaPublic (Some n) e) (Some d)) ∧ minKeyBits ≤ BitLen n.

Lemma validateHash_Ok h u : validateHash h = Ok u ↔ hash_allowed h.
Proof. unfold hash_allowed. destruct h, u; naive_solver. Qed.

Lemma validateKeySize_Ok bits u : validateKeySize bits = Ok u ↔ minKeyBits ≤ bits.
Proof. unfold validateKeySize. destruct u, (Z.ltb_spec bits minKeyBits); naive_solver lia. Qed.

Lemma new_public key hash r : (n ← validatePublicKey key; _ ← validateKeySize (BitLen n); _ ← validateHash hash; Ok (MkPublic key hash)) = Ok r
  ↔ r = MkPublic key hash ∧ valid_public r.
Proof.
  split.
  - intros (n & Hn & (u & Hs%validateKeySize_Ok & (u' & Hh%validateHash_Ok & [= <-])%bind_Ok)%bind_Ok)%bind_Ok.
    split; [done|]. split; [done|]. destruct key as [[[n'|] e]|]; try done. injection Hn as <-. by exists n', e.
  - intros [-> (Hh & n & e & Hk & Hn)]. cbn in Hh, Hk. subst key. apply bind_Ok. exists n. split; [done|].
    apply bind_Ok. exists tt. split; [by apply validateKeySize_Ok|]. apply bind_Ok. exists tt. split; [by apply validateHash_Ok|done].
Qed.

Lemma new_private key hash r : (n ← validatePrivateKey key; _ ← validateKeySize (BitLen n); _ ← validateHash hash; Ok (MkPrivate key hash)) = Ok r
  ↔ r = MkPrivate key hash ∧ valid_private r.
Proof.
  split.
  - intros (n & Hn & (u & Hs%validateKeySize_Ok & (u' & Hh%validateHash_Ok & [= <-])%bind_Ok)%bind_Ok)%bind_Ok.
    split; [done|]. split; [done|]. destruct key as [[[[n'|] e] [d|]]|]; try done. injection Hn as <-. by exists n', e, d.
  - intros [-> (Hh & n & e & d & Hk & Hn)]. cbn in Hh, Hk. subst key. apply bind_Ok. exists n. split; [done|].
    apply bind_Ok. exists tt. split; [by apply validateKeySize_Ok|]. apply bind_Ok. exists tt. split; [by apply validateHash_Ok|done].
Qed.

(** The constructors return the key they are given exactly when it is within the policy:
    non-nil with modulus and exponent, at least 2048 bits, one of the three hashes. *)
Theorem NewPSSPrivateKey_iff key hash r : NewPSSPrivateKey key hash = Ok r ↔ r = MkPrivate key hash ∧ valid_private r.
Proof. apply new_private. Qed.

(** Every algorithm of a valid key is registered: a constructed RSA key can be used with
    package [signature]. *)
Lemma valid_registered h : hash_allowed h → (∃ a, rsaPSSAlgForHash h = Ok a) ∧ (∃ a, rsaPKCS1AlgForHash h = Ok a).
Proof. intros [->|[->| ->]]; split; by eexists. Qed.

Section Operations.
Context `{R : RsaLib W, H : Hasher, G : Digest}.

Lemma public_valid r : valid_private r → ∃ p, PSSPublic r = Ok p ∧ PKCS1Public r = Ok p ∧ valid_public p.
Proof.
  intros (Hh & n & e & d & Hk & Hn). unfold PSSPublic, PKCS1Public. rewrite Hk. eexists. split_and!; [done..|]. split; [done|]. by exists n, e.
Qed.

(** Type safety: no method of a valid key dereferences nil. *)
Theorem valid_no_panic priv pub other sig msg w : valid_private priv → valid_public pub → valid_public other →
  (∃ p, PSSPublic priv = Ok p ∧ valid_public p) ∧ (∃ k, StdKey priv = Ok (Some k)) ∧
  (PSSSign priv msg w).1 ≠ Panic ∧ (PKCS1Sign priv msg w).1 ≠ Panic ∧
  (∃ b, PSSVerify pub sig msg = Ok b) ∧ (∃ b, PKCS1Verify pub sig msg = Ok b) ∧
  (∃ b, PSSEqual pub (Some other) = Ok b) ∧ (∃ s, PSSPrivateRedact priv = Ok s) ∧ (∃ s, PSSPublicRedact pub = Ok s).
Proof.
  intros Hp (Hh' & n' & e' & Hk' & Hn') (Hh2 & n2 & e2 & Hk2 & Hn2). destruct (public_valid priv Hp) as (p & Hp1 & _ & Hp2).
  destruct Hp as (Hh & n & e & d & Hk & Hn).
  unfold StdKey, PSSSign, PKCS1Sign, PSSVerify, PKCS1Verify, PSSEqual, PSSPrivateRedact, PSSPublicRedact.
  rewrite Hk, Hk', Hk2. unfold mbind, io_bind, pure, run. cbn.
  split_and!; eauto; [by destruct (rsa_sign_pss _ _ _ _ w) as [[] ?]|by destruct (rsa_sign_pkcs1 _ _ _ w) as [[] ?]].
Qed.

(** A key pair generated or wrapped by the package verifies what it signs. *)
Theorem PSS_roundtrip `{LW : !RsaLaws belong} priv pub msg w sig w' : valid_private priv →
  (∀ k, priv_key priv = Some k → belong k) → PSSPublic priv = Ok pub →
  PSSSign priv msg w = (Ok sig, w') → PSSVerify pub sig msg = Ok true.
Proof.
  intros (_ & n & e & d & Hk & _) Hpair. specialize (Hpair _ Hk). unfold PSSPublic, PSSSign, PSSVerify. rewrite Hk. revert Hpair.
  generalize (MkRsaPrivate (MkRsaPublic (Some n) e) (Some d)) as k. cbn [deref mbind outcome_bind]. intros k Hpair [= <-].
  intros (k' & w1 & [= <- <-] & Hs%run_Ok)%io_bind_Ok. cbn. f_equal. by eapply pss_verifies, Hs.
Qed.

Theorem PKCS1_roundtrip `{LW : !RsaLaws belong} priv pub msg w sig w' : valid_private priv →
  (∀ k, priv_key priv = Some k → belong k) → PKCS1Public priv = Ok pub →
  PKCS1Sign priv msg w = (Ok sig, w') → PKCS1Verify pub sig msg = Ok true.
Proof.
  intros (_ & n & e & d & Hk & _) Hpair. specialize (Hpair _ Hk). unfold PKCS1Public, PKCS1Sign, PKCS1Verify. rewrite Hk. revert Hpair.
  generalize (MkRsaPrivate (MkRsaPublic (Some n) e) (Some d)) as k. cbn [deref mbind outcome_bind]. intros k Hpair [= <-].
  intros (k' & w1 & [= <- <-] & Hs%run_Ok)%io_bind_Ok. cbn. f_equal. by eapply pkcs1_verifies, Hs.
Qed.

(** What [GeneratePSSKey] returns is within the policy, and the two halves belong
    together. *)
Theorem GeneratePSSKey_valid `{LW : !RsaLaws belong} bits hash w priv pub w' :
  GeneratePSSKey bits hash w = (Ok (priv, pub), w') → valid_private priv ∧ valid_public pub ∧ PSSPublic priv = Ok pub.
Proof.
  unfold GeneratePSSKey. intros (u & Hs%validateKeySize_Ok & (u' & Hh%validateHash_Ok & Hg)%pure_bind_Ok)%pure_bind_Ok.
  apply io_bind_Ok in Hg as (k & w1 & Hg%run_Ok & Hp). apply rsa_generated in Hg as [_ (n & e & d & -> & Hn)].
  apply pure_bind_Ok in Hp as (p & Hp & [= <- <- _]). split; [|split; [|exact Hp]].
  - split; [done|]. exists n, e, d. split; [done|]. by rewrite Hn.
  - injection Hp as <-. split; [done|]. exists n, e. split; [done|]. by rewrite Hn.
Qed.

(** *** Equality *)

Lemma big_bytes_abs n m : big_bytes n = big_bytes m ↔ Z.abs n = Z.abs m.
Proof.
  split; intros E.
  - by rewrite <- !big_bytes_value, E.
  - unfold big_bytes. assert (BitLen n = BitLen m) as ->; [|by rewrite E].
    unfold BitLen. rewrite E. destruct (Z.eqb_spec n 0), (Z.eqb_spec m 0); lia.
Qed.

Lemma int_equal a b : is_int a → is_int b → constantTimeIntEqual a b = true ↔ a = b.
Proof.
  intros Ha Hb. unfold constantTimeIntEqual. rewrite ct_equal_true. split; [|by intros ->]. intros E.
  apply be_bytes_inj in E; [|apply u64_range..]. unfold u64, is_int in *. lia.
Qed.

(** [Equal] on RSA keys compares modulus and exponent, and nothing else. *)
Theorem PSSEqual_iff a b n e n' e' : is_int e → is_int e' →
  pub_key a = Some (MkRsaPublic (Some n) e) → pub_key b = Some (MkRsaPublic (Some n') e') →
  PSSEqual a (Some b) = Ok true ↔ Z.abs n = Z.abs n' ∧ e = e'.
Proof.
  intros He He' Ha Hb. unfold PSSEqual. rewrite Ha, Hb. cbn. rewrite <- big_bytes_abs, <- int_equal by done.
  rewrite <- ct_equal_true. destruct (ct_equal _ _), (constantTimeIntEqual _ _); cbn; naive_solver.
Qed.

(** So two keys that verify different algorithms can be equal: the bound hash is not
    looked at. *)
Theorem PSSEqual_ignores_hash key h h' a b : NewPSSPublicKey key h = Ok a → NewPSSPublicKey key h' = Ok b →
  PSSEqual a (Some b) = Ok true ∧ (h ≠ h' → rsaPSSAlgForHash (pub_hash a) ≠ rsaPSSAlgForHash (pub_hash b)).
Proof.
  intros [-> (Hh & n & e & Hk & _)]%new_public [-> (Hh' & _)]%new_public. cbn in Hk, Hh, Hh'. subst key. split.
  - unfold PSSEqual, constantTimeIntEqual. cbn. by rewrite !ct_equal_refl.
  - intros Hne. cbn. unfold hash_allowed in *. naive_solver.
Qed.
End Operations.

(** ** ECDSA *)

Module EcdsaProofs.
Import Ecdsa.

Section Operations.
Context `{R : EcdsaLib W, H : Hasher, G : Digest}.

Lemma on_curve_coordinates c x y : Binder.on_curve c x y = true →
  0 ≤ x < 256 ^ Binder.field_bytes c ∧ 0 ≤ y < 256 ^ Binder.field_bytes c.
Proof.
  unfold Binder.on_curve, Binder.pointInRange. rewrite !andb_true_iff, !Z.leb_le, !Z.ltb_lt. intros [[[[? ?] ?] ?] _].
  assert (Binder.field_prime c ≤ 256 ^ Binder.field_bytes c) by (by destruct c; vm_compute). lia.
Qed.

(** Curve and hash of a constructed key belong together, so that it has exactly one
    algorithm. *)
Theorem NewPublicKey_iff key hash r : NewPublicKey key hash = Ok r ↔
  r = MkPublic key hash ∧ ∃ k, key = Some k ∧
    (EcCurve k = P256 ∧ hash = SHA256 ∧ ecdsaAlgForCurve (EcCurve k) = Ok AlgorithmES256 ∨
     EcCurve k = P384 ∧ hash = SHA384 ∧ ecdsaAlgForCurve (EcCurve k) = Ok AlgorithmES384).
Proof.
  unfold NewPublicKey. destruct key as [k|]; [|naive_solver]. rewrite bind_Ok. unfold validateCurveHash, check.
  split.
  - intros (u & Hv & [= <-]). split; [done|]. exists k. split; [done|].
    destruct (EcCurve k); [left|right|done]; case_bool_decide; naive_solver.
  - intros [-> (k' & [= <-] & [(Hc & -> & _)|(Hc & -> & _)])]; exists tt; rewrite Hc; cbn; by rewrite bool_decide_eq_true_2.
Qed.

Lemma fill_bytes_small {E} k n : 0 ≤ n < 256 ^ Z.of_nat k → fill_bytes (E := E) k n = Ok (be_bytes k n).
Proof.
  intros Hn. unfold fill_bytes. rewrite (proj2 (Z.leb_le _ _)); [by rewrite Z.abs_eq by lia|].
  apply BitLen_le; [lia|]. rewrite pow256 in Hn by lia. rewrite Z.abs_eq by lia. lia.
Qed.

(** The uncompressed point. *)
Definition point_bytes (k : StdEcdsaPublic) : bytes :=
  let size := Z.to_nat (Binder.field_bytes (EcCurve k)) in x04 :: be_bytes size (EcX k) ++ be_bytes size (EcY k).

Lemma Marshal_on_curve k : Binder.on_curve (EcCurve k) (EcX k) (EcY k) = true → Marshal k = Ok (point_bytes k).
Proof.
  intros Hc. unfold Marshal. rewrite Hc, andb_false_r. apply on_curve_coordinates in Hc as [Hx Hy].
  assert (0 ≤ Binder.field_bytes (EcCurve k)) by by destruct (EcCurve k).
  rewrite !fill_bytes_small by by rewrite Z2Nat.id. done.
Qed.

Lemma point_bytes_inj k k' : Binder.on_curve (EcCurve k) (EcX k) (EcY k) = true →
  Binder.on_curve (EcCurve k') (EcX k') (EcY k') = true → EcCurve k = P256 ∨ EcCurve k = P384 →
  EcCurve k' = P256 ∨ EcCurve k' = P384 → point_bytes k = point_bytes k' → k = k'.
Proof.
  intros [Hx Hy]%on_curve_coordinates [Hx' Hy']%on_curve_coordinates Hc Hc'. unfold point_bytes. intros [= E].
  assert (EcCurve k = EcCurve k') as Ec.
  { apply (f_equal length) in E. rewrite !length_app, !be_bytes_length in E.
    destruct Hc as [Hc|Hc], Hc' as [Hc'|Hc']; rewrite Hc, Hc' in *; cbn in E; done || lia. }
  rewrite <- Ec in *. assert (0 ≤ Binder.field_bytes (EcCurve k)) by by destruct (EcCurve k).
  apply app_inj_1 in E as [E1 E2]; [|by rewrite !be_bytes_length].
  apply be_bytes_inj in E1; [|by rewrite Z2Nat.id..]. apply be_bytes_inj in E2; [|by rewrite Z2Nat.id..].
  destruct k, k'; cbn in *; congruence.
Qed.

(** [Equal] on keys with points of the supported curves decides equality of the keys. *)
Theorem Ecdsa_Equal_iff a b k k' : pub_key a = Some k → pub_key b = Some k' →
  EcCurve k = P256 ∨ EcCurve k = P384 → EcCurve k' = P256 ∨ EcCurve k' = P384 →
  Binder.on_curve (EcCurve k) (EcX k) (EcY k) = true → Binder.on_curve (EcCurve k') (EcX k') (EcY k') = true →
  Equal a (Some b) = Ok true ↔ k = k'.
Proof.
  intros Ha Hb Hc Hc' Ho Ho'. unfold Equal. rewrite Ha, Hb, !Marshal_on_curve by done. cbn. split.
  - intros [= E%ct_equal_true]. by apply point_bytes_inj.
  - intros ->. by rewrite ct_equal_refl.
Qed.

(** [NewPublicKey] does not look at the coordinates: a key that is no point of its curve
    is accepted, and its [Equal] and [Redact] panic. *)
Theorem off_curve_panics c h x y : validateCurveHash c h = Ok tt → x ≠ 0 → Binder.on_curve c x y = false →
  ∃ r, NewPublicKey (Some (MkEcdsaPublic c x y)) h = Ok r ∧ Equal r (Some r) = Panic ∧ PublicRedact r = Panic.
Proof.
  intros Hv Hx Ho. exists (MkPublic (Some (MkEcdsaPublic c x y)) h). unfold NewPublicKey, Equal, PublicRedact, Marshal. cbn.
  by rewrite Hv, Ho, (proj2 (Z.eqb_neq x 0)) by done.
Qed.

Theorem Ecdsa_roundtrip `{LW : !EcdsaLaws belong} priv pub msg w sig w' :
  (∀ k, priv_key priv = Some k → belong k) → Public priv = Some pub →
  Sign priv msg w = (Ok sig, w') → Verify pub sig msg = true.
Proof.
  unfold Public, Sign, Verify. destruct (priv_key priv) as [k|]; [|done]. intros Hp [= <-] Hs%run_Ok. cbn.
  by eapply ecdsa_verifies, Hs; apply Hp.
Qed.
End Operations.
End EcdsaProofs.

(** ** Ed25519 *)

Module Ed25519Proofs.
Import Ed25519.

Section Operations.
Context `{R : Random W, L : Ed25519Lib, H : Hasher}.

Lemma std_public_64 key : length key = 64%nat → std_public key = Ok (drop 32 key).
Proof.
  intros Hl. unfold std_public. rewrite go_slice_ok by lia. cbn [mbind outcome_bind]. f_equal.
  assert (length (drop 32 key) = 32%nat) as Hd by (rewrite length_drop; lia).
  rewrite Hl. change (Z.to_nat (Z.of_nat 64 - 32)) with 32%nat. change (Z.to_nat 32) with 32%nat.
  rewrite (take_ge (drop 32 key)) by lia. rewrite take_ge by lia. rewrite Hd. cbn. by rewrite app_nil_r.
Qed.

(** A key of 64 bytes signs and has a public half of 32 bytes; other lengths are
    refused. *)
Theorem NewPrivateKey_usable key priv : NewPrivateKey key = Ok priv →
  priv_key priv = key ∧ StdKey priv = Some key ∧ (∀ msg, Sign priv msg = Ok (ed25519_sign key msg)) ∧
  ∃ pub, Public priv = Ok pub ∧ NewPublicKey (Bytes pub) = Ok pub ∧ Bytes pub = drop 32 key.
Proof.
  unfold NewPrivateKey, PrivateKeySize. destruct (Z.eqb_spec (zlen key) 64) as [Hl|]; [|done]. intros [= <-].
  assert (length (drop 32 key) = 32%nat) as Hd by (rewrite length_drop; lia).
  unfold StdKey, Sign, Public, PrivateKeySize. cbn [priv_key]. rewrite Hl. split_and!; [done..|].
  rewrite std_public_64 by lia. eexists. split; [done|]. unfold NewPublicKey, Bytes, PublicKeySize. cbn [pub_key].
  rewrite take_ge by lia. rewrite Hd. cbn [replicate Nat.sub]. rewrite app_nil_r, Hd. done.
Qed.

(** A generated pair verifies what it signs. *)
Theorem GenerateKey_verifies `{LW : !Ed25519Laws} w priv pub w' msg sig :
  (∀ w n b w', 0 ≤ n → rand_read n w = (inr b, w') → zlen b = n) →
  GenerateKey w = (Ok (priv, pub), w') → Sign priv msg = Ok sig → Verify pub sig msg = Ok true.
Proof.
  intros Hread. unfold GenerateKey. intros (seed & w1 & Hs%run_Ok & Hp)%io_bind_Ok. apply Hread in Hs; [|done]. unfold SeedSize in Hs.
  apply pure_bind_Ok in Hp as (p & Hp & [= <- <- _]). rewrite std_public_64 in Hp by apply from_seed_length. injection Hp as <-.
  unfold Sign, Verify, PrivateKeySize, PublicKeySize. cbn [priv_key pub_key]. rewrite length_drop, from_seed_length. cbn.
  intros [= <-]. by rewrite ed25519_verifies by lia.
Qed.
End Operations.
End Ed25519Proofs.

(** ** X25519 *)

Module X25519Proofs.
Import X25519.

Section Operations.
Context `{R : Random W, L : X25519Lib, H : Hasher}.

(** Two parties that exchange public keys compute the same secret, or the same refusal. *)
Theorem SharedSecret_agrees `{LW : !X25519Laws} a b : ∃ pa pb,
  Public a = Ok pa ∧ Public b = Ok pb ∧ SharedSecret a (Some pb) = SharedSecret b (Some pa).
Proof.
  destruct (base_defined (arr (priv_key a)) (arr_length _)) as (p & Hp & Hlp).
  destruct (base_defined (arr (priv_key b)) (arr_length _)) as (q & Hq & Hlq).
  exists (MkPublic (copy32 p)), (MkPublic (copy32 q)). unfold Public, SharedSecret. rewrite Hp, Hq. cbn [pub_key].
  rewrite !arr_copy32 by done. split_and!; [done..|]. by rewrite (x25519_commutes _ _ _ _ Hp Hq).
Qed.

(** The constructors keep the 32 bytes they are given and refuse every other length. *)
Theorem NewPublicKey_bytes b k : NewPublicKey b = Ok k ↔ length b = 32%nat ∧ arr (PublicBytes k) = b.
Proof.
  unfold NewPublicKey, PublicBytes. destruct (Z.eqb_spec (zlen b) 32) as [Hl|Hl]; cbn [negb]; split; try done.
  - intros [= <-]. split; [lia|]. cbn [pub_key]. by rewrite arr_copy32 by lia.
  - intros [_ <-]. destruct k as [k]. cbn [pub_key]. by rewrite copy32_arr.
  - intros [? _]. lia.
Qed.
End Operations.
End X25519Proofs.

(** ** A toy library *)

Module ToyKeys.

(** Signatures are digests, and a scalar is its own product with the base point. *)
#[local] Instance rsa : RsaLib unit := {|
  rsa_generate bits w := (if bits <? 1 then inl tt else inr (MkRsaPrivate (MkRsaPublic (Some (2 ^ (bits - 1))) 65537) (Some 3)), w);
  rsa_sign_pss _ _ d _ w := (inr d, w);
  rsa_verify_pss _ _ d s _ := ct_equal d s;
  rsa_sign_pkcs1 _ _ d w := (inr d, w);
  rsa_verify_pkcs1 _ _ d s := ct_equal d s
|}.

#[local] Instance ecdsa : EcdsaLib unit := {|
  ecdsa_generate c w := (inr (MkEcdsaPrivate (MkEcdsaPublic c 0 0) 1), w);
  ecdsa_sign _ d w := (inr d, w);
  ecdsa_verify _ d s := ct_equal d s
|}.

#[local] Instance ed25519 : Ed25519Lib := {|
  ed25519_key_from_seed s := take 64 (s ++ replicate 64 x00);
  ed25519_sign _ m := m;
  ed25519_verify _ m s := ct_equal m s
|}.

#[local] Instance x25519 : X25519Lib := {|
  curve25519_basepoint := replicate 32 x01;
  curve25519_x25519 k p := Some (zip_with (λ a b, z2b (b2z a * b2z b)) k p)
|}.

#[local] Instance random : Random unit := λ n w, (inr (replicate (Z.to_nat n) x07), w).

Definition key : StdRsaPrivate := MkRsaPrivate (MkRsaPublic (Some (2 ^ 2047)) 65537) (Some 3).
Definition priv : rsaPrivateKey := MkPrivate (Some key) SHA256.

Lemma priv_valid : valid_private priv.
Proof. split; [by left|]. exists (2 ^ 2047), 65537, 3. split; [done|]. vm_compute. done. Qed.

#[local] Instance rsa_laws : RsaLaws (λ _, True).
Proof.
  split.
  - intros k h d salt w s w' _ [= <- <-]. apply ct_equal_refl.
  - intros k h d w s w' _ [= <- <-]. apply ct_equal_refl.
  - intros bits w k w'. cbn. destruct (Z.ltb_spec bits 1); [done|]. intros [= <- _]. split; [done|].
    eexists _, _, _. split; [done|]. unfold BitLen. pose proof (Z.pow_pos_nonneg 2 (bits - 1)).
    destruct (Z.eqb_spec (2 ^ (bits - 1)) 0); [lia|]. rewrite Z.abs_eq by lia. rewrite Z.log2_pow2 by lia. lia.
Qed.

#[local] Instance ecdsa_laws : EcdsaLaws (λ _, True).
Proof. intros k d w s w' _ [= <- <-]. apply ct_equal_refl. Qed.

#[local] Instance ed25519_laws : Ed25519Laws.
Proof.
  split; [|intros s m _; apply ct_equal_refl].
  intros s. change (length (take 64 (s ++ replicate 64 x00)) = 64%nat). rewrite length_take, length_app, length_replicate. lia.
Qed.

Definition scale (j k : bytes) : bytes := zip_with (λ a b, z2b (b2z a * b2z b)) j k.

Lemma scale_comm j k u : scale j (scale k u) = scale k (scale j u).
Proof.
  unfold scale. revert k u. induction j as [|a j IH]; intros [|b k] [|c u]; cbn; try done. f_equal; [|apply IH].
  apply b2z_inj. rewrite !b2z_z2b, !Zmult_mod_idemp_r. f_equal. lia.
Qed.

#[local] Instance x25519_laws : X25519Laws.
Proof.
  split.
  - intros k Hk. eexists. split; [reflexivity|]. rewrite length_zip_with. change (length curve25519_basepoint) with 32%nat. lia.
  - intros j k p q [= <-] [= <-]. exact (f_equal Some (scale_comm j k curve25519_basepoint)).
Qed.
End ToyKeys.

Lemma NewPSSPrivateKey_iff_witness : NewPSSPrivateKey (Some ToyKeys.key) SHA256 = Ok ToyKeys.priv.
Proof. apply NewPSSPrivateKey_iff. split; [done|apply ToyKeys.priv_valid]. Defined.

Definition toy_pub : rsaPublicKey := MkPublic (Some (RsaPub ToyKeys.key)) SHA256.

Lemma toy_pub_valid : valid_public toy_pub.
Proof. split; [by left|]. exists (2 ^ 2047), 65537. split; [done|]. vm_compute. done. Qed.

Lemma valid_no_panic_witness : ∃ b, PSSVerify (R := ToyKeys.rsa) toy_pub [] [x61] = Ok b.
Proof.
  apply (valid_no_panic (R := ToyKeys.rsa) ToyKeys.priv toy_pub toy_pub [] [x61] tt);
    [apply ToyKeys.priv_valid|apply toy_pub_valid|apply toy_pub_valid].
Defined.

Lemma PSS_roundtrip_witness : PSSVerify (R := ToyKeys.rsa) toy_pub (hash_sum SHA256 [x61]) [x61] = Ok true.
Proof.
  apply (PSS_roundtrip (R := ToyKeys.rsa) (LW := ToyKeys.rsa_laws) ToyKeys.priv toy_pub [x61] tt _ tt);
    [apply ToyKeys.priv_valid|done|reflexivity|reflexivity].
Defined.

Lemma PKCS1_roundtrip_witness : PKCS1Verify (R := ToyKeys.rsa) toy_pub (hash_sum SHA256 [x61]) [x61] = Ok true.
Proof.
  apply (PKCS1_roundtrip (R := ToyKeys.rsa) (LW := ToyKeys.rsa_laws) ToyKeys.priv toy_pub [x61] tt _ tt);
    [apply ToyKeys.priv_valid|done|reflexivity|reflexivity].
Defined.

Lemma GeneratePSSKey_valid_witness : valid_public toy_pub.
Proof.
  apply (GeneratePSSKey_valid (R := ToyKeys.rsa) (LW := ToyKeys.rsa_laws) 2048 SHA256 tt ToyKeys.priv toy_pub tt). vm_compute. reflexivity.
Defined.

Lemma PSSEqual_iff_witness : PSSEqual toy_pub (Some toy_pub) = Ok true.
Proof.
  apply (PSSEqual_iff toy_pub toy_pub (2 ^ 2047) 65537 (2 ^ 2047) 65537); [unfold is_int; lia..|reflexivity|reflexivity|done].
Defined.

Lemma PSSEqual_ignores_hash_witness :
  PSSEqual (MkPublic (Some (RsaPub ToyKeys.key)) SHA256) (Some (MkPublic (Some (RsaPub ToyKeys.key)) SHA512)) = Ok true.
Proof. apply (PSSEqual_ignores_hash (Some (RsaPub ToyKeys.key)) SHA256 SHA512); vm_compute; reflexivity. Defined.

(** The base point of P-256. *)
Definition base_point : StdEcdsaPublic :=
  MkEcdsaPublic P256 0x6b17d1f2e12c4247f8bce6e563a440f277037d812deb33a0f4a13945d898c296
    0x4fe342e2fe1a7f9b8ee7eb4a7c0f9e162bce33576b315ececbb6406837bf51f5.

Lemma NewPublicKey_iff_witness : Ecdsa.NewPublicKey (Some base_point) SHA256 = Ok (Ecdsa.MkPublic (Some base_point) SHA256).
Proof. apply EcdsaProofs.NewPublicKey_iff. split; [done|]. exists base_point. split; [done|]. by left. Defined.

Lemma Equal_iff_witness :
  Ecdsa.Equal (Ecdsa.MkPublic (Some base_point) SHA256) (Some (Ecdsa.MkPublic (Some base_point) SHA256)) = Ok true.
Proof.
  apply (EcdsaProofs.Ecdsa_Equal_iff _ _ base_point base_point); [reflexivity|reflexivity|by left|by left|vm_compute; reflexivity..].
Defined.

Lemma off_curve_panics_witness : ∃ r, Ecdsa.NewPublicKey (Some (MkEcdsaPublic P256 1 1)) SHA256 = Ok r ∧
  Ecdsa.Equal r (Some r) = Panic ∧ Ecdsa.PublicRedact r = Panic.
Proof. apply EcdsaProofs.off_curve_panics; [reflexivity|done|vm_compute; reflexivity]. Defined.

Lemma Ecdsa_roundtrip_witness :
  Ecdsa.Verify (R := ToyKeys.ecdsa) (Ecdsa.MkPublic (Some base_point) SHA256) (hash_sum SHA256 [x61]) [x61] = true.
Proof.
  apply (EcdsaProofs.Ecdsa_roundtrip (R := ToyKeys.ecdsa) (LW := ToyKeys.ecdsa_laws)
    (Ecdsa.MkPrivate (Some (MkEcdsaPrivate base_point 1)) SHA256) _ [x61] tt _ tt); [done|reflexivity|reflexivity].
Defined.

Lemma NewPrivateKey_usable_witness : ∃ pub, Ed25519.Public (Ed25519.MkPrivate (replicate 64 x05)) = Ok pub ∧
  Ed25519.NewPublicKey (Ed25519.Bytes pub) = Ok pub ∧ Ed25519.Bytes pub = drop 32 (replicate 64 x05).
Proof.
  apply (Ed25519Proofs.NewPrivateKey_usable (L := ToyKeys.ed25519) (replicate 64 x05) (Ed25519.MkPrivate (replicate 64 x05))). reflexivity.
Defined.

Lemma GenerateKey_verifies_witness :
  Ed25519.Verify (L := ToyKeys.ed25519) (Ed25519.MkPublic (replicate 32 x00)) [x61] [x61] = Ok true.
Proof.
  apply (Ed25519Proofs.GenerateKey_verifies (R := ToyKeys.random) (L := ToyKeys.ed25519) (LW := ToyKeys.ed25519_laws) tt
    (Ed25519.MkPrivate (replicate 32 x07 ++ replicate 32 x00)) (Ed25519.MkPublic (replicate 32 x00)) tt [x61] [x61]);
    [|vm_compute; reflexivity|reflexivity].
  intros [] n b [] Hn [= <-]. rewrite length_replicate. lia.
Defined.

Lemma SharedSecret_agrees_witness : ∃ pa pb, X25519.Public (L := ToyKeys.x25519) (X25519.MkPrivate zero32) = Ok pa ∧
  X25519.Public (L := ToyKeys.x25519) (X25519.MkPrivate zero32) = Ok pb ∧
  X25519.SharedSecret (L := ToyKeys.x25519) (X25519.MkPrivate zero32) (Some pb) =
  X25519.SharedSecret (L := ToyKeys.x25519) (X25519.MkPrivate zero32) (Some pa).
Proof. apply (X25519Proofs.SharedSecret_agrees (LW := ToyKeys.x25519_laws)). Defined.
