(* ===== verification/Jwk.v ===== *)
(** * The [identity/jwk] package: JSON Web Keys

    A translation of src/identity/jwk/jwk.go on the level of its API, maps of JSON
    values: [Marshal], [MarshalPrivate], [Unmarshal], [UnmarshalPrivate] and every
    function they reach in the package; the key constructors are those of CryptoKeys.v.  The secp256k1 path is written by hand in
    the source and here; the others go through github.com/lestrrat-go/jwx, the class
    [Jwx].  Scalar multiplication on the curves is the class [Curves]. *)
From S2P Require Import Prelude GoBig Canonical Signature Secp256k1 Binder Base64 CryptoKeys.
Import Canonical Signature.
#[local] Open Scope Z_scope.

(** A JWK: [map[string]any], each name once. *)
Notation jmap := (list (bytes * json)).

(** The standard-library keys that jwx consumes and produces. *)
Inductive RawKey : Type :=
| RawEd25519Pub (b : bytes)
| RawEd25519Priv (b : bytes)
| RawECDHPub (b : bytes)
| RawECDHPriv (b : bytes)
| RawECDSAPub (curve : Curve) (x y : Z)
| RawECDSAPriv (curve : Curve) (d x y : Z)
| RawRSAPub (n e : Z)
| RawRSAPriv (n e d : Z)
| RawOther (type : string).

(** jwx: the map of a key with its "alg" set ([jwk.Import], [Set], [MarshalJSON]), the
    key of a map ([jwk.ParseKey], [jwk.Export]), and the public part of that key. *)
Class Jwx : Type := {
  jwx_marshal : RawKey → string → option jmap;
  jwx_parse : jmap → option RawKey;
  jwx_parse_public : jmap → option RawKey
}.

(** Key arithmetic: [ed25519.NewKeyFromSeed], the X25519 base point product,
    [Curve.ScalarBaseMult] of the NIST curves and [IsOnCurve] of the decred curve. *)
Class Curves : Type := {
  ed25519_from_seed : bytes → bytes;
  x25519_base : bytes → bytes;
  scalar_base_mult : Curve → bytes → Z * Z;
  koblitz_on_curve : Z → Z → bool
}.

Module Jwk.

Inductive error : Type :=
| ErrAlgNone
| ErrAlgMismatch
| ErrAlgRequired
| ErrDuplicateMember
| ErrUnsupportedKty
| ErrUnsupportedCrv
| ErrUnsupportedKeyType
| ErrMissingMember
| ErrInvalidMember
| ErrKeyInconsistent
| ErrAlgorithm
| ErrConstructor.

(** ** Members and encodings *)

Definition member (m : jmap) (k : string) : option json :=
  snd <$> find (λ kv, bytes_eqb kv.1 (str_bytes k)) m.

Definition reqString (m : jmap) (k : string) : outcome error bytes :=
  match member m k with
  | None => Err ErrMissingMember
  | Some (JStr s) => Ok s
  | Some _ => Err ErrInvalidMember
  end.

Definition optString (m : jmap) (k : string) : bytes :=
  match member m k with
  | Some (JStr s) => s
  | _ => []
  end.

Definition encodeBytes (b : bytes) : bytes := encode_rawurl b.

Definition decodeBytes (s : bytes) (want : Z) : outcome error bytes :=
  match Binder.decode_rawurl s with
  | None => Err ErrInvalidMember
  | Some b => if (0 <? want) && negb (zlen b =? want) then Err ErrInvalidMember else Ok b
  end.

Definition encodeInt (i : Z) : bytes := encode_rawurl (big_bytes i).

(** [copy(b[size-len(ib):], ib)] panics when [i] is wider than [size] bytes. *)
Definition fixedBytes (i : Z) (size : nat) : outcome error bytes := right_align size (big_bytes i).

Definition encodeFixedInt (i : Z) (size : nat) : outcome error bytes :=
  b ← right_align size (big_bytes i); Ok (encode_rawurl b).

Definition decodeInt (s : bytes) : outcome error Z :=
  match Binder.decode_rawurl s with
  | None => Err ErrInvalidMember
  | Some b => Ok (be_value b)
  end.

(** ** Private keys

    The concrete private keys of src/crypto, with the hash an RSA or ECDSA key is bound
    to. *)
Section Keys.
Context `{D : Dcrd}.

Inductive PrivateKey : Type :=
| Ed25519Key (b : bytes)
| X25519Key (b : bytes)
| Secp256k1Key (k : Secp256k1.PrivateKey)
| EcdsaKey (hash : Hash) (curve : Curve) (d x y : Z)
| PSSKey (hash : Hash) (n e d : Z)
| PKCS1Key (hash : Hash) (n e d : Z)
| OtherKey (type : string).
End Keys.

(** ** Constructors of the key packages *)

Definition NewPSSPublicKey (n e : Z) (hash : Hash) : outcome error PublicKey :=
  _ ← wrap_err (λ _, ErrConstructor) (Rsa.NewPSSPublicKey (Some (MkRsaPublic (Some n) e)) hash); Ok (PSSPub hash n e).

Definition NewPKCS1PublicKey (n e : Z) (hash : Hash) : outcome error PublicKey :=
  _ ← wrap_err (λ _, ErrConstructor) (Rsa.NewPKCS1PublicKey (Some (MkRsaPublic (Some n) e)) hash); Ok (PKCS1Pub hash n e).

Definition NewPSSPrivateKey `{Dcrd} (n e d : Z) (hash : Hash) : outcome error PrivateKey :=
  _ ← wrap_err (λ _, ErrConstructor) (Rsa.NewPSSPrivateKey (Some (MkRsaPrivate (MkRsaPublic (Some n) e) (Some d))) hash);
  Ok (PSSKey hash n e d).

Definition NewPKCS1PrivateKey `{Dcrd} (n e d : Z) (hash : Hash) : outcome error PrivateKey :=
  _ ← wrap_err (λ _, ErrConstructor) (Rsa.NewPKCS1PrivateKey (Some (MkRsaPrivate (MkRsaPublic (Some n) e) (Some d))) hash);
  Ok (PKCS1Key hash n e d).

Definition ed25519_NewPublicKey (b : bytes) : outcome error PublicKey :=
  k ← wrap_err (λ _, ErrConstructor) (Ed25519.NewPublicKey b); Ok (Ed25519Pub (Ed25519.pub_key k)).

Definition ed25519_NewPrivateKey `{Dcrd} (b : bytes) : outcome error PrivateKey :=
  k ← wrap_err (λ _, ErrConstructor) (Ed25519.NewPrivateKey b); Ok (Ed25519Key (Ed25519.priv_key k)).

Definition x25519_NewPublicKey (b : bytes) : outcome error PublicKey :=
  k ← wrap_err (λ _, ErrConstructor) (X25519.NewPublicKey b); Ok (X25519Pub (arr (X25519.pub_key k))).

Definition x25519_NewPrivateKey `{Dcrd} (b : bytes) : outcome error PrivateKey :=
  k ← wrap_err (λ _, ErrConstructor) (X25519.NewPrivateKey b); Ok (X25519Key (arr (X25519.priv_key k))).

Definition ecdsa_NewPublicKey (curve : Curve) (x y : Z) (hash : Hash) : outcome error PublicKey :=
  _ ← wrap_err (λ _, ErrConstructor) (Ecdsa.NewPublicKey (Some (MkEcdsaPublic curve x y)) hash); Ok (EcdsaPub curve x y).

Definition ecdsa_NewPrivateKey `{Dcrd} (curve : Curve) (d x y : Z) (hash : Hash) : outcome error PrivateKey :=
  _ ← wrap_err (λ _, ErrConstructor) (Ecdsa.NewPrivateKey (Some (MkEcdsaPrivate (MkEcdsaPublic curve x y) d)) hash);
  Ok (EcdsaKey hash curve d x y).

Section Operations.
Context `{D : Dcrd, X : Jwx, C : Curves}.

(** ** The jwx adapter *)

Definition marshalViaJWX (rawKey : RawKey) (alg : string) : outcome error jmap :=
  match jwx_marshal rawKey alg with None => Err ErrInvalidMember | Some m => Ok m end.

(** [parseViaJWX] followed by [exportRawKey]; both report [ErrInvalidMember]. *)
Definition parseViaJWX (m : jmap) : outcome error RawKey :=
  match jwx_parse m with None => Err ErrInvalidMember | Some r => Ok r end.

Definition parsePublicViaJWX (m : jmap) : outcome error RawKey :=
  match jwx_parse_public m with None => Err ErrInvalidMember | Some r => Ok r end.

Definition algorithm_of (k : PublicKey) : outcome error string :=
  a ← wrap_err (λ _, ErrAlgorithm) (AlgorithmForPublicKey k); Ok (JOSE a).

(** ** secp256k1 *)


(** The key is its compressed form. *)
Definition marshalSecp256k1Public (compressed : bytes) : outcome error jmap :=
  match parse_point compressed with
  | None => Err ErrInvalidMember
  | Some parsed =>
      let uncompressed := point_uncompressed parsed in
      if negb (zlen uncompressed =? 65) || negb (bool_decide (head uncompressed = Some x04)) then Err ErrInvalidMember
      else
        xs ← go_slice uncompressed 1 33;
        ys ← go_slice uncompressed 33 65;
        alg ← algorithm_of (Secp256k1Pub compressed);
        xStr ← encodeFixedInt (be_value xs) 32;
        yStr ← encodeFixedInt (be_value ys) 32;
        Ok [ (str_bytes "kty", JStr (str_bytes "EC"));
             (str_bytes "crv", JStr (str_bytes "secp256k1"));
             (str_bytes "alg", JStr (str_bytes alg));
             (str_bytes "x", JStr xStr);
             (str_bytes "y", JStr yStr) ]
  end.

Definition marshalSecp256k1Private (k : Secp256k1.PrivateKey) : outcome error jmap :=
  m ← marshalSecp256k1Public (Secp256k1.PubBytes (Secp256k1.Public k));
  d ← encodeFixedInt (be_value (Secp256k1.Bytes k)) 32;
  Ok (m ++ [(str_bytes "d", JStr d)]).

(** [elliptic.MarshalCompressed] panics on a point that is not on the curve, the point
    (0, 0) excepted, and [FillBytes] on an [x] of more than 32 bytes. *)
Definition MarshalCompressed (x y : Z) : outcome error bytes :=
  if negb ((x =? 0) && (y =? 0)) && negb (koblitz_on_curve x y) then Panic
  else
    xs ← fill_bytes 32 x;
    Ok ((if Z.odd y then x03 else x02) :: xs).

Definition alg_allows (alg : bytes) (want : string) : bool :=
  bool_decide (alg = []) || bool_decide (alg = str_bytes want).

Definition unmarshalSecp256k1Public (m : jmap) (alg : bytes) : outcome error PublicKey :=
  xStr ← reqString m "x";
  yStr ← reqString m "y";
  if negb (alg_allows alg "ES256K") then Err ErrAlgMismatch
  else
    x ← decodeInt xStr;
    y ← decodeInt yStr;
    compressed ← MarshalCompressed x y;
    pub ← wrap_err (λ _, ErrConstructor) (Secp256k1.NewPublicKey compressed);
    Ok (Secp256k1Pub (Secp256k1.PubBytes pub)).

Definition unmarshalSecp256k1Private (m : jmap) (alg dStr : bytes) : outcome error PrivateKey :=
  xStr ← reqString m "x";
  yStr ← reqString m "y";
  if negb (alg_allows alg "ES256K") then Err ErrAlgMismatch
  else
    x ← decodeInt xStr;
    y ← decodeInt yStr;
    d ← decodeInt dStr;
    compressed ← MarshalCompressed x y;
    pub ← wrap_err (λ _, ErrConstructor) (Secp256k1.NewPublicKey compressed);
    dBytes ← fixedBytes d 32;
    priv ← wrap_err (λ _, ErrConstructor) (Secp256k1.NewPrivateKey dBytes);
    if negb (Secp256k1.Equal (Secp256k1.Public priv) (Some pub)) then Err ErrKeyInconsistent
    else Ok (Secp256k1Key priv).

(** ** OKP *)

(** [strings.HasPrefix(alg, "ECDH-ES")]. *)
Definition is_ecdh_es (alg : bytes) : bool :=
  bool_decide (alg = []) || bool_decide (take 7 alg = str_bytes "ECDH-ES").

Definition unmarshalOKPPublic (m : jmap) (alg : bytes) : outcome error PublicKey :=
  crv ← reqString m "crv";
  _ ← reqString m "x";
  _ ← (if bool_decide (crv = str_bytes "Ed25519") then
         if negb (alg_allows alg "EdDSA") then Err ErrAlgMismatch else Ok tt
       else if bool_decide (crv = str_bytes "X25519") then
         if negb (is_ecdh_es alg) then Err ErrAlgMismatch else Ok tt
       else Err ErrUnsupportedCrv);
  raw ← parseViaJWX m;
  match raw with
  | RawEd25519Pub r => ed25519_NewPublicKey r
  | RawECDHPub r => x25519_NewPublicKey r
  | _ => Err ErrInvalidMember
  end.

Definition unmarshalOKPPrivate (m : jmap) (alg dStr : bytes) : outcome error PrivateKey :=
  crv ← reqString m "crv";
  xStr ← reqString m "x";
  if bool_decide (crv = str_bytes "Ed25519") then
    if negb (alg_allows alg "EdDSA") then Err ErrAlgMismatch
    else
      seed ← decodeBytes dStr 32;
      x ← decodeBytes xStr 32;
      let px := drop 32 (ed25519_from_seed seed) in
      if negb (ct_equal px x) then Err ErrKeyInconsistent
      else
        raw ← parseViaJWX m;
        match raw with
        | RawEd25519Priv rp => ed25519_NewPrivateKey rp
        | _ => Err ErrInvalidMember
        end
  else if bool_decide (crv = str_bytes "X25519") then
    if negb (is_ecdh_es alg) then Err ErrAlgMismatch
    else
      d ← decodeBytes dStr 32;
      x ← decodeBytes xStr 32;
      _ ← x25519_NewPrivateKey d;
      let px := x25519_base d in
      if negb (ct_equal px x) then Err ErrKeyInconsistent
      else
        raw ← parseViaJWX m;
        match raw with
        | RawECDHPriv rp => x25519_NewPrivateKey rp
        | _ => Err ErrInvalidMember
        end
  else Err ErrUnsupportedCrv.

(** ** EC *)

Definition ec_curve (crv : bytes) : option (Curve * Hash * string * nat) :=
  if bool_decide (crv = str_bytes "P-256") then Some (P256, SHA256, "ES256"%string, 32%nat)
  else if bool_decide (crv = str_bytes "P-384") then Some (P384, SHA384, "ES384"%string, 48%nat)
  else None.

Definition unmarshalECPublic (m : jmap) (alg : bytes) : outcome error PublicKey :=
  crv ← reqString m "crv";
  _ ← reqString m "x";
  _ ← reqString m "y";
  match ec_curve crv with
  | None => Err ErrUnsupportedCrv
  | Some (_, hash, want, _) =>
      if negb (alg_allows alg want) then Err ErrAlgMismatch
      else
        raw ← parseViaJWX m;
        match raw with
        | RawECDSAPub curve x y =>
            ecdsa_NewPublicKey curve x y hash
        | _ => Err ErrInvalidMember
        end
  end.

(** The order of the base point, FIPS 186-4 appendix D.1.2. *)
Definition curve_order (c : Curve) : Z :=
  match c with
  | P256 => 0xffffffff00000000ffffffffffffffffbce6faada7179e84f3b9cac2fc632551
  | P384 => 0xffffffffffffffffffffffffffffffffffffffffffffffffc7634d81f4372ddf581a0db248b0a77aecec196accc52973
  | OtherCurve _ => 0
  end.

Definition validateECScalar (curve : Curve) (d x y : Z) (size : nat) : outcome error unit :=
  if d <=? 0 then Err ErrInvalidMember
  else if curve_order curve <=? d then Err ErrInvalidMember
  else
    dBytes ← fixedBytes d size;
    let '(dx, dy) := scalar_base_mult curve dBytes in
    if negb (dx =? x) || negb (dy =? y) then Err ErrKeyInconsistent else Ok tt.

Definition unmarshalECPrivate (m : jmap) (alg dStr : bytes) : outcome error PrivateKey :=
  crv ← reqString m "crv";
  _ ← reqString m "x";
  _ ← reqString m "y";
  match ec_curve crv with
  | None => Err ErrUnsupportedCrv
  | Some (named, hash, want, size) =>
      if negb (alg_allows alg want) then Err ErrAlgMismatch
      else
        raw ← parseViaJWX m;
        match raw with
        | RawECDSAPriv curve d x y =>
            _ ← validateECScalar named d x y size;
            ecdsa_NewPrivateKey curve d x y hash
        | _ => Err ErrInvalidMember
        end
  end.

(** ** RSA *)

(** The scheme, [true] for PSS, and the hash. *)
Definition rsaAlgParams (alg : bytes) : option (bool * Hash) :=
  if bool_decide (alg = str_bytes "PS256") then Some (true, SHA256)
  else if bool_decide (alg = str_bytes "PS384") then Some (true, SHA384)
  else if bool_decide (alg = str_bytes "PS512") then Some (true, SHA512)
  else if bool_decide (alg = str_bytes "RS256") then Some (false, SHA256)
  else if bool_decide (alg = str_bytes "RS384") then Some (false, SHA384)
  else if bool_decide (alg = str_bytes "RS512") then Some (false, SHA512)
  else None.

Definition unmarshalRSAPublic (m : jmap) (alg : bytes) : outcome error PublicKey :=
  if bool_decide (alg = []) then Err ErrAlgRequired
  else
    match rsaAlgParams alg with
    | None => Err ErrAlgMismatch
    | Some (pss, hash) =>
        _ ← reqString m "n";
        _ ← reqString m "e";
        raw ← parseViaJWX m;
        match raw with
        | RawRSAPub n e => if pss : bool then NewPSSPublicKey n e hash else NewPKCS1PublicKey n e hash
        | _ => Err ErrInvalidMember
        end
    end.

Definition unmarshalRSAPrivate (m : jmap) (alg dStr : bytes) : outcome error PrivateKey :=
  if bool_decide (alg = []) then Err ErrAlgRequired
  else
    match rsaAlgParams alg with
    | None => Err ErrAlgMismatch
    | Some (pss, hash) =>
        _ ← reqString m "n";
        _ ← reqString m "e";
        d ← decodeInt dStr;
        raw ← parsePublicViaJWX m;
        match raw with
        | RawRSAPub n e => if pss : bool then NewPSSPrivateKey n e d hash else NewPKCS1PrivateKey n e d hash
        | _ => Err ErrInvalidMember
        end
    end.

(** ** The API *)

Definition Marshal (k : PublicKey) : outcome error jmap :=
  match k with
  | Ed25519Pub b => marshalViaJWX (RawEd25519Pub b) "EdDSA"
  | X25519Pub b =>
      if negb (zlen b =? 32) then Err ErrInvalidMember else marshalViaJWX (RawECDHPub b) ""
  | Secp256k1Pub b => marshalSecp256k1Public b
  | EcdsaPub curve x y => alg ← algorithm_of k; marshalViaJWX (RawECDSAPub curve x y) alg
  | PSSPub _ n e => alg ← algorithm_of k; marshalViaJWX (RawRSAPub n e) alg
  | PKCS1Pub _ n e => alg ← algorithm_of k; marshalViaJWX (RawRSAPub n e) alg
  | OtherPub _ _ => Err ErrUnsupportedKeyType
  end.

Definition MarshalPrivate (k : PrivateKey) : outcome error jmap :=
  match k with
  | Ed25519Key b => marshalViaJWX (RawEd25519Priv b) "EdDSA"
  | X25519Key b =>
      if negb (zlen b =? 32) then Err ErrInvalidMember else marshalViaJWX (RawECDHPriv b) ""
  | Secp256k1Key k => marshalSecp256k1Private k
  | EcdsaKey _ curve d x y => alg ← algorithm_of (EcdsaPub curve x y); marshalViaJWX (RawECDSAPriv curve d x y) alg
  | PSSKey hash n e d => alg ← algorithm_of (PSSPub hash n e); marshalViaJWX (RawRSAPriv n e d) alg
  | PKCS1Key hash n e d => alg ← algorithm_of (PKCS1Pub hash n e); marshalViaJWX (RawRSAPriv n e d) alg
  | OtherKey _ => Err ErrUnsupportedKeyType
  end.

Definition Unmarshal (m : option jmap) : outcome error PublicKey :=
  match m with
  | None => Err ErrInvalidMember
  | Some m =>
      kty ← reqString m "kty";
      if bool_decide (is_Some (member m "d")) then Err ErrInvalidMember
      else
        let alg := optString m "alg" in
        if bool_decide (alg = str_bytes "none") then Err ErrAlgNone
        else if bool_decide (kty = str_bytes "OKP") then unmarshalOKPPublic m alg
        else if bool_decide (kty = str_bytes "EC") then
          if bool_decide (optString m "crv" = str_bytes "secp256k1") then unmarshalSecp256k1Public m alg
          else unmarshalECPublic m alg
        else if bool_decide (kty = str_bytes "RSA") then unmarshalRSAPublic m alg
        else Err ErrUnsupportedKty
  end.

Definition UnmarshalPrivate (m : option jmap) : outcome error PrivateKey :=
  match m with
  | None => Err ErrInvalidMember
  | Some m =>
      kty ← reqString m "kty";
      let alg := optString m "alg" in
      if bool_decide (alg = str_bytes "none") then Err ErrAlgNone
      else
        dStr ← reqString m "d";
        if bool_decide (kty = str_bytes "OKP") then unmarshalOKPPrivate m alg dStr
        else if bool_decide (kty = str_bytes "EC") then
          if bool_decide (optString m "crv" = str_bytes "secp256k1") then unmarshalSecp256k1Private m alg dStr
          else unmarshalECPrivate m alg dStr
        else if bool_decide (kty = str_bytes "RSA") then unmarshalRSAPrivate m alg dStr
        else Err ErrUnsupportedKty
  end.
End Operations.
End Jwk.

(** What key binding needs of this package: points by the curve library, keys by
    [Unmarshal]. *)
#[export] Instance jwk_material `{Dcrd, Jwx, Curves} : Binder.KeyMaterial :=
  {| Binder.secp256k1_point b := bool_decide (is_Some (parse_point b));
     Binder.jwk_unmarshal m := wrap_err (λ _, tt) (Jwk.Unmarshal (Some m)) |}.
