(* ===== verification/JwkProofs.v ===== *)
(** * Properties of [identity/jwk] *)
From S2P Require Import Prelude GoBig Canonical Signature Secp256k1 Did Binder Base64 Kms Jwk.
Import Canonical Signature Jwk.
#[local] Open Scope Z_scope.
#[local] Arguments be_value : simpl never.
#[local] Arguments big_bytes : simpl never.
#[local] Arguments be_bytes : simpl never.
#[local] Arguments str_bytes : simpl never.

(** What the code relies on of jwx: an Ed25519 key comes from the curve of that name
    (RFC 8037 section 2). *)
Class JwxLaws `{Jwx} : Prop := {
  jwx_ed25519 m b : jwx_parse m = Some (RawEd25519Pub b) → optString m "crv" = str_bytes "Ed25519"
}.

(** Of the decred library: its points are on its curve, the compressed form is the
    parity of y and x (SEC 1 section 2.3.3), and a private key is determined by its
    serialized scalar. *)
Class KoblitzLaws `{Dcrd, Curves} : Prop := {
  point_on_curve p x y : point_uncompressed p = x04 :: x ++ y → length x = 32%nat → length y = 32%nat →
    koblitz_on_curve (be_value x) (be_value y) = true;
  point_sec1 p x y : point_uncompressed p = x04 :: x ++ y → length x = 32%nat → length y = 32%nat →
    point_compressed p = (if Z.odd (be_value y) then x03 else x02) :: x;
  priv_scalar d : length (priv_serialize d) = 32%nat ∧ 1 ≤ be_value (priv_serialize d) < Secp256k1.order ∧
    priv_new (be_value (priv_serialize d)) = d
}.

(** The "kty" of a key. *)
Definition kty_of (k : PublicKey) : string :=
  match k with
  | Ed25519Pub _ | X25519Pub _ => "OKP"
  | Secp256k1Pub _ | EcdsaPub _ _ _ => "EC"
  | PSSPub _ _ _ | PKCS1Pub _ _ _ => "RSA"
  | OtherPub _ _ => ""
  end.

(** [alg] is absent or the algorithm the key itself resolves to, if it has one. *)
Definition alg_agrees (alg : bytes) (k : PublicKey) : Prop :=
  ∀ a, AlgorithmForPublicKey k = Ok a → alg = [] ∨ alg = str_bytes (JOSE a).

Section Public.
Context `{D : Dcrd, X : Jwx, C : Curves}.

Lemma alg_allows_spec alg want : alg_allows alg want = true → alg = [] ∨ alg = str_bytes want.
Proof. unfold alg_allows. rewrite orb_true_iff, !bool_decide_eq_true. done. Qed.

Lemma reqString_opt m k s : reqString m k = Ok s → optString m k = s.
Proof. unfold reqString, optString. destruct (member m k) as [[]|]; congruence. Qed.

Lemma secp256k1_public_sound m alg k : unmarshalSecp256k1Public m alg = Ok k → kty_of k = "EC"%string ∧ alg_agrees alg k.
Proof.
  unfold unmarshalSecp256k1Public. intros (xs & _ & (ys & _ & Hb)%bind_Ok)%bind_Ok.
  destruct (alg_allows alg "ES256K") eqn:Ha; [|done]. cbn [negb] in Hb.
  apply bind_Ok in Hb as (x & _ & (y & _ & (c & _ & (p & _ & [= <-])%bind_Ok)%bind_Ok)%bind_Ok).
  split; [done|]. intros a [= <-]. exact (alg_allows_spec _ _ Ha).
Qed.

Lemma okp_public_sound `{!JwxLaws} m alg k : unmarshalOKPPublic m alg = Ok k → kty_of k = "OKP"%string ∧ alg_agrees alg k.
Proof.
  unfold unmarshalOKPPublic. intros (crv & Hcrv & (xs & _ & ([] & Hc & (raw & Hr & Hk)%bind_Ok)%bind_Ok)%bind_Ok)%bind_Ok.
  unfold parseViaJWX in Hr. destruct (jwx_parse m) as [r|] eqn:E; [|done]. injection Hr as <-. destruct r; try done.
  - apply bind_Ok in Hk as (p & _ & [= <-]). split; [done|]. intros a [= <-].
    apply jwx_ed25519 in E. rewrite (reqString_opt _ _ _ Hcrv) in E. subst crv. rewrite bool_decide_eq_true_2 in Hc by done.
    destruct (alg_allows alg "EdDSA") eqn:Ha; [|done]. exact (alg_allows_spec _ _ Ha).
  - apply bind_Ok in Hk as (p & _ & [= <-]). split; [done|]. by intros a.
Qed.

Lemma ec_public_sound m alg k : unmarshalECPublic m alg = Ok k → kty_of k = "EC"%string ∧ alg_agrees alg k.
Proof.
  unfold unmarshalECPublic. intros (crv & _ & (xs & _ & (ys & _ & Hk)%bind_Ok)%bind_Ok)%bind_Ok.
  unfold ec_curve in Hk. repeat case_bool_decide; [| |done];
    (destruct (alg_allows alg _) eqn:Ha; [|done]; cbn [negb] in Hk; apply alg_allows_spec in Ha;
     apply bind_Ok in Hk as ([] & _ & Hk); try done; apply bind_Ok in Hk as (p & Hv & [= <-]);
     split; [done|]; destruct curve; try done; intros a [= <-]; exact Ha).
Qed.

Lemma rsa_public_sound m alg k : unmarshalRSAPublic m alg = Ok k → kty_of k = "RSA"%string ∧ alg_agrees alg k.
Proof.
  unfold unmarshalRSAPublic. case_bool_decide; [done|]. destruct (rsaAlgParams alg) as [[pss hash]|] eqn:Hp; [|done].
  intros (n & _ & (e & _ & (raw & _ & Hk)%bind_Ok)%bind_Ok)%bind_Ok. destruct raw; try done.
  unfold rsaAlgParams in Hp. repeat case_bool_decide; simplify_eq;
    apply bind_Ok in Hk as (p & _ & [= <-]);
    (split; [done|]; intros a [= <-]; by right).
Qed.

(** What [Unmarshal] accepts: the JWK has no private member and no "alg" of "none", the
    key is of the declared "kty", and an "alg" that is present names the algorithm the
    returned key verifies with. *)
Lemma Unmarshal_sound_spec `{!JwxLaws} m k : Unmarshal (Some m) = Ok k →
  member m "d" = None ∧ optString m "alg" ≠ str_bytes "none" ∧ reqString m "kty" = Ok (str_bytes (kty_of k)) ∧
  alg_agrees (optString m "alg") k.
Proof.
  cbn [Unmarshal]. intros (kty & Hkty & Hk)%bind_Ok. case_bool_decide as Hd; [done|]. case_bool_decide as Hn; [done|].
  split; [by apply eq_None_not_Some|]. split; [done|]. rewrite Hkty.
  repeat case_bool_decide; subst; try done;
    first [apply okp_public_sound in Hk as [-> ?]|apply secp256k1_public_sound in Hk as [-> ?]
          |apply ec_public_sound in Hk as [-> ?]|apply rsa_public_sound in Hk as [-> ?]]; done.
Qed.

(** C31.  Algorithm agility without confusion.  A JWK that [Unmarshal] accepts has no private
    member and no "alg" of "none", the key is of the declared "kty", and an "alg" that
    is present names the algorithm the returned key resolves to. *)
Theorem Unmarshal_sound `{!JwxLaws} m k : Unmarshal (Some m) = Ok k →
  member m "d" = None ∧ optString m "alg" ≠ str_bytes "none" ∧ reqString m "kty" = Ok (str_bytes (kty_of k)) ∧
  ∀ a, AlgorithmForPublicKey k = Ok a → optString m "alg" = [] ∨ optString m "alg" = str_bytes (JOSE a).
Proof. apply Unmarshal_sound_spec. Qed.
End Public.

(** ** The secp256k1 path *)

Section Secp256k1.
Context `{D : Dcrd, L : !Secp256k1.DcrdLaws, X : Jwx, C : Curves, KL : !KoblitzLaws}.

Lemma point_halves p : ∃ x y, point_uncompressed p = x04 :: x ++ y ∧ length x = 32%nat ∧ length y = 32%nat.
Proof.
  destruct (Secp256k1.uncompressed_form p) as (xy & E & Hl). exists (take 32 xy), (drop 32 xy).
  rewrite take_drop, length_take, length_drop. split_and!; [done|lia..].
Qed.

Lemma encodeFixedInt_bytes b : length b = 32%nat → encodeFixedInt (be_value b) 32 = Ok (encode_rawurl b).
Proof.
  intros Hl. unfold encodeFixedInt. pose proof (be_value_range b) as Hr. rewrite Hl in Hr.
  assert (Hb : (length (big_bytes (be_value b)) ≤ 32)%nat) by (apply big_bytes_length; lia).
  rewrite right_align_ok by done. cbn [mbind outcome_bind]. do 2 f_equal.
  rewrite <- be_bytes_pad, big_bytes_value, Z.abs_eq by (done || lia). by rewrite <- Hl at 1; rewrite be_bytes_value.
Qed.

Lemma decodeInt_encode b : decodeInt (encode_rawurl b) = Ok (be_value b).
Proof. unfold decodeInt. by rewrite decode_encode_rawurl. Qed.

(** The JWK of the point with coordinates [x] and [y]. *)
Definition secp_jwk (x y : bytes) : jmap :=
  [ (str_bytes "kty", JStr (str_bytes "EC")); (str_bytes "crv", JStr (str_bytes "secp256k1"));
    (str_bytes "alg", JStr (str_bytes "ES256K")); (str_bytes "x", JStr (encode_rawurl x));
    (str_bytes "y", JStr (encode_rawurl y)) ].

Lemma marshal_secp p x y : point_uncompressed p = x04 :: x ++ y → length x = 32%nat → length y = 32%nat →
  marshalSecp256k1Public (Secp256k1.PubBytes p) = Ok (secp_jwk x y).
Proof.
  intros E Hx Hy. unfold marshalSecp256k1Public, Secp256k1.PubBytes. rewrite Secp256k1.parse_compressed, E.
  rewrite (proj2 (Z.eqb_eq _ _)) by (cbn [length]; rewrite length_app; lia). cbn [negb orb head].
  rewrite bool_decide_eq_true_2 by done. cbn [negb].
  rewrite (go_slice_mid [x04] x y 1 33) by (cbn; lia). cbn [mbind outcome_bind].
  rewrite (go_slice_tail (x04 :: x) y 33 65) by (cbn [app length]; rewrite ?length_app; lia). cbn [mbind outcome_bind].
  change (algorithm_of (Secp256k1Pub _)) with (Ok (E := error) "ES256K"%string). cbn [mbind outcome_bind].
  rewrite !encodeFixedInt_bytes by done. reflexivity.
Qed.

Lemma MarshalCompressed_point p x y : point_uncompressed p = x04 :: x ++ y → length x = 32%nat → length y = 32%nat →
  MarshalCompressed (be_value x) (be_value y) = Ok (Secp256k1.PubBytes p).
Proof.
  intros E Hx Hy. unfold MarshalCompressed, Secp256k1.PubBytes. rewrite (point_on_curve p x y E Hx Hy), andb_false_r.
  pose proof (be_value_range x) as Hr. rewrite Hx in Hr. unfold fill_bytes.
  rewrite (proj2 (Z.leb_le _ _)) by (apply BitLen_le; [lia|]; rewrite Z.abs_eq by lia; apply Hr).
  rewrite Z.abs_eq by lia. rewrite <- Hx, be_bytes_value. cbn [mbind outcome_bind]. by rewrite (point_sec1 p x y E Hx Hy).
Qed.

Lemma NewPublicKey_point p : Secp256k1.NewPublicKey (Secp256k1.PubBytes p) = Ok p.
Proof. apply NewPublicKey_parse. Qed.

Lemma unmarshal_secp_public p x y m : point_uncompressed p = x04 :: x ++ y → length x = 32%nat → length y = 32%nat →
  reqString m "x" = Ok (encode_rawurl x) → reqString m "y" = Ok (encode_rawurl y) →
  unmarshalSecp256k1Public m (str_bytes "ES256K") = Ok (Secp256k1Pub (Secp256k1.PubBytes p)).
Proof.
  intros E Hx Hy Hmx Hmy. unfold unmarshalSecp256k1Public. rewrite Hmx, Hmy. cbn [mbind outcome_bind].
  change (negb (alg_allows (str_bytes "ES256K") "ES256K")) with false. cbv iota.
  rewrite !decodeInt_encode. cbn [mbind outcome_bind]. rewrite (MarshalCompressed_point p) by done.
  cbn [mbind outcome_bind]. rewrite NewPublicKey_point. reflexivity.
Qed.

(** The JWK of a secp256k1 public key parses back to the key. *)
Theorem Unmarshal_Marshal_secp256k1 p : ∃ m,
  Marshal (Secp256k1Pub (Secp256k1.PubBytes p)) = Ok m ∧ Unmarshal (Some m) = Ok (Secp256k1Pub (Secp256k1.PubBytes p)).
Proof.
  destruct (point_halves p) as (x & y & E & Hx & Hy). exists (secp_jwk x y). split; [by apply marshal_secp|].
  transitivity (unmarshalSecp256k1Public (secp_jwk x y) (str_bytes "ES256K")); [reflexivity|].
  by apply (unmarshal_secp_public p x y).
Qed.

(** The private JWK of the scalar [d] and the coordinates of its point. *)
Definition secp_private_jwk (x y d : bytes) : jmap := secp_jwk x y ++ [(str_bytes "d", JStr (encode_rawurl d))].

Lemma unmarshal_secp_private (d : Secp256k1.PrivateKey) x y :
  point_uncompressed (Secp256k1.Public d) = x04 :: x ++ y → length x = 32%nat → length y = 32%nat →
  UnmarshalPrivate (Some (secp_private_jwk x y (priv_serialize d))) = Ok (Secp256k1Key d).
Proof.
  intros E Hx Hy. destruct (priv_scalar d) as (Hl & Hd & Hn). set (m := secp_private_jwk x y _).
  transitivity (unmarshalSecp256k1Private m (str_bytes "ES256K") (encode_rawurl (priv_serialize d))); [reflexivity|].
  unfold unmarshalSecp256k1Private. change (reqString m "x") with (Ok (E := error) (encode_rawurl x)).
  change (reqString m "y") with (Ok (E := error) (encode_rawurl y)). cbn [mbind outcome_bind].
  change (negb (alg_allows (str_bytes "ES256K") "ES256K")) with false. cbv iota.
  rewrite !decodeInt_encode. cbn [mbind outcome_bind]. rewrite (MarshalCompressed_point (Secp256k1.Public d)) by done.
  cbn [mbind outcome_bind]. rewrite NewPublicKey_point. cbn [wrap_err mbind outcome_bind].
  assert (fixedBytes (be_value (priv_serialize d)) 32 = Ok (priv_serialize d)) as ->.
  { pose proof (encodeFixedInt_bytes _ Hl) as He. unfold encodeFixedInt in He. unfold fixedBytes.
    apply bind_Ok in He as (b & Hb & He). injection He as He. apply encode_rawurl_inj in He as ->. exact Hb. }
  cbn [mbind outcome_bind]. unfold Secp256k1.NewPrivateKey. rewrite (proj2 (Z.eqb_eq (zlen _) 32)) by lia. cbn [negb].
  rewrite arr_copy32, Secp256k1.modn_set_spec by done. rewrite (proj2 (Z.leb_gt _ _)), Z.mod_small by lia.
  rewrite (proj2 (Z.eqb_neq _ _)) by lia. cbn [wrap_err mbind outcome_bind]. rewrite Hn.
  by rewrite (proj2 (Equal_iff (Secp256k1.Public d) (Secp256k1.Public d))).
Qed.

(** A private key survives its JWK, and that JWK is refused as a public one. *)
Theorem UnmarshalPrivate_MarshalPrivate_secp256k1 (d : Secp256k1.PrivateKey) : ∃ m,
  MarshalPrivate (Secp256k1Key d) = Ok m ∧ UnmarshalPrivate (Some m) = Ok (Secp256k1Key d) ∧
  Unmarshal (Some m) = Err ErrInvalidMember.
Proof.
  destruct (point_halves (Secp256k1.Public d)) as (x & y & E & Hx & Hy). exists (secp_private_jwk x y (priv_serialize d)).
  split_and!; [|by apply unmarshal_secp_private|reflexivity].
  cbn [MarshalPrivate]. unfold marshalSecp256k1Private. rewrite (marshal_secp _ x y) by done. cbn [mbind outcome_bind].
  unfold Secp256k1.Bytes. by rewrite encodeFixedInt_bytes by apply priv_scalar.
Qed.

(** ** Which path returns a secp256k1 key *)

Lemma okp_private_other m alg dStr d : unmarshalOKPPrivate m alg dStr ≠ Ok (Secp256k1Key d).
Proof.
  unfold unmarshalOKPPrivate. intros (crv & _ & (xs & _ & Hk)%bind_Ok)%bind_Ok. case_bool_decide; [|case_bool_decide; [|done]].
  - destruct (negb _) in Hk; [done|]. apply bind_Ok in Hk as (seed & _ & (x & _ & Hk)%bind_Ok).
    destruct (negb _) in Hk; [done|]. apply bind_Ok in Hk as (raw & _ & Hk). destruct raw; try done.
    by apply bind_Ok in Hk as (p & _ & [=]).
  - destruct (negb _) in Hk; [done|]. apply bind_Ok in Hk as (seed & _ & (x & _ & (u & _ & Hk)%bind_Ok)%bind_Ok).
    destruct (negb _) in Hk; [done|]. apply bind_Ok in Hk as (raw & _ & Hk). destruct raw; try done.
    by apply bind_Ok in Hk as (p & _ & [=]).
Qed.

Lemma ec_private_other m alg dStr d : unmarshalECPrivate m alg dStr ≠ Ok (Secp256k1Key d).
Proof.
  unfold unmarshalECPrivate. intros (crv & _ & (xs & _ & (ys & _ & Hk)%bind_Ok)%bind_Ok)%bind_Ok.
  destruct (ec_curve crv) as [[[[c h] w] sz]|]; [|done]. destruct (negb _) in Hk; [done|].
  apply bind_Ok in Hk as (raw & _ & Hk). destruct raw; try done.
  apply bind_Ok in Hk as (u & _ & Hk). by apply bind_Ok in Hk as (p & _ & [=]).
Qed.

Lemma rsa_private_other m alg dStr d : unmarshalRSAPrivate m alg dStr ≠ Ok (Secp256k1Key d).
Proof.
  unfold unmarshalRSAPrivate. case_bool_decide; [done|]. destruct (rsaAlgParams alg) as [[pss hash]|]; [|done].
  intros (ns & _ & (es & _ & (n & _ & (raw & _ & Hk)%bind_Ok)%bind_Ok)%bind_Ok)%bind_Ok. destruct raw; try done.
  by destruct pss; apply bind_Ok in Hk as (p & _ & [=]).
Qed.

Lemma private_secp256k1 m d : UnmarshalPrivate (Some m) = Ok (Secp256k1Key d) →
  ∃ dStr, reqString m "d" = Ok dStr ∧ unmarshalSecp256k1Private m (optString m "alg") dStr = Ok (Secp256k1Key d).
Proof.
  cbn [UnmarshalPrivate]. intros (kty & _ & Hk)%bind_Ok. case_bool_decide; [done|].
  apply bind_Ok in Hk as (dStr & HdS & Hk). exists dStr. split; [done|].
  repeat case_bool_decide; try done; exfalso; revert Hk;
    first [apply okp_private_other|apply ec_private_other|apply rsa_private_other].
Qed.

Lemma fixedBytes_value n b : fixedBytes n 32 = Ok b → 0 ≤ n → be_value b = n.
Proof.
  unfold fixedBytes, right_align. intros Hb Hn. case_match; [|done]. injection Hb as <-.
  rewrite be_value_zeros, big_bytes_value. lia.
Qed.

Lemma decodeInt_nonneg s n : decodeInt s = Ok n → 0 ≤ n.
Proof. unfold decodeInt. case_match; [|done]. intros [= <-]. apply be_value_range. Qed.

Lemma NewPrivateKey_scalar b k : Secp256k1.NewPrivateKey b = Ok k →
  1 ≤ be_value b < Secp256k1.order ∧ k = priv_new (be_value b).
Proof.
  unfold Secp256k1.NewPrivateKey. destruct (Z.eqb_spec (zlen b) 32) as [Hl|]; [|done]. cbn [negb].
  rewrite arr_copy32, Secp256k1.modn_set_spec by lia. destruct (Z.leb_spec Secp256k1.order (be_value b)); [done|].
  pose proof (be_value_range b). rewrite Z.mod_small by lia. destruct (Z.eqb_spec (be_value b) 0); [done|].
  intros [= <-]. split; [lia|done].
Qed.

(** A private JWK is only accepted when its "d" is the scalar of the returned key and
    its "x" and "y" compress to the public key of that scalar. *)
Theorem UnmarshalPrivate_consistent m d : UnmarshalPrivate (Some m) = Ok (Secp256k1Key d) →
  ∃ x y n, decodeInt (optString m "x") = Ok x ∧ decodeInt (optString m "y") = Ok y ∧
    decodeInt (optString m "d") = Ok n ∧ 1 ≤ n < Secp256k1.order ∧ d = priv_new n ∧
    (∃ c, MarshalCompressed x y = Ok c ∧ Secp256k1.NewPublicKey c = Ok (Secp256k1.Public d)).
Proof.
  intros (dStr & HdS & Hk)%private_secp256k1. apply reqString_opt in HdS. rewrite HdS.
  unfold unmarshalSecp256k1Private in Hk. apply bind_Ok in Hk as (xs & Hxs & (ys & Hys & Hk)%bind_Ok).
  destruct (negb (alg_allows _ _)) in Hk; [done|].
  apply bind_Ok in Hk as (x & Hx & (y & Hy & (n & Hn & (c & Hc & (p & Hp & (db & Hdb & (priv & Hpriv & Hk)%bind_Ok)%bind_Ok)%bind_Ok)%bind_Ok)%bind_Ok)%bind_Ok).
  destruct (Secp256k1.Equal _ _) eqn:He in Hk; [|done]. injection Hk as <-. apply Equal_iff in He as [= ->].
  apply reqString_opt in Hxs, Hys. rewrite Hxs, Hys. apply wrap_err_Ok in Hp, Hpriv.
  apply NewPrivateKey_scalar in Hpriv. rewrite (fixedBytes_value n db) in Hpriv by (done || by eapply decodeInt_nonneg).
  exists x, y, n. destruct Hpriv as [Hn' ->]. split_and!; try done; [lia..|]. by exists c.
Qed.
End Secp256k1.

(** ** Inputs the secp256k1 path panics on *)

(** The JWK of two integers. *)
Definition xy_jwk (x y : Z) : jmap := secp_jwk (be_bytes 32 x) (be_bytes 32 y).

Section Panics.
Context `{D : Dcrd, X : Jwx, C : Curves}.

Lemma MarshalCompressed_off x y : koblitz_on_curve x y = false → x ≠ 0 → MarshalCompressed x y = Panic.
Proof. intros Hc Hx. unfold MarshalCompressed. rewrite Hc, (proj2 (Z.eqb_neq x 0)) by done. done. Qed.

Lemma decodeInt_coord z : 0 ≤ z < 2 ^ 256 → decodeInt (encode_rawurl (be_bytes 32 z)) = Ok z.
Proof.
  intros Hz. rewrite decodeInt_encode, be_bytes_small; [done|]. by change (256 ^ Z.of_nat 32) with (2 ^ 256).
Qed.

Lemma Unmarshal_off_curve x y : 0 < x < 2 ^ 256 → 0 ≤ y < 2 ^ 256 → koblitz_on_curve x y = false →
  Unmarshal (Some (xy_jwk x y)) = Panic.
Proof.
  intros Hx Hy Hc. transitivity (unmarshalSecp256k1Public (xy_jwk x y) (str_bytes "ES256K")); [reflexivity|].
  unfold unmarshalSecp256k1Public.
  change (reqString (xy_jwk x y) "x") with (Ok (E := error) (encode_rawurl (be_bytes 32 x))).
  change (reqString (xy_jwk x y) "y") with (Ok (E := error) (encode_rawurl (be_bytes 32 y))). cbn [mbind outcome_bind].
  change (negb (alg_allows (str_bytes "ES256K") "ES256K")) with false. cbv iota.
  rewrite !decodeInt_coord by lia. cbn [mbind outcome_bind]. by rewrite MarshalCompressed_off by (done || lia).
Qed.

(** A point that is not on the curve does not give [ErrInvalidMember], it panics. *)
Theorem Unmarshal_off_curve_panics x y : 0 < x < 2 ^ 256 → 0 ≤ y < 2 ^ 256 → koblitz_on_curve x y = false →
  Unmarshal (Some (xy_jwk x y)) = Panic.
Proof. apply Unmarshal_off_curve. Qed.

(** The verification method of a DID document that carries such a JWK. *)
Definition xy_method (keyID docID : string) (x y : Z) : Did.Method :=
  Did.MkMethod keyID "JsonWebKey2020" docID "" (xy_jwk x y) "".

(** Key binding calls [Unmarshal] on the JWK of the document it is given, so the
    panic reaches every verification of an attestation signed under that method. *)
Theorem Bind_off_curve_panics keyID x y d pre post : 0 < x < 2 ^ 256 → 0 ≤ y < 2 ^ 256 →
  koblitz_on_curve x y = false → Forall (λ m, Binder.methodMatches m (Did.DocID d) keyID = false) pre →
  Did.VerificationMethod d = pre ++ xy_method keyID (Did.DocID d) x y :: post →
  Binder.Bind keyID (Some d) = Panic.
Proof.
  intros Hx Hy Hc Hpre Hd. cbn [Binder.Bind]. rewrite Hd. clear Hd. induction Hpre as [|m pre Hm _ IH].
  - cbn [app Binder.bind_methods]. unfold Binder.methodMatches. cbn [Did.MID xy_method]. rewrite String.eqb_refl.
    cbn [orb negb]. change (negb (Binder.hasKeyMaterial _)) with false. cbv iota.
    transitivity (Binder.bindJWK (xy_jwk x y) []); [reflexivity|]. unfold Binder.bindJWK.
    change (Binder.algorithmsForJWK (xy_jwk x y)) with (Ok (E := Binder.error) [AlgorithmES256K]).
    cbn [mbind outcome_bind Binder.intersectAlgorithms]. change (Binder.intersectAlgorithms _ _) with [AlgorithmES256K].
    cbv iota. change (Binder.jwkWithAlg (xy_jwk x y) AlgorithmES256K) with (xy_jwk x y).
    cbn [Binder.jwk_unmarshal jwk_material]. by rewrite (Unmarshal_off_curve x y).
  - cbn [app Binder.bind_methods]. by rewrite Hm.
Qed.
End Panics.

(** ** Witnesses *)

Module JwkToy.
Import Toy.

#[local] Instance curves : Curves := {|
  ed25519_from_seed s := s ++ s;
  x25519_base d := d;
  scalar_base_mult _ d := (be_value d, 0);
  koblitz_on_curve x y := (1 <=? x) && (x <? Secp256k1.order) && (y =? 0)
|}.

#[local] Instance jwx : Jwx := {| jwx_marshal _ _ := None; jwx_parse _ := None; jwx_parse_public _ := None |}.

#[local] Instance jwx_laws : JwxLaws.
Proof. by split. Qed.

Lemma split_uncompressed (p : scalar) x y : x04 :: be_bytes 32 (val p) ++ replicate 32 x00 = x04 :: x ++ y →
  length x = 32%nat → x = be_bytes 32 (val p) ∧ y = replicate 32 x00.
Proof.
  intros E Hx. apply (f_equal tail) in E. cbn [tail] in E. apply app_inj_1 in E as [<- <-]; [done|].
  by rewrite be_bytes_length, Hx.
Qed.

#[local] Instance koblitz_laws : KoblitzLaws (H := dcrd).
Proof.
  split.
  - intros p x y E Hx _. apply split_uncompressed in E as [-> ->]; [|done]. cbn -[be_value be_bytes Secp256k1.order replicate].
    rewrite val_be. change (be_value (replicate 32 x00)) with 0. pose proof (val_range p).
    by rewrite (proj2 (Z.leb_le _ _)), (proj2 (Z.ltb_lt _ _)) by lia.
  - intros p x y E Hx _. apply split_uncompressed in E as [-> ->]; [|done]. reflexivity.
  - intros d. cbn -[be_value be_bytes Secp256k1.order mk]. rewrite be_bytes_length, val_be. pose proof (val_range d).
    split_and!; [done|lia|lia|]. apply mk_val.
Qed.
End JwkToy.

Lemma Unmarshal_sound_witness : let c := JwkToy.curves in let d := Toy.dcrd in let j := JwkToy.jwx in
  member (secp_jwk (be_bytes 32 5) (replicate 32 x00)) "d" = None.
Proof.
  intros c d j. apply (Unmarshal_sound (H := JwkToy.jwx_laws) _ (Secp256k1Pub (x02 :: be_bytes 32 5))).
  vm_compute. reflexivity.
Defined.

Lemma Unmarshal_Marshal_secp256k1_witness : let c := JwkToy.curves in let d := Toy.dcrd in let j := JwkToy.jwx in
  ∃ m, Marshal (Secp256k1Pub (Secp256k1.PubBytes (Toy.mk 5))) = Ok m ∧
    Unmarshal (Some m) = Ok (Secp256k1Pub (Secp256k1.PubBytes (Toy.mk 5))).
Proof. intros c d j. apply (Unmarshal_Marshal_secp256k1 (L := Toy.laws) (KL := JwkToy.koblitz_laws)). Defined.

Lemma UnmarshalPrivate_MarshalPrivate_secp256k1_witness : let c := JwkToy.curves in let d := Toy.dcrd in
  let j := JwkToy.jwx in
  ∃ m, MarshalPrivate (Secp256k1Key (Toy.mk 5)) = Ok m ∧ UnmarshalPrivate (Some m) = Ok (Secp256k1Key (Toy.mk 5)) ∧
    Unmarshal (Some m) = Err ErrInvalidMember.
Proof.
  intros c d j. apply (UnmarshalPrivate_MarshalPrivate_secp256k1 (L := Toy.laws) (KL := JwkToy.koblitz_laws)).
Defined.

(** A private JWK of the scalar 5. *)
Definition ex_private : jmap := secp_private_jwk (be_bytes 32 5) (replicate 32 x00) (be_bytes 32 5).

Lemma UnmarshalPrivate_consistent_witness : let c := JwkToy.curves in let d := Toy.dcrd in let j := JwkToy.jwx in
  ∃ x y n, decodeInt (optString ex_private "x") = Ok x ∧ decodeInt (optString ex_private "y") = Ok y ∧
    decodeInt (optString ex_private "d") = Ok n ∧ 1 ≤ n < Secp256k1.order ∧ Toy.mk 5 = priv_new n ∧
    (∃ c, MarshalCompressed x y = Ok c ∧ Secp256k1.NewPublicKey c = Ok (Secp256k1.Public (Toy.mk 5))).
Proof.
  intros c d j. apply (UnmarshalPrivate_consistent (L := Toy.laws)).
  apply (unmarshal_secp_private (L := Toy.laws) (KL := JwkToy.koblitz_laws) (Toy.mk 5) (be_bytes 32 5)); reflexivity.
Defined.

Lemma Unmarshal_off_curve_panics_witness : let c := JwkToy.curves in let d := Toy.dcrd in let j := JwkToy.jwx in
  Unmarshal (Some (xy_jwk 5 7)) = Panic.
Proof. intros c d j. apply Unmarshal_off_curve_panics; [lia|lia|reflexivity]. Defined.

Lemma Bind_off_curve_panics_witness : let c := JwkToy.curves in let d := Toy.dcrd in let j := JwkToy.jwx in
  Binder.Bind "did:web:a#k" (Some (Did.MkDocument "did:web:a" [xy_method "did:web:a#k" "did:web:a" 5 7] [])) = Panic.
Proof.
  intros c d j. apply (Bind_off_curve_panics _ 5 7 _ [] []); [lia|lia|vm_compute; reflexivity|constructor|done].
Defined.
