(* ===== verification/Json.v ===== *)
(** * encoding/json

    What the repository uses of the standard library's JSON: the syntax check and
    decoder behind [json.Unmarshal] into a [map[string]any], the values a
    [json.Decoder] reads one after the other, and [json.Marshal] of maps and trees.
    The values are the trees of Canonical.v, numbers as their literals.  Decoding
    unescapes strings and replaces what is not UTF-8; encoding sorts the keys and
    escapes what HTML would interpret. *)
From stdpp Require Import sorting.
From S2P Require Import Prelude Canonical.
Import Canonical.
#[local] Open Scope Z_scope.

Module Json.

(** ** Characters *)

Definition is_space (c : byte) : bool :=
  bool_decide (c = x20) || bool_decide (c = x09) || bool_decide (c = x0a) || bool_decide (c = x0d).

Fixpoint skip_ws (s : bytes) : bytes :=
  match s with
  | c :: s' => if is_space c then skip_ws s' else s
  | [] => []
  end.

(** The next character that is no space, if it is [c]. *)
Definition expect (c : byte) (s : bytes) : option bytes :=
  match skip_ws s with
  | d :: r => if bool_decide (d = c) then Some r else None
  | [] => None
  end.

Definition literal (lit s : bytes) : option bytes :=
  if bool_decide (take (length lit) s = lit) then Some (drop (length lit) s) else None.

(** ** Strings *)

Definition simple_escape (e : byte) : option byte :=
  if bool_decide (e = x22) then Some x22
  else if bool_decide (e = x5c) then Some x5c
  else if bool_decide (e = x2f) then Some x2f
  else if bool_decide (e = x62) then Some x08
  else if bool_decide (e = x66) then Some x0c
  else if bool_decide (e = x6e) then Some x0a
  else if bool_decide (e = x72) then Some x0d
  else if bool_decide (e = x74) then Some x09
  else None.

Definition hex4 (a b c d : byte) : option Z :=
  ha ← hex_value a; hb ← hex_value b; hc ← hex_value c; hd ← hex_value d;
  Some (ha * 4096 + hb * 256 + hc * 16 + hd).

(** The scanner, from behind the opening quote: the text up to the closing quote, and
    the rest. *)
Fixpoint scan_string (s : bytes) : option (bytes * bytes) :=
  match s with
  | [] => None
  | c :: s' =>
      if bool_decide (c = x22) then Some ([], s')
      else if bool_decide (c = x5c) then
        match s' with
        | [] => None
        | e :: s'' =>
            if bool_decide (e = x75) then
              match s'' with
              | h1 :: h2 :: h3 :: h4 :: s3 =>
                  _ ← hex4 h1 h2 h3 h4; r ← scan_string s3;
                  Some (c :: e :: h1 :: h2 :: h3 :: h4 :: r.1, r.2)
              | _ => None
              end
            else _ ← simple_escape e; r ← scan_string s''; Some (c :: e :: r.1, r.2)
        end
      else if b2z c <? 0x20 then None
      else r ← scan_string s'; Some (c :: r.1, r.2)
  end.

(** [getu4]. *)
Definition getu4 (s : bytes) : option Z :=
  match s with
  | b :: u :: h1 :: h2 :: h3 :: h4 :: _ =>
      if bool_decide (b = x5c) && bool_decide (u = x75) then hex4 h1 h2 h3 h4 else None
  | _ => None
  end.

Definition is_surrogate (r : Z) : bool := (0xd800 <=? r) && (r <=? 0xdfff).

(** [utf16.DecodeRune]; [None] for what is no pair. *)
Definition decode_pair (r1 r2 : Z) : option Z :=
  if (0xd800 <=? r1) && (r1 <? 0xdc00) && (0xdc00 <=? r2) && (r2 <? 0xe000)
  then Some ((r1 - 0xd800) * 1024 + (r2 - 0xdc00) + 0x10000) else None.

(** [unquoteBytes] on a scanned text, one character per round. *)
Fixpoint unquote_from (fuel : nat) (s : bytes) : bytes :=
  match fuel, s with
  | S f, c :: s' =>
      if bool_decide (c = x5c) then
        match s' with
        | e :: s'' =>
            if bool_decide (e = x75) then
              let r := default 0 (getu4 s) in
              let rest := drop 4 s'' in
              if is_surrogate r then
                match r2 ← getu4 rest; decode_pair r r2 with
                | Some p => encode_rune p ++ unquote_from f (drop 6 rest)
                | None => encode_rune rune_error ++ unquote_from f rest
                end
              else encode_rune r ++ unquote_from f rest
            else default x00 (simple_escape e) :: unquote_from f s''
        | [] => []
        end
      else
        let '(r, w) := decode_rune c s' in
        encode_rune r ++ unquote_from f (drop (w - 1) s')
  | _, _ => []
  end.

Definition unquote (s : bytes) : bytes := unquote_from (length s) s.

(** ** Numbers *)

Definition scan_sign (s : bytes) : bytes * bytes :=
  match s with
  | c :: s' => if bool_decide (c = x2d) then ([c], s') else ([], s)
  | [] => ([], [])
  end.

(** A zero stands alone. *)
Definition scan_int (s : bytes) : option (bytes * bytes) :=
  match s with
  | c :: s' =>
      if bool_decide (c = x30) then Some ([c], s')
      else if is_digit c then Some (span_digits s) else None
  | [] => None
  end.

Definition scan_digits1 (s : bytes) : option (bytes * bytes) :=
  match span_digits s with
  | ([], _) => None
  | dr => Some dr
  end.

Definition scan_frac (s : bytes) : option (bytes * bytes) :=
  match s with
  | c :: s' => if bool_decide (c = x2e) then r ← scan_digits1 s'; Some (c :: r.1, r.2) else Some ([], s)
  | [] => Some ([], [])
  end.

Definition scan_exp (s : bytes) : option (bytes * bytes) :=
  match s with
  | c :: s' =>
      if bool_decide (c = x65) || bool_decide (c = x45) then
        match s' with
        | g :: s'' =>
            if bool_decide (g = x2b) || bool_decide (g = x2d) then r ← scan_digits1 s''; Some (c :: g :: r.1, r.2)
            else r ← scan_digits1 s'; Some (c :: r.1, r.2)
        | [] => None
        end
      else Some ([], s)
  | [] => Some ([], [])
  end.

Definition scan_number (s : bytes) : option (bytes * bytes) :=
  let '(sg, s1) := scan_sign s in
  i ← scan_int s1;
  f ← scan_frac i.2;
  e ← scan_exp f.2;
  Some (sg ++ i.1 ++ f.1 ++ e.1, e.2).

(** ** Values *)

Definition maxNestingDepth : Z := 10000.

Definition of_option {A} (o : option A) : outcome unit A :=
  match o with Some a => Ok a | None => Err tt end.

(** A value at the start of [s] inside [depth] open arrays and objects, the members of
    an object and the elements of an array, each with the text behind it. *)
Fixpoint parse_value (fuel : nat) (depth : Z) (s : bytes) : outcome unit (json * bytes) :=
  match fuel with
  | O => OutOfFuel
  | S f =>
      match skip_ws s with
      | [] => Err tt
      | c :: s1 =>
          if bool_decide (c = x7b) then
            if maxNestingDepth <? depth + 1 then Err tt
            else match expect x7d s1 with
                 | Some s2 => Ok (JObj [], s2)
                 | None => r ← parse_members f (depth + 1) s1; Ok (JObj r.1, r.2)
                 end
          else if bool_decide (c = x5b) then
            if maxNestingDepth <? depth + 1 then Err tt
            else match expect x5d s1 with
                 | Some s2 => Ok (JArr [], s2)
                 | None => r ← parse_elements f (depth + 1) s1; Ok (JArr r.1, r.2)
                 end
          else if bool_decide (c = x22) then
            r ← of_option (scan_string s1); Ok (JStr (unquote r.1), r.2)
          else if bool_decide (c = x2d) || is_digit c then
            r ← of_option (scan_number (c :: s1)); Ok (JNum r.1, r.2)
          else if bool_decide (c = x74) then
            r ← of_option (literal (str_bytes "true") (c :: s1)); Ok (JBool true, r)
          else if bool_decide (c = x66) then
            r ← of_option (literal (str_bytes "false") (c :: s1)); Ok (JBool false, r)
          else if bool_decide (c = x6e) then
            r ← of_option (literal (str_bytes "null") (c :: s1)); Ok (JNull, r)
          else Err tt
      end
  end
with parse_members (fuel : nat) (depth : Z) (s : bytes) : outcome unit (list (bytes * json) * bytes) :=
  match fuel with
  | O => OutOfFuel
  | S f =>
      s1 ← of_option (expect x22 s);
      key ← of_option (scan_string s1);
      s2 ← of_option (expect x3a key.2);
      v ← parse_value f depth s2;
      match expect x2c v.2 with
      | Some s3 => r ← parse_members f depth s3; Ok ((unquote key.1, v.1) :: r.1, r.2)
      | None => s3 ← of_option (expect x7d v.2); Ok ([(unquote key.1, v.1)], s3)
      end
  end
with parse_elements (fuel : nat) (depth : Z) (s : bytes) : outcome unit (list json * bytes) :=
  match fuel with
  | O => OutOfFuel
  | S f =>
      v ← parse_value f depth s;
      match expect x2c v.2 with
      | Some s3 => r ← parse_elements f depth s3; Ok (v.1 :: r.1, r.2)
      | None => s3 ← of_option (expect x5d v.2); Ok ([v.1], s3)
      end
  end.

(** Every second call consumes a character. *)
Definition parse_fuel (s : bytes) : nat := 2 * length s + 2.

(** [checkValid]: one value and nothing but space behind it. *)
Definition parse_document (s : bytes) : outcome unit json :=
  r ← parse_value (parse_fuel s) 0 s;
  match skip_ws r.2 with
  | [] => Ok r.1
  | _ => Err tt
  end.

(** ** Decoding into Go values *)

Fixpoint map_set {A} (k : bytes) (v : A) (m : list (bytes * A)) : list (bytes * A) :=
  match m with
  | [] => [(k, v)]
  | (k', v') :: m' => if bool_decide (k' = k) then (k', v) :: m' else (k', v') :: map_set k v m'
  end.

(** A member name that comes again replaces the value. *)
Definition collect {A} (m : list (bytes * A)) : list (bytes * A) :=
  foldl (λ acc kv, map_set kv.1 kv.2 acc) [] m.

Fixpoint to_any (v : json) : json :=
  match v with
  | JArr l => JArr (to_any <$> l)
  | JObj m => JObj (collect ((λ kv, (kv.1, to_any kv.2)) <$> m))
  | _ => v
  end.

(** Every number has a finite [float64] value; [convertNumber] reports the others. *)
Fixpoint numbers_ok (v : json) : bool :=
  match v with
  | JNum lit => match ParseFloat lit with Some f => is_finite f | None => false end
  | JArr l => forallb numbers_ok l
  | JObj m => forallb (λ kv, numbers_ok kv.2) m
  | _ => true
  end.

(** [json.Unmarshal(data, &m)] of a [var m map[string]any]; null leaves it nil. *)
Definition unmarshal_map (data : bytes) : outcome unit (option (list (bytes * json))) :=
  v ← parse_document data;
  match v with
  | JNull => Ok None
  | JObj m => if numbers_ok v then Ok (Some (collect ((λ kv, (kv.1, to_any kv.2)) <$> m))) else Err tt
  | _ => Err tt
  end.

(** [m[k]]. *)
Definition lookup (k : bytes) (m : list (bytes * json)) : option json :=
  snd <$> find (λ kv, bytes_eqb kv.1 k) m.

(** ** Encoding *)

Definition hex_escape (r : Z) : bytes :=
  [x5c; x75; hex_digit (r `div` 4096); hex_digit ((r `div` 256) `mod` 16); hex_digit ((r `div` 16) `mod` 16);
   hex_digit (r `mod` 16)].

(** [appendString] with HTML escaping; a rune is [r] in [w] bytes [raw]. *)
Definition quote_rune (r : Z) (raw : bytes) : bytes :=
  if r =? 0x22 then [x5c; x22]
  else if r =? 0x5c then [x5c; x5c]
  else if r =? 0x08 then [x5c; x62]
  else if r =? 0x0c then [x5c; x66]
  else if r =? 0x0a then [x5c; x6e]
  else if r =? 0x0d then [x5c; x72]
  else if r =? 0x09 then [x5c; x74]
  else if (r <? 0x20) || (r =? 0x3c) || (r =? 0x3e) || (r =? 0x26) then hex_escape r
  else if (r =? 0x2028) || (r =? 0x2029) then hex_escape r
  else if (r =? rune_error) && (length raw =? 1)%nat then hex_escape rune_error
  else raw.

Fixpoint quote_from (fuel : nat) (s : bytes) : bytes :=
  match fuel, s with
  | S f, b :: s' =>
      let '(r, w) := decode_rune b s' in
      quote_rune r (take w s) ++ quote_from f (drop (w - 1) s')
  | _, _ => []
  end.

Definition quote (s : bytes) : bytes := x22 :: quote_from (length s) s ++ [x22].

Definition key_le {A} (a b : bytes * A) : Prop := bytes_leb a.1 b.1 = true.
#[global] Instance key_le_dec A : RelDecision (@key_le A).
Proof. intros a b. unfold key_le. apply _. Defined.

(** [json.Marshal] of a tree of maps, slices, strings, booleans and numbers; a number
    is given by the literal the encoder writes for it. *)
Fixpoint marshal (v : json) : bytes :=
  match v with
  | JNull => str_bytes "null"
  | JBool true => str_bytes "true"
  | JBool false => str_bytes "false"
  | JNum lit => lit
  | JStr s => quote s
  | JArr l => x5b :: commas (marshal <$> l) ++ [x5d]
  | JObj m =>
      let members := merge_sort key_le ((λ kv, (kv.1, marshal kv.2)) <$> m) in
      x7b :: commas ((λ kv, quote kv.1 ++ x3a :: kv.2) <$> members) ++ [x7d]
  end.

(** An integer and a list of strings as [json.Marshal] writes them. *)
Definition jnum (z : Z) : json := jint z.
Definition jstrs (l : list bytes) : json := JArr (JStr <$> l).

End Json.
