(* ===== verification/JsonProofs.v ===== *)
(** * Properties of encoding/json

    Decoding is total, and undoes encoding up to the order of the members. *)
From stdpp Require Import sorting.
From S2P Require Import Prelude Canonical CanonicalProofs CanonicalInjective Json.
Import Canonical Json.
#[local] Open Scope Z_scope.

(** ** Texts get shorter *)

Lemma skip_ws_length s : (length (skip_ws s) ≤ length s)%nat.
Proof. induction s as [|c s IH]; cbn [skip_ws length]; [done|]. case_match; cbn [length]; lia. Qed.

Lemma expect_length c s r : expect c s = Some r → (length r < length s)%nat.
Proof.
  unfold expect. pose proof (skip_ws_length s). destruct (skip_ws s) as [|d t]; [done|].
  case_bool_decide; [|done]. intros [= <-]. cbn [length] in *. lia.
Qed.

Lemma literal_length lit s r : lit ≠ [] → s ≠ [] → literal lit s = Some r → (length r < length s)%nat.
Proof.
  unfold literal. intros Hl Hs. case_bool_decide as E; [|done]. intros [= <-]. rewrite length_drop.
  destruct lit; [done|]. destruct s; [done|]. cbn [length]. lia.
Qed.

Lemma scan_string_length n s r : (length s ≤ n)%nat → scan_string s = Some r → (length r.2 < length s)%nat.
Proof.
  revert s r. induction n as [|n IH]; intros [|c s] r Hn; cbn [scan_string length] in *; try done; [lia|].
  case_bool_decide; [intros [= <-]; cbn; lia|]. case_bool_decide.
  - destruct s as [|e s]; [done|]. case_bool_decide.
    + destruct s as [|h1 [|h2 [|h3 [|h4 s]]]]; try done. destruct (hex4 h1 h2 h3 h4); [|done]. cbn [mbind option_bind].
      destruct (scan_string s) as [q|] eqn:E; [|done]. intros [= <-]. apply IH in E; cbn [length snd] in *; lia.
    + destruct (simple_escape e); [|done]. cbn [mbind option_bind].
      destruct (scan_string s) as [q|] eqn:E; [|done]. intros [= <-]. apply IH in E; cbn [length snd] in *; lia.
  - destruct (b2z c <? 0x20); [done|]. destruct (scan_string s) as [q|] eqn:E; [|done]. cbn [mbind option_bind].
    intros [= <-]. apply IH in E; cbn [snd] in *; lia.
Qed.

Lemma span_digits_length s : (length (span_digits s).1 + length (span_digits s).2 = length s)%nat.
Proof.
  induction s as [|c s IH]; cbn [span_digits]; [done|]. destruct (is_digit c); [|done].
  destruct (span_digits s) as [d r]. cbn [fst snd length] in *. lia.
Qed.

Lemma scan_digits1_length s r : scan_digits1 s = Some r → (length r.2 ≤ length s)%nat.
Proof.
  unfold scan_digits1. pose proof (span_digits_length s). destruct (span_digits s) as [[|d ds] t]; [done|].
  intros [= <-]. cbn in *. lia.
Qed.

Lemma scan_number_length s r : scan_number s = Some r → (length r.2 < length s)%nat.
Proof.
  unfold scan_number. destruct (scan_sign s) as [sg s1] eqn:E.
  assert (length s1 ≤ length s)%nat as H1 by (unfold scan_sign in E; repeat case_match; simplify_eq; cbn; lia).
  destruct (scan_int s1) as [i|] eqn:Ei; [|done]. cbn [mbind option_bind].
  assert (length i.2 < length s1)%nat as H2.
  { unfold scan_int in Ei. destruct s1 as [|c s1]; [done|]. case_bool_decide; [injection Ei as <-; cbn; lia|].
    destruct (is_digit c) eqn:Ed; [|done]. cbn [span_digits] in Ei. rewrite Ed in Ei. pose proof (span_digits_length s1).
    destruct (span_digits s1) as [d t]. injection Ei as <-. cbn in *. lia. }
  destruct (scan_frac i.2) as [f|] eqn:Ef; [|done]. cbn [mbind option_bind].
  assert (length f.2 ≤ length i.2)%nat as H3.
  { unfold scan_frac in Ef. destruct (i.2) as [|c t]; [by injection Ef as <-|].
    case_bool_decide; [|by injection Ef as <-]. destruct (scan_digits1 t) as [q|] eqn:Eq; [|done]. injection Ef as <-.
    apply scan_digits1_length in Eq. cbn in *. lia. }
  destruct (scan_exp f.2) as [e|] eqn:Ee; [|done]. cbn [mbind option_bind]. intros [= <-].
  assert (length e.2 ≤ length f.2)%nat as H4; [|cbn; lia].
  unfold scan_exp in Ee. destruct (f.2) as [|c t]; [by injection Ee as <-|].
  destruct (_ || _) in Ee; [|by injection Ee as <-]. destruct t as [|g t]; [done|]. destruct (_ || _) in Ee;
    match type of Ee with context [scan_digits1 ?x] => destruct (scan_digits1 x) as [q|] eqn:Eq end; try done;
    injection Ee as <-; apply scan_digits1_length in Eq; cbn in *; lia.
Qed.

(** ** Totality *)

(** The result of a parser on a text of length [n]: a value and a shorter rest, or an
    error. *)
Definition shorter {A} (n : nat) (o : outcome unit (A * bytes)) : Prop :=
  match o with
  | Ok r => (length r.2 < n)%nat
  | Err _ => True
  | Panic | OutOfFuel => False
  end.

Lemma shorter_bind {A B} n m (o : outcome unit (A * bytes)) (f : A * bytes → outcome unit (B * bytes)) :
  shorter n o → (∀ r, o = Ok r → (length r.2 < n)%nat → shorter m (f r)) → shorter m (o ≫= f).
Proof. destruct o as [r| | |]; cbn; intros Ho Hf; try done. by apply Hf. Qed.

Lemma shorter_option {A B} n (o : option A) (f : A → outcome unit (B * bytes)) :
  (∀ a, o = Some a → shorter n (f a)) → shorter n (of_option o ≫= f).
Proof. destruct o as [a|]; cbn; intros Hf; [by apply Hf|done]. Qed.

Lemma parse_shorter fuel :
  (∀ d s, (2 * length s < fuel)%nat → shorter (length s) (parse_value fuel d s)) ∧
  (∀ d s, (2 * length s < fuel)%nat → shorter (length s) (parse_members fuel d s)) ∧
  (∀ d s, (2 * length s + 1 < fuel)%nat → shorter (length s) (parse_elements fuel d s)).
Proof.
  induction fuel as [|f (IHv & IHm & IHe)]; [split_and!; intros; lia|]. split_and!; intros d s Hf.
  - cbn [parse_value]. pose proof (skip_ws_length s). destruct (skip_ws s) as [|c s1]; [done|]. cbn [length] in *.
    repeat case_match; cbn [mbind outcome_bind]; try done;
      try (match goal with E : expect _ _ = Some _ |- _ => apply expect_length in E; cbn; lia end).
    + eapply shorter_bind; [apply IHm; lia|]. intros r _ Hr. cbn. lia.
    + eapply shorter_bind; [apply IHe; lia|]. intros r _ Hr. cbn. lia.
    + apply shorter_option. intros r Hr%(scan_string_length (length s1)); [|done]. cbn. lia.
    + apply shorter_option. intros r Hr%scan_number_length. cbn in *. lia.
    + apply shorter_option. intros r Hr%literal_length; [|done..]. cbn in *. lia.
    + apply shorter_option. intros r Hr%literal_length; [|done..]. cbn in *. lia.
    + apply shorter_option. intros r Hr%literal_length; [|done..]. cbn in *. lia.
  - cbn [parse_members]. apply shorter_option. intros s1 H1%expect_length.
    apply shorter_option. intros key Hk%(scan_string_length (length s1)); [|done].
    apply shorter_option. intros s2 H2%expect_length.
    eapply shorter_bind; [apply IHv; lia|]. intros v _ Hv. destruct (expect x2c v.2) as [s3|] eqn:E.
    + apply expect_length in E. eapply shorter_bind; [apply IHm; lia|]. intros r _ Hr. cbn. lia.
    + apply shorter_option. intros s3 H3%expect_length. cbn. lia.
  - cbn [parse_elements]. eapply shorter_bind; [apply IHv; lia|]. intros v _ Hv.
    destruct (expect x2c v.2) as [s3|] eqn:E.
    + apply expect_length in E. eapply shorter_bind; [apply IHe; lia|]. intros r _ Hr. cbn. lia.
    + apply shorter_option. intros s3 H3%expect_length. cbn. lia.
Qed.

Lemma parse_document_cases s : (∃ v, parse_document s = Ok v) ∨ parse_document s = Err tt.
Proof.
  unfold parse_document. assert (shorter (length s) (parse_value (parse_fuel s) 0 s)) as Hs.
  { apply parse_shorter. unfold parse_fuel. lia. }
  destruct (parse_value _ _ _) as [r|[]| |]; cbn [mbind outcome_bind]; try done; [|by right].
  destruct (skip_ws r.2); eauto.
Qed.

(** Every text is decoded or refused: the fuel is enough, and nothing panics. *)
Theorem parse_document_total s : (∃ v, parse_document s = Ok v) ∨ parse_document s = Err tt.
Proof. apply parse_document_cases. Qed.

(** ** Strings *)

Lemma z2b_of b z : z `mod` 256 = b2z b → z2b z = b.
Proof. intros E. apply b2z_inj. by rewrite b2z_z2b. Qed.

Lemma mod_sub z k m : 0 < m → k * m ≤ z < k * m + m → z `mod` m = z - k * m.
Proof. intros Hm Hz. symmetry. apply (Z.mod_unique z m k); lia. Qed.

(** A rune is in the bytes that encode it, unless it stands for an invalid one. *)
Lemma decode_rune_raw b s r w : decode_rune b s = (r, w) →
  (1 ≤ w ≤ S (length s))%nat ∧ ((r = rune_error ∧ w = 1%nat) ∨ take w (b :: s) = encode_rune r).
Proof.
  unfold decode_rune. pose proof (b2z_range b).
  assert (∀ n, (r, w) = (rune_error, 1%nat) → (1 ≤ w ≤ S n)%nat ∧ ((r = rune_error ∧ w = 1%nat) ∨ take w (b :: s) = encode_rune r)) as Hbad.
  { intros n [= -> ->]. split; [lia|by left]. }
  destruct (Z.ltb_spec (b2z b) 0x80).
  { intros [= <- <-]. split; [lia|right]. unfold encode_rune. destruct (Z.ltb_spec (b2z b) 0x80); [|lia].
    cbn. f_equal. symmetry. apply z2b_b2z. }
  destruct (in_range 0xc2 0xdf b) eqn:E2.
  { apply in_range_spec in E2. destruct s as [|b1 s]; [intros E; by apply (Hbad 0%nat)|].
    destruct (in_range 0x80 0xbf b1) eqn:C1; [|intros E; apply Hbad; by symmetry]. apply in_range_spec in C1.
    rewrite cont_mod. change 0x1f with (2 ^ 5 - 1). rewrite land_ones_mod by lia. intros [= <- <-]. cbn [length].
    split; [lia|right]. cbn [take]. unfold encode_rune.
    destruct (Z.ltb_spec (b2z b `mod` 2 ^ 5 * 64 + b2z b1 `mod` 64) 0x80); [div_lia|].
    destruct (Z.ltb_spec (b2z b `mod` 2 ^ 5 * 64 + b2z b1 `mod` 64) 0x800); [|div_lia].
    f_equal; [|f_equal]; symmetry; apply z2b_of; div_lia. }
  destruct (in_range 0xe0 0xef b) eqn:E3.
  { apply in_range_spec in E3. destruct s as [|b1 [|b2 s]]; try (intros E; by apply (Hbad 0%nat));
      try (intros E; apply Hbad; by symmetry).
    destruct (in_range _ _ b1 && in_range 0x80 0xbf b2) eqn:C; [|intros E; apply Hbad; by symmetry].
    rewrite andb_true_iff, !in_range_spec in C. destruct C as [C1 C2].
    rewrite !cont_mod. change 0x0f with (2 ^ 4 - 1). rewrite land_ones_mod by lia. intros [= <- <-]. cbn [length].
    split; [lia|right]. cbn [take]. unfold encode_rune.
    rewrite (mod_sub (b2z b) 14), (mod_sub (b2z b1) 2), (mod_sub (b2z b2) 2) by
      (destruct (Z.eqb_spec (b2z b) 0xe0), (Z.eqb_spec (b2z b) 0xed); lia).
    set (r := (b2z b - 14 * 2 ^ 4) * 4096 + (b2z b1 - 2 * 64) * 64 + (b2z b2 - 2 * 64)).
    assert (0x800 ≤ r < 0x10000 ∧ 128 ≤ b2z b1 < 192) as [Hr C1']
      by (unfold r; destruct (Z.eqb_spec (b2z b) 0xe0), (Z.eqb_spec (b2z b) 0xed); lia).
    clear C1.
    destruct (Z.ltb_spec r 0x80); [lia|]. destruct (Z.ltb_spec r 0x800); [lia|]. destruct (Z.ltb_spec r 0x10000); [|lia].
    unfold r. f_equal; [|f_equal; [|f_equal]]; symmetry; apply z2b_of; div_lia. }
  destruct (in_range 0xf0 0xf4 b) eqn:E4; [|intros E; apply Hbad; by symmetry].
  apply in_range_spec in E4. destruct s as [|b1 [|b2 [|b3 s]]]; try (intros E; by apply (Hbad 0%nat));
    try (intros E; apply Hbad; by symmetry).
  destruct (in_range _ _ b1 && in_range 0x80 0xbf b2 && in_range 0x80 0xbf b3) eqn:C; [|intros E; apply Hbad; by symmetry].
  rewrite !andb_true_iff, !in_range_spec in C. destruct C as [[C1 C2] C3].
  rewrite !cont_mod. change 0x07 with (2 ^ 3 - 1). rewrite land_ones_mod by lia. intros [= <- <-]. cbn [length].
  split; [lia|right]. cbn [take]. unfold encode_rune.
  rewrite (mod_sub (b2z b) 30), (mod_sub (b2z b1) 2), (mod_sub (b2z b2) 2), (mod_sub (b2z b3) 2) by
    (destruct (Z.eqb_spec (b2z b) 0xf0), (Z.eqb_spec (b2z b) 0xf4); lia).
  set (r := (b2z b - 30 * 2 ^ 3) * 262144 + (b2z b1 - 2 * 64) * 4096 + (b2z b2 - 2 * 64) * 64 + (b2z b3 - 2 * 64)).
  assert (0x10000 ≤ r ∧ 128 ≤ b2z b1 < 192) as [Hr C1']
    by (unfold r; destruct (Z.eqb_spec (b2z b) 0xf0), (Z.eqb_spec (b2z b) 0xf4); lia).
  clear C1.
  destruct (Z.ltb_spec r 0x80); [lia|]. destruct (Z.ltb_spec r 0x800); [lia|]. destruct (Z.ltb_spec r 0x10000); [lia|].
  unfold r. f_equal; [|f_equal; [|f_equal; [|f_equal]]]; symmetry; apply z2b_of; div_lia.
Qed.

Lemma unquote_from_fuel f f' s : (length s ≤ f)%nat → (length s ≤ f')%nat → unquote_from f s = unquote_from f' s.
Proof.
  revert f' s. induction f as [|f IH]; intros [|f'] [|c s]; cbn [unquote_from length]; intros H1 H2; try done; try lia.
  case_bool_decide.
  - destruct s as [|e s]; [done|]. cbn [length] in *. case_bool_decide; [|f_equal; apply IH; lia].
    case_match; [|f_equal; apply IH; rewrite length_drop; lia].
    case_match; f_equal; apply IH; rewrite ?length_drop; lia.
  - destruct (decode_rune c s) as [r w]. f_equal. apply IH; rewrite length_drop; lia.
Qed.

(** Any fuel that covers the text will do. *)
Lemma unquote_fuel s : ∃ f, (length s ≤ f)%nat ∧ unquote s = unquote_from (S f) s.
Proof. exists (length s). split; [done|]. apply unquote_from_fuel; lia. Qed.

Lemma unquote_cons c s : bool_decide (c = x5c) = false →
  unquote (c :: s) = encode_rune (decode_rune c s).1 ++ unquote (drop ((decode_rune c s).2 - 1) s).
Proof.
  intros Hc. destruct (unquote_fuel (c :: s)) as (f & Hf & ->). cbn [length unquote_from] in *. rewrite Hc.
  destruct (decode_rune c s) as [r w]. cbn [fst snd]. f_equal. apply unquote_from_fuel; [rewrite length_drop; lia|done].
Qed.

Lemma unquote_simple e c s : simple_escape e = Some c → bool_decide (e = x75) = false →
  unquote (x5c :: e :: s) = c :: unquote s.
Proof.
  intros He Hu. destruct (unquote_fuel (x5c :: e :: s)) as (f & Hf & ->). cbn [length unquote_from] in *. rewrite bool_decide_eq_true_2 by done. rewrite Hu, He.
  cbn [default]. f_equal. apply unquote_from_fuel; lia.
Qed.

Lemma hex4_digits r : 0 ≤ r < 65536 → hex4 (hex_digit (r `div` 4096)) (hex_digit ((r `div` 256) `mod` 16))
  (hex_digit ((r `div` 16) `mod` 16)) (hex_digit (r `mod` 16)) = Some r.
Proof.
  intros Hr. unfold hex4. rewrite !hex_value_digit by div_lia. cbn [mbind option_bind]. f_equal. div_lia.
Qed.

Lemma unquote_hex r s : 0 ≤ r < 65536 → is_surrogate r = false → unquote (hex_escape r ++ s) = encode_rune r ++ unquote s.
Proof.
  intros Hr Hs. destruct (unquote_fuel (hex_escape r ++ s)) as (f & Hf & ->). unfold hex_escape in *.
  cbn [app length unquote_from drop] in *.
  rewrite !bool_decide_eq_true_2 by done. cbn [getu4]. rewrite !bool_decide_eq_true_2 by done. cbn [andb].
  rewrite hex4_digits by done. change (default 0 (Some r)) with r. rewrite Hs. f_equal. apply unquote_from_fuel; lia.
Qed.

Lemma unquote_rune r s : rune_ok r → r ≠ 0x5c → unquote (encode_rune r ++ s) = encode_rune r ++ unquote s.
Proof.
  intros Hr Hb. destruct (decode_encode r Hr) as (b & rest & He & Hd). pose proof (encode_rune_head r b rest Hr He) as Hh.
  rewrite He at 1. cbn [app]. rewrite unquote_cons.
  - rewrite Hd. cbn [fst snd]. cbn [Nat.sub]. by rewrite Nat.sub_0_r, drop_app_length.
  - rewrite bool_decide_eq_false. intros ->. change (b2z x5c) with 0x5c in Hh. lia.
Qed.

(** What [scan_string] does with a text it passes over. *)
Definition passes (l : bytes) : Prop :=
  ∀ t, scan_string (l ++ t) = (r ← scan_string t; Some (l ++ r.1, r.2)).

Lemma passes_raw l : Forall (λ c, 0x20 ≤ b2z c ∧ c ≠ x22 ∧ c ≠ x5c) l → passes l.
Proof.
  intros Hl t. induction Hl as [|c l (Hc & Hq & Hb) _ IH]; cbn [app].
  - by destruct (scan_string t) as [[a b]|].
  - cbn [scan_string]. rewrite !bool_decide_eq_false_2 by done. rewrite (proj2 (Z.ltb_ge _ _)) by lia. rewrite IH.
    by destruct (scan_string t).
Qed.

Lemma passes_simple e c : simple_escape e = Some c → bool_decide (e = x75) = false → passes [x5c; e].
Proof.
  intros He Hu t. cbn [app scan_string]. rewrite bool_decide_eq_false_2, bool_decide_eq_true_2 by done. rewrite Hu, He. done.
Qed.

Lemma passes_hex r : 0 ≤ r < 65536 → passes (hex_escape r).
Proof.
  intros Hr t. unfold hex_escape. cbn [app scan_string]. rewrite bool_decide_eq_false_2, !bool_decide_eq_true_2 by done.
  by rewrite hex4_digits by done.
Qed.

Lemma encode_rune_plain r : rune_ok r → 0x20 ≤ r → r ≠ 0x22 → r ≠ 0x5c →
  Forall (λ c, 0x20 ≤ b2z c ∧ c ≠ x22 ∧ c ≠ x5c) (encode_rune r).
Proof.
  intros [Hr _] Hs Hq Hb. unfold encode_rune.
  assert (∀ z, 0x80 ≤ z < 256 → 0x20 ≤ b2z (z2b z) ∧ z2b z ≠ x22 ∧ z2b z ≠ x5c) as Hhigh.
  { intros z Hz. pose proof (b2z_z2b_small z ltac:(lia)) as E. split; [lia|].
    split; intros E'; rewrite E' in E; [change (b2z x22) with 0x22 in E|change (b2z x5c) with 0x5c in E]; lia. }
  destruct (Z.ltb_spec r 0x80).
  - constructor; [|constructor]. pose proof (b2z_z2b_small r ltac:(lia)) as E. split; [lia|].
    split; intros E'; rewrite E' in E; [change (b2z x22) with 0x22 in E|change (b2z x5c) with 0x5c in E]; lia.
  - destruct (Z.ltb_spec r 0x800); [|destruct (Z.ltb_spec r 0x10000)]; repeat constructor; apply Hhigh; div_lia.
Qed.

(** One rune, written and read. *)
Lemma quote_rune_spec b s r w : decode_rune b s = (r, w) →
  passes (quote_rune r (take w (b :: s))) ∧
  ∀ t, unquote (quote_rune r (take w (b :: s)) ++ t) = encode_rune r ++ unquote t.
Proof.
  intros Hd. pose proof (decode_rune_ok b s) as Hok. rewrite Hd in Hok. cbn [fst] in Hok.
  apply decode_rune_raw in Hd as [Hw Hraw]. unfold quote_rune.
  assert (length (take w (b :: s)) = w) as Hlen by (rewrite length_take; cbn [length]; lia). destruct Hok as [Hr Hns].
  repeat match goal with |- context [if r =? ?k then _ else _] => destruct (Z.eqb_spec r k) as [->|];
    [split; [by eapply passes_simple|intros t; by apply unquote_simple]|] end.
  destruct (_ || _) eqn:Ec.
  { rewrite !orb_true_iff, Z.ltb_lt, !Z.eqb_eq in Ec. split; [apply passes_hex; lia|intros t; apply unquote_hex; [lia|]].
    unfold is_surrogate. by rewrite (proj2 (Z.leb_gt _ _)) by lia. }
  destruct ((r =? 0x2028) || _) eqn:Es.
  { rewrite !orb_true_iff, !Z.eqb_eq in Es. split; [apply passes_hex; lia|intros t; apply unquote_hex; [lia|]].
    unfold is_surrogate. by rewrite (proj2 (Z.leb_gt _ _)) by lia. }
  destruct ((r =? rune_error) && _) eqn:Ee.
  { apply andb_true_iff in Ee as [->%Z.eqb_eq _]. split; [by apply passes_hex|intros t; by apply unquote_hex]. }
  rewrite Hlen in Ee. destruct Hraw as [[-> ->]|Hraw]; [by rewrite Z.eqb_refl in Ee|]. rewrite Hraw.
  rewrite !orb_false_iff, Z.ltb_ge in Ec. split.
  - apply passes_raw, encode_rune_plain; [done|lia..].
  - intros t. by apply unquote_rune.
Qed.

Lemma quote_from_spec f s : (length s ≤ f)%nat →
  passes (quote_from f s) ∧ unquote (quote_from f s) = enc (runes s).
Proof.
  revert s. induction f as [|f IH]; intros [|b s]; cbn [quote_from length]; intros Hf; try lia.
  - split; [by apply passes_raw|done].
  - split; [by apply passes_raw|done].
  - destruct (decode_rune b s) as [r w] eqn:Hd. destruct (quote_rune_spec b s r w Hd) as [Hp Hu].
    destruct (IH (drop (w - 1) s)) as [Hps Hus]; [rewrite length_drop; lia|]. split.
    + intros t. rewrite <- app_assoc, Hp, Hps. destruct (scan_string t) as [[x y]|]; [|done]. cbn. by rewrite app_assoc.
    + rewrite Hu, Hus. unfold runes. cbn [runes_from length]. rewrite Hd. unfold enc. cbn [fmap list_fmap mjoin list_join].
      do 3 f_equal. apply runes_from_fuel; [done|rewrite length_drop; lia].
Qed.

(** A string that was written is read back, with what is not UTF-8 replaced. *)
Lemma scan_quote s t : scan_string (quote_from (length s) s ++ x22 :: t) = Some (quote_from (length s) s, t).
Proof.
  rewrite (proj1 (quote_from_spec (length s) s ltac:(done))).
  cbn [scan_string]. rewrite bool_decide_eq_true_2 by done. cbn. by rewrite app_nil_r.
Qed.

Lemma unquote_quote s : unquote (quote_from (length s) s) = sanitize s.
Proof. by apply quote_from_spec. Qed.

(** ** Numbers *)

(** The text is a number. *)
Definition number_text (lit : bytes) : Prop := scan_number lit = Some (lit, []).

(** What may stand behind a value. *)
Definition ends (t : bytes) : Prop :=
  match t with [] => True | c :: _ => c = x2c ∨ c = x5d ∨ c = x7d end.

Lemma ends_head c t : ends (c :: t) →
  is_digit c = false ∧ is_space c = false ∧ c ≠ x2e ∧ c ≠ x65 ∧ c ≠ x45 ∧ c ≠ x2b ∧ c ≠ x2d.
Proof. intros [->|[->| ->]]; by vm_compute. Qed.

Lemma span_digits_app s t : ends t → span_digits (s ++ t) = ((span_digits s).1, (span_digits s).2 ++ t).
Proof.
  intros Ht. induction s as [|c s IH]; cbn [app span_digits fst snd].
  - destruct t as [|c t]; [done|]. cbn [span_digits]. by destruct (ends_head c t Ht) as [-> _].
  - destruct (is_digit c); [|done]. rewrite IH. by destruct (span_digits s) as [d r].
Qed.

Lemma scan_digits1_app s t r : ends t → scan_digits1 s = Some r → scan_digits1 (s ++ t) = Some (r.1, r.2 ++ t).
Proof.
  intros Ht. unfold scan_digits1. rewrite span_digits_app by done. destruct (span_digits s) as [[|d ds] u]; [done|].
  by intros [= <-].
Qed.

Lemma scan_int_app s t r : ends t → scan_int s = Some r → scan_int (s ++ t) = Some (r.1, r.2 ++ t).
Proof.
  intros Ht. destruct s as [|c s]; [done|]. unfold scan_int. cbn [app]. case_bool_decide; [by intros [= <-]|].
  destruct (is_digit c); [|done]. intros [= <-]. change (c :: s ++ t) with ((c :: s) ++ t). by rewrite span_digits_app.
Qed.

Lemma scan_frac_app s t r : ends t → scan_frac s = Some r → scan_frac (s ++ t) = Some (r.1, r.2 ++ t).
Proof.
  intros Ht. destruct s as [|c s]; cbn [app scan_frac].
  - intros [= <-]. destruct t as [|c t]; [done|]. cbn [scan_frac]. apply ends_head in Ht.
    rewrite bool_decide_eq_false_2 by apply Ht. done.
  - case_bool_decide; [|by intros [= <-]]. destruct (scan_digits1 s) as [q|] eqn:E; [|done]. intros [= <-].
    by rewrite (scan_digits1_app _ t _ Ht E).
Qed.

Lemma scan_exp_app s t r : ends t → scan_exp s = Some r → scan_exp (s ++ t) = Some (r.1, r.2 ++ t).
Proof.
  intros Ht. destruct s as [|c s]; cbn [app scan_exp].
  - intros [= <-]. destruct t as [|c t]; [done|]. cbn [scan_exp]. apply ends_head in Ht.
    rewrite !bool_decide_eq_false_2 by apply Ht. done.
  - destruct (_ || _); [|by intros [= <-]]. destruct s as [|g s]; [done|]. cbn [app].
    destruct (bool_decide (g = x2b) || bool_decide (g = x2d)).
    + destruct (scan_digits1 s) as [q|] eqn:E; [|done]. intros [= <-]. by rewrite (scan_digits1_app _ t _ Ht E).
    + destruct (scan_digits1 (g :: s)) as [q|] eqn:E; [|done]. intros [= <-].
      change (g :: s ++ t) with ((g :: s) ++ t). by rewrite (scan_digits1_app _ t _ Ht E).
Qed.

Lemma scan_number_app s t r : ends t → scan_number s = Some r → scan_number (s ++ t) = Some (r.1, r.2 ++ t).
Proof.
  intros Ht. unfold scan_number. destruct s as [|c s]; [done|]. cbn [app].
  assert (scan_sign (c :: s ++ t) = ((scan_sign (c :: s)).1, (scan_sign (c :: s)).2 ++ t)) as ->
    by (unfold scan_sign; by case_bool_decide).
  destruct (scan_sign (c :: s)) as [sg s1]. cbn [fst snd].
  destruct (scan_int s1) as [i|] eqn:Ei; [|done]. rewrite (scan_int_app _ t _ Ht Ei). cbn [mbind option_bind fst snd].
  destruct (scan_frac i.2) as [f|] eqn:Ef; [|done]. rewrite (scan_frac_app _ t _ Ht Ef). cbn [mbind option_bind fst snd].
  destruct (scan_exp f.2) as [e|] eqn:Ee; [|done]. rewrite (scan_exp_app _ t _ Ht Ee). cbn [mbind option_bind fst snd].
  by intros [= <-].
Qed.

Lemma number_text_app lit t : number_text lit → ends t → scan_number (lit ++ t) = Some (lit, t).
Proof. intros Hl Ht. by rewrite (scan_number_app lit t _ Ht Hl). Qed.

Lemma number_text_head lit : number_text lit → ∃ c s, lit = c :: s ∧ bool_decide (c = x2d) || is_digit c = true.
Proof.
  unfold number_text, scan_number. destruct lit as [|c s]; [done|]. intros Hn. exists c, s. split; [done|].
  unfold scan_sign in Hn. case_bool_decide as Hc; [done|]. cbn [scan_int] in Hn.
  case_bool_decide as Hz; [by subst|]. by destruct (is_digit c).
Qed.

(** Decimal integers are numbers. *)
Lemma digit_char n : 0 ≤ n < 10 → is_digit (z2b (48 + n)) = true.
Proof. intros Hn. apply in_range_spec. rewrite b2z_z2b_small by lia. lia. Qed.

Lemma digits_of_head f n : 0 < n < 10 ^ Z.of_nat f →
  ∃ c s, digits_of f n = c :: s ∧ c ≠ x30 ∧ Forall (λ c, is_digit c = true) (c :: s).
Proof.
  revert n. induction f as [|f IH]; intros n Hn; [change (10 ^ Z.of_nat 0) with 1 in Hn; lia|].
  cbn [digits_of]. destruct (Z.eqb_spec n 0) as [->|]; [lia|]. pose proof (Z.mod_pos_bound n 10 ltac:(lia)) as Hm.
  rewrite Nat2Z.inj_succ, Z.pow_succ_r in Hn by lia.
  destruct (Z.eqb_spec (n `div` 10) 0) as [E|E].
  - rewrite E. assert (digits_of f 0 = []) as -> by (by destruct f). cbn [app]. do 2 eexists. split; [reflexivity|].
    split; [|constructor; [by apply digit_char|constructor]]. intros Ez. apply (f_equal b2z) in Ez.
    rewrite b2z_z2b_small in Ez by lia. change (b2z x30) with 48 in Ez. div_lia.
  - destruct (IH (n `div` 10)) as (c & s & -> & Hc & Hs); [div_lia|]. do 2 eexists. split; [reflexivity|]. split; [done|].
    apply (Forall_app _ (c :: s) [_]). split; [done|].
    constructor; [by apply digit_char|constructor].
Qed.

Lemma span_digits_all s : Forall (λ c, is_digit c = true) s → span_digits s = (s, []).
Proof. induction 1 as [|c s Hc _ IH]; cbn [span_digits]; [done|]. by rewrite Hc, IH. Qed.

Lemma itoa_int n : 0 ≤ n < 10 ^ 20 → scan_int (itoa n) = Some (itoa n, []) ∧ Forall (λ c, is_digit c = true) (itoa n).
Proof.
  intros Hn. unfold itoa. destruct (Z.eqb_spec n 0); [by repeat constructor|].
  destruct (digits_of_head 20 n) as (c & s & -> & Hc & Hs); [change (Z.of_nat 20) with 20; lia|]. split; [|done].
  unfold scan_int. rewrite bool_decide_eq_false_2 by done. rewrite (Forall_inv Hs). by rewrite span_digits_all.
Qed.

Lemma jint_text z : Z.abs z < 10 ^ 20 → number_text ((if z <? 0 then [x2d] else []) ++ itoa (Z.abs z)).
Proof.
  intros Hz. destruct (itoa_int (Z.abs z)) as [Hi Hd]; [lia|]. unfold number_text, scan_number.
  assert (scan_sign (itoa (Z.abs z)) = ([], itoa (Z.abs z))) as Hs.
  { destruct Hd as [|c s Hc _]; [done|]. unfold scan_sign. rewrite bool_decide_eq_false_2; [done|]. by intros ->. }
  destruct (z <? 0).
  - cbn [app scan_sign]. rewrite bool_decide_eq_true_2 by done. rewrite Hi. cbn. by rewrite !app_nil_r.
  - cbn [app]. rewrite Hs, Hi. cbn. by rewrite !app_nil_r.
Qed.

(** ** Sorting by key commutes with a map on the values *)

Section Sort.
Context {A B : Type} (R : relation A) (R' : relation B) `{!RelDecision R, !RelDecision R'} (g : A → B).
Hypothesis g_order : ∀ x y, R' (g x) (g y) ↔ R x y.

Lemma list_merge_fmap l k : list_merge R' (g <$> l) (g <$> k) = g <$> list_merge R l k.
Proof.
  revert k. induction l as [|x l IHl]; intros k; [by destruct k|].
  induction k as [|y k IHk]; [done|]. cbn [fmap list_fmap list_merge]. destruct (decide (R x y)) as [H|H].
  - rewrite decide_True by by apply g_order. cbn. f_equal. apply (IHl (y :: k)).
  - rewrite decide_False by by rewrite g_order. cbn. f_equal. apply IHk.
Qed.

Lemma merge_list_to_stack_fmap st l :
  merge_list_to_stack R' (fmap (M := option) (fmap (M := list) g) <$> st) (g <$> l) =
  fmap (M := option) (fmap (M := list) g) <$> merge_list_to_stack R st l.
Proof.
  revert l. induction st as [|[l'|] st IH]; intros l; [done| |done]. cbn. f_equal. rewrite <- IH. f_equal. apply list_merge_fmap.
Qed.

Lemma merge_stack_fmap st :
  merge_stack R' (fmap (M := option) (fmap (M := list) g) <$> st) = g <$> merge_stack R st.
Proof. induction st as [|[l|] st IH]; [done| |done]. cbn. rewrite <- list_merge_fmap. f_equal. apply IH. Qed.

Lemma merge_sort_aux_fmap l st :
  merge_sort_aux R' (fmap (M := option) (fmap (M := list) g) <$> st) (g <$> l) = g <$> merge_sort_aux R st l.
Proof.
  revert st. induction l as [|x l IH]; intros st; cbn; [apply merge_stack_fmap|].
  rewrite <- IH. f_equal. apply (merge_list_to_stack_fmap st [x]).
Qed.

Lemma merge_sort_fmap l : merge_sort R' (g <$> l) = g <$> merge_sort R l.
Proof. apply (merge_sort_aux_fmap l []). Qed.
End Sort.

Lemma sort_values {A B} (f : A → B) (m : list (bytes * A)) :
  merge_sort key_le (prod_map id f <$> m) = prod_map id f <$> merge_sort key_le m.
Proof. by apply merge_sort_fmap. Qed.

(** ** Values *)

(** The numbers of [v] are numbers, and its nesting is at most [n]. *)
Fixpoint fits (n : Z) (v : json) : bool :=
  match v with
  | JNum lit => bool_decide (scan_number lit = Some (lit, []))
  | JArr l => (1 <=? n) && forallb (fits (n - 1)) l
  | JObj m => (1 <=? n) && forallb (λ kv, fits (n - 1) kv.2) m
  | _ => true
  end.

(** What the decoder makes of the text of [v]: members in the order of their names,
    strings as UTF-8. *)
Fixpoint norm (v : json) : json :=
  match v with
  | JStr s => JStr (sanitize s)
  | JArr l => JArr (norm <$> l)
  | JObj m => JObj (prod_map sanitize id <$> merge_sort key_le (prod_map id norm <$> m))
  | _ => v
  end.

Lemma skip_ws_head c s : is_space c = false → skip_ws (c :: s) = c :: s.
Proof. intros Hc. cbn [skip_ws]. by rewrite Hc. Qed.

Lemma expect_hit c s : is_space c = false → expect c (c :: s) = Some s.
Proof. intros Hc. unfold expect. rewrite skip_ws_head by done. by rewrite bool_decide_eq_true_2. Qed.

Lemma expect_miss c d s : is_space d = false → d ≠ c → expect c (d :: s) = None.
Proof. intros Hd Hc. unfold expect. rewrite skip_ws_head by done. by rewrite bool_decide_eq_false_2. Qed.

Lemma number_head c : bool_decide (c = x2d) || is_digit c = true →
  is_space c = false ∧ c ≠ x5d ∧ c ≠ x7b ∧ c ≠ x5b ∧ c ≠ x22.
Proof.
  revert c. assert (∀ c, implb (bool_decide (c = x2d) || is_digit c) (negb (is_space c) && negb (bool_decide (c = x5d)) &&
    negb (bool_decide (c = x7b)) && negb (bool_decide (c = x5b)) && negb (bool_decide (c = x22))) = true) as Hb.
  { apply by_bytes. vm_compute. reflexivity. }
  intros c Hc. specialize (Hb c). rewrite Hc in Hb. cbn [implb] in Hb.
  rewrite !andb_true_iff, !negb_true_iff, !bool_decide_eq_false in Hb. tauto.
Qed.

(** A value starts with a character that is neither space nor a closing bracket. *)
Lemma marshal_head n v : fits n v = true → ∃ c s, marshal v = c :: s ∧ is_space c = false ∧ c ≠ x5d.
Proof.
  destruct v as [|[]|lit|s|l|m]; cbn [fits marshal]; intros Hf; try (by do 2 eexists; split; [reflexivity|by vm_compute]).
  apply bool_decide_eq_true, number_text_head in Hf as (c & s & -> & Hc). exists c, s. split; [done|].
  apply number_head in Hc as (? & ? & _). done.
Qed.

#[local] Ltac text_side :=
  match goal with
  | |- (_ < _)%nat => repeat (rewrite length_app in * || cbn [length] in * ); lia
  | |- ends _ => cbn [ends]; auto
  | |- _ => first [done|lia]
  end.

(** The statement of the round trip for one value. *)
Definition roundtrip (v : json) : Prop := ∀ n f d t, fits n v = true → d + n ≤ maxNestingDepth → ends t →
  (2 * length (marshal v ++ t) < f)%nat → parse_value f d (marshal v ++ t) = Ok (norm v, t).

Definition member_text (kv : bytes * json) : bytes := quote kv.1 ++ x3a :: marshal kv.2.

Lemma parse_elements_text l : l ≠ [] → Forall roundtrip l → ∀ n f d t, forallb (fits n) l = true →
  d + n ≤ maxNestingDepth → (2 * length (commas (marshal <$> l) ++ x5d :: t) + 1 < f)%nat →
  parse_elements f d (commas (marshal <$> l) ++ x5d :: t) = Ok (norm <$> l, t).
Proof.
  intros Hl HP. induction HP as [|v l Hv HP IH]; [done|]. intros n f d t [Hfv Hfl]%andb_true_iff Hd Hf.
  destruct f as [|f]; [lia|]. cbn [parse_elements]. destruct l as [|w l].
  - cbn [fmap list_fmap commas] in *. rewrite (Hv n) by text_side.
    cbn [mbind outcome_bind fst snd]. rewrite expect_miss, expect_hit by done. done.
  - cbn [fmap list_fmap commas] in *. rewrite <- app_assoc in *. cbn [app] in *. rewrite !length_app in Hf. cbn [length] in Hf.
    rewrite (Hv n) by text_side.
    cbn [mbind outcome_bind fst snd]. rewrite expect_hit by done. rewrite (IH ltac:(done) n) by text_side. done.
Qed.

Lemma parse_members_text l : l ≠ [] → Forall (roundtrip ∘ snd) l → ∀ n f d t, forallb (λ kv, fits n kv.2) l = true →
  d + n ≤ maxNestingDepth → (2 * length (commas (member_text <$> l) ++ x7d :: t) < f)%nat →
  parse_members f d (commas (member_text <$> l) ++ x7d :: t) = Ok (prod_map sanitize norm <$> l, t).
Proof.
  intros Hl HP. induction HP as [|[k v] l Hv HP IH]; [done|]. intros n f d t [Hfv Hfl]%andb_true_iff Hd Hf.
  destruct f as [|f]; [lia|]. cbn [parse_members snd compose] in *.
  assert (∀ r, of_option (expect x22 ((member_text (k, v)) ++ r)) = Ok (E := unit) (quote_from (length k) k ++ x22 :: x3a :: marshal v ++ r)) as Hq.
  { intros r. unfold member_text, quote. cbn [fst snd app]. rewrite expect_hit by done. rewrite <- !app_assoc. done. }
  destruct l as [|w l].
  - cbn [fmap list_fmap commas] in *. rewrite Hq. cbn [mbind outcome_bind]. rewrite scan_quote. cbn [of_option mbind outcome_bind fst snd].
    rewrite expect_hit by done. cbn [of_option mbind outcome_bind]. rewrite unquote_quote.
    unfold member_text, quote in Hf. cbn [fst snd] in Hf. rewrite ?length_app in Hf. cbn [length] in Hf. rewrite ?length_app in Hf. cbn [length] in Hf.
    rewrite (Hv n) by text_side.
    cbn [mbind outcome_bind fst snd]. rewrite expect_miss, expect_hit by done. done.
  - cbn [fmap list_fmap commas] in *. rewrite <- app_assoc in *. cbn [app] in *. rewrite Hq. cbn [mbind outcome_bind].
    rewrite scan_quote. cbn [of_option mbind outcome_bind fst snd].
    rewrite expect_hit by done. cbn [of_option mbind outcome_bind]. rewrite unquote_quote. rewrite length_app in Hf. cbn [length] in Hf.
    unfold member_text at 1, quote in Hf. cbn [fst snd] in Hf. rewrite ?length_app in Hf. cbn [length] in Hf. rewrite ?length_app in Hf. cbn [length] in Hf.
    rewrite (Hv n) by text_side.
    cbn [mbind outcome_bind fst snd]. rewrite expect_hit by done.
    rewrite (IH ltac:(done) n) by text_side. done.
Qed.

Lemma marshal_obj m : marshal (JObj m) = x7b :: commas (member_text <$> merge_sort key_le m) ++ [x7d].
Proof.
  cbn [marshal]. change (λ kv : bytes * json, (kv.1, marshal kv.2)) with (prod_map (id (A := bytes)) marshal).
  rewrite sort_values, <- list_fmap_compose. done.
Qed.

Lemma norm_obj m : norm (JObj m) = JObj (prod_map sanitize norm <$> merge_sort key_le m).
Proof. cbn [norm]. rewrite sort_values, <- list_fmap_compose. done. Qed.

Lemma parse_marshal v : roundtrip v.
Proof.
  induction v as [|b|lit|s|l IH|m IH] using json_nested_ind; intros n f d t Hf Hd Ht Hl;
    (destruct f as [|f]; [lia|]).
  - reflexivity.
  - destruct b; reflexivity.
  - cbn [marshal fits norm] in *. apply bool_decide_eq_true in Hf. pose proof (number_text_app lit t Hf Ht) as Hn.
    apply number_text_head in Hf as (c & s & -> & Hc). destruct (number_head c Hc) as (Hs & _ & H1 & H2 & H3).
    cbn [parse_value app]. rewrite skip_ws_head by done. rewrite !bool_decide_eq_false_2 by done. rewrite Hc.
    cbn [app] in Hn. rewrite Hn. done.
  - cbn [marshal norm] in *. unfold quote. cbn [app parse_value]. rewrite skip_ws_head by done.
    rewrite !bool_decide_eq_false_2 by done. rewrite bool_decide_eq_true_2 by done. rewrite <- app_assoc. cbn [app].
    rewrite scan_quote. cbn [of_option mbind outcome_bind fst snd]. by rewrite unquote_quote.
  - cbn [marshal norm fits] in *. apply andb_true_iff in Hf as [Hn Hf]. apply Z.leb_le in Hn.
    cbn [app parse_value] in *. rewrite skip_ws_head by done. rewrite bool_decide_eq_false_2, bool_decide_eq_true_2 by done.
    rewrite (proj2 (Z.ltb_ge _ _)) by lia. destruct l as [|v l].
    + cbn [fmap list_fmap commas app]. rewrite expect_hit by done. done.
    + rewrite <- app_assoc in *. cbn [app] in *. assert (expect x5d (commas (marshal <$> v :: l) ++ x5d :: t) = None) as ->.
      { cbn [forallb] in Hf. apply andb_true_iff in Hf as [Hf _]. apply marshal_head in Hf as (c & s & Hm & Hs & Hc).
        cbn [fmap list_fmap]. rewrite Hm. destruct l; cbn [fmap list_fmap commas app]; by apply expect_miss. }
      rewrite (parse_elements_text (v :: l) ltac:(done) IH (n - 1)) by (done || lia || cbn [length] in Hl; lia). done.
  - rewrite marshal_obj, norm_obj in *. cbn [fits] in Hf. apply andb_true_iff in Hf as [Hn Hf]. apply Z.leb_le in Hn.
    assert (merge_sort key_le m ≡ₚ m) as Hp by apply merge_sort_Permutation. set (k := merge_sort key_le m) in *.
    assert (forallb (λ kv, fits (n - 1) kv.2) k = true) as Hf'.
    { rewrite forallb_forall in *. intros x Hx. apply Hf. apply list_elem_of_In in Hx. rewrite Hp in Hx. by apply list_elem_of_In. }
    assert (Forall (roundtrip ∘ snd) k) as IH' by by rewrite Hp. clear IH Hf Hp. clearbody k.
    cbn [app parse_value] in *. rewrite skip_ws_head by done. rewrite bool_decide_eq_true_2 by done.
    rewrite (proj2 (Z.ltb_ge _ _)) by lia. rewrite <- app_assoc in *. cbn [app] in *. destruct k as [|x k].
    + cbn [fmap list_fmap commas app]. rewrite expect_hit by done. done.
    + assert (expect x7d (commas (member_text <$> x :: k) ++ x7d :: t) = None) as ->.
      { cbn [fmap list_fmap]. unfold member_text, quote. destruct k; cbn [fmap list_fmap commas app]; by apply expect_miss. }
      rewrite (parse_members_text (x :: k) ltac:(done) IH' (n - 1)) by (done || lia || cbn [length] in Hl; lia). done.
Qed.

Lemma document_marshal v : fits maxNestingDepth v = true → parse_document (marshal v) = Ok (norm v).
Proof.
  intros Hv. unfold parse_document. pose proof (parse_marshal v maxNestingDepth (parse_fuel (marshal v)) 0 []) as Hp.
  rewrite app_nil_r in Hp. rewrite Hp; [done|done|done|done|]. unfold parse_fuel. lia.
Qed.

(** Decoding what [json.Marshal] wrote gives the value back, with its members sorted and
    its strings as UTF-8. *)
Theorem parse_document_marshal v : fits maxNestingDepth v = true → parse_document (marshal v) = Ok (norm v).
Proof. apply document_marshal. Qed.

(** ** Maps *)

Lemma map_set_keys {A} k (v : A) m : (map_set k v m).*1 = if bool_decide (k ∈ m.*1) then m.*1 else m.*1 ++ [k].
Proof.
  induction m as [|[k' v'] m IH]; cbn [map_set]; [done|]. rewrite fmap_cons. cbn [fst].
  destruct (decide (k' = k)) as [->|E].
  - rewrite !bool_decide_eq_true_2 by (done || left). done.
  - rewrite (bool_decide_eq_false_2 (k' = k)) by done. rewrite fmap_cons, IH. cbn [fst]. destruct (decide (k ∈ m.*1)) as [Hk|Hk].
    + rewrite !bool_decide_eq_true_2; [done|by right|done].
    + rewrite !bool_decide_eq_false_2; [done| |done]. rewrite elem_of_cons. intros [->|?]; done.
Qed.

Lemma map_set_fresh {A} k (v : A) m : k ∉ m.*1 → map_set k v m = m ++ [(k, v)].
Proof.
  induction m as [|[k' v'] m IH]; cbn [map_set]; [done|]. rewrite fmap_cons, elem_of_cons. cbn [fst]. intros Hk.
  rewrite bool_decide_eq_false_2 by (intros ->; apply Hk; by left). rewrite IH by tauto. done.
Qed.

Lemma collect_NoDup {A} (m : list (bytes * A)) : NoDup (collect m).*1.
Proof.
  unfold collect. assert (NoDup (fmap (M := list) fst (@nil (bytes * A)))) as H0 by constructor. revert H0.
  generalize (@nil (bytes * A)) as acc. induction m as [|kv m IH]; intros acc Hacc; cbn [foldl]; [done|].
  apply IH. rewrite map_set_keys. case_bool_decide as E; [done|]. rewrite NoDup_app. split_and!; [done| |by apply NoDup_singleton].
  intros x Hx ->%list_elem_of_singleton. done.
Qed.

(** Distinct names are kept as they are. *)
Lemma collect_id {A} (m : list (bytes * A)) : NoDup m.*1 → collect m = m.
Proof.
  unfold collect. change m with ([] ++ m) at 1 3. generalize (@nil (bytes * A)) as acc.
  induction m as [|[k v] m IH]; intros acc Hnd; cbn [foldl]; [by rewrite app_nil_r|]. cbn [fst snd].
  rewrite fmap_app, fmap_cons in Hnd. cbn [fst] in Hnd.
  rewrite map_set_fresh.
  - rewrite (IH (acc ++ [(k, v)])); [by rewrite <- app_assoc|]. rewrite fmap_app, fmap_app, fmap_cons. cbn. by rewrite <- app_assoc.
  - apply NoDup_app in Hnd as (_ & Hn & _). intros Hk. apply (Hn _ Hk). by left.
Qed.

Lemma lookup_Some k m v : lookup k m = Some v → (k, v) ∈ m.
Proof.
  unfold lookup. destruct (find _ m) as [[k' v']|] eqn:E; [|done]. apply find_some in E as [Hin Hk].
  cbn in Hk. apply bytes_eqb_eq in Hk as ->. intros [= ->]. by apply list_elem_of_In.
Qed.

Lemma lookup_None k m : lookup k m = None ↔ k ∉ m.*1.
Proof.
  unfold lookup. destruct (find _ m) as [[k' v']|] eqn:E; cbn.
  - split; [done|]. intros Hk. apply find_some in E as [Hin Ek]. cbn in Ek. apply bytes_eqb_eq in Ek as ->.
    exfalso. apply Hk, list_elem_of_fmap. exists (k, v'). split; [done|by apply list_elem_of_In].
  - split; [|done]. intros _ ([k' v'] & -> & Hin)%list_elem_of_fmap. cbn in E. eapply find_none in E; [|by apply list_elem_of_In].
    cbn in E. apply not_true_iff_false in E. apply E. by apply bytes_eqb_eq.
Qed.

Lemma lookup_elem k m v : NoDup m.*1 → lookup k m = Some v ↔ (k, v) ∈ m.
Proof.
  intros Hnd. split; [apply lookup_Some|]. intros Hin. destruct (lookup k m) as [w|] eqn:E.
  - apply lookup_Some in E. f_equal. apply list_elem_of_lookup in Hin as [i Hi]. apply list_elem_of_lookup in E as [j Hj].
    assert (i = j) as -> by (eapply (NoDup_lookup m.*1); [done|by rewrite list_lookup_fmap, Hi|by rewrite list_lookup_fmap, Hj]).
    congruence.
  - apply lookup_None in E. exfalso. apply E, list_elem_of_fmap. by exists (k, v).
Qed.

Lemma lookup_perm k m m' : NoDup m.*1 → m ≡ₚ m' → lookup k m = lookup k m'.
Proof.
  intros Hnd Hp. assert (NoDup m'.*1) as Hnd' by by rewrite <- Hp.
  apply option_eq. intros v. rewrite !lookup_elem by done. by rewrite Hp.
Qed.

Lemma lookup_values (f : json → json) k m : lookup k (prod_map id f <$> m) = f <$> lookup k m.
Proof.
  unfold lookup. induction m as [|[k' v] m IH]; [done|]. cbn [fmap list_fmap find prod_map fst snd id].
  destruct (bytes_eqb k' k); [done|]. apply IH.
Qed.

(** What a value is once it was written and decoded. *)
Definition decoded (v : json) : json := to_any (norm v).

Lemma numbers_norm v : numbers_ok (norm v) = numbers_ok v.
Proof.
  induction v as [|b|lit|s|l IH|m IH] using json_nested_ind; try done.
  - cbn [norm numbers_ok]. induction IH as [|v l Hv _ IHl]; [done|]. cbn [fmap list_fmap forallb]. by rewrite Hv, IHl.
  - rewrite norm_obj. cbn [numbers_ok]. set (P := λ kv : bytes * json, numbers_ok kv.2).
    transitivity (forallb P (merge_sort key_le m)).
    + assert (Forall (λ kv : bytes * json, numbers_ok (norm kv.2) = numbers_ok kv.2) (merge_sort key_le m)) as Hk
        by by rewrite merge_sort_Permutation. unfold P. induction Hk as [|kv k Hkv _ IHk]; [done|].
      cbn [fmap list_fmap forallb prod_map snd]. cbn; rewrite <- Hkv; f_equal; exact IHk.
    + apply eq_true_iff_eq. rewrite !forallb_forall. setoid_rewrite <- list_elem_of_In. by setoid_rewrite merge_sort_Permutation.
Qed.

(** The map that is read back from the text of a map with distinct names. *)
Lemma unmarshal_map_marshal m : NoDup m.*1 → Forall valid_text m.*1 → fits maxNestingDepth (JObj m) = true →
  numbers_ok (JObj m) = true →
  ∃ m', unmarshal_map (marshal (JObj m)) = Ok (Some m') ∧ NoDup m'.*1 ∧ m' ≡ₚ (prod_map id decoded <$> m).
Proof.
  intros Hnd Hv Hf Hn. unfold unmarshal_map. rewrite document_marshal by done. rewrite <- numbers_norm in Hn.
  rewrite norm_obj in *. cbn [mbind outcome_bind]. rewrite Hn.
  assert (merge_sort key_le m ≡ₚ m) as Hp by apply merge_sort_Permutation.
  assert (((λ kv, (kv.1, to_any kv.2)) <$> (prod_map sanitize norm <$> merge_sort key_le m)) =
    (prod_map id decoded <$> merge_sort key_le m)) as ->.
  { rewrite <- list_fmap_compose. apply list_fmap_ext. intros i [k v] Hi. cbn. f_equal.
    rewrite list.Forall_forall in Hv. apply Hv. rewrite <- Hp. apply list_elem_of_fmap. exists (k, v).
    split; [done|]. by eapply list_elem_of_lookup_2. }
  assert ((prod_map id decoded <$> merge_sort key_le m).*1 = (merge_sort key_le m).*1) as Hk.
  { rewrite <- list_fmap_compose. by apply list_fmap_ext. }
  rewrite collect_id by (rewrite Hk; by rewrite Hp). eexists. split; [done|]. rewrite Hk. split; [by rewrite Hp|by rewrite Hp].
Qed.

(** Every member is found again under its name. *)
Lemma unmarshal_lookup m m' k : NoDup m.*1 → m' ≡ₚ (prod_map id decoded <$> m) → lookup k m' = decoded <$> lookup k m.
Proof.
  intros Hnd Hp. rewrite <- lookup_values. symmetry. apply lookup_perm; [|by rewrite Hp].
  rewrite <- list_fmap_compose. erewrite list_fmap_ext; [exact Hnd|done].
Qed.

(** ** Plain text *)

Lemma runes_from_ascii f s : Forall (λ c, b2z c < 0x80) s → (length s ≤ f)%nat → runes_from f s = b2z <$> s.
Proof.
  intros Hs. revert f. induction Hs as [|c s Hc _ IH]; intros [|f] Hf; cbn [length] in Hf; try done; [lia|].
  cbn [runes_from fmap list_fmap]. unfold decode_rune. rewrite (proj2 (Z.ltb_lt _ _)) by done. f_equal. cbn. apply IH. lia.
Qed.

Lemma valid_ascii s : Forall (λ c, b2z c < 0x80) s → valid_text s.
Proof.
  intros Hs. unfold valid_text, sanitize, runes. rewrite runes_from_ascii by done.
  induction Hs as [|c s Hc _ IH]; [done|]. cbn [fmap list_fmap mjoin list_join]. unfold encode_rune at 1.
  rewrite (proj2 (Z.ltb_lt _ _)) by done. cbn [app]. f_equal; [apply z2b_b2z|exact IH].
Qed.

Lemma decoded_str s : valid_text s → decoded (JStr s) = JStr s.
Proof. intros Hs. unfold decoded. cbn. by rewrite Hs. Qed.

(** ** Witnesses *)

Definition ex_doc : json :=
  JObj [ (str_bytes "b", JArr [JNum (str_bytes "-1.5e3"); JNull; JBool true]); (str_bytes "a", JStr (str_bytes "<é>")) ].

Lemma parse_document_marshal_witness :
  parse_document (marshal ex_doc) = Ok (norm ex_doc).
Proof. apply parse_document_marshal. vm_compute. reflexivity. Defined.
