(* ===== verification/JwkText.v ===== *)
(** * The [identity/jwk] package: JWKs as JSON text

    [PublicFromJWK], [PrivateFromJWK], [ToJWK] and [ToJWKS] of src/identity/jwk/jwk.go,
    with the streaming check for duplicate member names they start with, and their
    proofs. *)
From stdpp Require Import sorting.
From S2P Require Import Prelude GoBig Canonical CanonicalProofs Signature Secp256k1 Binder Base64 Json JsonProofs Jwk JwkProofs.
Import Canonical Signature Json Jwk.
#[local] Open Scope Z_scope.

Module JwkText.

(** A syntax error of the JSON text. *)
Definition syntax {A} (o : option A) : outcome error A :=
  match o with Some a => Ok a | None => Err ErrInvalidMember end.

(** The loop over [dec.More()], from behind the opening brace or a comma: a name by
    [dec.Token], a value by [dec.Decode], which counts nesting from there. *)
Fixpoint check_members (fuel : nat) (seen : list bytes) (s : bytes) : outcome error unit :=
  match fuel with
  | O => OutOfFuel
  | S f =>
      s1 ← syntax (expect x22 s);
      key ← syntax (scan_string s1);
      if bool_decide (unquote key.1 ∈ seen) then Err ErrDuplicateMember
      else
        s2 ← syntax (expect x3a key.2);
        v ← wrap_err (λ _, ErrInvalidMember) (parse_value (parse_fuel s2) 0 s2);
        if negb (numbers_ok v.1) then Err ErrInvalidMember
        else
          match expect x2c v.2 with
          | Some s3 => check_members f (unquote key.1 :: seen) s3
          | None => _ ← syntax (expect x7d v.2); Ok tt
          end
  end.

Definition checkDuplicateMembers (data : bytes) : outcome error unit :=
  s ← syntax (expect x7b data);
  match expect x7d s with
  | Some _ => Ok tt
  | None => check_members (S (length s)) [] s
  end.

Section Text.
Context `{D : Dcrd, X : Jwx, C : Curves}.

Definition PublicFromJWK (data : bytes) : outcome error PublicKey :=
  _ ← checkDuplicateMembers data;
  m ← wrap_err (λ _, ErrInvalidMember) (unmarshal_map data);
  Unmarshal m.

Definition PrivateFromJWK (data : bytes) : outcome error PrivateKey :=
  _ ← checkDuplicateMembers data;
  m ← wrap_err (λ _, ErrInvalidMember) (unmarshal_map data);
  UnmarshalPrivate m.

Definition ToJWK (k : PublicKey) : outcome error bytes :=
  m ← Marshal k; Ok (marshal (JObj m)).

Definition ToJWKS (keys : list PublicKey) : outcome error bytes :=
  set ← each (λ _ k, Marshal k) 0 keys;
  Ok (marshal (JObj [(str_bytes "keys", JArr (JObj <$> set))])).
End Text.
End JwkText.
Import JwkText.

(** ** Decoding does not depend on more fuel or less nesting *)

Lemma parse_mono f : ∀ f' d d' s, (f ≤ f')%nat → d' ≤ d →
  (∀ r, parse_value f d s = Ok r → parse_value f' d' s = Ok r) ∧
  (∀ r, parse_members f d s = Ok r → parse_members f' d' s = Ok r) ∧
  (∀ r, parse_elements f d s = Ok r → parse_elements f' d' s = Ok r).
Proof.
  induction f as [|f IH]; intros [|f'] d d' s Hf Hd; try (split_and!; (done || lia)). split_and!; intros r.
  - cbn [parse_value]. destruct (skip_ws s) as [|c s1]; [done|].
    case_bool_decide; [|case_bool_decide]; [..|done].
    + destruct (Z.ltb_spec maxNestingDepth (d + 1)); [done|]. rewrite (proj2 (Z.ltb_ge _ (d' + 1))) by lia.
      destruct (expect x7d s1); [done|]. intros (q & Hq & Hr)%bind_Ok.
      rewrite (proj1 (proj2 (IH f' (d + 1) (d' + 1) s1 ltac:(lia) ltac:(lia))) _ Hq). exact Hr.
    + destruct (Z.ltb_spec maxNestingDepth (d + 1)); [done|]. rewrite (proj2 (Z.ltb_ge _ (d' + 1))) by lia.
      destruct (expect x5d s1); [done|]. intros (q & Hq & Hr)%bind_Ok.
      rewrite (proj2 (proj2 (IH f' (d + 1) (d' + 1) s1 ltac:(lia) ltac:(lia))) _ Hq). exact Hr.
  - cbn [parse_members]. intros (s1 & H1 & (key & Hk & (s2 & H2 & (v & Hv & Hr)%bind_Ok)%bind_Ok)%bind_Ok)%bind_Ok.
    rewrite H1. cbn [mbind outcome_bind]. rewrite Hk. cbn [mbind outcome_bind]. rewrite H2. cbn [mbind outcome_bind].
    rewrite (proj1 (IH f' d d' s2 ltac:(lia) Hd) _ Hv). cbn [mbind outcome_bind].
    destruct (expect x2c v.2) as [s3|]; [|exact Hr]. apply bind_Ok in Hr as (q & Hq & Hr).
    rewrite (proj1 (proj2 (IH f' d d' s3 ltac:(lia) Hd)) _ Hq). exact Hr.
  - cbn [parse_elements]. intros (v & Hv & Hr)%bind_Ok. rewrite (proj1 (IH f' d d' s ltac:(lia) Hd) _ Hv).
    cbn [mbind outcome_bind]. destruct (expect x2c v.2) as [s3|]; [|exact Hr]. apply bind_Ok in Hr as (q & Hq & Hr).
    rewrite (proj2 (proj2 (IH f' d d' s3 ltac:(lia) Hd)) _ Hq). exact Hr.
Qed.

(** More fuel does not change a result. *)
Definition stable {A} (o o' : outcome unit A) : Prop := o = OutOfFuel ∨ o' = o.

Lemma stable_bind {A B} (o o' : outcome unit A) (f f' : A → outcome unit B) :
  stable o o' → (∀ a, stable (f a) (f' a)) → stable (o ≫= f) (o' ≫= f').
Proof. intros [->| ->] Hf; [by left|]. destruct o; cbn; [apply Hf|by right..]. Qed.

Lemma stable_refl {A} (o : outcome unit A) : stable o o.
Proof. by right. Qed.

Lemma parse_fuel_stable f : ∀ f' d s, (f ≤ f')%nat →
  stable (parse_value f d s) (parse_value f' d s) ∧ stable (parse_members f d s) (parse_members f' d s) ∧
  stable (parse_elements f d s) (parse_elements f' d s).
Proof.
  induction f as [|f IH]; intros [|f'] d s Hf; try (split_and!; (lia || by left)). split_and!.
  - cbn [parse_value]. destruct (skip_ws s) as [|c s1]; [apply stable_refl|].
    case_bool_decide; [|case_bool_decide]; [..|apply stable_refl];
      (destruct (maxNestingDepth <? d + 1); [apply stable_refl|]); case_match; try apply stable_refl;
      (apply stable_bind; [apply IH; lia|intros r; apply stable_refl]).
  - cbn [parse_members]. apply stable_bind; [apply stable_refl|intros s1]. apply stable_bind; [apply stable_refl|intros key].
    apply stable_bind; [apply stable_refl|intros s2]. apply stable_bind; [apply IH; lia|intros v].
    case_match; [apply stable_bind; [apply IH; lia|intros r]|]; apply stable_refl.
  - cbn [parse_elements]. apply stable_bind; [apply IH; lia|intros v].
    case_match; [apply stable_bind; [apply IH; lia|intros r]|]; apply stable_refl.
Qed.

(** The value at the start of a text, with the fuel of that text and no nesting. *)
Lemma parse_value_own f d s r : parse_value f d s = Ok r → 0 ≤ d → parse_value (parse_fuel s) 0 s = Ok r.
Proof.
  intros Hp Hd. pose proof (proj1 (parse_mono f (f + parse_fuel s) d 0 s ltac:(lia) Hd) r Hp) as H1.
  destruct (proj1 (parse_fuel_stable (parse_fuel s) (f + parse_fuel s) 0 s ltac:(lia))) as [E|E]; [|congruence].
  pose proof (proj1 (parse_shorter (parse_fuel s)) 0 s ltac:(unfold parse_fuel; lia)) as Hs. by rewrite E in Hs.
Qed.

(** ** The duplicate check *)

(** On the members of an object that parses, the loop finds a repeated name and nothing
    else. *)
Lemma check_members_spec f s m t : parse_members f 1 s = Ok (m, t) → forallb (λ kv, numbers_ok kv.2) m = true →
  ∀ g seen, (length s < g)%nat → NoDup seen →
  check_members g seen s = if bool_decide (NoDup (m.*1 ++ seen)) then Ok tt else Err ErrDuplicateMember.
Proof.
  revert s m t. induction f as [|f IH]; intros s m t; [done|]. cbn [parse_members].
  intros (s1 & H1 & (key & Hk & (s2 & H2 & (v & Hv & Hr)%bind_Ok)%bind_Ok)%bind_Ok)%bind_Ok Hn g seen Hg Hs.
  destruct g as [|g]; [lia|]. cbn [check_members].
  destruct (expect x22 s) as [s1'|] eqn:E1; [|done]. injection H1 as <-. cbn [syntax mbind outcome_bind].
  destruct (scan_string s1') as [key'|] eqn:Ek; [|done]. injection Hk as <-. cbn [syntax mbind outcome_bind].
  destruct (expect x3a key'.2) as [s2'|] eqn:E2; [|done]. injection H2 as <-. cbn [syntax mbind outcome_bind].
  pose proof (proj1 (parse_shorter (parse_fuel s2')) 0 s2' ltac:(unfold parse_fuel; lia)) as Hl.
  apply parse_value_own in Hv; [|lia]. rewrite Hv in *. cbn [wrap_err mbind outcome_bind shorter] in *.
  apply expect_length in E1, E2. apply (scan_string_length (length s1')) in Ek; [|done].
  destruct (decide (unquote key'.1 ∈ seen)) as [Hin|Hin].
  { rewrite bool_decide_eq_true_2 by done. rewrite bool_decide_eq_false_2; [done|].
    destruct (expect x2c v.2); apply bind_Ok in Hr as (q & _ & [= <- _]); intros Hnd; apply NoDup_app in Hnd as (_ & Hnd & _);
      (eapply Hnd; [|exact Hin]; by left). }
  rewrite bool_decide_eq_false_2 by done.
  destruct (expect x2c v.2) as [s3|] eqn:E3; apply bind_Ok in Hr as (q & Hq & [= <- <-]);
    cbn [forallb snd] in Hn; apply andb_true_iff in Hn as [Hnv Hn]; rewrite Hnv; cbn [negb].
  - apply expect_length in E3. destruct q as [m t]. rewrite (IH s3 m t Hq Hn g (unquote key'.1 :: seen)) by (lia || by constructor).
    cbn [fst]. rewrite fmap_cons. cbn [fst app].
    rewrite (bool_decide_ext (NoDup (m.*1 ++ unquote key'.1 :: seen)) (NoDup (unquote key'.1 :: m.*1 ++ seen))); [done|].
    by rewrite Permutation_middle.
  - destruct (expect x7d v.2); [|done]. cbn [syntax mbind outcome_bind]. rewrite bool_decide_eq_true_2; [done|].
    cbn. by constructor.
Qed.

Lemma check_spec data m : parse_document data = Ok (JObj m) → numbers_ok (JObj m) = true →
  checkDuplicateMembers data = if bool_decide (NoDup m.*1) then Ok tt else Err ErrDuplicateMember.
Proof.
  unfold parse_document. intros (r & Hr & Hd)%bind_Ok Hn. destruct (skip_ws r.2); [|done]. injection Hd as Hd.
  destruct r as [v rest]. cbn [fst] in Hd. subst v. unfold checkDuplicateMembers.
  remember (parse_fuel data) as f eqn:Ef. destruct f as [|f]; [done|]. cbn [parse_value] in Hr.
  assert (expect x7b data = match skip_ws data with d :: r => if bool_decide (d = x7b) then Some r else None | [] => None end)
    as -> by done.
  destruct (skip_ws data) as [|c s]; [done|]. case_bool_decide.
  - cbn [syntax mbind outcome_bind]. destruct (maxNestingDepth <? 0 + 1); [done|].
    destruct (expect x7d s) as [s1|]; [injection Hr as <- _; rewrite bool_decide_eq_true_2; [done|apply NoDup_nil_2]|].
    apply bind_Ok in Hr as ([m' t] & Hm & [= -> ->]). cbn [fst] in *.
    rewrite (check_members_spec f s m rest Hm Hn) by (lia || constructor). by rewrite app_nil_r.
  - exfalso. repeat case_bool_decide; try done.
    all: try (apply bind_Ok in Hr as (q & _ & Hr); done).
    1: { destruct (maxNestingDepth <? 0 + 1); [done|]. destruct (expect x5d s); [done|]. by apply bind_Ok in Hr as (q & _ & Hr). }
    all: destruct (is_digit c); try done; cbn [orb] in Hr; by apply bind_Ok in Hr as (q & _ & Hr).
Qed.

(** The check accepts an object exactly when its names are distinct after unescaping;
    otherwise it reports the duplicate. *)
Theorem checkDuplicateMembers_exact data m : parse_document data = Ok (JObj m) → numbers_ok (JObj m) = true →
  checkDuplicateMembers data = if bool_decide (NoDup m.*1) then Ok tt else Err ErrDuplicateMember.
Proof. apply check_spec. Qed.

(** ** Round trip *)

Lemma check_marshal m : NoDup m.*1 → Forall valid_text m.*1 → fits maxNestingDepth (JObj m) = true →
  numbers_ok (JObj m) = true → checkDuplicateMembers (marshal (JObj m)) = Ok tt.
Proof.
  intros Hnd Hv Hf Hn. pose proof (document_marshal _ Hf) as Hd. rewrite <- numbers_norm in Hn. rewrite norm_obj in *.
  rewrite (check_spec _ _ Hd Hn). rewrite bool_decide_eq_true_2; [done|].
  assert (merge_sort key_le m ≡ₚ m) as Hp by apply merge_sort_Permutation.
  assert ((prod_map sanitize norm <$> merge_sort key_le m).*1 = (merge_sort key_le m).*1) as ->; [|by rewrite Hp].
  rewrite <- list_fmap_compose. apply list_fmap_ext. intros i [k v] Hi. cbn.
  rewrite list.Forall_forall in Hv. apply Hv. rewrite <- Hp. apply list_elem_of_fmap. exists (k, v).
  split; [done|]. by eapply list_elem_of_lookup_2.
Qed.

Lemma encode_rawurl_ascii b : Forall (λ c, b2z c < 0x80) (encode_rawurl b).
Proof.
  unfold encode_rawurl. apply list.Forall_fmap. eapply Forall_impl; [apply b64_digits_range|]. intros n Hn. cbv beta in Hn. cbn.
  assert (Forall (λ n, b2z (b64url_digit n) < 0x80) (seqZ 0 64)) as HF by (apply (bool_decide_unpack _); vm_compute; exact I).
  rewrite list.Forall_forall in HF. apply HF, elem_of_seqZ. lia.
Qed.

Lemma decoded_rawurl b : decoded (JStr (encode_rawurl b)) = JStr (encode_rawurl b).
Proof. apply decoded_str, valid_ascii, encode_rawurl_ascii. Qed.

Section Text.
Context `{D : Dcrd, L : !Secp256k1.DcrdLaws, X : Jwx, C : Curves, KL : !KoblitzLaws}.

Lemma secp_jwk_names x y : NoDup (secp_jwk x y).*1 ∧ Forall valid_text (secp_jwk x y).*1.
Proof. split; apply (bool_decide_unpack _); vm_compute; exact I. Qed.

Lemma secp_jwk_fits x y : fits maxNestingDepth (JObj (secp_jwk x y)) = true ∧ numbers_ok (JObj (secp_jwk x y)) = true.
Proof. by vm_compute. Qed.

Lemma secp_jwk_members x y :
  member (secp_jwk x y) "kty" = Some (JStr (str_bytes "EC")) ∧ member (secp_jwk x y) "crv" = Some (JStr (str_bytes "secp256k1")) ∧
  member (secp_jwk x y) "alg" = Some (JStr (str_bytes "ES256K")) ∧ member (secp_jwk x y) "x" = Some (JStr (encode_rawurl x)) ∧
  member (secp_jwk x y) "y" = Some (JStr (encode_rawurl y)) ∧ member (secp_jwk x y) "d" = None.
Proof. split_and!; reflexivity. Qed.

Lemma decoded_names : decoded (JStr (str_bytes "EC")) = JStr (str_bytes "EC") ∧
  decoded (JStr (str_bytes "secp256k1")) = JStr (str_bytes "secp256k1") ∧
  decoded (JStr (str_bytes "ES256K")) = JStr (str_bytes "ES256K").
Proof. vm_compute. done. Qed.

Lemma unmarshal_secp_members p x y m : point_uncompressed p = x04 :: x ++ y → length x = 32%nat → length y = 32%nat →
  reqString m "kty" = Ok (str_bytes "EC") → optString m "alg" = str_bytes "ES256K" →
  optString m "crv" = str_bytes "secp256k1" → ¬ is_Some (member m "d") →
  reqString m "x" = Ok (encode_rawurl x) → reqString m "y" = Ok (encode_rawurl y) →
  Unmarshal (Some m) = Ok (Secp256k1Pub (Secp256k1.PubBytes p)).
Proof.
  intros E Hx Hy K1 K2 K3 K4 K5 K6. cbn [Unmarshal]. rewrite K1. cbn [mbind outcome_bind].
  rewrite bool_decide_eq_false_2 by done. rewrite K2.
  change (bool_decide (str_bytes "ES256K" = str_bytes "none")) with false.
  change (bool_decide (str_bytes "EC" = str_bytes "OKP")) with false.
  change (bool_decide (str_bytes "EC" = str_bytes "EC")) with true. rewrite K3.
  change (bool_decide (str_bytes "secp256k1" = str_bytes "secp256k1")) with true. cbv iota.
  by apply (unmarshal_secp_public p x y).
Qed.

Lemma decoded_member m m' k s : (∀ k, member m k = decoded <$> member m' k) → member m' k = Some (JStr s) →
  decoded (JStr s) = JStr s → reqString m k = Ok s ∧ optString m k = s.
Proof.
  intros Hk E1 E2. unfold reqString, optString. rewrite Hk, E1. cbn [fmap option_fmap option_map]. by rewrite E2.
Qed.

(** The map decoded from the text of such a JWK unmarshals like the JWK. *)
Lemma unmarshal_secp_text p x y m : point_uncompressed p = x04 :: x ++ y → length x = 32%nat → length y = 32%nat →
  m ≡ₚ (prod_map id decoded <$> secp_jwk x y) → Unmarshal (Some m) = Ok (Secp256k1Pub (Secp256k1.PubBytes p)).
Proof.
  intros E Hx Hy Hm. destruct (secp_jwk_names x y) as [Hnd _].
  assert (∀ k, member m k = decoded <$> member (secp_jwk x y) k) as Hk by (intros k; by apply unmarshal_lookup).
  destruct (secp_jwk_members x y) as (M1 & M2 & M3 & M4 & M5 & M6). destruct decoded_names as (D1 & D2 & D3).
  apply (unmarshal_secp_members p x y); [done..| | | | | |].
  - exact (proj1 (decoded_member m _ _ _ Hk M1 D1)).
  - exact (proj2 (decoded_member m _ _ _ Hk M3 D3)).
  - exact (proj2 (decoded_member m _ _ _ Hk M2 D2)).
  - rewrite Hk, M6. by intros [].
  - exact (proj1 (decoded_member m _ _ _ Hk M4 (decoded_rawurl x))).
  - exact (proj1 (decoded_member m _ _ _ Hk M5 (decoded_rawurl y))).
Qed.

Lemma PublicFromJWK_steps data o : checkDuplicateMembers data = Ok tt → unmarshal_map data = Ok o →
  PublicFromJWK data = Unmarshal o.
Proof. intros Hc Ho. unfold PublicFromJWK. by rewrite Hc, Ho. Qed.

Lemma PrivateFromJWK_steps data o : checkDuplicateMembers data = Ok tt → unmarshal_map data = Ok o →
  PrivateFromJWK data = UnmarshalPrivate o.
Proof. intros Hc Ho. unfold PrivateFromJWK. by rewrite Hc, Ho. Qed.

(** A secp256k1 public key survives its JSON text. *)
Theorem PublicFromJWK_ToJWK_secp256k1 p : ∃ data,
  ToJWK (Secp256k1Pub (Secp256k1.PubBytes p)) = Ok data ∧
  PublicFromJWK data = Ok (Secp256k1Pub (Secp256k1.PubBytes p)).
Proof.
  destruct (point_halves p) as (x & y & E & Hx & Hy). exists (marshal (JObj (secp_jwk x y))).
  destruct (secp_jwk_names x y) as [Hnd Hv]. destruct (secp_jwk_fits x y) as [Hf Hn]. split.
  - unfold ToJWK. cbn [Marshal]. rewrite (marshal_secp p x y E Hx Hy). exact eq_refl.
  - destruct (unmarshal_map_marshal (secp_jwk x y) Hnd Hv Hf Hn) as (m & Hu & _ & Hm).
    rewrite (PublicFromJWK_steps _ _ (check_marshal _ Hnd Hv Hf Hn) Hu). exact (unmarshal_secp_text p x y m E Hx Hy Hm).
Qed.

(** A text that [PublicFromJWK] accepts is one object with distinct names; the key comes
    from [Unmarshal] on that object. *)
Theorem PublicFromJWK_object data k : PublicFromJWK data = Ok k → ∃ m,
  parse_document data = Ok (JObj m) ∧ NoDup m.*1 ∧ Unmarshal (Some ((λ kv, (kv.1, to_any kv.2)) <$> m)) = Ok k.
Proof.
  unfold PublicFromJWK. intros ([] & Hc & (o & Ho & Hk)%bind_Ok)%bind_Ok. apply wrap_err_Ok in Ho.
  unfold unmarshal_map in Ho. apply bind_Ok in Ho as (v & Hv & Ho). destruct v as [| | | | |m]; try done; [by injection Ho as <-|].
  destruct (numbers_ok (JObj m)) eqn:Hn; [|done]. injection Ho as <-. exists m. split; [done|].
  rewrite (check_spec data m Hv Hn) in Hc. case_bool_decide as Hnd; [|done]. split; [done|].
  rewrite collect_id in Hk; [done|]. rewrite <- list_fmap_compose. done.
Qed.
End Text.

(** ** Witnesses *)

Lemma checkDuplicateMembers_exact_witness :
  checkDuplicateMembers [x7b; x22; x61; x22; x3a; x31; x2c; x22; x5c; x75; x30; x30; x36; x31; x22; x3a; x32; x7d] =
    Err ErrDuplicateMember.
Proof.
  rewrite (checkDuplicateMembers_exact _ [([x61], JNum [x31]); ([x61], JNum [x32])]); vm_compute; reflexivity.
Defined.

Lemma PublicFromJWK_ToJWK_secp256k1_witness : let c := JwkToy.curves in let d := Toy.dcrd in let j := JwkToy.jwx in
  ∃ data, ToJWK (Secp256k1Pub (Secp256k1.PubBytes (Toy.mk 5))) = Ok data ∧
    PublicFromJWK data = Ok (Secp256k1Pub (Secp256k1.PubBytes (Toy.mk 5))).
Proof. intros c d j. apply (PublicFromJWK_ToJWK_secp256k1 (L := Toy.laws) (KL := JwkToy.koblitz_laws)). Defined.

Definition ex_text : bytes := marshal (JObj (secp_jwk (be_bytes 32 5) (replicate 32 x00))).

Lemma PublicFromJWK_object_witness : let c := JwkToy.curves in let d := Toy.dcrd in let j := JwkToy.jwx in
  ∃ m, parse_document ex_text = Ok (JObj m) ∧ NoDup m.*1 ∧
    Unmarshal (Some ((λ kv, (kv.1, to_any kv.2)) <$> m)) = Ok (Secp256k1Pub (x02 :: be_bytes 32 5)).
Proof. intros c d j. apply PublicFromJWK_object. vm_compute. reflexivity. Defined.
