(* ===== verification/GoFloat.v ===== *)
(** * Conversions of a JSON number to an integer

    [int64(f)] of a [float64], and the integers that survive the way through a JSON
    number: the literal is read as the nearest double, exactly up to 2^53. *)
From Stdlib Require Import SpecFloat.
From stdpp Require Import sorting.
From S2P Require Import Prelude Canonical CanonicalProofs CanonicalInjective Json JsonProofs.
Import Canonical.
#[local] Open Scope Z_scope.

(** What [int64(f)] is for a double outside the range of [int64]: the language leaves it
    to the implementation, which differs between processors. *)
Class Arch : Type := out_of_range : spec_float → Z.

Module GoFloat.

(** The value without its fraction. *)
Definition trunc (f : spec_float) : option Z :=
  match f with
  | S754_zero _ => Some 0
  | S754_finite neg m e =>
      let v := if 0 <=? e then Zpos m * 2 ^ e else Zpos m `div` 2 ^ (- e) in
      Some (if neg then - v else v)
  | _ => None
  end.

Definition int64 `{Arch} (f : spec_float) : Z :=
  match trunc f with
  | Some z => if (- 2 ^ 63 <=? z) && (z <? 2 ^ 63) then z else out_of_range f
  | None => out_of_range f
  end.

(** [v.(float64)] of a decoded value. *)
Definition float64 (v : json) : option spec_float :=
  match v with JNum lit => ParseFloat lit | _ => None end.

End GoFloat.
Import GoFloat.

(** ** The literal of an integer *)

Lemma dec_value_snoc ds d : dec_value (ds ++ [d]) = dec_value ds * 10 + digit d.
Proof. unfold dec_value. by rewrite foldl_app. Qed.

Lemma digits_value f n : 0 ≤ n < 10 ^ Z.of_nat f → dec_value (digits_of f n) = n.
Proof.
  revert n. induction f as [|f IH]; intros n Hn; [change (10 ^ Z.of_nat 0) with 1 in Hn; cbn; lia|].
  cbn [digits_of]. rewrite Nat2Z.inj_succ, Z.pow_succ_r in Hn by lia. destruct (Z.eqb_spec n 0) as [->|]; [done|].
  rewrite dec_value_snoc, IH by div_lia. unfold digit. rewrite b2z_z2b_small by div_lia. div_lia.
Qed.

Lemma itoa_value n : 0 ≤ n < 10 ^ 20 → dec_value (itoa n) = n.
Proof.
  intros Hn. unfold itoa. destruct (Z.eqb_spec n 0) as [->|]; [done|]. apply digits_value. by change (Z.of_nat 20) with 20.
Qed.

Lemma parse_decimal_digits neg ds : ds ≠ [] → Forall (λ c, is_digit c = true) ds →
  parse_decimal ((if neg : bool then [x2d] else []) ++ ds) = Some (Dec neg (dec_value ds) 0).
Proof.
  intros Hne Hd. unfold parse_decimal.
  assert (strip_sign ((if neg then [x2d] else []) ++ ds) = (neg, ds)) as ->.
  { destruct neg; [done|]. destruct Hd as [|c s Hc _]; [done|]. cbn. by rewrite bool_decide_eq_false_2 by (by intros ->). }
  rewrite span_digits_all by done. by destruct ds.
Qed.

(** ** Rounding is exact up to 2^53 *)

Lemma round_exact neg n : 0 < n < 2 ^ 53 → ∃ p e, round_rat neg n 1 = S754_finite neg p e ∧ e ≤ 0 ∧ Zpos p = n * 2 ^ (- e).
Proof.
  intros Hn. set (k := Z.log2 n). pose proof (Z.log2_spec n ltac:(lia)) as Hk. fold k in Hk.
  assert (0 ≤ k < 53) as Hk53 by (split; [apply Z.log2_nonneg|apply Z.log2_lt_pow2; lia]).
  unfold round_rat. fold k. change (Z.log2 1) with 0. rewrite (Z.max_l (k - 0 - 53)) by lia.
  unfold quot_at. rewrite (proj2 (Z.ltb_lt (k - 0 - 53) 0)) by lia. rewrite !Z.div_1_r.
  assert (2 ^ 53 <= n * 2 ^ (- (k - 0 - 53))) as H53.
  { replace (2 ^ 53) with (2 ^ k * 2 ^ (- (k - 0 - 53))) by (rewrite <- Z.pow_add_r by lia; f_equal; lia).
    apply Z.mul_le_mono_nonneg_r; [apply Z.pow_nonneg; lia|lia]. }
  rewrite (proj2 (Z.leb_le _ _)) by done. replace (k - 0 - 53 + 1) with (k - 52) by lia.
  assert (n * 2 ^ (- (k - 52)) < 2 ^ 53) as Hlt.
  { replace (2 ^ 53) with (2 ^ Z.succ k * 2 ^ (- (k - 52))) by (rewrite <- Z.pow_add_r by lia; f_equal; lia).
    apply Z.mul_lt_mono_pos_r; [apply Z.pow_pos_nonneg; lia|lia]. }
  assert (0 < n * 2 ^ (- (k - 52))) as Hpos by (apply Z.mul_pos_pos; [lia|apply Z.pow_pos_nonneg; lia]).
  assert ((if k - 52 <? 0 then n * 2 ^ (- (k - 52)) else n) = n * 2 ^ (- (k - 52))) as ->.
  { destruct (Z.ltb_spec (k - 52) 0); [done|]. replace (k - 52) with 0 by lia. change (2 ^ (- 0)) with 1. lia. }
  assert ((if k - 52 <? 0 then 1 else 1 * 2 ^ (k - 52)) = 1) as ->.
  { destruct (Z.ltb_spec (k - 52) 0); [done|]. by replace (k - 52) with 0 by lia. }
  set (q := n * 2 ^ (- (k - 52))) in *. rewrite Z.div_1_r, Z.mod_1_r. cbn [Z.mul]. 
  replace ((1 <? 2 * 0) || ((1 =? 2 * 0) && Z.odd q)) with false by done. cbv iota.
  rewrite (proj2 (Z.eqb_neq q (2 ^ 53))) by lia. cbv iota.
  destruct q as [|p|] eqn:Eq; [lia| |lia]. rewrite (proj2 (Z.ltb_ge 971 _)) by lia.
  exists p, (k - 52). split_and!; [done|lia|]. rewrite <- Eq. reflexivity.
Qed.

Lemma trunc_int z f : Z.abs z ≤ 2 ^ 53 → float_of_decimal (Dec (z <? 0) (Z.abs z) 0) = f → trunc f = Some z.
Proof.
  intros Hz <-. unfold float_of_decimal. cbn [dmant dexp dneg]. destruct (Z.eqb_spec (Z.abs z) 0) as [E|E].
  { cbn. f_equal. lia. }
  change (400 <? 0) with false. pose proof (Z.log2_nonneg (Z.abs z)). rewrite (proj2 (Z.ltb_ge _ (-400))) by lia.
  change (0 <=? 0) with true. cbv iota. rewrite Z.mul_1_r.
  destruct (decide (Z.abs z = 2 ^ 53)) as [E'|E'].
  { rewrite E'. assert (z = 2 ^ 53 ∨ z = - 2 ^ 53) as [-> | ->] by lia; vm_compute; reflexivity. }
  destruct (round_exact (z <? 0) (Z.abs z)) as (p & e & -> & He & Hp); [lia|]. cbn [trunc]. rewrite Hp.
  assert ((if 0 <=? e then Z.abs z * 2 ^ (- e) * 2 ^ e else (Z.abs z * 2 ^ (- e)) `div` 2 ^ (- e)) = Z.abs z) as ->.
  { destruct (Z.leb_spec 0 e); [replace e with 0 by lia; change (2 ^ (- 0)) with 1; change (2 ^ 0) with 1; lia|].
    apply Z.div_mul. apply Z.pow_nonzero; lia. }
  f_equal. destruct (Z.ltb_spec z 0); lia.
Qed.

(** An integer of at most 2^53 is what its literal is read as. *)
Lemma int64_jint `{Arch} z : Z.abs z ≤ 2 ^ 53 → ∃ f, float64 (jint z) = Some f ∧ is_finite f = true ∧ int64 f = z.
Proof.
  intros Hz. unfold jint. cbn [float64]. unfold ParseFloat.
  destruct (itoa_int (Z.abs z)) as [Hi Hd]; [lia|].
  rewrite (parse_decimal_digits (z <? 0)) by (done || by intros E; rewrite E in Hi). rewrite itoa_value by lia.
  eexists. split; [reflexivity|]. pose proof (trunc_int z _ Hz eq_refl) as Ht. split.
  - by destruct (float_of_decimal _).
  - unfold int64. rewrite Ht. rewrite (proj2 (Z.leb_le _ _)), (proj2 (Z.ltb_lt _ _)) by lia. done.
Qed.

(** ** Integers keep their digits *)

(** Doubles from 2^53 on have a positive exponent. *)
Lemma round_large neg n p e : 2 ^ 53 ≤ n → round_rat neg n 1 = S754_finite neg p e → 0 < e.
Proof.
  intros Hn. set (k := Z.log2 n). pose proof (Z.log2_spec n ltac:(lia)) as Hk. fold k in Hk.
  assert (53 ≤ k) as Hk53 by (apply Z.log2_le_pow2; lia).
  unfold round_rat. fold k. change (Z.log2 1) with 0. rewrite (Z.max_l (k - 0 - 53)) by lia.
  destruct (quot_at n 1 (k - 0 - 53)) as [[q0 r0] d0] eqn:E0. cbv zeta.
  assert (0 < (if 2 ^ 53 <=? q0 then k - 0 - 53 + 1 else k - 0 - 53)) as He1.
  { destruct (Z.leb_spec (2 ^ 53) q0) as [H|H]; [lia|]. destruct (decide (k = 53)) as [->|]; [|lia].
    unfold quot_at in E0. change (53 - 0 - 53) with 0 in E0. change (1 * 2 ^ 0) with 1 in E0. rewrite Z.div_1_r in E0.
    change (0 <? 0) with false in E0. injection E0 as <- _ _. lia. }
  revert He1. generalize (if 2 ^ 53 <=? q0 then k - 0 - 53 + 1 else k - 0 - 53). intros e1 He1.
  destruct (quot_at n 1 e1) as [[q r] d']. generalize (if (d' <? 2 * r) || ((d' =? 2 * r) && Z.odd q) then q + 1 else q). intros m0.
  destruct (if m0 =? 2 ^ 53 then 2 ^ 52 else m0) as [|m|m]; [done| |done].
  destruct (971 <? _); [done|]. intros [= <- <-]. destruct (m0 =? 2 ^ 53); lia.
Qed.

(** The literal [t * 10^u] of an integer below 2^53 is the double of that integer only. *)
Lemma float_of_int_inj t u z p e : 0 ≤ t → 0 ≤ u ≤ 400 → 0 < z < 2 ^ 53 → round_rat false z 1 = S754_finite false p e →
  float_of_decimal (Dec false t u) = S754_finite false p e ↔ t * 10 ^ u = z.
Proof.
  intros Ht Hu Hz Hf. pose proof (Z.pow_pos_nonneg 10 u) as Hp. unfold float_of_decimal. cbn [dmant dexp dneg].
  destruct (Z.eqb_spec t 0) as [->|Ht0]; [split; [done|lia]|]. rewrite (proj2 (Z.ltb_ge 400 u)) by lia.
  pose proof (Z.log2_nonneg t). rewrite (proj2 (Z.ltb_ge _ (-400))) by lia. rewrite (proj2 (Z.leb_le 0 u)) by lia.
  split; [|by intros ->]. intros Hr. assert (0 < t * 10 ^ u) by (apply Z.mul_pos_pos; lia).
  destruct (round_exact false z Hz) as (p' & e' & E & He & Hpe). rewrite Hf in E. injection E as <- <-.
  destruct (Z.lt_ge_cases (t * 10 ^ u) (2 ^ 53)) as [Hlt|Hge].
  - destruct (round_exact false (t * 10 ^ u) ltac:(lia)) as (p' & e' & E & _ & Hpe'). rewrite Hr in E. injection E as <- <-.
    rewrite Hpe in Hpe'. pose proof (Z.pow_pos_nonneg 2 (- e)). by apply Z.mul_cancel_r in Hpe'; [|lia].
  - apply round_large in Hr; lia.
Qed.

(** [10^y] is at most [z]. *)
Definition pow10_le (z y : Z) : bool := if 0 <=? y then 10 ^ y <=? z else true.

Lemma le_pow10_int z d y : 0 < z → 0 < d → le_pow10 (z * d) d y = pow10_le z y.
Proof.
  intros Hz Hd. unfold le_pow10, pow10_le. destruct (Z.leb_spec 0 y).
  - apply eq_bool_prop_intro. rewrite !Is_true_true, !Z.leb_le. by rewrite <- (Z.mul_le_mono_pos_r _ _ d Hd).
  - apply Z.leb_le. pose proof (Z.pow_pos_nonneg 10 (- y) ltac:(lia) ltac:(lia)) as Hp.
    revert Hp. generalize (10 ^ (- y)). intros q Hq. assert (d ≤ z * d) by nia. nia.
Qed.

Lemma log10_up_spec f z d x : 0 < z → 0 < d → pow10_le z x = true → let r := log10_up f (z * d) d x in
  x ≤ r ∧ pow10_le z r = true ∧ (r < x + Z.of_nat f → pow10_le z (r + 1) = false).
Proof.
  intros Hz Hd. revert x. induction f as [|f IH]; intros x Hx; cbn [log10_up].
  - split_and!; [lia|done|lia].
  - rewrite le_pow10_int by done. destruct (pow10_le z (x + 1)) eqn:E; [|split_and!; [lia|done|done]].
    destruct (IH (x + 1) E) as (H1 & H2 & H3). split_and!; [lia|done|]. intros. apply H3. lia.
Qed.

(** The estimate is close enough for every integer below 2^53. *)
Lemma log10_estimate l : 0 ≤ l < 53 → let x := ((l - 1) * 30103) `div` 100000 - 1 in
  pow10_le (2 ^ l) x = true ∧ 0 ≤ x + 4 ∧ 2 ^ (l + 1) ≤ 10 ^ (x + 4).
Proof.
  intros Hl. assert (forallb (λ l, let x := ((l - 1) * 30103) `div` 100000 - 1 in
    pow10_le (2 ^ l) x && (0 <=? x + 4) && (2 ^ (l + 1) <=? 10 ^ (x + 4))) (seqZ 0 53) = true) as Hb by (vm_compute; reflexivity).
  rewrite forallb_forall in Hb. specialize (Hb l). rewrite <- list_elem_of_In, elem_of_seqZ, !andb_true_iff, !Z.leb_le in Hb.
  destruct Hb as [[H1 H2] H3]; [lia|]. done.
Qed.

Lemma log10_floor_int z j : 0 < z < 2 ^ 53 → 0 ≤ j → let x := log10_floor (z * 2 ^ j) (2 ^ j) in 0 ≤ x ∧ 10 ^ x ≤ z < 10 ^ (x + 1).
Proof.
  intros Hz Hj. unfold log10_floor. pose proof (Z.pow_pos_nonneg 2 j). rewrite Z.log2_mul_pow2, Z.log2_pow2 by lia.
  replace (j + Z.log2 z - j - 1) with (Z.log2 z - 1) by lia. pose proof (Z.log2_spec z ltac:(lia)) as Hl.
  assert (0 ≤ Z.log2 z < 53) as Hl53 by (split; [apply Z.log2_nonneg|apply Z.log2_lt_pow2; lia]).
  destruct (log10_estimate _ Hl53) as (E1 & E2 & E3). set (x0 := _ `div` _ - 1) in *.
  assert (pow10_le z x0 = true) as Hx0.
  { unfold pow10_le in *. destruct (0 <=? x0); [|done]. rewrite Z.leb_le in *. lia. }
  destruct (log10_up_spec 3 z (2 ^ j) x0 ltac:(lia) ltac:(lia) Hx0) as (H1 & H2 & H3). cbv zeta. set (r := log10_up _ _ _ _) in *.
  assert (pow10_le z (r + 1) = false) as H4.
  { destruct (Z.lt_ge_cases r (x0 + 3)) as [Hr|Hr]; [by apply H3|]. unfold pow10_le. rewrite (proj2 (Z.leb_le 0 (r + 1))) by lia.
    apply Z.leb_gt. change (Z.succ (Z.log2 z)) with (Z.log2 z + 1) in Hl. pose proof (Z.pow_le_mono_r 10 (x0 + 4) (r + 1)). lia. }
  unfold pow10_le in H2, H4. destruct (Z.leb_spec 0 (r + 1)) as [Hr1|]; [|done]. apply Z.leb_gt in H4.
  assert (0 ≤ r) as Hr. { destruct (decide (r + 1 = 0)) as [E|]; [|lia]. rewrite E in H4. change (10 ^ 0) with 1 in H4. lia. }
  rewrite (proj2 (Z.leb_le 0 r)) in H2 by done. apply Z.leb_le in H2. lia.
Qed.

(** With [k] digits an integer is found when the rest of its digits are zeros. *)
Lemma try_digits_int z p e x k : 0 < z < 2 ^ 53 → round_rat false z 1 = S754_finite false p e → 0 ≤ x - Z.of_nat k + 1 ≤ 400 →
  let u := x - Z.of_nat k + 1 in
  try_digits p e (z * 2 ^ (- e)) (2 ^ (- e)) x k = if z `mod` 10 ^ u =? 0 then Some (z `div` 10 ^ u, u) else None.
Proof.
  intros Hz Hf Hu u. destruct (round_exact false z Hz) as (p' & e' & E & He & _). rewrite Hf in E. injection E as <- <-.
  pose proof (Z.pow_pos_nonneg 10 u) as Hp. pose proof (Z.pow_pos_nonneg 2 (- e)) as H2.
  unfold try_digits. fold u. rewrite (proj2 (Z.ltb_ge u 0)) by lia.
  assert ((z * 2 ^ (- e)) `div` (2 ^ (- e) * 10 ^ u) = z `div` 10 ^ u) as ->.
  { rewrite (Z.mul_comm z). by apply Z.div_mul_cancel_l; lia. }
  set (rem := _ `mod` _). clearbody rem. pose proof (Z.div_mod z (10 ^ u) ltac:(lia)) as Hdm.
  pose proof (Z.mod_pos_bound z (10 ^ u) ltac:(lia)) as Hm. pose proof (Z.div_pos z (10 ^ u) ltac:(lia) ltac:(lia)) as Hq.
  rewrite (bool_decide_ext _ _ (float_of_int_inj (z `div` 10 ^ u) u z p e Hq ltac:(lia) Hz Hf)).
  rewrite (bool_decide_ext _ _ (float_of_int_inj (z `div` 10 ^ u + 1) u z p e ltac:(lia) ltac:(lia) Hz Hf)).
  rewrite (bool_decide_eq_false_2 ((z `div` 10 ^ u + 1) * 10 ^ u = z)) by lia. rewrite andb_false_r.
  destruct (Z.eqb_spec (z `mod` 10 ^ u) 0); [rewrite bool_decide_eq_true_2 by lia|rewrite bool_decide_eq_false_2 by lia]; done.
Qed.

Lemma shortest_from_int z p e x f k : 0 < z < 2 ^ 53 → round_rat false z 1 = S754_finite false p e → 0 ≤ x ≤ 400 → 1 ≤ Z.of_nat k ≤ x + 1 →
  x + 1 - Z.of_nat k < Z.of_nat f →
  ∃ t u, shortest_from f k p e (z * 2 ^ (- e)) (2 ^ (- e)) x = Some (t, u) ∧ 0 ≤ u ∧ t * 10 ^ u = z.
Proof.
  intros Hz Hf Hx. revert k. induction f as [|f IH]; intros k Hk Hfu; [lia|]. cbn [shortest_from].
  rewrite try_digits_int by (done || lia). set (u := x - Z.of_nat k + 1). destruct (Z.eqb_spec (z `mod` 10 ^ u) 0) as [E|E].
  - pose proof (Z.pow_pos_nonneg 10 u). exists (z `div` 10 ^ u), u. split_and!; [done|lia|]. pose proof (Z.div_mod z (10 ^ u)). lia.
  - apply IH; [|lia]. destruct (decide (u = 0)) as [Eu|]; [rewrite Eu in E; change (10 ^ 0) with 1 in E; rewrite Z.mod_1_r in E; lia|lia].
Qed.

Lemma trim10_value f t u t' u' : 0 ≤ u → 0 < t → trim10 f t u = (t', u') → u ≤ u' ∧ 0 < t' ∧ t' * 10 ^ u' = t * 10 ^ u.
Proof.
  intros Hu Ht. revert t u Hu Ht. induction f as [|f IH]; intros t u Hu Ht; cbn [trim10]; [by intros [= <- <-]|].
  destruct (Z.eqb_spec (t `mod` 10) 0) as [E|E]; [|by intros [= <- <-]].
  intros (H1 & H2 & H3)%IH; [|lia|div_lia]. split_and!; [lia|done|]. rewrite H3, Z.pow_add_r by lia.
  rewrite (Z.div_mod t 10) at 2 by lia. rewrite E. lia.
Qed.

(** Digits do not depend on the fuel, and trailing zeros are zeros. *)
Lemma digits_of_fuel f f' n : 0 ≤ n < 10 ^ Z.of_nat f → 0 ≤ n < 10 ^ Z.of_nat f' → digits_of f n = digits_of f' n.
Proof.
  revert f' n. induction f as [|f IH]; intros f' n Hn Hn'.
  - change (10 ^ Z.of_nat 0) with 1 in Hn. replace n with 0 by lia. by destruct f'.
  - destruct f' as [|f']; [change (10 ^ Z.of_nat 0) with 1 in Hn'; by replace n with 0 by lia|].
    cbn [digits_of]. destruct (n =? 0); [done|]. rewrite Nat2Z.inj_succ, Z.pow_succ_r in Hn, Hn' by lia. by rewrite (IH f') by div_lia.
Qed.

Lemma digits_of_pow10 f j t : 0 < t → t * 10 ^ Z.of_nat j < 10 ^ Z.of_nat f →
  digits_of f (t * 10 ^ Z.of_nat j) = digits_of f t ++ replicate j x30.
Proof.
  intros Ht. revert f. induction j as [|j IH]; intros f Hf.
  - change (10 ^ Z.of_nat 0) with 1. by rewrite Z.mul_1_r, app_nil_r.
  - rewrite Nat2Z.inj_succ, Z.pow_succ_r in * by lia. pose proof (Z.pow_pos_nonneg 10 (Z.of_nat j)).
    destruct f as [|f]; [change (10 ^ Z.of_nat 0) with 1 in Hf; nia|]. cbn [digits_of].
    rewrite (proj2 (Z.eqb_neq (t * (10 * _)) 0)) by nia. replace (t * (10 * 10 ^ Z.of_nat j)) with (t * 10 ^ Z.of_nat j * 10) by lia.
    rewrite Z.div_mul, Z.mod_mul by lia. rewrite Nat2Z.inj_succ, Z.pow_succ_r in Hf by lia.
    rewrite IH by lia. change (z2b (48 + 0)) with x30. rewrite <- app_assoc, <- replicate_S_end.
    destruct (Z.eqb_spec t 0); [lia|]. f_equal. rewrite (digits_of_fuel f (S f) t).
    + cbn [digits_of]. by rewrite (proj2 (Z.eqb_neq t 0)).
    + nia.
    + rewrite Nat2Z.inj_succ, Z.pow_succ_r by lia. nia.
Qed.

Lemma digits_of_bound f t : 0 < t < 10 ^ Z.of_nat f → 10 ^ (zlen (digits_of f t) - 1) ≤ t ∧ digits_of f t ≠ [].
Proof.
  revert t. induction f as [|f IH]; intros t Ht; [change (10 ^ Z.of_nat 0) with 1 in Ht; lia|].
  cbn [digits_of]. rewrite (proj2 (Z.eqb_neq t 0)) by lia. rewrite Nat2Z.inj_succ, Z.pow_succ_r in Ht by lia.
  split; [|by destruct (digits_of f (t `div` 10))]. rewrite length_app. cbn [length]. replace (Z.of_nat (_ + 1) - 1) with (zlen (digits_of f (t `div` 10))) by lia.
  destruct (decide (t `div` 10 = 0)) as [E|E].
  - rewrite E. replace (digits_of f 0) with (@nil byte) by (by destruct f). cbn. lia.
  - destruct (IH (t `div` 10)) as [Hb Hne]; [div_lia|]. assert (1 ≤ zlen (digits_of f (t `div` 10))) by (destruct (digits_of f _); [done|cbn; lia]).
    replace (zlen (digits_of f (t `div` 10))) with (Z.succ (zlen (digits_of f (t `div` 10)) - 1)) by lia.
    rewrite Z.pow_succ_r by lia. div_lia.
Qed.

Lemma round_sign neg n d p e : round_rat neg n d = S754_finite neg p e → round_rat false n d = S754_finite false p e.
Proof.
  unfold round_rat. destruct (quot_at n d _) as [[q0 r0] d0]. cbv zeta. destruct (quot_at n d _) as [[q r] d'].
  destruct (if _ =? 2 ^ 53 then 2 ^ 52 else _) as [|m|m]; [done| |done]. destruct (971 <? _); [done|]. by intros [= -> ->].
Qed.

(** The digits of a positive integer below 2^53. *)
Lemma shortest_digits_int z p e : 0 < z < 2 ^ 53 → round_rat false z 1 = S754_finite false p e →
  ∃ ds j, shortest_digits p e = Some (ds, Z.of_nat j + zlen ds - 1) ∧ ds ≠ [] ∧ Z.of_nat j + zlen ds ≤ 16 ∧ itoa z = ds ++ replicate j x30.
Proof.
  intros Hz Hf. destruct (round_exact false z Hz) as (p' & e' & E & He & Hpe). rewrite Hf in E. injection E as <- <-.
  unfold shortest_digits. assert (float_frac p e = (z * 2 ^ (- e), 2 ^ (- e))) as ->.
  { unfold float_frac. rewrite Hpe. destruct (Z.leb_spec 0 e); [|done]. replace e with 0 by lia. f_equal. change (2 ^ (- 0)) with 1. change (2 ^ 0) with 1. lia. }
  destruct (log10_floor_int z (- e) Hz ltac:(lia)) as (Hx & Hlo & Hhi). set (x := log10_floor _ _) in *. clearbody x.
  assert (x < 16) as Hx16. { destruct (Z.lt_ge_cases x 16); [done|]. pose proof (Z.pow_le_mono_r 10 16 x ltac:(lia) ltac:(lia)). lia. }
  destruct (shortest_from_int z p e x 17 1 Hz Hf) as (t & u & -> & Hu & Ht); [lia..|]. cbn [mbind option_bind fst snd].
  pose proof (Z.pow_pos_nonneg 10 u ltac:(lia) Hu) as Hpu.
  destruct (trim10 17 t u) as [t' u'] eqn:Etrim. apply trim10_value in Etrim as (Hu' & Ht' & Ev); [|done|nia]. rewrite Ht in Ev.
  pose proof (Z.pow_pos_nonneg 10 u' ltac:(lia) ltac:(lia)) as Hpu'.
  exists (digits_of 18 t'), (Z.to_nat u'). assert (0 < t' < 10 ^ Z.of_nat 18) as Ht18 by (change (Z.of_nat 18) with 18; nia).
  destruct (digits_of_bound 18 t' Ht18) as [Hb Hne]. rewrite Z2Nat.id by lia. split_and!; [done|done| |].
  - destruct (Z.le_gt_cases (u' + zlen (digits_of 18 t')) 16) as [|Hgt]; [done|].
    pose proof (Z.pow_le_mono_r 10 16 (u' + (zlen (digits_of 18 t') - 1)) ltac:(lia) ltac:(lia)) as Hp.
    rewrite Z.pow_add_r in Hp; [nia|lia|]. destruct (digits_of 18 t'); [done|cbn; lia].
  - unfold itoa. rewrite (proj2 (Z.eqb_neq z 0)) by lia. rewrite <- Ev. rewrite <- (Z2Nat.id u') at 1 by lia.
    assert (t' * 10 ^ Z.of_nat (Z.to_nat u') < 10 ^ Z.of_nat 20) as H20.
    { rewrite Z2Nat.id by lia. rewrite Ev. eapply Z.lt_trans; [apply Hz|]. by vm_compute. }
    rewrite digits_of_pow10 by done. rewrite (digits_of_fuel 20 18 t'); [reflexivity| |split; [lia|apply Ht18]].
    split; [lia|]. eapply Z.lt_trans; [apply Ht18|]. by vm_compute.
Qed.

Lemma int_value_jint z : Z.abs z < 10 ^ 20 → let lit := (if z <? 0 then [x2d] else []) ++ itoa (Z.abs z) in
  isIntegerLiteral lit = true ∧ int_value lit = z ∧ ParseFloat lit = Some (float_of_decimal (Dec (z <? 0) (Z.abs z) 0)).
Proof.
  intros Hz lit. destruct (itoa_int (Z.abs z)) as [Hi Hd]; [lia|].
  assert (itoa (Z.abs z) ≠ []) as Hne by (intros E; by rewrite E in Hi).
  assert (strip_sign lit = (z <? 0, itoa (Z.abs z))) as Hs.
  { unfold lit. destruct (z <? 0); [done|]. destruct Hd as [|c s Hc _]; [done|]. cbn. rewrite bool_decide_eq_false_2; [done|]. by intros ->. }
  split_and!.
  - unfold isIntegerLiteral. rewrite Hs. cbn [snd]. apply andb_true_iff. split; [by destruct (itoa _)|].
    apply forallb_forall. intros c Hc. rewrite Forall_forall in Hd. apply Hd. by apply list_elem_of_In.
  - unfold int_value. rewrite Hs. rewrite itoa_value by lia. destruct (Z.ltb_spec z 0); lia.
  - unfold ParseFloat, lit. rewrite (parse_decimal_digits (z <? 0)) by done. by rewrite itoa_value by lia.
Qed.

(** The canonical form of an integer below 2^53 is its decimal digits. *)
Lemma jint_canonical z : Z.abs z < 2 ^ 53 → appendJCS (jint z) = Ok ((if z <? 0 then [x2d] else []) ++ itoa (Z.abs z)).
Proof.
  intros Hz. cbn [appendJCS jint]. unfold jint. cbn [appendJCS]. destruct (int_value_jint z) as (Hint & Hval & Hpf); [lia|]. unfold checkedNumber.
  cbv zeta in Hint, Hval, Hpf. rewrite Hpf, Hint, Hval. cbn [andb].
  destruct (decide (z = 0)) as [->|Hz0]; [vm_compute; reflexivity|].
  assert (float_of_decimal (Dec (z <? 0) (Z.abs z) 0) = round_rat (z <? 0) (Z.abs z) 1) as ->.
  { unfold float_of_decimal. cbn [dmant dexp dneg]. rewrite (proj2 (Z.eqb_neq (Z.abs z) 0)) by lia. change (400 <? 0) with false.
    pose proof (Z.log2_nonneg (Z.abs z)). rewrite (proj2 (Z.ltb_ge _ (-400))) by lia. change (0 <=? 0) with true. cbv iota. by rewrite Z.mul_1_r. }
  destruct (round_exact (z <? 0) (Z.abs z)) as (p & e & Hr & He & Hpe); [lia|]. rewrite Hr. pose proof (round_sign _ _ _ _ _ Hr) as Hf.
  assert (float_is_int (S754_finite (z <? 0) p e) z = true) as ->.
  { cbn [float_is_int]. assert ((if z <? 0 then Z.neg p else Z.pos p) = z * 2 ^ (- e)) as ->.
    { destruct (Z.ltb_spec z 0); [change (Z.neg p) with (- Z.pos p)|]; rewrite Hpe; [rewrite Z.abs_neq by lia; lia|by rewrite Z.abs_eq by lia]. }
    destruct (Z.leb_spec 0 e); [|apply Z.eqb_refl]. replace e with 0 by lia. change (2 ^ (- 0)) with 1. change (2 ^ 0) with 1. apply Z.eqb_eq. lia. }
  cbn [negb is_finite mbind outcome_bind appendJCSNumber].
  destruct (shortest_digits_int (Z.abs z) p e) as (ds & j & -> & Hne & Hlen & ->); [lia|done|].
  assert (1 ≤ zlen ds) by (destruct ds; [done|cbn; lia]). cbv zeta.
  rewrite (proj2 (Z.leb_le (zlen ds) _)), (proj2 (Z.leb_le _ 21)) by lia. cbn [andb].
  by replace (Z.to_nat (Z.of_nat j + zlen ds - 1 + 1 - zlen ds)) with j by lia.
Qed.
