(* ===== verification/GoJson.v ===== *)
(** * encoding/json into Go types

    What [json.Unmarshal] does to a value of a Go type: structs with their field names,
    strings, integers, floats, byte slices, times, slices, pointers and interfaces.  A
    decoder takes the value that is there and the parsed text, and is [None] where
    the real one reports a type error.  The decoder of a [time.Time] sees the text of a
    string before it is unescaped, so there is a second parser that leaves it. *)
From Stdlib Require Import SpecFloat.
From S2P Require Import Prelude GoTime Canonical Binder Json.
#[local] Open Scope Z_scope.

Notation any := Canonical.json.

Module GoJson.

(** ** Structs

    A member sets the field with its name, else the one whose name it folds to: ASCII
    case, the long s and the Kelvin sign. *)

Fixpoint fold_name (s : bytes) : bytes :=
  match s with
  | [] => []
  | c :: s1 =>
      match c, s1 with
      | xc5, xbf :: s2 => x53 :: fold_name s2
      | xe2, x84 :: xaa :: s3 => x4b :: fold_name s3
      | _, _ => (if (97 <=? b2z c) && (b2z c <=? 122) then z2b (b2z c - 32) else c) :: fold_name s1
      end
  end.

Definition names (field : string) (k : bytes) : bool := bytes_eqb (fold_name k) (fold_name (str_bytes field)).

(** A decoded string, [old] for null; [None] is the type error. *)
Definition string_value (old : bytes) (v : any) : option bytes :=
  match v with
  | Canonical.JStr s => Some s
  | Canonical.JNull => Some old
  | _ => None
  end.

(** [strconv.ParseInt(lit, 10, 64)] of a number. *)
Definition parse_int64 (lit : bytes) : option Z :=
  if Canonical.isIntegerLiteral lit then
    let z := Canonical.int_value lit in
    if (- 2 ^ 63 <=? z) && (z <? 2 ^ 63) then Some z else None
  else None.

Definition int_field (old : Z) (v : any) : option Z :=
  match v with
  | Canonical.JNum lit => parse_int64 lit
  | Canonical.JNull => Some old
  | _ => None
  end.

(** The members of an object, one after the other; a type error fails the whole. *)
Fixpoint decode_members {A} (set : A → bytes → any → option A) (a : A) (m : list (bytes * any)) : option A :=
  match m with
  | [] => Some a
  | (k, v) :: m' => a' ← set a k v; decode_members set a' m'
  end.

(** [json.Marshal] of a [float64]. *)
Definition marshal_float (f : spec_float) : option bytes :=
  match f with
  | S754_zero neg => Some (if neg then [x2d; x30] else [x30])
  | _ => match Canonical.appendJCSNumber f with Ok b => Some b | _ => None end
  end.

(** ** Text with its strings as written *)

(** [Json.parse_value] without the unescaping. *)
Fixpoint raw_value (fuel : nat) (depth : Z) (s : bytes) : outcome unit (any * bytes) :=
  match fuel with
  | O => OutOfFuel
  | S f =>
      match Json.skip_ws s with
      | [] => Err tt
      | c :: s1 =>
          if bool_decide (c = x7b) then
            if Json.maxNestingDepth <? depth + 1 then Err tt
            else match Json.expect x7d s1 with
                 | Some s2 => Ok (Canonical.JObj [], s2)
                 | None => r ← raw_members f (depth + 1) s1; Ok (Canonical.JObj r.1, r.2)
                 end
          else if bool_decide (c = x5b) then
            if Json.maxNestingDepth <? depth + 1 then Err tt
            else match Json.expect x5d s1 with
                 | Some s2 => Ok (Canonical.JArr [], s2)
                 | None => r ← raw_elements f (depth + 1) s1; Ok (Canonical.JArr r.1, r.2)
                 end
          else if bool_decide (c = x22) then
            r ← Json.of_option (Json.scan_string s1); Ok (Canonical.JStr r.1, r.2)
          else Json.parse_value fuel depth s
      end
  end
with raw_members (fuel : nat) (depth : Z) (s : bytes) : outcome unit (list (bytes * any) * bytes) :=
  match fuel with
  | O => OutOfFuel
  | S f =>
      s1 ← Json.of_option (Json.expect x22 s);
      key ← Json.of_option (Json.scan_string s1);
      s2 ← Json.of_option (Json.expect x3a key.2);
      v ← raw_value f depth s2;
      match Json.expect x2c v.2 with
      | Some s3 => r ← raw_members f depth s3; Ok ((key.1, v.1) :: r.1, r.2)
      | None => s3 ← Json.of_option (Json.expect x7d v.2); Ok ([(key.1, v.1)], s3)
      end
  end
with raw_elements (fuel : nat) (depth : Z) (s : bytes) : outcome unit (list any * bytes) :=
  match fuel with
  | O => OutOfFuel
  | S f =>
      v ← raw_value f depth s;
      match Json.expect x2c v.2 with
      | Some s3 => r ← raw_elements f depth s3; Ok (v.1 :: r.1, r.2)
      | None => s3 ← Json.of_option (Json.expect x5d v.2); Ok ([v.1], s3)
      end
  end.

Definition raw_document (s : bytes) : outcome unit any :=
  r ← raw_value (Json.parse_fuel s) 0 s;
  match Json.skip_ws r.2 with
  | [] => Ok r.1
  | _ => Err tt
  end.

(** Unescaping every string. *)
Fixpoint unescape (v : any) : any :=
  match v with
  | Canonical.JStr s => Canonical.JStr (Json.unquote s)
  | Canonical.JArr l => Canonical.JArr (unescape <$> l)
  | Canonical.JObj m => Canonical.JObj ((λ kv, (Json.unquote kv.1, unescape kv.2)) <$> m)
  | _ => v
  end.

Definition unescape_member (kv : bytes * any) : bytes * any := (Json.unquote kv.1, unescape kv.2).

(** ** Decoders, on text with its strings as written *)

Definition str_value (old : string) (v : any) : option string :=
  String.string_of_list_byte <$> string_value (str_bytes old) (unescape v).

Definition float_value (old : spec_float) (v : any) : option spec_float :=
  match v with
  | Canonical.JNull => Some old
  | Canonical.JNum lit =>
      match Canonical.ParseFloat lit with
      | Some f => if Canonical.is_finite f then Some f else None
      | None => None
      end
  | _ => None
  end.

(** The elements are decoded over those the slice has; [None] is the nil slice. *)
Fixpoint elements {A} (dec : A → any → option A) (zero : A) (old : list A) (l : list any) : option (list A) :=
  match l with
  | [] => Some []
  | v :: l' => a ← dec (default zero (head old)) v; r ← elements dec zero (tail old) l'; Some (a :: r)
  end.

Definition slice_value {A} (dec : A → any → option A) (zero : A) (old : option (list A)) (v : any) : option (option (list A)) :=
  match v with
  | Canonical.JNull => Some None
  | Canonical.JArr l => Some <$> elements dec zero (default [] old) l
  | _ => None
  end.

Definition pointer_value {A} (dec : A → any → option A) (zero : A) (old : option A) (v : any) : option (option A) :=
  match v with
  | Canonical.JNull => Some None
  | _ => Some <$> dec (default zero old) v
  end.

(** [set a k v] is the field that [k] names. *)
Definition struct_value {A} (set : A → bytes → any → option A) (a : A) (v : any) : option A :=
  match v with
  | Canonical.JNull => Some a
  | Canonical.JObj m => decode_members (λ a k v, set a (Json.unquote k) v) a m
  | _ => None
  end.

(** [base64.StdEncoding]: padded to a multiple of four, line ends ignored. *)
Definition b64_value (c : byte) : option Z :=
  Binder.index_byte 0 c (str_bytes "ABCDEFGHIJKLMNOPQRSTUVWXYZabcdefghijklmnopqrstuvwxyz0123456789+/").

Definition strip_padding (s : bytes) : bytes :=
  match reverse s with
  | x3d :: x3d :: r => reverse r
  | x3d :: r => reverse r
  | _ => s
  end.

Definition decode_base64 (s : bytes) : option bytes :=
  let s := filter (λ c, c ≠ x0a ∧ c ≠ x0d) s in
  if negb (zlen s `mod` 4 =? 0) then None
  else ds ← mapM b64_value (strip_padding s); Binder.b64_groups ds.

Definition byte_value (old : byte) (v : any) : option byte :=
  z ← int_field (b2z old) v; if (0 <=? z) && (z <? 256) then Some (z2b z) else None.

Definition bytes_value (old : option bytes) (v : any) : option (option bytes) :=
  match v with
  | Canonical.JStr s => Some <$> decode_base64 (Json.unquote s)
  | _ => slice_value byte_value x00 old v
  end.

(** A [float64] in an interface is written back with its own digits. *)
Fixpoint renumber (v : any) : any :=
  match v with
  | Canonical.JNum lit =>
      match f ← Canonical.ParseFloat lit; marshal_float f with Some lit' => Canonical.JNum lit' | None => v end
  | Canonical.JArr l => Canonical.JArr (renumber <$> l)
  | Canonical.JObj m => Canonical.JObj ((λ kv, (kv.1, renumber kv.2)) <$> m)
  | _ => v
  end.

Definition any_value (v : any) : option any :=
  if Json.numbers_ok v then Some (renumber (Json.to_any (unescape v))) else None.

(** A [map[string]any]: null clears it, an object is added to it. *)
Definition map_value (old : list (bytes * any)) (v : any) : option (list (bytes * any)) :=
  match v with
  | Canonical.JNull => Some []
  | Canonical.JObj m => decode_members (λ acc k v, w ← any_value v; Some (Json.map_set (Json.unquote k) w acc)) old m
  | _ => None
  end.

(** ** Times *)

(** [n] digits at the front, in a range. *)
Definition take_num (n : nat) (lo hi : Z) (s : bytes) : option (Z * bytes) :=
  let d := take n s in
  if (length d =? n)%nat && forallb Canonical.is_digit d && (lo <=? Canonical.dec_value d) && (Canonical.dec_value d <=? hi)
  then Some (Canonical.dec_value d, drop n s) else None.

Definition take_char (c : byte) (s : bytes) : option bytes :=
  match s with d :: r => if bool_decide (d = c) then Some r else None | [] => None end.

(** An hour may have one digit: the strict checks are switched off. *)
Definition take_hour (s : bytes) : option (Z * bytes) :=
  match s with
  | _ :: d :: _ => if Canonical.is_digit d then take_num 2 0 23 s else take_num 1 0 23 s
  | _ => take_num 1 0 23 s
  end.

(** A fraction behind a period or a comma; nine digits count. *)
Definition take_frac (s : bytes) : Z * bytes :=
  match s with
  | c :: d :: _ =>
      if (bool_decide (c = x2e) || bool_decide (c = x2c)) && Canonical.is_digit d then
        let '(ds, r) := Canonical.span_digits (tail s) in
        let ds := take 9 ds in
        (Canonical.dec_value ds * 10 ^ (9 - zlen ds), r)
      else (0, s)
  | _ => (0, s)
  end.

Definition is_leap (y : Z) : bool := (y `mod` 4 =? 0) && (negb (y `mod` 100 =? 0) || (y `mod` 400 =? 0)).
Definition days_in (m y : Z) : Z :=
  if m =? 2 then if is_leap y then 29 else 28
  else if (m =? 4) || (m =? 6) || (m =? 9) || (m =? 11) then 30 else 31.

(** Days from 1 January of year 1 to a date. *)
Definition days_before (y m d : Z) : Z :=
  let y' := if m <=? 2 then y - 1 else y in
  let m' := if m <=? 2 then m + 9 else m - 3 in
  365 * y' + y' `div` 4 - y' `div` 100 + y' `div` 400 + (153 * m' + 2) `div` 5 + d - 1 - 306.

(** Seconds east of UTC. *)
Definition take_zone (s : bytes) : option Z :=
  if bool_decide (s = [x5a]) then Some 0
  else
    match s with
    | [] => None
    | sign :: s =>
        h ← take_num 2 0 24 s; r ← take_char x3a h.2; m ← take_num 2 0 60 r;
        let o := (h.1 * 60 + m.1) * 60 in
        match m.2 with
        | [] => if bool_decide (sign = x2b) then Some o else if bool_decide (sign = x2d) then Some (- o) else None
        | _ => None
        end
    end.

(** [time.Time.UnmarshalJSON] on the text between the quotes. *)
Definition parse_time (s : bytes) : option GoTime.Time :=
  y ← take_num 4 0 9999 s; s ← take_char x2d y.2;
  mo ← take_num 2 1 12 s; s ← take_char x2d mo.2;
  d ← take_num 2 1 (days_in mo.1 y.1) s; s ← take_char x54 d.2;
  h ← take_hour s; s ← take_char x3a h.2;
  mi ← take_num 2 0 59 s; s ← take_char x3a mi.2;
  se ← take_num 2 0 59 s;
  let '(ns, s) := take_frac se.2 in
  o ← take_zone s;
  Some (GoTime.MkTime (days_before y.1 mo.1 d.1 * 86400 + h.1 * 3600 + mi.1 * 60 + se.1 - o) ns o).

Definition time_value (old : GoTime.Time) (v : any) : option GoTime.Time :=
  match v with
  | Canonical.JNull => Some old
  | Canonical.JStr s => parse_time s
  | _ => None
  end.

Example parse_time_ex : parse_time (str_bytes "2024-02-29T07:04:56.12-05:30") =
  Some (GoTime.MkTime (1709210096 + GoTime.unix_epoch) 120000000 (-19800)).
Proof. reflexivity. Qed.

Example parse_time_zero : parse_time (str_bytes "0001-01-01T00:00:00Z") = Some GoTime.zero_time.
Proof. reflexivity. Qed.

Example parse_time_bad : parse_time (str_bytes "2023-02-29T00:00:00Z") = None.
Proof. reflexivity. Qed.
End GoJson.
