(* ===== verification/GoJsonProofs.v ===== *)
(** * Properties of decoding into Go types *)
From Stdlib Require Import SpecFloat.
From S2P Require Import Prelude GoTime Canonical CanonicalProofs Json JsonProofs GoFloat GoJson.
Import GoTime GoJson.
#[local] Open Scope Z_scope.

(** ** The raw parser is the parser *)

Definition unescaped {A} (f : A → A) (o : outcome unit (A * bytes)) : outcome unit (A * bytes) := r ← o; Ok (f r.1, r.2).

Lemma unescape_id v : (∀ s, v ≠ Canonical.JStr s) → (∀ l, v ≠ Canonical.JArr l) → (∀ m, v ≠ Canonical.JObj m) → unescape v = v.
Proof. destruct v; naive_solver. Qed.

(** What begins with neither a quote nor a bracket holds no string. *)
Lemma plain_value f d c s v r : Json.parse_value f d (c :: s) = Ok (v, r) → Json.is_space c = false →
  c ≠ x7b → c ≠ x5b → c ≠ x22 → unescape v = v.
Proof.
  intros Hp Hw H1 H2 H3. destruct f as [|f]; [done|]. cbn [Json.parse_value] in Hp.
  assert (Json.skip_ws (c :: s) = c :: s) as E by (cbn; by rewrite Hw). rewrite E in Hp.
  rewrite !bool_decide_eq_false_2 in Hp by done. repeat case_match; try done;
    apply bind_Ok in Hp as (x & _ & [= <- <-]); done.
Qed.

Lemma skip_ws_first s c t : Json.skip_ws s = c :: t → Json.is_space c = false.
Proof. induction s as [|d s IH]; cbn; [done|]. destruct (Json.is_space d) eqn:E; [done|]. by intros [= -> _]. Qed.

Lemma skip_ws_twice s : Json.skip_ws (Json.skip_ws s) = Json.skip_ws s.
Proof. induction s as [|d s IH]; cbn; [done|]. destruct (Json.is_space d) eqn:E; [done|]. cbn. by rewrite E. Qed.

Lemma raw_parser f : 
  (∀ d s, Json.parse_value f d s = unescaped unescape (raw_value f d s)) ∧
  (∀ d s, Json.parse_members f d s = unescaped (fmap unescape_member) (raw_members f d s)) ∧
  (∀ d s, Json.parse_elements f d s = unescaped (fmap unescape) (raw_elements f d s)).
Proof.
  induction f as [|f (IHv & IHm & IHe)]; [done|]. split_and!.
  - intros d s. destruct (Json.skip_ws s) as [|c s1] eqn:Es.
    { cbn [Json.parse_value raw_value]. by rewrite Es. }
    destruct (decide (c = x7b ∨ c = x5b ∨ c = x22)) as [Hc|Hc].
    + cbn [Json.parse_value raw_value]. rewrite Es. destruct Hc as [->|[->| ->]];
        repeat (first [rewrite bool_decide_eq_true_2 by done|rewrite bool_decide_eq_false_2 by done]).
      * destruct (_ <? _); [done|]. destruct (Json.expect x7d s1); [done|]. rewrite IHm. unfold unescaped.
        by destruct (raw_members f (d + 1) s1).
      * destruct (_ <? _); [done|]. destruct (Json.expect x5d s1); [done|]. rewrite IHe. unfold unescaped.
        by destruct (raw_elements f (d + 1) s1).
      * unfold unescaped. by destruct (Json.scan_string s1).
    + assert (raw_value (S f) d s = Json.parse_value (S f) d s) as ->.
      { cbn [raw_value]. rewrite Es. by rewrite !bool_decide_eq_false_2 by naive_solver. }
      assert (Json.parse_value (S f) d s = Json.parse_value (S f) d (c :: s1)) as ->.
      { cbn [Json.parse_value]. rewrite <- Es, skip_ws_twice. done. }
      destruct (Json.parse_value (S f) d (c :: s1)) as [[v r]| | |] eqn:Ep; unfold unescaped; cbn [mbind outcome_bind fst snd]; [|done..].
      by rewrite (plain_value _ _ _ _ _ _ Ep (skip_ws_first _ _ _ Es)) by naive_solver.
  - intros d s. cbn [Json.parse_members raw_members]. unfold unescaped.
    destruct (Json.of_option (Json.expect x22 s)); [|done..]. cbn [mbind outcome_bind].
    destruct (Json.of_option (Json.scan_string _)) as [key| | |]; [|done..]. cbn [mbind outcome_bind].
    destruct (Json.of_option (Json.expect x3a key.2)); [|done..]. cbn [mbind outcome_bind].
    rewrite IHv. unfold unescaped. destruct (raw_value f d _) as [v| | |]; [|done..]. cbn [mbind outcome_bind fst snd].
    destruct (Json.expect x2c v.2) as [s3|].
    + rewrite IHm. unfold unescaped. by destruct (raw_members f d s3).
    + by destruct (Json.of_option (Json.expect x7d v.2)).
  - intros d s. cbn [Json.parse_elements raw_elements]. unfold unescaped. rewrite IHv. unfold unescaped.
    destruct (raw_value f d s) as [v| | |]; [|done..]. cbn [mbind outcome_bind fst snd].
    destruct (Json.expect x2c v.2) as [s3|].
    + rewrite IHe. unfold unescaped. by destruct (raw_elements f d s3).
    + by destruct (Json.of_option (Json.expect x5d v.2)).
Qed.

(** Unescaping after parsing is parsing, errors included. *)
Lemma raw_document_parse s : Json.parse_document s = (v ← raw_document s; Ok (unescape v)).
Proof.
  unfold Json.parse_document, raw_document. rewrite (proj1 (raw_parser _)). unfold unescaped.
  destruct (raw_value _ _ _) as [r| | |]; [|done..]. cbn [mbind outcome_bind fst snd]. by destruct (Json.skip_ws r.2).
Qed.

(** The raw parser returns on every input. *)
Lemma raw_document_total s : (∃ v, raw_document s = Ok v) ∨ raw_document s = Err tt.
Proof.
  destruct (parse_document_cases s) as [[v Hv]|Hv]; rewrite raw_document_parse in Hv; destruct (raw_document s) as [w|[]| |]; naive_solver.
Qed.

(** ** Times *)

Lemma pad_length w n : length (pad w n) = w.
Proof. revert n. induction w as [|w IH]; intros n; [done|]. cbn [pad]. rewrite length_app, IH. cbn. lia. Qed.

Lemma pow10_S w : 10 ^ Z.of_nat (S w) = 10 * 10 ^ Z.of_nat w.
Proof. rewrite Nat2Z.inj_succ, Z.pow_succ_r by lia. done. Qed.

Lemma pad_value w n : 0 ≤ n < 10 ^ Z.of_nat w → Canonical.dec_value (pad w n) = n.
Proof.
  revert n. induction w as [|w IH]; intros n Hn; [change (10 ^ Z.of_nat 0) with 1 in Hn; cbn; lia|].
  rewrite pow10_S in Hn. cbn [pad]. unfold Canonical.dec_value. rewrite foldl_app. cbn [foldl].
  fold (Canonical.dec_value (pad w (n `div` 10))). rewrite IH by div_lia.
  unfold Canonical.digit. rewrite b2z_z2b_small by div_lia. div_lia.
Qed.

Lemma pad_digits w n : Forall (λ c, Canonical.is_digit c = true) (pad w n).
Proof.
  revert n. induction w as [|w IH]; intros n; [constructor|]. cbn [pad]. apply Forall_app_2; [apply IH|].
  constructor; [|constructor]. unfold Canonical.is_digit, Canonical.in_range. rewrite b2z_z2b_small by div_lia.
  rewrite andb_true_iff, !Z.leb_le. div_lia.
Qed.

Lemma take_num_pad n lo hi v s : 0 ≤ v < 10 ^ Z.of_nat n → lo ≤ v ≤ hi → take_num n lo hi (pad n v ++ s) = Some (v, s).
Proof.
  intros Hv Hr. unfold take_num. rewrite take_app_length', drop_app_length' by (by rewrite pad_length).
  rewrite pad_length, pad_value, Nat.eqb_refl by done. rewrite (proj2 (forallb_forall _ _)).
  - rewrite (proj2 (Z.leb_le _ _)), (proj2 (Z.leb_le _ _)) by lia. done.
  - intros c Hc%list_elem_of_In. pose proof (pad_digits n v) as HF. rewrite list.Forall_forall in HF. by apply HF.
Qed.

Lemma take_char_same c s : take_char c (c :: s) = Some s.
Proof. unfold take_char. by rewrite bool_decide_eq_true_2. Qed.

Lemma trim_zeros_spec f w n : (w ≤ f)%nat → 0 ≤ n < 10 ^ Z.of_nat w →
  (n = 0 ∧ trim_zeros f w n = []) ∨
  ∃ w' n', trim_zeros f w n = x2e :: pad w' n' ∧ (0 < w' ≤ w)%nat ∧ 0 ≤ n' < 10 ^ Z.of_nat w' ∧ n = n' * 10 ^ (Z.of_nat w - Z.of_nat w').
Proof.
  revert w n. induction f as [|f IH]; intros w n Hf Hn.
  { assert (w = 0%nat) as -> by lia. change (10 ^ Z.of_nat 0) with 1 in Hn. left. split; [lia|done]. }
  destruct w as [|w]; [change (10 ^ Z.of_nat 0) with 1 in Hn; left; split; [lia|done]|].
  cbn [trim_zeros]. destruct (Z.eqb_spec (n `mod` 10) 0) as [E|E].
  - rewrite pow10_S in Hn. destruct (IH w (n `div` 10)) as [[E' ->]|(w' & n' & -> & Hw & Hn' & E')]; [lia|div_lia| |].
    + left. split; [div_lia|done].
    + right. exists w', n'. split; [done|]. split; [lia|]. split; [done|].
      replace (Z.of_nat (S w) - Z.of_nat w') with (Z.succ (Z.of_nat w - Z.of_nat w')) by lia. rewrite Z.pow_succ_r by lia. div_lia.
  - right. exists (S w), n. split; [done|]. split; [lia|]. split; [done|]. rewrite Z.sub_diag. lia.
Qed.

(** What can follow a fraction. *)
Definition zone_head (s : bytes) : Prop := ∃ c r, s = c :: r ∧ (c = x5a ∨ c = x2b ∨ c = x2d).

Lemma span_digits_pad w n s : zone_head s → Canonical.span_digits (pad w n ++ s) = (pad w n, s).
Proof.
  intros (c & r & -> & Hc). pose proof (pad_digits w n) as HF. induction HF as [|d l Hd _ IH]; cbn [app Canonical.span_digits].
  - assert (Canonical.is_digit c = false) as -> by by destruct Hc as [->|[->| ->]]. done.
  - by rewrite Hd, IH.
Qed.

Lemma take_frac_trim ns s : 0 ≤ ns < 10 ^ 9 → zone_head s → take_frac (trim_zeros 10 9 ns ++ s) = (ns, s).
Proof.
  intros Hns Hz. destruct (trim_zeros_spec 10 9 ns) as [[-> ->]|(w & n & -> & Hw & Hn & E)]; [lia|done| |].
  - destruct Hz as (c & r & -> & Hc). cbn [app]. unfold take_frac. destruct r; [done|].
    assert ((bool_decide (c = x2e) || bool_decide (c = x2c)) = false) as -> by by destruct Hc as [->|[->| ->]]. done.
  - destruct w as [|w]; [lia|]. pose proof (pad_length (S w) n) as Hl. pose proof (pad_digits (S w) n) as Hd.
    pose proof (span_digits_pad (S w) n s Hz) as Hs. destruct (pad (S w) n) as [|d l] eqn:Ep; [done|].
    cbn [app] in Hs |- *. unfold take_frac. cbn [tail]. inversion Hd; subst. rewrite H1.
    change ((bool_decide (x2e = x2e) || bool_decide (x2e = x2c)) && true) with true. cbv iota. rewrite Hs.
    rewrite take_ge by lia. rewrite <- Ep, pad_value, pad_length by done. done.
Qed.

(** *** The calendar *)

(** The date of a day is in range and leads back to it. *)
Definition good_date (n : Z) (date : Z * Z * Z) : bool :=
  let '(y, m, d) := date in
  (days_before y m d =? n) && (1 <=? m) && (m <=? 12) && (1 <=? d) && (d <=? days_in m y).

(** Days before a year of the cycle, years beginning in March, and the year of a day. *)
Definition year_start (y : Z) : Z := 365 * y + y `div` 4 - y `div` 100 + y `div` 400.
Definition year_of (doe : Z) : Z := (doe - doe `div` 1460 + doe `div` 36524 - doe `div` 146096) `div` 365.

(** The first and the last day of each of the 400 years are in that year, and it is long
    when the February it ends with is. *)
Fixpoint all_years (f : nat) (y : Z) : bool :=
  match f with
  | O => true
  | S f =>
      (year_of (year_start y) =? y) && (year_of (year_start (y + 1) - 1) =? y) &&
      (year_start (y + 1) - year_start y =? 365 + (if is_leap (y + 1) then 1 else 0)) && all_years f (y + 1)
  end.

Lemma all_years_spec f n y : all_years f n = true → n ≤ y < n + Z.of_nat f →
  year_of (year_start y) = y ∧ year_of (year_start (y + 1) - 1) = y ∧
  year_start (y + 1) - year_start y = 365 + (if is_leap (y + 1) then 1 else 0).
Proof.
  revert n. induction f as [|f IH]; intros n; [lia|]. cbn [all_years]. rewrite !andb_true_iff, !Z.eqb_eq. intros (((H1 & H2) & H3) & Hf) Hi.
  destruct (decide (y = n)) as [->|]; [done|]. apply (IH (n + 1)); [done|lia].
Qed.

Lemma years_good y : 0 ≤ y < 400 → year_of (year_start y) = y ∧ year_of (year_start (y + 1) - 1) = y ∧
  year_start (y + 1) - year_start y = 365 + (if is_leap (y + 1) then 1 else 0).
Proof. intros Hy. apply (all_years_spec 400 0); [vm_compute; reflexivity|lia]. Qed.

Lemma year_of_mono a b : 0 ≤ a ≤ b → year_of a ≤ year_of b.
Proof.
  intros Hab. replace b with (a + Z.of_nat (Z.to_nat (b - a))) by lia. generalize (Z.to_nat (b - a)). intros k.
  induction k as [|k IH]; [by rewrite Z.add_0_r|]. etrans; [exact IH|]. rewrite Nat2Z.inj_succ.
  set (c := a + Z.of_nat k). replace (a + Z.succ (Z.of_nat k)) with (c + 1) by lia. unfold year_of. apply Z.div_le_mono; [lia|].
  assert (0 ≤ c) by lia. div_lia.
Qed.

Lemma year_found n doe : 0 ≤ n ≤ 400 → 0 ≤ doe < year_start n → ∃ y, 0 ≤ y < n ∧ year_start y ≤ doe < year_start (y + 1).
Proof.
  intros Hn. replace n with (Z.of_nat (Z.to_nat n)) in * by lia. clear Hn. induction (Z.to_nat n) as [|k IH].
  { change (year_start (Z.of_nat 0)) with 0. lia. }
  intros Hd. destruct (decide (doe < year_start (Z.of_nat k))) as [Hl|Hl].
  - destruct IH as (y & Hy & Hr); [lia|]. exists y. split; [lia|done].
  - exists (Z.of_nat k). replace (Z.of_nat k + 1) with (Z.of_nat (S k)) by lia. lia.
Qed.

(** The year that is computed is the year the day is in. *)
Lemma year_of_spec doe : 0 ≤ doe < 146097 → 0 ≤ year_of doe < 400 ∧ year_start (year_of doe) ≤ doe < year_start (year_of doe + 1).
Proof.
  intros Hd. destruct (year_found 400 doe) as (y & Hy & Hr); [lia|done|]. destruct (years_good y Hy) as (H1 & H2 & _).
  assert (0 ≤ year_start y) by (unfold year_start; div_lia).
  assert (year_of doe = y) as ->; [|done].
  pose proof (year_of_mono (year_start y) doe). pose proof (year_of_mono doe (year_start (y + 1) - 1)). lia.
Qed.

(** The months of one year. *)
Definition month_of (doy : Z) : Z := (5 * doy + 2) `div` 153.
Definition good_month (doy : Z) : bool :=
  let mp := month_of doy in
  let d := doy - (153 * mp + 2) `div` 5 + 1 in
  let m := if mp <? 10 then mp + 3 else mp - 9 in
  (1 <=? m) && (m <=? 12) && (1 <=? d) && (d <=? (if m =? 2 then if doy =? 365 then 29 else 28 else days_in m 0)) &&
  ((if m <=? 2 then m + 9 else m - 3) =? mp).

Lemma months_good doy : 0 ≤ doy < 366 → good_month doy = true.
Proof.
  intros Hd. assert (forallb good_month (seqZ 0 366) = true) as HG by (vm_compute; reflexivity).
  rewrite forallb_forall in HG. apply HG, list_elem_of_In, elem_of_seqZ. lia.
Qed.

Lemma civil_period n k : civil (n + 146097 * k) = let '(y, m, d) := civil n in (y + 400 * k, m, d).
Proof.
  unfold civil. replace (n + 146097 * k + 306) with (n + 306 + k * 146097) by lia. rewrite Z.div_add, Z.mod_add by lia.
  set (z := n + 306). f_equal. f_equal. lia.
Qed.

Lemma days_before_period y m d k : days_before (y + 400 * k) m d = days_before y m d + 146097 * k.
Proof.
  unfold days_before. destruct (m <=? 2);
    [replace (y + 400 * k - 1) with (y - 1 + 400 * k) by lia; set (y' := y - 1)|set (y' := y)]; div_lia.
Qed.

Lemma days_in_period y m k : days_in m (y + 400 * k) = days_in m y.
Proof.
  unfold days_in, is_leap. replace (y + 400 * k) with (y + (100 * k) * 4) at 1 by lia. rewrite Z.mod_add by lia.
  replace (y + 400 * k) with (y + (4 * k) * 100) at 1 by lia. rewrite Z.mod_add by lia.
  replace (y + 400 * k) with (y + k * 400) by lia. by rewrite Z.mod_add by lia.
Qed.

Lemma cycle_good i : 0 ≤ i < 146097 → good_date (i - 306) (civil (i - 306)) = true.
Proof.
  intros Hi. destruct (year_of_spec i Hi) as [Hy Hr]. destruct (years_good _ Hy) as (_ & _ & Hl).
  unfold good_date, civil. replace (i - 306 + 306) with i by lia. rewrite (Z.div_small i 146097), (Z.mod_small i 146097) by lia. fold (year_of i).
  set (y := year_of i) in *. set (doy := i - (365 * y + y `div` 4 - y `div` 100)).
  assert (year_start y = 365 * y + y `div` 4 - y `div` 100) as Es.
  { unfold year_start. rewrite (Z.div_small y 400) by lia. lia. }
  assert (0 ≤ doy ≤ 365 ∧ (doy = 365 → is_leap (y + 1) = true)) as [Hdoy Hleap].
  { unfold doy. rewrite <- Es. destruct (is_leap (y + 1)); lia. }
  pose proof (months_good doy ltac:(lia)) as HM. unfold good_month in HM. fold (month_of doy). set (mp := month_of doy) in *.
  set (m := if mp <? 10 then mp + 3 else mp - 9) in *. set (d := doy - (153 * mp + 2) `div` 5 + 1) in *.
  rewrite !andb_true_iff, !Z.leb_le, Z.eqb_eq in HM. destruct HM as ((((Hm1 & Hm2) & Hd1) & Hd2) & Hmp).
  rewrite !andb_true_iff, !Z.leb_le, Z.eqb_eq. split_and!; try done.
  - unfold days_before. rewrite Hmp. assert ((if m <=? 2 then y + 0 * 400 + (if m <=? 2 then 1 else 0) - 1 else y + 0 * 400 + (if m <=? 2 then 1 else 0)) = y) as ->
      by (destruct (m <=? 2); lia).
    fold (year_start y). rewrite Es. unfold d, doy. lia.
  - etrans; [exact Hd2|]. unfold days_in. destruct (Z.eqb_spec m 2) as [E|E]; [|done]. rewrite E. change (2 <=? 2) with true. cbv iota.
    destruct (Z.eqb_spec doy 365) as [E'|E']; [|by destruct (is_leap (y + 0 * 400 + 1))].
    rewrite Z.mul_0_l, Z.add_0_r, Hleap by done. done.
Qed.

Lemma good_day_period n k : good_date n (civil n) = true → good_date (n + 146097 * k) (civil (n + 146097 * k)) = true.
Proof.
  rewrite civil_period. destruct (civil n) as [[y m] d]. unfold good_date. rewrite days_before_period, days_in_period.
  rewrite !andb_true_iff, !Z.eqb_eq. intros ((((-> & ?) & ?) & ?) & ?). done.
Qed.

Lemma civil_days n : good_date n (civil n) = true.
Proof.
  pose proof (Z.div_mod (n + 306) 146097 ltac:(lia)) as E. pose proof (Z.mod_pos_bound (n + 306) 146097 ltac:(lia)) as Hi.
  replace n with ((n + 306) `mod` 146097 - 306 + 146097 * ((n + 306) `div` 146097)) by lia.
  by apply good_day_period, cycle_good.
Qed.

(** What a zone offset is written as, is read as. *)
Lemma take_zone_form o : o `mod` 60 = 0 → Z.abs o < 86400 →
  take_zone (if o =? 0 then [x5a]
    else (if Z.quot o 60 <? 0 then [x2d] else [x2b]) ++ pad 2 (Z.abs (Z.quot o 60) `div` 60) ++ [x3a] ++ pad 2 (Z.abs (Z.quot o 60) `mod` 60)) = Some o.
Proof.
  intros Hm Ha. destruct (Z.eqb_spec o 0) as [->|H0]; [done|].
  assert (∃ q, o = 60 * q ∧ Z.quot o 60 = q) as (q & Eq & Hq).
  { exists (o `div` 60). assert (o = 60 * (o `div` 60)) as E by div_lia. split; [done|]. rewrite E at 1. rewrite Z.mul_comm. apply Z.quot_mul. lia. }
  rewrite Hq. set (a := Z.abs q).
  assert (∀ sg, take_zone (sg :: pad 2 (a `div` 60) ++ [x3a] ++ pad 2 (a `mod` 60)) =
    if bool_decide (sg = x2b) then Some (a * 60) else if bool_decide (sg = x2d) then Some (- (a * 60)) else None) as Hz.
  { intros sg. unfold take_zone.
    rewrite bool_decide_eq_false_2 by (intros E; apply (f_equal length) in E; cbn [length] in E; rewrite !length_app, !pad_length in E; cbn in E; lia).
    change ([x3a] ++ pad 2 (a `mod` 60)) with (x3a :: pad 2 (a `mod` 60)).
    rewrite take_num_pad by (change (10 ^ Z.of_nat 2) with 100; div_lia). cbn [mbind option_bind fst snd].
    rewrite take_char_same. cbn [mbind option_bind]. rewrite <- (app_nil_r (pad 2 (a `mod` 60))).
    rewrite take_num_pad by (change (10 ^ Z.of_nat 2) with 100; div_lia). cbn [mbind option_bind fst snd].
    replace ((a `div` 60 * 60 + a `mod` 60) * 60) with (a * 60) by div_lia. done. }
  destruct (Z.ltb_spec q 0); cbn [app]; rewrite Hz.
  - rewrite bool_decide_eq_false_2, bool_decide_eq_true_2 by done. f_equal. lia.
  - rewrite bool_decide_eq_true_2 by done. f_equal. lia.
Qed.

Lemma take_hour_pad v r : 0 ≤ v ≤ 23 → take_hour (pad 2 v ++ r) = Some (v, r).
Proof.
  intros Hv. pose proof (take_num_pad 2 0 23 v r) as HN. pose proof (pad_digits 2 v) as HD. cbn [pad app] in *.
  unfold take_hour. inversion HD as [|? ? ? H2]; subst. inversion H2 as [|? ? H3]; subst. rewrite H3.
  apply HN; [change (10 ^ Z.of_nat 2) with 100|]; lia.
Qed.

Lemma two_digits n : n ≤ 60 → n < 10 ^ Z.of_nat 2.
Proof. change (10 ^ Z.of_nat 2) with 100. lia. Qed.

Lemma zone_form_head o : zone_head (if o =? 0 then [x5a] else (if Z.quot o 60 <? 0 then [x2d] else [x2b]) ++
  pad 2 (Z.abs (Z.quot o 60) `div` 60) ++ [x3a] ++ pad 2 (Z.abs (Z.quot o 60) `mod` 60)).
Proof.
  destruct (o =? 0); [by exists x5a, []; auto|]. destruct (Z.quot o 60 <? 0); eexists _, _; (split; [reflexivity|auto]).
Qed.

(** The fields of a text, one after the other. *)
Lemma parse_time_fields y m d h mi se frac ns zone o :
  0 ≤ y ≤ 9999 → 1 ≤ m ≤ 12 → 1 ≤ d ≤ days_in m y → 0 ≤ h ≤ 23 → 0 ≤ mi ≤ 59 → 0 ≤ se ≤ 59 →
  take_frac (frac ++ zone) = (ns, zone) → take_zone zone = Some o →
  parse_time (pad 4 y ++ [x2d] ++ pad 2 m ++ [x2d] ++ pad 2 d ++ [x54] ++ pad 2 h ++ [x3a] ++ pad 2 mi ++ [x3a] ++ pad 2 se ++ frac ++ zone) =
  Some (MkTime (days_before y m d * 86400 + h * 3600 + mi * 60 + se - o) ns o).
Proof.
  intros Hy Hm Hd Hh Hmi Hse Hf Hz. assert (days_in m y ≤ 31) as Hdi by (unfold days_in; repeat case_match; lia).
  cbn [app]. unfold parse_time.
  rewrite take_num_pad by (change (10 ^ Z.of_nat 4) with 10000; lia). cbn [mbind option_bind fst snd].
  rewrite take_char_same. cbn [mbind option_bind].
  rewrite take_num_pad by (try split; try apply two_digits; lia). cbn [mbind option_bind fst snd].
  rewrite take_char_same. cbn [mbind option_bind].
  rewrite take_num_pad by (try split; try apply two_digits; lia). cbn [mbind option_bind fst snd].
  rewrite take_char_same. cbn [mbind option_bind].
  rewrite take_hour_pad by done. cbn [mbind option_bind fst snd].
  rewrite take_char_same. cbn [mbind option_bind].
  rewrite take_num_pad by (try split; try apply two_digits; lia). cbn [mbind option_bind fst snd].
  rewrite take_char_same. cbn [mbind option_bind].
  rewrite take_num_pad by (try split; try apply two_digits; lia). cbn [mbind option_bind fst snd].
  rewrite Hf, Hz. done.
Qed.

Lemma clock_value s : 0 ≤ s < 86400 →
  0 ≤ s `div` 3600 ≤ 23 ∧ 0 ≤ (s `div` 60) `mod` 60 ≤ 59 ∧ 0 ≤ s `mod` 60 ≤ 59 ∧
  s `div` 3600 * 3600 + (s `div` 60) `mod` 60 * 60 + s `mod` 60 = s.
Proof. intros Hs. split_and!; div_lia. Qed.

Lemma offset_bound o : o `mod` 60 = 0 → Z.abs (Z.quot o 60) `div` 60 < 24 → Z.abs o < 86400.
Proof.
  intros Ho Hb. assert (o = 60 * (o `div` 60)) as E by div_lia.
  assert (Z.quot o 60 = o `div` 60) as Eq by (rewrite E at 1; rewrite Z.mul_comm; apply Z.quot_mul; lia).
  rewrite Eq in Hb. div_lia.
Qed.

Lemma civil_ranges n y m d : civil n = (y, m, d) → days_before y m d = n ∧ 1 ≤ m ≤ 12 ∧ 1 ≤ d ≤ days_in m y.
Proof. intros E. pose proof (civil_days n) as Hg. rewrite E in Hg. cbv beta iota delta [good_date] in Hg.
  rewrite !andb_true_iff, !Z.leb_le, Z.eqb_eq in Hg. tauto. Qed.

(** A time with whole minutes of offset survives its JSON form. *)
Lemma parse_time_rfc3339 t b : 0 ≤ nsec t < 10 ^ 9 → off t `mod` 60 = 0 → rfc3339 t = Some b → parse_time b = Some t.
Proof.
  intros Hns Ho. unfold rfc3339. destruct (civil ((sec t + off t) `div` 86400)) as [[y m] d] eqn:Ec.
  apply civil_ranges in Ec as (Ed & Hm & Hd).
  assert (0 ≤ (sec t + off t) `mod` 86400 < 86400) as Hs by (apply Z.mod_pos_bound; lia).
  pose proof (Z.div_mod (sec t + off t) 86400 ltac:(lia)) as Edm. revert Hs Edm. rewrite <- Ed.
  generalize ((sec t + off t) `mod` 86400). intros s Hs Edm. cbv zeta.
  destruct ((y <? 0) || (9999 <? y) || (24 <=? Z.abs (Z.quot (off t) 60) `div` 60)) eqn:Hb; [done|].
  rewrite !orb_false_iff, !Z.ltb_ge, Z.leb_gt in Hb. destruct Hb as [Hy Hb].
  pose proof (take_zone_form (off t) Ho (offset_bound _ Ho Hb)) as Hz. pose proof (zone_form_head (off t)) as Hzh. revert Hz Hzh.
  generalize (if off t =? 0 then [x5a] else (if Z.quot (off t) 60 <? 0 then [x2d] else [x2b]) ++
    pad 2 (Z.abs (Z.quot (off t) 60) `div` 60) ++ [x3a] ++ pad 2 (Z.abs (Z.quot (off t) 60) `mod` 60)).
  intros zone Hz Hzh E. apply (inj Some) in E. subst b. destruct (clock_value s Hs) as (Hh & Hmi & Hse & Es).
  rewrite (parse_time_fields y m d _ _ _ _ (nsec t) zone (off t)); try done; [|by apply take_frac_trim].
  f_equal. destruct t as [st ns o]. cbn [sec nsec off] in *. f_equal. lia.
Qed.

(** ** Hexadecimal text *)

Lemma hex_ascii b : CanonicalProofs.valid_text (str_bytes (hex_encode b)).
Proof.
  unfold hex_encode. rewrite str_bytes_of_list. apply valid_ascii. unfold hex_bytes.
  induction b as [|x b IH]; [constructor|]. cbn. pose proof (b2z_range x).
  assert (∀ n, 0 ≤ n < 16 → b2z (hex_digit n) < 0x80) as Hd.
  { intros n Hn. unfold hex_digit. destruct (n <? 10) eqn:E; rewrite b2z_z2b_small by lia; lia. }
  constructor; [apply Hd; div_lia|]. constructor; [apply Hd; div_lia|exact IH].
Qed.

(** ** Integers *)

(** A field of type int64 takes an integer literal in range as it is. *)
Lemma int_field_jint old z : is_int z → int_field old (Canonical.jint z) = Some z.
Proof.
  unfold is_int. intros Hz. unfold Canonical.jint. cbn [int_field]. unfold parse_int64. destruct (int_value_jint z) as (-> & -> & _); [lia|].
  rewrite (proj2 (Z.leb_le _ _)), (proj2 (Z.ltb_lt _ _)) by lia. done.
Qed.
