(* ===== verification/Wire.v ===== *)
(** * Canonical documents read back

    What canonical.JSONCanonicalize writes is JSON text of the same document, and the
    decoders that take such text: [commitment.Unmarshal] and the [UnmarshalJSON] methods
    of src/commitment, and [verification.UnmarshalProvenance]. *)
From Stdlib Require Import SpecFloat.
From stdpp Require Import sorting.
From S2P Require CommitmentProofs.
From S2P Require Import Prelude Sha256 Merkle Commitment Canonical CanonicalProofs CanonicalInjective Authority CommitmentObject Verification Json JsonProofs GoJson GoJsonProofs GoFloat.
Import GoJson.
#[local] Open Scope Z_scope.

Module Wire.
Import Canonical Commitment.

Inductive error : Type :=
| ErrJSON
| ErrCommitment (e : Commitment.error Canonical.error).

Definition strings (old : list string) (v : any) : option (list string) := default [] <$> slice_value str_value ""%string (Some old) v.

Definition bool_value (old : bool) (v : any) : option bool :=
  match v with JNull => Some old | JBool b => Some b | _ => None end.

Definition set_commitmentJSON (d : commitmentJSON) (k : bytes) (v : any) : option commitmentJSON :=
  let '(MkCommitmentJSON ro si le al) := d in
  if names "root" k then s ← str_value ro v; Some (MkCommitmentJSON s si le al)
  else if names "size" k then z ← int_field si v; Some (MkCommitmentJSON ro z le al)
  else if names "leafHashes" k then l ← strings le v; Some (MkCommitmentJSON ro si l al)
  else if names "algorithm" k then s ← str_value al v; Some (MkCommitmentJSON ro si le s)
  else Some d.

(** [json.Unmarshal(b, c)], which hands the whole document to [UnmarshalJSON]. *)
Definition Unmarshal (b : bytes) : outcome error Commitment :=
  match raw_document b with
  | Ok v =>
      match struct_value set_commitmentJSON (MkCommitmentJSON "" 0 [] "") v with
      | Some dto => wrap_err ErrCommitment (Commitment_of_dto dto)
      | None => Err ErrJSON
      end
  | _ => Err ErrJSON
  end.

Definition set_proofStepJSON (d : proofStepJSON) (k : bytes) (v : any) : option proofStepJSON :=
  if names "hash" k then s ← str_value (json_hash d) v; Some (MkProofStepJSON s (json_isRight d))
  else if names "isRight" k then b ← bool_value (json_isRight d) v; Some (MkProofStepJSON (json_hash d) b)
  else Some d.

Definition set_proofJSON (d : proofJSON) (k : bytes) (v : any) : option proofJSON :=
  let '(MkProofJSON ix ts st) := d in
  if names "index" k then z ← int_field ix v; Some (MkProofJSON z ts st)
  else if names "treeSize" k then z ← int_field ts v; Some (MkProofJSON ix z st)
  else if names "steps" k then
    l ← slice_value (struct_value set_proofStepJSON) (MkProofStepJSON "" false) (Some st) v; Some (MkProofJSON ix ts (default [] l))
  else Some d.

Definition Proof_UnmarshalJSON (b : bytes) : outcome error Proof_ :=
  match raw_document b with
  | Ok v =>
      match struct_value set_proofJSON (MkProofJSON 0 0 []) v with
      | Some dto => wrap_err ErrCommitment (Proof_of_dto dto)
      | None => Err ErrJSON
      end
  | _ => Err ErrJSON
  end.

(** A link as the decoder fills it: the kind is any int. *)
Record Link : Type := MkLink { Kind : Z; Ref : string; Subject : string; KeyID : string; Parent : string }.

Definition set_Link (l : Link) (k : bytes) (v : any) : option Link :=
  let '(MkLink ki re su ke pa) := l in
  if names "kind" k then z ← int_field ki v; Some (MkLink z re su ke pa)
  else if names "ref" k then s ← str_value re v; Some (MkLink ki s su ke pa)
  else if names "subject" k then s ← str_value su v; Some (MkLink ki re s ke pa)
  else if names "keyId" k then s ← str_value ke v; Some (MkLink ki re su s pa)
  else if names "parent" k then s ← str_value pa v; Some (MkLink ki re su ke s)
  else Some l.

(** nil and empty are equivalent. *)
Definition set_Links (p : list Link) (k : bytes) (v : any) : option (list Link) :=
  if names "links" k then default [] <$> slice_value (struct_value set_Link) (MkLink 0 "" "" "" "") (Some p) v else Some p.

Definition UnmarshalProvenance (b : bytes) : outcome error (list Link) :=
  match raw_document b with
  | Ok v => match struct_value set_Links [] v with Some p => Ok p | None => Err ErrJSON end
  | _ => Err ErrJSON
  end.

(** How a link of the engine is written. *)
Definition wire (l : Verification.Link) : Link :=
  MkLink (Verification.kind_number (Verification.Kind l)) (Verification.Ref l) (Verification.LSubject l) (Verification.LKeyID l) (Verification.LParent l).
End Wire.

Import Canonical Wire.

(** ** Compact text *)

(** The text of a tree whose strings are as written. *)
Fixpoint raw_text (v : any) : bytes :=
  match v with
  | JNull => str_bytes "null"
  | JBool true => str_bytes "true"
  | JBool false => str_bytes "false"
  | JNum lit => lit
  | JStr s => x22 :: s ++ [x22]
  | JArr l => x5b :: commas (raw_text <$> l) ++ [x5d]
  | JObj m => x7b :: commas ((λ kv, x22 :: kv.1 ++ x22 :: x3a :: raw_text kv.2) <$> m) ++ [x7d]
  end.

(** Its strings and numbers are what the scanner takes, and its nesting is at most [n]. *)
Fixpoint raw_ok (n : Z) (v : any) : Prop :=
  match v with
  | JNum lit => number_text lit
  | JStr s => passes s
  | JArr l => 1 ≤ n ∧ foldr (λ v P, raw_ok (n - 1) v ∧ P) True l
  | JObj m => 1 ≤ n ∧ foldr (λ kv P, passes kv.1 ∧ raw_ok (n - 1) kv.2 ∧ P) True m
  | _ => True
  end.

Definition raw_member (kv : bytes * any) : bytes := x22 :: kv.1 ++ x22 :: x3a :: raw_text kv.2.

Lemma raw_text_head n v : raw_ok n v → ∃ c s, raw_text v = c :: s ∧ Json.is_space c = false ∧ c ≠ x5d.
Proof.
  destruct v as [|[]|lit|s|l|m]; cbn [raw_ok raw_text]; intros Hf; try (by do 2 eexists; split; [reflexivity|by vm_compute]).
  apply number_text_head in Hf as (c & s & -> & Hc). exists c, s. split; [done|]. apply number_head in Hc as (? & ? & _). done.
Qed.

Lemma scan_passes s t : passes s → Json.scan_string (s ++ x22 :: t) = Some (s, t).
Proof. intros Hs. rewrite Hs. cbn [Json.scan_string]. rewrite bool_decide_eq_true_2 by done. cbn. by rewrite app_nil_r. Qed.

#[local] Ltac text_side :=
  match goal with
  | |- (_ < _)%nat => repeat (rewrite length_app in * || cbn [length] in * ); lia
  | |- ends _ => cbn [ends]; auto
  | |- _ => first [done|lia]
  end.

Definition reads_raw (v : any) : Prop := ∀ n f d t, raw_ok n v → d + n ≤ Json.maxNestingDepth → ends t →
  (2 * length (raw_text v ++ t) < f)%nat → raw_value f d (raw_text v ++ t) = Ok (v, t).

Lemma raw_elements_text l : l ≠ [] → Forall reads_raw l → ∀ n f d t, foldr (λ v P, raw_ok n v ∧ P) True l →
  d + n ≤ Json.maxNestingDepth → (2 * length (commas (raw_text <$> l) ++ x5d :: t) + 1 < f)%nat →
  raw_elements f d (commas (raw_text <$> l) ++ x5d :: t) = Ok (l, t).
Proof.
  intros Hl HP. induction HP as [|v l Hv HP IH]; [done|]. intros n f d t [Hfv Hfl] Hd Hf.
  destruct f as [|f]; [lia|]. cbn [raw_elements]. destruct l as [|w l].
  - cbn [fmap list_fmap commas] in *. rewrite (Hv n) by text_side.
    cbn [mbind outcome_bind fst snd]. rewrite expect_miss, expect_hit by done. done.
  - cbn [fmap list_fmap commas] in *. rewrite <- app_assoc in *. cbn [app] in *. rewrite !length_app in Hf. cbn [length] in Hf.
    rewrite (Hv n) by text_side.
    cbn [mbind outcome_bind fst snd]. rewrite expect_hit by done. rewrite (IH ltac:(done) n) by text_side. done.
Qed.

Lemma raw_members_text l : l ≠ [] → Forall (reads_raw ∘ snd) l → ∀ n f d t,
  foldr (λ kv P, passes kv.1 ∧ raw_ok n kv.2 ∧ P) True l → d + n ≤ Json.maxNestingDepth →
  (2 * length (commas (raw_member <$> l) ++ x7d :: t) < f)%nat →
  raw_members f d (commas (raw_member <$> l) ++ x7d :: t) = Ok (l, t).
Proof.
  intros Hl HP. induction HP as [|[k v] l Hv HP IH]; [done|]. intros n f d t (Hk & Hfv & Hfl) Hd Hf.
  destruct f as [|f]; [lia|]. cbn [raw_members snd fst compose] in *.
  assert (∀ r, Json.of_option (Json.expect x22 (raw_member (k, v) ++ r)) = Ok (E := unit) (k ++ x22 :: x3a :: raw_text v ++ r)) as Hq.
  { intros r. unfold raw_member. cbn [fst snd app]. rewrite expect_hit by done. by rewrite <- app_assoc. }
  destruct l as [|w l].
  - cbn [fmap list_fmap commas] in *. rewrite Hq. cbn [mbind outcome_bind]. rewrite scan_passes by done. cbn [Json.of_option mbind outcome_bind fst snd].
    rewrite expect_hit by done. cbn [Json.of_option mbind outcome_bind].
    unfold raw_member in Hf. cbn [fst snd app length] in Hf. rewrite ?length_app in Hf. cbn [length] in Hf. rewrite ?length_app in Hf. cbn [length] in Hf.
    rewrite (Hv n) by text_side.
    cbn [mbind outcome_bind fst snd]. rewrite expect_miss, expect_hit by done. done.
  - cbn [fmap list_fmap commas] in *. rewrite <- app_assoc in *. cbn [app] in *. rewrite Hq. cbn [mbind outcome_bind].
    rewrite scan_passes by done. cbn [Json.of_option mbind outcome_bind fst snd].
    rewrite expect_hit by done. cbn [Json.of_option mbind outcome_bind].
    rewrite length_app in Hf. cbn [length] in Hf.
    unfold raw_member at 1 in Hf. cbn [fst snd length] in Hf. rewrite ?length_app in Hf. cbn [length] in Hf. rewrite ?length_app in Hf. cbn [length] in Hf.
    rewrite (Hv n) by text_side.
    cbn [mbind outcome_bind fst snd]. rewrite expect_hit by done.
    rewrite (IH ltac:(done) n) by text_side. done.
Qed.

Lemma raw_value_text v : reads_raw v.
Proof.
  induction v as [|b|lit|s|l IH|m IH] using json_nested_ind; intros n f d t Hf Hd Ht Hl;
    (destruct f as [|f]; [lia|]).
  - reflexivity.
  - destruct b; reflexivity.
  - cbn [raw_text raw_ok] in *. pose proof (number_text_app lit t Hf Ht) as Hn.
    apply number_text_head in Hf as (c & s & -> & Hc). destruct (number_head c Hc) as (Hs & _ & H1 & H2 & H3).
    cbn [raw_value app]. rewrite skip_ws_head by done. rewrite !bool_decide_eq_false_2 by done.
    cbn [Json.parse_value]. rewrite skip_ws_head by done. rewrite !bool_decide_eq_false_2 by done. rewrite Hc.
    cbn [app] in Hn. rewrite Hn. done.
  - cbn [raw_text raw_ok] in *. cbn [app raw_value]. rewrite skip_ws_head by done.
    rewrite !bool_decide_eq_false_2 by done. rewrite bool_decide_eq_true_2 by done. rewrite <- app_assoc. cbn [app].
    by rewrite scan_passes.
  - cbn [raw_text raw_ok] in *. destruct Hf as [Hn Hf].
    cbn [app raw_value] in *. rewrite skip_ws_head by done. rewrite bool_decide_eq_false_2, bool_decide_eq_true_2 by done.
    rewrite (proj2 (Z.ltb_ge _ _)) by lia. destruct l as [|v l].
    + cbn [fmap list_fmap commas app]. rewrite expect_hit by done. done.
    + rewrite <- app_assoc in *. cbn [app] in *. assert (Json.expect x5d (commas (raw_text <$> v :: l) ++ x5d :: t) = None) as ->.
      { cbn [foldr] in Hf. destruct Hf as [Hf _]. apply raw_text_head in Hf as (c & s & Hm & Hs & Hc).
        cbn [fmap list_fmap]. rewrite Hm. destruct l; cbn [fmap list_fmap commas app]; by apply expect_miss. }
      rewrite (raw_elements_text (v :: l) ltac:(done) IH (n - 1)) by (done || lia || cbn [length] in Hl; lia). done.
  - cbn [raw_ok] in Hf. destruct Hf as [Hn Hf].
    change (raw_text (JObj m)) with (x7b :: commas (raw_member <$> m) ++ [x7d]) in *.
    cbn [app raw_value] in *. rewrite skip_ws_head by done. rewrite bool_decide_eq_true_2 by done.
    rewrite (proj2 (Z.ltb_ge _ _)) by lia. rewrite <- app_assoc in *. cbn [app] in *. destruct m as [|x k].
    + cbn [fmap list_fmap commas app]. rewrite expect_hit by done. done.
    + assert (Json.expect x7d (commas (raw_member <$> x :: k) ++ x7d :: t) = None) as ->.
      { cbn [fmap list_fmap]. unfold raw_member. destruct k; cbn [fmap list_fmap commas app]; by apply expect_miss. }
      rewrite (raw_members_text (x :: k) ltac:(done) IH (n - 1)) by (done || lia || cbn [length] in Hl; lia). done.
Qed.

Lemma raw_document_text v : raw_ok Json.maxNestingDepth v → raw_document (raw_text v) = Ok v.
Proof.
  intros Hv. unfold raw_document. pose proof (raw_value_text v Json.maxNestingDepth (Json.parse_fuel (raw_text v)) 0 []) as Hp.
  rewrite app_nil_r in Hp. rewrite Hp; [done|done|done|done|]. unfold Json.parse_fuel. lia.
Qed.

(** ** Canonical text is compact text *)

Definition escape (s : bytes) : bytes := escaped (runes s).

Lemma escape_rune_spec r : rune_ok r → passes (escape_rune r) ∧ ∀ t, Json.unquote (escape_rune r ++ t) = encode_rune r ++ Json.unquote t.
Proof.
  intros Hok. pose proof Hok as [Hr Hs]. unfold escape_rune.
  repeat match goal with |- context [if r =? ?k then _ else _] => destruct (Z.eqb_spec r k) as [->|];
    [split; [by eapply passes_simple|intros t; by apply unquote_simple]|] end.
  destruct (Z.ltb_spec r 0x20).
  - assert ([x5c; x75; x30; x30; hex_digit (r `div` 16); hex_digit (r `mod` 16)] = Json.hex_escape r) as ->.
    { unfold Json.hex_escape. replace (r `div` 4096) with 0 by div_lia. replace ((r `div` 256) `mod` 16) with 0 by div_lia.
      by replace ((r `div` 16) `mod` 16) with (r `div` 16) by div_lia. }
    split; [apply passes_hex; lia|]. intros t. apply unquote_hex; [lia|]. unfold Json.is_surrogate. by rewrite (proj2 (Z.leb_gt _ _)) by lia.
  - split; [apply passes_raw, encode_rune_plain; done|]. intros t. by apply unquote_rune.
Qed.

Lemma passes_app a b : passes a → passes b → passes (a ++ b).
Proof. intros Ha Hb t. rewrite <- app_assoc, Ha, Hb. destruct (Json.scan_string t) as [[x y]|]; [|done]. cbn. by rewrite app_assoc. Qed.

Lemma escape_spec s : passes (escape s) ∧ Json.unquote (escape s) = sanitize s.
Proof.
  unfold escape, escaped, sanitize. induction (runes_ok s) as [|r l Hr _ [IHp IHu]]; cbn [fmap list_fmap mjoin list_join].
  - split; [by apply passes_raw|done].
  - destruct (escape_rune_spec r Hr) as [Hp Hu]. split; [by apply passes_app|]. rewrite Hu. f_equal. exact IHu.
Qed.

(** The tree whose text the canonical form is: members in the canonical order. *)
Fixpoint raw_of (v : json) : any :=
  match v with
  | JStr s => JStr (escape s)
  | JArr l => JArr (raw_of <$> l)
  | JObj m => JObj (prod_map escape id <$> merge_sort key_le (prod_map id raw_of <$> m))
  | _ => v
  end.

(** The numbers of [v] are in canonical form, and its nesting is at most [n]. *)
Fixpoint canonical_numbers (n : Z) (v : json) : Prop :=
  match v with
  | JNum lit => number_text lit ∧ appendJCS (JNum lit) = Ok lit
  | JArr l => 1 ≤ n ∧ foldr (λ v P, canonical_numbers (n - 1) v ∧ P) True l
  | JObj m => 1 ≤ n ∧ foldr (λ kv P, canonical_numbers (n - 1) kv.2 ∧ P) True m
  | _ => True
  end.

Lemma sort_canonical {A B} (f : A → B) (m : list (bytes * A)) :
  merge_sort key_le (prod_map id f <$> m) = prod_map id f <$> merge_sort key_le m.
Proof. apply merge_sort_fmap. by intros [? ?] [? ?]. Qed.

Lemma raw_of_obj m : raw_of (JObj m) = JObj (prod_map escape raw_of <$> merge_sort key_le m).
Proof. cbn [raw_of]. rewrite sort_canonical, <- list_fmap_compose. done. Qed.

Lemma foldr_Forall {A} (P : A → Prop) l : foldr (λ x Q, P x ∧ Q) True l ↔ Forall P l.
Proof. induction l as [|x l IH]; cbn; [by split|]. by rewrite Forall_cons, IH. Qed.

Lemma foldr_Forall2 {A} (P Q : A → Prop) l : foldr (λ x R, P x ∧ Q x ∧ R) True l ↔ Forall (λ x, P x ∧ Q x) l.
Proof. induction l as [|x l IH]; cbn; [by split|]. rewrite Forall_cons, IH. tauto. Qed.

Definition text_of (v : json) : Prop := ∀ n, canonical_numbers n v → appendJCS v = Ok (raw_text (raw_of v)) ∧ raw_ok n (raw_of v).

Lemma elements_text_of l n : Forall text_of l → Forall (canonical_numbers n) l →
  each (E := Canonical.error) (λ _ m, m) 0 (appendJCS <$> l) = Ok (raw_text <$> (raw_of <$> l)) ∧ Forall (raw_ok n) (raw_of <$> l).
Proof.
  intros IH Hl. rewrite Forall_fmap. assert (Forall2 (λ v c, appendJCS v = Ok c) l (raw_text <$> (raw_of <$> l)) ∧ Forall (raw_ok n ∘ raw_of) l) as [HF Hok].
  { induction IH as [|v l Hv _ IH]; [by split; constructor|]. apply Forall_cons in Hl as [Hn Hl]. destruct (Hv n Hn), (IH Hl).
    split; by constructor. }
  split; [|done]. apply (each_Forall2 (λ m, m)). by apply Forall2_fmap_l.
Qed.

Lemma members_text_of m n : Forall (text_of ∘ snd) m → Forall (λ kv, canonical_numbers n kv.2) m →
  each (E := Canonical.error) (λ _ kv, b ← kv.2; Ok (appendJCSString kv.1 ++ x3a :: b)) 0 (prod_map id appendJCS <$> m) =
    Ok (raw_member <$> (prod_map escape raw_of <$> m)) ∧
  Forall (λ kv, passes kv.1 ∧ raw_ok n kv.2) (prod_map escape raw_of <$> m).
Proof.
  intros IH Hl. rewrite Forall_fmap.
  assert (Forall2 (λ kv c, (b ← appendJCS kv.2; Ok (appendJCSString kv.1 ++ x3a :: b)) = Ok (E := Canonical.error) c) m (raw_member <$> (prod_map escape raw_of <$> m)) ∧
    Forall ((λ kv, passes kv.1 ∧ raw_ok n kv.2) ∘ prod_map escape raw_of) m) as [HF Hok].
  { induction IH as [|[k v] m Hv _ IH]; [by split; constructor|]. apply Forall_cons in Hl as [Hn Hl]. destruct (Hv n Hn) as [Hb Hok], (IH Hl).
    split; constructor; try done; [|split; [apply escape_spec|done]]. cbn [fst snd] in *. rewrite Hb. cbn [mbind outcome_bind].
    f_equal. unfold appendJCSString, raw_member. cbn [prod_map fst snd app]. by rewrite <- app_assoc. }
  split; [|done]. apply (each_Forall2 (λ kv, b ← kv.2; Ok (appendJCSString kv.1 ++ x3a :: b))). by apply Forall2_fmap_l.
Qed.

Lemma appendJCS_text v : text_of v.
Proof.
  induction v as [|c|lit|s|l IH|m IH] using json_nested_ind; intros n Hn.
  - done.
  - by destruct c.
  - by destruct Hn.
  - split; [done|apply escape_spec].
  - cbn [canonical_numbers] in Hn. destruct Hn as [Hn Hl%foldr_Forall]. destruct (elements_text_of l (n - 1) IH Hl) as [He Hok].
    cbn [appendJCS raw_of raw_ok]. rewrite He, foldr_Forall. done.
  - cbn [canonical_numbers] in Hn. destruct Hn as [Hn Hl%foldr_Forall].
    assert (merge_sort key_le m ≡ₚ m) as Hp by apply merge_sort_Permutation. rewrite <- Hp in IH, Hl.
    destruct (members_text_of _ (n - 1) IH Hl) as [He Hok]. rewrite raw_of_obj. cbn [appendJCS raw_ok].
    change (λ kv : bytes * json, (kv.1, appendJCS kv.2)) with (prod_map (id (A := bytes)) appendJCS).
    rewrite sort_canonical. cbv zeta. rewrite He, foldr_Forall2. done.
Qed.

(** Canonical bytes are JSON text of the same document: strings as UTF-8, members in
    canonical order. *)
Theorem raw_document_canonical v : canonical_numbers Json.maxNestingDepth v →
  ∃ b, appendJCS v = Ok b ∧ raw_document b = Ok (raw_of v).
Proof. intros Hv. destruct (appendJCS_text v _ Hv) as [Hb Hok]. eexists. split; [done|]. by apply raw_document_text. Qed.

(** ** Fields *)

Lemma string_text s : valid_text (str_bytes s) → raw_of (jstr s) = JStr (escape (str_bytes s)) ∧ ∀ old, str_value old (raw_of (jstr s)) = Some s.
Proof.
  intros Hs. unfold jstr. cbn [raw_of]. rewrite Hs. split; [done|]. intros old. unfold str_value. cbn [unescape string_value fmap option_fmap option_map].
  destruct (escape_spec (str_bytes s)) as [_ ->]. by rewrite Hs, string_of_str_bytes.
Qed.

Lemma int_text z old : Z.abs z < 2 ^ 53 → int_field old (jint z) = Some z.
Proof.
  intros Hz. apply int_field_jint. unfold is_int. lia.
Qed.

Lemma int_numbers n z : Z.abs z < 2 ^ 53 → canonical_numbers n (jint z).
Proof. intros Hz. split; [apply jint_text; lia|by apply jint_canonical]. Qed.

Lemma elements_text {A} (dec : A → any → option A) zero (xs : list A) vs old :
  Forall2 (λ x v, ∀ old, dec old v = Some x) xs vs → elements dec zero old vs = Some xs.
Proof. intros HF. revert old. induction HF as [|x v xs vs Hx _ IH]; intros old; [done|]. cbn. by rewrite Hx, IH. Qed.

Lemma strings_text l old : Forall (λ s, valid_text (str_bytes s)) l → strings old (raw_of (JArr (jstr <$> l))) = Some l.
Proof.
  intros Hl. unfold strings. cbn [raw_of slice_value]. rewrite (elements_text _ _ l); [done|].
  apply Forall2_fmap_r, Forall2_fmap_r. induction Hl as [|s l Hs _ IH]; [constructor|]. constructor; [exact (proj2 (string_text s Hs))|done].
Qed.

(** ** Commitments *)

(** The members that are left to decode. *)
Definition members_of (m : list (bytes * json)) : any := JObj (prod_map escape raw_of <$> m).

(** A member of a struct, under its name. *)
Lemma field_text {A} (set : A → bytes → any → option A) key a a' v m : sanitize key = key → set a key (raw_of v) = Some a' →
  struct_value set a (members_of ((key, v) :: m)) = struct_value set a' (members_of m).
Proof.
  intros Hs Hset. unfold members_of. cbn [struct_value fmap list_fmap prod_map decode_members fst snd]. destruct (escape_spec key) as [_ ->].
  by rewrite Hs, Hset.
Qed.

(** The names in a decoder, on a key that is known. *)
Ltac decide_names := repeat match goal with |- context [names ?f ?k] =>
  let b := eval vm_compute in (names f k) in change (names f k) with b; cbv iota end.

(** Decoding the next member of a struct. *)
Ltac next_field t := erewrite field_text; [|vm_compute; reflexivity|t].

Lemma commitment_members (r s l a : json) : merge_sort key_le
  (Authority.field "root" r ++ Authority.field "size" s ++ Authority.field "leafHashes" l ++ Authority.field "algorithm" a) =
  [(str_bytes "algorithm", a); (str_bytes "leafHashes", l); (str_bytes "root", r); (str_bytes "size", s)].
Proof. vm_compute. reflexivity. Qed.

Lemma of_to_dto c : Commitment.Commitment_of_dto (E := Canonical.error) (Commitment.Commitment_to_dto c) = Ok c.
Proof.
  unfold Commitment.Commitment_of_dto, Commitment.Commitment_to_dto. cbn [Commitment.json_root Commitment.json_size Commitment.json_leafHashes Commitment.json_algorithm].
  rewrite CommitmentProofs.decodeHash_encode. cbn [mbind outcome_bind].
  rewrite (proj2 (each_Forall2 _ 0 _ (Commitment.LeafHashes c))); [by destruct c|]. apply Forall2_fmap_l. apply Forall_Forall2_diag, Forall_true.
  intros h. apply CommitmentProofs.decodeHash_encode.
Qed.

Lemma commitment_decodes (ro al : string) si le : Z.abs si < 2 ^ 53 → valid_text (str_bytes ro) → valid_text (str_bytes al) →
  Forall (λ s, valid_text (str_bytes s)) le →
  struct_value set_commitmentJSON (Commitment.MkCommitmentJSON "" 0 [] "") (raw_of (JObj
    (Authority.field "root" (jstr ro) ++ Authority.field "size" (jint si) ++ Authority.field "leafHashes" (JArr (jstr <$> le)) ++
     Authority.field "algorithm" (jstr al)))) = Some (Commitment.MkCommitmentJSON ro si le al).
Proof.
  intros Hz Hr Ha Hl. rewrite raw_of_obj, commitment_members. fold (members_of [(str_bytes "algorithm", jstr al); (str_bytes "leafHashes", JArr (jstr <$> le));
    (str_bytes "root", jstr ro); (str_bytes "size", jint si)]).
  next_field ltac:(unfold set_commitmentJSON; decide_names; rewrite (proj2 (string_text al Ha)); reflexivity).
  next_field ltac:(unfold set_commitmentJSON; decide_names; rewrite strings_text by done; reflexivity).
  next_field ltac:(unfold set_commitmentJSON; decide_names; rewrite (proj2 (string_text ro Hr)); reflexivity).
  next_field ltac:(unfold set_commitmentJSON; decide_names; change (raw_of (jint si)) with (jint si); rewrite int_text by done; reflexivity).
  reflexivity.
Qed.

Lemma numbers_obj n m : 1 ≤ n → Forall (λ kv, canonical_numbers (n - 1) kv.2) m → canonical_numbers n (JObj m).
Proof. intros. cbn [canonical_numbers]. by rewrite foldr_Forall. Qed.

Lemma numbers_arr n l : 1 ≤ n → Forall (canonical_numbers (n - 1)) l → canonical_numbers n (JArr l).
Proof. intros. cbn [canonical_numbers]. by rewrite foldr_Forall. Qed.

(** C23.  Every commitment with a size below 2^53 and an algorithm of UTF-8 has canonical
    bytes, and [Unmarshal] gives the commitment back. *)
Theorem Unmarshal_Marshal `{!Hasher, !CborLib} c : Z.abs (Commitment.Size c) < 2 ^ 53 → valid_text (str_bytes (Commitment.Algorithm c)) →
  ∃ b, CommitmentObject.Marshal (Some c) = Ok b ∧ Unmarshal b = Ok c.
Proof.
  intros Hz Ha. set (hex := (λ h, hex_encode (arr h)) <$> Commitment.LeafHashes c).
  assert (Forall (λ s, valid_text (str_bytes s)) hex) as Hl by (apply Forall_fmap, Forall_true; intros h; apply hex_ascii).
  pose proof (commitment_decodes (hex_encode (arr (Commitment.Root c))) (Commitment.Algorithm c) (Commitment.Size c) hex Hz (hex_ascii _) Ha Hl) as Hd.
  destruct (raw_document_canonical (JObj (Authority.field "root" (jstr (hex_encode (arr (Commitment.Root c)))) ++
    Authority.field "size" (jint (Commitment.Size c)) ++ Authority.field "leafHashes" (JArr (jstr <$> hex)) ++
    Authority.field "algorithm" (jstr (Commitment.Algorithm c))))) as (b & Hb & Hr).
  { apply numbers_obj; [done|]. unfold Authority.field. cbn [app]. repeat (apply Forall_cons; split); [exact I| | |exact I|by apply Forall_nil].
    - by apply int_numbers.
    - apply numbers_arr; [done|]. by apply Forall_fmap, Forall_true. }
  exists b. split; [exact Hb|]. unfold Unmarshal. rewrite Hr, Hd.
  change (Commitment.MkCommitmentJSON _ _ hex _) with (Commitment.Commitment_to_dto c). by rewrite of_to_dto.
Qed.

(** ** Provenance *)

Definition link_texts (l : Verification.Link) : Prop :=
  valid_text (str_bytes (Verification.Ref l)) ∧ valid_text (str_bytes (Verification.LSubject l)) ∧
  valid_text (str_bytes (Verification.LKeyID l)) ∧ valid_text (str_bytes (Verification.LParent l)).

Lemma link_members (k r s i p : json) : merge_sort key_le
  (Authority.field "kind" k ++ Authority.field "ref" r ++ Authority.field "subject" s ++ Authority.field "keyId" i ++ Authority.field "parent" p) =
  [(str_bytes "keyId", i); (str_bytes "kind", k); (str_bytes "parent", p); (str_bytes "ref", r); (str_bytes "subject", s)].
Proof. vm_compute. reflexivity. Qed.

Lemma kind_small k : Z.abs (Verification.kind_number k) < 2 ^ 53.
Proof. by destruct k. Qed.

Lemma link_decodes l old : link_texts l → struct_value set_Link old (raw_of (Verification.Link_json l)) = Some (wire l).
Proof.
  intros (Hr & Hs & Hi & Hp). destruct old. unfold Verification.Link_json. rewrite raw_of_obj, link_members.
  change (JObj (prod_map escape raw_of <$> ?m)) with (members_of m).
  next_field ltac:(unfold set_Link; decide_names; rewrite (proj2 (string_text _ Hi)); reflexivity).
  next_field ltac:(unfold set_Link; decide_names; change (raw_of (jint ?z)) with (jint z); rewrite int_text by apply kind_small; reflexivity).
  next_field ltac:(unfold set_Link; decide_names; rewrite (proj2 (string_text _ Hp)); reflexivity).
  next_field ltac:(unfold set_Link; decide_names; rewrite (proj2 (string_text _ Hr)); reflexivity).
  next_field ltac:(unfold set_Link; decide_names; rewrite (proj2 (string_text _ Hs)); reflexivity).
  reflexivity.
Qed.

Lemma links_decode ls : Forall link_texts ls →
  default [] <$> slice_value (struct_value set_Link) (MkLink 0 "" "" "" "") (Some []) (raw_of (JArr (Verification.Link_json <$> ls))) = Some (wire <$> ls).
Proof.
  intros Hl. cbn [raw_of slice_value]. rewrite (elements_text _ _ (wire <$> ls)); [done|].
  apply Forall2_fmap_r, Forall2_fmap_r, Forall2_fmap_l. induction Hl as [|l ls Hl _ IH]; [constructor|]. constructor; [|done].
  intros old. by apply link_decodes.
Qed.

Lemma link_numbers n l : 1 ≤ n → canonical_numbers n (Verification.Link_json l).
Proof.
  intros Hn. apply numbers_obj; [done|]. unfold Authority.field. cbn [app].
  repeat (apply Forall_cons; split); try exact I; [|by apply Forall_nil]. apply int_numbers, kind_small.
Qed.

(** A provenance trace comes back from its canonical bytes, link for link. *)
Theorem UnmarshalProvenance_MarshalProvenance `{!Hasher, !CborLib} p : Forall link_texts (Verification.Links p) →
  ∃ b, Verification.MarshalProvenance (Some p) = Ok b ∧ UnmarshalProvenance b = Ok (wire <$> Verification.Links p).
Proof.
  intros Hl. destruct p as [ls]. cbn [Verification.Links] in *.
  destruct (raw_document_canonical (JObj (match ls with [] => [] | _ => Authority.field "links" (JArr (Verification.Link_json <$> ls)) end))) as (b & Hb & Hr).
  { apply numbers_obj; [done|]. assert (Forall (canonical_numbers 9998) (Verification.Link_json <$> ls)) by (by apply Forall_fmap, Forall_true; intros l; apply link_numbers).
    destruct ls as [|l ls]; [by apply Forall_nil|]. apply Forall_cons. split; [|by apply Forall_nil]. by apply numbers_arr. }
  exists b. split.
  - unfold Verification.MarshalProvenance, Marshal, JSONCanonicalize, to_json, Verification.Provenance_json. cbn [Verification.Links mbind outcome_bind].
    destruct ls as [|l ls]; by rewrite Hb.
  - unfold UnmarshalProvenance. rewrite Hr. destruct ls as [|l ls]; [done|]. pose proof (links_decode _ Hl) as Hd.
    rewrite raw_of_obj. change (merge_sort key_le (Authority.field "links" ?x)) with [(str_bytes "links", x)].
    change (JObj (prod_map escape raw_of <$> ?m)) with (members_of m).
    next_field ltac:(unfold set_Links; decide_names; exact Hd). reflexivity.
Qed.

(** ** Proofs *)

(** A character that is written as it stands. *)
Definition plain (c : byte) : bool := (b2z c <? 0x80) && (0x20 <=? b2z c) && negb (Byte.eqb c x22) && negb (Byte.eqb c x5c).

Lemma plain_byte c : plain c = true → b2z c < 0x80 ∧ 0x20 ≤ b2z c ∧ c ≠ x22 ∧ c ≠ x5c.
Proof.
  unfold plain. rewrite !andb_true_iff, Z.ltb_lt, Z.leb_le, !negb_true_iff. intros (((H1 & H2) & H3) & H4).
  split_and!; [done|done|by intros ->|by intros ->].
Qed.

Lemma hex_plain b : forallb plain (hex_bytes b) = true.
Proof.
  assert (∀ n, 0 ≤ n < 16 → plain (hex_digit n) = true) as Hd.
  { intros n Hn. assert (forallb (λ n, plain (hex_digit n)) (seqZ 0 16) = true) as Hb by (vm_compute; reflexivity).
    rewrite forallb_forall in Hb. apply Hb. apply list_elem_of_In, elem_of_seqZ. lia. }
  unfold hex_bytes. induction b as [|x b IH]; [done|]. cbn. pose proof (b2z_range x). rewrite !Hd by div_lia. exact IH.
Qed.

(** Plain text is read as it stands. *)
Lemma plain_spec s : forallb plain s = true → passes s ∧ Json.unquote s = s.
Proof.
  intros Hb. assert (Forall (λ c, b2z c < 0x80 ∧ 0x20 ≤ b2z c ∧ c ≠ x22 ∧ c ≠ x5c) s) as Hs.
  { apply list.Forall_forall. intros c Hc. apply plain_byte. rewrite forallb_forall in Hb. by apply Hb, list_elem_of_In. }
  clear Hb. split; [apply passes_raw; eapply Forall_impl; [exact Hs|]; naive_solver|].
  induction Hs as [|c s (Ha & Hc & Hq & Hb) _ IH]; [done|]. rewrite unquote_cons by (by apply bool_decide_eq_false_2).
  pose proof (b2z_range c). unfold decode_rune. rewrite (proj2 (Z.ltb_lt _ _)) by done. cbn [fst snd]. change (drop (1 - 1) s) with s. rewrite IH. unfold encode_rune.
  rewrite (proj2 (Z.ltb_lt _ _)) by done. by rewrite z2b_b2z.
Qed.

Lemma unquote_plain s : forallb plain s = true → Json.unquote s = s.
Proof. apply plain_spec. Qed.

(** The text of a proof; [json.Marshal] writes a nil slice of steps as null. *)
Definition proof_step_tree (s : Merkle.ProofStep) : any :=
  JObj [(str_bytes "hash", JStr (hex_bytes (arr (Merkle.Hash s)))); (str_bytes "isRight", JBool (Merkle.IsRight s))].
Definition Proof_MarshalJSON (nil_steps : bool) (p : Commitment.Proof_) : bytes :=
  raw_text (JObj [(str_bytes "index", jint (Commitment.Index p)); (str_bytes "treeSize", jint (Commitment.TreeSize p));
    (str_bytes "steps", if nil_steps then JNull else JArr (proof_step_tree <$> Commitment.Steps p))]).

Lemma proof_step_decodes s old : struct_value set_proofStepJSON old (proof_step_tree s) =
  Some (Commitment.MkProofStepJSON (hex_encode (arr (Merkle.Hash s))) (Merkle.IsRight s)).
Proof.
  unfold proof_step_tree. cbn [struct_value decode_members]. rewrite !unquote_plain by (vm_compute; reflexivity).
  unfold set_proofStepJSON. decide_names. unfold str_value. cbn [unescape string_value].
  rewrite (proj2 (plain_spec _ (hex_plain _))). cbn [fmap option_fmap option_map mbind option_bind]. decide_names. done.
Qed.

Lemma proof_step_ok n s : 1 ≤ n → raw_ok n (proof_step_tree s).
Proof.
  intros Hn. cbn [proof_step_tree raw_ok foldr fst snd]. split_and!; try done; [by apply plain_spec|apply plain_spec, hex_plain|by apply plain_spec].
Qed.

(** A proof comes back from its JSON text. *)
Theorem Proof_UnmarshalJSON_MarshalJSON p nil_steps : is_int (Commitment.Index p) → is_int (Commitment.TreeSize p) →
  (nil_steps = true → Commitment.Steps p = []) → Proof_UnmarshalJSON (Proof_MarshalJSON nil_steps p) = Ok p.
Proof.
  intros Hi Ht Hnil. unfold Proof_UnmarshalJSON, Proof_MarshalJSON. rewrite raw_document_text.
  - cbn [struct_value decode_members]. rewrite !unquote_plain by (vm_compute; reflexivity). unfold set_proofJSON. decide_names.
    rewrite int_field_jint by done. cbn [mbind option_bind]. decide_names. rewrite int_field_jint by done. cbn [mbind option_bind]. decide_names.
    assert (slice_value (struct_value set_proofStepJSON) (Commitment.MkProofStepJSON "" false) (Some [])
      (if nil_steps then JNull else JArr (proof_step_tree <$> Commitment.Steps p)) =
      Some (if nil_steps then None else Some (Commitment.json_steps (Commitment.Proof_to_dto p)))) as ->.
    { destruct nil_steps; [done|]. cbn [slice_value]. rewrite (elements_text _ _ (Commitment.json_steps (Commitment.Proof_to_dto p))); [done|].
      apply Forall2_fmap_r, Forall2_fmap_l, Forall_Forall2_diag, Forall_true. intros s old. apply proof_step_decodes. }
    cbn [mbind option_bind]. unfold Commitment.Proof_of_dto. cbn [Commitment.json_steps].
    rewrite (proj2 (each_Forall2 _ 0 _ (Commitment.Steps p))); [by destruct p|].
    destruct nil_steps; [rewrite Hnil by done; constructor|]. cbn [default from_option id]. apply Forall2_fmap_l, Forall_Forall2_diag, Forall_true.
    intros s. cbn [compose Commitment.json_hash Commitment.json_isRight]. rewrite CommitmentProofs.decodeHash_encode. by destruct s.
  - cbn [raw_ok foldr fst snd]. unfold is_int in *. split_and!; try done; try (by apply plain_spec); [apply jint_text; lia..|].
    destruct nil_steps; [done|]. cbn [raw_ok]. split; [done|]. rewrite foldr_Forall. apply Forall_fmap, Forall_true. intros s. by apply proof_step_ok.
Qed.

(** ** Witnesses *)

Module ToyWire.
#[local] Instance toy_cbor : CborLib := λ _ _, Ok [].

Definition hash (b : byte) : array32 := copy32 (replicate 32 b).
Definition commitment : Commitment.Commitment :=
  Commitment.MkCommitment (hash x01) 2 [hash x02; hash x03] Commitment.AlgorithmRFC6962SHA256.

Lemma Unmarshal_Marshal_witness : ∃ b, CommitmentObject.Marshal (Some commitment) = Ok b ∧ Unmarshal b = Ok commitment.
Proof. apply (Unmarshal_Marshal commitment); vm_compute; reflexivity. Defined.

Definition trace : Verification.Provenance := Verification.MkProvenance
  [Verification.MkLink Verification.NodeAttestation "ab" "s" "k1" "cd"; Verification.MkLink Verification.NodeIdentity "did:example:a" "" "" ""].

Lemma UnmarshalProvenance_MarshalProvenance_witness : ∃ b, Verification.MarshalProvenance (Some trace) = Ok b ∧
  UnmarshalProvenance b = Ok (wire <$> Verification.Links trace).
Proof.
  apply UnmarshalProvenance_MarshalProvenance. repeat (apply Forall_cons; split); [..|by apply Forall_nil]; split_and!; vm_compute; reflexivity.
Defined.

Lemma Proof_UnmarshalJSON_MarshalJSON_witness : let p := Commitment.MkProof 1 2 [Merkle.Step (hash x04) true] in
  Proof_UnmarshalJSON (Proof_MarshalJSON false p) = Ok p.
Proof. apply (Proof_UnmarshalJSON_MarshalJSON (Commitment.MkProof 1 2 _) false); [split; done|split; done|done]. Defined.

Lemma raw_document_canonical_witness : ∃ b, appendJCS (JArr [JBool true; jint 7]) = Ok b ∧ raw_document b = Ok (JArr [JBool true; jint 7]).
Proof.
  apply (raw_document_canonical (JArr [JBool true; jint 7])). apply numbers_arr; [done|].
  repeat (apply Forall_cons; split); [exact I|by apply int_numbers|by apply Forall_nil].
Defined.
End ToyWire.
