(* ===== verification/Jws.v ===== *)
(** * JSON Web Signatures

    A translation of src/identity/jwk/jws.go: compact serialization, signing and
    verification, and the claim checks of [Verify].  Every algorithm but ES256K goes
    through github.com/lestrrat-go/jwx, the class [JwsLib]. *)
From Stdlib Require Import SpecFloat.
From S2P Require Import Prelude Sha256 GoBig Canonical Signature Secp256k1 Binder Base64 Asn1 Json GoFloat DidPkh Jwk JwkText.
Import Canonical Signature.
#[local] Open Scope Z_scope.

(** The standard-library form of a private key, with its material. *)
Inductive StdPrivate : Type :=
| StdEd25519 (d : bytes)
| StdECDSA (curve : Curve) (d : bytes)
| StdRSA (d : bytes).

(** jwx/v3/jws and jwa: whether an algorithm name is known, [jws.Sign] of a payload with
    an algorithm, a key and additional headers, [jws.Verify] of a token. *)
Class JwsLib : Type := {
  jwa_known : bytes → bool;
  jws_sign : bytes → bytes → StdPrivate → jmap → option bytes;
  jws_verify : bytes → bytes → RawKey → option bytes
}.

Module Jws.

Inductive error : Type :=
| JwkErr (e : Jwk.error)
| SigErr (e : Signature.error)
| ErrMalformedJWS
| ErrInvalidSegment
| ErrCritUnsupported
| ErrUnsupportedAlg
| ErrInvalidSignature
| ErrExpired
| ErrNotYetValid
| ErrIssuerMismatch
| ErrAudienceMismatch
| ErrInvalidClaims
| ErrJwx.

Record SignOptions : Type := MkSign { SAlgorithm : bytes; Headers : jmap }.

Record VerifyOptions : Type := MkVerify {
  VAlgorithm : bytes;
  ExpectedIssuer : bytes;
  ExpectedAudience : list bytes
}.

(** The argument of [Sign] is any value; a public key passed by mistake is told apart. *)
Inductive AnyKey : Type := APrivate (k : PrivateKey) | APublic (k : PublicKey).

Definition JOSE_bytes (a : Algorithm) : bytes := str_bytes (JOSE a).
Definition for_jose (name : bytes) : option Algorithm := AlgorithmForJOSE (String.string_of_list_byte name).

(** ** Segments *)

Definition IndexByte (s : bytes) (c : byte) : option nat := fst <$> list_find (λ d, d = c) s.
Definition LastIndexByte (s : bytes) (c : byte) : option nat :=
  (λ i, (length s - 1 - i)%nat) <$> IndexByte (reverse s) c.

Definition decodeSegment (segment : bytes) : outcome error bytes :=
  match Binder.decode_rawurl segment with
  | None => Err ErrInvalidSegment
  | Some decoded => if bool_decide (encode_rawurl decoded = segment) then Ok decoded else Err ErrInvalidSegment
  end.

Record parsedJWS : Type := Parsed {
  header : jmap;
  alg : bytes;
  payload : bytes;
  signature : bytes;
  signingInput : bytes
}.

(** [json.Unmarshal] of the header; a null leaves the map nil. *)
Definition parse_header (headerJSON : bytes) : outcome error jmap :=
  _ ← wrap_err JwkErr (JwkText.checkDuplicateMembers headerJSON);
  m ← wrap_err (λ _, JwkErr Jwk.ErrInvalidMember) (Json.unmarshal_map headerJSON);
  Ok (default [] m).

Definition header_alg (h : jmap) : outcome error bytes :=
  if bool_decide (is_Some (Jwk.member h "crit")) then Err ErrCritUnsupported
  else match Jwk.member h "alg" with
       | None => Err (JwkErr Jwk.ErrMissingMember)
       | Some (JStr alg) => if bool_decide (alg = str_bytes "none") then Err (JwkErr Jwk.ErrAlgNone) else Ok alg
       | Some _ => Err (JwkErr Jwk.ErrInvalidMember)
       end.

Definition parseCompact (token : bytes) : outcome error parsedJWS :=
  if negb (DidPkh.Count token x2e =? 2) then Err ErrMalformedJWS
  else
    match IndexByte token x2e, LastIndexByte token x2e with
    | Some dot1, Some dot2 =>
        headerJSON ← decodeSegment (take dot1 token);
        payload ← decodeSegment (drop (dot1 + 1) (take dot2 token));
        signature ← decodeSegment (drop (dot2 + 1) token);
        header ← parse_header headerJSON;
        alg ← header_alg header;
        Ok (Parsed header alg payload signature (take dot2 token))
    | _, _ => Panic
    end.

(** ** Conversions *)

Definition toStdlibPrivateKey (key : PrivateKey) : outcome error StdPrivate :=
  match key with
  | Ed25519Priv d => Ok (StdEd25519 d)
  | EcdsaPriv curve d => Ok (StdECDSA curve d)
  | PSSPriv _ d => Ok (StdRSA d)
  | PKCS1Priv _ d => Ok (StdRSA d)
  | _ => Err ErrUnsupportedAlg
  end.

Definition toStdlibPublicKey (key : PublicKey) : outcome error RawKey :=
  match key with
  | Ed25519Pub b => Ok (RawEd25519Pub b)
  | EcdsaPub curve x y => Ok (RawECDSAPub curve x y)
  | PSSPub _ n e => Ok (RawRSAPub n e)
  | PKCS1Pub _ n e => Ok (RawRSAPub n e)
  | _ => Err ErrUnsupportedAlg
  end.

Definition ecdsaSize (alg : Algorithm) : Z :=
  if alg =? AlgorithmES256 then 32
  else if alg =? AlgorithmES384 then 48
  else 0.

(** ** Claims of the payload *)

(** The audiences of an "aud" claim: a string or an array of strings. *)
Fixpoint strings_of (l : list json) : option (list bytes) :=
  match l with
  | [] => Some []
  | JStr s :: l' => cons s <$> strings_of l'
  | _ => None
  end.

Definition audienceContains (raw : option json) (expected : list bytes) : bool :=
  match match raw with
        | Some (JStr aud) => Some [aud]
        | Some (JArr l) => strings_of l
        | _ => None
        end with
  | None => false
  | Some audiences => existsb (λ want, existsb (λ got, bytes_eqb got want) audiences) expected
  end.

Section Claims.
Context `{A : Arch}.

(** One time claim; [late] tells "exp" from the other two. *)
Definition time_claim (claims : jmap) (now : Z) (name : string) (late : bool) (sentinel : error) : outcome error unit :=
  match Jwk.member claims name with
  | None => Ok tt
  | Some raw =>
      match GoFloat.float64 raw with
      | None => Err ErrInvalidClaims
      | Some when =>
          let t := GoFloat.int64 when in
          if (if late then t <=? now else now <? t) then Err sentinel else Ok tt
      end
  end.

Definition claims_requested (opts : VerifyOptions) : bool :=
  negb (bool_decide (ExpectedIssuer opts = [])) || (0 <? zlen (ExpectedAudience opts)).

(** [now] is [time.Now().Unix()]. *)
Definition checkClaims (payload : bytes) (opts : VerifyOptions) (now : Z) : outcome error unit :=
  match Json.unmarshal_map payload with
  | Ok (Some claims) =>
      _ ← time_claim claims now "exp" true ErrExpired;
      _ ← time_claim claims now "nbf" false ErrNotYetValid;
      _ ← time_claim claims now "iat" false ErrNotYetValid;
      _ ← (if negb (bool_decide (ExpectedIssuer opts = [])) then
             match Jwk.member claims "iss" with
             | Some (JStr iss) => if bytes_eqb iss (ExpectedIssuer opts) then Ok tt else Err ErrIssuerMismatch
             | _ => Err ErrIssuerMismatch
             end
           else Ok tt);
      if (0 <? zlen (ExpectedAudience opts)) && negb (audienceContains (Jwk.member claims "aud") (ExpectedAudience opts))
      then Err ErrAudienceMismatch else Ok tt
  | Ok None => if claims_requested opts then Err ErrInvalidClaims else Ok tt
  | _ => if claims_requested opts then Err ErrInvalidClaims else Ok tt
  end.
End Claims.

(** ** Signing *)

Section Operations.
Context `{K : KeyOps, H : Hasher, J : JwsLib, X : Jwx, D : Dcrd, C : Curves, A : Arch}.

(** The header map: "alg", then the caller's members. *)
Definition sign_header (opts : SignOptions) : jmap :=
  foldl (λ acc kv, Json.map_set kv.1 kv.2 acc) [(str_bytes "alg", JStr (SAlgorithm opts))] (Headers opts).

Definition signSecp256k1 (payload : bytes) (key : AnyKey) (opts : SignOptions) : outcome error bytes :=
  let headerJSON := Json.marshal (JObj (sign_header opts)) in
  let encHeader := encode_rawurl headerJSON in
  let encPayload := encode_rawurl payload in
  let signingInput := encHeader ++ x2e :: encPayload in
  match for_jose (SAlgorithm opts) with
  | None => Err ErrUnsupportedAlg
  | Some alg =>
      match key with
      | APrivate k =>
          sig ← wrap_err SigErr (Sign alg k signingInput);
          Ok (signingInput ++ x2e :: encode_rawurl sig)
      | APublic _ => Err (SigErr (Signature.ErrAlgMismatch alg 0))
      end
  end.

Definition Sign (payload : bytes) (key : AnyKey) (opts : SignOptions) : outcome error bytes :=
  if bool_decide (SAlgorithm opts = []) then Err (JwkErr Jwk.ErrAlgRequired)
  else if bool_decide (SAlgorithm opts = str_bytes "none") then Err (JwkErr Jwk.ErrAlgNone)
  else if existsb (λ kv, bytes_eqb kv.1 (str_bytes "alg") || bytes_eqb kv.1 (str_bytes "crit")) (Headers opts)
  then Err (JwkErr Jwk.ErrInvalidMember)
  else if bool_decide (SAlgorithm opts = str_bytes "ES256K") then signSecp256k1 payload key opts
  else
    match for_jose (SAlgorithm opts) with
    | None => Err ErrUnsupportedAlg
    | Some gotAlg =>
        match key with
        | APublic pub =>
            match AlgorithmForPublicKey pub with
            | Ok pubAlg => Err (SigErr (Signature.ErrAlgMismatch 0 pubAlg))
            | _ => Err (SigErr Signature.ErrUnsupportedAlgorithm)
            end
        | APrivate k =>
            keyAlg ← wrap_err SigErr (AlgorithmForPrivateKey k);
            if negb (bool_decide (JOSE_bytes keyAlg = SAlgorithm opts)) then
              Err (SigErr (Signature.ErrAlgMismatch keyAlg gotAlg))
            else if negb (jwa_known (SAlgorithm opts)) then Err ErrUnsupportedAlg
            else
              rawKey ← toStdlibPrivateKey k;
              match jws_sign payload (SAlgorithm opts) rawKey (Headers opts) with
              | None => Err ErrJwx
              | Some token => Ok token
              end
        end
    end.

(** ** Verification *)

Definition VerifySignature (token : bytes) (key : option PublicKey) (opts : VerifyOptions) : outcome error bytes :=
  parsed ← parseCompact token;
  match key with
  | None => Err ErrUnsupportedAlg
  | Some k =>
      requiredAlg ← wrap_err (λ _, ErrUnsupportedAlg) (AlgorithmForPublicKey k);
      let required := JOSE_bytes requiredAlg in
      if negb (bool_decide (alg parsed = required)) then Err (JwkErr Jwk.ErrAlgMismatch)
      else if negb (bool_decide (VAlgorithm opts = [])) && negb (bool_decide (alg parsed = VAlgorithm opts))
      then Err (JwkErr Jwk.ErrAlgMismatch)
      else if requiredAlg =? AlgorithmES256K then
        valid ← wrap_err SigErr (Verify AlgorithmES256K k (signature parsed) (signingInput parsed));
        if valid : bool then Ok (payload parsed) else Err ErrInvalidSignature
      else
        rawKey ← toStdlibPublicKey k;
        if negb (jwa_known (alg parsed)) then Err ErrUnsupportedAlg
        else match jws_verify token (alg parsed) rawKey with
             | None => Err ErrInvalidSignature
             | Some payload => Ok payload
             end
  end.

Definition VerifyClaims (token : bytes) (key : option PublicKey) (opts : VerifyOptions) (now : Z) : outcome error bytes :=
  payload ← VerifySignature token key opts;
  _ ← checkClaims payload opts now;
  Ok payload.

Definition VerifyWithJWK (token jwk : bytes) (opts : VerifyOptions) (now : Z) : outcome error bytes :=
  key ← wrap_err JwkErr (JwkText.PublicFromJWK jwk);
  VerifyClaims token (Some key) opts now.
End Operations.

(** ** ECDSA signature forms *)

(** [asn1.Unmarshal] into the pair of integers; what follows them inside the sequence
    is ignored. *)
Definition unmarshal_pair (der : bytes) : option (Z * Z * bytes) :=
  c ← Asn1.parse_universal Asn1.TagSequence true der;
  r ← Asn1.parse_universal Asn1.TagInteger false c.1;
  rz ← Asn1.parseBigInt r.1;
  s ← Asn1.parse_universal Asn1.TagInteger false r.2;
  sz ← Asn1.parseBigInt s.1;
  Some (rz, sz, c.2).

Definition derToFixed (der : bytes) (size : nat) : outcome error bytes :=
  match unmarshal_pair der with
  | Some (r, s, []) => rb ← fill_bytes size r; sb ← fill_bytes size s; Ok (rb ++ sb)
  | _ => Err ErrInvalidSignature
  end.

Definition fixedToDer (fixed : bytes) (size : nat) : outcome error bytes :=
  if negb (length fixed =? 2 * size)%nat then Err ErrInvalidSignature
  else Ok (Asn1.sequence (Asn1.encode_int (be_value (take size fixed)) ++ Asn1.encode_int (be_value (drop size fixed)))).
End Jws.
