(* ===== verification/JwsProofs.v ===== *)
(** * Properties of JSON Web Signatures *)
From Stdlib Require Import SpecFloat.
From S2P Require Import Prelude Sha256 GoBig Canonical CanonicalProofs Signature SignatureProofs Secp256k1 Binder Base64 Asn1 Json JsonProofs GoFloat DidPkh Jwk JwkText Jws.
Import Canonical Signature Asn1 Jws.
#[local] Open Scope Z_scope.
#[local] Arguments str_bytes : simpl never.

(** ** Segments *)

Lemma IndexByte_first a s c : c ∉ a → IndexByte (a ++ c :: s) c = Some (length a).
Proof.
  intros Hc. unfold IndexByte. rewrite list_find_app_r.
  - cbn. by rewrite decide_True by done.
  - apply list_find_None, list.Forall_forall. intros x Hx ->. done.
Qed.

Lemma LastIndexByte_last s b c : c ∉ b → LastIndexByte (s ++ c :: b) c = Some (length s).
Proof.
  intros Hc. unfold LastIndexByte. rewrite reverse_app, reverse_cons, <- app_assoc. cbn [app].
  rewrite IndexByte_first by by rewrite elem_of_reverse. cbn. f_equal. rewrite length_app, length_reverse. cbn [length]. lia.
Qed.

Lemma rawurl_no_dot b : x2e ∉ encode_rawurl b.
Proof.
  unfold encode_rawurl. intros (n & E & Hn)%list_elem_of_fmap. pose proof (b64_digits_range b) as HF.
  rewrite list.Forall_forall in HF. specialize (HF n Hn). cbv beta in HF.
  assert (Forall (λ n, b64url_digit n ≠ x2e) (seqZ 0 64)) as HD by (apply (bool_decide_unpack _); vm_compute; exact I).
  rewrite list.Forall_forall in HD. apply (HD n); [apply elem_of_seqZ; lia|done].
Qed.

Lemma decodeSegment_iff s b : decodeSegment s = Ok b ↔ s = encode_rawurl b.
Proof.
  unfold decodeSegment. split.
  - destruct (Binder.decode_rawurl s) as [d|]; [|done]. case_bool_decide; [|done]. by intros [= <-].
  - intros ->. rewrite decode_encode_rawurl. by rewrite bool_decide_eq_true_2.
Qed.

(** The compact serialization of three byte strings. *)
Definition compact (hdr pl sg : bytes) : bytes :=
  encode_rawurl hdr ++ x2e :: encode_rawurl pl ++ x2e :: encode_rawurl sg.
Definition signing_input (hdr pl : bytes) : bytes := encode_rawurl hdr ++ x2e :: encode_rawurl pl.

Lemma compact_input hdr pl sg : compact hdr pl sg = signing_input hdr pl ++ x2e :: encode_rawurl sg.
Proof. unfold compact, signing_input. by rewrite <- app_assoc. Qed.

Lemma parseCompact_compact hdr pl sg : parseCompact (compact hdr pl sg) =
  (h ← parse_header hdr; a ← header_alg h; Ok (Parsed h a pl sg (signing_input hdr pl))).
Proof.
  unfold parseCompact. assert (DidPkh.Count (compact hdr pl sg) x2e = 2) as ->.
  { apply Split_three. exists (encode_rawurl hdr), (encode_rawurl pl), (encode_rawurl sg).
    split_and!; try apply rawurl_no_dot; [done|]. unfold compact. by rewrite !Split_app, Split_none by apply rawurl_no_dot. }
  cbn [Z.eqb Pos.eqb negb]. unfold compact at 1. rewrite IndexByte_first by apply rawurl_no_dot.
  rewrite compact_input, LastIndexByte_last by apply rawurl_no_dot.
  assert (take (length (encode_rawurl hdr)) (signing_input hdr pl ++ x2e :: encode_rawurl sg) = encode_rawurl hdr) as ->.
  { unfold signing_input. rewrite <- app_assoc. by rewrite take_app_length. }
  rewrite take_app_length. assert (drop (length (encode_rawurl hdr) + 1) (signing_input hdr pl) = encode_rawurl pl) as ->.
  { unfold signing_input. rewrite drop_app_add' by done. done. }
  rewrite drop_app_add' by done. cbn [drop].
  rewrite ?drop_0, !(proj2 (decodeSegment_iff _ _) eq_refl). reflexivity.
Qed.

Lemma parseCompact_form token p : parseCompact token = Ok p → ∃ hdr, token = compact hdr (payload p) (signature p) ∧
  parse_header hdr = Ok (header p) ∧ header_alg (header p) = Ok (alg p) ∧ signingInput p = signing_input hdr (payload p).
Proof.
  unfold parseCompact. destruct (Z.eqb_spec (DidPkh.Count token x2e) 2) as [HC|]; [|done]. cbn [negb].
  apply Split_three in HC as (a & b & c & -> & Ha & Hb & Hc & _).
  rewrite IndexByte_first by done. replace (a ++ x2e :: b ++ x2e :: c) with ((a ++ x2e :: b) ++ x2e :: c) by by rewrite <- app_assoc.
  rewrite LastIndexByte_last by done. intros (hdr & Hh & (pl & Hp & (sg & Hs & (h & H1 & (al & H2 & [= <-])%bind_Ok)%bind_Ok)%bind_Ok)%bind_Ok)%bind_Ok.
  apply decodeSegment_iff in Hh, Hp, Hs. rewrite <- app_assoc in Hh. cbn [app] in Hh. rewrite take_app_length in Hh.
  rewrite take_app_length in Hp. rewrite drop_app_add' in Hp, Hs by done. cbn [drop] in Hp, Hs. rewrite ?drop_0 in Hp, Hs. subst a b c.
  exists hdr. cbn. split_and!; [|done|done|].
  - unfold compact. by rewrite <- app_assoc.
  - by rewrite take_app_length.
Qed.

Lemma compact_count hdr pl sg : DidPkh.Count (compact hdr pl sg) x2e = 2.
Proof.
  apply Split_three. exists (encode_rawurl hdr), (encode_rawurl pl), (encode_rawurl sg).
  split_and!; try apply rawurl_no_dot; [done|]. unfold compact. by rewrite !Split_app, Split_none by apply rawurl_no_dot.
Qed.

(** ** The protected header *)

Lemma check_object data v : JwkText.checkDuplicateMembers data = Ok tt → Json.parse_document data = Ok v →
  ∃ m, v = JObj m.
Proof.
  unfold JwkText.checkDuplicateMembers, Json.parse_document. intros (s & Hs & _)%bind_Ok (r & Hr & Hv)%bind_Ok.
  destruct (Json.expect x7b data) as [s'|] eqn:E; [|done]. unfold Json.expect in E.
  remember (Json.parse_fuel data) as f eqn:Ef. destruct f as [|f]; [done|]. cbn [Json.parse_value] in Hr.
  destruct (Json.skip_ws data) as [|c t]; [done|]. case_bool_decide; [|done]. subst c.
  destruct (Json.maxNestingDepth <? 0 + 1); [done|].
  destruct (Json.skip_ws r.2); [|done]. injection Hv as <-.
  destruct (Json.expect x7d t); [injection Hr as <-; by eexists|].
  apply bind_Ok in Hr as (q & _ & [= <-]). by eexists.
Qed.

(** A header is one JSON object with distinct names, taken as it is. *)
Definition object_of (hdr : bytes) (m : jmap) : Prop :=
  Json.parse_document hdr = Ok (JObj m) ∧ NoDup m.*1 ∧ Json.numbers_ok (JObj m) = true.

Lemma parse_header_iff hdr h : parse_header hdr = Ok h ↔
  ∃ m, object_of hdr m ∧ h = (λ kv, (kv.1, Json.to_any kv.2)) <$> m.
Proof.
  unfold parse_header, object_of. split.
  - intros ([] & Hc & (o & Ho & [= <-])%bind_Ok)%bind_Ok. apply wrap_err_Ok in Hc, Ho. unfold Json.unmarshal_map in Ho.
    apply bind_Ok in Ho as (v & Hv & Ho). destruct (check_object hdr v Hc Hv) as [m ->].
    destruct (Json.numbers_ok (JObj m)) eqn:Hn; [|done]. injection Ho as <-. rewrite (check_spec hdr m Hv Hn) in Hc.
    case_bool_decide as Hnd; [|done]. exists m. split; [done|]. cbn. apply collect_id. by rewrite <- list_fmap_compose.
  - intros (m & (Hv & Hnd & Hn) & ->). rewrite (check_spec hdr m Hv Hn), bool_decide_eq_true_2 by done.
    cbn [wrap_err mbind outcome_bind]. unfold Json.unmarshal_map. rewrite Hv. cbn [mbind outcome_bind]. rewrite Hn.
    cbn [wrap_err mbind outcome_bind]. rewrite collect_id by (by rewrite <- list_fmap_compose). done.
Qed.

Lemma header_alg_iff h a : header_alg h = Ok a ↔
  Jwk.member h "crit" = None ∧ Jwk.member h "alg" = Some (JStr a) ∧ a ≠ str_bytes "none".
Proof.
  unfold header_alg. case_bool_decide as Hc.
  - split; [done|]. intros (E & _). rewrite E in Hc. by destruct Hc.
  - apply eq_None_not_Some in Hc. destruct (Jwk.member h "alg") as [[]|]; try naive_solver. case_bool_decide; naive_solver.
Qed.

(** The header of a token under algorithm [a]: one object with distinct names, no "crit",
    and [a] as its "alg". *)
Definition protected_header (hdr a : bytes) : Prop :=
  ∃ m, object_of hdr m ∧ Jwk.member m "crit" = None ∧ Jwk.member m "alg" = Some (JStr a) ∧ a ≠ str_bytes "none".

Lemma member_any m k : Jwk.member ((λ kv, (kv.1, Json.to_any kv.2)) <$> m) k = Json.to_any <$> Jwk.member m k.
Proof. apply (lookup_values Json.to_any (str_bytes k) m). Qed.

Lemma protected_header_iff hdr a :
  protected_header hdr a ↔ ∃ h, parse_header hdr = Ok h ∧ header_alg h = Ok a.
Proof.
  split.
  - intros (m & Hm & Hc & Ha & Hn). eexists. split; [apply parse_header_iff; by exists m|].
    apply header_alg_iff. rewrite !member_any, Hc, Ha. done.
  - intros (h & (m & Hm & ->)%parse_header_iff & (Hc & Ha & Hn)%header_alg_iff). rewrite member_any in Hc, Ha. exists m.
    split; [done|]. destruct (Jwk.member m "crit"); [done|]. split; [done|]. split; [|done].
    destruct (Jwk.member m "alg") as [[]|]; done.
Qed.

Section Tokens.
Context `{K : KeyOps, H : Hasher, J : JwsLib, X : Jwx, D : Dcrd, C : Curves, A : Arch}.

(** What makes a signature over [hdr] and [pl] acceptable under the key [k], whose
    algorithm is [a]: this package's own check for ES256K, jwx for the others. *)
Definition accepts (token : bytes) (k : PublicKey) (a : Algorithm) (hdr pl sg p : bytes) : Prop :=
  if a =? AlgorithmES256K
  then p = pl ∧ Verify AlgorithmES256K k sg (signing_input hdr pl) = Ok true
  else ∃ raw, toStdlibPublicKey k = Ok raw ∧ jwa_known (JOSE_bytes a) = true ∧ jws_verify token (JOSE_bytes a) raw = Some p.

Definition pinned (opts : VerifyOptions) (a : Algorithm) : Prop :=
  VAlgorithm opts = [] ∨ VAlgorithm opts = JOSE_bytes a.

Lemma Jws_VerifySignature_spec token key opts p : VerifySignature token key opts = Ok p ↔
  ∃ k a hdr pl sg, key = Some k ∧ AlgorithmForPublicKey k = Ok a ∧ token = compact hdr pl sg ∧
    protected_header hdr (JOSE_bytes a) ∧ pinned opts a ∧ accepts token k a hdr pl sg p.
Proof.
  unfold VerifySignature, accepts, pinned. split.
  - intros (q & (hdr & Ht & Hh & Hal & Hi)%parseCompact_form & Hv)%bind_Ok. destruct key as [k|]; [|done].
    apply bind_Ok in Hv as (a & Ha%wrap_err_Ok & Hv). cbv zeta in Hv. case_bool_decide as Eal; [|done]. cbn [negb] in Hv.
    exists k, a, hdr, (payload q), (signature q). do 3 (split; [done|]).
    split; [apply protected_header_iff; rewrite <- Eal; eauto|].
    destruct (negb (bool_decide (VAlgorithm opts = [])) && negb (bool_decide (alg q = VAlgorithm opts))) eqn:Ep; [done|].
    split.
    { rewrite andb_false_iff, !negb_false_iff, !bool_decide_eq_true in Ep. rewrite Eal in Ep. destruct Ep; [by left|by right]. }
    destruct (a =? AlgorithmES256K).
    + apply bind_Ok in Hv as (v & Hv%wrap_err_Ok & Hp). destruct v; [|done]. injection Hp as <-. by rewrite <- Hi.
    + apply bind_Ok in Hv as (raw & Hr & Hv). destruct (jwa_known (alg q)) eqn:Ek; [|done]. cbn [negb] in Hv.
      destruct (jws_verify token (alg q) raw) as [p'|] eqn:Ev; [|done]. injection Hv as ->. exists raw. by rewrite <- Eal.
  - intros (k & a & hdr & pl & sg & -> & Ha & Ht & (h & Hh & Hal)%protected_header_iff & Hpin & Hacc).
    rewrite Ht at 1. rewrite parseCompact_compact, Hh. cbn [mbind outcome_bind]. rewrite Hal. cbn [mbind outcome_bind].
    rewrite Ha. cbn [wrap_err mbind outcome_bind alg payload signature signingInput].
    rewrite (bool_decide_eq_true_2 (JOSE_bytes a = JOSE_bytes a)) by done. cbn [negb].
    assert (negb (bool_decide (VAlgorithm opts = [])) && negb (bool_decide (JOSE_bytes a = VAlgorithm opts)) = false) as ->.
    { rewrite andb_false_iff, !negb_false_iff, !bool_decide_eq_true. destruct Hpin as [->| ->]; [by left|by right]. }
    destruct (a =? AlgorithmES256K).
    + destruct Hacc as [-> ->]. done.
    + destruct Hacc as (raw & -> & Hk & Hv). cbn [mbind outcome_bind]. rewrite Hk. cbn [negb]. by rewrite Hv.
Qed.

(** What [VerifySignature] accepts: the canonical compact serialization of three byte
    strings whose header names the algorithm of the key (and the pinned one), with no
    "crit" and no repeated name, and a signature that verifies over exactly the first two
    segments of that token. *)
Theorem VerifySignature_iff token key opts p : VerifySignature token key opts = Ok p ↔
  ∃ k a hdr pl sg, key = Some k ∧ AlgorithmForPublicKey k = Ok a ∧ token = compact hdr pl sg ∧
    protected_header hdr (JOSE_bytes a) ∧ pinned opts a ∧ accepts token k a hdr pl sg p.
Proof. apply Jws_VerifySignature_spec. Qed.

(** ** Signing and verifying *)

(** What the caller may put into the header. *)
Definition headers_ok (h : jmap) : Prop :=
  NoDup h.*1 ∧ Forall valid_text h.*1 ∧ Forall (λ kv, fits (Json.maxNestingDepth - 1) kv.2 = true) h ∧
  Json.numbers_ok (JObj h) = true.

Lemma foldl_map_set {B} (h acc : list (bytes * B)) : NoDup (acc.*1 ++ h.*1) →
  foldl (λ acc kv, Json.map_set kv.1 kv.2 acc) acc h = acc ++ h.
Proof.
  revert acc. induction h as [|[k v] h IH]; intros acc Hnd; cbn [foldl]; [by rewrite app_nil_r|].
  cbn [fst snd]. rewrite map_set_fresh.
  - rewrite IH; [by rewrite <- app_assoc|]. rewrite fmap_app, fmap_cons, <- app_assoc. exact Hnd.
  - apply NoDup_app in Hnd as (_ & Hn & _). intros Hk. apply (Hn _ Hk). rewrite fmap_cons. by left.
Qed.

Lemma sign_header_eq opts : str_bytes "alg" ∉ (Headers opts).*1 → NoDup (Headers opts).*1 →
  sign_header opts = (str_bytes "alg", JStr (SAlgorithm opts)) :: Headers opts.
Proof. intros Ha Hnd. unfold sign_header. rewrite foldl_map_set; [done|]. by constructor. Qed.

(** The text of the header map is a header under the algorithm in it. *)
Lemma sign_header_protected opts : headers_ok (Headers opts) →
  str_bytes "alg" ∉ (Headers opts).*1 → str_bytes "crit" ∉ (Headers opts).*1 → SAlgorithm opts = str_bytes "ES256K" →
  protected_header (Json.marshal (JObj (sign_header opts))) (str_bytes "ES256K").
Proof.
  intros (Hnd & Hv & Hf & Hn) Ha Hc Halg. rewrite sign_header_eq, Halg by done. set (m := _ :: Headers opts).
  assert (NoDup m.*1) as Hndm by (unfold m; rewrite fmap_cons; by constructor).
  assert (Forall valid_text m.*1) as Hvm.
  { unfold m. rewrite fmap_cons. constructor; [vm_compute; reflexivity|done]. }
  assert (fits Json.maxNestingDepth (JObj m) = true) as Hfm.
  { cbn [fits]. apply andb_true_iff. split; [done|]. unfold m. cbn [forallb snd fits andb].
    rewrite forallb_forall. rewrite list.Forall_forall in Hf. intros x Hx. apply Hf. by apply list_elem_of_In. }
  assert (Json.numbers_ok (JObj m) = true) as Hnm by exact Hn.
  destruct (unmarshal_map_marshal m Hndm Hvm Hfm Hnm) as (m' & Hu & Hnd' & Hp).
  apply protected_header_iff. exists m'. split.
  - unfold parse_header. rewrite (check_marshal m Hndm Hvm Hfm Hnm). cbn [wrap_err mbind outcome_bind]. rewrite Hu. done.
  - assert (∀ k, Jwk.member m' k = decoded <$> Jwk.member m k) as Hk by (intros k; by apply unmarshal_lookup).
    apply header_alg_iff. rewrite !Hk. split_and!; [|vm_compute; reflexivity|by vm_compute].
    assert (Jwk.member m "crit" = None) as ->; [|done]. apply lookup_None. unfold m. rewrite fmap_cons, elem_of_cons.
    intros [Hx|Hx]; [|done]. by apply str_bytes_inj in Hx.
Qed.

Lemma Sign_compact (HK : keys_correct) pl k pub opts token : publicKeyForPrivateKey k = Ok pub →
  headers_ok (Headers opts) → SAlgorithm opts = str_bytes "ES256K" →
  Sign pl (APrivate k) opts = Ok token →
  ∃ hdr sg, token = compact hdr pl sg ∧ protected_header hdr (str_bytes "ES256K") ∧
    AlgorithmForPublicKey pub = Ok AlgorithmES256K ∧ Verify AlgorithmES256K pub sg (signing_input hdr pl) = Ok true.
Proof.
  intros Hpub Hh Halg. unfold Sign. rewrite Halg.
  change (bool_decide (str_bytes "ES256K" = [])) with false. change (bool_decide (str_bytes "ES256K" = str_bytes "none")) with false.
  destruct (existsb _ (Headers opts)) eqn:Hex; [done|]. change (bool_decide (str_bytes "ES256K" = str_bytes "ES256K")) with true.
  cbv iota. unfold signSecp256k1. rewrite Halg. change (for_jose (str_bytes "ES256K")) with (Some AlgorithmES256K). cbv iota.
  assert (∀ k, (k = str_bytes "alg" ∨ k = str_bytes "crit") → k ∉ (Headers opts).*1) as Hno.
  { intros n Hn (kv & -> & Hin)%list_elem_of_fmap. apply not_true_iff_false in Hex. apply Hex. apply existsb_exists.
    exists kv. split; [by apply list_elem_of_In|]. rewrite orb_true_iff, !bytes_eqb_eq. done. }
  intros (sg & Hs%wrap_err_Ok & [= <-])%bind_Ok.
  destruct (Sign_verifies HK AlgorithmES256K k pub _ sg Hpub Hs) as [Hp Hv].
  eexists _, sg. split_and!; [|apply sign_header_protected; [done|apply Hno; by left|apply Hno; by right|done]|done|exact Hv].
  unfold compact. by rewrite <- app_assoc.
Qed.

(** A token made by [Sign] with a secp256k1 key verifies under its public key, whatever
    the payload and the additional headers, and gives the payload back. *)
Theorem VerifySignature_Sign (HK : keys_correct) pl k pub opts vopts token : publicKeyForPrivateKey k = Ok pub →
  headers_ok (Headers opts) → SAlgorithm opts = str_bytes "ES256K" → pinned vopts AlgorithmES256K →
  Sign pl (APrivate k) opts = Ok token → VerifySignature token (Some pub) vopts = Ok pl.
Proof.
  intros Hpub Hh Halg Hpin Hs. destruct (Sign_compact HK pl k pub opts token Hpub Hh Halg Hs) as (hdr & sg & Ht & Hp & Ha & Hv).
  apply Jws_VerifySignature_spec. exists pub, AlgorithmES256K, hdr, pl, sg. by split_and!.
Qed.
End Tokens.

(** ** Claim checks *)

Section Claims.
Context `{A : Arch}.

(** A time claim that is absent, or a number on the right side of [now]. *)
Definition time_ok (claims : jmap) (name : string) (P : Z → Prop) : Prop :=
  ∀ v, Jwk.member claims name = Some v → ∃ f, GoFloat.float64 v = Some f ∧ P (GoFloat.int64 f).

Lemma time_claim_ok claims now name late sentinel : time_claim claims now name late sentinel = Ok tt ↔
  time_ok claims name (λ t, if late then now < t else t ≤ now).
Proof.
  unfold time_claim, time_ok. destruct (Jwk.member claims name) as [v|]; [|naive_solver].
  destruct (GoFloat.float64 v) as [f|] eqn:Ef; [|split; [done|intros Hv; destruct (Hv v eq_refl) as (f & E & _); congruence]].
  cbv zeta. destruct late.
  - destruct (Z.leb_spec (GoFloat.int64 f) now); split; try done.
    + intros Hv. destruct (Hv v eq_refl) as (g & E & Hg). assert (g = f) as -> by congruence. lia.
    + intros _ w [= <-]. eauto.
  - destruct (Z.ltb_spec now (GoFloat.int64 f)); split; try done.
    + intros Hv. destruct (Hv v eq_refl) as (g & E & Hg). assert (g = f) as -> by congruence. lia.
    + intros _ w [= <-]. eauto.
Qed.

(** The "aud" claim holds one of the expected values. *)
Definition audience_ok (claims : jmap) (expected : list bytes) : Prop :=
  ∃ want, want ∈ expected ∧ (Jwk.member claims "aud" = Some (JStr want) ∨
    ∃ l, Jwk.member claims "aud" = Some (JArr (JStr <$> l)) ∧ want ∈ l).

Lemma strings_of_iff l ss : strings_of l = Some ss ↔ l = JStr <$> ss.
Proof.
  revert ss. induction l as [|v l IH]; intros ss; cbn [strings_of]; [destruct ss; naive_solver|].
  destruct v; try (split; [done|by destruct ss]). destruct (strings_of l) as [k|].
  - cbn. split; [intros [= <-]; cbn; f_equal; by apply IH|]. destruct ss as [|t ss]; [done|]. cbn. intros [= -> E].
    apply IH in E. by simplify_eq.
  - cbn. split; [done|]. destruct ss as [|t ss]; [done|]. cbn. intros [= -> E]. by apply IH in E.
Qed.

Lemma audienceContains_iff claims expected :
  audienceContains (Jwk.member claims "aud") expected = true ↔ audience_ok claims expected.
Proof.
  unfold audienceContains, audience_ok.
  assert (∀ auds, existsb (λ want, existsb (λ got, bytes_eqb got want) auds) expected = true ↔
    ∃ want, want ∈ expected ∧ want ∈ auds) as Hex.
  { intros auds. rewrite existsb_exists. setoid_rewrite existsb_exists. setoid_rewrite bytes_eqb_eq.
    setoid_rewrite <- list_elem_of_In. naive_solver. }
  destruct (Jwk.member claims "aud") as [[| | |s|l|]|]; try (split; [done|naive_solver]).
  - rewrite Hex. setoid_rewrite list_elem_of_singleton. naive_solver.
  - destruct (strings_of l) as [ss|] eqn:E.
    + apply strings_of_iff in E as ->. rewrite Hex. split.
      * intros (w & H1 & H2). exists w. split; [done|]. right. eauto.
      * intros (w & H1 & [?|(k & [= E] & H2)]); [done|]. assert (ss = k) as -> by (revert E; apply list_fmap_eq_inj; by intros ?? [= ->]). eauto.
    + split; [done|]. intros (w & _ & [?|(k & [= ->] & _)]); [done|]. by rewrite (proj2 (strings_of_iff _ k)) in E.
Qed.

(** Claims are accepted exactly when the time claims that are present are numbers on the
    right side of the clock and the requested issuer and audience are there; a payload
    that is no object passes only if nothing was requested. *)
Theorem checkClaims_iff payload opts now : checkClaims payload opts now = Ok tt ↔
  match Json.unmarshal_map payload with
  | Ok (Some claims) =>
      time_ok claims "exp" (λ t, now < t) ∧ time_ok claims "nbf" (λ t, t ≤ now) ∧ time_ok claims "iat" (λ t, t ≤ now) ∧
      (ExpectedIssuer opts ≠ [] → Jwk.member claims "iss" = Some (JStr (ExpectedIssuer opts))) ∧
      (ExpectedAudience opts ≠ [] → audience_ok claims (ExpectedAudience opts))
  | _ => ExpectedIssuer opts = [] ∧ ExpectedAudience opts = []
  end.
Proof.
  unfold checkClaims. assert (claims_requested opts = false ↔ ExpectedIssuer opts = [] ∧ ExpectedAudience opts = []) as Hr.
  { unfold claims_requested. rewrite orb_false_iff, negb_false_iff, bool_decide_eq_true. f_equiv.
    destruct (ExpectedAudience opts); [done|]. split; [|done]. rewrite Z.ltb_ge. cbn. lia. }
  destruct (Json.unmarshal_map payload) as [[claims|]|e| |];
    try (rewrite <- Hr; by destruct (claims_requested opts)).
  transitivity (time_claim claims now "exp" true ErrExpired = Ok tt ∧ time_claim claims now "nbf" false ErrNotYetValid = Ok tt ∧
    time_claim claims now "iat" false ErrNotYetValid = Ok tt ∧
    (ExpectedIssuer opts ≠ [] → Jwk.member claims "iss" = Some (JStr (ExpectedIssuer opts))) ∧
    (ExpectedAudience opts ≠ [] → audience_ok claims (ExpectedAudience opts))).
  2: { by rewrite !time_claim_ok. }
  rewrite !bind_Ok. split.
  - intros ([] & H1 & ([] & H2 & ([] & H3 & ([] & H4 & H5)%bind_Ok)%bind_Ok)%bind_Ok). split_and!; [done..| |].
    + intros Hi. rewrite bool_decide_eq_false_2 in H4 by done. cbn [negb] in H4.
      destruct (Jwk.member claims "iss") as [[| | |s| |]|]; try done. destruct (bytes_eqb s _) eqn:E; [|done].
      by apply bytes_eqb_eq in E as ->.
    + intros Ha. apply audienceContains_iff. destruct (0 <? zlen (ExpectedAudience opts)) eqn:El.
      * by destruct (audienceContains _ _).
      * apply Z.ltb_ge in El. destruct (ExpectedAudience opts); [done|]. cbn in El. lia.
  - intros (H1 & H2 & H3 & H4 & H5). exists tt. split; [done|]. rewrite H2, H3. cbn [mbind outcome_bind].
    case_bool_decide as Hi; cbn [negb mbind outcome_bind].
    + destruct (0 <? zlen (ExpectedAudience opts)) eqn:El; [|done]. apply Z.ltb_lt in El.
      rewrite (proj2 (audienceContains_iff _ _)); [done|]. apply H5. by intros E; rewrite E in El.
    + rewrite H4 by done. rewrite (proj2 (bytes_eqb_eq _ _)) by done. cbn [mbind outcome_bind].
      destruct (0 <? zlen (ExpectedAudience opts)) eqn:El; [|done]. apply Z.ltb_lt in El.
      rewrite (proj2 (audienceContains_iff _ _)); [done|]. apply H5. by intros E; rewrite E in El.
Qed.
End Claims.

(** ** ECDSA signature forms *)

Lemma parse_nonneg n : 0 ≤ n → parseBigInt (int_content n) = Some n.
Proof. intros Hn. destruct (decide (n = 0)) as [->|]; [reflexivity|]. apply parseBigInt_content. lia. Qed.

Lemma int_content_short n k : 0 ≤ n < 256 ^ Z.of_nat k → (length (int_content n) ≤ S k)%nat.
Proof. intros Hn. destruct (decide (n = 0)) as [->|]; [cbn; lia|]. apply int_content_length. lia. Qed.

(** The fixed-width form survives the way through DER. *)
Theorem derToFixed_fixedToDer fixed size : length fixed = (2 * size)%nat → (size ≤ 66)%nat →
  ∃ der, fixedToDer fixed size = Ok der ∧ derToFixed der size = Ok fixed.
Proof.
  intros Hl Hs. unfold fixedToDer. rewrite (proj2 (Nat.eqb_eq _ _) Hl). cbn [negb]. eexists. split; [reflexivity|].
  assert (∀ b, length b = size → 0 ≤ be_value b < 256 ^ Z.of_nat size) as Hr by (intros b <-; apply be_value_range).
  assert (length (take size fixed) = size ∧ length (drop size fixed) = size) as [Ht Hd] by (rewrite length_take, length_drop; lia).
  pose proof (Hr _ Ht) as Hrt. pose proof (Hr _ Hd) as Hrd.
  pose proof (int_content_short _ _ Hrt) as Ht'. pose proof (int_content_short _ _ Hrd) as Hd'.
  assert (∀ n, (length (int_content n) ≤ S size)%nat → (length (encode_int n) ≤ 100)%nat) as He.
  { intros n Hn. unfold encode_int, element, encode_length. rewrite (proj2 (Z.ltb_lt _ 128)) by lia. cbn. lia. }
  pose proof (He _ Ht') as Ht2. pose proof (He _ Hd') as Hd2.
  unfold derToFixed, unmarshal_pair. rewrite <- (app_nil_r (sequence _)), parse_sequence_encode by (rewrite length_app; lia).
  cbn [mbind option_bind fst snd]. rewrite parse_int_encode by lia. cbn [mbind option_bind fst snd].
  rewrite parse_nonneg by lia. cbn [mbind option_bind]. rewrite <- (app_nil_r (encode_int (be_value (drop size fixed)))).
  rewrite parse_int_encode by lia. cbn [mbind option_bind fst snd]. rewrite parse_nonneg by lia. cbn [mbind option_bind].
  assert (∀ b, length b = size → fill_bytes (E := error) size (be_value b) = Ok b) as Hf.
  { intros b Hb. specialize (Hr b Hb). unfold fill_bytes. rewrite (proj2 (Z.leb_le _ _)); [|apply BitLen_le; [lia|]].
    - rewrite Z.abs_eq by lia. rewrite <- Hb. by rewrite be_bytes_value.
    - rewrite Z.abs_eq by lia. replace (2 ^ (8 * Z.of_nat size)) with (256 ^ Z.of_nat size); [lia|].
      change 256 with (2 ^ 8). rewrite <- Z.pow_mul_r by lia. done. }
  rewrite !Hf by done. cbn [mbind outcome_bind]. by rewrite take_drop.
Qed.

(** ** Witnesses *)

Module JwsToy.
#[export] Instance jws : JwsLib := {| jwa_known _ := true; jws_sign _ _ _ _ := None; jws_verify _ _ _ := None |}.
#[export] Instance arch : Arch := λ _, - 2 ^ 63.
Definition key : PrivateKey := Secp256k1Priv [x07].
Definition opts : SignOptions := MkSign (str_bytes "ES256K") [(str_bytes "kid", JStr (str_bytes "k1"))].
Definition vopts : VerifyOptions := MkVerify (str_bytes "ES256K") [] [].
Definition token : bytes := match Sign [x01; x02] (APrivate key) opts with Ok t => t | _ => [] end.
End JwsToy.

Lemma VerifySignature_Sign_witness :
  VerifySignature (J := JwsToy.jws) JwsToy.token (Some (Secp256k1Pub [x07])) JwsToy.vopts = Ok [x01; x02].
Proof.
  apply (VerifySignature_Sign (J := JwsToy.jws) toy_keys_correct [x01; x02] JwsToy.key (Secp256k1Pub [x07]) JwsToy.opts).
  - reflexivity.
  - split_and!; [apply (bool_decide_unpack _); vm_compute; exact I|repeat constructor..|reflexivity].
  - reflexivity.
  - right. reflexivity.
  - vm_compute. reflexivity.
Defined.

Lemma derToFixed_fixedToDer_witness : ∃ der,
  fixedToDer (replicate 31 x00 ++ [x05] ++ replicate 32 xff) 32 = Ok der ∧
  derToFixed der 32 = Ok (replicate 31 x00 ++ [x05] ++ replicate 32 xff).
Proof. apply derToFixed_fixedToDer; [reflexivity|lia]. Defined.
