(* ===== verification/JwtClaims.v ===== *)
(** * The [auth/claims] package: JWT claims

    A translation of src/auth/claims/claims.go.  The record [Claims] is the one OAuth.v
    issues access tokens with; the instance at the end is the [ClaimSigner] it is
    proved against.  The clock ([opts.Now] or [time.Now]) is an argument. *)
From Stdlib Require Import SpecFloat.
From S2P Require Import Prelude Sha256 GoBig Canonical Signature Secp256k1 Binder Base64 Json GoFloat DidPkh Jwk JwkText Jws OAuth.
Import Canonical Signature.
#[local] Open Scope Z_scope.

Module JwtClaims.

Inductive error : Type :=
| ErrMalformedJWT
| ErrExpired
| ErrNotYetValid
| ErrIssuer
| ErrAudience
| ErrInvalid
| ErrAlgNone
| ErrAlgNotAllowed
| ErrReservedClaim
| ErrMissingRequiredClaim
| JwsErr (e : Jws.error)
| SignatureErr (e : Signature.error)
| KeyErr (e : Jwk.error).

Definition reservedClaims : list bytes :=
  str_bytes <$> ["iss"; "sub"; "aud"; "exp"; "nbf"; "iat"; "jti"]%string.
Definition reserved (k : bytes) : bool := bool_decide (k ∈ reservedClaims).

Definition zero_claims : Claims := MkClaims [] [] [] 0 0 0 [] [].

Section Codec.
Context `{A : Arch}.

(** ** UnmarshalJSON *)

(** A string member replaces the field, anything else leaves it. *)
Definition string_field (raw : jmap) (name : string) (old : bytes) : bytes :=
  match Jwk.member raw name with Some (JStr s) => s | _ => old end.

Definition number_field (raw : jmap) (name : string) (old : Z) : Z :=
  match Jwk.member raw name with
  | Some v => match GoFloat.float64 v with Some f => GoFloat.int64 f | None => old end
  | None => old
  end.

Definition audience_field (raw : jmap) (old : list bytes) : list bytes :=
  match Jwk.member raw "aud" with
  | Some (JStr aud) => [aud]
  | Some (JArr l) => omap (λ item, match item with JStr s => Some s | _ => None end) l
  | _ => old
  end.

Definition UnmarshalJSON (c : Claims) (data : bytes) : outcome error Claims :=
  raw ← wrap_err (λ _, ErrInvalid) (Json.unmarshal_map data);
  let raw := default [] raw in
  let extra := filter (λ kv, reserved kv.1 = false) raw in
  Ok (MkClaims (string_field raw "iss" (Issuer c)) (string_field raw "sub" (Subject c)) (audience_field raw (Audience c))
        (number_field raw "exp" (ExpiresAt c)) (number_field raw "nbf" (NotBefore c)) (number_field raw "iat" (IssuedAt c))
        (string_field raw "jti" (ID c)) (match extra with [] => Extra c | _ => extra end)).

(** ** MarshalJSON *)

Definition Validate (c : Claims) : outcome error unit :=
  if existsb (λ kv, reserved kv.1) (Extra c) then Err ErrReservedClaim else Ok tt.

Definition set_if (b : bool) (name : string) (v : json) : jmap := if b then [(str_bytes name, v)] else [].

(** One audience is written as a string, several as an array. *)
Definition audience_json (l : list bytes) : json :=
  match l with [a] => JStr a | _ => JArr (JStr <$> l) end.

(** The members of the fields that are not zero. *)
Definition field_members (c : Claims) : jmap :=
  set_if (negb (bool_decide (Issuer c = []))) "iss" (JStr (Issuer c)) ++
  set_if (negb (bool_decide (Subject c = []))) "sub" (JStr (Subject c)) ++
  set_if (0 <? zlen (Audience c)) "aud" (audience_json (Audience c)) ++
  set_if (negb (ExpiresAt c =? 0)) "exp" (jint (ExpiresAt c)) ++
  set_if (negb (NotBefore c =? 0)) "nbf" (jint (NotBefore c)) ++
  set_if (negb (IssuedAt c =? 0)) "iat" (jint (IssuedAt c)) ++
  set_if (negb (bool_decide (ID c = []))) "jti" (JStr (ID c)).

Definition MarshalJSON (c : Claims) : outcome error bytes :=
  if existsb (λ kv, reserved kv.1) (Extra c) then Err ErrReservedClaim
  else Ok (Json.marshal (JObj (foldl (λ m kv, Json.map_set kv.1 kv.2 m) (field_members c) (Extra c)))).

End Codec.

(** ** Options *)

Record Options : Type := MkOptions {
  Algorithm : bytes;
  AllowedAlgorithms : list bytes;
  ExpectedIssuer : bytes;
  ExpectedAudience : list bytes;
  RequiredClaims : list bytes;
  Headers : jmap
}.

Definition algAllowed (alg : bytes) (allowed : list bytes) : bool := existsb (λ a, bytes_eqb a alg) allowed.

(** [len(allowed) > 0 && !algAllowed(alg, allowed)]. *)
Definition not_allowed (alg : bytes) (allowed : list bytes) : bool := (0 <? zlen allowed) && negb (algAllowed alg allowed).

Definition claimPresent (c : Claims) (name : bytes) : bool :=
  if bool_decide (name = str_bytes "iss") then negb (bool_decide (Issuer c = []))
  else if bool_decide (name = str_bytes "sub") then negb (bool_decide (Subject c = []))
  else if bool_decide (name = str_bytes "aud") then 0 <? zlen (Audience c)
  else if bool_decide (name = str_bytes "exp") then negb (ExpiresAt c =? 0)
  else if bool_decide (name = str_bytes "nbf") then negb (NotBefore c =? 0)
  else if bool_decide (name = str_bytes "iat") then negb (IssuedAt c =? 0)
  else if bool_decide (name = str_bytes "jti") then negb (bool_decide (ID c = []))
  else bool_decide (is_Some (Json.lookup name (Extra c))).

Definition checkRequiredClaims (c : Claims) (required : list bytes) : outcome error unit :=
  if forallb (claimPresent c) required then Ok tt else Err ErrMissingRequiredClaim.

Definition audienceContains (audience expected : list bytes) : bool :=
  existsb (λ want, existsb (λ got, bytes_eqb got want) audience) expected.

(** The "alg" of the header, [""] if it is no string; the segment is decoded leniently. *)
Definition tokenAlgorithm (token : bytes) : outcome error bytes :=
  match Jws.IndexByte token x2e with
  | None => Err ErrMalformedJWT
  | Some dot =>
      if negb (DidPkh.Count token x2e =? 2) then Err ErrMalformedJWT
      else
        match Binder.decode_rawurl (take dot token) with
        | None => Err ErrMalformedJWT
        | Some headerJSON =>
            header ← wrap_err (λ _, ErrMalformedJWT) (Json.unmarshal_map headerJSON);
            Ok (Jwk.optString (default [] header) "alg")
        end
  end.

Section Operations.
Context `{K : KeyOps, H : Hasher, J : JwsLib, X : Jwx, D : Dcrd, C : Curves, A : Arch}.

Definition Sign (c : Claims) (privateKey : Jws.AnyKey) (opts : Options) : outcome error bytes :=
  _ ← Validate c;
  if bool_decide (Algorithm opts = str_bytes "none") then Err ErrAlgNone
  else if negb (bool_decide (Algorithm opts = [])) && not_allowed (Algorithm opts) (AllowedAlgorithms opts)
  then Err ErrAlgNotAllowed
  else
    payload ← MarshalJSON c;
    alg ← (if bool_decide (Algorithm opts = []) then
             match privateKey with
             | Jws.APrivate k => a ← wrap_err SignatureErr (AlgorithmForPrivateKey k); Ok (Jws.JOSE_bytes a)
             | Jws.APublic _ => Err (SignatureErr Signature.ErrUnsupportedAlgorithm)
             end
           else Ok (Algorithm opts));
    if not_allowed alg (AllowedAlgorithms opts) then Err ErrAlgNotAllowed
    else wrap_err JwsErr (Jws.Sign payload privateKey (Jws.MkSign alg (Headers opts))).

Definition Verify (token : bytes) (publicKey : option PublicKey) (opts : Options) (unixNow : Z) : outcome error Claims :=
  alg ← tokenAlgorithm token;
  if bool_decide (alg = str_bytes "none") then Err ErrAlgNone
  else if not_allowed alg (AllowedAlgorithms opts) then Err ErrAlgNotAllowed
  else
    payload ← wrap_err JwsErr (Jws.VerifySignature token publicKey (Jws.MkVerify (Algorithm opts) [] []));
    claims ← wrap_err (λ _, ErrInvalid) (UnmarshalJSON zero_claims payload);
    if negb (ExpiresAt claims =? 0) && (ExpiresAt claims <=? unixNow) then Err ErrExpired
    else if negb (NotBefore claims =? 0) && (unixNow <? NotBefore claims) then Err ErrNotYetValid
    else if negb (IssuedAt claims =? 0) && (unixNow <? IssuedAt claims) then Err ErrNotYetValid
    else if negb (bool_decide (ExpectedIssuer opts = [])) && negb (bytes_eqb (Issuer claims) (ExpectedIssuer opts))
    then Err ErrIssuer
    else if (0 <? zlen (ExpectedAudience opts)) && negb (audienceContains (Audience claims) (ExpectedAudience opts))
    then Err ErrAudience
    else
      _ ← checkRequiredClaims claims (RequiredClaims opts);
      _ ← Validate claims;
      Ok claims.

Definition VerifyWithJWK (token jwk : bytes) (opts : Options) (unixNow : Z) : outcome error Claims :=
  key ← wrap_err KeyErr (JwkText.PublicFromJWK jwk);
  Verify token (Some key) opts unixNow.

(** What OAuth.v calls: [Sign] with the algorithm of the key pinned. *)
#[export] Instance claim_signer : ClaimSigner := λ c k alg,
  match Sign c (Jws.APrivate k) (MkOptions (str_bytes alg) [] [] [] [] []) with
  | Ok token => Some token
  | _ => None
  end.
End Operations.
End JwtClaims.
