(* ===== verification/JwtClaimsProofs.v ===== *)
(** * Properties of [auth/claims] *)
From Stdlib Require Import SpecFloat.
From S2P Require Import Prelude Sha256 GoBig Canonical CanonicalProofs CanonicalInjective Signature SignatureProofs Secp256k1 Binder Base64 Json JsonProofs GoFloat DidPkh Jwk JwkText Jws JwsProofs OAuth JwtClaims.
Import Canonical Signature JwtClaims.
#[local] Open Scope Z_scope.
#[local] Arguments str_bytes : simpl never.

(** Decide the comparisons of member names. *)
Ltac names :=
  repeat match goal with
  | |- context [bytes_eqb (str_bytes ?a) (str_bytes ?b)] =>
      let r := eval vm_compute in (bytes_eqb (str_bytes a) (str_bytes b)) in
      change (bytes_eqb (str_bytes a) (str_bytes b)) with r
  end; rewrite ?andb_false_r, ?andb_true_r.

Lemma filter_keeps {B} (P : B → Prop) `{!∀ x, Decision (P x)} l : Forall P l → filter P l = l.
Proof. induction 1 as [|x l Hx _ IH]; [done|]. by rewrite filter_cons_True, IH. Qed.

Lemma filter_drops {B} (P : B → Prop) `{!∀ x, Decision (P x)} l : Forall (λ x, ¬ P x) l → filter P l = [].
Proof. induction 1 as [|x l Hx _ IH]; [done|]. by rewrite filter_cons_False, IH. Qed.

(** ** The claims that survive JSON *)

Record claims_ok (c : Claims) : Prop := {
  ok_text : valid_text (Issuer c) ∧ valid_text (Subject c) ∧ valid_text (ID c) ∧ Forall valid_text (Audience c);
  ok_times : Z.abs (ExpiresAt c) ≤ 2 ^ 53 ∧ Z.abs (NotBefore c) ≤ 2 ^ 53 ∧ Z.abs (IssuedAt c) ≤ 2 ^ 53;
  ok_names : NoDup (Extra c).*1 ∧ Forall valid_text (Extra c).*1;
  ok_reserved : Forall (λ kv, reserved kv.1 = false) (Extra c);
  ok_values : Forall (λ kv, fits (Json.maxNestingDepth - 1) kv.2 = true) (Extra c) ∧ Json.numbers_ok (JObj (Extra c)) = true
}.

(** The same claims, the custom ones as they are decoded and in any order. *)
Definition same_claims (c c' : Claims) : Prop :=
  Issuer c' = Issuer c ∧ Subject c' = Subject c ∧ Audience c' = Audience c ∧ ExpiresAt c' = ExpiresAt c ∧
  NotBefore c' = NotBefore c ∧ IssuedAt c' = IssuedAt c ∧ ID c' = ID c ∧
  Extra c' ≡ₚ (prod_map id decoded <$> Extra c).

Lemma reserved_name s : reserved (str_bytes s) = false →
  s ≠ "iss"%string ∧ s ≠ "sub"%string ∧ s ≠ "aud"%string ∧ s ≠ "exp"%string ∧ s ≠ "nbf"%string ∧ s ≠ "iat"%string ∧ s ≠ "jti"%string.
Proof. intros Hr. split_and!; intros ->; vm_compute in Hr; discriminate. Qed.

(** ** The members of the fields *)

Lemma set_if_names b name v : (set_if b name v).*1 = if b then [str_bytes name] else [].
Proof. by destruct b. Qed.

Lemma field_names c : NoDup (field_members c).*1 ∧ Forall (λ k, reserved k = true ∧ valid_text k) (field_members c).*1.
Proof.
  unfold field_members. rewrite !fmap_app, !set_if_names.
  repeat match goal with |- context [if ?b then [str_bytes _] else []] => destruct b end;
    (split; [apply (bool_decide_unpack _); vm_compute; exact I|repeat constructor; vm_compute; reflexivity]).
Qed.

Lemma lookup_set_if k b name v rest : Json.lookup k (set_if b name v ++ rest) =
  if b && bytes_eqb (str_bytes name) k then Some v else Json.lookup k rest.
Proof. destruct b; [|done]. unfold Json.lookup. cbn. by destruct (bytes_eqb (str_bytes name) k). Qed.

Lemma lookup_extra c k : claims_ok c → reserved k = true → Json.lookup k (Extra c) = None.
Proof.
  intros Hc Hk. apply lookup_None. intros ([k' v] & -> & Hin)%list_elem_of_fmap.
  pose proof (ok_reserved c Hc) as Hr. rewrite list.Forall_forall in Hr. specialize (Hr _ Hin). cbn in *. congruence.
Qed.

(** The map [MarshalJSON] fills. *)
Definition claim_map (c : Claims) : jmap := field_members c ++ Extra c.

Lemma claim_map_names c : claims_ok c → NoDup (claim_map c).*1 ∧ Forall valid_text (claim_map c).*1.
Proof.
  intros Hc. destruct (field_names c) as [Hnd Hf]. destruct (ok_names c Hc) as [Hne Hve]. unfold claim_map. rewrite fmap_app.
  split.
  - apply NoDup_app. split_and!; [done| |done]. intros k Hk Hin. rewrite list.Forall_forall in Hf. apply Hf in Hk as [Hk _].
    apply list_elem_of_fmap in Hin as ([k' v] & -> & Hin). pose proof (ok_reserved c Hc) as Hr.
    rewrite list.Forall_forall in Hr. specialize (Hr _ Hin). cbn in *. congruence.
  - apply Forall_app. split; [|done]. eapply Forall_impl; [exact Hf|]. by intros k [].
Qed.

Lemma lookup_claim_map c name : claims_ok c → reserved (str_bytes name) = true →
  Jwk.member (claim_map c) name = Json.lookup (str_bytes name) (field_members c ++ []).
Proof.
  intros Hc Hr. change (Jwk.member (claim_map c) name) with (Json.lookup (str_bytes name) (claim_map c)).
  unfold claim_map, field_members. rewrite <- !app_assoc, !lookup_set_if. cbn [app].
  rewrite (lookup_extra c _ Hc Hr). done.
Qed.

Ltac member_of :=
  rewrite lookup_claim_map by (done || vm_compute; reflexivity); unfold field_members; rewrite <- !app_assoc, !lookup_set_if; names.

Lemma set_if_fits b name v n : (b = true → fits n v = true ∧ Json.numbers_ok v = true) →
  forallb (λ kv, fits n kv.2) (set_if b name v) = true ∧ forallb (λ kv, Json.numbers_ok kv.2) (set_if b name v) = true.
Proof. intros Hv. destruct b; cbn; [|done]. by destruct Hv as [-> ->]. Qed.

Lemma jint_ok z n : Z.abs z ≤ 2 ^ 53 → fits n (jint z) = true ∧ Json.numbers_ok (jint z) = true.
Proof.
  intros Hz. split.
  - cbn. apply bool_decide_eq_true. apply jint_text. lia.
  - destruct (int64_jint (H := λ _, 0) z Hz) as (f & Hf & Hfin & _). cbn in *. by rewrite Hf.
Qed.

Lemma strings_fit n (l : list bytes) : 1 ≤ n → fits n (JArr (JStr <$> l)) = true ∧ Json.numbers_ok (JArr (JStr <$> l)) = true.
Proof.
  intros Hn. cbn. rewrite (proj2 (Z.leb_le _ _)) by done. cbn. split; induction l; done.
Qed.

Lemma audience_fits n l : 1 ≤ n → fits n (audience_json l) = true ∧ Json.numbers_ok (audience_json l) = true.
Proof. intros Hn. destruct l as [|a [|b l]]; [by apply (strings_fit n [])|done|by apply (strings_fit n (a :: b :: l))]. Qed.

Lemma claim_map_fits c : claims_ok c →
  fits Json.maxNestingDepth (JObj (claim_map c)) = true ∧ Json.numbers_ok (JObj (claim_map c)) = true.
Proof.
  intros Hc. destruct (ok_times c Hc) as (H1 & H2 & H3). destruct (ok_values c Hc) as [Hf Hn].
  assert (forallb (λ kv, fits (Json.maxNestingDepth - 1) kv.2) (Extra c) = true) as Hf'.
  { rewrite forallb_forall. rewrite list.Forall_forall in Hf. intros x Hx. apply Hf. by apply list_elem_of_In. }
  unfold claim_map, field_members. cbn [fits Json.numbers_ok] in *. rewrite !forallb_app.
  repeat match goal with |- context [set_if ?b ?nm ?v] =>
    let E1 := fresh in let E2 := fresh in
    destruct (set_if_fits b nm v (Json.maxNestingDepth - 1)) as [E1 E2];
    [intros _; first [by apply jint_ok|by apply audience_fits|done]|]; rewrite E1, E2;
    generalize (set_if b nm v); intros ? end.
  rewrite Hf', Hn. done.
Qed.

(** ** Round trip of the claims *)

Lemma MarshalJSON_ok c : claims_ok c → MarshalJSON c = Ok (Json.marshal (JObj (claim_map c))).
Proof.
  intros Hc. unfold MarshalJSON. assert (existsb (λ kv, reserved kv.1) (Extra c) = false) as ->.
  { apply not_true_iff_false. intros (kv & Hin & Hr)%existsb_exists. pose proof (ok_reserved c Hc) as HF.
    rewrite list.Forall_forall in HF. rewrite HF in Hr; [done|by apply list_elem_of_In]. }
  rewrite foldl_map_set; [done|]. destruct (claim_map_names c Hc) as [Hnd _]. unfold claim_map in Hnd. by rewrite fmap_app in Hnd.
Qed.

Section Codec.
Context `{A : Arch}.

Lemma string_field_set raw name (b : bool) s : Jwk.member raw name = (if b then Some (JStr s) else None) →
  (b = false → s = []) → string_field raw name [] = s.
Proof. unfold string_field. intros ->. destruct b; [done|]. intros Hs. by rewrite Hs. Qed.

Lemma number_field_set raw name (b : bool) z : Jwk.member raw name = (if b then Some (jint z) else None) →
  (b = false → z = 0) → Z.abs z ≤ 2 ^ 53 → number_field raw name 0 = z.
Proof.
  unfold number_field. intros -> Hb Hz. destruct b; [|by rewrite Hb].
  destruct (int64_jint z Hz) as (f & -> & _ & Hf). done.
Qed.

Lemma audience_field_set raw l : Jwk.member raw "aud" = (if 0 <? zlen l then Some (audience_json l) else None) →
  audience_field raw [] = l.
Proof.
  unfold audience_field. intros ->. destruct l as [|a [|b l]]; [done|done|].
  rewrite (proj2 (Z.ltb_lt _ _)) by (cbn; lia). cbn [audience_json fmap list_fmap omap list_omap]. do 2 f_equal.
  induction l as [|x l IH]; [done|]. cbn. by rewrite IH.
Qed.

Lemma decoded_audience l : Forall valid_text l → decoded (audience_json l) = audience_json l.
Proof.
  intros Hl. assert (∀ l, Forall valid_text l → decoded (JArr (JStr <$> l)) = JArr (JStr <$> l)) as Harr.
  { clear. intros l Hl. unfold decoded. cbn. f_equal. induction Hl as [|x l Hx _ IH]; [done|]. cbn. by rewrite IH, Hx. }
  destruct Hl as [|a l Ha Hl]; [done|]. destruct Hl as [|b l Hb Hl]; [by apply decoded_str|]. apply Harr. by repeat constructor.
Qed.

(** What is decoded from the written claims. *)
Lemma UnmarshalJSON_claims c : claims_ok c → ∃ c',
  UnmarshalJSON zero_claims (Json.marshal (JObj (claim_map c))) = Ok c' ∧ same_claims c c'.
Proof.
  intros Hc. destruct (claim_map_names c Hc) as [Hnd Hv]. destruct (claim_map_fits c Hc) as [Hf Hn].
  destruct (unmarshal_map_marshal _ Hnd Hv Hf Hn) as (raw & Hu & Hndr & Hp). unfold UnmarshalJSON. rewrite Hu.
  cbn [wrap_err mbind outcome_bind]. change (default [] (Some raw)) with raw. eexists. split; [reflexivity|].
  assert (∀ name, Jwk.member raw name = decoded <$> Jwk.member (claim_map c) name) as Hm
    by (intros name; by apply unmarshal_lookup).
  assert (∀ name b v, Jwk.member (claim_map c) name = (if b : bool then Some v else None) → decoded v = v →
    Jwk.member raw name = (if b then Some v else None)) as Hset.
  { intros name b v E Hd. rewrite Hm, E. destruct b; [|done]. cbn. by rewrite Hd. }
  destruct (ok_text c Hc) as (T1 & T2 & T3 & T4). destruct (ok_times c Hc) as (N1 & N2 & N3).
  unfold same_claims. cbn [Issuer Subject Audience ExpiresAt NotBefore IssuedAt ID Extra]. split_and!.
  - eapply string_field_set; [eapply Hset; [by member_of|by apply decoded_str]|].
    rewrite negb_false_iff, bool_decide_eq_true. done.
  - eapply string_field_set; [eapply Hset; [by member_of|by apply decoded_str]|].
    rewrite negb_false_iff, bool_decide_eq_true. done.
  - apply audience_field_set. apply Hset; [by member_of|by apply decoded_audience].
  - eapply number_field_set; [eapply Hset; [by member_of|done]|by rewrite negb_false_iff, Z.eqb_eq|done].
  - eapply number_field_set; [eapply Hset; [by member_of|done]|by rewrite negb_false_iff, Z.eqb_eq|done].
  - eapply number_field_set; [eapply Hset; [by member_of|done]|by rewrite negb_false_iff, Z.eqb_eq|done].
  - eapply string_field_set; [eapply Hset; [by member_of|by apply decoded_str]|].
    rewrite negb_false_iff, bool_decide_eq_true. done.
  - assert (filter (λ kv, reserved kv.1 = false) raw ≡ₚ prod_map id decoded <$> Extra c) as HE.
    { rewrite Hp. unfold claim_map. rewrite fmap_app, filter_app.
      destruct (field_names c) as [_ Hfn].
      assert (filter (λ kv : bytes * json, reserved kv.1 = false) (prod_map id decoded <$> field_members c) = []) as ->.
      { apply filter_drops, list.Forall_forall. intros [k v] Hin. rewrite list.Forall_forall in Hfn.
        apply list_elem_of_fmap in Hin as ([k' v'] & [= -> ->] & Hin). cbn.
        destruct (Hfn k') as [-> _]; [|done]. apply list_elem_of_fmap. by exists (k', v'). }
      cbn [app]. rewrite filter_keeps; [done|]. apply list.Forall_forall. intros [k v] Hin. apply list_elem_of_fmap in Hin as ([k' v'] & [= -> ->] & Hin).
      pose proof (ok_reserved c Hc) as HF. rewrite list.Forall_forall in HF. by apply (HF (k', v')). }
    destruct (filter _ raw) as [|kv l] eqn:E; [|done]. cbn. by rewrite <- HE.
Qed.
End Codec.

(** ** Verification *)

Section Tokens.
Context `{K : KeyOps, H : Hasher, J : JwsLib, X : Jwx, D : Dcrd, C : Curves, A : Arch}.

(** No registered name reaches the custom claims of a decoded token. *)
Lemma UnmarshalJSON_Validate data c : UnmarshalJSON zero_claims data = Ok c → Validate c = Ok tt.
Proof.
  unfold UnmarshalJSON. intros (raw & _ & [= <-])%bind_Ok. unfold Validate. cbn [Extra].
  assert (existsb (λ kv : bytes * json, reserved kv.1) (filter (λ kv, reserved kv.1 = false) (default [] raw)) = false) as HE.
  { apply not_true_iff_false. intros (kv & Hin & Hr)%existsb_exists. apply list_elem_of_In, list_elem_of_filter in Hin as [? _].
    congruence. }
  destruct (filter _ _) as [|kv l]; [done|]. by rewrite HE.
Qed.

(** The claims are acceptable at the time [now]. *)
Definition policy (opts : Options) (now : Z) (c : Claims) : Prop :=
  (ExpiresAt c ≠ 0 → now < ExpiresAt c) ∧ (NotBefore c ≠ 0 → NotBefore c ≤ now) ∧ (IssuedAt c ≠ 0 → IssuedAt c ≤ now) ∧
  (ExpectedIssuer opts ≠ [] → Issuer c = ExpectedIssuer opts) ∧
  (ExpectedAudience opts ≠ [] → ∃ want, want ∈ ExpectedAudience opts ∧ want ∈ Audience c) ∧
  Forall (λ name, claimPresent c name = true) (RequiredClaims opts).

Lemma zlen_pos {B} (l : list B) : (0 <? zlen l) = true ↔ l ≠ [].
Proof. rewrite Z.ltb_lt. destruct l; cbn; [split; [lia|done]|split; [done|lia]]. Qed.

Lemma audienceContains_spec audience expected : audienceContains audience expected = true ↔
  ∃ want, want ∈ expected ∧ want ∈ audience.
Proof.
  unfold audienceContains. rewrite existsb_exists. setoid_rewrite existsb_exists. setoid_rewrite bytes_eqb_eq.
  setoid_rewrite <- list_elem_of_In. naive_solver.
Qed.

Definition allowed (opts : Options) (a : bytes) : Prop := AllowedAlgorithms opts = [] ∨ a ∈ AllowedAlgorithms opts.

Lemma not_allowed_iff opts a : not_allowed a (AllowedAlgorithms opts) = false ↔ allowed opts a.
Proof.
  unfold not_allowed, allowed, algAllowed. rewrite andb_false_iff, negb_false_iff, existsb_exists.
  setoid_rewrite bytes_eqb_eq. setoid_rewrite <- list_elem_of_In. rewrite <- not_true_iff_false, zlen_pos.
  destruct (AllowedAlgorithms opts); naive_solver.
Qed.

(** The algorithm read before the signature is checked is the one of the header. *)
Lemma tokenAlgorithm_compact hdr pl sg a : protected_header hdr a → tokenAlgorithm (compact hdr pl sg) = Ok a.
Proof.
  intros (h & Hh & Ha)%protected_header_iff. unfold tokenAlgorithm. unfold compact at 1.
  rewrite IndexByte_first by apply rawurl_no_dot. rewrite compact_count. cbn [Z.eqb Pos.eqb negb].
  unfold compact. rewrite take_app_length, decode_encode_rawurl. unfold Jws.parse_header in Hh.
  apply bind_Ok in Hh as ([] & _ & (o & Ho%wrap_err_Ok & [= <-])%bind_Ok). rewrite Ho. cbn [wrap_err mbind outcome_bind].
  apply header_alg_iff in Ha as (_ & Ha & _). unfold Jwk.optString. by rewrite Ha.
Qed.

(** The checks behind the signature, in the order of the code. *)
Definition claim_checks (opts : Options) (now : Z) (claims : Claims) : outcome error Claims :=
  if negb (ExpiresAt claims =? 0) && (ExpiresAt claims <=? now) then Err ErrExpired
  else if negb (NotBefore claims =? 0) && (now <? NotBefore claims) then Err ErrNotYetValid
  else if negb (IssuedAt claims =? 0) && (now <? IssuedAt claims) then Err ErrNotYetValid
  else if negb (bool_decide (ExpectedIssuer opts = [])) && negb (bytes_eqb (Issuer claims) (ExpectedIssuer opts))
  then Err ErrIssuer
  else if (0 <? zlen (ExpectedAudience opts)) && negb (audienceContains (Audience claims) (ExpectedAudience opts))
  then Err ErrAudience
  else _ ← checkRequiredClaims claims (RequiredClaims opts); _ ← Validate claims; Ok claims.

Lemma claim_checks_iff opts now c c' : Validate c = Ok tt →
  claim_checks opts now c = Ok c' ↔ c' = c ∧ policy opts now c.
Proof.
  intros HV. unfold claim_checks, policy. split.
  - destruct (negb (ExpiresAt c =? 0) && (ExpiresAt c <=? now)) eqn:E1; [done|].
    destruct (negb (NotBefore c =? 0) && (now <? NotBefore c)) eqn:E2; [done|].
    destruct (negb (IssuedAt c =? 0) && (now <? IssuedAt c)) eqn:E3; [done|].
    destruct (negb (bool_decide (ExpectedIssuer opts = [])) && negb (bytes_eqb (Issuer c) (ExpectedIssuer opts))) eqn:E4; [done|].
    destruct ((0 <? zlen (ExpectedAudience opts)) && negb (audienceContains (Audience c) (ExpectedAudience opts))) eqn:E5; [done|].
    intros ([] & Hr & ([] & _ & [= <-])%bind_Ok)%bind_Ok. split; [done|].
    rewrite andb_false_iff, negb_false_iff, Z.eqb_eq, Z.leb_gt in E1. rewrite andb_false_iff, negb_false_iff, Z.eqb_eq, Z.ltb_ge in E2, E3.
    rewrite andb_false_iff, !negb_false_iff, bool_decide_eq_true, bytes_eqb_eq in E4.
    rewrite andb_false_iff, negb_false_iff, audienceContains_spec, <- not_true_iff_false, zlen_pos in E5.
    split_and!; try (intros; tauto). unfold checkRequiredClaims in Hr. destruct (forallb _ _) eqn:Ef; [|done].
    rewrite forallb_forall in Ef. apply list.Forall_forall. intros x Hx. apply Ef. by apply list_elem_of_In.
  - intros (-> & P1 & P2 & P3 & P4 & P5 & P6).
    assert (negb (ExpiresAt c =? 0) && (ExpiresAt c <=? now) = false) as ->.
    { rewrite andb_false_iff, negb_false_iff, Z.eqb_eq, Z.leb_gt. destruct (decide (ExpiresAt c = 0)); auto. }
    assert (negb (NotBefore c =? 0) && (now <? NotBefore c) = false) as ->.
    { rewrite andb_false_iff, negb_false_iff, Z.eqb_eq, Z.ltb_ge. destruct (decide (NotBefore c = 0)); auto. }
    assert (negb (IssuedAt c =? 0) && (now <? IssuedAt c) = false) as ->.
    { rewrite andb_false_iff, negb_false_iff, Z.eqb_eq, Z.ltb_ge. destruct (decide (IssuedAt c = 0)); auto. }
    assert (negb (bool_decide (ExpectedIssuer opts = [])) && negb (bytes_eqb (Issuer c) (ExpectedIssuer opts)) = false) as ->.
    { rewrite andb_false_iff, !negb_false_iff, bool_decide_eq_true, bytes_eqb_eq. destruct (decide (ExpectedIssuer opts = [])); auto. }
    assert ((0 <? zlen (ExpectedAudience opts)) && negb (audienceContains (Audience c) (ExpectedAudience opts)) = false) as ->.
    { rewrite andb_false_iff, negb_false_iff, audienceContains_spec, <- not_true_iff_false, zlen_pos.
      destruct (decide (ExpectedAudience opts = [])); auto. }
    unfold checkRequiredClaims. assert (forallb (claimPresent c) (RequiredClaims opts) = true) as ->.
    { rewrite forallb_forall. intros x Hx. rewrite list.Forall_forall in P6. apply P6. by apply list_elem_of_In. }
    cbn [mbind outcome_bind]. by rewrite HV.
Qed.

Definition jws_opts (opts : Options) : Jws.VerifyOptions := Jws.MkVerify (Algorithm opts) [] [].

Lemma Jwt_Verify_spec token key opts now c : Verify token key opts now = Ok c ↔
  ∃ k a pl, key = Some k ∧ AlgorithmForPublicKey k = Ok a ∧ allowed opts (Jws.JOSE_bytes a) ∧
    Jws.VerifySignature token key (jws_opts opts) = Ok pl ∧ UnmarshalJSON zero_claims pl = Ok c ∧ policy opts now c.
Proof.
  unfold Verify. split.
  - intros (al & Hal & Hv)%bind_Ok. case_bool_decide as Hn; [done|]. destruct (not_allowed al _) eqn:Hna; [done|].
    apply bind_Ok in Hv as (pl & Hs%wrap_err_Ok & (c0 & Hu%wrap_err_Ok & Hc)%bind_Ok).
    change (claim_checks opts now c0 = Ok c) in Hc. apply (claim_checks_iff opts now c0) in Hc as [-> Hp];
      [|by eapply UnmarshalJSON_Validate].
    pose proof Hs as (k & a & hdr & pl' & sg & Hk & Ha & Ht & Hh & _)%Jws_VerifySignature_spec.
    rewrite Ht, (tokenAlgorithm_compact _ _ _ _ Hh) in Hal. injection Hal as <-.
    exists k, a, pl. split_and!; try done. by apply not_allowed_iff.
  - intros (k & a & pl & Hk & Ha & Hna & Hs & Hu & Hp).
    pose proof Hs as (k' & a' & hdr & pl' & sg & Hk' & Ha' & Ht & Hh & _)%Jws_VerifySignature_spec.
    assert (k' = k) as -> by congruence. assert (a' = a) as -> by congruence.
    rewrite Ht at 1. rewrite (tokenAlgorithm_compact _ _ _ _ Hh). cbn [mbind outcome_bind].
    pose proof Hh as (m & _ & _ & _ & Hnone). rewrite bool_decide_eq_false_2 by done.
    apply not_allowed_iff in Hna. rewrite Hna. change (Jws.MkVerify (Algorithm opts) [] []) with (jws_opts opts). rewrite Hs.
    cbn [wrap_err mbind outcome_bind]. rewrite Hu. cbn [wrap_err mbind outcome_bind].
    change (claim_checks opts now c = Ok c). apply claim_checks_iff; [by eapply UnmarshalJSON_Validate|done].
Qed.

(** C29.  What [Verify] accepts: a token whose signature verifies under the key, whose
    algorithm is that of the key and allowed, and whose claims meet the policy at the
    given time.  Neither the check for "none" nor the last check on reserved names can
    be what refuses such a token. *)
Theorem Verify_iff token key opts now c : Verify token key opts now = Ok c ↔
  ∃ k a pl, key = Some k ∧ AlgorithmForPublicKey k = Ok a ∧ allowed opts (Jws.JOSE_bytes a) ∧
    Jws.VerifySignature token key (jws_opts opts) = Ok pl ∧ UnmarshalJSON zero_claims pl = Ok c ∧ policy opts now c.
Proof. apply Jwt_Verify_spec. Qed.

(** ** Signing and verifying *)

Lemma Sign_token (HK : keys_correct) c k pub opts token : claims_ok c → publicKeyForPrivateKey k = Ok pub →
  headers_ok (Headers opts) → (Algorithm opts = [] ∨ Algorithm opts = str_bytes "ES256K") →
  AlgorithmForPrivateKey k = Ok AlgorithmES256K → Sign c (Jws.APrivate k) opts = Ok token →
  ∃ hdr sg, token = compact hdr (Json.marshal (JObj (claim_map c))) sg ∧ protected_header hdr (str_bytes "ES256K") ∧
    AlgorithmForPublicKey pub = Ok AlgorithmES256K ∧
    Signature.Verify AlgorithmES256K pub sg (signing_input hdr (Json.marshal (JObj (claim_map c)))) = Ok true.
Proof.
  intros Hc Hpub Hh Halg Hk. unfold Sign. intros ([] & _ & Hs)%bind_Ok. case_bool_decide; [done|].
  destruct (_ && _) in Hs; [done|]. rewrite MarshalJSON_ok in Hs by done. cbn [mbind outcome_bind] in Hs.
  apply bind_Ok in Hs as (al & Hal & Hs). destruct (not_allowed al _); [done|]. apply wrap_err_Ok in Hs.
  assert (al = str_bytes "ES256K") as ->.
  { case_bool_decide as He; [|destruct Halg as [?|E]; [done|]; injection Hal as <-; exact E].
    rewrite Hk in Hal. cbn [wrap_err mbind outcome_bind] in Hal. injection Hal as <-. reflexivity. }
  by apply (Sign_compact HK _ k pub (Jws.MkSign (str_bytes "ES256K") (Headers opts))) in Hs.
Qed.

(** C30.  Claims signed with a secp256k1 key verify under its public key at every time the
    policy allows, and come back as they were. *)
Theorem Verify_Sign (HK : keys_correct) c k pub opts vopts now token : claims_ok c → publicKeyForPrivateKey k = Ok pub →
  headers_ok (Headers opts) → (Algorithm opts = [] ∨ Algorithm opts = str_bytes "ES256K") →
  AlgorithmForPrivateKey k = Ok AlgorithmES256K → Sign c (Jws.APrivate k) opts = Ok token →
  (Algorithm vopts = [] ∨ Algorithm vopts = str_bytes "ES256K") → allowed vopts (str_bytes "ES256K") →
  (∀ c', same_claims c c' → policy vopts now c') →
  ∃ c', Verify token (Some pub) vopts now = Ok c' ∧ same_claims c c'.
Proof.
  intros Hc Hpub Hh Halg Hk Hs Hva Hall Hpol.
  destruct (Sign_token HK c k pub opts token Hc Hpub Hh Halg Hk Hs) as (hdr & sg & Ht & Hp & Ha & Hv).
  destruct (UnmarshalJSON_claims c Hc) as (c' & Hu & Hsame). exists c'. split; [|done].
  apply Jwt_Verify_spec. exists pub, AlgorithmES256K, (Json.marshal (JObj (claim_map c))). split_and!; try done; [|by apply Hpol].
  apply Jws_VerifySignature_spec. exists pub, AlgorithmES256K, hdr, (Json.marshal (JObj (claim_map c))), sg. by split_and!.
Qed.

(** ** Expiry that is not enforced *)

(** An "exp" that is no number, or one less than 1, counts as absent. *)
Lemma exp_ignored pl raw c : Json.unmarshal_map pl = Ok (Some raw) → UnmarshalJSON zero_claims pl = Ok c →
  (∀ v f, Jwk.member raw "exp" = Some v → GoFloat.float64 v = Some f → GoFloat.int64 f = 0) → ExpiresAt c = 0.
Proof.
  intros Hr Hu He. unfold UnmarshalJSON in Hu. rewrite Hr in Hu. cbn [wrap_err mbind outcome_bind] in Hu. injection Hu as <-.
  cbn [ExpiresAt]. change (default [] (Some raw)) with raw. unfold number_field.
  destruct (Jwk.member raw "exp") as [v|] eqn:Em; [|done]. destruct (GoFloat.float64 v) as [f|] eqn:Ef; [|done]. by eapply He.
Qed.

(** Such a token, accepted once, is accepted at every later time. *)
Theorem malformed_exp_never_expires token key opts now now' pl raw c : Verify token key opts now = Ok c →
  Jws.VerifySignature token key (jws_opts opts) = Ok pl → Json.unmarshal_map pl = Ok (Some raw) →
  (∀ v f, Jwk.member raw "exp" = Some v → GoFloat.float64 v = Some f → GoFloat.int64 f = 0) → now ≤ now' →
  Verify token key opts now' = Ok c.
Proof.
  intros (k & a & pl' & Hk & Ha & Hall & Hs & Hu & P1 & P2 & P3 & P4)%Jwt_Verify_spec Hpl Hr He Hn.
  assert (pl' = pl) as -> by congruence. pose proof (exp_ignored pl raw c Hr Hu He) as E0.
  apply Jwt_Verify_spec. exists k, a, pl. do 5 (split; [done|]). split; [|split; [|split; [|done]]].
  - intros HE. by rewrite E0 in HE.
  - intros HN. specialize (P2 HN). lia.
  - intros HN. specialize (P3 HN). lia.
Qed.

(** A token that does carry an expiry is refused from then on. *)
Theorem Verify_expires token key opts now c : Verify token key opts now = Ok c → ExpiresAt c ≠ 0 →
  ∀ now', ExpiresAt c ≤ now' → ¬ is_ok (Verify token key opts now') = true.
Proof.
  intros (k & a & pl & Hk & Ha & Hall & Hs & Hu & HP)%Jwt_Verify_spec He now' Hn Hok.
  destruct (Verify token key opts now') as [c'| | |] eqn:E; try done.
  apply Jwt_Verify_spec in E as (k' & a' & pl' & _ & _ & _ & Hs' & Hu' & HP'). assert (c' = c) as -> by congruence.
  destruct HP' as [HP' _]. specialize (HP' He). lia.
Qed.

(** What the OAuth flows get from [claims.Sign]: an access token that the resource server
    verifies, with the claims it was issued for. *)
Theorem claim_signer_verifies (HK : keys_correct) c k pub token vopts now : claims_ok c →
  publicKeyForPrivateKey k = Ok pub → AlgorithmForPrivateKey k = Ok AlgorithmES256K →
  sign_claims c k (JOSE AlgorithmES256K) = Some token → (Algorithm vopts = [] ∨ Algorithm vopts = str_bytes "ES256K") →
  allowed vopts (str_bytes "ES256K") → (∀ c', same_claims c c' → policy vopts now c') →
  ∃ c', Verify token (Some pub) vopts now = Ok c' ∧ same_claims c c'.
Proof.
  intros Hc Hpub Hk Hs Hva Hall Hpol. unfold sign_claims, claim_signer in Hs.
  destruct (Sign c (Jws.APrivate k) _) as [t| | |] eqn:Et; try done. injection Hs as ->.
  destruct (Sign_token HK c k pub (MkOptions (str_bytes "ES256K") [] [] [] [] []) token Hc Hpub) as (hdr & sg & Ht & Hp & Ha & Hv);
    [split_and!; constructor|by right|done|done|].
  destruct (UnmarshalJSON_claims c Hc) as (c' & Hu & Hsame). exists c'. split; [|done].
  apply Jwt_Verify_spec. exists pub, AlgorithmES256K, (Json.marshal (JObj (claim_map c))). split_and!; try done; [|by apply Hpol].
  apply Jws_VerifySignature_spec. exists pub, AlgorithmES256K, hdr, (Json.marshal (JObj (claim_map c))), sg. by split_and!.
Qed.
End Tokens.

(** ** Witnesses *)

Module ClaimsToy.
Import JwsToy.
Definition claims : Claims :=
  MkClaims (str_bytes "issuer") (str_bytes "alice") [str_bytes "api"] 2000 0 1000 (str_bytes "t1")
    [(str_bytes "email", JStr (str_bytes "a@b"))].
Definition opts : Options := MkOptions [] [] [] [] [] [].
Definition vopts : Options :=
  MkOptions (str_bytes "ES256K") [str_bytes "ES256K"] (str_bytes "issuer") [str_bytes "api"] [str_bytes "sub"] [].
Definition pub : PublicKey := Secp256k1Pub [x07].
Definition token : bytes := match Sign claims (Jws.APrivate key) opts with Ok t => t | _ => [] end.
(** A token whose "exp" is a string. *)
Definition bad_payload : bytes := Json.marshal (JObj [(str_bytes "exp", JStr (str_bytes "1000"))]).
Definition bad_token : bytes :=
  match Jws.Sign bad_payload (Jws.APrivate key) (Jws.MkSign (str_bytes "ES256K") []) with Ok t => t | _ => [] end.

Lemma claims_are_ok : claims_ok claims.
Proof.
  split; cbn [Issuer Subject ID Audience ExpiresAt NotBefore IssuedAt Extra claims].
  - split_and!; [vm_compute; reflexivity..|]. repeat constructor.
  - lia.
  - split; [apply (bool_decide_unpack _); vm_compute; exact I|repeat constructor].
  - repeat constructor.
  - split; [repeat constructor|reflexivity].
Qed.

Lemma policy_holds c' : same_claims claims c' → policy vopts 1500 c'.
Proof.
  intros (E1 & E2 & E3 & E4 & E5 & E6 & E7 & E8). unfold policy. rewrite E1, E3, E4, E5, E6. cbn [claims vopts].
  split_and!; cbn [ExpiresAt NotBefore IssuedAt Issuer Audience ExpectedIssuer ExpectedAudience RequiredClaims]; try done; try lia.
  - intros _. exists (str_bytes "api"). split; by left.
  - repeat constructor. unfold claimPresent. rewrite E2. reflexivity.
Qed.
End ClaimsToy.

Lemma Verify_Sign_witness : ∃ c',
  Verify (J := JwsToy.jws) (A := JwsToy.arch) ClaimsToy.token (Some ClaimsToy.pub) ClaimsToy.vopts 1500 = Ok c' ∧
  same_claims ClaimsToy.claims c'.
Proof.
  apply (Verify_Sign (J := JwsToy.jws) toy_keys_correct _ JwsToy.key _ ClaimsToy.opts).
  - apply ClaimsToy.claims_are_ok.
  - reflexivity.
  - split_and!; constructor.
  - left. reflexivity.
  - reflexivity.
  - vm_compute. reflexivity.
  - right. reflexivity.
  - right. left.
  - apply ClaimsToy.policy_holds.
Defined.

Lemma malformed_exp_never_expires_witness :
  Verify (J := JwsToy.jws) (A := JwsToy.arch) ClaimsToy.bad_token (Some ClaimsToy.pub) ClaimsToy.opts (2 ^ 40) = Ok zero_claims.
Proof.
  apply (malformed_exp_never_expires (J := JwsToy.jws) _ _ _ 0 _ ClaimsToy.bad_payload [(str_bytes "exp", JStr (str_bytes "1000"))]).
  - vm_compute. reflexivity.
  - vm_compute. reflexivity.
  - vm_compute. reflexivity.
  - intros v f [= <-]. discriminate.
  - lia.
Defined.

Lemma Verify_expires_witness :
  ¬ is_ok (Verify (J := JwsToy.jws) (A := JwsToy.arch) ClaimsToy.token (Some ClaimsToy.pub) ClaimsToy.vopts 2000) = true.
Proof.
  apply (Verify_expires (J := JwsToy.jws) (A := JwsToy.arch) _ _ _ 1500 ClaimsToy.claims).
  - vm_compute. reflexivity.
  - discriminate.
  - vm_compute. discriminate.
Defined.

Lemma claim_signer_verifies_witness : ∃ c',
  Verify (J := JwsToy.jws) (A := JwsToy.arch) ClaimsToy.token (Some ClaimsToy.pub) ClaimsToy.vopts 1500 = Ok c' ∧
  same_claims ClaimsToy.claims c'.
Proof.
  apply (claim_signer_verifies (J := JwsToy.jws) toy_keys_correct _ JwsToy.key).
  - apply ClaimsToy.claims_are_ok.
  - reflexivity.
  - reflexivity.
  - vm_compute. reflexivity.
  - right. reflexivity.
  - right. left.
  - apply ClaimsToy.policy_holds.
Defined.
