(* ===== verification/RpcHttp.v ===== *)
(** * The [chain/rpc] package: the JSON-RPC client over HTTP

    A translation of src/chain/rpc/http.go and the error object of client.go.  The
    network, the deadline of a request and the context are the world: the class [Http]
    sends one request body and returns the response it gets.  The atomic request
    counter of a client is a component of the state next to the world, so that the
    instances at the end are the interfaces [Client] and [RPCClient] the chain packages
    are proved against. *)
From Stdlib Require Import SpecFloat.
From S2P Require Import Prelude GoBig GoIO Canonical Json GoJson RpcQuantity Broadcast ChainCommitment.
Import GoJson.
#[local] Open Scope Z_scope.

(** What the body of a response delivers: its bytes, then the end or an error. *)
Record Response (E : Type) : Type := MkResponse {
  StatusCode : Z;
  Body : bytes;
  Broken : option E
}.
Arguments MkResponse {E} _ _ _.
Arguments StatusCode {E} _.
Arguments Body {E} _.
Arguments Broken {E} _.

(** net/http and the context.  [http_do client timeout url body] is
    [NewRequestWithContext] and [Do] of a POST bounded by [timeout] nanoseconds. *)
Class Http (W : Type) : Type := {
  http_client : Type;
  default_client : http_client;
  http_error : Type;
  http_do : http_client → Z → bytes → bytes → ext W http_error (Response http_error);
  context_err : W → option http_error;
  context_await : Z → W → option http_error * W
}.
Arguments http_client W {_}.
Arguments http_error W {_}.

Module RpcHttp.

(** ** client.go *)

Record RPCError : Type := MkRPCError { Code : Z; Message : bytes }.

(** [Error]. *)
Definition RPCError_Error (e : RPCError) : bytes :=
  str_bytes "rpc: code " ++ (if Code e <? 0 then [x2d] else []) ++ Canonical.itoa (Z.abs (Code e)) ++ str_bytes ": " ++ Message e.

Inductive error (E : Type) : Type :=
| ErrMarshal
| ErrTransport (e : E)
| ErrStatus (code : Z)
| ErrRead (e : E)
| ErrResponseTooLarge
| ErrDecodeResponse
| ErrIDMismatch (got want : Z)
| ErrServer (e : RPCError)
| ErrDecodeResult
| ErrContextDone (e : E).
Arguments ErrMarshal {E}.
Arguments ErrTransport {E} e.
Arguments ErrStatus {E} code.
Arguments ErrRead {E} e.
Arguments ErrResponseTooLarge {E}.
Arguments ErrDecodeResponse {E}.
Arguments ErrIDMismatch {E} got want.
Arguments ErrServer {E} e.
Arguments ErrDecodeResult {E}.
Arguments ErrContextDone {E} e.

Definition set_RPCError (e : RPCError) (k : bytes) (v : any) : option RPCError :=
  if names "Code" k then c ← int_field (Code e) v; Some (MkRPCError c (Message e))
  else if names "Message" k then s ← string_value (Message e) v; Some (MkRPCError (Code e) s)
  else Some e.

(** The pointer field: null clears it, an object is decoded into the value it has. *)
Definition error_field (old : option RPCError) (v : any) : option (option RPCError) :=
  match v with
  | Canonical.JNull => Some None
  | Canonical.JObj m => Some <$> decode_members set_RPCError (default (MkRPCError 0 []) old) m
  | _ => None
  end.

(** ** http.go *)

(** [Result] is the raw member: its value as parsed. *)
Record rpcResponse : Type := MkRpcResponse {
  JSONRPC : bytes;
  RID : Z;
  Result : option any;
  RError : option RPCError
}.

Definition set_rpcResponse (r : rpcResponse) (k : bytes) (v : any) : option rpcResponse :=
  if names "jsonrpc" k then s ← string_value (JSONRPC r) v; Some (MkRpcResponse s (RID r) (Result r) (RError r))
  else if names "id" k then z ← int_field (RID r) v; Some (MkRpcResponse (JSONRPC r) z (Result r) (RError r))
  else if names "result" k then Some (MkRpcResponse (JSONRPC r) (RID r) (Some v) (RError r))
  else if names "error" k then e ← error_field (RError r) v; Some (MkRpcResponse (JSONRPC r) (RID r) (Result r) e)
  else Some r.

(** [json.Unmarshal(raw, &rpcResp)] of a zero [rpcResponse]. *)
Definition decode_response (raw : bytes) : option rpcResponse :=
  match Json.parse_document raw with
  | Ok (Canonical.JObj m) => decode_members set_rpcResponse (MkRpcResponse [] 0 None None) m
  | Ok Canonical.JNull => Some (MkRpcResponse [] 0 None None)
  | _ => None
  end.

(** [json.Marshal] of an [rpcRequest]; [params] is encoded already. *)
Definition rpcRequest (id : Z) (method : string) (params : bytes) : bytes :=
  let field name value := Json.quote (str_bytes name) ++ x3a :: value in
  x7b :: Canonical.commas
    [field "jsonrpc" (Json.quote (str_bytes "2.0")); field "id" (Json.marshal (Canonical.jint id));
     field "method" (Json.quote (str_bytes method)); field "params" params] ++ [x7d].

Definition DefaultTimeout : Z := 30 * 10 ^ 9.
Definition DefaultMaxResponseBytes : Z := Z.shiftl 8 20.

Section Operations.
Context `{T : Http W}.

(** The fields that do not change; the id counter is in the state. *)
Record HTTPClient : Type := MkClient {
  endpoint : bytes;
  httpc : http_client W;
  timeout : Z;
  maxResponseBytes : Z
}.

Definition HTTPOption : Type := HTTPClient → HTTPClient.

Definition WithTimeout (d : Z) : HTTPOption := λ c,
  if 0 <? d then MkClient (endpoint c) (httpc c) d (maxResponseBytes c) else c.

Definition WithMaxResponseBytes (n : Z) : HTTPOption := λ c,
  if 0 <? n then MkClient (endpoint c) (httpc c) (timeout c) n else c.

Definition WithHTTPClient (h : option (http_client W)) : HTTPOption := λ c,
  match h with Some h => MkClient (endpoint c) h (timeout c) (maxResponseBytes c) | None => c end.

Definition NewHTTPClient (url : bytes) (opts : list HTTPOption) : HTTPClient :=
  foldl (λ c opt, opt c) (MkClient url default_client DefaultTimeout DefaultMaxResponseBytes) opts.

(** [io.ReadAll(io.LimitReader(body, n))]. *)
Definition read_limited (n : Z) (resp : Response (http_error W)) : outcome (error (http_error W)) bytes :=
  if n <=? 0 then Ok []
  else if n <=? zlen (Body resp) then Ok (take (Z.to_nat n) (Body resp))
  else match Broken resp with Some e => Err (ErrRead e) | None => Ok (Body resp) end.

(** What [call] does with a response to request [id]. *)
Definition respond {A} (c : HTTPClient) (id : Z) (decode : any → option A) (resp : Response (http_error W)) :
    outcome (error (http_error W)) A :=
  if negb (StatusCode resp =? 200) then Err (ErrStatus (StatusCode resp))
  else
    raw ← read_limited (i64 (maxResponseBytes c + 1)) resp;
    if maxResponseBytes c <? zlen raw then Err ErrResponseTooLarge
    else
      match decode_response raw with
      | None => Err ErrDecodeResponse
      | Some r =>
          if negb (RID r =? id) then Err (ErrIDMismatch (RID r) id)
          else match RError r with
               | Some e => Err (ErrServer e)
               | None =>
                   match v ← Result r; decode v with
                   | None => Err ErrDecodeResult
                   | Some a => Ok a
                   end
               end
      end.

(** The state is the world and the counter. *)
Definition call {A} (c : HTTPClient) (method : string) (params : option bytes) (decode : any → option A) :
    io (W * Z) (error (http_error W)) A := λ '(w, n),
  let id := i64 (n + 1) in
  match params with
  | None => (Err ErrMarshal, (w, id))
  | Some p =>
      let '(r, w') := http_do (httpc c) (timeout c) (endpoint c) (rpcRequest id method p) w in
      (match r with
       | inl e => Err (ErrTransport e)
       | inr resp => respond c id decode resp
       end, (w', id))
  end.

(** ** Parameters and results *)

(** A [nil] slice, and a slice of interfaces. *)
Definition no_params : option bytes := Some (Json.marshal Canonical.JNull).
Definition params (l : list any) : option bytes := Some (Json.marshal (Canonical.JArr l)).

(** A tree of [interface{}] values, on either side of the interface. *)
Fixpoint to_json (v : json) : any :=
  match v with
  | JNull => Canonical.JNull
  | JBool b => Canonical.JBool b
  | JNumber lit => Canonical.JNum lit
  | JString s => Canonical.JStr s
  | JArray l => Canonical.JArr (to_json <$> l)
  | JObject m => Canonical.JObj ((λ kv, (kv.1, to_json kv.2)) <$> m)
  end.

Fixpoint of_json (v : any) : json :=
  match v with
  | Canonical.JNull => JNull
  | Canonical.JBool b => JBool b
  | Canonical.JNum lit => JNumber lit
  | Canonical.JStr s => JString s
  | Canonical.JArr l => JArray (of_json <$> l)
  | Canonical.JObj m => JObject ((λ kv, (kv.1, of_json kv.2)) <$> m)
  end.

(** [json.Unmarshal] into a [string] and into an [interface{}]. *)
Definition as_string : any → option bytes := string_value [].
Definition as_any (v : any) : option json := if Json.numbers_ok v then Some (of_json (Json.to_any v)) else None.

Definition marshal_floats (l : option (list spec_float)) : option bytes :=
  match l with
  | None => Some (str_bytes "null")
  | Some l => bs ← mapM marshal_float l; Some (x5b :: Canonical.commas bs ++ [x5d])
  end.

(** ** The methods *)

Definition ChainID (c : HTTPClient) := call c "eth_chainId" no_params as_string.

Definition GetTransactionCount (c : HTTPClient) (addr blockTag : bytes) :=
  call c "eth_getTransactionCount" (params [Canonical.JStr addr; Canonical.JStr blockTag]) as_string.

Definition EstimateGas (c : HTTPClient) (tx : json) := call c "eth_estimateGas" (params [to_json tx]) as_string.

Definition GasPrice (c : HTTPClient) := call c "eth_gasPrice" no_params as_string.

Definition MaxPriorityFeePerGas (c : HTTPClient) := call c "eth_maxPriorityFeePerGas" no_params as_string.

Definition FeeHistory (c : HTTPClient) (blockCount newestBlock : bytes) (rewardPercentiles : option (list spec_float)) :=
  call c "eth_feeHistory"
    (fs ← marshal_floats rewardPercentiles;
     Some (x5b :: Canonical.commas [Json.quote blockCount; Json.quote newestBlock; fs] ++ [x5d]))
    as_any.

Definition SendRawTransaction (c : HTTPClient) (rawTx : bytes) :=
  call c "eth_sendRawTransaction" (params [Canonical.JStr rawTx]) as_string.

Definition GetTransactionReceipt (c : HTTPClient) (txHash : bytes) :=
  call c "eth_getTransactionReceipt" (params [Canonical.JStr txHash]) as_any.

Definition GetTransactionByHash (c : HTTPClient) (txHash : bytes) :=
  call c "eth_getTransactionByHash" (params [Canonical.JStr txHash]) as_any.

Definition BlockNumber (c : HTTPClient) := call c "eth_blockNumber" no_params as_string.

Definition Call (c : HTTPClient) (tx : list (bytes * json)) (blockTag : bytes) :=
  call c "eth_call" (params [to_json (JObject tx); Canonical.JStr blockTag]) as_string.

(** ** The interfaces *)

(** A method whose calls only fail or return. *)
Definition method {A} (m : io (W * Z) (error (http_error W)) A) : ext (W * Z) (error (http_error W)) A := λ s,
  let '(r, s') := m s in
  (match r with Ok a => inr a | Err e => inl e | Panic | OutOfFuel => inl ErrDecodeResponse end, s').

Definition http_rpc (c : HTTPClient) : Client (W * Z) := {|
  rpc_error := error (http_error W);
  ctx_err '(w, _) := ErrContextDone <$> context_err w;
  await d '(w, n) := let '(e, w') := context_await d w in (ErrContextDone <$> e, (w', n));
  Broadcast.GetTransactionCount addr tag := method (GetTransactionCount c addr tag);
  Broadcast.EstimateGas tx := method (EstimateGas c tx);
  Broadcast.GasPrice := method (GasPrice c);
  Broadcast.MaxPriorityFeePerGas := method (MaxPriorityFeePerGas c);
  Broadcast.SendRawTransaction raw := method (SendRawTransaction c raw);
  Broadcast.GetTransactionReceipt h := method (GetTransactionReceipt c h)
|}.

Definition http_chain (c : HTTPClient) : RPCClient (W * Z) := {|
  rpc_client := http_rpc c;
  rpc_BlockNumber := method (BlockNumber c);
  rpc_Call tx tag := method (Call c tx tag)
|}.
End Operations.
End RpcHttp.
