(* ===== verification/RpcHttpProofs.v ===== *)
(** * Properties of the JSON-RPC client over HTTP

    A call succeeds exactly on an intact, bounded response that echoes its id and
    carries a result; what a server writes is what the caller reads; a replayed
    response is refused.  The client is an implementation of the interface
    [chain/broadcast] polls. *)
From Stdlib Require Import SpecFloat.
From stdpp Require Import sorting.
From S2P Require Import Prelude GoBig GoIO Canonical CanonicalProofs Json JsonProofs GoFloat GoJson GoJsonProofs RpcQuantity Broadcast BroadcastProofs ChainCommitment RpcHttp.
Import GoJson RpcHttp.
#[local] Notation sanitize := Canonical.sanitize.
#[local] Open Scope Z_scope.

(** ** Integers in members *)

Lemma jint_fits n z : is_int z → fits n (Canonical.jint z) = true.
Proof. intros Hz. unfold is_int in Hz. cbn. apply bool_decide_eq_true. apply jint_text. lia. Qed.

(** ** What a server answers *)

(** The response objects of JSON-RPC 2.0, section 5. *)
Definition reply_result (id : Z) (v : any) : any :=
  Canonical.JObj [ (str_bytes "jsonrpc", Canonical.JStr (str_bytes "2.0")); (str_bytes "id", Canonical.jint id); (str_bytes "result", v) ].

Definition reply_error (id : Z) (e : RPCError) : any :=
  Canonical.JObj [ (str_bytes "jsonrpc", Canonical.JStr (str_bytes "2.0")); (str_bytes "id", Canonical.jint id);
         (str_bytes "error", Canonical.JObj [(str_bytes "code", Canonical.jint (Code e)); (str_bytes "message", Canonical.JStr (Message e))]) ].

(** A depth that leaves room for the response object around a value. *)
Definition fits_reply (v : any) : Prop := fits (Json.maxNestingDepth - 1) v = true.

Lemma norm_reply_result id v : norm (reply_result id v) =
  Canonical.JObj [ (str_bytes "id", Canonical.jint id); (str_bytes "jsonrpc", Canonical.JStr (str_bytes "2.0")); (str_bytes "result", norm v) ].
Proof.
  unfold reply_result. rewrite norm_obj.
  assert (∀ a b c : any, merge_sort Json.key_le [(str_bytes "jsonrpc", a); (str_bytes "id", b); (str_bytes "result", c)] =
    [(str_bytes "id", b); (str_bytes "jsonrpc", a); (str_bytes "result", c)]) as -> by (intros; vm_compute; reflexivity).
  reflexivity.
Qed.

Lemma norm_reply_error id e : valid_text (Message e) → norm (reply_error id e) =
  Canonical.JObj [ (str_bytes "error", Canonical.JObj [(str_bytes "code", Canonical.jint (Code e)); (str_bytes "message", Canonical.JStr (Message e))]);
         (str_bytes "id", Canonical.jint id); (str_bytes "jsonrpc", Canonical.JStr (str_bytes "2.0")) ].
Proof.
  intros Hm. unfold reply_error. rewrite norm_obj.
  assert (∀ a b c : any, merge_sort Json.key_le [(str_bytes "jsonrpc", a); (str_bytes "id", b); (str_bytes "error", c)] =
    [(str_bytes "error", c); (str_bytes "id", b); (str_bytes "jsonrpc", a)]) as -> by (intros; vm_compute; reflexivity).
  cbn [fmap list_fmap prod_map fst snd]. rewrite norm_obj.
  assert (∀ a b : any, merge_sort Json.key_le [(str_bytes "code", a); (str_bytes "message", b)] =
    [(str_bytes "code", a); (str_bytes "message", b)]) as -> by (intros; vm_compute; reflexivity).
  cbn [fmap list_fmap prod_map fst snd norm]. by rewrite Hm.
Qed.

Lemma decode_id r v m : is_int v →
  decode_members set_rpcResponse r ((str_bytes "id", Canonical.jint v) :: m) =
  decode_members set_rpcResponse (MkRpcResponse (JSONRPC r) v (Result r) (RError r)) m.
Proof.
  intros Hv. cbn [decode_members].
  change (set_rpcResponse r (str_bytes "id") (Canonical.jint v)) with
    (z ← int_field (RID r) (Canonical.jint v); Some (MkRpcResponse (JSONRPC r) z (Result r) (RError r))).
  by rewrite int_field_jint.
Qed.

Lemma decode_code e : is_int (Code e) → 
  decode_members set_RPCError (MkRPCError 0 [])
    [(str_bytes "code", Canonical.jint (Code e)); (str_bytes "message", Canonical.JStr (Message e))] = Some e.
Proof.
  intros Hc. cbn [decode_members].
  change (set_RPCError (MkRPCError 0 []) (str_bytes "code") (Canonical.jint (Code e))) with
    (c ← int_field 0 (Canonical.jint (Code e)); Some (MkRPCError c [])).
  rewrite int_field_jint by done. destruct e. reflexivity.
Qed.

Lemma decode_error_member r e m : RError r = None → is_int (Code e) →
  decode_members set_rpcResponse r
    ((str_bytes "error", Canonical.JObj [(str_bytes "code", Canonical.jint (Code e)); (str_bytes "message", Canonical.JStr (Message e))]) :: m) =
  decode_members set_rpcResponse (MkRpcResponse (JSONRPC r) (RID r) (Result r) (Some e)) m.
Proof.
  intros Hr Hc. cbn [decode_members].
  match goal with |- context [set_rpcResponse r ?k ?v] =>
    change (set_rpcResponse r k v) with (x ← error_field (RError r) v; Some (MkRpcResponse (JSONRPC r) (RID r) (Result r) x)) end.
  rewrite Hr. cbn [error_field default]. by rewrite decode_code.
Qed.

(** The decoder fills the fields of the response. *)
Lemma decode_reply_result id v : is_int id → fits_reply v →
  decode_response (Json.marshal (reply_result id v)) = Some (MkRpcResponse (str_bytes "2.0") id (Some (norm v)) None).
Proof.
  intros Hid Hv. unfold decode_response. rewrite document_marshal, norm_reply_result.
  - rewrite decode_id by done. reflexivity.
  - unfold reply_result, fits_reply in *. cbn [fits forallb snd]. by rewrite jint_fits, Hv.
Qed.

Lemma decode_reply_error id e : is_int id → is_int (Code e) → valid_text (Message e) →
  decode_response (Json.marshal (reply_error id e)) = Some (MkRpcResponse (str_bytes "2.0") id None (Some e)).
Proof.
  intros Hid Hc Hm. unfold decode_response. rewrite document_marshal, norm_reply_error.
  - rewrite decode_error_member, decode_id by done. reflexivity.
  - done.
  - unfold reply_error. cbn [fits forallb snd]. rewrite !jint_fits by done. done.
Qed.

(** ** One call *)

Section Calls.
Context `{T : Http W}.

(** The size limit leaves room for the byte that detects an oversized body. *)
Definition limit_ok (c : HTTPClient) : Prop := 0 < maxResponseBytes c < 2 ^ 63 - 1.

Lemma limit_next c : limit_ok c → i64 (maxResponseBytes c + 1) = maxResponseBytes c + 1.
Proof. intros H. unfold limit_ok in H. apply i64_small. unfold is_int. lia. Qed.

(** The options keep it. *)
Lemma NewHTTPClient_limit url ds : Forall (λ n, n < 2 ^ 63 - 1) ds → limit_ok (NewHTTPClient url (WithMaxResponseBytes <$> ds)).
Proof.
  unfold NewHTTPClient. assert (limit_ok (MkClient url default_client DefaultTimeout DefaultMaxResponseBytes)) as H by by vm_compute.
  revert H. generalize (MkClient url default_client DefaultTimeout DefaultMaxResponseBytes).
  induction ds as [|d ds IH]; intros c Hc Hd; [done|]. apply Forall_cons in Hd as [Hd Hds]. cbn. apply IH; [|done].
  unfold WithMaxResponseBytes. destruct (Z.ltb_spec 0 d); [split; cbn; lia|done].
Qed.

(** An intact response within the limit that echoes the id and carries a result the
    caller can read. *)
Definition accepts {A} (c : HTTPClient) (id : Z) (decode : any → option A) (resp : Response (http_error W)) (a : A) : Prop :=
  StatusCode resp = 200 ∧ zlen (Body resp) ≤ maxResponseBytes c ∧ Broken resp = None ∧
  ∃ r v, decode_response (Body resp) = Some r ∧ RID r = id ∧ RError r = None ∧ Result r = Some v ∧ decode v = Some a.

Lemma read_whole c resp : limit_ok c → Broken resp = None → zlen (Body resp) ≤ maxResponseBytes c →
  read_limited (i64 (maxResponseBytes c + 1)) resp = Ok (Body resp).
Proof.
  intros Hl Hb Hn. rewrite limit_next by done. unfold limit_ok, read_limited in *.
  rewrite (proj2 (Z.leb_gt _ _)) by lia. rewrite (proj2 (Z.leb_gt _ _)) by lia. by rewrite Hb.
Qed.

Lemma read_oversized c resp : limit_ok c → maxResponseBytes c < zlen (Body resp) →
  ∃ raw, read_limited (i64 (maxResponseBytes c + 1)) resp = Ok raw ∧ maxResponseBytes c < zlen raw.
Proof.
  intros Hl Hn. rewrite limit_next by done. unfold limit_ok, read_limited in *.
  rewrite (proj2 (Z.leb_gt _ _)) by lia. rewrite (proj2 (Z.leb_le _ _)) by lia. eexists. split; [done|].
  rewrite length_take. lia.
Qed.

Lemma read_broken c resp e : limit_ok c → Broken resp = Some e → zlen (Body resp) ≤ maxResponseBytes c →
  read_limited (i64 (maxResponseBytes c + 1)) resp = Err (ErrRead e).
Proof.
  intros Hl Hb Hn. rewrite limit_next by done. unfold limit_ok, read_limited in *.
  rewrite (proj2 (Z.leb_gt _ _)) by lia. rewrite (proj2 (Z.leb_gt _ _)) by lia. by rewrite Hb.
Qed.

Lemma respond_Ok {A} c id (decode : any → option A) resp a : limit_ok c →
  respond c id decode resp = Ok a ↔ accepts c id decode resp a.
Proof.
  intros Hl. unfold respond, accepts. destruct (Z.eqb_spec (StatusCode resp) 200) as [Hs|Hs]; cbn [negb]; [|naive_solver].
  destruct (Z.le_gt_cases (zlen (Body resp)) (maxResponseBytes c)) as [Hn|Hn].
  - destruct (Broken resp) as [e|] eqn:Hb; [rewrite (read_broken c resp e) by done; cbn; naive_solver|].
    rewrite read_whole by done. cbn [mbind outcome_bind]. rewrite (proj2 (Z.ltb_ge _ _)) by lia.
    destruct (decode_response (Body resp)) as [r|]; [|naive_solver].
    destruct (Z.eqb_spec (RID r) id) as [Hi|Hi]; cbn [negb]; [|naive_solver].
    destruct (RError r) eqn:He; [naive_solver|]. destruct (Result r) as [v|] eqn:Hv; [|naive_solver]. cbn [mbind option_bind].
    destruct (decode v) eqn:Hd; naive_solver.
  - destruct (read_oversized c resp Hl Hn) as (raw & -> & Hr). cbn [mbind outcome_bind]. rewrite (proj2 (Z.ltb_lt _ _)) by lia.
    split; [done|]. intros (_ & H & _). lia.
Qed.

Lemma call_sent {A} c method p (decode : any → option A) w n r w' :
  http_do (httpc c) (timeout c) (endpoint c) (rpcRequest (i64 (n + 1)) method p) w = (r, w') →
  call c method (Some p) decode (w, n) =
  (match r with inl e => Err (ErrTransport e) | inr resp => respond c (i64 (n + 1)) decode resp end, (w', i64 (n + 1))).
Proof. intros H. unfold call. by rewrite H. Qed.

(** A call returns a value exactly when the transport delivers a response to it that is
    accepted; and it uses up one id. *)
Theorem call_Ok_iff {A} c method p (decode : any → option A) w n a w' n' : limit_ok c →
  call c method (Some p) decode (w, n) = (Ok a, (w', n')) ↔
  n' = i64 (n + 1) ∧ ∃ resp,
    http_do (httpc c) (timeout c) (endpoint c) (rpcRequest n' method p) w = (inr resp, w') ∧ accepts c n' decode resp a.
Proof.
  intros Hl. destruct (http_do (httpc c) (timeout c) (endpoint c) (rpcRequest (i64 (n + 1)) method p) w) as [r w1] eqn:Hd.
  rewrite (call_sent _ _ _ _ _ _ _ _ Hd). split.
  - intros [= Hr <- <-]. split; [done|]. destruct r as [e|resp]; [done|]. exists resp. rewrite <- respond_Ok by done. done.
  - intros [-> (resp & Hd' & Ha)]. rewrite Hd in Hd'. injection Hd' as -> <-. apply respond_Ok in Ha; [|done]. by rewrite Ha.
Qed.

Lemma respond_no_panic {A} c id (decode : any → option A) resp :
  respond c id decode resp ≠ Panic ∧ respond c id decode resp ≠ OutOfFuel.
Proof.
  unfold respond, read_limited. repeat (case_match; cbn [mbind outcome_bind]; try done).
Qed.

(** No call panics or runs out of fuel, whatever the server sends: the adapter to the
    interface loses nothing. *)
Lemma call_no_panic {A} c method p (decode : any → option A) s :
  (call c method p decode s).1 ≠ Panic ∧ (call c method p decode s).1 ≠ OutOfFuel.
Proof.
  destruct s as [w n]. unfold call. destruct p as [p|]; [|done].
  destruct (http_do (httpc c) (timeout c) (endpoint c) (rpcRequest (i64 (n + 1)) method p) w) as [[e|resp] w1]; [done|].
  apply respond_no_panic.
Qed.

(** A response that one request accepted is refused by every request with another id. *)
Theorem response_not_replayed {A B} c method p (decode : any → option A) w n a s' method' p' (decode' : any → option B) w2 n2 resp w3 :
  limit_ok c → i64 (n2 + 1) ≠ i64 (n + 1) →
  call c method (Some p) decode (w, n) = (Ok a, s') →
  http_do (httpc c) (timeout c) (endpoint c) (rpcRequest (i64 (n + 1)) method p) w = (inr resp, s'.1) →
  http_do (httpc c) (timeout c) (endpoint c) (rpcRequest (i64 (n2 + 1)) method' p') w2 = (inr resp, w3) →
  call c method' (Some p') decode' (w2, n2) = (Err (ErrIDMismatch (i64 (n + 1)) (i64 (n2 + 1))), (w3, i64 (n2 + 1))).
Proof.
  intros Hl Hne Hc Hd Hd'. rewrite (call_sent _ _ _ _ _ _ _ _ Hd) in Hc. injection Hc as Hr _.
  apply respond_Ok in Hr as (Hs & Hn & Hb & r & v & Hr & Hi & _); [|done]. rewrite (call_sent _ _ _ _ _ _ _ _ Hd').
  f_equal. unfold respond. rewrite Hs. cbn [Z.eqb Pos.eqb negb]. rewrite read_whole by done. cbn [mbind outcome_bind].
  rewrite (proj2 (Z.ltb_ge _ _)) by lia. rewrite Hr. rewrite Hi.
  by rewrite (proj2 (Z.eqb_neq _ _)) by congruence.
Qed.

(** A body is reported as too large exactly when it is: nothing is cut off silently. *)
Theorem ErrResponseTooLarge_iff {A} c id (decode : any → option A) resp : limit_ok c →
  respond c id decode resp = Err ErrResponseTooLarge ↔ StatusCode resp = 200 ∧ maxResponseBytes c < zlen (Body resp).
Proof.
  intros Hl. unfold respond. destruct (Z.eqb_spec (StatusCode resp) 200) as [Hs|Hs]; cbn [negb]; [|naive_solver].
  destruct (Z.le_gt_cases (zlen (Body resp)) (maxResponseBytes c)) as [Hn|Hn].
  - split; [|lia]. intros H. exfalso.
    destruct (Broken resp) as [e|] eqn:Hb; [by rewrite (read_broken c resp e) in H by done|].
    rewrite read_whole in H by done. cbn [mbind outcome_bind] in H. rewrite (proj2 (Z.ltb_ge _ _)) in H by lia.
    repeat case_match; done.
  - destruct (read_oversized c resp Hl Hn) as (raw & -> & Hr). cbn [mbind outcome_bind]. by rewrite (proj2 (Z.ltb_lt _ _)) by lia.
Qed.

(** With the largest limit the limit plus one wraps, nothing is read, and every response
    is undecodable. *)
Theorem max_limit_fails {A} c id (decode : any → option A) resp : maxResponseBytes c = 2 ^ 63 - 1 → StatusCode resp = 200 →
  respond c id decode resp = Err ErrDecodeResponse.
Proof. intros Hm Hs. unfold respond. rewrite Hs, Hm. reflexivity. Qed.

(** ** A conforming server *)

(** The server answers request [id] with status 200 and the whole of [v]. *)
Definition answers (c : HTTPClient) (request : bytes) (v : any) (w w' : W) : Prop :=
  http_do (httpc c) (timeout c) (endpoint c) request w = (inr (MkResponse 200 (Json.marshal v) None), w') ∧
  zlen (Json.marshal v) ≤ maxResponseBytes c.

Lemma call_answered {A} c method p (decode : any → option A) w n v w' : limit_ok c → fits_reply v →
  answers c (rpcRequest (i64 (n + 1)) method p) (reply_result (i64 (n + 1)) v) w w' →
  call c method (Some p) decode (w, n) =
  (match decode (norm v) with Some a => Ok a | None => Err ErrDecodeResult end, (w', i64 (n + 1))).
Proof.
  intros Hl Hv [Hd Hn]. rewrite (call_sent _ _ _ _ _ _ _ _ Hd). f_equal. unfold respond. cbn [StatusCode Z.eqb Pos.eqb negb].
  rewrite read_whole by done. cbn [mbind outcome_bind Body]. rewrite (proj2 (Z.ltb_ge _ _)) by lia.
  rewrite decode_reply_result by (done || apply i64_range). cbn [RID RError Result mbind option_bind].
  rewrite Z.eqb_refl. done.
Qed.

(** Round trip with a conforming server: the caller gets the value the server put into
    the result, and the error object it put into the error. *)
Theorem call_reply {A} c method p (decode : any → option A) w n v a w' : limit_ok c → fits_reply v → decode (norm v) = Some a →
  answers c (rpcRequest (i64 (n + 1)) method p) (reply_result (i64 (n + 1)) v) w w' →
  call c method (Some p) decode (w, n) = (Ok a, (w', i64 (n + 1))).
Proof. intros Hl Hv Ha H. rewrite (call_answered _ _ _ _ _ _ _ _ Hl Hv H). by rewrite Ha. Qed.

Theorem call_server_error {A} c method p (decode : any → option A) w n e w' : limit_ok c → is_int (Code e) → valid_text (Message e) →
  answers c (rpcRequest (i64 (n + 1)) method p) (reply_error (i64 (n + 1)) e) w w' →
  call c method (Some p) decode (w, n) = (Err (ErrServer e), (w', i64 (n + 1))).
Proof.
  intros Hl Hc Hm [Hd Hn]. rewrite (call_sent _ _ _ _ _ _ _ _ Hd). f_equal. unfold respond. cbn [StatusCode Z.eqb Pos.eqb negb].
  rewrite read_whole by done. cbn [mbind outcome_bind Body]. rewrite (proj2 (Z.ltb_ge _ _)) by lia.
  rewrite decode_reply_error by (done || apply i64_range). cbn [RID RError].
  by rewrite Z.eqb_refl.
Qed.
End Calls.

(** ** Documents that survive the transport *)

(** What the decoder returns for the text of [v] is [v] again. *)
Definition plain (v : json) : Prop := as_any (norm (to_json v)) = Some v.

Lemma plain_null : plain JNull.
Proof. reflexivity. Qed.

Lemma plain_string s : valid_text s → plain (JString s).
Proof. intros Hs. unfold plain, as_any. cbn. by rewrite Hs. Qed.

Lemma as_any_spec v a : as_any v = Some a ↔ Json.numbers_ok v = true ∧ of_json (Json.to_any v) = a.
Proof. unfold as_any. destruct (Json.numbers_ok v); naive_solver. Qed.

Lemma json_lookup_perm k (m m' : list (bytes * json)) : m ≡ₚ m' → NoDup m.*1 → json_lookup k m = json_lookup k m'.
Proof.
  induction 1 as [|[a v] m m' Hp IH|[a v] [b u] m|m1 m2 m3 H12 IH1 H23 IH2]; intros Hnd; [done|..].
  - cbn. rewrite fmap_cons in Hnd. apply NoDup_cons in Hnd as [_ Hnd]. by rewrite IH.
  - rewrite !fmap_cons in Hnd. apply NoDup_cons in Hnd as [Hn _]. cbn [fst] in Hn. rewrite elem_of_cons in Hn. cbn.
    do 2 case_bool_decide; subst; try done. exfalso. apply Hn. by left.
  - rewrite IH1 by done. apply IH2. by rewrite <- H12.
Qed.

(** An object keeps its members, in another order. *)
Lemma plain_object m : NoDup m.*1 → Forall valid_text m.*1 → Forall (plain ∘ snd) m →
  ∃ m', as_any (norm (to_json (JObject m))) = Some (JObject m') ∧ m' ≡ₚ m.
Proof.
  intros Hnd Hk Hv. set (tj := λ kv : bytes * json, (kv.1, to_json kv.2)).
  set (k := merge_sort Json.key_le (tj <$> m)). assert (k ≡ₚ tj <$> m) as Hp by apply merge_sort_Permutation.
  set (g := λ kv : bytes * any, (sanitize kv.1, of_json (Json.to_any (norm kv.2)))).
  assert (g <$> (tj <$> m) = m) as Hg.
  { rewrite <- list_fmap_compose. rewrite <- list_fmap_id. apply list_fmap_ext. intros i [a v] Hi. unfold g, tj. cbn.
    assert ((a, v) ∈ m) as Hin by by eapply list_elem_of_lookup_2.
    rewrite list.Forall_forall in Hk. rewrite list.Forall_forall in Hv. f_equal.
    - apply Hk. apply list_elem_of_fmap. by exists (a, v).
    - apply Hv in Hin. unfold plain, compose in Hin. cbn [snd] in Hin. by apply as_any_spec in Hin as [_ Hin]. }
  assert (m.*1 = (prod_map sanitize norm <$> (tj <$> m)).*1) as Hkeys.
  { rewrite <- Hg at 1. by rewrite <- !list_fmap_compose. }
  exists (g <$> k). split; [|by rewrite Hp, Hg]. apply as_any_spec. split.
  - rewrite numbers_norm. cbn [to_json Json.numbers_ok]. apply forallb_forall. intros x Hx. apply list_elem_of_In in Hx.
    apply list_elem_of_fmap in Hx as ([a v] & -> & Hin). rewrite list.Forall_forall in Hv. apply Hv in Hin.
    apply as_any_spec in Hin as [Hin _]. by rewrite numbers_norm in Hin.
  - cbn [to_json]. fold tj. rewrite norm_obj. fold k. cbn [Json.to_any].
    rewrite collect_id.
    + cbn [of_json]. f_equal. rewrite <- !list_fmap_compose. done.
    + rewrite <- list_fmap_compose. erewrite list_fmap_ext with (g := fst) by done.
      rewrite Hp. by rewrite <- Hkeys.
Qed.

(** A receipt is read through the lookups of its members. *)
Lemma parseReceipt_ext {R} m m' : (∀ k, json_lookup k m = json_lookup k m') →
  Broadcast.parseReceipt (R := R) (JObject m) = Broadcast.parseReceipt (JObject m').
Proof.
  intros H. assert (∀ k, Broadcast.receiptString (R := R) m k = Broadcast.receiptString m' k) as Hs
    by (intros k; unfold Broadcast.receiptString; by rewrite H).
  assert (∀ k, Broadcast.receiptNumber (R := R) m k = Broadcast.receiptNumber m' k) as Hn
    by (intros k; unfold Broadcast.receiptNumber; by rewrite Hs).
  unfold Broadcast.parseReceipt. rewrite !Hn, !Hs, !H.
  assert (forallb (λ k, bool_decide (is_Some (json_lookup k m))) Broadcast.requiredReceiptFields =
    forallb (λ k, bool_decide (is_Some (json_lookup k m'))) Broadcast.requiredReceiptFields) as ->; [|done].
  induction Broadcast.requiredReceiptFields as [|k l IH]; cbn [forallb]; [done|]. by rewrite H, IH.
Qed.

(** ** chain/broadcast over HTTP *)

Section Broadcasting.
Context `{T : Http W}.
Context (c : HTTPClient).

(** The request for a receipt with the next id. *)
Definition receipt_request (n : Z) (txHash : bytes) : bytes :=
  rpcRequest (i64 (n + 1)) "eth_getTransactionReceipt" (Json.marshal (Canonical.JArr [Canonical.JStr txHash])).

(** [k] polls a conforming server answers with null, each followed by a tick. *)
Inductive polls (txHash : bytes) (d : Z) : nat → W * Z → W * Z → Prop :=
| polls_0 s : polls txHash d 0 s s
| polls_S k w n w1 w2 s :
    answers c (receipt_request n txHash) (reply_result (i64 (n + 1)) Canonical.JNull) w w1 →
    context_await d w1 = (None, w2) → polls txHash d k (w2, i64 (n + 1)) s → polls txHash d (S k) (w, n) s.

Lemma receipt_answered txHash w n v a w' : limit_ok c → fits_reply v → as_any (norm v) = Some a →
  answers c (receipt_request n txHash) (reply_result (i64 (n + 1)) v) w w' →
  Broadcast.GetTransactionReceipt (Client := http_rpc c) txHash (w, n) = (inr a, (w', i64 (n + 1))).
Proof.
  intros Hl Hf Ha H. unfold Broadcast.GetTransactionReceipt, http_rpc, method, RpcHttp.GetTransactionReceipt, params.
  rewrite (call_answered _ _ _ _ _ _ _ _ Hl Hf H). by rewrite Ha.
Qed.

Lemma polls_idle cfg txHash k s s' : limit_ok c → polls txHash (Broadcast.pollInterval cfg) k s s' →
  idle (C := http_rpc c) cfg txHash k s s'.
Proof.
  intros Hl. induction 1 as [s|k w n w1 w2 s Ha Hw Hp IH]; [constructor|].
  econstructor; [by eapply receipt_answered; try exact Ha| |exact IH].
  cbn. by rewrite Hw.
Qed.

(** The strings of a receipt are text and its logs survive the transport. *)
Record receipt_text (r : Broadcast.Receipt) : Prop := {
  text_hash : valid_text (Broadcast.BlockHash r);
  text_tx : valid_text (Broadcast.TransactionHash r);
  text_contract : valid_text (Broadcast.ContractAddress r);
  text_logs : plain (JArray (Broadcast.Logs r))
}.

Lemma quantity_ascii z : 0 ≤ z → valid_text (Quantity.FormatQuantity (Some z)).
Proof.
  intros Hz. apply valid_ascii. unfold Quantity.FormatQuantity. destruct (Z.eqb_spec z 0); [by repeat constructor|].
  apply Forall_app. split; [by repeat constructor|]. destruct (text16_pos z ltac:(lia)) as (d & ds & -> & _ & HF & _).
  apply Forall_fmap. eapply Forall_impl; [exact HF|]. intros x Hx. cbn in Hx. unfold compose, hex_digit.
  destruct (Z.ltb_spec x 10); rewrite b2z_z2b_small by lia; lia.
Qed.

Lemma plain_receipt r : receipt_ok r → receipt_text r →
  ∃ m, as_any (norm (to_json (receipt_json r))) = Some (JObject m) ∧
    ∀ R, Broadcast.parseReceipt (R := R) (JObject m) = Ok r.
Proof.
  intros Hr Ht. pose proof (λ R, parseReceipt_json (R := R) r Hr) as Hp. destruct Hr, Ht. unfold is_u64 in *.
  unfold receipt_json in *. match type of Hp with ∀ R, Broadcast.parseReceipt (JObject ?l) = _ => set (m := l) in * end.
  assert (NoDup m.*1) as Hnd by (apply (bool_decide_unpack _); vm_compute; exact I).
  destruct (plain_object m) as (m' & Hm & Hperm); [done| | |].
  - repeat (apply Forall_cons; split; [by apply valid_ascii; repeat constructor|]). by constructor.
  - repeat (apply Forall_cons; split; [cbn; try (by apply plain_string, quantity_ascii; lia); try by apply plain_string|]); [|done|by constructor].
    case_bool_decide; [done|by apply plain_string].
  - exists m'. split; [done|]. intros R. rewrite <- (Hp R). apply parseReceipt_ext. intros k. apply json_lookup_perm; [done|].
    by rewrite Hperm.
Qed.

(** C36.  Composition: waiting over HTTP.  If a conforming server answers [k] polls with null and
    the next one with the document of a receipt, [WaitForReceipt] returns that receipt,
    after exactly [k + 1] requests. *)
Theorem WaitForReceipt_http txHash ds k w n w0 n0 w' r fuel :
  limit_ok c → context_err w = None → receipt_ok r → receipt_text r → fits_reply (to_json (receipt_json r)) →
  polls txHash (Broadcast.pollInterval (Broadcast.newWaitConfig (Broadcast.WithPollInterval <$> ds))) k (w, n) (w0, n0) →
  answers c (receipt_request n0 txHash) (reply_result (i64 (n0 + 1)) (to_json (receipt_json r))) w0 w' →
  (k < fuel)%nat →
  Broadcast.WaitForReceipt (C := http_rpc c) fuel true txHash (Broadcast.WithPollInterval <$> ds) (w, n) =
  (Ok r, (w', i64 (n0 + 1))).
Proof.
  intros Hl Hc Hr Ht Hf Hp Ha Hk. destruct (plain_receipt r Hr Ht) as (m & Hm & Hparse).
  rewrite (WaitForReceipt_loop (C := http_rpc c)) by (cbn; by rewrite Hc).
  replace fuel with (k + S (fuel - k - 1))%nat by lia.
  rewrite (wait_loop_idle (C := http_rpc c) _ _ _ _ _ _ (polls_idle _ _ _ _ _ Hl Hp)).
  rewrite (wait_loop_mined (C := http_rpc c) _ _ _ _ _ _ (receipt_answered _ _ _ _ _ _ Hl Hf Hm Ha)) by done.
  by rewrite Hparse.
Qed.

(** A null result of a method that returns a string is the empty string: a node that
    answers null makes [SendTx] report success with an empty transaction hash. *)
Theorem SendTx_null rawTx w n w' : limit_ok c →
  answers c (rpcRequest (i64 (n + 1)) "eth_sendRawTransaction"
      (Json.marshal (Canonical.JArr [Canonical.JStr (Quantity.hex_prefix ++ hex_bytes rawTx)])))
    (reply_result (i64 (n + 1)) Canonical.JNull) w w' →
  Broadcast.SendTx (C := http_rpc c) true rawTx (w, n) = (Ok [], (w', i64 (n + 1))).
Proof.
  intros Hl H. unfold Broadcast.SendTx; cbn [negb]; cbv zeta; unfold run, Broadcast.SendRawTransaction, http_rpc, method, RpcHttp.SendRawTransaction, params.
  by rewrite (call_answered _ _ _ _ _ _ Canonical.JNull _ Hl eq_refl H).
Qed.
End Broadcasting.

(** ** A server with a script *)

Module Script.

(** The world is the documents still to be sent. *)
#[local] Instance http : Http (list any) := {|
  http_client := unit;
  default_client := tt;
  http_error := string;
  http_do _ _ _ _ w := match w with v :: w' => (inr (MkResponse 200 (Json.marshal v) None), w') | [] => (inl "closed"%string, []) end;
  context_err _ := None;
  context_await _ w := (None, w)
|}.

Definition client : HTTPClient := NewHTTPClient (str_bytes "http://node") [].

Lemma client_limit : limit_ok client.
Proof. done. Qed.

Lemma answers_head req v w : zlen (Json.marshal v) ≤ 8388608 → answers client req v (v :: w) w.
Proof. by split. Qed.
End Script.

Lemma call_Ok_iff_witness :
  call (T := Script.http) Script.client "eth_chainId" no_params as_string ([reply_result 1 (Canonical.JStr (str_bytes "0x1"))], 0)
  = (Ok (str_bytes "0x1"), ([], 1)).
Proof.
  apply (call_Ok_iff (T := Script.http)); [exact Script.client_limit|]. split; [reflexivity|].
  eexists. split; [reflexivity|]. split; [reflexivity|]. split; [vm_compute; done|]. split; [reflexivity|].
  exists (MkRpcResponse (str_bytes "2.0") 1 (Some (Canonical.JStr (str_bytes "0x1"))) None), (Canonical.JStr (str_bytes "0x1")).
  split; [vm_compute; reflexivity|]. done.
Defined.

Lemma response_not_replayed_witness :
  call (T := Script.http) Script.client "eth_gasPrice" no_params as_string ([reply_result 1 (Canonical.JStr (str_bytes "0x1"))], 6)
  = (Err (ErrIDMismatch 1 7), ([], 7)).
Proof.
  apply (response_not_replayed (T := Script.http) Script.client "eth_chainId" (Json.marshal Canonical.JNull) as_string
    [reply_result 1 (Canonical.JStr (str_bytes "0x1"))] 0 (str_bytes "0x1") ([], 1) "eth_gasPrice" _ as_string _ 6
    (MkResponse 200 (Json.marshal (reply_result 1 (Canonical.JStr (str_bytes "0x1")))) None) []);
    [exact Script.client_limit|done|vm_compute; reflexivity|reflexivity..].
Defined.

Lemma ErrResponseTooLarge_iff_witness :
  respond (T := Script.http) (NewHTTPClient [] [WithMaxResponseBytes 3]) 1 as_string (MkResponse 200 (str_bytes "null") None)
  = Err ErrResponseTooLarge.
Proof. apply (ErrResponseTooLarge_iff (T := Script.http)); [done|]. split; [reflexivity|vm_compute; reflexivity]. Defined.

Lemma max_limit_fails_witness :
  respond (T := Script.http) (NewHTTPClient [] [WithMaxResponseBytes (2 ^ 63 - 1)]) 1 as_string
    (MkResponse 200 (Json.marshal (reply_result 1 (Canonical.JStr (str_bytes "0x1")))) None)
  = Err ErrDecodeResponse.
Proof. apply (max_limit_fails (T := Script.http)); reflexivity. Defined.

Lemma call_reply_witness :
  call (T := Script.http) Script.client "eth_chainId" no_params as_string ([reply_result 1 (Canonical.JStr (str_bytes "0x1"))], 0)
  = (Ok (str_bytes "0x1"), ([], 1)).
Proof.
  apply (call_reply (T := Script.http) Script.client "eth_chainId" _ as_string _ 0 (Canonical.JStr (str_bytes "0x1")));
    [exact Script.client_limit|reflexivity|vm_compute; reflexivity|]. apply Script.answers_head. vm_compute. done.
Defined.

Lemma call_server_error_witness :
  call (T := Script.http) Script.client "eth_chainId" no_params as_string ([reply_error 1 (MkRPCError (-32000) (str_bytes "nonce"))], 0)
  = (Err (ErrServer (MkRPCError (-32000) (str_bytes "nonce"))), ([], 1)).
Proof.
  apply (call_server_error (T := Script.http) Script.client "eth_chainId" _ as_string _ 0 (MkRPCError (-32000) (str_bytes "nonce")));
    [exact Script.client_limit|unfold is_int; cbn; lia|vm_compute; reflexivity|]. apply Script.answers_head. vm_compute. done.
Defined.

Lemma WaitForReceipt_http_witness :
  Broadcast.WaitForReceipt (C := http_rpc (T := Script.http) Script.client) 5 true (str_bytes "0xbb") (Broadcast.WithPollInterval <$> [])
    ([reply_result 1 Canonical.JNull; reply_result 2 (to_json (receipt_json Node.receipt))], 0)
  = (Ok Node.receipt, ([], 2)).
Proof.
  apply (WaitForReceipt_http (T := Script.http) Script.client (str_bytes "0xbb") [] 1 _ 0
    [reply_result 2 (to_json (receipt_json Node.receipt))] 1 [] Node.receipt 5); [exact Script.client_limit|reflexivity|..|lia].
  - split; cbn; unfold is_u64; done || lia.
  - split; vm_compute; reflexivity.
  - vm_compute. reflexivity.
  - eapply polls_S; [apply Script.answers_head; vm_compute; done|reflexivity|constructor].
  - apply Script.answers_head. vm_compute. done.
Defined.

Lemma SendTx_null_witness :
  Broadcast.SendTx (C := http_rpc (T := Script.http) Script.client) true [xaa] ([reply_result 1 Canonical.JNull], 0) = (Ok [], ([], 1)).
Proof.
  apply (SendTx_null (T := Script.http) Script.client [xaa] _ 0 []); [exact Script.client_limit|].
  apply Script.answers_head. vm_compute. done.
Defined.
