(* ===== verification/X509.v ===== *)
(** * The [identity/x509] package: certificates and paths

    A translation of src/identity/x509/x509.go.  Parsing a certificate, building and
    checking chains and checking the signature of a revocation list are crypto/x509,
    the class [X509Lib]; what the package does with the parsed fields - the key it
    derives, the guards around a path, the authentication of revocation lists and the
    search for a clean chain - is written out. *)
From S2P Require Import Prelude GoBig GoTime Signature CryptoKeys.
Import GoTime Signature.
#[local] Open Scope Z_scope.

(** The fields of [x509.Certificate] the package reads. *)
Inductive PublicKeyAlgorithm : Type := UnknownPublicKeyAlgorithm | RSA | DSA | ECDSA | Ed25519Alg | OtherPublicKeyAlgorithm (n : Z).

Inductive SignatureAlgorithm : Type :=
| UnknownSignatureAlgorithm
| MD5WithRSA
| SHA1WithRSA
| SHA256WithRSA
| SHA384WithRSA
| SHA512WithRSA
| SHA256WithRSAPSS
| SHA384WithRSAPSS
| SHA512WithRSAPSS
| OtherSignatureAlgorithm (n : Z).

(** The dynamic type of the [PublicKey] field. *)
Inductive CertKey : Type :=
| CertRSA (k : StdRsaPublic)
| CertECDSA (k : StdEcdsaPublic)
| CertEd25519 (k : bytes)
| CertOther.

Record Extension : Type := MkExtension { ExtId : list Z; Critical : bool; Value : bytes }.

Record StdCert (Name : Type) : Type := MkCert {
  Raw : bytes;
  RawSubject : bytes;
  RawIssuer : bytes;
  RawSubjectPublicKeyInfo : bytes;
  Subject : Name;
  Issuer : Name;
  NotBefore : Time;
  NotAfter : Time;
  SerialNumber : option Z;
  KeyUsage : Z;
  ExtKeyUsage : list Z;
  IsCA : bool;
  Extensions : list Extension;
  CertPublicKeyAlgorithm : PublicKeyAlgorithm;
  CertSignatureAlgorithm : SignatureAlgorithm;
  CertPublicKey : CertKey
}.
Arguments Raw {Name} _.
Arguments RawSubject {Name} _.
Arguments RawIssuer {Name} _.
Arguments RawSubjectPublicKeyInfo {Name} _.
Arguments Subject {Name} _.
Arguments Issuer {Name} _.
Arguments NotBefore {Name} _.
Arguments NotAfter {Name} _.
Arguments SerialNumber {Name} _.
Arguments KeyUsage {Name} _.
Arguments ExtKeyUsage {Name} _.
Arguments IsCA {Name} _.
Arguments Extensions {Name} _.
Arguments CertPublicKeyAlgorithm {Name} _.
Arguments CertSignatureAlgorithm {Name} _.
Arguments CertPublicKey {Name} _.

(** A parsed [x509.RevocationList]: its issuer, its window, the serial numbers listed,
    and the signed bytes. *)
Record RevocationList : Type := MkCRL {
  CRLRaw : bytes;
  CRLRawIssuer : bytes;
  ThisUpdate : Time;
  NextUpdate : Time;
  RevokedCertificateEntries : list Z
}.

(** crypto/x509.  [x509_verify leaf intermediates roots dns time usages] is
    [Certificate.Verify] with the intermediates added to a fresh pool in order. *)
Class X509Lib : Type := {
  pkix_name : Type;
  empty_name : pkix_name;
  cert_pool : Type;
  verify_error : Type;
  x509_parse : bytes → option (StdCert pkix_name);
  x509_verify : StdCert pkix_name → list (StdCert pkix_name) → cert_pool → bytes → Time → list Z →
    verify_error + list (list (StdCert pkix_name));
  crl_signed_by : RevocationList → StdCert pkix_name → bool
}.

Module X509.
Section Package.
Context `{L : X509Lib}.

Notation Cert := (StdCert pkix_name).

Inductive error : Type :=
| ErrEmptyChain
| ErrEmptyInput
| ErrNilCertificate
| ErrNilRoots
| ErrMalformedCertificate
| ErrUnsupportedPublicKeyAlgorithm
| ErrUnsupportedSignatureAlgorithm
| ErrCRLIssuerNotFound
| ErrCRLSignatureInvalid
| ErrCRLOutsideValidity
| ErrCertificateRevoked
| ErrVerify (e : verify_error)
| ErrRsa (e : Rsa.error)
| ErrEcdsa (e : Ecdsa.error)
| ErrEd25519 (e : Ed25519.error).

(** A [*Certificate]; nil, or a wrapper of nil, is [None]. *)
Definition Certificate : Type := option Cert.

Definition supportedPublicKeyAlgorithm (alg : PublicKeyAlgorithm) : bool :=
  match alg with RSA | ECDSA | Ed25519Alg => true | _ => false end.

Definition ParseCertificate (der : bytes) : outcome error Certificate :=
  if zlen der =? 0 then Err ErrEmptyInput
  else
    match x509_parse der with
    | None => Err ErrMalformedCertificate
    | Some cert =>
        if negb (supportedPublicKeyAlgorithm (CertPublicKeyAlgorithm cert)) then Err ErrUnsupportedPublicKeyAlgorithm
        else Ok (Some cert)
    end.

(** ** The subject key *)

(** The wrapper types, RSA keys with their scheme. *)
Inductive TrustKey : Type :=
| PSSKey (k : Rsa.rsaPublicKey)
| PKCS1Key (k : Rsa.rsaPublicKey)
| EcdsaKey (k : Ecdsa.PublicKey)
| Ed25519Key (k : Ed25519.PublicKey).

(** [crypto.SHA1] and [crypto.MD5]; [crypto.Hash(0)] is no hash. *)
Definition MD5 : Hash := OtherHash 2.
Definition SHA1 : Hash := OtherHash 3.
Definition NoHash : Hash := OtherHash 0.

Definition rsaPublicKey (c : Cert) : outcome error TrustKey :=
  match CertPublicKey c with
  | CertRSA key =>
      let pkcs1 hash := k ← wrap_err ErrRsa (Rsa.NewPKCS1PublicKey (Some key) hash); Ok (PKCS1Key k) in
      let pss hash := k ← wrap_err ErrRsa (Rsa.NewPSSPublicKey (Some key) hash); Ok (PSSKey k) in
      match CertSignatureAlgorithm c with
      | SHA256WithRSA => pkcs1 SHA256
      | SHA384WithRSA => pkcs1 SHA384
      | SHA512WithRSA => pkcs1 SHA512
      | SHA256WithRSAPSS => pss SHA256
      | SHA384WithRSAPSS => pss SHA384
      | SHA512WithRSAPSS => pss SHA512
      | SHA1WithRSA => pkcs1 SHA1
      | MD5WithRSA => pkcs1 MD5
      | _ => Err ErrUnsupportedSignatureAlgorithm
      end
  | _ => Err ErrMalformedCertificate
  end.

Definition ecdsaPublicKey (c : Cert) : outcome error TrustKey :=
  match CertPublicKey c with
  | CertECDSA key =>
      let hash := match EcCurve key with P256 => SHA256 | P384 => SHA384 | OtherCurve _ => NoHash end in
      k ← wrap_err ErrEcdsa (Ecdsa.NewPublicKey (Some key) hash); Ok (EcdsaKey k)
  | _ => Err ErrMalformedCertificate
  end.

Definition ed25519PublicKey (c : Cert) : outcome error TrustKey :=
  match CertPublicKey c with
  | CertEd25519 key => k ← wrap_err ErrEd25519 (Ed25519.NewPublicKey key); Ok (Ed25519Key k)
  | _ => Err ErrMalformedCertificate
  end.

Definition Certificate_PublicKey (c : Certificate) : outcome error TrustKey :=
  match c with
  | None => Err ErrNilCertificate
  | Some c =>
      match CertPublicKeyAlgorithm c with
      | RSA => rsaPublicKey c
      | ECDSA => ecdsaPublicKey c
      | Ed25519Alg => ed25519PublicKey c
      | _ => Err ErrUnsupportedPublicKeyAlgorithm
      end
  end.

Definition PublicKey (cert : Certificate) : outcome error TrustKey :=
  match cert with None => Err ErrNilCertificate | Some _ => Certificate_PublicKey cert end.

(** ** Paths *)

(** [CRLs] are pointers. *)
Record VerifyOptions : Type := MkOptions {
  CurrentTime : Time;
  DNSName : bytes;
  Intermediates : list Certificate;
  KeyUsages : list Z;
  CRLs : list (option RevocationList)
}.

(** [x509.ExtKeyUsageServerAuth]. *)
Definition ExtKeyUsageServerAuth : Z := 1.

(** Every entry of a list of certificates, or nothing if one is nil. *)
Fixpoint non_nil (l : list Certificate) : option (list Cert) :=
  match l with
  | [] => Some []
  | Some c :: l' => cons c <$> non_nil l'
  | None :: _ => None
  end.

(** The map from raw subjects to certificates: of several certificates with one subject,
    the last one. *)
Definition issuer_of (certs : list Cert) (raw : bytes) : option Cert :=
  find (λ c, bytes_eqb (RawSubject c) raw) (rev certs).

Definition authenticate (issuers : list Cert) (now : Time) (crl : RevocationList) : outcome error unit :=
  match issuer_of issuers (CRLRawIssuer crl) with
  | None => Err ErrCRLIssuerNotFound
  | Some issuer =>
      if negb (crl_signed_by crl issuer) then Err ErrCRLSignatureInvalid
      else if Before now (ThisUpdate crl) || After now (NextUpdate crl) then Err ErrCRLOutsideValidity
      else Ok tt
  end.

(** A round of the loop over [opts.CRLs]: a nil list panics there, so the loops that come
    later see none. *)
Definition authenticated (issuers : list Cert) (now : Time) (crl : option RevocationList) : outcome error RevocationList :=
  match crl with
  | None => Panic
  | Some crl => _ ← authenticate issuers now crl; Ok crl
  end.

(** The entries of one list; [entry.SerialNumber.Cmp(nil)] panics. *)
Definition listed (cert : Cert) (crl : RevocationList) : outcome error bool :=
  if negb (bytes_eqb (RawIssuer cert) (CRLRawIssuer crl)) then Ok false
  else
    match RevokedCertificateEntries crl with
    | [] => Ok false
    | entries => match SerialNumber cert with None => Panic | Some n => Ok (existsb (Z.eqb n) entries) end
    end.

(** The last certificate of a chain is the anchor. *)
Fixpoint checkRevocation (chain : list Cert) (crls : list RevocationList) : outcome error unit :=
  match chain with
  | [] | [_] => Ok tt
  | cert :: chain' =>
      _ ← each (λ _ crl, b ← listed cert crl; if b : bool then Err ErrCertificateRevoked else Ok tt) 0 crls;
      checkRevocation chain' crls
  end.

(** The first clean chain decides; otherwise the failure of the first chain, and no
    failure if there is no chain. *)
Fixpoint first_clean (chains : list (list Cert)) (crls : list RevocationList) (firstErr : option error) : outcome error unit :=
  match chains with
  | [] => match firstErr with Some e => Err e | None => Ok tt end
  | chain :: chains' =>
      match checkRevocation chain crls with
      | Ok _ => Ok tt
      | Err e => first_clean chains' crls (Some (default e firstErr))
      | Panic => Panic
      | OutOfFuel => OutOfFuel
      end
  end.

(** The instant of the check: [opts.CurrentTime], or the clock for the zero value. *)
Definition verify_time (opts : VerifyOptions) (clock : Time) : Time :=
  if IsZero (CurrentTime opts) then clock else CurrentTime opts.

Definition key_usages (opts : VerifyOptions) : list Z :=
  match KeyUsages opts with [] => [ExtKeyUsageServerAuth] | l => l end.

Definition VerifyPath (certs : list Certificate) (roots : option cert_pool) (opts : VerifyOptions) (clock : Time) :
    outcome error unit :=
  match certs with
  | [] => Err ErrEmptyChain
  | _ =>
      match roots with
      | None => Err ErrNilRoots
      | Some roots =>
          match non_nil certs, non_nil (Intermediates opts) with
          | Some (leaf :: rest), Some intermediates =>
              let now := verify_time opts clock in
              match x509_verify leaf (rest ++ intermediates) roots (DNSName opts) now (key_usages opts) with
              | inl e => Err (ErrVerify e)
              | inr chains =>
                  match CRLs opts with
                  | [] => Ok tt
                  | crls =>
                      let issuers := (leaf :: rest) ++ intermediates ++ mjoin chains in
                      crls ← each (λ _, authenticated issuers now) 0 crls;
                      first_clean chains crls None
                  end
              end
          | _, _ => Err ErrNilCertificate
          end
      end
  end.

(** ** Accessors *)

Definition get {A} (zero : A) (f : Cert → A) (c : Certificate) : A := match c with Some c => f c | None => zero end.

Definition Certificate_Subject : Certificate → pkix_name := get empty_name Subject.
Definition Certificate_Issuer : Certificate → pkix_name := get empty_name Issuer.
Definition Certificate_NotBefore : Certificate → Time := get zero_time NotBefore.
Definition Certificate_NotAfter : Certificate → Time := get zero_time NotAfter.
Definition Certificate_SerialNumber : Certificate → Z := get 0 (λ c, default 0 (SerialNumber c)).
Definition Certificate_KeyUsage : Certificate → Z := get 0 KeyUsage.
Definition Certificate_ExtKeyUsage : Certificate → list Z := get [] ExtKeyUsage.
Definition Certificate_PublicKeyAlgorithm : Certificate → PublicKeyAlgorithm := get UnknownPublicKeyAlgorithm CertPublicKeyAlgorithm.
Definition Certificate_SignatureAlgorithm : Certificate → SignatureAlgorithm := get UnknownSignatureAlgorithm CertSignatureAlgorithm.
Definition Certificate_IsCA : Certificate → bool := get false IsCA.
Definition Certificate_Extensions : Certificate → list Extension := get [] Extensions.
Definition Certificate_Raw : Certificate → bytes := get [] Raw.
Definition Certificate_RawSubjectPublicKeyInfo : Certificate → bytes := get [] RawSubjectPublicKeyInfo.
End Package.
End X509.
