(* ===== verification/X509Proofs.v ===== *)
(** * Properties of certificates and paths

    [VerifyPath] accepts exactly when the standard library builds a chain and, if
    revocation lists are supplied, each of them is authentic and current and some chain
    is free of listed certificates; the lists that matter are signed inside a verified
    chain; and the key of a parsed certificate is within the policy of its package. *)
From S2P Require Import Prelude GoBig GoTime Signature CryptoKeys CryptoKeysProofs X509.
Import GoTime Signature X509.
#[local] Open Scope Z_scope.

(** Consecutive certificates of a chain. *)
Definition linked `{X509Lib} (chain : list (StdCert pkix_name)) : Prop :=
  ∀ i c d, chain !! i = Some c → chain !! S i = Some d → RawIssuer c = RawSubject d.

(** What crypto/x509 documents of [Certificate.Verify]: one or more chains, each from the
    leaf along issuers, of parsed certificates, which have a serial number. *)
Class X509Laws `{X509Lib} : Prop := verified_chains leaf intermediates roots dns now usages chains :
  x509_verify leaf intermediates roots dns now usages = inr chains →
  chains ≠ [] ∧ ∀ chain, chain ∈ chains →
    head chain = Some leaf ∧ linked chain ∧ ∀ c, c ∈ chain → is_Some (SerialNumber c).

Section Paths.
Context `{L : X509Lib}.
Notation Cert := (StdCert pkix_name).

(** The certificate is on a list of its issuer. *)
Definition revoked (crls : list RevocationList) (c : Cert) : Prop :=
  ∃ crl n, crl ∈ crls ∧ RawIssuer c = CRLRawIssuer crl ∧ SerialNumber c = Some n ∧ n ∈ RevokedCertificateEntries crl.

(** No certificate of the chain below the anchor is revoked. *)
Definition clean (crls : list RevocationList) (chain : list Cert) : Prop :=
  ∀ i c, chain !! i = Some c → (S i < length chain)%nat → ¬ revoked crls c.

(** Signed by the certificate that stands for the issuer, and within its window. *)
Definition authentic (issuers : list Cert) (now : Time) (crl : RevocationList) : Prop :=
  ∃ issuer, issuer_of issuers (CRLRawIssuer crl) = Some issuer ∧ crl_signed_by crl issuer = true ∧
    Before now (ThisUpdate crl) = false ∧ After now (NextUpdate crl) = false.

Lemma authenticate_Ok issuers now crl u : authenticate issuers now crl = Ok u ↔ authentic issuers now crl.
Proof.
  unfold authenticate, authentic. destruct u, (issuer_of issuers (CRLRawIssuer crl)) as [i|]; [|split; [done|by intros (? & ? & _)]].
  destruct (crl_signed_by crl i) eqn:Hs; cbn [negb]; [|split; [done|by intros (? & [= <-] & ? & _); congruence]].
  destruct (Before now (ThisUpdate crl)) eqn:Hb, (After now (NextUpdate crl)) eqn:Ha; cbn [orb];
    (split; [done|by intros (? & [= <-] & ? & ? & ?)]) || (split; [intros _; by exists i|done]).
Qed.

Lemma each_unit {E A} (f : A → outcome E unit) i l : (∃ us, each (λ _, f) i l = Ok us) ↔ Forall (λ x, f x = Ok tt) l.
Proof.
  revert i. induction l as [|x l IH]; intros i; cbn [each]; [split; [by constructor|by eexists]|].
  rewrite Forall_cons, <- (IH (S i)). destruct (f x) as [[]| | |]; cbn; try naive_solver.
  destruct (each (λ _, f) (S i) l); naive_solver.
Qed.

Lemma listed_spec c crl n : SerialNumber c = Some n →
  listed c crl = Ok (bool_decide (RawIssuer c = CRLRawIssuer crl ∧ n ∈ RevokedCertificateEntries crl)).
Proof.
  intros Hn. unfold listed. destruct (bytes_eqb (RawIssuer c) (CRLRawIssuer crl)) eqn:E; cbn [negb].
  - apply bytes_eqb_eq in E. destruct (RevokedCertificateEntries crl) as [|z l] eqn:El.
    + rewrite bool_decide_eq_false_2; [done|]. intros [_ H]. by apply elem_of_nil in H.
    + rewrite Hn. f_equal. apply eq_true_iff_eq. rewrite bool_decide_eq_true, existsb_exists. setoid_rewrite Z.eqb_eq.
      setoid_rewrite <- list_elem_of_In. naive_solver.
  - rewrite bool_decide_eq_false_2; [done|]. intros [H _]. rewrite H in E. by rewrite (proj2 (bytes_eqb_eq _ _)) in E.
Qed.

Lemma checkRevocation_spec crls chain : (∀ c, c ∈ chain → is_Some (SerialNumber c)) →
  (checkRevocation chain crls = Ok tt ∧ clean crls chain) ∨
  (checkRevocation chain crls = Err ErrCertificateRevoked ∧ ¬ clean crls chain).
Proof.
  induction chain as [|c chain IH]; intros Hs; [left; split; [done|]; by intros i c Hi|].
  destruct chain as [|d chain]; [left; split; [done|]; intros [|i] c' Hi Hl; cbn in Hl; lia|].
  destruct (Hs c) as [n Hn]; [by left|]. 
  set (f := λ crl, b ← listed c crl; if b : bool then Err ErrCertificateRevoked else Ok tt).
  change (checkRevocation (c :: d :: chain) crls) with (_ ← each (λ _, f) 0 crls; checkRevocation (d :: chain) crls).
  assert (∀ i, (each (λ _, f) i crls = Err ErrCertificateRevoked ∧ revoked crls c) ∨
    (∃ us, each (λ _, f) i crls = Ok us) ∧ ¬ revoked crls c) as Hf.
  { clear IH. induction crls as [|crl crls IHl]; intros i; cbn [each].
    - right. split; [by eexists|]. intros (? & ? & H & _). by apply elem_of_nil in H.
    - change (f crl) with (b ← listed c crl; if b : bool then Err ErrCertificateRevoked else Ok tt).
      rewrite (listed_spec _ _ _ Hn). cbn [mbind outcome_bind]. case_bool_decide as Hl; cbn.
      + left. split; [done|]. exists crl, n. split; [by left|naive_solver].
      + destruct (IHl (S i)) as [[-> (crl' & n' & H' & ?)]|[[us ->] Hr]].
        * left. split; [done|]. exists crl', n'. split; [by right|done].
        * right. split; [by eexists|]. intros (crl' & n' & [->|H']%elem_of_cons & Hi & Hn' & He); [|by apply Hr; exists crl', n'].
          apply Hl. split; [done|]. congruence. }
  destruct (Hf 0%nat) as [[-> Hr]|[[us ->] Hr]]; cbn [mbind outcome_bind].
  - right. split; [done|]. intros Hc. apply (Hc 0%nat c); [done|cbn; lia|done].
  - destruct IH as [[-> Hc]|[-> Hc]]; [by intros x Hx; apply Hs; right| |].
    + left. split; [done|]. intros [|i] x Hx Hi; [by injection Hx as <-|]. apply (Hc i x Hx). cbn in *. lia.
    + right. split; [done|]. intros Hc'. apply Hc. intros i x Hx Hi. apply (Hc' (S i) x Hx). cbn in *. lia.
Qed.

Lemma first_clean_Ok crls chains e : (∀ chain c, chain ∈ chains → c ∈ chain → is_Some (SerialNumber c)) →
  first_clean chains crls e = Ok tt ↔ (∃ chain, chain ∈ chains ∧ clean crls chain) ∨ chains = [] ∧ e = None.
Proof.
  revert e. induction chains as [|ch chains IH]; intros e Hs; cbn [first_clean].
  - split; [destruct e; by right|]. intros [(c & H & _)|[_ ->]]; [by apply elem_of_nil in H|done].
  - destruct (checkRevocation_spec crls ch) as [[-> Hc]|[-> Hc]]; [by intros c; apply Hs; left| |].
    + split; [|done]. intros _. left. exists ch. split; [by left|done].
    + rewrite IH by (intros c' x Hc'; apply Hs; by right). split.
      * intros [(c & ? & ?)|[_ [=]]]. left. exists c. split; [by right|done].
      * intros [(c & [->|?]%elem_of_cons & ?)|[[=] _]]; [done|]. left. by exists c.
Qed.

Lemma non_nil_Some l cs : non_nil l = Some cs ↔ l = Some <$> cs.
Proof.
  revert cs. induction l as [|[c|] l IH]; intros cs; cbn [non_nil].
  - split; [by intros [= <-]|]. by destruct cs.
  - rewrite fmap_Some. setoid_rewrite IH. split; [by intros (k & -> & ->)|]. destruct cs as [|d cs]; [done|].
    intros [= -> ->]. by exists cs.
  - split; [done|]. by destruct cs.
Qed.

(** All the lists are there and authentic, and they are what the next loop works on. *)
Lemma authenticated_all issuers now i l crls :
  each (λ _, authenticated issuers now) i l = Ok crls ↔ l = Some <$> crls ∧ Forall (authentic issuers now) crls.
Proof.
  revert i crls. induction l as [|[crl|] l IH]; intros i crls; cbn [each authenticated].
  - split; [by intros [= <-]|]. by destruct crls as [|? ?]; [|intros [? _]].
  - split.
    + intros (x & (u & Ha%authenticate_Ok & [= <-])%bind_Ok & Hb)%bind_Ok. apply bind_Ok in Hb as (crls' & [-> Hf]%IH & [= <-]).
      split; [done|]. by constructor.
    + intros [E Hf]. destruct crls as [|c crls]; [done|]. injection E as -> ->. apply Forall_cons in Hf as [Ha Hf].
      apply bind_Ok. exists c. split; [apply bind_Ok; exists tt; split; [by apply authenticate_Ok|done]|].
      apply bind_Ok. exists crls. split; [by apply IH|done].
  - split; [done|]. by destruct crls as [|? ?]; intros [? _].
Qed.

(** What a path has to satisfy; [chains] is what the standard library returned. *)
Definition path_ok (opts : VerifyOptions) (now : Time) (certs : list Cert) (chains : list (list Cert)) : Prop :=
  CRLs opts = [] ∨
  ∃ crls, CRLs opts = Some <$> crls ∧ Forall (authentic (certs ++ mjoin chains) now) crls ∧
    ∃ chain, chain ∈ chains ∧ clean crls chain.

Lemma VerifyPath_spec `{LW : !X509Laws} certs roots opts clock :
  VerifyPath certs roots opts clock = Ok tt ↔
  ∃ leaf rest intermediates pool chains,
    certs = Some <$> leaf :: rest ∧ roots = Some pool ∧ Intermediates opts = Some <$> intermediates ∧
    x509_verify leaf (rest ++ intermediates) pool (DNSName opts) (verify_time opts clock) (key_usages opts) = inr chains ∧
    path_ok opts (verify_time opts clock) ((leaf :: rest) ++ intermediates) chains.
Proof.
  unfold VerifyPath, path_ok. split.
  - destruct certs as [|c0 certs0]; [done|]. destruct roots as [pool|]; [|done].
    destruct (non_nil (c0 :: certs0)) as [[|leaf rest]|] eqn:Hc; [done| |done].
    destruct (non_nil (Intermediates opts)) as [ints|] eqn:Hi; [|done]. apply non_nil_Some in Hc, Hi.
    destruct (x509_verify _ _ _ _ _ _) as [e|chains] eqn:Hv; [done|]. intros H.
    exists leaf, rest, ints, pool, chains. split_and!; [done..|]. destruct (CRLs opts) as [|crl0 crls0]; [by left|]. right.
    apply bind_Ok in H as (crls & [E Ha]%authenticated_all & Hf). pose proof (verified_chains _ _ _ _ _ _ _ Hv) as [Hne Hch].
    exists crls. split; [done|]. split; [by rewrite <- app_assoc|].
    apply first_clean_Ok in Hf as [?|[? _]]; [done|done|]. intros chain c Hin Hc'. by apply (Hch chain Hin).
  - intros (leaf & rest & ints & pool & chains & -> & -> & Hi & Hv & Hok). rewrite fmap_cons.
    assert (non_nil (Some leaf :: (Some <$> rest)) = Some (leaf :: rest)) as -> by by apply non_nil_Some.
    apply non_nil_Some in Hi. rewrite Hi, Hv. destruct (CRLs opts) as [|crl0 crls0]; [done|].
    destruct Hok as [?|(crls & E & Ha & chain & Hin & Hcl)]; [done|]. pose proof (verified_chains _ _ _ _ _ _ _ Hv) as [Hne Hch].
    rewrite <- app_assoc in Ha. apply bind_Ok. exists crls. split; [by apply authenticated_all|].
    apply first_clean_Ok; [|left; by exists chain]. intros chain' c Hin' Hc'. by apply (Hch chain' Hin').
Qed.

(** C35.  A path is accepted exactly when every entry is there, roots are given, the standard
    library verifies the leaf against them, and - if revocation lists are supplied -
    none of them is nil, each is current and signed by the certificate that stands for
    its issuer, the last one with that subject among the path, the intermediates and the
    verified chains, and some verified chain has no listed certificate below its anchor. *)
Theorem VerifyPath_iff `{LW : !X509Laws} certs roots opts clock :
  VerifyPath certs roots opts clock = Ok tt ↔
  ∃ leaf rest intermediates pool chains,
    certs = Some <$> leaf :: rest ∧ roots = Some pool ∧ Intermediates opts = Some <$> intermediates ∧
    x509_verify leaf (rest ++ intermediates) pool (DNSName opts) (verify_time opts clock) (key_usages opts) = inr chains ∧
    path_ok opts (verify_time opts clock) ((leaf :: rest) ++ intermediates) chains.
Proof. apply VerifyPath_spec. Qed.

(** A revoked certificate never passes: if the leaf is on a supplied list of its issuer,
    no path is accepted, unless the leaf itself is an anchor. *)
Theorem VerifyPath_revoked_leaf `{LW : !X509Laws} leaf rest roots opts clock : revoked (omap id (CRLs opts)) leaf →
  (∀ pool intermediates chains chain,
    x509_verify leaf (rest ++ intermediates) pool (DNSName opts) (verify_time opts clock) (key_usages opts) = inr chains →
    chain ∈ chains → (1 < length chain)%nat) →
  VerifyPath (Some <$> leaf :: rest) roots opts clock ≠ Ok tt.
Proof.
  intros Hr Hlen (leaf' & rest' & ints & pool & chains & Hc & -> & Hi & Hv & Hok)%VerifyPath_spec.
  apply (inj (fmap Some)) in Hc. injection Hc as <- <-. destruct Hok as [Hn|(crls & Hn & _ & chain & Hin & Hcl)]; rewrite Hn in Hr.
  - destruct Hr as (crl & n & Hcrl & _). by apply elem_of_nil in Hcrl.
  - destruct (verified_chains _ _ _ _ _ _ _ Hv) as [_ Hch]. destruct (Hch chain Hin) as [Hh _].
    specialize (Hlen _ _ _ _ Hv Hin). destruct chain as [|c chain]; [done|]. injection Hh as ->.
    assert (omap id (Some <$> crls) = crls) as E by (clear; by induction crls as [|? ? IH]; [|cbn; rewrite IH]). rewrite E in Hr.
    by apply (Hcl 0%nat leaf).
Qed.

(** *** The certificate that stands for an issuer *)

Lemma issuer_of_app certs certs' raw c : issuer_of certs' raw = Some c → issuer_of (certs ++ certs') raw = Some c.
Proof. unfold issuer_of. rewrite rev_app_distr. intros H. induction (rev certs') as [|d l IH]; [done|]. cbn in *. by destruct (bytes_eqb _ _); [|apply IH]. Qed.

Lemma issuer_of_found certs raw d : d ∈ certs → RawSubject d = raw → ∃ c, issuer_of certs raw = Some c ∧ c ∈ certs ∧ RawSubject c = raw.
Proof.
  intros Hd Hr. unfold issuer_of. destruct (find _ (rev certs)) as [c|] eqn:E.
  - apply find_some in E as [Hin Hc%bytes_eqb_eq]. exists c. split_and!; [done| |done]. by apply list_elem_of_In, in_rev.
  - exfalso. eapply find_none in E; [|apply in_rev; rewrite rev_involutive; by apply list_elem_of_In].
    by rewrite (proj2 (bytes_eqb_eq _ _)) in E.
Qed.

(** Trust: the lists that decide about the accepted chain - those of the issuer of a
    certificate below the anchor - are signed by a certificate of a verified chain, never
    by one that the caller merely supplied. *)
Theorem VerifyPath_lists_trusted `{LW : !X509Laws} leaf rest roots opts clock pool intermediates chains chain i c crl :
  VerifyPath (Some <$> leaf :: rest) roots opts clock = Ok tt →
  roots = Some pool → Intermediates opts = Some <$> intermediates →
  x509_verify leaf (rest ++ intermediates) pool (DNSName opts) (verify_time opts clock) (key_usages opts) = inr chains →
  chain ∈ chains → chain !! i = Some c → (S i < length chain)%nat → Some crl ∈ CRLs opts → RawIssuer c = CRLRawIssuer crl →
  ∃ issuer, (∃ chain', chain' ∈ chains ∧ issuer ∈ chain') ∧ RawSubject issuer = RawIssuer c ∧ crl_signed_by crl issuer = true ∧
    Before (verify_time opts clock) (ThisUpdate crl) = false ∧ After (verify_time opts clock) (NextUpdate crl) = false.
Proof.
  intros (leaf' & rest' & ints & pool' & chains' & Hc & Hp' & Hi' & Hv' & Hok)%VerifyPath_spec -> Hi Hv Hin Hci Hlt Hcrl Hiss.
  apply (inj (fmap Some)) in Hc. injection Hc as <- <-. injection Hp' as <-.
  rewrite Hi in Hi'. apply (inj (fmap Some)) in Hi'. subst ints. rewrite Hv in Hv'. injection Hv' as <-.
  destruct Hok as [Hn|(crls & Hn & Ha & _)]; rewrite Hn in Hcrl; [by apply elem_of_nil in Hcrl|].
  apply list_elem_of_fmap in Hcrl as (? & [= <-] & Hcrl).
  rewrite list.Forall_forall in Ha. destruct (Ha crl Hcrl) as (issuer & Hof & Hs & Hb & Haf).
  destruct (verified_chains _ _ _ _ _ _ _ Hv) as [_ Hch]. destruct (Hch chain Hin) as (_ & Hl & _).
  destruct (lookup_lt_is_Some_2 chain (S i)) as [d Hd]; [done|]. specialize (Hl i c d Hci Hd).
  destruct (issuer_of_found (mjoin chains) (CRLRawIssuer crl) d) as (issuer' & Hof' & Hin' & Hsub).
  { apply list_elem_of_join. exists chain. split; [by eapply list_elem_of_lookup_2|done]. } { congruence. }
  rewrite (issuer_of_app _ _ _ _ Hof') in Hof. injection Hof as <-. exists issuer'. split_and!; [|congruence|done..].
  apply list_elem_of_join in Hin' as (chain' & ? & ?). by exists chain'.
Qed.

(** ** The subject key *)

(** A key that fits the certificate: RSA within the policy, with the scheme and the hash
    of the signature algorithm; ECDSA with the hash of its curve; 32 bytes of Ed25519. *)
Definition rsa_scheme (s : SignatureAlgorithm) : option (bool * Hash) :=
  match s with
  | SHA256WithRSA => Some (false, SHA256)
  | SHA384WithRSA => Some (false, SHA384)
  | SHA512WithRSA => Some (false, SHA512)
  | SHA256WithRSAPSS => Some (true, SHA256)
  | SHA384WithRSAPSS => Some (true, SHA384)
  | SHA512WithRSAPSS => Some (true, SHA512)
  | _ => None
  end.

Definition key_fits (c : Cert) (k : TrustKey) : Prop :=
  match k with
  | PSSKey r => valid_public r ∧ rsa_scheme (CertSignatureAlgorithm c) = Some (true, Rsa.pub_hash r) ∧
      ∃ key, CertPublicKey c = CertRSA key ∧ Rsa.pub_key r = Some key
  | PKCS1Key r => valid_public r ∧ rsa_scheme (CertSignatureAlgorithm c) = Some (false, Rsa.pub_hash r) ∧
      ∃ key, CertPublicKey c = CertRSA key ∧ Rsa.pub_key r = Some key
  | EcdsaKey r => ∃ key, CertPublicKey c = CertECDSA key ∧ Ecdsa.pub_key r = Some key ∧
      (EcCurve key = P256 ∧ Ecdsa.pub_hash r = SHA256 ∨ EcCurve key = P384 ∧ Ecdsa.pub_hash r = SHA384)
  | Ed25519Key r => CertPublicKey c = CertEd25519 (Ed25519.pub_key r) ∧ length (Ed25519.pub_key r) = 32%nat
  end.

Lemma pkcs1_key_fits c key h k : CertPublicKey c = CertRSA key → rsa_scheme (CertSignatureAlgorithm c) = Some (false, h) ∨ ¬ hash_allowed h →
  (k ← wrap_err ErrRsa (Rsa.NewPKCS1PublicKey (Some key) h); Ok (PKCS1Key k)) = Ok k → key_fits c k.
Proof.
  intros Hc Hh (r & Hr%wrap_err_Ok & [= <-])%bind_Ok. apply new_public in Hr as [-> Hv]. split; [done|]. split; [|by exists key].
  destruct Hh as [Hh|Hh]; [done|]. by destruct Hv as [? _].
Qed.

Lemma pss_key_fits c key h k : CertPublicKey c = CertRSA key → rsa_scheme (CertSignatureAlgorithm c) = Some (true, h) →
  (k ← wrap_err ErrRsa (Rsa.NewPSSPublicKey (Some key) h); Ok (PSSKey k)) = Ok k → key_fits c k.
Proof.
  intros Hc Hh (r & Hr%wrap_err_Ok & [= <-])%bind_Ok. apply new_public in Hr as [-> Hv]. split; [done|]. split; [done|by exists key].
Qed.

(** The key derived from a certificate fits it.  In particular an RSA key never comes
    with SHA-1 or MD5, which are routed to the constructor, or with fewer than 2048
    bits. *)
Theorem PublicKey_sound c k : PublicKey (Some c) = Ok k → key_fits c k.
Proof.
  unfold PublicKey, Certificate_PublicKey. destruct (CertPublicKeyAlgorithm c); try done.
  - unfold rsaPublicKey. destruct (CertPublicKey c) as [key| | |] eqn:Hk; try done.
    assert (¬ hash_allowed SHA1 ∧ ¬ hash_allowed MD5) as [H1 H5] by (unfold hash_allowed; split; naive_solver).
    destruct (CertSignatureAlgorithm c) eqn:Hs; try done; intros H;
      (eapply pss_key_fits; [done|by rewrite Hs|done]) || (eapply pkcs1_key_fits; [done| |exact H]; first [by right|left; by rewrite Hs]).
  - unfold ecdsaPublicKey. destruct (CertPublicKey c) as [|key| |] eqn:Hk; try done.
    intros (r & Hr%wrap_err_Ok & [= <-])%bind_Ok. exists key. split; [done|]. unfold Ecdsa.NewPublicKey in Hr.
    apply bind_Ok in Hr as (u & Hv & [= <-]). split; [done|]. cbn. destruct (EcCurve key); [by left|by right|done].
  - unfold ed25519PublicKey. destruct (CertPublicKey c) as [| |key|] eqn:Hk; try done.
    intros (r & Hr%wrap_err_Ok & [= <-])%bind_Ok. unfold Ed25519.NewPublicKey in Hr.
    destruct (Z.eqb_spec (zlen key) Ed25519.PublicKeySize) as [Hl|]; [|done]. injection Hr as <-. split; [done|]. unfold Ed25519.PublicKeySize in Hl. cbn. lia.
Qed.

(** A parsed certificate always has a supported algorithm. *)
Theorem ParseCertificate_supported der c : ParseCertificate der = Ok c → PublicKey c ≠ Err ErrUnsupportedPublicKeyAlgorithm ∧ PublicKey c ≠ Err ErrNilCertificate.
Proof.
  unfold ParseCertificate. destruct (zlen der =? 0); [done|]. destruct (x509_parse der) as [cert|]; [|done].
  destruct (supportedPublicKeyAlgorithm _) eqn:Hs; [|done]. intros [= <-]. unfold PublicKey, Certificate_PublicKey.
  destruct (CertPublicKeyAlgorithm cert); try done; unfold rsaPublicKey, ecdsaPublicKey, ed25519PublicKey; repeat case_match; try done;
    match goal with |- context [wrap_err _ ?m] => by destruct m end.
Qed.
End Paths.

(** ** A toy authority *)

Module ToyX509.

Definition cert (subject issuer : byte) (serial : Z) (key : CertKey) (alg : PublicKeyAlgorithm) (sig : SignatureAlgorithm) : StdCert string :=
  MkCert _ [subject] [subject] [issuer] [] "" "" zero_time zero_time (Some serial) 0 [] true [] alg sig key.

Definition ed_key : CertKey := CertEd25519 (replicate 32 x07).
Definition root : StdCert string := cert x01 x01 1 ed_key Ed25519Alg (OtherSignatureAlgorithm 16).
Definition leaf : StdCert string := cert x02 x01 2 ed_key Ed25519Alg (OtherSignatureAlgorithm 16).

(** Certificates issued by the root verify, and its lists are signed. *)
#[local] Instance lib : X509Lib := {|
  pkix_name := string;
  empty_name := "";
  cert_pool := unit;
  verify_error := string;
  x509_parse der := if bool_decide (der = [x02]) then Some leaf else None;
  x509_verify l _ _ _ _ _ :=
    if bool_decide (RawIssuer l = [x01]) && bool_decide (SerialNumber l ≠ None) then inr [[l; root]] else inl "unknown authority"%string;
  crl_signed_by crl c := bytes_eqb (CRLRaw crl) (RawSubject c)
|}.

#[local] Instance laws : X509Laws.
Proof.
  intros l ints pool dns now us chains. cbv [x509_verify lib].
  case_bool_decide as Hi; [|done]. case_bool_decide as Hs; [|done].
  intros [= <-]. split; [done|]. intros chain ->%list_elem_of_singleton. split_and!; [done| |].
  - intros [|[|i]] c d; cbn; [|done|done]. intros [= <-] [= <-]. exact Hi.
  - intros c [->|Hc]%elem_of_cons; [by apply not_eq_None_Some, Hs|].
    apply list_elem_of_singleton in Hc as ->. by eexists.
Qed.

Definition crl (serials : list Z) : RevocationList := MkCRL [x01] [x01] (of_unix 0) (of_unix 100) serials.
Definition opts (serials : list Z) : VerifyOptions := MkOptions (of_unix 50) [] [] [] [Some (crl serials)].
End ToyX509.

Lemma VerifyPath_iff_witness :
  VerifyPath (L := ToyX509.lib) [Some ToyX509.leaf] (Some tt) (ToyX509.opts [3]) (of_unix 0) = Ok tt.
Proof.
  apply (VerifyPath_iff (LW := ToyX509.laws)). exists ToyX509.leaf, [], [], tt, [[ToyX509.leaf; ToyX509.root]].
  split; [reflexivity|]. split; [reflexivity|]. split; [reflexivity|]. split; [reflexivity|]. right. exists [ToyX509.crl [3]].
  split; [reflexivity|]. split.
  - apply Forall_cons. split; [|constructor]. exists ToyX509.root. split_and!; reflexivity.
  - exists [ToyX509.leaf; ToyX509.root]. split; [by left|]. intros [|[|i]] c Hc Hl; cbn in Hc, Hl; [|lia|done].
    injection Hc as <-. intros (crl & n & ->%list_elem_of_singleton & _ & [= <-] & Hn). cbn in Hn. apply list_elem_of_singleton in Hn. done.
Defined.

Lemma VerifyPath_revoked_leaf_witness :
  VerifyPath (L := ToyX509.lib) [Some ToyX509.leaf] (Some tt) (ToyX509.opts [2]) (of_unix 0) ≠ Ok tt.
Proof.
  apply (VerifyPath_revoked_leaf (LW := ToyX509.laws) ToyX509.leaf []).
  - exists (ToyX509.crl [2]), 2. split_and!; [by left|done|done|by left].
  - intros pool ints chains chain [= <-] ->%list_elem_of_singleton. cbn. lia.
Defined.

Lemma VerifyPath_lists_trusted_witness :
  ∃ issuer, (∃ chain', chain' ∈ [[ToyX509.leaf; ToyX509.root]] ∧ issuer ∈ chain') ∧ RawSubject issuer = [x01] ∧
    crl_signed_by (X509Lib := ToyX509.lib) (ToyX509.crl [3]) issuer = true ∧
    Before (of_unix 50) (of_unix 0) = false ∧ After (of_unix 50) (of_unix 100) = false.
Proof.
  apply (VerifyPath_lists_trusted (LW := ToyX509.laws) ToyX509.leaf [] (Some tt) (ToyX509.opts [3]) (of_unix 0) tt []
    [[ToyX509.leaf; ToyX509.root]] [ToyX509.leaf; ToyX509.root] 0 ToyX509.leaf (ToyX509.crl [3])); try done; [by left|cbn; lia|by left].
Defined.

Lemma PublicKey_sound_witness :
  key_fits (L := ToyX509.lib) ToyX509.leaf (Ed25519Key (Ed25519.MkPublic (replicate 32 x07))).
Proof. apply (PublicKey_sound (L := ToyX509.lib)). vm_compute. reflexivity. Defined.

Lemma ParseCertificate_supported_witness :
  PublicKey (L := ToyX509.lib) (Some ToyX509.leaf) ≠ Err ErrUnsupportedPublicKeyAlgorithm.
Proof. apply (ParseCertificate_supported (L := ToyX509.lib) [x02] (Some ToyX509.leaf)). reflexivity. Defined.
