(* ===== verification/Aead.v ===== *)
(** * The [crypto/aead] package, and GCM

    A translation of src/crypto/aead.  The interface [cipher.AEAD] of the standard
    library is the record [AEAD] with the laws [AeadLaws]; AES-GCM implements it and is
    written out after NIST SP 800-38D over the AES of Aes.v, XChaCha20-Poly1305 is
    golang.org/x/crypto and the class [ChaCha].  The two wrappers are proved against
    the interface. *)
From S2P Require Import Prelude GoIO GoBig Aes Signature CryptoKeys.
#[local] Open Scope Z_scope.

(** [cipher.AEAD]: [Seal] panics on a message that is too long. *)
Record AEAD : Type := MkAEAD {
  NonceSize : Z;
  Overhead : Z;
  Seal : bytes → bytes → bytes → outcome unit bytes;
  Open : bytes → bytes → bytes → option bytes
}.

(** Under one nonce and one associated text, [Open] inverts [Seal] and accepts nothing
    else. *)
Class AeadLaws (a : AEAD) : Prop := {
  seal_open nonce plain ad ct : zlen nonce = NonceSize a → Seal a nonce plain ad = Ok ct →
    Open a nonce ct ad = Some plain ∧ zlen ct = zlen plain + Overhead a;
  open_seal nonce ct ad plain : zlen nonce = NonceSize a → Open a nonce ct ad = Some plain → Seal a nonce plain ad = Ok ct
}.

(** [chacha20poly1305.NewX]. *)
Class ChaCha : Type := chacha_newx : bytes → option AEAD.

(** What it documents: a 32-byte key gives a cipher with 24-byte nonces and 16-byte tags. *)
Class ChaChaLaws `{ChaCha} : Prop := chacha_lawful key a : length key = 32%nat → chacha_newx key = Some a →
  AeadLaws a ∧ NonceSize a = 24 ∧ Overhead a = 16.

(** ** GCM *)

Module Gcm.

Definition xor_bytes : bytes → bytes → bytes := zip_with bxor.

(** The product of GF(2^128); the most significant bit of a block is the coefficient of
    the zeroth power, and [y] is multiplied by the indeterminate once per bit of [x]. *)
Fixpoint gf_mul_from (n : nat) (x v z : Z) : Z :=
  match n with
  | O => z
  | S n' =>
      let z' := if Z.testbit x (Z.of_nat n') then Z.lxor z v else z in
      let v' := if Z.odd v then Z.lxor (Z.shiftr v 1) (Z.shiftl 0xe1 120) else Z.shiftr v 1 in
      gf_mul_from n' x v' z'
  end.
Definition gf_mul (x y : Z) : Z := gf_mul_from 128 x y 0.

Fixpoint blocks (fuel : nat) (b : bytes) : list bytes :=
  match fuel, b with
  | S f, _ :: _ => take 16 b :: blocks f (drop 16 b)
  | _, _ => []
  end.

(** Zeros up to a multiple of 16 bytes. *)
Definition pad16 (b : bytes) : bytes := b ++ replicate (Z.to_nat ((- zlen b) `mod` 16)) x00.

Definition ghash (h : Z) (ad ct : bytes) : Z :=
  let text := pad16 ad ++ pad16 ct ++ be_bytes 8 (8 * zlen ad) ++ be_bytes 8 (8 * zlen ct) in
  foldl (λ y b, gf_mul (Z.lxor y (be_value b)) h) 0 (blocks (length text) text).

Section Cipher.
Context (c : Aes.Cipher).

(** The counter block of a 12-byte nonce. *)
Definition counter_block (nonce : bytes) (i : Z) : bytes := nonce ++ be_bytes 4 (i `mod` 2 ^ 32).

(** GCTR from counter [i], 16 bytes per round. *)
Fixpoint gctr (fuel : nat) (nonce : bytes) (i : Z) (data : bytes) : bytes :=
  match fuel, data with
  | S f, _ :: _ =>
      xor_bytes (take 16 data) (Aes.Encrypt c (counter_block nonce i)) ++ gctr f nonce (i + 1) (drop 16 data)
  | _, _ => []
  end.

Definition hash_key : Z := be_value (Aes.Encrypt c (replicate 16 x00)).

Definition tag (nonce ad ct : bytes) : bytes :=
  xor_bytes (be_bytes 16 (ghash hash_key ad ct)) (Aes.Encrypt c (counter_block nonce 1)).

(** The longest message, 2^32 - 2 blocks. *)
Definition max_length : Z := (2 ^ 32 - 2) * 16.

Definition seal (nonce plain ad : bytes) : outcome unit bytes :=
  if max_length <? zlen plain then Panic
  else
    let ct := gctr (length plain) nonce 2 plain in
    Ok (ct ++ tag nonce ad ct).

Definition open (nonce sealed ad : bytes) : option bytes :=
  if (zlen sealed <? 16) || (max_length + 16 <? zlen sealed) then None
  else
    let ct := take (length sealed - 16) sealed in
    if ct_equal (tag nonce ad ct) (drop (length sealed - 16) sealed) then Some (gctr (length ct) nonce 2 ct) else None.

Definition aead : AEAD := MkAEAD 12 16 seal open.
End Cipher.

(** Test cases 13 and 14 of the GCM specification. *)
Example gcm_case13 : (c ← Aes.NewCipher (replicate 32 x00); Some (hex_encode (tag c (replicate 12 x00) [] []))) =
  Some "530f8afbc74536b9a963b4f1c4cb738b"%string.
Proof. vm_compute. reflexivity. Qed.

Example gcm_case14 : (c ← Aes.NewCipher (replicate 32 x00);
    match seal c (replicate 12 x00) (replicate 16 x00) [] with Ok b => Some (hex_encode b) | _ => None end) =
  Some "cea7403d4d606b6e074ec5d3baf39d18d0d1c8a799996bf0265b98b5d48ab919"%string.
Proof. vm_compute. reflexivity. Qed.
End Gcm.

(** ** The package *)

Module Aead.

Inductive error : Type := ErrInvalidKey | ErrCiphertextTooShort | ErrDecrypt | ErrCipher | ErrNonce.

Definition nonceSize : Z := 12.
Definition tagSize : Z := 16.
Definition xNonceSize : Z := 24.

Record AES256GCM : Type := MkAES256GCM { gcm : AEAD }.
Record XChaCha20Poly1305 : Type := MkXChaCha { aead : AEAD }.

Definition NewAES256GCM (key : bytes) : outcome error AES256GCM :=
  if negb (zlen key =? 32) then Err ErrInvalidKey
  else match Aes.NewCipher key with None => Err ErrCipher | Some block => Ok (MkAES256GCM (Gcm.aead block)) end.

Definition NewXChaCha20Poly1305 `{ChaCha} (key : bytes) : outcome error XChaCha20Poly1305 :=
  if negb (zlen key =? 32) then Err ErrInvalidKey
  else match chacha_newx key with None => Err ErrCipher | Some a => Ok (MkXChaCha a) end.

Section Methods.
Context `{R : Random W}.

(** [Seal] reports no error; its panic is not one. *)
Definition sealed (m : outcome unit bytes) : outcome error bytes := wrap_err (λ _, ErrCipher) m.

Definition AES256GCM_Encrypt (a : AES256GCM) (plaintext versionType : bytes) : io W error bytes :=
  nonce ← run (λ _, ErrNonce) (rand_read nonceSize);
  ciphertext ← pure (sealed (Seal (gcm a) nonce plaintext versionType));
  mret (nonce ++ ciphertext).

Definition AES256GCM_Decrypt (a : AES256GCM) (ciphertext versionType : bytes) : outcome error bytes :=
  if zlen ciphertext <? nonceSize + tagSize then Err ErrCiphertextTooShort
  else
    let nonce := take (Z.to_nat nonceSize) ciphertext in
    let ct := drop (Z.to_nat nonceSize) ciphertext in
    match Open (gcm a) nonce ct versionType with
    | None => Err ErrDecrypt
    | Some plaintext => Ok plaintext
    end.

Definition XChaCha20Poly1305_Encrypt (x : XChaCha20Poly1305) (plaintext versionType : bytes) : io W error bytes :=
  nonce ← run (λ _, ErrNonce) (rand_read xNonceSize);
  ciphertext ← pure (sealed (Seal (aead x) nonce plaintext versionType));
  mret (nonce ++ ciphertext).

Definition XChaCha20Poly1305_Decrypt (x : XChaCha20Poly1305) (ciphertext versionType : bytes) : outcome error bytes :=
  if zlen ciphertext <? xNonceSize + tagSize then Err ErrCiphertextTooShort
  else
    let nonce := take (Z.to_nat xNonceSize) ciphertext in
    let ct := drop (Z.to_nat xNonceSize) ciphertext in
    match Open (aead x) nonce ct versionType with
    | None => Err ErrDecrypt
    | Some plaintext => Ok plaintext
    end.
End Methods.
End Aead.

Import Gcm Aead.

(** ** GCM is an AEAD *)

Lemma xor_bytes_length a b : length (xor_bytes a b) = (length a `min` length b)%nat.
Proof. apply length_zip_with. Qed.

Lemma xor_bytes_twice a k : (length a ≤ length k)%nat → xor_bytes (xor_bytes a k) k = a.
Proof.
  revert k. induction a as [|x a IH]; intros [|y k] Hl; cbn in *; try done || lia.
  f_equal; [apply bxor_twice|apply IH; lia].
Qed.

(** Only the last block is short. *)
Lemma first_block {A} (a t : list A) : (length a ≤ 16)%nat → (length a = 16%nat ∨ length t = 0%nat) →
  take 16 (a ++ t) = a ∧ drop 16 (a ++ t) = t.
Proof.
  intros Ha [Hl| ->%nil_length_inv].
  - split; [by apply take_app_length'|by apply drop_app_length'].
  - rewrite app_nil_r. split; [by apply take_ge|by apply drop_ge].
Qed.

Section Laws.
Context (c : Aes.Cipher).

Lemma gctr_length f nonce i data : (length data ≤ f)%nat → length (gctr c f nonce i data) = length data.
Proof.
  revert i data. induction f as [|f IH]; intros i [|x data] Hl; cbn [gctr]; try done; [cbn in Hl; lia|].
  assert (0 < length (x :: data))%nat as Hpos by (cbn [length]; lia). generalize dependent (x :: data). intros d Hl Hpos.
  rewrite length_app, xor_bytes_length, Aes.Encrypt_length, IH by (rewrite length_drop; lia).
  rewrite length_take, length_drop. lia.
Qed.

(** The keystream cancels. *)
Lemma gctr_twice f nonce i data : (length data ≤ f)%nat → gctr c f nonce i (gctr c f nonce i data) = data.
Proof.
  revert i data. induction f as [|f IH]; intros i data Hl; [by destruct data; [|cbn in Hl; lia]|].
  destruct data as [|x data]; [done|]. set (d := x :: data) in *.
  set (k := Aes.Encrypt c (counter_block nonce i)). assert (length k = 16%nat) as Hk by apply Aes.Encrypt_length.
  assert (gctr c (S f) nonce i d = xor_bytes (take 16 d) k ++ gctr c f nonce (i + 1) (drop 16 d)) as -> by done.
  assert (length (xor_bytes (take 16 d) k) = (16 `min` length d)%nat) as Hx by (rewrite xor_bytes_length, length_take, Hk; lia).
  set (t := gctr c f nonce (i + 1) (drop 16 d)). assert (length (drop 16 d) ≤ f)%nat as Hd by (rewrite length_drop; lia).
  assert (length t = length (drop 16 d)) as Ht by by apply gctr_length.
  destruct (xor_bytes (take 16 d) k ++ t) as [|y e] eqn:E.
  { apply (f_equal length) in E. rewrite length_app, Hx in E. subst d. cbn in E. lia. }
  cbn [gctr]. fold k. rewrite <- E.
  assert (take 16 (xor_bytes (take 16 d) k ++ t) = xor_bytes (take 16 d) k ∧ drop 16 (xor_bytes (take 16 d) k ++ t) = t) as [-> ->].
  { apply first_block; [rewrite Hx|rewrite length_drop in Ht]; lia. }
  rewrite xor_bytes_twice by (rewrite length_take; lia). unfold t. rewrite IH by done. apply take_drop.
Qed.

Lemma tag_length nonce ad ct : length (tag c nonce ad ct) = 16%nat.
Proof. unfold tag. by rewrite xor_bytes_length, be_bytes_length, Aes.Encrypt_length. Qed.

(** Whatever nonce length is advertised. *)
Lemma gcm_laws_any n : AeadLaws (MkAEAD n 16 (seal c) (open c)).
Proof.
  split.
  - intros nonce plain ad ct _. cbn [Seal Open Overhead]. unfold seal, open.
    destruct (Z.ltb_spec max_length (zlen plain)); [done|]. intros [= <-].
    set (t := gctr c (length plain) nonce 2 plain). assert (length t = length plain) as Ht by by apply gctr_length.
    rewrite length_app, tag_length, Ht. split; [|lia].
    rewrite (proj2 (Z.ltb_ge _ 16)), (proj2 (Z.ltb_ge (max_length + 16) _)) by lia. cbn [orb].
    replace (length plain + 16 - 16)%nat with (length t) by lia. rewrite take_app_length, drop_app_length, ct_equal_refl.
    f_equal. rewrite Ht. by apply gctr_twice.
  - intros nonce ct ad plain _. cbn [Seal Open]. unfold seal, open.
    destruct (Z.ltb_spec (zlen ct) 16); [done|]. destruct (Z.ltb_spec (max_length + 16) (zlen ct)); [done|]. cbn [orb].
    set (t := take (length ct - 16) ct). destruct (ct_equal _ _) eqn:E; [|done]. apply ct_equal_true in E. intros [= <-].
    assert (length t = (length ct - 16)%nat) as Ht by (unfold t; rewrite length_take; lia).
    rewrite gctr_length by done. rewrite (proj2 (Z.ltb_ge _ _)) by lia. rewrite gctr_twice by done. rewrite E.
    f_equal. apply take_drop.
Qed.

#[export] Instance gcm_laws : AeadLaws (Gcm.aead c) := gcm_laws_any 12.
End Laws.

(** ** The wrappers *)

(** The two methods share their shape: [Decrypt] with a nonce of [n] bytes in front. *)
Definition decrypt_with (n : Z) (a : AEAD) (ciphertext versionType : bytes) : outcome error bytes :=
  if zlen ciphertext <? n + tagSize then Err ErrCiphertextTooShort
  else match Open a (take (Z.to_nat n) ciphertext) (drop (Z.to_nat n) ciphertext) versionType with
       | None => Err ErrDecrypt
       | Some plaintext => Ok plaintext
       end.

Lemma decrypt_with_Ok n a ciphertext versionType plain : AeadLaws a → NonceSize a = n → 0 ≤ n → Overhead a = tagSize →
  decrypt_with n a ciphertext versionType = Ok plain ↔
  ∃ nonce ct, ciphertext = nonce ++ ct ∧ zlen nonce = n ∧ Seal a nonce plain versionType = Ok ct.
Proof.
  intros HL Hn Hn0 Ho. unfold decrypt_with. split.
  - destruct (Z.ltb_spec (zlen ciphertext) (n + tagSize)) as [|Hl]; [done|]. unfold tagSize in Hl.
    assert (zlen (take (Z.to_nat n) ciphertext) = n) as Ht by (rewrite length_take; lia).
    destruct (Open a _ _ versionType) as [p|] eqn:E; [|done]. intros [= ->].
    exists (take (Z.to_nat n) ciphertext), (drop (Z.to_nat n) ciphertext). split; [by rewrite take_drop|]. split; [done|].
    apply open_seal in E; [done|by rewrite Hn].
  - intros (nonce & ct & -> & Hl & Hs). apply seal_open in Hs as [Hop Hlen]; [|by rewrite Hn].
    rewrite length_app. rewrite Ho in Hlen. rewrite (proj2 (Z.ltb_ge _ _)) by lia.
    rewrite take_app_length', drop_app_length' by lia. by rewrite Hop.
Qed.

Lemma NewAES256GCM_Ok key a : NewAES256GCM key = Ok a → ∃ c, a = MkAES256GCM (Gcm.aead c).
Proof. unfold NewAES256GCM. destruct (negb _); [done|]. destruct (Aes.NewCipher key) as [c|]; [|done]. intros [= <-]. by exists c. Qed.

(** A 32-byte key always gives a cipher, any other length never. *)
Theorem NewAES256GCM_iff key : (∃ a, NewAES256GCM key = Ok a) ↔ length key = 32%nat.
Proof.
  unfold NewAES256GCM. destruct (Z.eqb_spec (zlen key) 32) as [E|E]; cbn [negb]; split; try lia; [|by intros [a [=]]].
  intros Hl. unfold Aes.NewCipher. rewrite Hl. by eexists.
Qed.

(** C37.  [Decrypt] accepts exactly what [Encrypt] can produce: a 12-byte nonce and the sealing
    of the returned plaintext under it with the same version and type. *)
Theorem AES256GCM_Decrypt_iff key a ciphertext versionType plain : NewAES256GCM key = Ok a →
  AES256GCM_Decrypt a ciphertext versionType = Ok plain ↔
  ∃ nonce ct, ciphertext = nonce ++ ct ∧ length nonce = 12%nat ∧ Seal (gcm a) nonce plain versionType = Ok ct.
Proof.
  intros [c ->]%NewAES256GCM_Ok.
  change (AES256GCM_Decrypt ?a ciphertext versionType) with (decrypt_with 12 (gcm a) ciphertext versionType).
  rewrite decrypt_with_Ok by (done || apply _). split; intros (nonce & ct & ? & ? & ?); exists nonce, ct; split_and!; (done || lia).
Qed.

Theorem XChaCha20Poly1305_Decrypt_iff `{CL : ChaChaLaws} key x ciphertext versionType plain : NewXChaCha20Poly1305 key = Ok x →
  XChaCha20Poly1305_Decrypt x ciphertext versionType = Ok plain ↔
  ∃ nonce ct, ciphertext = nonce ++ ct ∧ length nonce = 24%nat ∧ Seal (aead x) nonce plain versionType = Ok ct.
Proof.
  unfold NewXChaCha20Poly1305. destruct (Z.eqb_spec (zlen key) 32) as [E|]; [|done]. cbn [negb].
  destruct (chacha_newx key) as [a|] eqn:Hx; [|done]. intros [= <-].
  destruct (chacha_lawful key a) as (HL & Hn & Ho); [lia|done|].
  change (XChaCha20Poly1305_Decrypt ?x ciphertext versionType) with (decrypt_with 24 (aead x) ciphertext versionType).
  rewrite decrypt_with_Ok by done. split; intros (nonce & ct & ? & ? & ?); exists nonce, ct; split_and!; (done || lia).
Qed.

Section Encryption.
Context `{R : Random W}.

Lemma Encrypt_shape n (a : AEAD) plaintext versionType w out w' :
  (nonce ← run (λ _, ErrNonce) (rand_read n); ciphertext ← pure (sealed (Seal a nonce plaintext versionType)); mret (nonce ++ ciphertext)) w
    = (Ok out, w') →
  ∃ nonce ct, out = nonce ++ ct ∧ rand_read n w = (inr nonce, w') ∧ Seal a nonce plaintext versionType = Ok ct.
Proof.
  intros (nonce & w1 & Hr%run_Ok & Hs)%io_bind_Ok. apply pure_bind_Ok in Hs as (ct & Hs & [= <- <-]).
  apply wrap_err_Ok in Hs. by exists nonce, ct.
Qed.

(** What is encrypted under a key is decrypted under it, with the same version and type;
    the random source only has to deliver as many bytes as it is asked for. *)
Theorem AES256GCM_roundtrip key a plain versionType w out w' :
  (∀ w n b w', 0 ≤ n → rand_read n w = (inr b, w') → zlen b = n) →
  NewAES256GCM key = Ok a → AES256GCM_Encrypt a plain versionType w = (Ok out, w') →
  AES256GCM_Decrypt a out versionType = Ok plain.
Proof.
  intros Hread [c ->]%NewAES256GCM_Ok He. apply Encrypt_shape in He as (nonce & ct & -> & Hr & Hs).
  apply Hread in Hr; [|done].
  change (AES256GCM_Decrypt ?a ?x versionType) with (decrypt_with 12 (gcm a) x versionType).
  apply decrypt_with_Ok; [apply _|done|done|done|]. by exists nonce, ct.
Qed.

(** A ciphertext that decrypts under two associated texts decrypts to one plaintext, and
    the two texts agree unless their authentication hashes collide. *)
Theorem AES256GCM_version_bound c ciphertext v1 v2 p1 p2 :
  AES256GCM_Decrypt (MkAES256GCM (Gcm.aead c)) ciphertext v1 = Ok p1 →
  AES256GCM_Decrypt (MkAES256GCM (Gcm.aead c)) ciphertext v2 = Ok p2 →
  let nonce := take 12 ciphertext in let ct := take (length ciphertext - 28) (drop 12 ciphertext) in
  p1 = p2 ∧ tag c nonce v1 ct = tag c nonce v2 ct.
Proof.
  unfold AES256GCM_Decrypt. destruct (zlen ciphertext <? _); [done|]. cbn [gcm Gcm.aead Open]. unfold open.
  destruct (_ || _); [done|]. change (Z.to_nat nonceSize) with 12%nat.
  replace (length (drop 12 ciphertext) - 16)%nat with (length ciphertext - 28)%nat by (rewrite length_drop; lia).
  set (ct := take _ (drop _ _)). set (nonce := take _ ciphertext). cbv zeta.
  destruct (ct_equal (tag c nonce v1 ct) _) eqn:E1; [|done]. destruct (ct_equal (tag c nonce v2 ct) _) eqn:E2; [|done].
  apply ct_equal_true in E1, E2. intros [= <-] [= <-]. split; [done|]. congruence.
Qed.
End Encryption.

(** ** Witnesses *)

Module ToyAead.

#[local] Instance random : Random unit := λ n w, (inr (replicate (Z.to_nat n) x07), w).

(** AES-GCM with longer nonces stands in for XChaCha20-Poly1305. *)
#[local] Instance chacha : ChaCha := λ key, (λ c, MkAEAD 24 16 (Gcm.seal c) (Gcm.open c)) <$> Aes.NewCipher key.
#[local] Instance chacha_laws : ChaChaLaws.
Proof. intros key a _ (c & _ & ->)%fmap_Some_1. split; [apply gcm_laws_any|done]. Qed.

Definition key : bytes := replicate 32 x00.
Definition sealing : bytes := match AES256GCM_Encrypt (default (MkAES256GCM (MkAEAD 0 0 (λ _ _ _, Panic) (λ _ _ _, None)))
  (match NewAES256GCM key with Ok a => Some a | _ => None end)) (str_bytes "secret") (str_bytes "v1") tt with (Ok b, _) => b | _ => [] end.

(** The encryption and the decryption of this module's message, evaluated. *)
Lemma toy_encrypts : match NewAES256GCM key with
  | Ok a => AES256GCM_Encrypt a (str_bytes "secret") (str_bytes "v1") tt = (Ok sealing, tt) ∧
            AES256GCM_Decrypt a sealing (str_bytes "v1") = Ok (str_bytes "secret")
  | _ => False
  end.
Proof. vm_compute. done. Qed.

Lemma toy_seals : match NewXChaCha20Poly1305 key with
  | Ok x => match Seal (aead x) (replicate 24 x07) (str_bytes "secret") (str_bytes "v1") with Ok _ => True | _ => False end
  | _ => False
  end.
Proof. vm_compute. done. Qed.

Lemma AES256GCM_Decrypt_iff_witness : ∃ a nonce ct, NewAES256GCM key = Ok a ∧ sealing = nonce ++ ct ∧ length nonce = 12%nat ∧
  Seal (gcm a) nonce (str_bytes "secret") (str_bytes "v1") = Ok ct.
Proof.
  pose proof toy_encrypts as H. destruct (NewAES256GCM key) as [a| | |] eqn:E; [|done..]. exists a. destruct H as [_ H].
  apply (AES256GCM_Decrypt_iff key a _ _ _ E) in H as (nonce & ct & H). by exists nonce, ct.
Defined.

Lemma XChaCha20Poly1305_Decrypt_iff_witness : ∃ x ct, NewXChaCha20Poly1305 key = Ok x ∧
  XChaCha20Poly1305_Decrypt x (replicate 24 x07 ++ ct) (str_bytes "v1") = Ok (str_bytes "secret").
Proof.
  pose proof toy_seals as H. destruct (NewXChaCha20Poly1305 key) as [x| | |] eqn:E; [|done..]. exists x.
  destruct (Seal _ _ _ _) as [ct| | |] eqn:S; [|done..].
  exists ct. split; [done|]. apply (XChaCha20Poly1305_Decrypt_iff key x _ _ _ E). by exists (replicate 24 x07), ct.
Defined.

Lemma AES256GCM_roundtrip_witness : ∃ a, NewAES256GCM key = Ok a ∧
  AES256GCM_Decrypt a sealing (str_bytes "v1") = Ok (str_bytes "secret").
Proof.
  pose proof toy_encrypts as H. destruct (NewAES256GCM key) as [a| | |] eqn:E; [|done..]. exists a. destruct H as [H _].
  split; [reflexivity|]. apply (AES256GCM_roundtrip key a (str_bytes "secret") (str_bytes "v1") tt sealing tt); [|exact E|exact H].
  intros w n b w' Hn [= <- <-]. rewrite length_replicate. lia.
Defined.

Lemma AES256GCM_version_bound_witness : ∃ c nonce ct,
  tag c nonce (str_bytes "v1") ct = tag c nonce (str_bytes "v1") ct ∧
  AES256GCM_Decrypt (MkAES256GCM (Gcm.aead c)) sealing (str_bytes "v1") = Ok (str_bytes "secret").
Proof.
  pose proof toy_encrypts as H. destruct (NewAES256GCM key) as [a| | |] eqn:E; [|done..]. destruct H as [_ H].
  apply NewAES256GCM_Ok in E as [c ->]. exists c.
  destruct (AES256GCM_version_bound c sealing (str_bytes "v1") (str_bytes "v1") _ _ H H) as [_ Ht]. eexists _, _. split; [exact Ht|exact H].
Defined.
End ToyAead.

(** * The [crypto/hkdf] package

    A translation of src/crypto/hkdf/hkdf.go.  The extraction and the key stream of
    golang.org/x/crypto/hkdf are the class [HkdfLib], with the contract [HkdfLaws]; the
    package adds the checks of the lengths, which the theorems show to be what makes its
    two ways of deriving a key agree and never fail late. *)
(** [hkdf.Extract], [hkdf.New] and [hkdf.Expand] with SHA-256; a reader is the bytes that
    [io.ReadFull] gets out of it for a given size, [None] where the stream has ended. *)
Class HkdfLib : Type := {
  hkdf_extract : bytes → bytes → bytes;
  hkdf_new : bytes → bytes → bytes → Z → option bytes;
  hkdf_expand : bytes → bytes → Z → option bytes
}.

(** What the package documents: a pseudorandom key has the length of the hash, [New] is
    the composition, and the stream holds 255 blocks. *)
Class HkdfLaws `{HkdfLib} : Prop := {
  hkdf_extract_length secret salt : length (hkdf_extract secret salt) = 32%nat;
  hkdf_new_expand secret salt info n : hkdf_new secret salt info n = hkdf_expand (hkdf_extract secret salt) info n;
  hkdf_expand_length prk info n : 0 ≤ n ≤ 255 * 32 → ∃ out, hkdf_expand prk info n = Some out ∧ zlen out = n;
  hkdf_expand_prefix prk info m n a b : m ≤ n → hkdf_expand prk info m = Some a → hkdf_expand prk info n = Some b → a `prefix_of` b
}.

Module Hkdf.
Section Operations.
Context `{L : HkdfLib}.

Definition MaxExpandLength : Z := 255 * 32.

Inductive error : Type := ErrInvalidLength | ErrEmptySecret | ErrInvalidPRK | ErrRead.

Definition DeriveKey (secret salt info : bytes) (length : Z) : outcome error bytes :=
  if zlen secret =? 0 then Err ErrEmptySecret
  else if (length <=? 0) || (MaxExpandLength <? length) then Err ErrInvalidLength
  else match hkdf_new secret salt info length with None => Err ErrRead | Some out => Ok out end.

Definition Extract (secret salt : bytes) : outcome error bytes :=
  if zlen secret =? 0 then Err ErrEmptySecret else Ok (hkdf_extract secret salt).

Definition Expand (prk info : bytes) (length : Z) : outcome error bytes :=
  if zlen prk <? 32 then Err ErrInvalidPRK
  else if (length <=? 0) || (MaxExpandLength <? length) then Err ErrInvalidLength
  else match hkdf_expand prk info length with None => Err ErrRead | Some out => Ok out end.
End Operations.
End Hkdf.

Import Hkdf.

Section Proofs.
Context `{L : HkdfLib, HL : !HkdfLaws}.

Lemma bad_length_false n : (n <=? 0) || (MaxExpandLength <? n) = false ↔ 0 < n ≤ 255 * 32.
Proof. unfold MaxExpandLength. rewrite orb_false_iff, Z.leb_gt, Z.ltb_ge. lia. Qed.

(** A key of every length from 1 to 8160 bytes can be derived from every secret that is
    not empty, and of no other: the stream never ends early. *)
Theorem DeriveKey_iff secret salt info n : (∃ out, DeriveKey secret salt info n = Ok out ∧ zlen out = n) ↔ secret ≠ [] ∧ 0 < n ≤ 255 * 32.
Proof.
  unfold DeriveKey. destruct (Z.eqb_spec (zlen secret) 0) as [E|E].
  { split; [by intros (? & ? & ?)|]. intros [Hs _]. destruct secret; [done|by cbn in E]. }
  assert (secret ≠ []) by (by intros ->).
  destruct ((n <=? 0) || (MaxExpandLength <? n)) eqn:B.
  - split; [by intros (? & ? & ?)|]. intros [_ Hn%bad_length_false]. congruence.
  - apply bad_length_false in B. split; [done|]. intros _. rewrite hkdf_new_expand.
    destruct (hkdf_expand_length (hkdf_extract secret salt) info n) as (out & -> & Hl); [lia|]. by exists out.
Qed.

(** Deriving in one call is extracting and expanding, errors included: the extraction's
    key is always long enough for the expansion. *)
Theorem DeriveKey_Extract_Expand secret salt info n :
  DeriveKey secret salt info n = (prk ← Extract secret salt; Expand prk info n).
Proof.
  unfold DeriveKey, Extract, Expand. destruct (zlen secret =? 0); [done|].
  cbn [mbind outcome_bind]. by rewrite hkdf_extract_length, hkdf_new_expand.
Qed.

(** Keys of different lengths from one secret are prefixes of each other, so the length
    does not separate them: only the info does. *)
Theorem DeriveKey_prefix secret salt info m n a b : m ≤ n →
  DeriveKey secret salt info m = Ok a → DeriveKey secret salt info n = Ok b → a `prefix_of` b.
Proof.
  intros Hmn. unfold DeriveKey. destruct (zlen secret =? 0); [done|].
  do 2 (destruct (_ || _); [done|]). rewrite !hkdf_new_expand.
  destruct (hkdf_expand _ info m) eqn:A; [|done]. destruct (hkdf_expand _ info n) eqn:B; [|done].
  intros [= <-] [= <-]. eauto using hkdf_expand_prefix.
Qed.
End Proofs.

(** ** Witnesses *)

Module ToyHkdf.

Lemma take_take_le {A} (l : list A) (n m : nat) : (n ≤ m)%nat → take n (take m l) = take n l.
Proof. intros. rewrite take_take. f_equal. lia. Qed.

#[local] Instance hkdf : HkdfLib := {|
  hkdf_extract secret salt := take 32 (secret ++ replicate 32 x00);
  hkdf_new secret salt info n := if n <=? 255 * 32 then Some (take (Z.to_nat n) (take 32 (secret ++ replicate 32 x00) ++ replicate (Z.to_nat n) x00)) else None;
  hkdf_expand prk info n := if n <=? 255 * 32 then Some (take (Z.to_nat n) (prk ++ replicate (Z.to_nat n) x00)) else None
|}.

#[local] Instance hkdf_laws : HkdfLaws.
Proof.
  split.
  - intros secret salt. cbn [hkdf_extract hkdf]. rewrite length_take, length_app, length_replicate. lia.
  - done.
  - intros prk info n Hn. cbn [hkdf_expand hkdf]. rewrite (proj2 (Z.leb_le _ _)) by lia. eexists. split; [done|].
    rewrite length_take, length_app, length_replicate. lia.
  - intros prk info m n a b Hmn. cbn [hkdf_expand hkdf]. destruct (m <=? _), (n <=? _); try done. intros [= <-] [= <-].
    replace (Z.to_nat n) with (Z.to_nat m + (Z.to_nat n - Z.to_nat m))%nat by lia. rewrite replicate_add, app_assoc.
    set (s := prk ++ replicate (Z.to_nat m) x00). set (t := replicate _ _).
    assert (Z.to_nat m ≤ length s)%nat by (unfold s; rewrite length_app, length_replicate; lia).
    rewrite <- (take_app_le s t) by done. rewrite <- take_take_le with (m := (Z.to_nat m + (Z.to_nat n - Z.to_nat m))%nat) by lia. apply prefix_take.
Qed.

Lemma DeriveKey_prefix_witness : ∃ a b, DeriveKey [x01] [] [] 2 = Ok a ∧ DeriveKey [x01] [] [] 40 = Ok b ∧ a `prefix_of` b.
Proof.
  eexists _, _. split; [vm_compute; reflexivity|]. split; [vm_compute; reflexivity|].
  by apply (DeriveKey_prefix [x01] [] [] 2 40).
Defined.
End ToyHkdf.
