(* ===== verification/Cose.v ===== *)
(** * COSE_Sign1

    A translation of src/identity/jwk/cose.go: signing and verification of COSE_Sign1
    messages, an adapter over github.com/veraison/go-cose, which is the class [CoseLib].
    The dispatch on the algorithm, the policy about the key and the adapters for ES256K
    and RSA PKCS#1 v1.5 are written out. *)
From stdpp Require Import gmap.
From S2P Require Import Prelude Sha256 GoIO Signature SignatureProofs Jwk Jws.
Import Signature.
#[local] Open Scope Z_scope.

(** What [ProtectedHeader.Algorithm] finds. *)
Inductive AlgHeader : Type := AlgFound (alg : Z) | AlgNotFound | AlgInvalid.

(** A [cose.Signer]: its algorithm, and the signature of some content. *)
Record CoseSigner (W E : Type) : Type := MkSigner { SignerAlgorithm : Z; SignerSign : bytes → io W E bytes }.
Arguments MkSigner {W E} _ _.
Arguments SignerAlgorithm {W E} _.
Arguments SignerSign {W E} _ _.

(** A [cose.Verifier]; [VerifierVerify content sig] is whether it returns no error. *)
Record CoseVerifier : Type := MkVerifier { VerifierAlgorithm : Z; VerifierVerify : bytes → bytes → bool }.

(** go-cose.  A protected header is the caller's map and the algorithm set on it; nil
    payloads are [None].

    [cose_sign_content] is what [Sign1Message.Sign] hands to the signer, or its failure
    before that; [cose_marshal] is [MarshalCBOR] of the message with the signature it
    got.  [cose_untagged] and [cose_tagged] parse a message, and [cose_verify_content] is
    what [Verify] hands to the verifier. *)
Class CoseLib (W : Type) : Type := {
  cose_any : Type;
  cose_error : Type;
  cose_message : Type;
  cose_payload : cose_message → option bytes;
  cose_signature : cose_message → bytes;
  cose_algorithm : cose_message → AlgHeader;
  cose_sign_content : gmap Z cose_any → Z → option bytes → Z → cose_error + bytes;
  cose_marshal : gmap Z cose_any → Z → option bytes → bytes → cose_error + bytes;
  cose_untagged : bytes → option cose_message;
  cose_tagged : bytes → option cose_message;
  cose_verify_content : cose_message → Z → option bytes;
  cose_new_signer : Z → StdPrivate → cose_error + (bytes → ext W cose_error bytes);
  cose_new_verifier : Z → RawKey → cose_error + (bytes → bytes → bool)
}.
Arguments cose_any W {_}.
Arguments cose_error W {_}.
Arguments cose_message W {_}.

Module Cose.

Definition AlgEdDSA : Z := -8.
Definition AlgES256 : Z := -7.
Definition AlgES384 : Z := -35.
Definition AlgES256K : Z := -47.
Definition AlgPS256 : Z := -37.
Definition AlgPS384 : Z := -38.
Definition AlgPS512 : Z := -39.
Definition AlgRS256 : Z := -257.
Definition AlgRS384 : Z := -258.
Definition AlgRS512 : Z := -259.

Section Operations.
Context `{K : KeyOps, H : Hasher, L : CoseLib W}.

Inductive error : Type :=
| ErrAlgRequired
| ErrSignature (e : Signature.error)
| ErrAlgMismatch (want got : Z)
| ErrUnsupportedAlg
| ErrConversion (e : Jws.error)
| ErrAlgLabelSet
| ErrCose (e : cose_error W)
| ErrCoseMalformed
| ErrCoseAlgMissing
| ErrCoseInvalidSig.

Record CoseSignOptions : Type := MkCoseSign { SAlg : Z; Protected : gmap Z (cose_any W) }.
Record CoseVerifyOptions : Type := MkCoseVerify { VAlg : Z }.

(** The first case of the two dispatches. *)
Definition built_in (alg : Z) : bool :=
  existsb (Z.eqb alg) [AlgEdDSA; AlgES256; AlgES384; AlgPS256; AlgPS384; AlgPS512].
Definition rs_pkcs1 (alg : Z) : bool := existsb (Z.eqb alg) [AlgRS256; AlgRS384; AlgRS512].

(** ** The adapters *)

Definition es256kSigner (key : PrivateKey) : CoseSigner W error :=
  MkSigner AlgES256K (λ content, pure (wrap_err ErrSignature (run_sign key (arr (Sum content))))).

Definition es256kVerifier (key : PublicKey) : CoseVerifier :=
  MkVerifier AlgES256K (λ content sig, key_verify key sig (arr (Sum content))).

Definition rsPKCS1Signer (alg : Z) (key : PrivateKey) : CoseSigner W error :=
  MkSigner alg (λ content, pure (wrap_err ErrSignature (run_sign key content))).

Definition rsPKCS1Verifier (alg : Z) (key : PublicKey) : CoseVerifier :=
  MkVerifier alg (λ content sig, key_verify key sig content).

Definition newCoseSigner (alg : Z) (key : PrivateKey) : outcome error (CoseSigner W error) :=
  if built_in alg then
    rawKey ← wrap_err ErrConversion (Jws.toStdlibPrivateKey key);
    match cose_new_signer alg rawKey with
    | inl e => Err (ErrCose e)
    | inr f => Ok (MkSigner alg (λ content, run ErrCose (f content)))
    end
  else if alg =? AlgES256K then
    match key with Secp256k1Priv _ => Ok (es256kSigner key) | _ => Err ErrUnsupportedAlg end
  else if rs_pkcs1 alg then
    match key with PKCS1Priv _ _ => Ok (rsPKCS1Signer alg key) | _ => Err ErrUnsupportedAlg end
  else Err ErrUnsupportedAlg.

Definition newCoseVerifier (alg : Z) (key : PublicKey) : outcome error CoseVerifier :=
  if built_in alg then
    rawKey ← wrap_err ErrConversion (Jws.toStdlibPublicKey key);
    match cose_new_verifier alg rawKey with
    | inl e => Err (ErrCose e)
    | inr f => Ok (MkVerifier alg f)
    end
  else if alg =? AlgES256K then
    match key with Secp256k1Pub _ => Ok (es256kVerifier key) | _ => Err ErrUnsupportedAlg end
  else if rs_pkcs1 alg then
    match key with PKCS1Pub _ _ _ => Ok (rsPKCS1Verifier alg key) | _ => Err ErrUnsupportedAlg end
  else Err ErrUnsupportedAlg.

Definition lib {A} (m : cose_error W + A) : outcome error A := match m with inl e => Err (ErrCose e) | inr a => Ok a end.

(** [key] is any value; a public key is no private key. *)
Definition CoseSign (payload : option bytes) (key : Jws.AnyKey) (opts : CoseSignOptions) : io W error bytes :=
  if SAlg opts =? 0 then pure (Err ErrAlgRequired)
  else
    match key with
    | Jws.APublic _ => pure (Err (ErrSignature ErrUnsupportedAlgorithm))
    | Jws.APrivate k =>
        keyAlg ← pure (wrap_err ErrSignature (AlgorithmForPrivateKey k));
        if negb (COSE keyAlg =? SAlg opts) then pure (Err (ErrAlgMismatch (COSE keyAlg) (SAlg opts)))
        else
          signer ← pure (newCoseSigner (SAlg opts) k);
          if bool_decide (is_Some (Protected opts !! 1)) then pure (Err ErrAlgLabelSet)
          else
            content ← pure (lib (cose_sign_content (Protected opts) (SAlg opts) payload (SignerAlgorithm signer)));
            sig ← SignerSign signer content;
            pure (lib (cose_marshal (Protected opts) (SAlg opts) payload sig))
    end.

Definition parse_message (coseBytes : bytes) : outcome error (cose_message W) :=
  match coseBytes with
  | [] => Err ErrCoseMalformed
  | b :: _ =>
      match if bool_decide (b = xd2) then cose_tagged coseBytes else cose_untagged coseBytes with
      | None => Err ErrCoseMalformed
      | Some msg => Ok msg
      end
  end.

Definition message_alg (msg : cose_message W) : outcome error Z :=
  match cose_algorithm msg with
  | AlgFound alg => Ok alg
  | AlgNotFound => Err ErrCoseAlgMissing
  | AlgInvalid => Err ErrCoseMalformed
  end.

(** [msg.Verify]. *)
Definition verify_message (msg : cose_message W) (v : CoseVerifier) : bool :=
  match cose_verify_content msg (VerifierAlgorithm v) with
  | None => false
  | Some content => VerifierVerify v content (cose_signature msg)
  end.

Definition CoseVerify (coseBytes : bytes) (key : option PublicKey) (opts : CoseVerifyOptions) : outcome error (option bytes) :=
  msg ← parse_message coseBytes;
  algInt ← message_alg msg;
  if negb (VAlg opts =? 0) && negb (VAlg opts =? algInt) then Err (ErrAlgMismatch (VAlg opts) algInt)
  else
    match key with
    | None => Err ErrUnsupportedAlg
    | Some k =>
        keyAlg ← wrap_err (λ _, ErrUnsupportedAlg) (AlgorithmForPublicKey k);
        if negb (COSE keyAlg =? algInt) then Err (ErrAlgMismatch (COSE keyAlg) algInt)
        else
          verifier ← newCoseVerifier algInt k;
          if verify_message msg verifier then Ok (cose_payload msg) else Err ErrCoseInvalidSig
    end.
End Operations.
End Cose.

(** * Properties *)
Import Signature Cose.

(** What go-cose and RFC 9052 promise.  [readable] are the caller's header maps that
    survive encoding, at least the empty one: a message made with them parses, as
    untagged, to what went in, and verification covers the content that was signed.  A
    built-in verifier for the public half of a key accepts what the signer made. *)
Class CoseLaws `{K : KeyOps, L : CoseLib W} (readable : gmap Z (cose_any W) → Prop) : Prop := {
  cose_readable_empty : readable ∅;
  cose_marshal_reads h a p s b t : readable h → cose_marshal h a p s = inr b → cose_sign_content h a p a = inr t →
    ∃ m rest, b = x84 :: rest ∧ cose_untagged b = Some m ∧ cose_payload m = p ∧ cose_signature m = s ∧
      cose_algorithm m = AlgFound a ∧ cose_verify_content m a = Some t;
  cose_pair k pub alg std raw f : publicKeyForPrivateKey k = Ok pub → Jws.toStdlibPrivateKey k = Ok std →
    Jws.toStdlibPublicKey pub = Ok raw → cose_new_signer (COSE alg) std = inr f → AlgorithmForPublicKey pub = Ok alg →
    ∃ g, cose_new_verifier (COSE alg) raw = inr g ∧ ∀ content w s w', f content w = (inr s, w') → g content s = true
}.

Section Proofs.
Context `{K : KeyOps, H : Hasher, L : CoseLib W}.

(** ** Dispatch *)

(** A label determines the algorithm. *)
Lemma COSE_inj a b : registered a → registered b → COSE a = COSE b → a = b.
Proof.
  assert (∀ a, registered a → AlgorithmForCOSE (COSE a) = Some a) as Hinv.
  { intros c Hc%registered_cases. repeat destruct Hc as [->|Hc]; [reflexivity..|by subst]. }
  intros Ha%Hinv Hb%Hinv E. congruence.
Qed.

(** The keys the adapters serve. *)
Lemma custom_public k a : AlgorithmForPublicKey k = Ok a → built_in (COSE a) = false →
  (∃ b, k = Secp256k1Pub b ∧ a = AlgorithmES256K) ∨
  (∃ h n e, k = PKCS1Pub h n e ∧ (COSE a =? AlgES256K) = false ∧ rs_pkcs1 (COSE a) = true ∧ ∀ s c, Verify a k s c = Ok (key_verify k s c)).
Proof.
  intros Ha. destruct k as [b|b|[]|[]|h n e| |]; cbn in Ha; try done; try (injection Ha as <-; vm_compute; done).
  - injection Ha as <-. intros _. left. by eexists.
  - intros _. right. exists h, n, e. destruct h; cbn in Ha; try done; injection Ha as <-; (split; [done|]); vm_compute; done.
Qed.

(** What it means that [sig] is a signature of [content] under [k] and algorithm [a]: the
    library's verdict on the key for the algorithms it has, that of the registry of the
    signature package for the others. *)
Definition verifies (k : PublicKey) (a : Algorithm) (content sig : bytes) : Prop :=
  if built_in (COSE a)
  then ∃ raw g, Jws.toStdlibPublicKey k = Ok raw ∧ cose_new_verifier (COSE a) raw = inr g ∧ g content sig = true
  else Verify a k sig content = Ok true.

(** The dispatch of a verifier agrees with it. *)
Lemma newCoseVerifier_spec k a m : AlgorithmForPublicKey k = Ok a →
  (∃ v, newCoseVerifier (COSE a) k = Ok v ∧ verify_message m v = true) ↔
  ∃ content, cose_verify_content m (COSE a) = Some content ∧ verifies k a content (cose_signature m).
Proof.
  intros Ha. unfold newCoseVerifier, verifies. destruct (built_in (COSE a)) eqn:Hb.
  - split.
    + intros (v & (raw & Hr%wrap_err_Ok & Hn)%bind_Ok & Hv). destruct (cose_new_verifier (COSE a) raw) as [|g] eqn:Hg; [done|].
      injection Hn as <-. unfold verify_message in Hv. cbn [VerifierAlgorithm VerifierVerify] in Hv.
      destruct (cose_verify_content m (COSE a)) as [content|]; [|done]. exists content. split; [done|]. by exists raw, g.
    + intros (content & Hc & raw & g & Hr & Hg & Hv). rewrite Hr. cbn [wrap_err mbind outcome_bind]. rewrite Hg. eexists. split; [done|].
      unfold verify_message. cbn [VerifierAlgorithm VerifierVerify]. by rewrite Hc.
  - assert (∀ v, VerifierAlgorithm v = COSE a →
      (∀ content, VerifierVerify v content (cose_signature m) = true ↔ Verify a k (cose_signature m) content = Ok true) →
      verify_message m v = true ↔ ∃ content, cose_verify_content m (COSE a) = Some content ∧ Verify a k (cose_signature m) content = Ok true) as Hs.
    { intros v Hva Hvv. unfold verify_message. rewrite Hva. destruct (cose_verify_content m (COSE a)) as [c|]; [|naive_solver].
      rewrite Hvv. naive_solver. }
    destruct (custom_public k a Ha Hb) as [(b & -> & ->)|(h & n & e & -> & H1 & H2 & H3)].
    + cbn [Z.eqb]. rewrite <- (Hs (es256kVerifier (Secp256k1Pub b))); [|done|].
      * split; [by intros (v & [= <-] & ?)|]. intros Hv. by eexists.
      * intros content. cbn. split; [by intros ->|by intros [= ->]].
    + rewrite H1, H2. rewrite <- (Hs (rsPKCS1Verifier (COSE a) (PKCS1Pub h n e))); [|done|].
      * split; [by intros (v & [= <-] & ?)|]. intros Hv. by eexists.
      * intros content. rewrite H3. cbn. split; [by intros ->|by intros [= ->]].
Qed.

(** ** Verification *)

(** The message an input parses to: tagged if it starts with tag 18. *)
Definition message_of (b : bytes) (m : cose_message W) : Prop :=
  (∃ rest, b = xd2 :: rest ∧ cose_tagged b = Some m) ∨ (∃ c rest, b = c :: rest ∧ c ≠ xd2 ∧ cose_untagged b = Some m).

Lemma parse_message_iff b m : parse_message b = Ok m ↔ message_of b m.
Proof.
  unfold parse_message, message_of. destruct b as [|c b]; [naive_solver|]. case_bool_decide as Hc.
  - subst c. destruct (cose_tagged (xd2 :: b)); naive_solver.
  - destruct (cose_untagged (c :: b)); naive_solver.
Qed.

Definition pinned (opts : CoseVerifyOptions) (a : Algorithm) : Prop := VAlg opts = 0 ∨ VAlg opts = COSE a.

Lemma CoseVerify_spec b key opts p : CoseVerify b key opts = Ok p ↔
  ∃ k a m content, key = Some k ∧ AlgorithmForPublicKey k = Ok a ∧ message_of b m ∧ cose_algorithm m = AlgFound (COSE a) ∧
    pinned opts a ∧ cose_verify_content m (COSE a) = Some content ∧ verifies k a content (cose_signature m) ∧ p = cose_payload m.
Proof.
  unfold CoseVerify. rewrite bind_Ok. setoid_rewrite bind_Ok. split.
  - intros (m & Hm%parse_message_iff & alg & Ha & Hr). unfold message_alg in Ha. destruct (cose_algorithm m) as [x| |] eqn:Hx; try done.
    injection Ha as ->. destruct (negb (VAlg opts =? 0) && _) eqn:Hp; [done|]. destruct key as [k|]; [|done].
    apply bind_Ok in Hr as (a & Ha%wrap_err_Ok & Hr). destruct (Z.eqb_spec (COSE a) alg) as [<-|]; [|done]. cbn [negb] in Hr.
    apply bind_Ok in Hr as (v & Hv & Hr). destruct (verify_message m v) eqn:Hvm; [|done]. injection Hr as <-.
    destruct (proj1 (newCoseVerifier_spec k a m Ha)) as (content & Hc & Hs); [by exists v|].
    exists k, a, m, content. split_and!; try done. unfold pinned. lia.
  - intros (k & a & m & content & -> & Ha & Hm & Hx & Hp & Hc & Hs & ->). exists m. split; [by apply parse_message_iff|].
    exists (COSE a). unfold message_alg. rewrite Hx. split; [done|]. unfold pinned in Hp.
    assert (negb (VAlg opts =? 0) && negb (VAlg opts =? COSE a) = false) as -> by lia.
    rewrite Ha. cbn [wrap_err mbind outcome_bind]. rewrite Z.eqb_refl. cbn [negb].
    destruct (proj2 (newCoseVerifier_spec k a m Ha)) as (v & -> & Hv); [by exists content|]. cbn [mbind outcome_bind]. by rewrite Hv.
Qed.

(** C32.  What [CoseVerify] accepts, whatever go-cose does.  A payload is returned exactly
    when the input parses, as the tagged message if it starts with tag 18, the message's
    "alg" header names the key's own algorithm and the caller's, when one is pinned, and
    the signature verifies under the key and that algorithm over the content built for
    it; the payload is the message's. *)
Theorem CoseVerify_iff b key opts p : CoseVerify b key opts = Ok p ↔
  ∃ k a m content, key = Some k ∧ AlgorithmForPublicKey k = Ok a ∧ message_of b m ∧ cose_algorithm m = AlgFound (COSE a) ∧
    pinned opts a ∧ cose_verify_content m (COSE a) = Some content ∧ verifies k a content (cose_signature m) ∧ p = cose_payload m.
Proof. apply CoseVerify_spec. Qed.

(** A message verifies under keys of one algorithm only. *)
Theorem CoseVerify_no_confusion b k1 k2 o1 o2 p1 p2 :
  CoseVerify b (Some k1) o1 = Ok p1 → CoseVerify b (Some k2) o2 = Ok p2 →
  AlgorithmForPublicKey k1 = AlgorithmForPublicKey k2 ∧ p1 = p2.
Proof.
  intros (? & a & m & ? & [= <-] & Ha & Hm%parse_message_iff & Hx & _ & _ & _ & ->)%CoseVerify_spec.
  intros (? & a' & m' & ? & [= <-] & Ha' & Hm'%parse_message_iff & Hx' & _ & _ & _ & ->)%CoseVerify_spec.
  assert (m' = m) as -> by congruence. split; [|done]. rewrite Ha, Ha'. f_equal.
  apply COSE_inj; [by eapply AlgorithmForPublicKey_registered..|congruence].
Qed.

(** ** Signing, then verifying *)

Section Signing.
Context {readable : gmap Z (cose_any W) → Prop} {LW : CoseLaws readable} (HK : keys_correct).

(** The keys the adapters sign with. *)
Lemma custom_private k a : AlgorithmForPrivateKey k = Ok a → built_in (COSE a) = false →
  (∃ d, k = Secp256k1Priv d ∧ a = AlgorithmES256K) ∨
  (∃ h d, k = PKCS1Priv h d ∧ (COSE a =? AlgES256K) = false ∧ rs_pkcs1 (COSE a) = true ∧ ∀ c, Sign a k c = run_sign k c).
Proof.
  intros Ha. destruct k as [d|d|[]|[]|h d| |]; cbn in Ha; try done; try (injection Ha as <-; vm_compute; done).
  - injection Ha as <-. intros _. left. by eexists.
  - intros _. right. exists h, d. destruct h; cbn in Ha; try done; injection Ha as <-; (split; [done|]); vm_compute; done.
Qed.

Lemma same_alg k pub : publicKeyForPrivateKey k = Ok pub → AlgorithmForPublicKey pub = AlgorithmForPrivateKey k.
Proof. destruct k as [d|d|c d|h d|h d| |]; cbn; try done; [by intros [= <-]..| | |]; repeat case_match; by intros [= <-]. Qed.

(** What the signer of a private key makes verifies under the public half. *)
Lemma newCoseSigner_verifies k pub a signer content w s w' : publicKeyForPrivateKey k = Ok pub → AlgorithmForPublicKey pub = Ok a →
  newCoseSigner (COSE a) k = Ok signer → SignerSign signer content w = (Ok s, w') →
  SignerAlgorithm signer = COSE a ∧ verifies pub a content s.
Proof.
  intros Hpub Ha. unfold newCoseSigner, verifies. destruct (built_in (COSE a)) eqn:Hb.
  - intros (std & Hs%wrap_err_Ok & Hn)%bind_Ok. destruct (cose_new_signer (COSE a) std) as [|f] eqn:Hf; [done|].
    injection Hn as <-. cbn [SignerSign SignerAlgorithm]. intros Hr%run_Ok. split; [done|].
    assert (∃ raw, Jws.toStdlibPublicKey pub = Ok raw) as [raw Hraw].
    { destruct k; try done; cbn in Hpub; repeat case_match; injection Hpub as <-; by eexists. }
    destruct (cose_pair k pub a std raw f Hpub Hs Hraw Hf Ha) as (g & Hg & Hok). exists raw, g. eauto.
  - intros Hn Hs. rewrite (same_alg k pub Hpub) in Ha.
    destruct (custom_private k a Ha Hb) as [(d & -> & ->)|(h & d & -> & H1 & H2 & H3)].
    + change (COSE AlgorithmES256K =? AlgES256K) with true in Hn. injection Hn as <-.
      cbn [SignerSign es256kSigner] in Hs. apply pure_Ok in Hs as [Hs%wrap_err_Ok ->]. split; [done|].
      by apply (Sign_verifies HK AlgorithmES256K (Secp256k1Priv d) _ content s).
    + rewrite H1, H2 in Hn. injection Hn as <-. cbn [SignerSign rsPKCS1Signer] in Hs. apply pure_Ok in Hs as [Hs%wrap_err_Ok ->].
      split; [done|]. apply (Sign_verifies HK a (PKCS1Priv h d) _ content s Hpub). by rewrite H3.
Qed.

(** What [CoseSign] makes under the own algorithm of the key verifies under its public
    half, for each of the ten algorithms, and gives the payload back. *)
Theorem CoseVerify_CoseSign payload k pub opts vopts w b w' : publicKeyForPrivateKey k = Ok pub → readable (Protected opts) →
  (VAlg vopts = 0 ∨ VAlg vopts = SAlg opts) → CoseSign payload (Jws.APrivate k) opts w = (Ok b, w') →
  CoseVerify b (Some pub) vopts = Ok payload.
Proof.
  intros Hpub Hread Hpin. unfold CoseSign. destruct (SAlg opts =? 0); [done|].
  intros (a & Ha%wrap_err_Ok & Hr)%pure_bind_Ok. destruct (Z.eqb_spec (COSE a) (SAlg opts)) as [Ea|]; [|done]. cbn [negb] in Hr.
  rewrite <- Ea in *. apply pure_bind_Ok in Hr as (signer & Hsg & Hr). case_bool_decide; [done|].
  apply pure_bind_Ok in Hr as (t & Ht & Hr). apply io_bind_Ok in Hr as (s & w1 & Hs & [Hm ->]%pure_Ok).
  rewrite <- (same_alg k pub Hpub) in Ha.
  destruct (newCoseSigner_verifies k pub a signer t w s w1 Hpub Ha Hsg Hs) as [Hsa Hv]. rewrite Hsa in Ht.
  destruct (cose_sign_content _ _ _ _) as [|t'] eqn:Et in Ht; [done|]. injection Ht as ->.
  destruct (cose_marshal _ _ _ _) as [|b'] eqn:Eb in Hm; [done|]. injection Hm as ->.
  destruct (cose_marshal_reads _ _ _ _ _ _ Hread Eb Et) as (m & rest & -> & Hu & <- & <- & Hal & Hc).
  apply CoseVerify_spec. exists pub, a, m, t. split_and!; try done. right. by exists x84, rest.
Qed.
End Signing.
End Proofs.

(** ** Witnesses *)

Module ToyCose.

(** Numbers in unary, so that every length can be written. *)
Definition enc_nat (n : nat) (rest : bytes) : bytes := replicate n x01 ++ x00 :: rest.
Fixpoint dec_nat (b : bytes) : option (nat * bytes) :=
  match b with
  | x00 :: r => Some (O, r)
  | x01 :: r => '(n, r') ← dec_nat r; Some (S n, r')
  | _ => None
  end.

Lemma dec_enc_nat n rest : dec_nat (enc_nat n rest) = Some (n, rest).
Proof. induction n as [|n IH]; [done|]. unfold enc_nat in *. cbn. by rewrite IH. Qed.

Record message : Type := Msg { m_alg : Z; m_payload : option bytes; m_sig : bytes }.

Definition enc_payload (p : option bytes) (s : bytes) : bytes :=
  match p with None => enc_nat 0 s | Some p => enc_nat (S (length p)) (p ++ s) end.
Definition enc (a : Z) (p : option bytes) (s : bytes) : bytes := x84 :: enc_nat (Z.to_nat (a + 1000)) (enc_payload p s).

Definition dec (b : bytes) : option message :=
  match b with
  | x84 :: r =>
      '(n, r) ← dec_nat r; '(l, r) ← dec_nat r;
      Some (match l with
            | O => Msg (Z.of_nat n - 1000) None r
            | S l => Msg (Z.of_nat n - 1000) (Some (take l r)) (drop l r)
            end)
  | _ => None
  end.

Lemma dec_enc a p s : -1000 ≤ a → dec (enc a p s) = Some (Msg a p s).
Proof.
  intros Ha. unfold dec, enc. rewrite dec_enc_nat. cbn [mbind option_bind].
  replace (Z.of_nat (Z.to_nat (a + 1000)) - 1000) with a by lia.
  destruct p as [p|]; unfold enc_payload; rewrite dec_enc_nat; cbn [mbind option_bind]; [|done].
  by rewrite take_app_length, drop_app_length.
Qed.

Definition in_range {A} (a : Z) (x : A) : () + A := if -1000 <=? a then inr x else inl ().

Definition std_id (k : StdPrivate) : Z := match k with StdEd25519 d | StdECDSA _ d | StdRSA d => be_value d end.
Definition raw_id (k : RawKey) : Z := match k with RawEd25519Pub b => be_value b | RawECDSAPub _ x _ => x | RawRSAPub n _ => n | _ => 0 end.
Definition signature_of (id : Z) (content : bytes) : bytes := be_bytes 8 id ++ content.

(** The owners of the toy keys sign one content only. *)
Definition the_content : bytes := enc (-8) (Some [x05; x06]) [].

#[local] Instance cose : CoseLib unit := {|
  cose_any := unit; cose_error := unit; cose_message := message;
  cose_payload := m_payload; cose_signature := m_sig; cose_algorithm m := AlgFound (m_alg m);
  cose_sign_content _ a p _ := in_range a (enc a p []);
  cose_marshal _ a p s := in_range a (enc a p s);
  cose_untagged := dec; cose_tagged _ := None;
  cose_verify_content m a := if -1000 <=? a then Some (enc a (m_payload m) []) else None;
  cose_new_signer _ k := inr (λ content w, (if bytes_eqb content the_content then inr (signature_of (std_id k) content) else inl (), w));
  cose_new_verifier _ k := inr (λ content sig, bytes_eqb content the_content && ct_equal sig (signature_of (raw_id k) content))
|}.

#[local] Instance cose_laws : CoseLaws (λ h, h = ∅).
Proof.
  split.
  - done.
  - intros h a p s b t _. cbn. unfold in_range. destruct (Z.leb_spec (-1000) a); [|done]. intros [= <-] [= <-].
    exists (Msg a p s). eexists. split; [done|]. split; [by apply (dec_enc a p s)|]. done.
  - intros k pub alg std raw f Hpub Hs Hr [= <-] _. eexists. split; [reflexivity|]. intros content w s w'.
    destruct (bytes_eqb content the_content) eqn:Ec; [|done]. intros [= <- <-]. cbv beta. rewrite Ec. cbn [andb].
    assert (std_id std = raw_id raw) as ->; [|apply ct_equal_refl].
    destruct k; try done; cbn in Hpub, Hs; injection Hpub as <-; injection Hs as <-; cbn in Hr; by injection Hr as <-.
Qed.

Definition opts : CoseSignOptions := MkCoseSign (COSE AlgorithmEdDSA) ∅.
Definition signing := CoseSign (Some [x05; x06]) (Jws.APrivate (Ed25519Priv [x07])) opts tt.
Definition message_bytes : bytes := match signing with (Ok b, _) => b | _ => [] end.

Lemma toy_signs : signing = (Ok message_bytes, tt).
Proof.
  assert (match signing with (Ok _, _) => true | _ => false end = true) as E by (vm_compute; reflexivity).
  unfold message_bytes. by destruct signing as [[b| | |] []].
Qed.

Definition verifying k a := CoseVerify message_bytes (Some k) (MkCoseVerify a).

Lemma toy_verifies k a : match verifying k a with Ok (Some p) => bytes_eqb p [x05; x06] | _ => false end = true →
  verifying k a = Ok (Some [x05; x06]).
Proof. destruct (verifying k a) as [[p|]| | |]; [|done..]. by intros ->%bytes_eqb_eq. Qed.

Lemma CoseVerify_CoseSign_witness : verifying (Ed25519Pub [x07]) 0 = Ok (Some [x05; x06]).
Proof.
  apply (CoseVerify_CoseSign (readable := λ h, h = ∅) toy_keys_correct (Some [x05; x06]) (Ed25519Priv [x07]) _ opts (MkCoseVerify 0) tt message_bytes tt).
  - reflexivity.
  - reflexivity.
  - by left.
  - exact toy_signs.
Defined.

Lemma CoseVerify_no_confusion_witness :
  AlgorithmForPublicKey (Ed25519Pub [x07]) = AlgorithmForPublicKey (Ed25519Pub [x00; x07]) ∧ Some [x05; x06] = Some [x05; x06].
Proof.
  apply (CoseVerify_no_confusion message_bytes (Ed25519Pub [x07]) (Ed25519Pub [x00; x07]) (MkCoseVerify 0) (MkCoseVerify (-8)));
    apply toy_verifies; vm_compute; reflexivity.
Defined.
End ToyCose.
