(* ===== verification/Eat.v ===== *)
(** * Attestations as EAT tokens

    A translation of src/attestation/eat.go and eat_cbor.go: the claim map of an
    attestation, its COSE_Sign1 envelope, and the way back.  The CBOR codec is
    github.com/fxamacker/cbor (through [canonical.CBOREncode] on the way out), the class
    [EatCbor]; capability, claim and evidence travel as canonical JSON and come back
    through encoding/json, whose decoders for these types are here. *)
From Stdlib Require Import SpecFloat.
From stdpp Require Import gmap.
From S2P Require Import Prelude Sha256 GoTime Canonical Signature Authority ClaimEvidence Attestation Json GoJson GoFloat.
Import GoTime GoJson.
#[local] Open Scope Z_scope.

(** The Go values that are encoded: integers, strings, byte slices, slices, maps with
    integer keys. *)
Inductive CborItem : Type :=
| CInt (z : Z)
| CText (s : string)
| CBytes (b : bytes)
| CArray (l : list CborItem)
| CMap (m : list (Z * CborItem)).

(** What an [any] holds after decoding: an integer that is not negative is a [uint64], a
    negative one an [int64]. *)
Inductive CborValue : Type :=
| VUint (z : Z)
| VInt (z : Z)
| VFloat (f : spec_float)
| VText (s : string)
| VBytes (b : bytes)
| VArray (l : list CborValue)
| VOther.

(** [cbor_items] is [cbor.Unmarshal] into a [[]cbor.RawMessage], [cbor_bytes] into a
    [[]byte], [cbor_claims] into a [map[int64]any], nil for null. *)
Class EatCbor : Type := {
  cbor_encode : CborItem → option bytes;
  cbor_items : bytes → option (list bytes);
  cbor_bytes : bytes → option bytes;
  cbor_claims : bytes → option (option (gmap Z CborValue))
}.

Module Eat.
Import Authority Attestation.

(** ** Decoding the embedded JSON *)

Definition zero_capability : Capability := MkCapability "" "".
Definition set_Capability (c : Capability) (k : bytes) (v : any) : option Capability :=
  if names "namespace" k then s ← str_value (Namespace c) v; Some (MkCapability s (Name c))
  else if names "name" k then s ← str_value (Name c) v; Some (MkCapability (Namespace c) s)
  else Some c.

Definition set_Validity (w : Validity) (k : bytes) (v : any) : option Validity :=
  if names "notBefore" k then t ← time_value (NotBefore w) v; Some (MkValidity t (NotAfter w))
  else if names "notAfter" k then t ← time_value (NotAfter w) v; Some (MkValidity (NotBefore w) t)
  else Some w.
Definition zero_validity : Validity := MkValidity zero_time zero_time.

Definition set_TimeWindow (w : TimeWindow) (k : bytes) (v : any) : option TimeWindow :=
  if names "start" k then t ← time_value (Start w) v; Some (MkTimeWindow t (End_ w))
  else if names "end" k then t ← time_value (End_ w) v; Some (MkTimeWindow (Start w) t)
  else Some w.

Definition set_Quantity (q : Quantity) (k : bytes) (v : any) : option Quantity :=
  if names "unit" k then s ← str_value (Unit q) v; Some (MkQuantity s (QLimit q))
  else if names "limit" k then z ← int_field (QLimit q) v; Some (MkQuantity (Unit q) z)
  else Some q.

Definition set_Monetary (m : Monetary) (k : bytes) (v : any) : option Monetary :=
  if names "currency" k then s ← str_value (Currency m) v; Some (MkMonetary s (MLimit m))
  else if names "limit" k then f ← float_value (MLimit m) v; Some (MkMonetary (Currency m) f)
  else Some m.

Definition strings_value (old : list string) (v : any) : option (list string) :=
  default [] <$> slice_value str_value ""%string (Some old) v.

Definition set_Scope (s : Scope) (k : bytes) (v : any) : option Scope :=
  let '(MkScope re su ac og ge ch w q m) := s in
  if names "resources" k then l ← strings_value re v; Some (MkScope l su ac og ge ch w q m)
  else if names "subjects" k then l ← strings_value su v; Some (MkScope re l ac og ge ch w q m)
  else if names "actions" k then l ← strings_value ac v; Some (MkScope re su l og ge ch w q m)
  else if names "organizations" k then l ← strings_value og v; Some (MkScope re su ac l ge ch w q m)
  else if names "geography" k then l ← strings_value ge v; Some (MkScope re su ac og l ch w q m)
  else if names "channels" k then l ← strings_value ch v; Some (MkScope re su ac og ge l w q m)
  else if names "timeWindow" k then
    p ← pointer_value (struct_value set_TimeWindow) (MkTimeWindow zero_time zero_time) w v; Some (MkScope re su ac og ge ch p q m)
  else if names "quantity" k then
    p ← pointer_value (struct_value set_Quantity) (MkQuantity "" 0) q v; Some (MkScope re su ac og ge ch w p m)
  else if names "monetary" k then
    p ← pointer_value (struct_value set_Monetary) (MkMonetary "" (S754_zero false)) m v; Some (MkScope re su ac og ge ch w q p)
  else Some s.
Definition zero_scope : Scope := MkScope [] [] [] [] [] [] None None None.

Definition set_Provenance (p : Claim.Provenance) (k : bytes) (v : any) : option Claim.Provenance :=
  let '(Claim.MkProvenance so me ti) := p in
  if names "source" k then s ← str_value so v; Some (Claim.MkProvenance s me ti)
  else if names "method" k then s ← str_value me v; Some (Claim.MkProvenance so s ti)
  else if names "timestamp" k then t ← time_value ti v; Some (Claim.MkProvenance so me t)
  else Some p.
Definition zero_provenance : Claim.Provenance := Claim.MkProvenance "" "" zero_time.

Definition set_ClaimType (t : Claim.ClaimType) (k : bytes) (v : any) : option Claim.ClaimType :=
  if names "namespace" k then s ← str_value (Claim.TNamespace t) v; Some (Claim.MkClaimType s (Claim.TName t))
  else if names "name" k then s ← str_value (Claim.TName t) v; Some (Claim.MkClaimType (Claim.TNamespace t) s)
  else Some t.

(** An [any] field: nil for null. *)
Definition interface_value (v : any) : option (option any) :=
  match v with Canonical.JNull => Some None | _ => Some <$> any_value v end.

Definition set_Claim (c : Claim.Claim) (k : bytes) (v : any) : option Claim.Claim :=
  let '(Claim.MkClaim iss su ty va sc vl pr) := c in
  if names "issuer" k then s ← str_value iss v; Some (Claim.MkClaim s su ty va sc vl pr)
  else if names "subject" k then s ← str_value su v; Some (Claim.MkClaim iss s ty va sc vl pr)
  else if names "type" k then t ← struct_value set_ClaimType ty v; Some (Claim.MkClaim iss su t va sc vl pr)
  else if names "value" k then w ← interface_value v; Some (Claim.MkClaim iss su ty w sc vl pr)
  else if names "scope" k then s ← struct_value set_Scope sc v; Some (Claim.MkClaim iss su ty va s vl pr)
  else if names "validity" k then w ← struct_value set_Validity vl v; Some (Claim.MkClaim iss su ty va sc w pr)
  else if names "provenance" k then p ← struct_value set_Provenance pr v; Some (Claim.MkClaim iss su ty va sc vl p)
  else Some c.
Definition zero_claim : Claim.Claim :=
  Claim.MkClaim "" "" (Claim.MkClaimType "" "") None zero_scope zero_validity zero_provenance.

Definition set_Evidence (e : Evidence.Evidence) (k : bytes) (v : any) : option Evidence.Evidence :=
  let '(Evidence.MkEvidence id ch mt lo pr me) := e in
  if names "identifier" k then s ← str_value id v; Some (Evidence.MkEvidence s ch mt lo pr me)
  else if names "contentHash" k then b ← bytes_value ch v; Some (Evidence.MkEvidence id b mt lo pr me)
  else if names "mediaType" k then s ← str_value mt v; Some (Evidence.MkEvidence id ch s lo pr me)
  else if names "locator" k then s ← str_value lo v; Some (Evidence.MkEvidence id ch mt s pr me)
  else if names "provenance" k then p ← struct_value set_Provenance pr v; Some (Evidence.MkEvidence id ch mt lo p me)
  else if names "metadata" k then m ← map_value me v; Some (Evidence.MkEvidence id ch mt lo pr m)
  else Some e.
Definition zero_evidence : Evidence.Evidence := Evidence.MkEvidence "" None "" "" zero_provenance [].

(** [json.Unmarshal(b, out)] for a struct with these fields. *)
Definition unmarshal {A} (set : A → bytes → any → option A) (zero : A) (b : bytes) : option A :=
  match raw_document b with Ok v => struct_value set zero v | _ => None end.

(** ** Labels *)

Definition ClaimIssuer : Z := 1.
Definition ClaimSubject : Z := 2.
Definition ClaimAudience : Z := 3.
Definition ClaimExpiry : Z := 4.
Definition ClaimNotBefore : Z := 5.
Definition ClaimIssuedAt : Z := 6.
Definition ClaimCWTID : Z := 7.
Definition ClaimNonce : Z := 10.
Definition labelAuthorityRef : Z := -70001.
Definition labelCapability : Z := -70002.
Definition labelClaim : Z := -70003.
Definition labelEvidence : Z := -70004.
Definition labelSigningKeyID : Z := -70005.
Definition labelSigningKeyVersion : Z := -70006.
Definition labelAlgorithm : Z := -70007.
Definition labelStatus : Z := -70008.

Inductive error : Type :=
| ErrInvalidClaims
| ErrMalformedEAT
| ErrEATHashMismatch
| ErrAttestation (e : Attestation.error)
| ErrCanonicalJSON (e : Canonical.error)
| ErrEncode.

Section Token.
Context `{H : Hasher, L : Canonical.CborLib, C : EatCbor, A : Arch}.

(** ** eat_cbor.go *)

Definition canonicalCBOR (v : CborItem) : outcome error bytes :=
  match cbor_encode v with Some b => Ok b | None => Err ErrEncode end.

(** Of the tree that the value marshals to. *)
Definition canonicalJSON (tree : outcome Canonical.error Canonical.json) : outcome error bytes :=
  wrap_err ErrCanonicalJSON (v ← tree; Canonical.appendJCS v).

Definition marshalCOSESign1 (alg : Signature.Algorithm) (keyID : string) (claims : list (Z * CborItem)) (sig : bytes) : outcome error bytes :=
  protectedBytes ← canonicalCBOR (CMap ((1, CInt (Signature.COSE alg)) ::
    (if is_empty keyID then [] else [(4, CBytes (str_bytes keyID))])));
  payload ← canonicalCBOR (CMap claims);
  canonicalCBOR (CArray [CBytes protectedBytes; CMap []; CBytes payload; CBytes sig]).

Definition parseCOSESign1 (token : bytes) : outcome error (gmap Z CborValue * bytes) :=
  match cbor_items token with
  | Some [_; _; part2; part3] =>
      match cbor_bytes part2 with
      | None => Err ErrMalformedEAT
      | Some payload =>
          match cbor_bytes part3 with
          | None => Err ErrMalformedEAT
          | Some sig =>
              if zlen payload =? 0 then Err ErrInvalidClaims
              else match cbor_claims payload with
                   | Some (Some claims) => Ok (claims, sig)
                   | _ => Err ErrInvalidClaims
                   end
          end
      end
  | _ => Err ErrMalformedEAT
  end.

(** The kinds of [any] that arise from CBOR. *)
Definition toInt64 (v : CborValue) : outcome error Z :=
  match v with
  | VInt z => Ok z
  | VUint z => Ok (i64 z)
  | VFloat f => Ok (GoFloat.int64 f)
  | _ => Err ErrInvalidClaims
  end.

(** ** eat.go *)

Definition eatClaims (att : Attestation) : outcome error (list (Z * CborItem)) :=
  h ← wrap_err ErrAttestation (CanonicalHash (Some att));
  capability ← canonicalJSON (Ok (Capability_json (ACapability att)));
  claimBytes ← canonicalJSON (Canonical.to_json (AClaim att));
  evidenceBytes ← each (λ _ e, canonicalJSON (Canonical.to_json e)) 0 (elems (AEvidence att));
  Ok [(ClaimIssuer, CText (AIssuer att));
      (ClaimExpiry, CInt (Unix (NotAfter (AValidity att))));
      (ClaimNotBefore, CInt (Unix (NotBefore (AValidity att))));
      (ClaimIssuedAt, CInt (Unix (IssuedAt att)));
      (ClaimCWTID, CText (hex_encode (arr h)));
      (labelAuthorityRef, CText (AuthorityRef att));
      (labelCapability, CBytes capability);
      (labelClaim, CBytes claimBytes);
      (labelEvidence, CArray (CBytes <$> evidenceBytes));
      (labelSigningKeyID, CText (SigningKeyID att));
      (labelSigningKeyVersion, CInt (i64 (SigningKeyVersion att)));
      (labelAlgorithm, CInt (Signature.COSE (AAlgorithm att)));
      (labelStatus, CInt (AStatus att))].

Definition MarshalEAT (att : option Attestation) : outcome error bytes :=
  match att with
  | None => Err (ErrAttestation ErrNilAttestation)
  | Some att =>
      claims ← eatClaims att;
      marshalCOSESign1 (AAlgorithm att) (SigningKeyID att) claims (ASignature att)
  end.

Definition statusFromInt64 (n : Z) : Status := if known_status n then n else 0.

Definition text_claim (claims : gmap Z CborValue) (label : Z) : string :=
  match claims !! label with Some (VText s) => s | _ => ""%string end.

(** [time.Unix(n, 0).UTC()]; adding the epoch wraps. *)
Definition unix_utc (n : Z) : Time := MkTime (i64 (n + unix_epoch)) 0 0.

Definition unixClaim (claims : gmap Z CborValue) (label : Z) : outcome error Time :=
  match claims !! label with
  | None => Ok zero_time
  | Some v => n ← toInt64 v; Ok (unix_utc n)
  end.

Definition jsonClaim {T} (claims : gmap Z CborValue) (label : Z) (set : T → bytes → any → option T) (zero : T) : outcome error T :=
  match claims !! label with
  | None => Ok zero
  | Some (VBytes b) => match unmarshal set zero b with Some x => Ok x | None => Err ErrInvalidClaims end
  | Some _ => Err ErrInvalidClaims
  end.

Definition int_claim {T} (claims : gmap Z CborValue) (label : Z) (zero : T) (f : Z → outcome error T) : outcome error T :=
  match claims !! label with None => Ok zero | Some v => n ← toInt64 v; f n end.

Definition evidence_item (item : CborValue) : outcome error Evidence.Evidence :=
  match item with
  | VBytes b => match unmarshal set_Evidence zero_evidence b with Some e => Ok e | None => Err ErrInvalidClaims end
  | _ => Err ErrInvalidClaims
  end.

Definition evidenceClaim (claims : gmap Z CborValue) : outcome error (option (list Evidence.Evidence)) :=
  match claims !! labelEvidence with
  | None => Ok None
  | Some (VArray []) => Ok None
  | Some (VArray items) => l ← each (λ _, evidence_item) 0 items; Ok (Some l)
  | Some _ => Err ErrInvalidClaims
  end.

(** The signature is set by the caller. *)
Definition attFromClaims (claims : gmap Z CborValue) : outcome error Attestation :=
  let issuer := text_claim claims ClaimIssuer in
  if is_empty issuer then Err ErrInvalidClaims
  else if bool_decide (claims !! ClaimCWTID = None) then Err ErrInvalidClaims
  else
    notAfter ← unixClaim claims ClaimExpiry;
    notBefore ← unixClaim claims ClaimNotBefore;
    issuedAt ← unixClaim claims ClaimIssuedAt;
    version ← int_claim claims labelSigningKeyVersion 0 (λ n, Ok (u64 n));
    alg ← int_claim claims labelAlgorithm 0 (λ n,
      match Signature.AlgorithmForCOSE n with Some a => Ok a | None => Err ErrInvalidClaims end);
    status ← int_claim claims labelStatus 0 (λ n, Ok (statusFromInt64 n));
    capability ← jsonClaim claims labelCapability set_Capability zero_capability;
    claim ← jsonClaim claims labelClaim set_Claim zero_claim;
    evidence ← evidenceClaim claims;
    Ok {| AIssuer := issuer; SigningKeyID := text_claim claims labelSigningKeyID; SigningKeyVersion := version;
          AuthorityRef := text_claim claims labelAuthorityRef; ACapability := capability; AClaim := claim;
          AEvidence := evidence; IssuedAt := issuedAt; AValidity := MkValidity notBefore notAfter; AStatus := status;
          AAlgorithm := alg; ASignature := [] |}.

Definition UnmarshalEAT (token : bytes) : outcome error Attestation :=
  '(claims, sig) ← parseCOSESign1 token;
  att ← attFromClaims claims;
  let att := with_signature att sig in
  h ← wrap_err ErrAttestation (CanonicalHash (Some att));
  let cti := text_claim claims ClaimCWTID in
  if negb (String.eqb cti (hex_encode (arr h))) then Err ErrEATHashMismatch else Ok att.
End Token.
End Eat.
