(* ===== verification/EatProofs.v ===== *)
(** * Properties of EAT tokens

    The JSON inside a token reads back when it is legible; so a signed attestation comes
    back from its token, an unsigned one is refused, and what is accepted is what the
    token names. *)
From Stdlib Require Import SpecFloat.
From stdpp Require Import gmap sorting.
From S2P Require Import Prelude Sha256 GoTime Canonical CanonicalProofs CanonicalInjective Signature SignatureProofs Authority AuthorityProofs ClaimEvidence Attestation AttestationProofs Json JsonProofs GoJson GoJsonProofs GoFloat Binder Base64 Wire Eat.
Import GoTime GoJson Authority Attestation Eat.
#[local] Open Scope Z_scope.

(** ** The codec *)

Definition scalar (v : CborItem) : Prop :=
  match v with
  | CInt z => - 2 ^ 63 ≤ z < 2 ^ 63
  | CText s => valid_text (str_bytes s)
  | CBytes _ => True
  | _ => False
  end.

(** The values of a claim map: scalars and slices of them, as long as the decoder takes. *)
Definition claim_value (v : CborItem) : Prop :=
  match v with CArray l => zlen l ≤ 131072 ∧ Forall scalar l | _ => scalar v end.

Fixpoint any_of (v : CborItem) : CborValue :=
  match v with
  | CInt z => if z <? 0 then VInt z else VUint z
  | CText s => VText s
  | CBytes b => VBytes b
  | CArray l => VArray (any_of <$> l)
  | CMap _ => VOther
  end.

(** What is documented: these values are encoded, and decode to what went in. *)
Class EatCborLaws `{EatCbor} : Prop := {
  cbor_encodes_map m : Forall (λ kv, - 2 ^ 63 ≤ kv.1 < 2 ^ 63 ∧ claim_value kv.2) m → NoDup m.*1 → is_Some (cbor_encode (CMap m));
  cbor_encodes_sign1 a b c : is_Some (cbor_encode (CArray [CBytes a; CMap []; CBytes b; CBytes c]));
  cbor_reads_map m b : Forall (λ kv, - 2 ^ 63 ≤ kv.1 < 2 ^ 63 ∧ claim_value kv.2) m → NoDup m.*1 → zlen m ≤ 131072 →
    cbor_encode (CMap m) = Some b → b ≠ [] ∧ cbor_claims b = Some (Some (any_of <$> list_to_map m));
  cbor_reads_sign1 a b c t : cbor_encode (CArray [CBytes a; CMap []; CBytes b; CBytes c]) = Some t →
    ∃ p0 p1 p2 p3, cbor_items t = Some [p0; p1; p2; p3] ∧ cbor_bytes p2 = Some b ∧ cbor_bytes p3 = Some c
}.

Section Reading.
Import Canonical.

(** ** The embedded JSON reads back *)

(** Text and keys of UTF-8; the members of an object are in canonical order, each key once. *)
Fixpoint well_keyed (v : json) : Prop :=
  match v with
  | JStr s => valid_text s
  | JArr l => foldr (λ v P, well_keyed v ∧ P) True l
  | JObj m => NoDup m.*1 ∧ merge_sort key_le m = m ∧ foldr (λ kv P, (valid_text kv.1 ∧ well_keyed kv.2) ∧ P) True m
  | _ => True
  end.

Lemma unquote_escape s : valid_text s → Json.unquote (escape s) = s.
Proof. intros Hs. by rewrite (proj2 (escape_spec s)). Qed.

Lemma unescape_raw_of v : well_keyed v → unescape (raw_of v) = v.
Proof.
  induction v as [|b|lit|s|l IH|m IH] using json_nested_ind; intros Hv; cbn [raw_of unescape]; try done.
  - by rewrite unquote_escape.
  - cbn [well_keyed] in Hv. rewrite foldr_Forall in Hv. f_equal. rewrite <- list_fmap_compose.
    induction IH as [|x l Hx _ IH]; [done|]. apply Forall_cons in Hv as [Hxv Hl]. rewrite fmap_cons. unfold compose at 1. by rewrite Hx, IH.
  - destruct Hv as (_ & Hs & Hm%foldr_Forall). change (unescape (raw_of (JObj m)) = JObj m). rewrite raw_of_obj, Hs. cbn [unescape]. f_equal.
    rewrite <- list_fmap_compose. clear Hs. induction IH as [|[k x] m Hx _ IH]; [done|]. apply Forall_cons in Hm as [[Hk Hxv] Hm].
    rewrite fmap_cons. cbn [fst snd] in *. rewrite IH by done. unfold compose. cbn [prod_map fst snd]. by rewrite unquote_escape, Hx.
Qed.

(** A number in canonical digits is finite, and written back as it is. *)
Lemma number_settled lit : appendJCS (JNum lit) = Ok lit → Json.numbers_ok (JNum lit) = true ∧ renumber (JNum lit) = JNum lit.
Proof.
  cbn [appendJCS]. intros (f & Hc & Hf)%bind_Ok. unfold checkedNumber in Hc. cbn [Json.numbers_ok renumber].
  destruct (ParseFloat lit) as [g|] eqn:Hp; [|done]. destruct (_ && _); [done|]. destruct (is_finite g) eqn:Hg; [|done]. injection Hc as ->.
  split; [done|]. cbn [mbind option_bind]. destruct f as [s|s| |s m e]; try done.
  - injection Hf as <-. vm_compute in Hp. injection Hp as <-. reflexivity.
  - unfold marshal_float. by rewrite Hf.
Qed.

Lemma any_value_raw_of v n : canonical_numbers n v → well_keyed v → any_value (raw_of v) = Some v.
Proof.
  intros Hn Hk. unfold any_value. rewrite unescape_raw_of by done.
  assert (Json.numbers_ok (raw_of v) = true ∧ renumber (Json.to_any v) = v) as [-> ->]; [|done].
  revert n Hn Hk. induction v as [|b|lit|s|l IH|m IH] using json_nested_ind; intros n Hn Hk; try done.
  - apply number_settled. apply Hn.
  - destruct Hn as [_ Hn%foldr_Forall]. cbn [well_keyed] in Hk. rewrite foldr_Forall in Hk. cbn [raw_of Json.numbers_ok Json.to_any renumber].
    enough (forallb Json.numbers_ok (raw_of <$> l) = true ∧ renumber <$> (Json.to_any <$> l) = l) as [-> ->] by done.
    induction IH as [|x l Hx _ IH]; [done|]. apply Forall_cons in Hn as [Hxn Hn]. apply Forall_cons in Hk as [Hxk Hk].
    destruct (Hx _ Hxn Hxk) as [E1 E2], (IH Hn Hk) as [E3 E4]. cbn [fmap list_fmap forallb]. rewrite E1, E2, E3. split; [done|]. f_equal. exact E4.
  - destruct Hn as [_ Hn%foldr_Forall], Hk as (Hnd & Hs & Hk%foldr_Forall). rewrite raw_of_obj, Hs. cbn [Json.numbers_ok Json.to_any].
    rewrite collect_id by (rewrite <- list_fmap_compose; erewrite list_fmap_ext; [exact Hnd|done]). cbn [renumber].
    enough (forallb (λ kv, Json.numbers_ok kv.2) (prod_map escape raw_of <$> m) = true ∧
      (λ kv : bytes * json, (kv.1, renumber kv.2)) <$> ((λ kv : bytes * json, (kv.1, Json.to_any kv.2)) <$> m) = m) as [-> ->] by done.
    clear Hs Hnd. induction IH as [|[k x] m Hx _ IH]; [done|]. apply Forall_cons in Hn as [Hxn Hn]. apply Forall_cons in Hk as [[_ Hxk] Hk].
    destruct (Hx _ Hxn Hxk) as [E1 E2], (IH Hn Hk) as [E3 E4]. cbn [fmap list_fmap forallb prod_map fst snd] in *. rewrite E1, E3. split; [done|].
    rewrite E2. f_equal. exact E4.
Qed.

(** *** Times *)

Lemma plain_of_digits s : Forall (λ c, is_digit c = true) s → Forall (λ c, plain c = true) s.
Proof.
  intros Hs. eapply Forall_impl; [exact Hs|]. intros c. destruct c; vm_compute; done.
Qed.

Lemma trim_plain f w n : Forall (λ c, plain c = true) (trim_zeros f w n).
Proof.
  revert w n. induction f as [|f IH]; intros w n; [constructor|]. destruct w as [|w]; [constructor|]. cbn [trim_zeros].
  destruct (n `mod` 10 =? 0); [apply IH|]. constructor; [done|]. apply plain_of_digits, pad_digits.
Qed.

Lemma rfc3339_plain t b : rfc3339 t = Some b → Forall (λ c, plain c = true) b.
Proof.
  assert (∀ w n, Forall (λ c, plain c = true) (pad w n)) as Hp by (intros; apply plain_of_digits, pad_digits).
  unfold rfc3339. destruct (civil _) as [[y m] d]. destruct (_ || _); [done|]. intros E. apply (inj Some) in E. subst b.
  repeat (apply Forall_app_2; [try apply Hp; try (by repeat constructor)|]).
  - apply trim_plain.
  - destruct (off t =? 0); [by repeat constructor|]. apply Forall_app_2; [destruct (_ <? 0); by repeat constructor|].
    apply Forall_app_2; [apply Hp|]. apply Forall_app_2; [by repeat constructor|apply Hp].
Qed.

Lemma escape_plain s : Forall (λ c, plain c = true) s → escape s = s.
Proof.
  induction 1 as [|c s Hc _ IH]; [done|]. apply plain_byte in Hc as (Ha & Hs & Hq & Hb). pose proof (b2z_range c).
  assert (escape (c :: s) = escape_rune (b2z c) ++ escape s) as ->.
  { unfold escape, runes. cbn [length runes_from]. unfold decode_rune. rewrite (proj2 (Z.ltb_lt _ _)) by done. done. }
  rewrite IH.
  assert (escape_rune (b2z c) = [c]) as ->; [|done]. unfold escape_rune.
  assert (∀ k, b2z c = b2z k → c = k) as Hinj by (intros k; apply b2z_inj).
  repeat match goal with |- context [if b2z c =? ?k then _ else _] => destruct (Z.eqb_spec (b2z c) k) as [E|_];
    [first [lia|by destruct Hq; apply (Hinj x22)|by destruct Hb; apply (Hinj x5c)]|] end.
  rewrite (proj2 (Z.ltb_ge _ _)) by done. unfold encode_rune. rewrite (proj2 (Z.ltb_lt _ _)) by done. by rewrite z2b_b2z.
Qed.

(** A time that its text holds: nanoseconds in range and an offset of whole minutes. *)
Definition stamp (t : Time) : Prop := 0 ≤ nsec t < 10 ^ 9 ∧ off t `mod` 60 = 0.

Lemma time_reads t v old : stamp t → jtime t = Ok v → time_value old (raw_of v) = Some t ∧ ∀ n, canonical_numbers n v.
Proof.
  intros [Hn Ho]. unfold jtime. destruct (rfc3339 t) as [b|] eqn:E; [|done]. intros [= <-]. split; [|done].
  cbn [raw_of time_value]. rewrite escape_plain by (by eapply rfc3339_plain). by apply parse_time_rfc3339.
Qed.

(** *** Byte slices *)

Lemma b64_value_char n : 0 ≤ n < 64 → b64_value (b64_char n) = Some n ∧ plain (b64_char n) = true ∧ b64_char n ≠ x3d ∧
  b64_char n ≠ x0a ∧ b64_char n ≠ x0d.
Proof.
  intros Hn. assert (n ∈ seqZ 0 64) as Hin by (apply elem_of_seqZ; lia).
  assert (Forall (λ n, b64_value (b64_char n) = Some n ∧ plain (b64_char n) = true ∧ b64_char n ≠ x3d ∧
    b64_char n ≠ x0a ∧ b64_char n ≠ x0d) (seqZ 0 64)) as HF by (apply (bool_decide_unpack _); vm_compute; exact I).
  rewrite list.Forall_forall in HF. by apply HF.
Qed.

(** The digits of [Base64], padded to a multiple of four. *)
Definition padding (b : bytes) : bytes := replicate (Z.to_nat ((- zlen b) `mod` 3)) x3d.

Lemma base64_digits b : base64 b = (b64_char <$> b64_digits b) ++ padding b ∧ zlen (base64 b) `mod` 4 = 0.
Proof.
  induction b as [|x|x y|x y z b [IH Hl]] using bytes_ind3; [done..|]. cbn [base64 b64_digits]. cbv zeta. rewrite IH. split.
  - cbn [fmap list_fmap app]. do 4 f_equal. unfold padding. do 3 f_equal. cbn [length]. div_lia.
  - rewrite <- IH. cbn [app length] in *. div_lia.
Qed.

Lemma strip_base64 b : strip_padding (base64 b) = b64_char <$> b64_digits b.
Proof.
  rewrite (proj1 (base64_digits b)). pose proof (b64_digits_range b) as HR. set (ds := b64_char <$> b64_digits b).
  assert (∀ k r, reverse ds = k :: r → k ≠ x3d) as Hlast.
  { intros k r E. assert (k ∈ ds) as Hk by (apply elem_of_reverse; rewrite E; by left). apply list_elem_of_fmap in Hk as (n & -> & Hn).
    rewrite list.Forall_forall in HR. by apply b64_value_char, HR. }
  assert (strip_padding ds = ds) as H0.
  { unfold strip_padding. destruct (reverse ds) as [|k r] eqn:E; [done|]. specialize (Hlast k r eq_refl). by destruct k. }
  unfold padding. assert (Z.to_nat ((- zlen b) `mod` 3) = 0%nat ∨ Z.to_nat ((- zlen b) `mod` 3) = 1%nat ∨ Z.to_nat ((- zlen b) `mod` 3) = 2%nat)
    as [-> |[-> | ->]] by div_lia; cbn [replicate].
  - by rewrite app_nil_r.
  - unfold strip_padding. rewrite reverse_app. change (reverse [x3d]) with [x3d]. cbn [app].
    destruct (reverse ds) as [|k r] eqn:E; [by rewrite <- E, reverse_involutive|]. specialize (Hlast k r eq_refl).
    rewrite <- (reverse_involutive ds), E. by destruct k.
  - unfold strip_padding. rewrite reverse_app. change (reverse [x3d; x3d]) with [x3d; x3d]. cbn [app]. by rewrite reverse_involutive.
Qed.

Lemma base64_plain b : Forall (λ c, plain c = true ∧ c ≠ x0a ∧ c ≠ x0d) (base64 b).
Proof.
  rewrite (proj1 (base64_digits b)). apply Forall_app_2; [|unfold padding; apply Forall_replicate; by vm_compute].
  apply Forall_fmap. eapply Forall_impl; [apply b64_digits_range|]. intros n Hn. by destruct (b64_value_char n Hn) as (_ & ? & _ & ? & ?).
Qed.

Lemma decode_base64_base64 b : decode_base64 (base64 b) = Some b.
Proof.
  unfold decode_base64. assert (filter (λ c, c ≠ x0a ∧ c ≠ x0d) (base64 b) = base64 b) as ->.
  { induction (base64_plain b) as [|c l Hc _ IH]; [done|]. rewrite filter_cons_True by apply Hc. by rewrite IH. }
  rewrite (proj2 (base64_digits b)). cbn [negb Z.eqb]. rewrite strip_base64.
  assert (mapM b64_value (b64_char <$> b64_digits b) = Some (b64_digits b)) as ->; [|apply b64_groups_digits].
  apply mapM_Some_2, Forall2_fmap_l, Forall_Forall2_diag. eapply Forall_impl; [apply b64_digits_range|]. intros n Hn. by apply b64_value_char.
Qed.

Lemma bytes_reads b old : bytes_value old (raw_of (match b with None => JNull | Some b => JStr (base64 b) end)) = Some b.
Proof.
  destruct b as [b|]; [|done]. cbn [raw_of bytes_value].
  rewrite (proj2 (escape_spec _)). assert (sanitize (base64 b) = base64 b) as ->.
  { apply valid_ascii. eapply Forall_impl; [apply base64_plain|]. intros c [Hc _]. by apply plain_byte in Hc as [? _]. }
  by rewrite decode_base64_base64.
Qed.

(** *** Structs *)

Lemma time_numbers t v n : jtime t = Ok v → canonical_numbers n v.
Proof. unfold jtime. destruct (rfc3339 t); [|done]. by intros [= <-]. Qed.


(** A member that may be left out. *)
Definition block (k : string) (v : option json) : list (bytes * json) := match v with None => [] | Some v => [(str_bytes k, v)] end.

Lemma block_text {A} (set : A → bytes → any → option A) k a a' v m : sanitize (str_bytes k) = str_bytes k →
  match v with None => a' = a | Some v => set a (str_bytes k) (raw_of v) = Some a' end →
  struct_value set a (members_of (block k v ++ m)) = struct_value set a' (members_of m).
Proof. intros Hs Hset. destruct v as [v|]; [by apply field_text|by subst]. Qed.

Lemma raw_of_members m m' : merge_sort key_le m = m' → raw_of (JObj m) = members_of m'.
Proof. intros <-. by rewrite raw_of_obj. Qed.

Definition text (s : string) : Prop := valid_text (str_bytes s).

Lemma text_reads s old : text s → str_value old (raw_of (jstr s)) = Some s.
Proof. intros Hs. by apply string_text. Qed.

Lemma texts_read l old : Forall text l → strings_value old (raw_of (jstrings l)) = Some l.
Proof. apply strings_text. Qed.

Lemma texts_numbers n l : 1 ≤ n → canonical_numbers n (jstrings l).
Proof. intros Hn. apply numbers_arr; [done|]. by apply Forall_fmap, Forall_true. Qed.

Lemma numbers_members n m : 1 ≤ n → foldr (λ kv P, canonical_numbers (n - 1) kv.2 ∧ P) True m → canonical_numbers n (JObj m).
Proof. done. Qed.

(** Decoding the next member, which may be left out. *)
Ltac next_block t := erewrite block_text; [|vm_compute; reflexivity|t].

(** The members of an object, sorted as [H] says. *)
Ltac in_order H := let Hm := fresh in
  pose proof (raw_of_members _ _ H) as Hm; unfold field in Hm; cbn [app] in Hm;
  unfold Capability_json, field; cbn [app]; rewrite Hm; clear Hm.

Definition capability_legible (c : Capability) : Prop := text (Namespace c) ∧ text (Name c).

Lemma capability_members (a b : json) : merge_sort key_le (field "namespace" a ++ field "name" b) = [(str_bytes "name", b); (str_bytes "namespace", a)].
Proof. vm_compute. reflexivity. Qed.

Lemma capability_reads c : capability_legible c →
  struct_value set_Capability zero_capability (raw_of (Capability_json c)) = Some c ∧ ∀ n, 1 ≤ n → canonical_numbers n (Capability_json c).
Proof.
  intros [Hs Hn]. split; [|by intros n Hp; apply numbers_members]. unfold Capability_json.
  in_order (capability_members (jstr (Namespace c)) (jstr (Name c))).
  next_field ltac:(unfold set_Capability; decide_names; rewrite text_reads by done; reflexivity).
  next_field ltac:(unfold set_Capability; decide_names; rewrite text_reads by done; reflexivity).
  by destruct c.
Qed.

Definition validity_legible (v : Validity) : Prop := stamp (NotBefore v) ∧ stamp (NotAfter v).

Lemma validity_members (a b : json) : merge_sort key_le (field "notBefore" a ++ field "notAfter" b) = [(str_bytes "notAfter", b); (str_bytes "notBefore", a)].
Proof. vm_compute. reflexivity. Qed.

Lemma validity_reads v t old : validity_legible v → Validity_json v = Ok t →
  struct_value set_Validity old (raw_of t) = Some v ∧ ∀ n, 1 ≤ n → canonical_numbers n t.
Proof.
  intros [H1 H2] (b & Hb & (a & Ha & [= <-])%bind_Ok)%bind_Ok.
  split; [|intros n Hp; apply numbers_members; [done|]; cbn; split_and!; [by eapply time_numbers..|done]].
  in_order (validity_members b a).
  next_field ltac:(unfold set_Validity; decide_names; rewrite (proj1 (time_reads _ _ _ H2 Ha)); reflexivity).
  next_field ltac:(unfold set_Validity; decide_names; rewrite (proj1 (time_reads _ _ _ H1 Hb)); reflexivity).
  by destruct v.
Qed.

Definition window_legible (w : TimeWindow) : Prop := stamp (Start w) ∧ stamp (End_ w).

Lemma window_members (a b : json) : merge_sort key_le (field "start" a ++ field "end" b) = [(str_bytes "end", b); (str_bytes "start", a)].
Proof. vm_compute. reflexivity. Qed.

Lemma window_reads w t old : window_legible w → TimeWindow_json w = Ok t →
  struct_value set_TimeWindow old (raw_of t) = Some w ∧ ∀ n, 1 ≤ n → canonical_numbers n t.
Proof.
  intros [H1 H2] (b & Hb & (a & Ha & [= <-])%bind_Ok)%bind_Ok.
  split; [|intros n Hp; apply numbers_members; [done|]; cbn; split_and!; [by eapply time_numbers..|done]].
  in_order (window_members b a).
  next_field ltac:(unfold set_TimeWindow; decide_names; rewrite (proj1 (time_reads _ _ _ H2 Ha)); reflexivity).
  next_field ltac:(unfold set_TimeWindow; decide_names; rewrite (proj1 (time_reads _ _ _ H1 Hb)); reflexivity).
  by destruct w.
Qed.

Definition quantity_legible (q : Quantity) : Prop := text (Unit q) ∧ Z.abs (QLimit q) < 2 ^ 53.

Lemma quantity_members (a b : json) : merge_sort key_le (field "unit" a ++ field "limit" b) = [(str_bytes "limit", b); (str_bytes "unit", a)].
Proof. vm_compute. reflexivity. Qed.

Lemma quantity_reads q t old : quantity_legible q → Quantity_json q = Ok t →
  struct_value set_Quantity old (raw_of t) = Some q ∧ ∀ n, 1 ≤ n → canonical_numbers n t.
Proof.
  intros [H1 H2] [= <-]. split; [|intros n Hp; apply numbers_members; [done|]; cbn; split_and!; [done|by apply int_numbers..|done]].
  in_order (quantity_members (jstr (Unit q)) (jint (QLimit q))).
  next_field ltac:(unfold set_Quantity; decide_names; change (raw_of (jint ?z)) with (jint z); rewrite int_text by done; reflexivity).
  next_field ltac:(unfold set_Quantity; decide_names; rewrite text_reads by done; reflexivity).
  by destruct q.
Qed.

(** A limit whose canonical digits are its own and denote it. *)
Definition limit_legible (f : spec_float) : Prop :=
  ∃ lit, jfloat f = Ok (JNum lit) ∧ (∀ n, canonical_numbers n (JNum lit)) ∧ ParseFloat lit = Some f.
Definition monetary_legible (m : Monetary) : Prop := text (Currency m) ∧ limit_legible (MLimit m).

Lemma monetary_members (a b : json) : merge_sort key_le (field "currency" a ++ field "limit" b) = [(str_bytes "currency", a); (str_bytes "limit", b)].
Proof. vm_compute. reflexivity. Qed.

Lemma monetary_reads m t old : monetary_legible m → Monetary_json m = Ok t →
  struct_value set_Monetary old (raw_of t) = Some m ∧ ∀ n, 1 ≤ n → canonical_numbers n t.
Proof.
  intros [H1 (lit & Hl & Hc & Hp)] (l & Hl' & [= <-])%bind_Ok. rewrite Hl in Hl'. injection Hl' as <-.
  split; [|intros n Hn; apply numbers_members; [done|]; unfold field; cbn [app foldr snd]; split; [done|split; [apply Hc|done]]].
  in_order (monetary_members (jstr (Currency m)) (JNum lit)).
  assert (float_value (MLimit old) (JNum lit) = Some (MLimit m)) as Hf.
  { unfold float_value. rewrite Hp. by destruct (MLimit m). }
  next_field ltac:(unfold set_Monetary; decide_names; rewrite text_reads by done; reflexivity).
  next_field ltac:(unfold set_Monetary; decide_names; change (raw_of (JNum lit)) with (JNum lit); cbn [MLimit]; rewrite Hf; reflexivity).
  by destruct m.
Qed.

Definition scope_legible (s : Scope) : Prop :=
  Forall (Forall text) (dimensions s) ∧ (∀ w, Window s = Some w → window_legible w) ∧
  (∀ q, Quantity_ s = Some q → quantity_legible q) ∧ (∀ m, Monetary_ s = Some m → monetary_legible m).

Definition strings_block (l : list string) : option json := match l with [] => None | _ => Some (jstrings l) end.

Lemma field_strings_block k l : field_strings k l = block k (strings_block l).
Proof. by destruct l. Qed.

Lemma field_opt_block {A} k (f : A → outcome Canonical.error json) v l : field_opt k f v = Ok l →
  ∃ o, l = block k o ∧ match v with None => o = None | Some x => ∃ j, f x = Ok j ∧ o = Some j end.
Proof.
  destruct v as [x|]; [|intros [= <-]; by exists None]. intros (j & Hj & [= <-])%bind_Ok. exists (Some j). split; [done|]. by exists j.
Qed.

Lemma scope_members (re su ac og ge ch w q m : option json) : merge_sort key_le
  (block "resources" re ++ block "subjects" su ++ block "actions" ac ++ block "organizations" og ++ block "geography" ge ++
   block "channels" ch ++ block "timeWindow" w ++ block "quantity" q ++ block "monetary" m) =
  block "actions" ac ++ block "channels" ch ++ block "geography" ge ++ block "monetary" m ++ block "organizations" og ++
  block "quantity" q ++ block "resources" re ++ block "subjects" su ++ block "timeWindow" w ++ [].
Proof. destruct re, su, ac, og, ge, ch, w, q, m; vm_compute; reflexivity. Qed.

(** The next member of a scope; its string slices are nil where they are left out. *)
Ltac strings_member s l := rewrite (block_text set_Scope _ _ s);
  [|vm_compute; reflexivity|destruct l; [reflexivity|cbn [strings_block]; unfold set_Scope; decide_names; rewrite texts_read by assumption; reflexivity]].
Lemma pointer_reads {A} (dec : A → any → option A) zero x v : (∃ m, v = JObj m) → dec zero (raw_of v) = Some x →
  pointer_value dec zero None (raw_of v) = Some (Some x).
Proof. intros (m & ->) Hd. cbn [raw_of pointer_value] in *. cbn [default]. by rewrite Hd. Qed.

Lemma scope_reads s t : scope_legible s → Scope_json s = Ok t →
  struct_value set_Scope zero_scope (raw_of t) = Some s ∧ ∀ n, 3 ≤ n → canonical_numbers n t.
Proof.
  intros (Hd & Hw & Hq & Hm). destruct s as [re su ac og ge ch ow oq om]. unfold dimensions in Hd. cbn in Hd, Hw, Hq, Hm.
  rewrite !Forall_cons in Hd. destruct Hd as (Hre & Hsu & Hac & Hog & Hge & Hch & _).
  intros (lw & Hlw & (lq & Hlq & (lm & Hlm & Ht)%bind_Ok)%bind_Ok)%bind_Ok. cbn in Hlw, Hlq, Hlm, Ht. rewrite !field_strings_block in Ht.
  apply field_opt_block in Hlw as (bw & -> & Bw), Hlq as (bq & -> & Bq), Hlm as (bm & -> & Bm). injection Ht as <-.
  assert (∀ k (o : option json) n m, (∀ v, o = Some v → canonical_numbers n v) → foldr (λ kv P, canonical_numbers n kv.2 ∧ P) True m →
    foldr (λ kv P, canonical_numbers n kv.2 ∧ P) True (block k o ++ m)) as Hblock.
  { intros k [v|] n m Hv Hr; cbn; [split; [by apply Hv|done]|done]. }
  split.
  - rewrite (raw_of_members _ _ (scope_members _ _ _ _ _ _ _ _ _)). unfold zero_scope.
    strings_member (MkScope [] [] ac [] [] [] None None None) ac.
    strings_member (MkScope [] [] ac [] [] ch None None None) ch.
    strings_member (MkScope [] [] ac [] ge ch None None None) ge.
    rewrite (block_text set_Scope _ _ (MkScope [] [] ac [] ge ch None None om)); [|vm_compute; reflexivity|].
    2: { destruct om as [m|]; [|by subst]. destruct Bm as (j & Hj & ->). unfold set_Scope. decide_names.
      rewrite (pointer_reads _ _ m); [done|by apply bind_Ok in Hj as (? & _ & [= <-]); eexists|by apply (monetary_reads m j (MkMonetary "" (S754_zero false)) (Hm m eq_refl) Hj)]. }
    strings_member (MkScope [] [] ac og ge ch None None om) og.
    rewrite (block_text set_Scope _ _ (MkScope [] [] ac og ge ch None oq om)); [|vm_compute; reflexivity|].
    2: { destruct oq as [q|]; [|by subst]. destruct Bq as (j & Hj & ->). unfold set_Scope. decide_names.
      rewrite (pointer_reads _ _ q); [done|by injection Hj as <-; eexists|by apply (quantity_reads q j (MkQuantity "" 0) (Hq q eq_refl) Hj)]. }
    strings_member (MkScope re [] ac og ge ch None oq om) re.
    strings_member (MkScope re su ac og ge ch None oq om) su.
    rewrite (block_text set_Scope _ _ (MkScope re su ac og ge ch ow oq om)); [|vm_compute; reflexivity|].
    2: { destruct ow as [w|]; [|by subst]. destruct Bw as (j & Hj & ->). unfold set_Scope. decide_names.
      rewrite (pointer_reads _ _ w); [done|by apply bind_Ok in Hj as (? & _ & (? & _ & [= <-])%bind_Ok); eexists|
        by apply (window_reads w j (MkTimeWindow zero_time zero_time) (Hw w eq_refl) Hj)]. }
    reflexivity.
  - intros n Hn. apply numbers_members; [lia|].
    assert (∀ l v, strings_block l = Some v → canonical_numbers (n - 1) v) as Hs.
    { intros [|x l] v [= <-]. by apply texts_numbers; lia. }
    do 6 (apply Hblock; [apply Hs|]). apply Hblock; [|apply Hblock; [|rewrite <- (app_nil_r (block _ _)); apply Hblock; [|done]]].
    + intros v ->. destruct ow as [w|]; [|done]. destruct Bw as (j & Hj & [= ->]). apply (window_reads w j (MkTimeWindow zero_time zero_time) (Hw w eq_refl) Hj). lia.
    + intros v ->. destruct oq as [q|]; [|done]. destruct Bq as (j & Hj & [= ->]). apply (quantity_reads q j (MkQuantity "" 0) (Hq q eq_refl) Hj). lia.
    + intros v ->. destruct om as [m|]; [|done]. destruct Bm as (j & Hj & [= ->]). apply (monetary_reads m j (MkMonetary "" (S754_zero false)) (Hm m eq_refl) Hj). lia.
Qed.

Definition provenance_legible (p : Claim.Provenance) : Prop :=
  text (Claim.Source p) ∧ text (Claim.Method p) ∧ stamp (Claim.Timestamp p).

Lemma provenance_members (a b c : json) : merge_sort key_le (field "source" a ++ field "method" b ++ field "timestamp" c) =
  [(str_bytes "method", b); (str_bytes "source", a); (str_bytes "timestamp", c)].
Proof. vm_compute. reflexivity. Qed.

Lemma provenance_reads p t old : provenance_legible p → Claim.Provenance_json p = Ok t →
  struct_value set_Provenance old (raw_of t) = Some p ∧ ∀ n, 1 ≤ n → canonical_numbers n t.
Proof.
  intros (H1 & H2 & H3) (s & Hs & [= <-])%bind_Ok. destruct old. destruct p as [so me ti]. cbn [Claim.Source Claim.Method Claim.Timestamp] in *.
  split; [|intros n Hp; apply numbers_members; [done|]; unfold field; cbn [app foldr snd]; split_and!; [done..|by eapply time_numbers|done]].
  in_order (provenance_members (jstr so) (jstr me) s).
  next_field ltac:(unfold set_Provenance; decide_names; rewrite text_reads by done; reflexivity).
  next_field ltac:(unfold set_Provenance; decide_names; rewrite text_reads by done; reflexivity).
  next_field ltac:(unfold set_Provenance; decide_names; rewrite (proj1 (time_reads _ _ _ H3 Hs)); reflexivity).
  reflexivity.
Qed.

Lemma type_members (a b : json) : merge_sort key_le (field "namespace" a ++ field "name" b) = [(str_bytes "name", b); (str_bytes "namespace", a)].
Proof. apply capability_members. Qed.

Definition ClaimType_json (t : Claim.ClaimType) : json :=
  JObj (field "namespace" (jstr (Claim.TNamespace t)) ++ field "name" (jstr (Claim.TName t))).

Lemma type_reads t old : text (Claim.TNamespace t) → text (Claim.TName t) → struct_value set_ClaimType old (raw_of (ClaimType_json t)) = Some t.
Proof.
  intros Hs Hn. unfold ClaimType_json. in_order (type_members (jstr (Claim.TNamespace t)) (jstr (Claim.TName t))).
  next_field ltac:(unfold set_ClaimType; decide_names; rewrite text_reads by done; reflexivity).
  next_field ltac:(unfold set_ClaimType; decide_names; rewrite text_reads by done; reflexivity).
  by destruct t.
Qed.

Lemma type_numbers n t : 1 ≤ n → canonical_numbers n (ClaimType_json t).
Proof. intros Hn. by apply numbers_members. Qed.

(** A JSON value in its canonical form, nested at most [n] deep. *)
Definition settled (n : Z) (v : json) : Prop := canonical_numbers n v ∧ well_keyed v.

Lemma interface_reads n v : settled n v → v ≠ JNull → interface_value (raw_of v) = Some (Some v).
Proof.
  intros [Hn Hk] Hv. pose proof (any_value_raw_of v n Hn Hk) as Ha. unfold interface_value. destruct v; try done; by rewrite Ha.
Qed.

Record claim_legible (c : Claim.Claim) : Prop := {
  legible_texts : text (Claim.Issuer c) ∧ text (Claim.CSubject c) ∧ text (Claim.TNamespace (Claim.Type_ c)) ∧ text (Claim.TName (Claim.Type_ c));
  legible_value : ∀ v, Claim.Value c = Some v → settled (Json.maxNestingDepth - 1) v ∧ v ≠ JNull;
  legible_scope : scope_legible (Claim.CScope c);
  legible_validity : validity_legible (Claim.CValidity c);
  legible_provenance : provenance_legible (Claim.CProvenance c)
}.

Lemma claim_members (a b c d e f g : json) : merge_sort key_le
  (field "issuer" a ++ field "subject" b ++ field "type" c ++ field "value" d ++ field "scope" e ++ field "validity" f ++ field "provenance" g) =
  [(str_bytes "issuer", a); (str_bytes "provenance", g); (str_bytes "scope", e); (str_bytes "subject", b); (str_bytes "type", c);
   (str_bytes "validity", f); (str_bytes "value", d)].
Proof. vm_compute. reflexivity. Qed.

Lemma claim_reads c t : claim_legible c → to_json c = Ok t →
  struct_value set_Claim zero_claim (raw_of t) = Some c ∧ canonical_numbers Json.maxNestingDepth t.
Proof.
  intros [(H1 & H2 & H3 & H4) Hv Hs Hw Hp] (s & Es & (w & Ew & (p & Ep & Ht)%bind_Ok)%bind_Ok)%bind_Ok. apply (inj Ok) in Ht. subst t.
  destruct (scope_reads _ _ Hs Es) as [Rs Ns], (validity_reads _ _ zero_validity Hw Ew) as [Rw Nw], (provenance_reads _ _ zero_provenance Hp Ep) as [Rp Np].
  destruct c as [iss su ty va sc vl pr]. cbn [Claim.Issuer Claim.CSubject Claim.Type_ Claim.Value Claim.CScope Claim.CValidity Claim.CProvenance] in *.
  fold (ClaimType_json ty). split.
  - in_order (claim_members (jstr iss) (jstr su) (ClaimType_json ty) (default JNull va) s w p). unfold zero_claim.
    next_field ltac:(unfold set_Claim; decide_names; rewrite text_reads by done; reflexivity).
    next_field ltac:(unfold set_Claim; decide_names; rewrite Rp; reflexivity).
    next_field ltac:(unfold set_Claim; decide_names; rewrite Rs; reflexivity).
    next_field ltac:(unfold set_Claim; decide_names; rewrite text_reads by done; reflexivity).
    next_field ltac:(unfold set_Claim; decide_names; rewrite type_reads by done; reflexivity).
    next_field ltac:(unfold set_Claim; decide_names; rewrite Rw; reflexivity).
    assert (interface_value (raw_of (default JNull va)) = Some va) as Hva.
    { destruct va as [v|]; [|done]. destruct (Hv v eq_refl) as [Hset Hnn]. by eapply interface_reads. }
    next_field ltac:(unfold set_Claim; decide_names; rewrite Hva; reflexivity). reflexivity.
  - apply numbers_members; [done|]. unfold field. cbn [app foldr snd]. 
    assert (canonical_numbers (Json.maxNestingDepth - 1) (default JNull va)) as Nv by (destruct va as [v|]; [apply (Hv v eq_refl)|done]).
    do 2 (split; [done|]). split; [by apply type_numbers|]. split; [exact Nv|]. split; [by apply Ns|]. split; [by apply Nw|]. split; [by apply Np|done].
Qed.

Record evidence_legible (e : Evidence.Evidence) : Prop := {
  legible_names : text (Evidence.Identifier e) ∧ text (Evidence.MediaType e) ∧ text (Evidence.Locator e);
  legible_source : provenance_legible (Evidence.EProvenance e);
  legible_metadata : settled (Json.maxNestingDepth - 1) (JObj (Evidence.Metadata e))
}.

Lemma evidence_members (a b c d e : json) (m : option json) : merge_sort key_le
  (field "identifier" a ++ field "contentHash" b ++ field "mediaType" c ++ field "locator" d ++ field "provenance" e ++ block "metadata" m) =
  (str_bytes "contentHash", b) :: (str_bytes "identifier", a) :: (str_bytes "locator", d) :: (str_bytes "mediaType", c) ::
  block "metadata" m ++ [(str_bytes "provenance", e)].
Proof. destruct m; vm_compute; reflexivity. Qed.

Definition metadata_block (m : list (bytes * json)) : option json := match m with [] => None | _ => Some (JObj m) end.

Lemma metadata_reads m n : settled n (JObj m) → map_value [] (raw_of (JObj m)) = Some m.
Proof.
  intros [[_ Hn%foldr_Forall] (Hnd & Hs & Hk%foldr_Forall)]. rewrite raw_of_obj, Hs. cbn [map_value]. clear Hs.
  assert (∀ acc, NoDup (acc ++ m).*1 → decode_members (λ acc k v, w ← any_value v; Some (Json.map_set (Json.unquote k) w acc)) acc
    (prod_map escape raw_of <$> m) = Some (acc ++ m)) as Hgen; [|by apply (Hgen [])].
  clear Hnd. induction m as [|[k v] m IH]; intros acc Hnd; [by rewrite app_nil_r|]. apply Forall_cons in Hn as [Hvn Hn], Hk as [[Hkk Hvk] Hk].
  cbn [fmap list_fmap prod_map decode_members fst snd] in *. rewrite (any_value_raw_of v _ Hvn Hvk). cbn [mbind option_bind].
  rewrite unquote_escape by done. rewrite map_set_fresh.
  - rewrite (IH Hn Hk (acc ++ [(k, v)])) by by rewrite <- app_assoc. by rewrite <- app_assoc.
  - rewrite fmap_app in Hnd. apply NoDup_app in Hnd as (_ & Hd & _). intros Hin. apply (Hd k Hin). by left.
Qed.

Lemma evidence_reads e t : evidence_legible e → to_json e = Ok t →
  struct_value set_Evidence zero_evidence (raw_of t) = Some e ∧ canonical_numbers Json.maxNestingDepth t.
Proof.
  intros [(H1 & H2 & H3) Hp Hm] (p & Ep & Ht)%bind_Ok. apply (inj Ok) in Ht. subst t.
  destruct (provenance_reads _ _ zero_provenance Hp Ep) as [Rp Np]. destruct e as [id ch mt lo pr me].
  cbn [Evidence.Identifier Evidence.ContentHash Evidence.MediaType Evidence.Locator Evidence.EProvenance Evidence.Metadata] in *.
  assert ((match me with [] => [] | x :: l => field "metadata" (JObj (x :: l)) end) = block "metadata" (metadata_block me)) as -> by by destruct me.
  set (hash := match ch with None => JNull | Some b => JStr (base64 b) end).
  assert (∀ v, metadata_block me = Some v → canonical_numbers (Json.maxNestingDepth - 1) v) as Hnm by (intros v; destruct me; [done|]; intros [= <-]; apply Hm).
  assert (∀ old, bytes_value old (raw_of hash) = Some ch) as Hch by (intros old; apply bytes_reads). split.
  - in_order (evidence_members (jstr id) hash (jstr mt) (jstr lo) p (metadata_block me)). unfold zero_evidence.
    next_field ltac:(unfold set_Evidence; decide_names; rewrite Hch; reflexivity).
    next_field ltac:(unfold set_Evidence; decide_names; rewrite text_reads by done; reflexivity).
    next_field ltac:(unfold set_Evidence; decide_names; rewrite text_reads by done; reflexivity).
    next_field ltac:(unfold set_Evidence; decide_names; rewrite text_reads by done; reflexivity).
    rewrite (block_text set_Evidence _ _ (Evidence.MkEvidence id ch mt lo zero_provenance me)); [|vm_compute; reflexivity|].
    2: { destruct me as [|x me]; [done|]. cbn [metadata_block]. unfold set_Evidence. decide_names. by rewrite (metadata_reads _ _ Hm). }
    next_field ltac:(unfold set_Evidence; decide_names; rewrite Rp; reflexivity). reflexivity.
  - apply numbers_members; [done|]. unfold field. cbn [app foldr snd]. split; [done|]. split; [by destruct ch|]. do 2 (split; [done|]). split; [by apply Np|].
    destruct (metadata_block me) as [v|] eqn:Eb; [|done]. cbn. split; [by apply Hnm|done].
Qed.

End Reading.

Section Proofs.
Context `{H : Hasher, L : Canonical.CborLib, C : EatCbor, A : Arch}.

(** ** What is accepted *)

(** What a token says about itself: the claim map in its envelope, and its signature. *)
Definition envelope (token : bytes) (claims : gmap Z CborValue) (sig : bytes) : Prop :=
  ∃ p0 p1 p2 p3 payload, cbor_items token = Some [p0; p1; p2; p3] ∧ cbor_bytes p2 = Some payload ∧ cbor_bytes p3 = Some sig ∧
    payload ≠ [] ∧ cbor_claims payload = Some (Some claims).

Lemma parseCOSESign1_iff token claims sig : parseCOSESign1 token = Ok (claims, sig) ↔ envelope token claims sig.
Proof.
  unfold parseCOSESign1, envelope.
  destruct (cbor_items token) as [[|p0 [|p1 [|p2 [|p3 [|]]]]]|]; try (split; [done|by intros (?&?&?&?&?&?&?)]).
  split.
  - destruct (cbor_bytes p2) as [payload|] eqn:E2; [|done]. destruct (cbor_bytes p3) as [sg|] eqn:E3; [|done].
    destruct (Z.eqb_spec (zlen payload) 0) as [E|E]; [done|].
    destruct (cbor_claims payload) as [[cl|]|] eqn:Ec; [|done..]. intros [= <- <-].
    exists p0, p1, p2, p3, payload. split_and!; try done. by intros ->.
  - intros (q0 & q1 & q2 & q3 & payload & [= <- <- <- <-] & -> & -> & Hp & ->).
    destruct (Z.eqb_spec (zlen payload) 0) as [E|E]; [|done]. by destruct payload.
Qed.

(** The claims an attestation is rebuilt from: the fields of [attFromClaims]. *)
Lemma attFromClaims_Ok claims a : attFromClaims claims = Ok a →
  claims !! ClaimIssuer = Some (VText (AIssuer a)) ∧ AIssuer a ≠ ""%string ∧ ASignature a = [] ∧
  (AAlgorithm a = 0 ∨ registered (AAlgorithm a)) ∧ (AStatus a = 0 ∨ known_status (AStatus a) = true) ∧
  AEvidence a ≠ Some [] ∧ is_u64 (SigningKeyVersion a) ∧
  (∀ t, t = IssuedAt a ∨ t = NotBefore (AValidity a) ∨ t = NotAfter (AValidity a) → nsec t = 0 ∧ off t = 0).
Proof.
  unfold attFromClaims. destruct (is_empty (text_claim claims ClaimIssuer)) eqn:Hi; [done|]. case_bool_decide; [done|].
  intros (na & Hna & (nb & Hnb & (ia & Hia & (ver & Hver & (alg & Halg & (st & Hst & (cap & Hcap & (cl & Hcl & (ev & Hev & E)
    %bind_Ok)%bind_Ok)%bind_Ok)%bind_Ok)%bind_Ok)%bind_Ok)%bind_Ok)%bind_Ok)%bind_Ok.
  injection E as <-. cbn [AIssuer ASignature AAlgorithm AStatus AEvidence SigningKeyVersion IssuedAt AValidity NotBefore NotAfter].
  unfold is_empty in Hi. apply String.eqb_neq in Hi.
  assert (∀ label t, unixClaim claims label = Ok t → nsec t = 0 ∧ off t = 0) as Ht.
  { intros label t. unfold unixClaim. destruct (claims !! label); [|by intros [= <-]]. by intros (n & _ & [= <-])%bind_Ok. }
  split_and!; try done.
  - unfold text_claim in *. destruct (claims !! ClaimIssuer) as [[]|]; done.
  - unfold int_claim in Halg. destruct (claims !! labelAlgorithm); [|injection Halg as <-; by left].
    apply bind_Ok in Halg as (n & _ & Halg). destruct (Signature.AlgorithmForCOSE n) as [a|] eqn:Ea; [|done]. injection Halg as <-.
    right. unfold Signature.AlgorithmForCOSE in Ea. apply find_entry_some in Ea as [Ha _].
    change (zlen (tail Signature.algorithmTable)) with 10 in Ha. unfold registered. lia.
  - unfold int_claim in Hst. destruct (claims !! labelStatus); [|injection Hst as <-; by left].
    apply bind_Ok in Hst as (n & _ & [= <-]). unfold statusFromInt64. destruct (known_status n) eqn:E; [by right|by left].
  - unfold evidenceClaim in Hev. destruct (claims !! labelEvidence) as [[]|]; try done; [|by injection Hev as <-].
    destruct l as [|x l]; [by injection Hev as <-|]. apply bind_Ok in Hev as (es & Hes & [= <-]).
    apply each_Forall2 in Hes. inversion Hes. done.
  - unfold int_claim in Hver. destruct (claims !! labelSigningKeyVersion); [|by injection Hver as <-].
    apply bind_Ok in Hver as (n & _ & [= <-]). unfold is_u64, u64. apply Z.mod_pos_bound. lia.
  - intros t [->|[->| ->]]; by eapply Ht.
Qed.

(** C34.  An accepted token names its attestation: its "cti" is the hexadecimal canonical hash
    of what is returned, whose signature is the slot of the envelope, whose algorithm and
    status are known or zero and whose times are whole seconds of UTC. *)
Theorem UnmarshalEAT_sound token a : UnmarshalEAT token = Ok a →
  ∃ claims sig h, envelope token claims sig ∧ ASignature a = sig ∧ CanonicalHash (Some a) = Ok h ∧
    claims !! ClaimCWTID = Some (VText (hex_encode (arr h))) ∧ claims !! ClaimIssuer = Some (VText (AIssuer a)) ∧
    AIssuer a ≠ ""%string ∧ (AAlgorithm a = 0 ∨ registered (AAlgorithm a)) ∧ (AStatus a = 0 ∨ known_status (AStatus a) = true) ∧
    AEvidence a ≠ Some [] ∧
    (∀ t, t = IssuedAt a ∨ t = NotBefore (AValidity a) ∨ t = NotAfter (AValidity a) → nsec t = 0 ∧ off t = 0).
Proof.
  unfold UnmarshalEAT. intros ([claims sig] & Hp%parseCOSESign1_iff & (b & Hb & (h & Hh%wrap_err_Ok & Hr)%bind_Ok)%bind_Ok)%bind_Ok.
  destruct (String.eqb_spec (text_claim claims ClaimCWTID) (hex_encode (arr h))) as [Ec|]; [|done]. injection Hr as <-.
  apply attFromClaims_Ok in Hb as (H1 & H2 & _ & H4 & H5 & H6 & _ & H8). exists claims, sig, h. split_and!; try done.
  unfold text_claim in Ec. assert (hex_encode (arr h) ≠ ""%string) as Hne.
  { intros E. pose proof (hex_decode_encode (arr h)) as Hd. rewrite E in Hd. apply (inj Some) in Hd.
    pose proof (arr_length h) as Hl. by rewrite <- Hd in Hl. }
  destruct (claims !! ClaimCWTID) as [[]|]; cbn in Ec; congruence.
Qed.

(** ** What comes back *)

Section Roundtrip.
Context {LW : EatCborLaws}.

(** Times travel as whole seconds of UTC, and no evidence is the nil slice. *)
Definition whole (t : Time) : Time := MkTime (sec t) 0 0.
Definition rebuilt (a : Attestation) : Attestation :=
  {| AIssuer := AIssuer a; SigningKeyID := SigningKeyID a; SigningKeyVersion := SigningKeyVersion a; AuthorityRef := AuthorityRef a;
     ACapability := ACapability a; AClaim := AClaim a;
     AEvidence := match AEvidence a with Some [] => None | e => e end;
     IssuedAt := whole (IssuedAt a); AValidity := MkValidity (whole (NotBefore (AValidity a))) (whole (NotAfter (AValidity a)));
     AStatus := AStatus a; AAlgorithm := AAlgorithm a; ASignature := ASignature a |}.

Definition time_ok (t : Time) : Prop := is_int (sec t) ∧ is_int (Unix t).

(** Values of their Go types, texts of UTF-8, and no more evidence than a CBOR decoder takes. *)
Record typed (a : Attestation) : Prop := {
  enc_texts : text (AIssuer a) ∧ text (AuthorityRef a) ∧ text (SigningKeyID a);
  enc_version : is_u64 (SigningKeyVersion a);
  enc_integer_status : is_int (AStatus a);
  enc_evidence : zlen (elems (AEvidence a)) ≤ 131072;
  enc_times : time_ok (IssuedAt a) ∧ time_ok (NotBefore (AValidity a)) ∧ time_ok (NotAfter (AValidity a))
}.

(** Those with an issuer, a status and an algorithm that the decoder takes. *)
Record encodable (a : Attestation) : Prop := {
  enc_typed : typed a;
  enc_issuer : AIssuer a ≠ ""%string;
  enc_algorithm : registered (AAlgorithm a);
  enc_status : AStatus a = 0 ∨ known_status (AStatus a) = true
}.

(** The embedded JSON decodes to what was encoded. *)
Definition reads_back {T} (set : T → bytes → any → option T) (zero x : T) (tree : outcome Canonical.error Canonical.json) : Prop :=
  ∀ b, canonicalJSON tree = Ok b → unmarshal set zero b = Some x.

Definition readable (a : Attestation) : Prop :=
  reads_back set_Capability zero_capability (ACapability a) (Ok (Capability_json (ACapability a))) ∧
  reads_back set_Claim zero_claim (AClaim a) (Canonical.to_json (AClaim a)) ∧
  Forall (λ e, reads_back set_Evidence zero_evidence e (Canonical.to_json e)) (elems (AEvidence a)).

(** It does when capability, claim and evidence are legible: their strings are UTF-8, their
    times have offsets of whole minutes, their numbers and JSON values are in canonical
    form. *)
Record legible (a : Attestation) : Prop := {
  legible_capability : capability_legible (ACapability a);
  legible_claim : claim_legible (AClaim a);
  legible_evidence : Forall evidence_legible (elems (AEvidence a))
}.

Lemma reads_back_tree {T} (set : T → bytes → any → option T) zero x tree :
  (∀ t, tree = Ok t → struct_value set zero (raw_of t) = Some x ∧ canonical_numbers Json.maxNestingDepth t) → reads_back set zero x tree.
Proof.
  intros Ht b (t & -> & Hb)%wrap_err_Ok%bind_Ok. destruct (Ht t eq_refl) as [Hx Hn].
  destruct (raw_document_canonical t Hn) as (b' & Hb' & Hr). assert (b' = b) as -> by congruence. unfold unmarshal. by rewrite Hr.
Qed.

Lemma legible_readable a : legible a → readable a.
Proof.
  intros [Hc Hcl Hev]. split; [|split].
  - apply reads_back_tree. intros t Ht. apply (inj Ok) in Ht. subst t. destruct (capability_reads _ Hc) as [Hr Hn]. split; [done|by apply Hn].
  - apply reads_back_tree. intros t. by apply claim_reads.
  - eapply Forall_impl; [exact Hev|]. intros e He. apply reads_back_tree. intros t. by apply evidence_reads.
Qed.

(** ** The claim map *)

Lemma COSE_range a : registered a → is_int (Signature.COSE a) ∧ Signature.AlgorithmForCOSE (Signature.COSE a) = Some a.
Proof. intros Ha%registered_cases. repeat destruct Ha as [->|Ha]; [by vm_compute..|]. subst. by vm_compute. Qed.

Lemma toInt64_any z : is_int z → toInt64 (any_of (CInt z)) = Ok z.
Proof. intros Hz. cbn. destruct (Z.ltb_spec z 0); cbn; [done|]. by rewrite i64_small. Qed.

Lemma u64_i64 z : is_u64 z → u64 (i64 z) = z.
Proof. unfold is_u64, u64, i64. intros Hz. rewrite Zminus_mod, Zmod_mod, <- Zminus_mod. rewrite Z.mod_small; lia. Qed.

Lemma status_range s : s = 0 ∨ known_status s = true → is_int s ∧ statusFromInt64 s = s.
Proof.
  unfold is_int, statusFromInt64, known_status, StatusActive, StatusRevoked, StatusSuperseded, StatusExpired. intros [->|Hs].
  - split; [lia|done].
  - rewrite Hs. rewrite !orb_true_iff, !Z.eqb_eq in Hs. lia.
Qed.

Lemma unix_utc_Unix t : time_ok t → unix_utc (Unix t) = whole t.
Proof. intros [Hs _]. unfold unix_utc, Unix, whole. rewrite i64_small; [f_equal; lia|]. by replace (sec t - unix_epoch + unix_epoch) with (sec t) by lia. Qed.

(** The claims of [eatClaims], from their parts. *)
Definition claim_map (a : Attestation) (cti : string) (cap cl : bytes) (ev : list bytes) : list (Z * CborItem) :=
  [(ClaimIssuer, CText (AIssuer a)); (ClaimExpiry, CInt (Unix (NotAfter (AValidity a))));
   (ClaimNotBefore, CInt (Unix (NotBefore (AValidity a)))); (ClaimIssuedAt, CInt (Unix (IssuedAt a)));
   (ClaimCWTID, CText cti); (labelAuthorityRef, CText (AuthorityRef a)); (labelCapability, CBytes cap); (labelClaim, CBytes cl);
   (labelEvidence, CArray (CBytes <$> ev)); (labelSigningKeyID, CText (SigningKeyID a));
   (labelSigningKeyVersion, CInt (i64 (SigningKeyVersion a))); (labelAlgorithm, CInt (Signature.COSE (AAlgorithm a)));
   (labelStatus, CInt (AStatus a))].

Lemma eatClaims_Ok a m : eatClaims a = Ok m ↔ ∃ h cap cl ev, CanonicalHash (Some a) = Ok h ∧
  canonicalJSON (Ok (Capability_json (ACapability a))) = Ok cap ∧ canonicalJSON (Canonical.to_json (AClaim a)) = Ok cl ∧
  Forall2 (λ e b, canonicalJSON (Canonical.to_json e) = Ok b) (elems (AEvidence a)) ev ∧
  m = claim_map a (hex_encode (arr h)) cap cl ev.
Proof.
  unfold eatClaims. split.
  - intros (h & Hh%wrap_err_Ok & (cap & Hcap & (cl & Hcl & (ev & Hev%each_Forall2 & [= <-])%bind_Ok)%bind_Ok)%bind_Ok)%bind_Ok.
    by exists h, cap, cl, ev.
  - intros (h & cap & cl & ev & Hh & Hcap & Hcl & Hev & ->). rewrite Hh. cbn [wrap_err mbind outcome_bind]. rewrite Hcap.
    cbn [mbind outcome_bind]. rewrite Hcl. cbn [mbind outcome_bind]. by rewrite (proj2 (each_Forall2 _ 0 _ _) Hev).
Qed.

(** An algorithm that is not registered is encoded as zero, which names none. *)
Lemma COSE_int a : is_int (Signature.COSE a) ∧ (¬ registered a → Signature.AlgorithmForCOSE (Signature.COSE a) = None).
Proof.
  destruct (decide (registered a)) as [Ha|Ha]; [split; [by apply COSE_range|done]|].
  assert (Signature.COSE a = 0) as ->; [|split; [done|by intros _]].
  unfold registered in Ha. unfold Signature.COSE. change (zlen Signature.algorithmTable) with 11.
  destruct (Z.ltb_spec a 0), (Z.leb_spec 11 a); try done. by assert (a = 0) as -> by lia.
Qed.

Lemma claim_map_ok a cti cap cl ev : typed a → valid_text (str_bytes cti) → length ev = length (elems (AEvidence a)) →
  Forall (λ kv, - 2 ^ 63 ≤ kv.1 < 2 ^ 63 ∧ claim_value kv.2) (claim_map a cti cap cl ev) ∧ NoDup (claim_map a cti cap cl ev).*1 ∧
  zlen (claim_map a cti cap cl ev) ≤ 131072.
Proof.
  intros [(Ht1 & Ht2 & Ht3) Hv Hst He ((_ & H1) & (_ & H2) & (_ & H3))] Hc Hl.
  pose proof (proj1 (COSE_int (AAlgorithm a))) as Hco. pose proof (i64_range (SigningKeyVersion a)).
  split; [|split; [apply (bool_decide_unpack _); vm_compute; exact I|done]].
  unfold claim_map. repeat (apply Forall_cons; split); [..|by apply Forall_nil]; cbn [fst snd];
    (split; [apply (bool_decide_unpack _); vm_compute; exact I|]); cbn [claim_value scalar]; try assumption; try exact I.
  rewrite length_fmap. split; [lia|]. apply Forall_fmap, Forall_true. intros x. exact I.
Qed.

Ltac in_claims := unfold claim_map; repeat first [apply list_elem_of_here|apply list_elem_of_further].

Lemma claim_lookup (m : list (Z * CborItem)) k v : NoDup m.*1 → (k, v) ∈ m →
  (any_of <$> (list_to_map m : gmap Z CborItem)) !! k = Some (any_of v).
Proof. intros Hnd Hin. rewrite lookup_fmap, (elem_of_list_to_map_1 m k v Hnd Hin). done. Qed.

Lemma int_claim_lookup {T} claims label z (zero : T) f : claims !! label = Some (any_of (CInt z)) → is_int z →
  int_claim claims label zero f = f z.
Proof. intros Hl Hz. unfold int_claim. rewrite Hl, toInt64_any by done. done. Qed.

Lemma unixClaim_lookup claims label t : claims !! label = Some (any_of (CInt (Unix t))) → time_ok t →
  unixClaim claims label = Ok (whole t).
Proof.
  intros Hl Ht. unfold unixClaim. rewrite Hl, toInt64_any by apply Ht. cbn [mbind outcome_bind]. by rewrite unix_utc_Unix.
Qed.

Lemma evidence_items es bs : Forall2 (λ e b, canonicalJSON (Canonical.to_json e) = Ok b) es bs →
  Forall (λ e, reads_back set_Evidence zero_evidence e (Canonical.to_json e)) es →
  each (λ _, evidence_item) 0 (VBytes <$> bs) = Ok es.
Proof.
  intros HF HR. apply each_Forall2, Forall2_fmap_l. induction HF as [|e b es bs Hb HF IH]; [constructor|].
  apply Forall_cons in HR as [He HR]. constructor; [|by apply IH]. change (evidence_item (VBytes b) = Ok e). unfold evidence_item. by rewrite (He b Hb).
Qed.

(** The decoder of the claims inverts the encoder, up to what the claims cannot carry. *)
Lemma attFromClaims_map a cti cap cl ev : encodable a → readable a →
  canonicalJSON (Ok (Capability_json (ACapability a))) = Ok cap → canonicalJSON (Canonical.to_json (AClaim a)) = Ok cl →
  Forall2 (λ e b, canonicalJSON (Canonical.to_json e) = Ok b) (elems (AEvidence a)) ev → valid_text (str_bytes cti) →
  let claims := any_of <$> (list_to_map (claim_map a cti cap cl ev) : gmap Z CborItem) in
  attFromClaims claims = Ok (with_signature (rebuilt a) []) ∧ claims !! ClaimCWTID = Some (VText cti).
Proof.
  intros He (Rcap & Rcl & Rev) Hcap Hcl Hev Hcti. cbv zeta.
  destruct (claim_map_ok a cti cap cl ev (enc_typed a He) Hcti) as (_ & Hnd & _); [by symmetry; eapply Forall2_length|].
  pose proof (λ k v, claim_lookup (claim_map a cti cap cl ev) k v Hnd) as HL.
  set (claims := any_of <$> (list_to_map (claim_map a cti cap cl ev) : gmap Z CborItem)) in *. clearbody claims.
  destruct He as [[_ Hv _ _ (T1 & T2 & T3)] Hi Ha Hs]. destruct (COSE_range _ Ha) as [Hco Hfor]. destruct (status_range _ Hs) as [Hst Hsf].
  assert (∀ k v, (k, v) ∈ claim_map a cti cap cl ev → claims !! k = Some (any_of v)) as HL' by exact HL. clear HL.
  assert (claims !! ClaimIssuer = Some (VText (AIssuer a))) as L1 by (apply (HL' _ (CText _)); in_claims).
  assert (claims !! ClaimCWTID = Some (VText cti)) as L2 by (apply (HL' _ (CText _)); in_claims).
  assert (claims !! labelAuthorityRef = Some (VText (AuthorityRef a))) as L3 by (apply (HL' _ (CText _)); in_claims).
  assert (claims !! labelSigningKeyID = Some (VText (SigningKeyID a))) as L4 by (apply (HL' _ (CText _)); in_claims).
  assert (claims !! labelCapability = Some (VBytes cap)) as L5 by (apply (HL' _ (CBytes _)); in_claims).
  assert (claims !! labelClaim = Some (VBytes cl)) as L6 by (apply (HL' _ (CBytes _)); in_claims).
  assert (claims !! labelEvidence = Some (VArray (VBytes <$> ev))) as L7.
  { rewrite (HL' _ (CArray (CBytes <$> ev))) by (in_claims). cbn [any_of]. by rewrite <- list_fmap_compose. }
  split; [|done]. unfold attFromClaims, text_claim. rewrite L1, L3, L4. unfold is_empty at 1.
  rewrite (proj2 (String.eqb_neq _ _) Hi), bool_decide_eq_false_2 by by rewrite L2.
  rewrite (unixClaim_lookup claims ClaimExpiry (NotAfter (AValidity a))) by (done || apply HL'; in_claims). cbn [mbind outcome_bind].
  rewrite (unixClaim_lookup claims ClaimNotBefore (NotBefore (AValidity a))) by (done || apply HL'; in_claims). cbn [mbind outcome_bind].
  rewrite (unixClaim_lookup claims ClaimIssuedAt (IssuedAt a)) by (done || apply HL'; in_claims). cbn [mbind outcome_bind].
  rewrite (int_claim_lookup claims labelSigningKeyVersion (i64 (SigningKeyVersion a))) by (apply i64_range || apply HL'; in_claims).
  cbn [mbind outcome_bind]. rewrite u64_i64 by done.
  rewrite (int_claim_lookup claims labelAlgorithm (Signature.COSE (AAlgorithm a))) by (done || apply HL'; in_claims).
  rewrite Hfor. cbn [mbind outcome_bind].
  rewrite (int_claim_lookup claims labelStatus (AStatus a)) by (done || apply HL'; in_claims).
  cbn [mbind outcome_bind]. rewrite Hsf.
  unfold jsonClaim. rewrite L5, (Rcap cap Hcap). cbn [mbind outcome_bind]. rewrite L6, (Rcl cl Hcl). cbn [mbind outcome_bind].
  unfold evidenceClaim. rewrite L7. pose proof (evidence_items _ _ Hev Rev) as Hit.
  assert (match VBytes <$> ev with [] => Ok None | items => l ← each (λ _, evidence_item) 0 items; Ok (Some l) end =
    @Ok error _ (match AEvidence a with Some [] => None | e => e end)) as E.
  { destruct (AEvidence a) as [[|e es]|]; cbn [elems default from_option id] in *; inversion Hev; subst; try done.
    rewrite fmap_cons in *. rewrite Hit. done. }
  replace (match VBytes <$> ev with [] => _ | _ => _ end) with (@Ok error _ (match AEvidence a with Some [] => None | e => e end))
    by (rewrite <- E; by destruct ev).
  cbn [mbind outcome_bind]. reflexivity.
Qed.

(** It refuses the claims of an attestation that names no issuer or no algorithm. *)
Lemma attFromClaims_refuses a cti cap cl ev : typed a → valid_text (str_bytes cti) → length ev = length (elems (AEvidence a)) →
  AIssuer a = ""%string ∨ ¬ registered (AAlgorithm a) →
  attFromClaims (any_of <$> (list_to_map (claim_map a cti cap cl ev) : gmap Z CborItem)) = Err ErrInvalidClaims.
Proof.
  intros He Hcti Hlen Hbad. destruct (claim_map_ok a cti cap cl ev He Hcti Hlen) as (_ & Hnd & _).
  pose proof (λ k v, claim_lookup (claim_map a cti cap cl ev) k v Hnd) as HL.
  set (claims := any_of <$> (list_to_map (claim_map a cti cap cl ev) : gmap Z CborItem)) in *. clearbody claims.
  destruct He as [_ Hv _ _ (T1 & T2 & T3)]. destruct (COSE_int (AAlgorithm a)) as [Hco Hno].
  assert (∀ k v, (k, v) ∈ claim_map a cti cap cl ev → claims !! k = Some (any_of v)) as HL' by exact HL. clear HL.
  assert (claims !! ClaimIssuer = Some (VText (AIssuer a))) as L1 by (apply (HL' _ (CText _)); in_claims).
  assert (claims !! ClaimCWTID = Some (VText cti)) as L2 by (apply (HL' _ (CText _)); in_claims).
  unfold attFromClaims, text_claim. rewrite L1. destruct (is_empty (AIssuer a)) eqn:Hi; [done|].
  assert (¬ registered (AAlgorithm a)) as Ha by (destruct Hbad as [E|]; [by rewrite E in Hi|done]).
  rewrite bool_decide_eq_false_2 by by rewrite L2.
  rewrite (unixClaim_lookup claims ClaimExpiry (NotAfter (AValidity a))) by (done || apply HL'; in_claims). cbn [mbind outcome_bind].
  rewrite (unixClaim_lookup claims ClaimNotBefore (NotBefore (AValidity a))) by (done || apply HL'; in_claims). cbn [mbind outcome_bind].
  rewrite (unixClaim_lookup claims ClaimIssuedAt (IssuedAt a)) by (done || apply HL'; in_claims). cbn [mbind outcome_bind].
  rewrite (int_claim_lookup claims labelSigningKeyVersion (i64 (SigningKeyVersion a))) by (apply i64_range || apply HL'; in_claims).
  cbn [mbind outcome_bind].
  rewrite (int_claim_lookup claims labelAlgorithm (Signature.COSE (AAlgorithm a))) by (done || apply HL'; in_claims).
  by rewrite (Hno Ha).
Qed.

(** ** The token *)

Lemma CanonicalHash_signature a sig : CanonicalHash (Some (with_signature a sig)) = CanonicalHash (Some a).
Proof. reflexivity. Qed.

(** What the token of an attestation says. *)
Lemma MarshalEAT_claims a token : typed a → MarshalEAT (Some a) = Ok token →
  ∃ h cap cl ev, CanonicalHash (Some a) = Ok h ∧
    canonicalJSON (Ok (Capability_json (ACapability a))) = Ok cap ∧ canonicalJSON (Canonical.to_json (AClaim a)) = Ok cl ∧
    Forall2 (λ e b, canonicalJSON (Canonical.to_json e) = Ok b) (elems (AEvidence a)) ev ∧
    envelope token (any_of <$> list_to_map (claim_map a (hex_encode (arr h)) cap cl ev)) (ASignature a).
Proof.
  intros He (m & (h & cap & cl & ev & Hh & Hcap & Hcl & Hev & ->)%eatClaims_Ok & Hm)%bind_Ok.
  destruct (claim_map_ok a (hex_encode (arr h)) cap cl ev He (hex_ascii _)) as (Hok & Hnd & Hlen); [by symmetry; eapply Forall2_length|].
  unfold marshalCOSESign1, canonicalCBOR in Hm. apply bind_Ok in Hm as (pb & _ & (pl & Hpl & Ht)%bind_Ok).
  destruct (cbor_encode (CMap (claim_map _ _ _ _ _))) as [b|] eqn:Eb; [|done]. injection Hpl as <-.
  destruct (cbor_encode (CArray _)) as [t|] eqn:Et; [|done]. injection Ht as <-.
  destruct (cbor_reads_map _ _ Hok Hnd Hlen Eb) as [Hne Hcl'].
  destruct (cbor_reads_sign1 _ _ _ _ Et) as (p0 & p1 & p2 & p3 & Hit & H2 & H3).
  exists h, cap, cl, ev. do 4 (split; [done|]). by exists p0, p1, p2, p3, b.
Qed.

Lemma MarshalEAT_envelope a token : encodable a → readable a → MarshalEAT (Some a) = Ok token →
  ∃ h claims, CanonicalHash (Some a) = Ok h ∧ envelope token claims (ASignature a) ∧
    attFromClaims claims = Ok (with_signature (rebuilt a) []) ∧ claims !! ClaimCWTID = Some (VText (hex_encode (arr h))).
Proof.
  intros He HR (h & cap & cl & ev & Hh & Hcap & Hcl & Hev & Henv)%(MarshalEAT_claims _ _ (enc_typed a He)).
  destruct (attFromClaims_map a (hex_encode (arr h)) cap cl ev He HR Hcap Hcl Hev (hex_ascii _)) as [Hatt Hcti]. by eexists h, _.
Qed.

(** An attestation without an issuer, or that was never signed, so that it has no algorithm,
    gets a token that is always refused. *)
Theorem UnmarshalEAT_unsigned a token : typed a → AIssuer a = ""%string ∨ ¬ registered (AAlgorithm a) →
  MarshalEAT (Some a) = Ok token → UnmarshalEAT token = Err ErrInvalidClaims.
Proof.
  intros He Hbad (h & cap & cl & ev & _ & _ & _ & Hev & Henv)%(MarshalEAT_claims _ _ He).
  unfold UnmarshalEAT. rewrite (proj2 (parseCOSESign1_iff _ _ _) Henv). cbn [mbind outcome_bind].
  rewrite attFromClaims_refuses; [done|done|apply hex_ascii|by symmetry; eapply Forall2_length|done].
Qed.

(** Decoding an encoded attestation rebuilds it and compares the hashes. *)
Lemma UnmarshalEAT_spec a token : encodable a → readable a → MarshalEAT (Some a) = Ok token →
  ∃ h, CanonicalHash (Some a) = Ok h ∧
    UnmarshalEAT token = (h' ← wrap_err ErrAttestation (CanonicalHash (Some (rebuilt a)));
      if negb (String.eqb (hex_encode (arr h)) (hex_encode (arr h'))) then Err ErrEATHashMismatch else Ok (rebuilt a)).
Proof.
  intros He HR Hm. destruct (MarshalEAT_envelope a token He HR Hm) as (h & claims & Hh & Henv & Hatt & Hcti). exists h. split; [done|].
  unfold UnmarshalEAT. rewrite (proj2 (parseCOSESign1_iff _ _ _) Henv). cbn [mbind outcome_bind]. rewrite Hatt. cbn [mbind outcome_bind].
  rewrite CanonicalHash_signature. change (with_signature (with_signature (rebuilt a) []) (ASignature a)) with (rebuilt a).
  change (CanonicalHash (Some (with_signature (rebuilt a) []))) with (CanonicalHash (Some (rebuilt a))).
  destruct (wrap_err ErrAttestation (CanonicalHash (Some (rebuilt a)))); [|done..]. cbn [mbind outcome_bind].
  unfold text_claim. by rewrite Hcti.
Qed.

(** C33.  Round trip.  An attestation whose fields are values of their Go types with texts of
    UTF-8, with an issuer, a registered algorithm, a known or zero status and at most 131072
    items of evidence ([encodable]), whose capability, claim and evidence are legible JSON
    ([legible]), whose times are whole seconds of UTC and whose evidence is not an empty
    slice that is not nil ([rebuilt a = a]), comes back from its token as it was, signature
    included. *)
Theorem UnmarshalEAT_MarshalEAT a token : encodable a → legible a → rebuilt a = a →
  MarshalEAT (Some a) = Ok token → UnmarshalEAT token = Ok a.
Proof.
  intros He HR%legible_readable Hreb Hm. destruct (UnmarshalEAT_spec a token He HR Hm) as (h & Hh & ->). rewrite Hreb, Hh.
  cbn [wrap_err mbind outcome_bind]. by rewrite String.eqb_refl.
Qed.

(** The bytes an identity is the hash of. *)
Definition identity_bytes (a : Attestation) : outcome Canonical.error bytes :=
  v ← Canonical.to_json (with_signature a []); Canonical.appendJCS v.

Lemma CanonicalHash_bytes a h : CanonicalHash (Some a) = Ok h ↔ ∃ b, identity_bytes a = Ok b ∧ h = Sum b.
Proof.
  unfold CanonicalHash, identity_bytes. rewrite wrap_err_Ok. unfold Canonical.CanonicalHash. cbn [default Canonical.declared Attestation_declares from_option id].
  rewrite bind_Ok. unfold Canonical.Marshal, Canonical.JSONCanonicalize. naive_solver.
Qed.

(** A member of an object, found again in an object with the same canonical bytes. *)
Lemma same_member m k key v : same (Canonical.JObj m) (Canonical.JObj k) → (key, v) ∈ m →
  ∃ key' v', (key', v') ∈ k ∧ Canonical.runes key = Canonical.runes key' ∧ same v v'.
Proof.
  intros Hs Hin. inversion Hs as [| | | | |? ? m' k' Hm Hk HF]; subst. rewrite Hm in Hin.
  apply list_elem_of_lookup in Hin as [i Hi]. destruct (Forall2_lookup_l _ _ _ _ _ HF Hi) as ([key' v'] & Hi' & Hr & Hv).
  exists key', v'. split; [|done]. rewrite Hk. by eapply list_elem_of_lookup_2.
Qed.

Lemma same_text s t : same (Canonical.JStr s) (Canonical.JStr t) → valid_text s → valid_text t → s = t.
Proof. intros Hs Hvs Hvt. inversion Hs; subst. unfold valid_text in *. rewrite <- Hvs, <- Hvt. unfold Canonical.sanitize. congruence. Qed.

(** The members of the signed form that the refusals look at. *)
Definition attestation_fields (a : Attestation) (c ev t v : Canonical.json) : list (bytes * Canonical.json) :=
  field "issuer" (Canonical.jstr (AIssuer a)) ++ field "signingKeyId" (Canonical.jstr (SigningKeyID a)) ++
  field "signingKeyVersion" (Canonical.jint (SigningKeyVersion a)) ++ field "authorityRef" (Canonical.jstr (AuthorityRef a)) ++
  field "capability" (Capability_json (ACapability a)) ++ field "claim" c ++ field "evidence" ev ++ field "issuedAt" t ++
  field "validity" v ++ field "status" (Canonical.jint (AStatus a)) ++ field "algorithm" (Canonical.jint (AAlgorithm a)).

Definition evidence_json (e : option (list Evidence.Evidence)) : outcome Canonical.error Canonical.json :=
  match e with None => Ok Canonical.JNull | Some l => js ← each (λ _ e, Canonical.to_json e) 0 l; Ok (Canonical.JArr js) end.

Lemma identity_tree a b : identity_bytes a = Ok b → ∃ c ev t v, evidence_json (AEvidence a) = Ok ev ∧ jtime (IssuedAt a) = Ok t ∧
  Canonical.appendJCS (Canonical.JObj (attestation_fields a c ev t v)) = Ok b.
Proof.
  unfold identity_bytes. intros (tree & Ht & Hb)%bind_Ok. unfold Canonical.to_json, Attestation_json in Ht.
  cbn [with_signature AClaim AEvidence IssuedAt AValidity ASignature field_bytes] in Ht.
  apply bind_Ok in Ht as (c & _ & (ev & Hev & (t & Ht & (v & _ & [= <-])%bind_Ok)%bind_Ok)%bind_Ok).
  exists c, ev, t, v. split; [exact Hev|]. split; [done|]. exact Hb.
Qed.

(** A key of these members is found at its own place only. *)
Lemma field_place key v a c ev t w k' v' : key = str_bytes "issuedAt" ∨ key = str_bytes "evidence" →
  (k', v') ∈ attestation_fields a c ev t w → Canonical.runes key = Canonical.runes k' → v = v' →
  (key = str_bytes "issuedAt" ∧ v = t) ∨ (key = str_bytes "evidence" ∧ v = ev).
Proof.
  intros Hkey Hin Hr ->. unfold attestation_fields, field in Hin. cbn [app] in Hin.
  rewrite !elem_of_cons, elem_of_nil in Hin.
  destruct Hkey as [->| ->]; repeat (destruct Hin as [[= -> ->]|Hin]; [first [by left|by right|vm_compute in Hr; discriminate Hr]|]); done.
Qed.

Lemma jtime_text t v : jtime t = Ok v → ∃ b, rfc3339 t = Some b ∧ v = Canonical.JStr b.
Proof. unfold jtime. destruct (rfc3339 t); [|done]. intros [= <-]. by eexists. Qed.

Lemma pad_ascii w n : Forall (λ c, b2z c < 0x80) (pad w n).
Proof.
  eapply Forall_impl; [apply pad_digits|]. intros c Hc. unfold Canonical.is_digit, Canonical.in_range in Hc. lia.
Qed.

Lemma trim_ascii f w n : Forall (λ c, b2z c < 0x80) (trim_zeros f w n).
Proof.
  revert w n. induction f as [|f IH]; intros w n; [constructor|]. destruct w as [|w]; [constructor|]. cbn [trim_zeros].
  destruct (n `mod` 10 =? 0); [apply IH|]. constructor; [done|apply pad_ascii].
Qed.

Lemma rfc3339_valid t b : rfc3339 t = Some b → valid_text b.
Proof.
  unfold rfc3339. destruct (civil _) as [[y m] d]. destruct (_ || _); [done|]. intros E. apply (inj Some) in E. subst b.
  apply valid_ascii.
  repeat (apply Forall_app_2; [try apply pad_ascii; try (by repeat constructor)|]).
  - by apply trim_ascii.
  - destruct (off t =? 0); [by repeat constructor|]. apply Forall_app_2; [destruct (_ <? 0); by repeat constructor|].
    apply Forall_app_2; [apply pad_ascii|]. apply Forall_app_2; [by repeat constructor|apply pad_ascii].
Qed.

(** Refusal.  An attestation whose instant of issue is not a whole second, whose zone is
    not UTC, or whose evidence is an empty slice that is not nil gets a token that is
    never accepted, unless the bytes of the two identities collide. *)
Theorem UnmarshalEAT_refused a token : encodable a → legible a →
  0 ≤ nsec (IssuedAt a) < 10 ^ 9 → off (IssuedAt a) `mod` 60 = 0 →
  IssuedAt a ≠ whole (IssuedAt a) ∨ AEvidence a = Some [] →
  (∀ b b', identity_bytes a = Ok b → identity_bytes (rebuilt a) = Ok b' → Sum b = Sum b' → b = b') →
  MarshalEAT (Some a) = Ok token → ∀ a', UnmarshalEAT token ≠ Ok a'.
Proof.
  intros He HR%legible_readable Hns Hoff Hbad Hcoll Hm a'. destruct (UnmarshalEAT_spec a token He HR Hm) as (h & Hh & ->).
  intros (h' & Hh'%wrap_err_Ok & Hr)%bind_Ok. destruct (String.eqb_spec (hex_encode (arr h)) (hex_encode (arr h'))) as [E|]; [|done].
  apply hex_encode_inj, arr_inj in E as ->. apply CanonicalHash_bytes in Hh as (b & Hb & ->). apply CanonicalHash_bytes in Hh' as (b' & Hb' & E).
  pose proof (Hcoll b b' Hb Hb' E) as <-. apply identity_tree in Hb as (c & ev & t & v & Hev & Ht & Hb).
  apply identity_tree in Hb' as (c' & ev' & t' & v' & Hev' & Ht' & Hb').
  pose proof (appendJCS_prefix _ _ b b [] [] Hb Hb' ltac:(by left) ltac:(by left) eq_refl) as [Hs _].
  destruct Hbad as [Hbad|Hbad].
  - destruct (same_member _ _ (str_bytes "issuedAt") t Hs) as (k & w & Hin & Hk & Hsw).
    { unfold attestation_fields, field. cbn [app]. repeat first [apply list_elem_of_here|apply list_elem_of_further]. }
    destruct (field_place (str_bytes "issuedAt") w _ _ _ _ _ k w ltac:(by left) Hin Hk eq_refl) as [[_ ->]|[E' _]]; [|by apply str_bytes_inj in E'].
    apply jtime_text in Ht as (x & Hx & ->), Ht' as (y & Hy & ->).
    apply same_text in Hsw as <-; [|by eapply rfc3339_valid..]. apply Hbad.
    apply (inj Some). rewrite <- (parse_time_rfc3339 _ _ Hns Hoff Hx). by apply parse_time_rfc3339.
  - destruct (same_member _ _ (str_bytes "evidence") ev Hs) as (k & w & Hin & Hk & Hsw).
    { unfold attestation_fields, field. cbn [app]. repeat first [apply list_elem_of_here|apply list_elem_of_further]. }
    destruct (field_place (str_bytes "evidence") w _ _ _ _ _ k w ltac:(by right) Hin Hk eq_refl) as [[E' _]|[_ ->]]; [by apply str_bytes_inj in E'|].
    cbn [rebuilt AEvidence] in Hev'. rewrite Hbad in Hev, Hev'. injection Hev as <-. injection Hev' as <-. inversion Hsw.
Qed.

(** Every member of an object that has canonical bytes has them. *)
Lemma member_canonical m b k v : Canonical.appendJCS (Canonical.JObj m) = Ok b → (k, v) ∈ m → ∃ c, Canonical.appendJCS v = Ok c.
Proof.
  intros (m' & bs & Hp & HF & _)%appendJCS_obj Hin. rewrite Hp in Hin. apply list_elem_of_lookup in Hin as [i Hi].
  destruct (Forall2_lookup_l _ _ _ _ _ HF Hi) as (x & _ & (c & Hc & _)). by exists c.
Qed.

Lemma each_ok {E T U} (f : T → outcome E U) l : Forall (λ x, ∃ y, f x = Ok y) l → ∃ ys, each (λ _, f) 0 l = Ok ys.
Proof.
  intros HF. assert (∃ ys, Forall2 (λ x y, f x = Ok y) l ys) as [ys Hys]; [|exists ys; by apply each_Forall2].
  induction HF as [|x l [y Hy] _ [ys IH]]; [by exists []|]. exists (y :: ys). by constructor.
Qed.

Lemma identity_parts a b : identity_bytes a = Ok b → 
  (∃ cap, canonicalJSON (Ok (Capability_json (ACapability a))) = Ok cap) ∧
  (∃ cl, canonicalJSON (Canonical.to_json (AClaim a)) = Ok cl) ∧
  Forall (λ e, ∃ c, canonicalJSON (Canonical.to_json e) = Ok c) (elems (AEvidence a)).
Proof.
  unfold identity_bytes. intros (tree & Ht & Hb)%bind_Ok. unfold Canonical.to_json at 1, Attestation_json in Ht.
  cbn [with_signature AClaim AEvidence IssuedAt AValidity ASignature field_bytes] in Ht.
  apply bind_Ok in Ht as (c & Hc & (ev & Hev & (t & Ht & (v & _ & [= <-])%bind_Ok)%bind_Ok)%bind_Ok).
  pose proof (λ k v, member_canonical _ b k v Hb) as HM. clear Hb. unfold canonicalJSON. split_and!.
  - destruct (HM (str_bytes "capability") (Capability_json (ACapability a))) as [cap Hcap].
    { unfold field. cbn [app]. repeat first [apply list_elem_of_here|apply list_elem_of_further]. }
    exists cap. cbn [mbind outcome_bind]. cbn [ACapability with_signature] in Hcap. by rewrite Hcap.
  - destruct (HM (str_bytes "claim") c) as [cl Hcl].
    { unfold field. cbn [app]. repeat first [apply list_elem_of_here|apply list_elem_of_further]. }
    exists cl. rewrite Hc. cbn [mbind outcome_bind]. by rewrite Hcl.
  - destruct (HM (str_bytes "evidence") ev) as [eb Heb].
    { unfold field. cbn [app]. repeat first [apply list_elem_of_here|apply list_elem_of_further]. }
    destruct (AEvidence a) as [l|]; [|constructor]. cbn [elems default from_option id].
    apply bind_Ok in Hev as (js & Hjs%each_Forall2 & [= <-]). apply appendJCS_arr in Heb as (bs & Hbs & _).
    rewrite list.Forall_forall. intros e [i Hi]%list_elem_of_lookup.
    destruct (Forall2_lookup_l _ _ _ _ _ Hjs Hi) as (j & Hj & Ej). destruct (Forall2_lookup_l _ _ _ _ _ Hbs Hj) as (x & _ & Ex).
    exists x. rewrite Ej. cbn [mbind outcome_bind]. by rewrite Ex.
Qed.

(** The protected header is within what the codec encodes. *)
Lemma protected_ok alg key :
  let hd := (1, CInt (Signature.COSE alg)) :: (if is_empty key then [] else [(4, CBytes (str_bytes key))]) in
  Forall (λ kv, - 2 ^ 63 ≤ kv.1 < 2 ^ 63 ∧ claim_value kv.2) hd ∧ NoDup hd.*1.
Proof.
  intros hd. pose proof (proj1 (COSE_int alg)) as Hco. subst hd.
  split; [|destruct (is_empty key); (apply (bool_decide_unpack _); vm_compute; exact I)].
  apply Forall_cons. split; [split; [cbn [fst]; lia|exact Hco]|].
  destruct (is_empty key); [by apply Forall_nil|]. apply Forall_cons. split; [split; [cbn [fst]; lia|exact I]|by apply Forall_nil].
Qed.

(** An attestation of its Go types has a token exactly when it has an identity. *)
Theorem MarshalEAT_iff a : typed a → (∃ token, MarshalEAT (Some a) = Ok token) ↔ ∃ h, CanonicalHash (Some a) = Ok h.
Proof.
  intros He. split.
  - intros (token & (m & (h & cap & cl & ev & Hh & _)%eatClaims_Ok & _)%bind_Ok). by exists h.
  - intros (h & Hh). pose proof Hh as (b & Hb & _)%CanonicalHash_bytes.
    apply identity_parts in Hb as ((cap & Hcap) & (cl & Hcl) & Hev).
    destruct (each_ok _ _ Hev) as (ev & Hev'). pose proof Hev' as HF%each_Forall2.
    destruct (claim_map_ok a (hex_encode (arr h)) cap cl ev He (hex_ascii _)) as (Hok & Hnd & _); [by symmetry; eapply Forall2_length|].
    unfold MarshalEAT. rewrite (proj2 (eatClaims_Ok a _)) by (by exists h, cap, cl, ev). cbn [mbind outcome_bind].
    unfold marshalCOSESign1, canonicalCBOR.
    destruct (protected_ok (AAlgorithm a) (SigningKeyID a)) as [Hhd Hhn].
    destruct (cbor_encodes_map _ Hhd Hhn) as [pb ->]. cbn [mbind outcome_bind].
    destruct (cbor_encodes_map _ Hok Hnd) as [pl ->]. cbn [mbind outcome_bind].
    destruct (cbor_encodes_sign1 pb pl (ASignature a)) as [token ->]. by exists token.
Qed.
End Roundtrip.
End Proofs.

(** ** The hypotheses can hold

    A codec that writes the code of a value, bit by bit. *)
Module ToyEat.

Fixpoint to_tree (v : CborItem) : gen_tree (Z + string) :=
  match v with
  | CInt z => GenLeaf (inl z)
  | CText s => GenLeaf (inr s)
  | CBytes b => GenNode 0 [GenLeaf (inr (String.string_of_list_byte b))]
  | CArray l => GenNode 1 (to_tree <$> l)
  | CMap m => GenNode 2 ((λ kv, GenNode 0 [GenLeaf (inl kv.1); to_tree kv.2]) <$> m)
  end.

Fixpoint of_tree (t : gen_tree (Z + string)) : CborItem :=
  match t with
  | GenLeaf (inl z) => CInt z
  | GenLeaf (inr s) => CText s
  | GenNode 0 [GenLeaf (inr s)] => CBytes (str_bytes s)
  | GenNode 1 l => CArray (of_tree <$> l)
  | GenNode 2 m => CMap ((λ t, match t with GenNode 0 [GenLeaf (inl z); t] => (z, of_tree t) | _ => (0, CInt 0) end) <$> m)
  | _ => CInt 0
  end.

Fixpoint of_to_tree (v : CborItem) : of_tree (to_tree v) = v.
Proof.
  destruct v as [z|s|b|l|m]; cbn [to_tree of_tree]; try done.
  - by rewrite str_bytes_of_list.
  - f_equal. rewrite <- list_fmap_compose. induction l as [|v l IH]; [done|]. rewrite fmap_cons. f_equal; [apply of_to_tree|exact IH].
  - f_equal. rewrite <- list_fmap_compose. induction m as [|[k v] m IH]; [done|]. rewrite fmap_cons. f_equal; [|exact IH].
    cbn. f_equal. apply of_to_tree.
Qed.

Fixpoint bits (p : positive) : bytes := match p with xH => [] | xO p => x00 :: bits p | xI p => x01 :: bits p end.
Fixpoint unbits (b : bytes) : positive :=
  match b with [] => xH | x00 :: b => xO (unbits b) | _ :: b => xI (unbits b) end.

Lemma unbits_bits p : unbits (bits p) = p.
Proof. induction p; cbn; congruence. Qed.

Definition write (v : CborItem) : bytes := bits (encode (to_tree v)) ++ [x00].
Definition read (b : bytes) : option CborItem := of_tree <$> decode (unbits (take (length b - 1) b)).

Lemma read_write v : read (write v) = Some v.
Proof.
  unfold read, write. rewrite length_app. change (length [x00]) with 1%nat. rewrite Nat.add_sub, take_app_length.
  rewrite (unbits_bits (encode (to_tree v))), (countable.decode_encode (to_tree v)). cbn. by rewrite of_to_tree.
Qed.

#[local] Instance toy_cbor : EatCbor := {|
  cbor_encode v := Some (write v);
  cbor_items b := match read b with Some (CArray l) => Some (write <$> l) | _ => None end;
  cbor_bytes b := match read b with Some (CBytes b) => Some b | _ => None end;
  cbor_claims b := match read b with Some (CMap m) => Some (Some (any_of <$> list_to_map m)) | _ => None end
|}.

#[local] Instance toy_cbor_laws : EatCborLaws.
Proof.
  split; cbn.
  - intros m _ _. by eexists.
  - intros a b c. by eexists.
  - intros m b _ _ _ [= <-]. rewrite read_write. split; [|done]. unfold write. by destruct (bits _).
  - intros a b c t [= <-]. rewrite read_write. do 4 eexists. split; [reflexivity|]. by rewrite !read_write.
Qed.

#[local] Instance toy_json_cbor : Canonical.CborLib := λ _ _, Ok [].
#[local] Instance toy_arch : Arch := λ _, 0.

(** A claim with a value of every kind, and evidence with metadata. *)
Definition toy_value : any := Canonical.JObj [(str_bytes "a", Canonical.JArr [Canonical.JNum (str_bytes "1.5"); Canonical.JNull]);
  (str_bytes "b", Canonical.JStr (str_bytes "x"))].
Definition toy_scope : Scope :=
  {| Resources := ["doc"%string]; Subjects := []; Actions := []; Organizations := []; Geography := []; Channels := [];
     Window := Some (MkTimeWindow (of_unix 5) (MkTime (unix_epoch + 7) 120000000 (-19800)));
     Quantity_ := Some (MkQuantity "documents" 3);
     Monetary_ := Some (MkMonetary "USD" (default (S754_zero false) (Canonical.ParseFloat (str_bytes "2.5")))) |}.
Definition toy_claim : Claim.Claim :=
  {| Claim.Issuer := "did:example:root"; Claim.CSubject := "did:example:s"; Claim.Type_ := Claim.MkClaimType "ex" "t";
     Claim.Value := Some toy_value; Claim.CScope := toy_scope;
     Claim.CValidity := MkValidity (of_unix 1710000000) (of_unix 1720000000);
     Claim.CProvenance := Claim.MkProvenance "s" "m" (of_unix 1710000000) |}.
Definition toy_evidence : Evidence.Evidence :=
  {| Evidence.Identifier := "e1"; Evidence.ContentHash := Some (arr (Sum [x01; x02; x03])); Evidence.MediaType := "text/plain";
     Evidence.Locator := "file:e1"; Evidence.EProvenance := Claim.MkProvenance "s" "m" (of_unix 1710000000);
     Evidence.Metadata := [(str_bytes "k", toy_value)] |}.

Definition toy : Attestation :=
  {| AIssuer := "did:example:root"; SigningKeyID := "k1"; SigningKeyVersion := 1; AuthorityRef := "ab";
     ACapability := CapabilityAttest; AClaim := toy_claim; AEvidence := Some [toy_evidence]; IssuedAt := of_unix 1710000000;
     AValidity := MkValidity (of_unix 1710000000) (of_unix 1720000000); AStatus := StatusActive;
     AAlgorithm := Signature.AlgorithmEdDSA; ASignature := [x07] |}.
Definition toy_token : bytes := match MarshalEAT (Some toy) with Ok t => t | _ => [] end.

Lemma toy_encodable : encodable toy.
Proof. split; [split|..]; vm_compute; try done; intuition congruence. Qed.

Lemma toy_settled n : 2 ≤ n → settled n toy_value.
Proof.
  intros Hn. split.
  - cbn [toy_value canonical_numbers foldr snd]. split; [lia|]. split; [|by split]. split; [lia|]. split; [|by split].
    split; vm_compute; reflexivity.
  - split; [apply (bool_decide_unpack _); vm_compute; exact I|]. split; [vm_compute; reflexivity|]. vm_compute. tauto.
Qed.

Lemma toy_stamps : stamp (of_unix 1710000000) ∧ stamp (of_unix 1720000000) ∧ stamp (of_unix 5) ∧
  stamp (MkTime (unix_epoch + 7) 120000000 (-19800)).
Proof. vm_compute. intuition congruence. Qed.

Lemma toy_scope_legible : scope_legible toy_scope.
Proof.
  destruct toy_stamps as (_ & _ & H1 & H2). split; [|split_and!].
  - repeat first [apply Forall_nil; exact I|apply Forall_cons; split]. by vm_compute.
  - intros w [= <-]. by split.
  - intros q [= <-]. by split; vm_compute.
  - intros m [= <-]. split; [by vm_compute|]. exists (str_bytes "2.5"). split; [vm_compute; reflexivity|].
    split; [|vm_compute; reflexivity]. intros n. split; vm_compute; reflexivity.
Qed.

Lemma toy_legible : legible toy.
Proof.
  destruct toy_stamps as (H1 & H2 & _). split.
  - split; by vm_compute.
  - split; [split_and!; by vm_compute| |exact toy_scope_legible|by split|by split_and!; [vm_compute..|]].
    intros v [= <-]. split; [by apply toy_settled|done].
  - apply Forall_cons. split; [|by apply Forall_nil]. split; [split_and!; by vm_compute|by split_and!; [vm_compute..|]|]. split.
    + cbn [toy_evidence Evidence.Metadata canonical_numbers foldr snd]. split; [done|]. split; [|done]. by apply toy_settled.
    + split; [apply (bool_decide_unpack _); vm_compute; exact I|]. split; [vm_compute; reflexivity|].
      cbn [toy_evidence Evidence.Metadata foldr fst snd]. split; [|done]. split; [by vm_compute|]. by apply (toy_settled 2).
Qed.

Lemma toy_marshals : MarshalEAT (Some toy) = Ok toy_token.
Proof.
  assert (match MarshalEAT (Some toy) with Ok _ => true | _ => false end = true) as E by (vm_compute; reflexivity).
  unfold toy_token. destruct (MarshalEAT (Some toy)); [reflexivity|discriminate E..].
Qed.

Lemma toy_unmarshals : UnmarshalEAT toy_token = Ok toy.
Proof.
  destruct (UnmarshalEAT_spec toy toy_token toy_encodable (legible_readable toy toy_legible) toy_marshals) as (h & Hh & ->).
  change (rebuilt toy) with toy. rewrite Hh. cbn [wrap_err mbind outcome_bind]. by rewrite String.eqb_refl.
Qed.

(** The same without evidence, as a slice that is not nil. *)
Definition toy_empty : Attestation :=
  {| AIssuer := AIssuer toy; SigningKeyID := SigningKeyID toy; SigningKeyVersion := SigningKeyVersion toy; AuthorityRef := AuthorityRef toy;
     ACapability := ACapability toy; AClaim := AClaim toy; AEvidence := Some []; IssuedAt := IssuedAt toy; AValidity := AValidity toy;
     AStatus := AStatus toy; AAlgorithm := AAlgorithm toy; ASignature := ASignature toy |}.
Definition toy_empty_token : bytes := match MarshalEAT (Some toy_empty) with Ok t => t | _ => [] end.

Lemma toy_empty_encodable : encodable toy_empty.
Proof. split; [split|..]; vm_compute; try done; intuition congruence. Qed.

Lemma toy_empty_legible : legible toy_empty.
Proof. destruct toy_legible. split; [done|done|by apply Forall_nil]. Qed.

Lemma toy_empty_marshals : MarshalEAT (Some toy_empty) = Ok toy_empty_token.
Proof.
  assert (match MarshalEAT (Some toy_empty) with Ok _ => true | _ => false end = true) as E by (vm_compute; reflexivity).
  unfold toy_empty_token. destruct (MarshalEAT (Some toy_empty)); [reflexivity|discriminate E..].
Qed.

Lemma toy_no_collision b b' : identity_bytes toy_empty = Ok b → identity_bytes (rebuilt toy_empty) = Ok b' → Sum b = Sum b' → b = b'.
Proof.
  intros Hb Hb' E.
  assert (match identity_bytes toy_empty, identity_bytes (rebuilt toy_empty) with
          | Ok b, Ok b' => negb (bytes_eqb (arr (Sum b)) (arr (Sum b'))) | _, _ => true end = true) as X by (vm_compute; reflexivity).
  rewrite Hb, Hb', E in X. rewrite (proj2 (bytes_eqb_eq _ _)) in X; done.
Qed.

Lemma UnmarshalEAT_MarshalEAT_witness : UnmarshalEAT toy_token = Ok toy.
Proof.
  apply (UnmarshalEAT_MarshalEAT toy toy_token toy_encodable toy_legible); [reflexivity|exact toy_marshals].
Defined.

Lemma UnmarshalEAT_sound_witness : ∃ claims sig h, envelope toy_token claims sig ∧ ASignature toy = sig ∧ CanonicalHash (Some toy) = Ok h ∧
    claims !! ClaimCWTID = Some (VText (hex_encode (arr h))) ∧ claims !! ClaimIssuer = Some (VText (AIssuer toy)) ∧
    AIssuer toy ≠ ""%string ∧ (AAlgorithm toy = 0 ∨ registered (AAlgorithm toy)) ∧ (AStatus toy = 0 ∨ known_status (AStatus toy) = true) ∧
    AEvidence toy ≠ Some [] ∧
    (∀ t, t = IssuedAt toy ∨ t = NotBefore (AValidity toy) ∨ t = NotAfter (AValidity toy) → nsec t = 0 ∧ off t = 0).
Proof. exact (UnmarshalEAT_sound toy_token toy toy_unmarshals). Defined.

Lemma UnmarshalEAT_refused_witness : ∀ a', UnmarshalEAT toy_empty_token ≠ Ok a'.
Proof.
  apply (UnmarshalEAT_refused toy_empty toy_empty_token toy_empty_encodable toy_empty_legible).
  - vm_compute. split; congruence.
  - reflexivity.
  - right. reflexivity.
  - exact toy_no_collision.
  - exact toy_empty_marshals.
Defined.

Lemma MarshalEAT_iff_witness : (∃ token, MarshalEAT (Some toy) = Ok token) ↔ ∃ h, CanonicalHash (Some toy) = Ok h.
Proof. exact (MarshalEAT_iff toy (enc_typed toy toy_encodable)). Defined.

(** The same before it is signed. *)
Definition toy_unsigned : Attestation := with_signature (with_metadata toy 0 "k1") [].
Definition toy_unsigned_token : bytes := match MarshalEAT (Some toy_unsigned) with Ok t => t | _ => [] end.

Lemma toy_unsigned_marshals : MarshalEAT (Some toy_unsigned) = Ok toy_unsigned_token.
Proof.
  assert (match MarshalEAT (Some toy_unsigned) with Ok _ => true | _ => false end = true) as E by (vm_compute; reflexivity).
  unfold toy_unsigned_token. destruct (MarshalEAT (Some toy_unsigned)); [reflexivity|discriminate E..].
Qed.

Lemma UnmarshalEAT_unsigned_witness : UnmarshalEAT toy_unsigned_token = Err ErrInvalidClaims.
Proof.
  apply (UnmarshalEAT_unsigned toy_unsigned).
  - destruct toy_encodable as [[? ? ? ? ?] _ _ _]. by split.
  - right. intros [Ha _]. exact (Ha eq_refl).
  - exact toy_unsigned_marshals.
Defined.
End ToyEat.
