(* ===== verification/Hpke.v ===== *)
(** * HPKE

    A translation of src/crypto/envelope/hpke.go (and of [GenerateKEK] of aes_kw.go), the adapter over
    github.com/cloudflare/circl/hpke: the class [HpkeLib], with the contract of RFC 9180
    in [HpkeLaws].  A sealer and an opener count the messages, so sealing and opening
    return the context after the call. *)
From S2P Require Import Prelude GoIO CryptoKeys CryptoKeysProofs.
#[local] Open Scope Z_scope.

(** The schemes' keys, their parsers, and the contexts of the base mode.
    [hpke_sender_setup] draws the ephemeral key from [crypto/rand]; [hpke_seal] fails, or
    panics as AES-GCM does on a text that is too long; [hpke_open] returns [None] on an
    error. *)
Class HpkeLib (W : Type) : Type := {
  KemPublic : Type;
  KemPrivate : Type;
  HpkeSender : Type;
  HpkeReceiver : Type;
  Sealer : Type;
  Opener : Type;
  kem_public : bytes → option KemPublic;
  kem_private : bytes → option KemPrivate;
  hpke_new_sender : KemPublic → bytes → option HpkeSender;
  hpke_new_receiver : KemPrivate → bytes → option HpkeReceiver;
  hpke_sender_setup : HpkeSender → ext W unit (bytes * Sealer);
  hpke_receiver_setup : HpkeReceiver → bytes → option Opener;
  hpke_seal : Sealer → bytes → bytes → outcome unit bytes * Sealer;
  hpke_open : Opener → bytes → bytes → option bytes * Opener
}.

Module Hpke.
Import X25519.

Inductive error : Type :=
| ErrInvalidEnc
| ErrDecryptionFailed
| ErrInvalidSuite
| ErrPublicKey
| ErrPrivateKey
| ErrNewSender
| ErrNewReceiver
| ErrSetup
| ErrSeal.

Definition kemX25519 : Z := 0x0020.
Definition kdfHKDFSHA256 : Z := 0x0001.
Definition aeadAES128GCM : Z := 0x0001.

Record Suite : Type := MkSuite { KEMID : Z; KDFID : Z; AEADID : Z }.

Definition DefaultSuite : Suite := MkSuite kemX25519 kdfHKDFSHA256 aeadAES128GCM.

(** ** aes_kw.go: a key-encryption key *)

Inductive kek_error : Type := ErrKEK.

Definition GenerateKEK `{!Random W} : io W kek_error bytes := run (λ _, ErrKEK) (rand_read 32).

(** ** hpke.go *)

Section Operations.
Context {W : Type} `{L : !HpkeLib W}.

Record Sender : Type := MkSender { sealer : Sealer }.
Record Receiver : Type := MkReceiver { opener : Opener }.

(** A nil key panics. *)
Definition toKEMPublicKey (pub : option PublicKey) : outcome error KemPublic :=
  match pub with
  | None => Panic
  | Some p => match kem_public (arr (PublicBytes p)) with Some k => Ok k | None => Err ErrPublicKey end
  end.

Definition toKEMPrivateKey (priv : option PrivateKey) : outcome error KemPrivate :=
  match priv with
  | None => Panic
  | Some p => match kem_private (arr (PrivateBytes p)) with Some k => Ok k | None => Err ErrPrivateKey end
  end.

Definition SetupSender (receiverPub : option PublicKey) (info : bytes) : io W error (Sender * bytes) :=
  pkR ← pure (toKEMPublicKey receiverPub);
  sender ← pure (match hpke_new_sender pkR info with Some s => Ok s | None => Err ErrNewSender end);
  '(enc, s) ← run (λ _, ErrSetup) (hpke_sender_setup sender);
  mret (MkSender s, enc).

Definition SetupReceiver (enc : bytes) (receiverPriv : option PrivateKey) (info : bytes) : outcome error Receiver :=
  if negb (zlen enc =? 32) then Err ErrInvalidEnc
  else
    skR ← toKEMPrivateKey receiverPriv;
    receiver ← match hpke_new_receiver skR info with Some r => Ok r | None => Err ErrNewReceiver end;
    match hpke_receiver_setup receiver enc with Some o => Ok (MkReceiver o) | None => Err ErrSetup end.

(** The context of the receiver of the method advances. *)
Definition Seal (plaintext aad : bytes) : io Sender error bytes := λ s,
  let '(ct, s') := hpke_seal (sealer s) plaintext aad in
  (wrap_err (λ _, ErrSeal) ct, MkSender s').

Definition Open (ciphertext aad : bytes) : io Receiver error bytes := λ r,
  let '(pt, o') := hpke_open (opener r) ciphertext aad in
  (match pt with Some pt => Ok pt | None => Err ErrDecryptionFailed end, MkReceiver o').
End Operations.
End Hpke.
Import X25519 Hpke.

(** What RFC 9180 promises.  The receiver's setup over the encapsulated key, under the key
    pair and the info of the sender's, gives the paired context, and what one of a pair
    seals the other opens to the text sealed, both stepping to the next message. *)
Class HpkeLaws `{X : X25519Lib, L : HpkeLib W} (paired : Sealer → Opener → Prop) : Prop := {
  hpke_setup_pairs priv pub pk sk info snd w enc s w' : Public priv = Ok pub →
    kem_public (arr (PublicBytes pub)) = Some pk → kem_private (arr (PrivateBytes priv)) = Some sk →
    hpke_new_sender pk info = Some snd → hpke_sender_setup snd w = (inr (enc, s), w') →
    length enc = 32%nat ∧ ∃ rcv o, hpke_new_receiver sk info = Some rcv ∧ hpke_receiver_setup rcv enc = Some o ∧ paired s o;
  hpke_private_parses priv : is_Some (kem_private (arr (PrivateBytes priv)));
  hpke_seal_opens s o pt aad ct s' : paired s o → hpke_seal s pt aad = (Ok ct, s') →
    ∃ o', hpke_open o ct aad = (Some pt, o') ∧ paired s' o'
}.

Section Proofs.
Context {W : Type} `{X : X25519Lib, L : !HpkeLib W}.

Lemma SetupSender_Ok pub info w snd enc w' : SetupSender pub info w = (Ok (snd, enc), w') ↔
  ∃ p pk s0, pub = Some p ∧ kem_public (arr (PublicBytes p)) = Some pk ∧ hpke_new_sender pk info = Some s0 ∧
    hpke_sender_setup s0 w = (inr (enc, sealer snd), w').
Proof.
  unfold SetupSender. rewrite io_bind_Ok. setoid_rewrite pure_Ok. split.
  - intros (pk & w1 & [Hpk ->] & (s0 & w2 & [Hs0 ->]%pure_Ok & ([e s] & w3 & Hs & [= <- <- <-])%io_bind_Ok)%io_bind_Ok).
    apply run_Ok in Hs. unfold toKEMPublicKey in Hpk. destruct pub as [p|]; [|done].
    destruct (kem_public _) eqn:Ek; [|done]. injection Hpk as ->. destruct (hpke_new_sender pk info) eqn:En; [|done]. injection Hs0 as ->.
    by exists p, pk, s0.
  - intros (p & pk & s0 & -> & Ek & En & Hs). exists pk, w. split; [split; [|done]; cbn; by rewrite Ek|].
    apply io_bind_Ok. exists s0, w. split; [apply pure_Ok; by rewrite En|]. apply io_bind_Ok. exists (enc, sealer snd), w'.
    split; [by apply run_Ok|]. by destruct snd.
Qed.

(** A conversation: the messages of [ms], each a text and its associated data, sealed in
    order. *)
Fixpoint seal_all (ms : list (bytes * bytes)) : io Sender error (list (bytes * bytes)) :=
  match ms with
  | [] => mret []
  | (pt, aad) :: ms => ct ← Seal pt aad; cts ← seal_all ms; mret ((ct, aad) :: cts)
  end.

(** The same opened in order. *)
Fixpoint open_all (cts : list (bytes * bytes)) : io Receiver error (list bytes) :=
  match cts with
  | [] => mret []
  | (ct, aad) :: cts => pt ← Open ct aad; pts ← open_all cts; mret (pt :: pts)
  end.

Section Paired.
Context (paired : Sealer → Opener → Prop) {LW : HpkeLaws paired}.

Definition in_step (s : Sender) (r : Receiver) : Prop := paired (sealer s) (opener r).

Lemma Seal_in_step s r ct aad pt s' : in_step s r → Seal pt aad s = (Ok ct, s') →
  ∃ r', Open ct aad r = (Ok pt, r') ∧ in_step s' r'.
Proof.
  intros Hp. unfold Open, Seal. destruct (hpke_seal (sealer s) pt aad) as [c s1] eqn:E. intros [= ->%wrap_err_Ok <-].
  destruct (hpke_seal_opens _ _ _ _ _ _ Hp E) as (o' & -> & Hp'). by exists (MkReceiver o').
Qed.

Lemma open_all_sealed ms s r cts s' : in_step s r → seal_all ms s = (Ok cts, s') →
  ∃ r', open_all cts r = (Ok ms.*1, r') ∧ in_step s' r'.
Proof.
  revert s r cts. induction ms as [|[pt aad] ms IH]; intros s r cts Hp.
  - intros [= <- <-]. by exists r.
  - cbn [seal_all]. intros (ct & s1 & Hs & (rest & s2 & Hr & [= <- <-])%io_bind_Ok)%io_bind_Ok.
    destruct (Seal_in_step _ _ _ _ _ _ Hp Hs) as (r1 & Ho & Hp1). destruct (IH _ _ _ Hp1 Hr) as (r2 & Hr2 & Hp2).
    exists r2. split; [|done]. cbn [open_all fmap list_fmap fst]. apply io_bind_Ok. exists pt, r1. split; [done|].
    apply io_bind_Ok. by exists ms.*1, r2.
Qed.

(** The whole exchange.  Between a sender and the receiver whose key it was set up with, a
    conversation is received as it was sent: both contexts are established, and every
    message opens, in order, to its text. *)
Theorem conversation_received priv pub info w snd enc w' ms cts snd' :
  Public priv = Ok pub → SetupSender (Some pub) info w = (Ok (snd, enc), w') → seal_all ms snd = (Ok cts, snd') →
  ∃ rcv, SetupReceiver enc (Some priv) info = Ok rcv ∧ (open_all cts rcv).1 = Ok ms.*1.
Proof.
  intros Hpub (p & pk & s0 & [= <-] & Hpk & Hs0 & Hset)%SetupSender_Ok Hms. destruct (hpke_private_parses priv) as [sk Hsk].
  destruct (hpke_setup_pairs _ _ _ _ _ _ _ _ _ _ Hpub Hpk Hsk Hs0 Hset) as (Hlen & rcv & o & Hrcv & Ho & Hp).
  exists (MkReceiver o). split.
  - unfold SetupReceiver. rewrite Hlen. change (negb (Z.of_nat 32 =? 32)) with false. cbv match.
    cbn [toKEMPrivateKey]. rewrite Hsk. cbn [mbind outcome_bind]. rewrite Hrcv. cbn [mbind outcome_bind]. by rewrite Ho.
  - by destruct (open_all_sealed ms snd (MkReceiver o) cts snd' Hp Hms) as (r' & -> & _).
Qed.
End Paired.
End Proofs.

(** ** The hypotheses can hold

    The key agreement of the toy keys, and a tag of the count, the secret and the
    associated data in front of the text. *)
Module ToyHpke.
Import ToyKeys.
#[local] Existing Instance x25519.

Definition ephemeral : bytes := replicate 32 x05.
Definition tag (k : bytes * Z) (aad : bytes) : bytes := be_bytes 8 k.2 ++ k.1 ++ aad.
Definition next (k : bytes * Z) : bytes * Z := (k.1, k.2 + 1).

Definition opens (k : bytes * Z) (ct aad : bytes) : option bytes * (bytes * Z) :=
  let t := tag k aad in
  if bytes_eqb (take (length t) ct) t then (Some (drop (length t) ct), next k) else (None, k).

Lemma opens_tagged k pt aad : opens k (tag k aad ++ pt) aad = (Some pt, next k).
Proof. unfold opens. rewrite take_app_length, drop_app_length. by rewrite (proj2 (bytes_eqb_eq _ _)). Qed.

#[local] Instance hpke : HpkeLib unit := {|
  KemPublic := bytes; KemPrivate := bytes; HpkeSender := bytes * bytes; HpkeReceiver := bytes * bytes;
  Sealer := bytes * Z; Opener := bytes * Z;
  kem_public b := Some b; kem_private b := Some b;
  hpke_new_sender pk info := Some (pk, info);
  hpke_new_receiver sk info := Some (sk, info);
  hpke_sender_setup s w := (inr (scale ephemeral curve25519_basepoint, (scale ephemeral s.1 ++ s.2, 0)), w);
  hpke_receiver_setup r enc := Some (scale r.1 enc ++ r.2, 0);
  hpke_seal k pt aad := (Ok (tag k aad ++ pt), next k);
  hpke_open := opens
|}.

Lemma toy_agree (priv : PrivateKey) pub info : MkPublic (copy32 (scale (arr (priv_key priv)) curve25519_basepoint)) = pub →
  (scale ephemeral (arr (PublicBytes pub)) ++ info, 0) = (scale (arr (PrivateBytes priv)) (scale ephemeral curve25519_basepoint) ++ info, 0).
Proof.
  intros <-. unfold PublicBytes, PrivateBytes. cbn [pub_key].
  rewrite arr_copy32; [by rewrite scale_comm|]. unfold scale. rewrite length_zip_with, arr_length. reflexivity.
Qed.

Definition alike (s o : bytes * Z) : Prop := s = o.

#[local] Instance hpke_laws : HpkeLaws (W := unit) alike.
Proof.
  split.
  - intros priv pub pk sk info snd w enc s w' Hpub Hpk Hsk Hs Hset. apply (inj Some) in Hpk, Hsk, Hs. subst pk sk snd.
    apply (f_equal fst) in Hset. apply (inj inr) in Hset. assert (fst (enc, s) = enc) as E1 by done. assert (snd (enc, s) = s) as E2 by done. rewrite <- Hset in E1, E2. subst enc s.
    split; [vm_compute; reflexivity|]. do 2 eexists. do 2 (split; [reflexivity|]). apply toy_agree. clear Hset.
    change (Ok (E := X25519.error) (MkPublic (copy32 (scale (arr (priv_key priv)) curve25519_basepoint))) = Ok pub) in Hpub. congruence.
  - intros priv. by eexists.
  - intros s o pt aad ct s' -> E. change ((Ok (E := ()) (tag o aad ++ pt), next o) = (Ok ct, s')) in E.
    injection E as <- <-. exists (next o). split; [|done]. apply opens_tagged.
Qed.

Definition receiver_key : PrivateKey := MkPrivate (copy32 (replicate 32 x03)).
Definition receiver_pub : PublicKey := match Public receiver_key with Ok p => p | _ => MkPublic (copy32 []) end.
Definition texts : list (bytes * bytes) := [([x61], []); ([x62; x63], [x01])].
Definition snd0 : Sender (L := hpke) := MkSender (L := hpke) (scale ephemeral (arr (pub_key receiver_pub)) ++ [x09], 0).
Definition sealed : list (bytes * bytes) := match seal_all texts snd0 with (Ok l, _) => l | _ => [] end.

Lemma conversation_received_witness : ∃ rcv, SetupReceiver (scale ephemeral curve25519_basepoint) (Some receiver_key) [x09] = Ok rcv ∧
  (open_all sealed rcv).1 = Ok texts.*1.
Proof.
  apply (conversation_received (L := hpke) alike receiver_key receiver_pub [x09] tt snd0 (scale ephemeral curve25519_basepoint) tt texts sealed
    (MkSender (L := hpke) (next (next (sealer (L := hpke) snd0))))); vm_compute; reflexivity.
Defined.
End ToyHpke.
